(* ===== verification/_CoqProject ===== *)
-Q . S2P
Prelude.v
Ut.v
StrCommon.v
QValue.v
HashFunc.v
DlgTimer.v
DlgHash.v
DlgDb.v
DlgHandlers.v
DlgSafety.v
Dset.v
Ucontact.v
Udomain.v
UlApi.v
UlTable.v
RegMsg.v
Registrar.v
RegSpec.v
FMalloc.v
TmReply.v
TmSafety.v
TmLive.v
TmTable.v
Lumps.v
MsgBuild.v
MsgSpec.v
ReplySpec.v
ParseUri.v
UriSpec.v
UriPrint.v
Loose.v
LooseSpec.v
LooseParam.v
RecRoute.v
RecSpec.v
TcpRead.v
TcpSpec.v
TmTimer.v
TmTimerSpec.v
TmSched.v
Avp.v
AvpSpec.v
Auth.v
AuthSpec.v
