(* ===== verification/Prelude.v ===== *)
(** * OpenSER: a verification library

    OpenSER is a SIP server.  A request that arrives is parsed, runs through the script of
    the configuration and is answered, or forwarded along one or more branches; the reply
    that goes back is chosen among those of the branches.  The core ([src/]) gives the
    modules ([src/modules/]) strings, memory, timers and the message; the modules keep the
    state: [usrloc] and [registrar] the addresses users have registered, [tm] the
    transactions, [dialog] the calls.  This library models those and proves what they
    promise.

    ** Files

    Foundations.
    - [Prelude]: machine integers, bytes, computations that can commit a memory error
      ([res]), tactics and generic lemmas.
    - [Ut] ([ut.h], [trim.h]): conversions of numbers, comparison, trimming, un-escaping.
    - [StrCommon] ([strcommon.c]): escaping.  [QValue] ([qvalue.c], [qvalue.h]): q values.
      [HashFunc] ([hash_func.h], [flags.c]): the hash of all tables, and flags.
    - [Dset] ([dset.c]): the branches of the request being processed.
    - [FMalloc] ([mem/f_malloc.c]): the allocator of private and shared memory, on a heap
      of fragment headers.

    Dialogs ([modules/dialog]).
    - [DlgTimer] ([dlg_timer.c]): the linked list of timer cells, on a heap.
    - [DlgHash] ([dlg_hash.c]): the table of dialogs, reference counts, [next_state_dlg].
    - [DlgDb] ([dlg_db_handler.c]): saving and loading.
    - [DlgHandlers] ([dlg_handlers.c]): the callbacks.
    - [DlgSafety]: the runs of these callbacks.

    Registrations ([modules/usrloc], [modules/registrar]).
    - [Ucontact] ([ucontact.c], [urecord.c]): contacts and records, in memory and in the
      table of the database.
    - [Udomain] ([udomain.c], [hslot.c], [notify.c]): the hash table of records.
    - [UlTable]: the timer and the start-up against the table.
    - [UlApi] ([usrloc.h]): the interface of user location as a class of operations and a
      class of laws, with the domain as its instance.
    - [RegMsg] ([sip_msg.c], [common.c], [reply.c]): what is taken from a REGISTER request
      and printed into its reply.
    - [Registrar] ([save.c], [lookup.c]): saving and looking up, through [UlApi] only.
    - [RegSpec]: its theorems, from the laws of [UlApi].

    Transactions ([modules/tm]).
    - [TmReply] ([t_reply.c], [t_fwd.c], [t_cancel.c], [timer.c]): branches, the choice
      and relaying of replies, cancelling, failover, failure routes, timer handlers.
    - [TmSafety]: the runs of a transaction.  [TmLive]: that they end.
    - [TmTable] ([h_table.c], [t_lookup.c], [msg_translator.c]): the table of transactions,
      the matching of requests and replies to them, the branch parameter of a Via.
    - [TmTimer] ([timer.c], [timer.h]): the linked timer lists with their groups of equal
      expiry, on a heap.  [TmTimerSpec]: each operation on them as one on an ordered list.
      [TmSched]: all sequences of operations against a schedule.

    Messages.
    - [ParseUri] ([parser/parse_uri.c]): the automaton of the URI parser.  [UriSpec]: the
      layout of what it accepts.  [UriPrint]: printing and parsing back.
    - [Lumps] ([data_lump.c], [msg_translator.c]): the lists of edits of a message, the pass
      that computes the new length and the one that writes, with the byte-by-byte meaning
      of the edits.
    - [MsgBuild] ([msg_translator.c], [data_lump_rpl.c]): requests and replies as they are
      sent, with Via, received, rport, Content-Length.  [MsgSpec], [ReplySpec]: their
      theorems.
    - [Loose] ([modules/rr/loose.c], [parse_headers]): loose and strict routing.
      [LooseSpec]: against a decision over the list of routes.  [LooseParam]: the
      parameters of a route.
    - [RecRoute] ([modules/rr/record.c]): record routing.  [RecSpec]: the headers it writes.
    - [TcpRead] ([tcp_read.c]): cutting the stream of a TCP connection into requests.
      [TcpSpec]: against a reference over its lines.

    Script and users.
    - [Avp] ([usr_avp.c]): attribute-value pairs and their aliases.  [AvpSpec]: searching,
      enumerating, destroying; names in another case.
    - [Auth] ([modules/auth], [modules/auth_db/authorize.c]): nonces, digests, the challenge
      and the check of its answer.  [AuthSpec]: who is authorized.

    ** Modelling

    Every function is a definition with the name it has in the source.  State is passed
    explicitly, as a record; where the code works on linked structures with pointers
    ([DlgTimer], [DlgHash], [FMalloc], [TmTimer]) the state is a heap by address and an access to
    memory that is not there is a fault of [res].  Elsewhere a linked list is the list of
    its elements.  What lies outside (the database, free memory, the parsers of headers,
    the network, the routes of the script) is an argument: the outcome of each call, or a
    function with a hypothesis that says what it may do.  Each operation runs under the
    lock of its structure and is one step; runs are sequences of such steps ([Inductive]
    reachability), so all interleavings at that grain are covered.  The dialog handlers take
    and release the lock several times; in the runs of [DlgSafety] a whole handler is one
    step, and what other processes do inside one is not covered.

    Fuel.  Loops over linked structures have as fuel one more than the number of cells
    ([FMalloc.enough], the walks of [DlgTimer], [TmTimer.fuel]); the theorems show that the
    code returns, so the fuel suffices.  [Avp.destroy_avps] gets a round more than the list
    has pairs, [Avp.add_avp_galias_str] one more than the text has characters.  [FMalloc.big_hash_loop] shifts at most 64 times.
    [Loose.param_loop] gets one round more than the text has bytes, and every round takes
    at least one ([LooseParam.route_param_found]).
    [TcpRead.parse_loop] gets one round for each byte not parsed, [TcpRead.read_loop] one
    more than the buffer holds ([TcpSpec.stream_framed] shows that every call returns).

    ** Theorems

    Each theorem states its conditions, and where the code fails outside them a theorem
    shows the failure; the comment in front of it names both.

    - Dialogs: the reference counts and the callbacks of all reachable states are right, and
      every handler returns except in the cases shown to fault ([DlgSafety]); the state
      machine and the timer list refine their abstract counterparts, saved dialogs are
      restored, route sets and the Record-Route parameter fit their buffers and are read
      back.
    - Registrations: the invariant of the domain, the agreement of memory and table through
      the operations of the modes that keep both, the timer and the start-up; a REGISTER
      request binds what it asks for, and a lookup finds it, for any implementation of the
      interface that keeps its laws (the domain does, outside [DB_ONLY]).
    - Transactions: the best branch is chosen; in all runs with memory for error replies
      the stored reply that is relayed is there, at most one final reply goes upstream; a
      forwarded request whose branches were sent and whose other side stays silent ends on
      the wait timer after boundedly many timers, and one with a branch that was not sent
      hangs; a reply is matched to the branch whose parameter it carries, and a retransmitted
      request to its transaction; the timer lists stay whole, hold and give out just the
      timers they should in order, and retransmissions double their interval.
    - URIs: the parser returns on every input with fields inside it; put together again the
      fields of a sip or sips URI give the text, and a printed sip URI is parsed back.
    - Messages: a request is sent with exactly the edits asked for, in a buffer of exactly
      its length, and with the true length of its body; a reply fits its buffer.
    - Routing: a request from a loose router is routed as a reference over all its routes
      decides, and loses exactly the routes used up; record routing writes exactly the
      headers of its reference, and parameters can be added to them at any time; marks and
      parameters of a route are read as they are written.
    - TCP: the requests read from a connection are those of the stream, however it is cut,
      and a client that sends requests with their lengths has them all received.
    - Pairs and users: pairs are found, enumerated and destroyed as on a plain list, aliases
      are unique and resolved; nobody is authorized without a digest of the password for a
      fresh nonce, and a client that answers the challenge is.
    - Memory: the blocks clients hold are aligned, disjoint and inside the memory, every
      request returns, and the allocator refines one over sets of blocks.
    - Utilities: round trips and bounds.
    - Other theorems prove what goes wrong in the source: a read of freed memory, a
      transaction that never ends, a deletion lost between branches, a pair that is not found
      under its name, and the failures outside the conditions of the theorems above.

    ** Not modelled

    The requests [tm] sends itself ([uac.c]) and its callbacks, the parsers of header
    bodies ([parser/]; [Loose] takes the routes of a Route header as given), the table of
    TCP connections ([tcp_main.c]), blacklists, [pike] and [maxfwd]: they stand beside the paths modelled here, which take their results as
    arguments.  Socket and process code, DNS, the generated parser of the configuration and
    its interpreter, bindings to databases, MD5, the regular expressions of
    [check_route_param], and the vendored HTTP and XML-RPC code of [mi_xmlrpc] are input and
    output, glue or third-party code. *)

From Stdlib Require Import ZArith Lia List String Ascii Bool.
From stdpp Require Import base tactics option list gmap sets.

#[global] Open Scope Z_scope.

(** ** Machine integers

    The C code runs on a platform with 8-bit bytes, 16-bit [short], 32-bit
    [int] and 64-bit [long].  A C integer is a [Z] in the range of its type; the
    conversions below are the C conversions to that type.  Arithmetic on signed
    types is given the two's complement wrap-around that the supported compilers
    produce. *)

Definition u8 (z : Z) : Z := z mod 2 ^ 8.
Definition u16 (z : Z) : Z := z mod 2 ^ 16.
Definition u32 (z : Z) : Z := z mod 2 ^ 32.
Definition u64 (z : Z) : Z := z mod 2 ^ 64.
Definition s8 (z : Z) : Z := (z + 2 ^ 7) mod 2 ^ 8 - 2 ^ 7.
Definition s32 (z : Z) : Z := (z + 2 ^ 31) mod 2 ^ 32 - 2 ^ 31.
Definition s64 (z : Z) : Z := (z + 2 ^ 63) mod 2 ^ 64 - 2 ^ 63.

(** ** Bytes and strings

    A C [str] (pointer and length) is the list of its bytes, each a [Z] of
    [0..255]; [s8] gives the value a byte has when read through a plain [char]. *)

Definition bytes : Type := list Z.

Definition is_byte (b : Z) : bool := (0 <=? b) && (b <? 256).

(** [ch c] is the code of an ASCII character, and [B s] the bytes of a literal. *)
Definition ch (c : ascii) : Z := Z.of_N (N_of_ascii c).

Fixpoint B (s : string) : bytes :=
  match s with
  | EmptyString => []
  | String c s => ch c :: B s
  end.

Declare Scope sip_scope.
Delimit Scope sip_scope with sip.
#[global] Open Scope sip_scope.

(** A character code as a literal number, so that arithmetic sees it. *)
Notation "§ c" :=
  (ltac:(let v := eval vm_compute in (ch c%char) in exact v))
  (at level 1, c at level 0, only parsing) : sip_scope.

(** Ranges, as the sources write them: [c >= lo && c <= hi]. *)
Notation "x 'between' lo 'and' hi" := ((lo <=? x) && (x <=? hi))
  (at level 69, lo at level 50, hi at level 50) : sip_scope.

(** [is_digit], [tolower]: the ctype predicates in the "C" locale. *)
Definition is_digit (c : Z) : bool := c between 48 and 57.
Definition tolower (c : Z) : Z := if c between 65 and 90 then c + 32 else c.

(** ** Values of decimal strings *)

Definition dec_step (acc c : Z) : Z := acc * 10 + (c - §"0").
Definition dec_value (s : bytes) : Z := fold_left dec_step s 0.

(** The string at a [char *]: its bytes up to the first NUL. *)
Fixpoint c_string (s : bytes) : bytes :=
  match s with
  | [] => []
  | c :: s' => if c =? 0 then [] else c :: c_string s'
  end.

Lemma c_string_id s : ~ In 0 s -> c_string s = s.
Proof.
  induction s as [|c s IH]; simpl; [done|]. intros H.
  rewrite (proj2 (Z.eqb_neq c 0)) by (intros ->; auto). f_equal. auto.
Qed.

(** A null pointer. *)
Definition absent {A} (o : option A) : bool := match o with None => true | Some _ => false end.

(** Limits of [config.h] that several components share. *)
Definition MAX_URI_SIZE : Z := 1024.
Definition MAX_PATH_SIZE : Z := 255.

Definition zlen {A} (s : list A) : Z := Z.of_nat (length s).
#[global] Arguments zlen : simpl never.

Lemma zlen_app {A} (a b : list A) : zlen (a ++ b) = zlen a + zlen b.
Proof. unfold zlen. rewrite length_app. lia. Qed.

Lemma zlen_cons {A} (x : A) l : zlen (x :: l) = 1 + zlen l.
Proof. unfold zlen. simpl. lia. Qed.

Lemma zlen_nonneg {A} (l : list A) : 0 <= zlen l.
Proof. unfold zlen. lia. Qed.

(** ** Computations that can fault

    [res A] is the result of code that dereferences pointers: a value, or the
    memory error the C code would commit. *)

Inductive fault : Set :=
| NullDeref
| UseAfterFree
| OutOfBounds
| OutOfFuel
| Abort.

Inductive res (A : Type) : Type :=
| Ret (a : A)
| Fault (f : fault).
Arguments Ret {A} _.
Arguments Fault {A} _.

#[export] Instance fault_eq_dec : EqDecision fault.
Proof. solve_decision. Defined.

#[export] Instance res_ret : MRet res := fun A a => Ret a.
#[export] Instance res_bind : MBind res := fun A B f m =>
  match m with Ret a => f a | Fault e => Fault e end.

(** Total and partial correctness of such a computation. *)
Definition returns {A} (m : res A) (Q : A -> Prop) : Prop := exists a, m = Ret a /\ Q a.
Definition may_return {A} (m : res A) (Q : A -> Prop) : Prop := forall a, m = Ret a -> Q a.

Lemma returns_ret {A} (a : A) (Q : A -> Prop) : Q a -> returns (Ret a) Q.
Proof. intros H. by exists a. Qed.

Lemma returns_bind {A B} (m : res A) (f : A -> res B) Q R :
  returns m Q -> (forall a, Q a -> returns (f a) R) -> returns (m ≫= f) R.
Proof. intros (a & -> & Ha) Hf. by apply Hf. Qed.

Lemma returns_impl {A} (m : res A) (Q R : A -> Prop) :
  returns m Q -> (forall a, Q a -> R a) -> returns m R.
Proof. intros (a & E & Ha) H. exists a. auto. Qed.

Lemma returns_may {A} (m : res A) Q : returns m Q -> may_return m Q.
Proof. intros (a & -> & Ha) b [= <-]. done. Qed.

Lemma may_ret {A} (a : A) (Q : A -> Prop) : Q a -> may_return (Ret a) Q.
Proof. by intros H b [= <-]. Qed.

Lemma may_bind {A B} (m : res A) (f : A -> res B) Q R :
  may_return m Q -> (forall a, Q a -> may_return (f a) R) -> may_return (m ≫= f) R.
Proof. destruct m as [a|e]; intros Hm Hf b E; [|done]. by apply (Hf a); [apply Hm|]. Qed.

Lemma may_impl {A} (m : res A) (Q R : A -> Prop) :
  may_return m Q -> (forall a, Q a -> R a) -> may_return m R.
Proof. intros Hm H a E. auto. Qed.

(** ** Tactics *)

(** Turns the boolean tests of the code into propositions. *)
Ltac bool_to_prop :=
  repeat match goal with
  | H : (_ && _)%bool = true |- _ => apply andb_true_iff in H as [? ?]
  | H : (_ || _)%bool = false |- _ => apply orb_false_iff in H as [? ?]
  | H : (_ || _)%bool = true |- _ => apply orb_true_iff in H
  | H : (_ && _)%bool = false |- _ => apply andb_false_iff in H
  | H : negb _ = true |- _ => apply negb_true_iff in H
  | H : negb _ = false |- _ => apply negb_false_iff in H
  | H : (_ =? _) = true |- _ => apply Z.eqb_eq in H
  | H : (_ =? _) = false |- _ => apply Z.eqb_neq in H
  | H : (_ <=? _) = true |- _ => apply Z.leb_le in H
  | H : (_ <=? _) = false |- _ => apply Z.leb_gt in H
  | H : (_ <? _) = true |- _ => apply Z.ltb_lt in H
  | H : (_ <? _) = false |- _ => apply Z.ltb_ge in H
  end.

(** Case analysis on the innermost test of a goal or hypothesis. *)
Ltac case_test :=
  match goal with
  | |- context [if ?b then _ else _] =>
      lazymatch b with context [if _ then _ else _] => fail | _ => destruct b eqn:? end
  | H : context [if ?b then _ else _] |- _ =>
      lazymatch b with context [if _ then _ else _] => fail | _ => destruct b eqn:? end
  end.

Ltac cases := repeat case_test; simplify_eq/=.

(** Performs the binds of a computation whose first step is known. *)
Ltac run := cbn [mbind res_bind mret res_ret].

(** Discharges arithmetic side conditions stated with boolean tests. *)
Ltac zbool := bool_to_prop; simpl in *; lia.

(** ** Generic lemmas *)

Create HintDb sip discriminated.
Create Rewrite HintDb sip_arith.

Lemma u32_range z : 0 <= u32 z < 2 ^ 32.
Proof. apply Z.mod_pos_bound. lia. Qed.

Lemma u32_small z : 0 <= z < 2 ^ 32 -> u32 z = z.
Proof. apply Z.mod_small. Qed.

Lemma u16_small z : 0 <= z < 2 ^ 16 -> u16 z = z.
Proof. apply Z.mod_small. Qed.

Lemma s32_small z : - 2 ^ 31 <= z < 2 ^ 31 -> s32 z = z.
Proof. intros. unfold s32. rewrite Z.mod_small; lia. Qed.

Lemma s32_range z : - 2 ^ 31 <= s32 z < 2 ^ 31.
Proof.
  unfold s32. pose proof (Z.mod_pos_bound (z + 2 ^ 31) (2 ^ 32)). lia.
Qed.

Lemma s8_ascii b : 0 <= b < 128 -> s8 b = b.
Proof. intros. unfold s8. rewrite Z.mod_small; lia. Qed.

Lemma s8_high b : 128 <= b < 256 -> s8 b = b - 256.
Proof.
  intros. unfold s8.
  replace (b + 2 ^ 7) with (b - 2 ^ 7 + 1 * 2 ^ 8) by lia.
  rewrite Z.mod_add by lia. rewrite Z.mod_small; lia.
Qed.

#[export] Hint Resolve u32_range s32_range : sip.
#[export] Hint Rewrite u32_small s32_small u16_small using lia : sip_arith.

Lemma dec_step_mod n acc c : 0 < n ->
  dec_step (acc mod n) c mod n = dec_step acc c mod n.
Proof.
  intros. unfold dec_step.
  rewrite Z.add_mod, Z.mul_mod_idemp_l, <- Z.add_mod by lia. reflexivity.
Qed.

Lemma dec_fold_app l1 l2 a :
  fold_left dec_step (l1 ++ l2) a = fold_left dec_step l2 (fold_left dec_step l1 a).
Proof. apply fold_left_app. Qed.

Lemma dec_fold_nonneg s a :
  forallb is_digit s = true -> 0 <= a -> 0 <= fold_left dec_step s a.
Proof.
  revert a; induction s as [|c s IH]; simpl; intros a Hd Ha; [lia|].
  apply andb_true_iff in Hd as [Hc Hs]. apply IH; [done|].
  unfold dec_step, is_digit in *. zbool.
Qed.

(** The value of a digit string is below [10 ^ length]. *)
Lemma dec_fold_bound s a n :
  forallb is_digit s = true -> 0 <= a < 10 ^ n -> 0 <= n ->
  fold_left dec_step s a < 10 ^ (n + Z.of_nat (length s)).
Proof.
  revert a n; induction s as [|c s IH]; simpl; intros a n Hd Ha Hn.
  { rewrite Z.add_0_r. lia. }
  apply andb_true_iff in Hd as [Hc Hs].
  replace (n + Z.of_nat (S (length s))) with ((n + 1) + Z.of_nat (length s)) by lia.
  apply IH; [done| |lia].
  rewrite Z.pow_add_r by lia. unfold dec_step, is_digit in *. zbool.
Qed.

Lemma dec_value_bound s :
  forallb is_digit s = true -> 0 <= dec_value s < 10 ^ Z.of_nat (length s).
Proof.
  intros H. unfold dec_value. split; [apply dec_fold_nonneg; [done|lia]|].
  apply (dec_fold_bound s 0 0); [done|lia|lia].
Qed.

(** Folding an invariant along a list. *)
Lemma fold_left_inv {A C} (P : A -> Prop) (f : A -> C -> A) l a :
  P a -> (forall a c, In c l -> P a -> P (f a c)) -> P (fold_left f l a).
Proof.
  revert a; induction l as [|c l IH]; simpl; intros a Ha Hf; [done|].
  apply IH; [apply Hf; auto | intros; apply Hf; auto].
Qed.
