(* ===== verification/Ut.v ===== *)
(** * Integer and string utilities: [src/ut.h]

    The conversions between numbers and text that every other component calls:
    decimal and hexadecimal readers and printers, the URI un-escaper, the [str]
    comparisons and the trimming macros.  Buffers the C code writes are returned
    as the list of bytes written; an [int] error code is returned beside the
    value written through the out parameter. *)

From Stdlib Require Import ZArith Lia List String Ascii Bool.
From stdpp Require Import base tactics option list.
From S2P Require Import Prelude.

Module Ut.

(** ** Definitions *)

(** [str2s]: unsigned short; [None] is the jump to an error label. *)
Fixpoint str2s_loop (s : bytes) (ret i : Z) : option Z :=
  match s with
  | [] => Some ret
  | c :: s' =>
      if (c <=? §"9") && (§"0" <=? c) then
        let ret := u16 (ret * 10 + c - §"0") in
        let i := i + 1 in
        if i >? 5 then None else str2s_loop s' ret i
      else None
  end.

(** Result and the value stored through [err]. *)
Definition str2s (s : bytes) : Z * Z :=
  match str2s_loop s 0 0 with
  | Some ret => (ret, 0)
  | None => (0, 1)
  end.

Definition btostr (val : Z) : bytes :=
  let a := val / 100 in
  let b := val mod 100 / 10 in
  (if negb (a =? 0) then [a + §"0"] else []) ++
  (if negb (b =? 0) || negb (a =? 0) then [b + §"0"] else []) ++
  [§"0" + val mod 10].

Definition INT2STR_MAX_LEN : nat := 22.

(** The do/while of [int2bstr]: [slots] is [i + 1], the free cells of the buffer
    below the terminator; [acc] holds the cells already written.  Returns the
    text and the rest of [l], non-zero when the buffer overflowed. *)
Fixpoint int2bstr_loop (slots : nat) (l : Z) (acc : bytes) : bytes * Z :=
  match slots with
  | O => (acc, l)
  | S slots' =>
      let acc := l mod 10 + §"0" :: acc in
      let l := l / 10 in
      if negb (l =? 0) && negb (Nat.eqb slots' 0)
      then int2bstr_loop slots' l acc
      else (acc, l)
  end.

Definition int2bstr (l : Z) : bytes := (int2bstr_loop (INT2STR_MAX_LEN - 1) l []).1.

Definition int2str (l : Z) : bytes := int2bstr l.

Definition sint2str (l : Z) : bytes :=
  let sign := l <? 0 in
  let l := if sign then s64 (- l) else l in
  let p := int2str (u64 l) in
  if sign then §"-" :: p else p.

(** The index of the first byte found, [None] for a null result; the code compares
    a plain [char] with an [unsigned char]. *)
Fixpoint q_memchr (p : bytes) (c : Z) : option nat :=
  match p with
  | [] => None
  | x :: p' => if s8 x =? u8 c then Some O else S <$> q_memchr p' c
  end.

Definition hex_digit (c : Z) : option Z :=
  if c between §"0" and §"9" then Some (c - §"0")
  else if c between §"a" and §"f" then Some (c - §"a" + 10)
  else if c between §"A" and §"F" then Some (c - §"A" + 10)
  else None.

(** The common loop of the hexadecimal readers: [r <<= 4; r += digit]. *)
Fixpoint hex_loop (s : bytes) (r : Z) : option Z :=
  match s with
  | [] => Some r
  | c :: s' =>
      let r := s32 (Z.shiftl r 4) in
      match hex_digit c with
      | Some d => hex_loop s' (s32 (r + d))
      | None => None
      end
  end.

(** Reads from the last character to the first. *)
Definition reverse_hex2int (c : bytes) : Z :=
  match hex_loop (rev c) 0 with Some r => r | None => -1 end.

(** Return code and [*val], which only a success stores. *)
Definition hexstr2int (c : bytes) (val : Z) : Z * Z :=
  match hex_loop c 0 with Some r => (0, u32 r) | None => (-1, val) end.

(** The while loop of [int2reverse_hex]; [nr >>= 4] is the arithmetic shift of an
    [int].  Returns the bytes written, the space left and the rest of [nr]. *)
Fixpoint int2reverse_hex_loop (size : nat) (nr : Z) : bytes * nat * Z :=
  match size with
  | O => ([], O, nr)
  | S size' =>
      if nr =? 0 then ([], size, nr)
      else
        let digit := Z.land nr 15 in
        let c := if digit >=? 10 then digit + §"a" - 10 else digit + §"0" in
        let '(w, sz, nr') := int2reverse_hex_loop size' (Z.shiftr nr 4) in
        (c :: w, sz, nr')
  end.

Definition int2reverse_hex (size : nat) (nr : Z) : bytes * nat * Z :=
  if negb (Nat.eqb size 0) && (nr =? 0) then ([§"0"], (size - 1)%nat, 1)
  else
    let '(w, sz, nr') := int2reverse_hex_loop size nr in
    (w, sz, if negb (nr' =? 0) then -1 else 1).

Definition fourbits2char (d : Z) : Z := if d <? 10 then d + §"0" else d - 10 + §"a".

Fixpoint string2hex_loop (s : bytes) : bytes :=
  match s with
  | [] => []
  | c :: s' =>
      fourbits2char (Z.land (Z.shiftr c 4) 15) ::
      fourbits2char (Z.land c 15) :: string2hex_loop s'
  end.

(** The characters written and the value returned, [orig_len - len] with [len]
    counted down to 0 by the loop. *)
Definition string2hex (s : bytes) : bytes * Z :=
  match s with
  | [] => ([§"0"], 1)
  | _ => (string2hex_loop s, Z.of_nat (length s) - 0)
  end.

Definition hex2int (c : Z) : Z := match hex_digit c with Some d => d | None => -1 end.

(** [un_escape]: return code and the new user part ([new_user->s] up to [len]). *)
Fixpoint un_escape_loop (s : bytes) : bool * bytes :=
  match s with
  | [] => (true, [])
  | c :: s' =>
      if c =? §"%" then
        match s' with
        | h :: l :: s'' =>
            let hi := hex2int h in
            if hi <? 0 then (false, [])
            else
              let lo := hex2int l in
              if lo <? 0 then (false, [])
              else
                let value := Z.shiftl hi 4 + lo in
                if (value <? 32) || (value >? 126) then (false, [])
                else let '(ok, out) := un_escape_loop s'' in (ok, value :: out)
        | _ => (false, [])
        end
      else let '(ok, out) := un_escape_loop s' in (ok, c :: out)
  end.

Definition un_escape (user : bytes) : Z * bytes :=
  let '(ok, out) := un_escape_loop user in
  (if ok then Z.of_nat (length out) else -1, out).

Definition strlower (s : bytes) : bytes := map tolower s.

(** [str2int]: return code and [*_r], which keeps the value read so far when an
    unexpected character stops the scan. *)
Fixpoint str2int_loop (s : bytes) (r : Z) : Z * Z :=
  match s with
  | [] => (0, r)
  | c :: s' =>
      if (§"0" <=? c) && (c <=? §"9")
      then str2int_loop s' (u32 (u32 (r * 10) + (c - §"0")))
      else (-1, r)
  end.

Definition str2int (s : bytes) : Z * Z := str2int_loop s 0.

Fixpoint str2sint_loop (s : bytes) (r : Z) : Z * Z :=
  match s with
  | [] => (0, r)
  | c :: s' =>
      if (§"0" <=? c) && (c <=? §"9")
      then str2sint_loop s' (s32 (s32 (r * 10) + (c - §"0")))
      else (-1, r)
  end.

(** The sign test reads [s[0]] whatever the length; on an empty [str] either
    outcome gives [*_r = 0] and the code 0. *)
Definition str2sint (s : bytes) : Z * Z :=
  let '(sg, digits) :=
    match s with
    | c :: s' => if c =? §"-" then (-1, s') else (1, s)
    | [] => (1, [])
    end in
  let '(rc, r) := str2sint_loop digits 0 in
  if rc =? 0 then (0, s32 (r * sg)) else (rc, r).

Definition strno2int (val : bytes) (mask : Z) : Z * Z :=
  match val with
  | z :: x :: (_ :: _ as rest) =>
      if (z =? §"0") && (x =? §"x") then hexstr2int rest mask
      else str2int val
  | _ => str2int val
  end.

(** [str_strcmp]: plain [char] comparisons, hence signed. *)
Fixpoint str_strcmp (a b : bytes) : Z :=
  match a, b with
  | [], [] => 0
  | [], _ => -1
  | _, [] => 1
  | x :: a', y :: b' =>
      if s8 x <? s8 y then -1 else if s8 x >? s8 y then 1 else str_strcmp a' b'
  end.

Fixpoint str_strcasecmp (a b : bytes) : Z :=
  match a, b with
  | [], [] => 0
  | [], _ => -1
  | _, [] => 1
  | x :: a', y :: b' =>
      let x := tolower (s8 x) in
      let y := tolower (s8 y) in
      if x <? y then -1 else if x >? y then 1 else str_strcasecmp a' b'
  end.

(** Trimming: characters dropped at the end and at the beginning. *)
Definition trim_end (c : Z) : bool :=
  (c =? 0) || (c =? §"013") || (c =? §"010") || (c =? §" ") || (c =? §"009").
Definition trim_begin (c : Z) : bool := (c =? §" ") || (c =? §"009").

Fixpoint drop_while (f : Z -> bool) (s : bytes) : bytes :=
  match s with
  | [] => []
  | c :: s' => if f c then drop_while f s' else s
  end.

Definition drop_while_end (f : Z -> bool) (s : bytes) : bytes :=
  rev (drop_while f (rev s)).

Definition trim_len (s : bytes) : bytes := drop_while trim_begin (drop_while_end trim_end s).

Definition trim_r (s : bytes) : bytes :=
  drop_while_end (fun c => (c =? 0) || (c =? §"013") || (c =? §"010")) s.

(** [trim_leading], [trim_trailing] and [trim] of [src/trim.h]. *)
Definition trim_white (c : Z) : bool :=
  (c =? §" ") || (c =? §"009") || (c =? §"013") || (c =? §"010").
Definition trim_leading (s : bytes) : bytes := drop_while trim_white s.
Definition trim_trailing (s : bytes) : bytes := drop_while_end trim_white s.
Definition trim (s : bytes) : bytes := trim_trailing (trim_leading s).

(** ** Decimal readers *)

Lemma str2s_loop_spec s ret i :
  0 <= i <= 5 ->
  str2s_loop s (u16 ret) i =
  if forallb is_digit s && (i + Z.of_nat (length s) <=? 5)
  then Some (u16 (fold_left dec_step s ret)) else None.
Proof.
  revert ret i; induction s as [|c s IH]; intros ret i Hi; simpl.
  { rewrite (proj2 (Z.leb_le _ _)) by lia. done. }
  unfold is_digit at 1. rewrite (andb_comm (48 <=? c)).
  destruct ((c <=? 57) && (48 <=? c)) eqn:Hc; simpl; [|done].
  replace (u16 (u16 ret * 10 + c - 48)) with (u16 (dec_step ret c)).
  2: { unfold u16. rewrite <- dec_step_mod by lia. unfold dec_step. f_equal. lia. }
  destruct (i + 1 >? 5) eqn:H5.
  - rewrite (proj2 (Z.leb_gt _ _)), andb_false_r; [done|]. lia.
  - rewrite IH by lia.
    replace (i + Z.of_nat (S (length s))) with (i + 1 + Z.of_nat (length s)) by lia.
    done.
Qed.

(** Every string is either a value of at most five digits, reduced to 16 bits, or
    an error with the value 0. *)
Lemma str2s_spec s :
  str2s s = if forallb is_digit s && (Z.of_nat (length s) <=? 5)
            then (u16 (dec_value s), 0) else (0, 1).
Proof.
  unfold str2s. change 0 with (u16 0) at 1. rewrite str2s_loop_spec by lia.
  rewrite Z.add_0_l. by destruct (_ && _).
Qed.

Lemma str2int_loop_digits s r :
  forallb is_digit s = true ->
  str2int_loop s (u32 r) = (0, u32 (fold_left dec_step s r)).
Proof.
  revert r; induction s as [|c s IH]; intros r Hd; simpl in *; [done|].
  apply andb_true_iff in Hd as [Hc Hs]. unfold is_digit in Hc. rewrite Hc.
  rewrite <- IH by done. f_equal. unfold u32, dec_step.
  rewrite Z.add_mod_idemp_l, (Z.add_mod (r * 10)), <- (Z.mul_mod_idemp_l r) by lia.
  rewrite <- Z.add_mod by lia. done.
Qed.

Lemma str2int_loop_bad s r :
  forallb is_digit s = false -> (str2int_loop s r).1 = -1.
Proof.
  revert r; induction s as [|c s IH]; intros r Hd; simpl in *; [done|].
  destruct (is_digit c) eqn:Hc; unfold is_digit in Hc; rewrite Hc; simpl in *; auto.
Qed.

Lemma str2int_digits s :
  forallb is_digit s = true -> str2int s = (0, u32 (dec_value s)).
Proof. apply (str2int_loop_digits s 0). Qed.

Lemma str2int_error s : (str2int s).1 = -1 <-> forallb is_digit s = false.
Proof.
  split; [|apply str2int_loop_bad].
  destruct (forallb is_digit s) eqn:E; [|done]. by rewrite str2int_digits.
Qed.

(** One digit more, with the wrap-around of [int]. *)
Lemma s32_dec_step r c : s32 (s32 (s32 r * 10) + (c - 48)) = s32 (dec_step r c).
Proof.
  unfold s32, dec_step. f_equal. set (m := 2 ^ 32). set (h := 2 ^ 31).
  replace (((r + h) mod m - h) * 10 + h) with ((r + h) mod m * 10 + (- h * 10 + h)) by lia.
  rewrite <- (Z.add_mod_idemp_l ((r + h) mod m * 10)), Z.mul_mod_idemp_l,
    Z.add_mod_idemp_l by (unfold m; lia).
  replace (((r + h) * 10 + (- h * 10 + h)) mod m - h + (c - 48) + h)
    with (((r + h) * 10 + (- h * 10 + h)) mod m + (c - 48)) by lia.
  rewrite Z.add_mod_idemp_l by (unfold m; lia). f_equal. lia.
Qed.

Lemma str2sint_loop_digits s r :
  forallb is_digit s = true ->
  str2sint_loop s (s32 r) = (0, s32 (fold_left dec_step s r)).
Proof.
  revert r; induction s as [|c s IH]; intros r Hd; simpl in *; [done|].
  apply andb_true_iff in Hd as [Hc Hs]. unfold is_digit in Hc. rewrite Hc, s32_dec_step. by apply IH.
Qed.

(** ** Decimal printers *)

Lemma digit_char d : 0 <= d < 10 -> is_digit (d + 48) = true.
Proof. intros. unfold is_digit. lia. Qed.

(** The loop writes the decimal expansion of [l] in front of [acc], and stops with
    no remainder when the buffer has room for it. *)
Lemma int2bstr_loop_spec slots l acc :
  0 <= l < 10 ^ Z.of_nat slots -> slots <> O ->
  exists w, int2bstr_loop slots l acc = (w ++ acc, 0) /\
    forallb is_digit w = true /\ dec_value w = l /\ w <> [] /\
    (length w <= slots)%nat /\ (length w = 1%nat \/ 10 ^ (Z.of_nat (length w) - 1) <= l).
Proof.
  revert l acc; induction slots as [|slots IH]; intros l acc Hl Hs; [done|].
  cbn [int2bstr_loop]. set (d := l mod 10). set (q := l / 10).
  pose proof (Z.div_mod l 10 ltac:(lia)) as Hdm. fold d q in Hdm.
  assert (Hd : 0 <= d < 10) by (apply Z.mod_pos_bound; lia).
  rewrite Nat2Z.inj_succ, Z.pow_succ_r in Hl by lia.
  destruct (Z.eqb_spec q 0) as [Hq|Hq]; simpl.
  - exists [d + 48]. rewrite Hq. split; [done|].
    repeat split; [|unfold dec_value, dec_step; simpl; lia|done|simpl; lia|by left].
    simpl. rewrite digit_char by done. done.
  - destruct slots as [|slots']; [change (10 ^ Z.of_nat 0) with 1 in Hl; lia|].
    destruct (IH q (d + 48 :: acc)) as (w & -> & Hw1 & Hw2 & Hw3 & Hw4 & Hw5); [lia|done|].
    exists (w ++ [d + 48]). rewrite <- app_assoc. split; [done|]. repeat split.
    + rewrite forallb_app, Hw1. simpl. rewrite digit_char by done. done.
    + unfold dec_value in *. rewrite dec_fold_app, Hw2. unfold dec_step; simpl; lia.
    + by destruct w.
    + rewrite length_app. simpl in *. lia.
    + right. rewrite length_app, Nat2Z.inj_add. simpl (length [_]).
      assert (Hlen : 0 < Z.of_nat (length w)) by (destruct w; [done|simpl; lia]).
      replace (Z.of_nat (length w) + Z.of_nat 1 - 1) with (Z.succ (Z.of_nat (length w) - 1)) by lia.
      rewrite Z.pow_succ_r by lia. destruct Hw5 as [Hw5|Hw5]; [|lia].
      rewrite Hw5. simpl. lia.
Qed.

(** [int2str] prints every 64-bit unsigned number in canonical decimal form, in at
    most 20 characters, never overflowing its buffer. *)
Lemma int2str_spec l :
  0 <= l < 2 ^ 64 ->
  forallb is_digit (int2str l) = true /\ dec_value (int2str l) = l /\
  int2str l <> [] /\ (length (int2str l) <= 20)%nat /\
  (int2bstr_loop (INT2STR_MAX_LEN - 1) l []).2 = 0.
Proof.
  intros Hl. unfold int2str, int2bstr.
  destruct (int2bstr_loop_spec (INT2STR_MAX_LEN - 1) l [])
    as (w & -> & H1 & H2 & H3 & H4 & H5); [simpl; lia|done|].
  rewrite app_nil_r. simpl. repeat split; try done.
  destruct H5 as [->|H5]; [lia|]. apply Nat.nlt_ge; intros Hc.
  assert (10 ^ 20 <= 10 ^ (Z.of_nat (length w) - 1)) by (apply Z.pow_le_mono_r; lia).
  lia.
Qed.

(** Printing an unsigned [int] and reading it back gives the number again. *)
Lemma str2int_int2str n : 0 <= n < 2 ^ 32 -> str2int (int2str n) = (0, n).
Proof.
  intros Hn. destruct (int2str_spec n) as (Hd & Hv & _); [lia|].
  rewrite str2int_digits, Hv, u32_small by done. done.
Qed.

Lemma is_digit_not_minus s : forallb is_digit s = true -> s <> [] -> hd 0 s <> 45.
Proof. destruct s; simpl; [done|]. intros H _. apply andb_true_iff in H as [H _]. unfold is_digit in H. lia. Qed.

Lemma str2sint_unsigned s :
  forallb is_digit s = true -> str2sint s = (0, s32 (s32 (dec_value s))).
Proof.
  intros Hd. unfold str2sint. destruct s as [|c s]; [done|].
  pose proof (is_digit_not_minus _ Hd ltac:(done)) as Hm. simpl in Hm.
  rewrite (proj2 (Z.eqb_neq c 45)) by done.
  change 0 with (s32 0) at 1. rewrite str2sint_loop_digits by done.
  simpl. by rewrite Z.mul_1_r.
Qed.

Lemma str2sint_minus s :
  forallb is_digit s = true -> str2sint (45 :: s) = (0, s32 (- s32 (dec_value s))).
Proof.
  intros Hd. unfold str2sint. simpl. change 0 with (s32 0) at 1.
  rewrite str2sint_loop_digits by done. simpl. f_equal. f_equal. unfold dec_value. lia.
Qed.

(** The signed printer and reader are inverse on the range of [int]. *)
Lemma str2sint_sint2str n : - 2 ^ 31 < n < 2 ^ 31 -> str2sint (sint2str n) = (0, n).
Proof.
  intros Hn. unfold sint2str. destruct (Z.ltb_spec n 0).
  - assert (E : u64 (s64 (- n)) = - n).
    { unfold s64, u64. rewrite (Z.mod_small (- n + 2 ^ 63)) by lia. rewrite Z.mod_small; lia. }
    rewrite E. destruct (int2str_spec (- n)) as (Hd & Hv & _); [lia|].
    rewrite str2sint_minus, Hv by done. by rewrite (s32_small (- n)), Z.opp_involutive, s32_small by lia.
  - unfold u64. rewrite Z.mod_small by lia.
    destruct (int2str_spec n) as (Hd & Hv & _); [lia|].
    rewrite str2sint_unsigned, Hv by done. by rewrite !s32_small by (rewrite ?s32_small; lia).
Qed.

(** [btostr] writes the one to three digits of a byte. *)
Lemma btostr_spec v :
  0 <= v < 256 ->
  forallb is_digit (btostr v) = true /\ dec_value (btostr v) = v /\
  (1 <= length (btostr v) <= 3)%nat.
Proof.
  intros Hv.
  assert (H : forallb (fun v => forallb is_digit (btostr v) && (dec_value (btostr v) =? v) &&
     ((1 <=? length (btostr v))%nat && (length (btostr v) <=? 3)%nat))
     (map Z.of_nat (seq 0 256)) = true) by (vm_compute; reflexivity).
  rewrite forallb_forall in H. specialize (H v). bool_to_prop.
  rewrite in_map_iff in H. setoid_rewrite in_seq in H.
  assert (Hin : exists x : nat, Z.of_nat x = v /\ (0 <= x < 0 + 256)%nat).
  { exists (Z.to_nat v). lia. }
  apply H in Hin. bool_to_prop.
  repeat match goal with E : (_ <=? _)%nat = true |- _ => apply Nat.leb_le in E end. done.
Qed.

(** ** Hexadecimal *)

Lemma hex_loop_app a b r :
  hex_loop (a ++ b) r = match hex_loop a r with Some r' => hex_loop b r' | None => None end.
Proof.
  revert r; induction a as [|c a IH]; intros r; simpl; [done|].
  destruct (hex_digit c); [apply IH|done].
Qed.

Lemma nibble_char d :
  0 <= d < 16 -> hex_digit (if d >=? 10 then d + 97 - 10 else d + 48) = Some d.
Proof.
  intros Hd. destruct (d >=? 10) eqn:E; unfold hex_digit;
  repeat case_match; f_equal; lia.
Qed.

Lemma shiftr4_range n : 0 <= n < 2 ^ 31 -> 0 <= Z.shiftr n 4 < 2 ^ 27.
Proof. intros. rewrite Z.shiftr_div_pow2 by lia. split; [apply Z.div_pos|apply Z.div_lt_upper_bound]; lia. Qed.

Lemma hex_nibble_split n : Z.shiftl (Z.shiftr n 4) 4 + Z.land n 15 = n.
Proof.
  rewrite Z.shiftl_mul_pow2, Z.shiftr_div_pow2 by lia.
  change 15 with (Z.ones 4). rewrite Z.land_ones by lia.
  pose proof (Z.div_mod n (2 ^ 4)). lia.
Qed.

Lemma land15_range n : 0 <= Z.land n 15 < 16.
Proof. change 15 with (Z.ones 4). rewrite Z.land_ones by lia. apply Z.mod_pos_bound. lia. Qed.

Lemma int2reverse_hex_loop_spec size n :
  0 <= n < 2 ^ 31 -> n < 16 ^ Z.of_nat size ->
  exists w, int2reverse_hex_loop size n = (w, (size - length w)%nat, 0) /\
    hex_loop (rev w) 0 = Some n /\ (length w <= size)%nat.
Proof.
  revert n; induction size as [|size IH]; intros n Hn Hs.
  { exists []. simpl in *. replace n with 0 by lia. done. }
  cbn [int2reverse_hex_loop]. destruct (Z.eqb_spec n 0) as [->|Hnz].
  { exists []. simpl. split; [done|]. split; [done|lia]. }
  pose proof (shiftr4_range n Hn) as Hr.
  destruct (IH (Z.shiftr n 4)) as (w & -> & Hw & Hl); [lia| |].
  { rewrite Nat2Z.inj_succ, Z.pow_succ_r in Hs by lia.
    rewrite Z.shiftr_div_pow2 by lia. apply Z.div_lt_upper_bound; lia. }
  eexists (_ :: w). split; [done|]. split; [|simpl; lia].
  cbn [rev]. rewrite hex_loop_app, Hw. cbn [hex_loop].
  rewrite nibble_char by apply land15_range. f_equal.
  pose proof (hex_nibble_split n). pose proof (land15_range n).
  rewrite (s32_small (Z.shiftl _ _)) by lia. rewrite s32_small by lia. done.
Qed.

Lemma int2reverse_hex_loop_length size k n :
  0 <= n < 16 ^ Z.of_nat k -> (length (int2reverse_hex_loop size n).1.1 <= k)%nat.
Proof.
  revert k n; induction size as [|size IH]; intros k n Hn; simpl; [lia|].
  destruct (Z.eqb_spec n 0); [simpl; lia|].
  destruct k as [|k]; [simpl in Hn; lia|].
  assert (H : 0 <= Z.shiftr n 4 < 16 ^ Z.of_nat k).
  { rewrite Nat2Z.inj_succ, Z.pow_succ_r in Hn by lia. rewrite Z.shiftr_div_pow2 by lia.
    split; [apply Z.div_pos; lia|apply Z.div_lt_upper_bound; lia]. }
  specialize (IH k _ H). destruct (int2reverse_hex_loop size (Z.shiftr n 4)) as [[w sz] r].
  simpl in *. lia.
Qed.

(** Only hexadecimal digits are written. *)
Definition is_hex_char (c : Z) : bool := match hex_digit c with Some _ => true | None => false end.

Lemma int2reverse_hex_loop_chars size n :
  forallb is_hex_char (int2reverse_hex_loop size n).1.1 = true.
Proof.
  revert n; induction size as [|size IH]; intros n; simpl; [done|].
  destruct (n =? 0); [done|]. specialize (IH (Z.shiftr n 4)).
  destruct (int2reverse_hex_loop size (Z.shiftr n 4)) as [[w sz] r]. simpl in *.
  unfold is_hex_char at 1. by rewrite nibble_char by apply land15_range.
Qed.

(** At most eight characters, all hexadecimal digits, are written for an [int]. *)
Lemma int2reverse_hex_text size n :
  0 <= n < 2 ^ 31 ->
  (length (int2reverse_hex size n).1.1 <= 8)%nat /\
  forallb is_hex_char (int2reverse_hex size n).1.1 = true.
Proof.
  intros Hn. unfold int2reverse_hex. destruct (negb _ && _); [simpl; split; [lia|done]|].
  pose proof (int2reverse_hex_loop_length size 8 n ltac:(simpl; lia)).
  pose proof (int2reverse_hex_loop_chars size n).
  by destruct (int2reverse_hex_loop size n) as [[w sz] r].
Qed.

(** A non-negative [int] printed in reverse hexadecimal into eight or more cells is
    read back unchanged. *)
Lemma reverse_hex_roundtrip size n :
  0 <= n < 2 ^ 31 -> (8 <= size)%nat ->
  exists w sz, int2reverse_hex size n = (w, sz, 1) /\ reverse_hex2int w = n /\
    (sz + length w = size)%nat.
Proof.
  intros Hn Hs. unfold int2reverse_hex. destruct size as [|size]; [lia|].
  destruct (Z.eqb_spec n 0) as [->|Hnz]; simpl (negb _ && _).
  { exists [48], size. split; [|split; [done|simpl; lia]]. simpl. by rewrite Nat.sub_0_r. }
  destruct (int2reverse_hex_loop_spec (S size) n) as (w & -> & Hw & Hl); [done| |].
  { assert (16 ^ 8 <= 16 ^ Z.of_nat (S size)) by (apply Z.pow_le_mono_r; lia). lia. }
  exists w, (S size - length w)%nat. split; [done|]. unfold reverse_hex2int. rewrite Hw.
  split; [done|lia].
Qed.

(** A negative [int] is never printed: the arithmetic shift keeps it non-zero. *)
Lemma int2reverse_hex_negative size n : n < 0 -> (int2reverse_hex size n).2 = -1.
Proof.
  intros Hn. unfold int2reverse_hex. rewrite (proj2 (Z.eqb_neq n 0)), andb_false_r by lia.
  assert (H : (int2reverse_hex_loop size n).2 < 0).
  { revert n Hn; induction size as [|size IH]; intros n Hn; simpl; [done|].
    rewrite (proj2 (Z.eqb_neq n 0)) by lia.
    specialize (IH (Z.shiftr n 4) ltac:(by apply Z.shiftr_neg)).
    by destruct (int2reverse_hex_loop size (Z.shiftr n 4)) as [[w sz] r]. }
  destruct (int2reverse_hex_loop size n) as [[w sz] r]. simpl in *.
  by rewrite (proj2 (Z.eqb_neq r 0)) by lia.
Qed.

(** ** Comparisons *)

Lemma s8_inj x y : is_byte x = true -> is_byte y = true -> s8 x = s8 y -> x = y.
Proof.
  unfold is_byte. intros.
  destruct (Z.lt_ge_cases x 128), (Z.lt_ge_cases y 128);
    rewrite ?(s8_ascii x), ?(s8_ascii y), ?(s8_high x), ?(s8_high y) in * by zbool; zbool.
Qed.

Lemma str_strcmp_eq a b :
  forallb is_byte a = true -> forallb is_byte b = true ->
  str_strcmp a b = 0 <-> a = b.
Proof.
  revert b; induction a as [|x a IH]; intros [|y b] Ha Hb; simpl in *; try done.
  apply andb_true_iff in Ha as [Hx Ha], Hb as [Hy Hb].
  split.
  - cases; try done. intros E. apply IH in E; [|done..]. subst. f_equal.
    apply s8_inj; [done..|]. lia.
  - intros [= -> ->]. rewrite Z.ltb_irrefl. unfold Z.gtb. rewrite Z.compare_refl. by apply IH.
Qed.

Lemma str_strcmp_antisym a b : str_strcmp b a = - str_strcmp a b.
Proof.
  revert b; induction a as [|x a IH]; intros [|y b]; simpl; try done.
  rewrite IH. cases; lia.
Qed.

(** ** The un-escaper *)

Lemma hex2int_byte h : hex2int h < 16.
Proof. unfold hex2int, hex_digit. repeat case_match; simplify_eq; zbool. Qed.

(** What it writes fits in a buffer of the input's length. *)
Lemma un_escape_loop_length n s :
  (length s <= n)%nat -> (length (un_escape_loop s).2 <= length s)%nat.
Proof.
  revert s; induction n as [|n IH]; intros [|c s] Hs; simpl in *; try lia.
  destruct (c =? 37).
  - destruct s as [|h [|l s]]; simpl in *; try lia.
    repeat (case_match; simpl in *; try lia).
    match goal with H : un_escape_loop _ = _ |- _ =>
      specialize (IH s ltac:(lia)); rewrite H in IH end. simpl in *. lia.
  - specialize (IH s ltac:(lia)). destruct (un_escape_loop s). simpl in *. lia.
Qed.

(** ** Main results *)

(** [str2int] reads back every unsigned integer that [int2str] prints, and
    [str2sint] every signed one that [sint2str] prints. *)
Theorem decimal_roundtrip n m :
  0 <= n < 2 ^ 32 -> - 2 ^ 31 < m < 2 ^ 31 ->
  str2int (int2str n) = (0, n) /\ str2sint (sint2str m) = (0, m).
Proof. intros Hn Hm. split; [by apply str2int_int2str|by apply str2sint_sint2str]. Qed.

Lemma decimal_roundtrip_witness :
  str2int (int2str 4294967295) = (0, 4294967295) /\ str2sint (sint2str (-2147483647)) = (0, -2147483647).
Proof. apply (decimal_roundtrip 4294967295 (-2147483647)); lia. Defined.

(** [str2int] accepts exactly the digit strings and returns their value
    modulo [2 ^ 32]; [str2s] accepts exactly those of at most five digits and returns
    their value modulo [2 ^ 16]. *)
Theorem decimal_parse s :
  str2s s = (if forallb is_digit s && (Z.of_nat (length s) <=? 5) then (u16 (dec_value s), 0) else (0, 1)) /\
  (forallb is_digit s = true -> str2int s = (0, u32 (dec_value s))) /\
  ((str2int s).1 = -1 <-> forallb is_digit s = false).
Proof. split; [apply str2s_spec|]. split; [apply str2int_digits|apply str2int_error]. Qed.

(** A non-negative [int] is written by [int2reverse_hex] into at most eight
    bytes of the buffer, and [reverse_hex2int] reads it back. *)
Theorem reverse_hex_inverse size n :
  0 <= n < 2 ^ 31 -> (8 <= size)%nat ->
  exists w sz, int2reverse_hex size n = (w, sz, 1) /\ reverse_hex2int w = n /\
    (sz + length w = size)%nat.
Proof. apply reverse_hex_roundtrip. Qed.

Lemma reverse_hex_inverse_witness :
  exists w sz, int2reverse_hex 8 2147483647 = (w, sz, 1) /\ reverse_hex2int w = 2147483647.
Proof.
  destruct (reverse_hex_inverse 8 2147483647) as (w & sz & E & R & _); [lia|lia|]. by exists w, sz.
Defined.

End Ut.
