(* ===== verification/StrCommon.v ===== *)
(** * Escaping: [src/strcommon.c]

    Backslash escaping of quotes and NULs ([escape_common]) and percent escaping of
    the user part of a SIP URI ([escape_user]), with their inverses.  The null
    pointer tests have no counterpart here: a [str] is a list of bytes. *)

From Stdlib Require Import ZArith Lia List String Ascii Bool.
From stdpp Require Import base tactics option list.
From S2P Require Import Prelude Ut.

Module StrCommon.
Import Ut.

(** ** Definitions *)

Definition QUOTE : Z := 39.
Definition DQUOTE : Z := 34.
Definition BSLASH : Z := 92.

Definition escape_char (c : Z) : bytes :=
  if c =? QUOTE then [BSLASH; c]
  else if c =? DQUOTE then [BSLASH; c]
  else if c =? BSLASH then [BSLASH; c]
  else if c =? 0 then [BSLASH; §"0"]
  else [c].

Definition escape_common (src : bytes) : bytes := flat_map escape_char src.

Fixpoint unescape_common (src : bytes) : bytes :=
  match src with
  | [] => []
  | c :: s1 =>
      match s1 with
      | d :: s2 =>
          if c =? BSLASH then
            if d =? QUOTE then QUOTE :: unescape_common s2
            else if d =? DQUOTE then DQUOTE :: unescape_common s2
            else if d =? BSLASH then BSLASH :: unescape_common s2
            else if d =? §"0" then 0 :: unescape_common s2
            else c :: unescape_common s1
          else c :: unescape_common s1
      | [] => [c]
      end
  end.

(** [unescape_user] walks [mem], the memory from [sin->s] on, and stops after
    [n = sin->len] bytes; the two characters of an escape are read without a
    length test.  A read past [mem] is a fault, [None] is the return code -1. *)
Fixpoint unescape_user_loop (mem : bytes) (n : Z) : res (option bytes) :=
  if n <=? 0 then Ret (Some [])
  else
    match mem with
    | [] => Fault OutOfBounds
    | p :: m1 =>
        if p =? §"%" then
          match m1 with
          | [] => Fault OutOfBounds
          | h :: m2 =>
              match hex_digit h with
              | None => Ret None
              | Some hv =>
                  let c := s8 (Z.shiftl hv 4) in
                  match m2 with
                  | [] => Fault OutOfBounds
                  | l :: m3 =>
                      match hex_digit l with
                      | None => Ret None
                      | Some lv =>
                          let c := s8 (c + lv) in
                          if (c <? 32) || (c >? 126) then Ret None
                          else
                            r ← unescape_user_loop m3 (n - 3);
                            Ret (out ← r; Some (u8 c :: out))
                      end
                  end
              end
          end
        else
          r ← unescape_user_loop m1 (n - 1);
          Ret (out ← r; Some (p :: out))
    end.

(** [cap] is [sout->len] on entry, the size of the output buffer; the terminating
    zero is written after the text and not counted. *)
Definition unescape_user (mem : bytes) (len cap : Z) : res (option bytes) :=
  if (len <? 0) || (cap <? len + 1) then Ret None
  else unescape_user_loop mem len.

(** The characters the switch of [escape_user] copies. *)
Definition user_unreserved (p : Z) : bool :=
  existsb (Z.eqb p) (B "-_.!~*'()&=+$,;?").

Definition is_alphanum (p : Z) : bool :=
  is_digit p || (p between §"A" and §"Z") || (p between §"a" and §"z").

Definition nibble2char (x : Z) : Z := if x <? 10 then x + §"0" else x - 10 + §"a".

Definition escape_user_char (p : Z) : bytes :=
  if is_alphanum p then [p]
  else if user_unreserved p then [p]
  else [§"%"; nibble2char (Z.shiftr p 4); nibble2char (Z.land p 15)].

(** A plain [char] below 32 or above 126 (bytes above 127 read as negative) is an
    error. *)
Fixpoint escape_user_loop (s : bytes) : option bytes :=
  match s with
  | [] => Some []
  | p :: s' =>
      if (s8 p <? 32) || (s8 p >? 126) then None
      else out ← escape_user_loop s'; Some (escape_user_char p ++ out)
  end.

Definition escape_user (s : bytes) (cap : Z) : option bytes :=
  if cap <? 3 * Z.of_nat (length s) + 1 then None else escape_user_loop s.

(** ** Backslash escaping *)

Lemma unescape_common_step c l :
  unescape_common (escape_char c ++ l) = c :: unescape_common l.
Proof.
  unfold escape_char. cases; bool_to_prop; subst; try reflexivity.
  destruct l as [|d l]; simpl; [done|].
  by rewrite (proj2 (Z.eqb_neq c BSLASH)).
Qed.

Lemma escape_unescape_common s : unescape_common (escape_common s) = s.
Proof.
  induction s as [|c s IH]; simpl; [done|].
  by rewrite unescape_common_step, IH.
Qed.

Lemma escape_common_length s : (length (escape_common s) <= 2 * length s)%nat.
Proof.
  induction s as [|c s IH]; simpl; [lia|]. rewrite length_app.
  assert (length (escape_char c) <= 2)%nat by (unfold escape_char; cases; lia). lia.
Qed.

Lemma escape_char_no_nul c : ~ In 0 (escape_char c).
Proof.
  unfold escape_char, BSLASH, QUOTE, DQUOTE in *.
  cases; bool_to_prop; simpl; unfold QUOTE, DQUOTE, BSLASH in *; lia.
Qed.

Lemma escape_common_no_nul s : ~ In 0 (escape_common s).
Proof.
  unfold escape_common. rewrite in_flat_map. intros (c & _ & Hc).
  by apply escape_char_no_nul in Hc.
Qed.

(** ** Percent escaping *)

Definition printable (c : Z) : bool := (32 <=? c) && (c <=? 126).

Lemma printable_s8 c : printable c = true -> s8 c = c.
Proof. unfold printable. intros. apply s8_ascii. zbool. Qed.

Lemma nibble2char_hex x : 0 <= x < 16 -> hex_digit (nibble2char x) = Some x.
Proof.
  intros. unfold nibble2char, hex_digit. repeat case_match; f_equal; zbool.
Qed.

Lemma shiftr4_lt16 p : 0 <= p < 256 -> 0 <= Z.shiftr p 4 < 16.
Proof. intros. rewrite Z.shiftr_div_pow2 by lia. split; [apply Z.div_pos|apply Z.div_lt_upper_bound]; lia. Qed.

Lemma escape_user_loop_printable s :
  forallb printable s = true -> escape_user_loop s = Some (flat_map escape_user_char s).
Proof.
  induction s as [|p s IH]; simpl; [done|]. intros H.
  apply andb_true_iff in H as [Hp Hs]. rewrite printable_s8 by done.
  replace ((p <? 32) || (p >? 126)) with false by (unfold printable in *; zbool).
  by rewrite IH by done.
Qed.

Lemma escape_user_loop_error s :
  forallb is_byte s = true -> forallb printable s = false -> escape_user_loop s = None.
Proof.
  induction s as [|p s IH]; simpl; [done|]. intros Hb H.
  apply andb_true_iff in Hb as [Hp Hb]. unfold is_byte in Hp.
  destruct (printable p) eqn:E; simpl in H.
  - rewrite IH by done. by destruct (_ || _).
  - replace ((s8 p <? 32) || (s8 p >? 126)) with true; [done|].
    unfold printable in E. destruct (Z.lt_ge_cases p 128);
      rewrite ?s8_ascii, ?s8_high by zbool; lia.
Qed.

(** The percent character itself is always escaped. *)
Lemma escape_user_char_cases p :
  printable p = true ->
  (escape_user_char p = [p] /\ p <> 37) \/
  escape_user_char p = [37; nibble2char (Z.shiftr p 4); nibble2char (Z.land p 15)].
Proof.
  intros Hp. unfold escape_user_char.
  destruct (is_alphanum p) eqn:Ha; [left; split; [done|]|].
  { intros ->. vm_compute in Ha. discriminate. }
  destruct (user_unreserved p) eqn:Hu; [left; split; [done|]|by right].
  intros ->. vm_compute in Hu. discriminate.
Qed.

Lemma unescape_escape_step p l n :
  printable p = true ->
  unescape_user_loop (escape_user_char p ++ l) (Z.of_nat (length (escape_user_char p)) + Z.of_nat n) =
  (r ← unescape_user_loop l (Z.of_nat n); Ret (out ← r; Some (p :: out))).
Proof.
  intros Hp. assert (Hr : 32 <= p <= 126) by (unfold printable in Hp; zbool).
  destruct (escape_user_char_cases p Hp) as [[-> Hn]| ->].
  - cbn [app unescape_user_loop length].
    rewrite (proj2 (Z.leb_gt _ _)), (proj2 (Z.eqb_neq p 37)) by lia.
    by replace (Z.of_nat 1 + Z.of_nat n - 1) with (Z.of_nat n) by lia.
  - cbn [app unescape_user_loop length].
    rewrite (proj2 (Z.leb_gt _ _)) by lia. rewrite Z.eqb_refl.
    rewrite !nibble2char_hex by (apply land15_range || apply shiftr4_lt16; lia).
    pose proof (hex_nibble_split p). pose proof (land15_range p).
    pose proof (shiftr4_lt16 p ltac:(lia)).
    rewrite (s8_ascii (Z.shiftl _ _)) by lia.
    rewrite H, s8_ascii by lia.
    replace ((p <? 32) || (p >? 126)) with false by lia.
    unfold u8. rewrite Z.mod_small by lia.
    by replace (Z.of_nat 3 + Z.of_nat n - 3) with (Z.of_nat n) by lia.
Qed.

(** Whatever memory follows, un-escaping an escaped user part gives it back and
    reads nothing past its end. *)
Lemma unescape_escape_user_loop s tail :
  forallb printable s = true ->
  let e := flat_map escape_user_char s in
  unescape_user_loop (e ++ tail) (Z.of_nat (length e)) = Ret (Some s).
Proof.
  induction s as [|p s IH]; intros Hs; simpl.
  { by destruct tail. }
  simpl in Hs. apply andb_true_iff in Hs as [Hp Hs].
  rewrite <- app_assoc, length_app, Nat2Z.inj_add, unescape_escape_step by done.
  by rewrite IH.
Qed.

Lemma escape_user_char_length p : (length (escape_user_char p) <= 3)%nat.
Proof. unfold escape_user_char. cases; lia. Qed.

Lemma escape_user_length s : (length (flat_map escape_user_char s) <= 3 * length s)%nat.
Proof.
  induction s as [|p s IH]; simpl; [lia|]. rewrite length_app.
  pose proof (escape_user_char_length p). lia.
Qed.

(** The two un-escapers agree on well-formed input: [un_escape] of [ut.h] also
    inverts [escape_user]. *)
Lemma un_escape_escape_loop s :
  forallb printable s = true ->
  un_escape_loop (flat_map escape_user_char s) = (true, s).
Proof.
  induction s as [|p s IH]; simpl; [done|]. intros Hs.
  apply andb_true_iff in Hs as [Hp Hs].
  assert (Hr : 32 <= p <= 126) by (unfold printable in Hp; zbool).
  destruct (escape_user_char_cases p Hp) as [[-> Hn]| ->]; cbn [app un_escape_loop].
  - by rewrite (proj2 (Z.eqb_neq p 37)), IH.
  - rewrite Z.eqb_refl. unfold hex2int.
    pose proof (land15_range p). pose proof (shiftr4_lt16 p ltac:(lia)).
    rewrite !nibble2char_hex by done. rewrite hex_nibble_split, IH by done.
    rewrite !(proj2 (Z.ltb_ge _ _)) by lia. simpl.
    by replace (p >? 126) with false by lia.
Qed.

(** An escape cut off at the end of the buffer is read past the end. *)
Lemma unescape_user_overread s cap :
  forallb (fun c => negb (c =? §"%")) s = true -> Z.of_nat (length s) + 2 <= cap ->
  unescape_user (s ++ [§"%"]) (Z.of_nat (length s) + 1) cap = Fault OutOfBounds.
Proof.
  intros Hs Hc. unfold unescape_user.
  replace (_ || _) with false by (symmetry; apply orb_false_iff; lia). clear Hc.
  induction s as [|c s IH]; [done|]. cbn [forallb] in Hs. apply andb_true_iff in Hs as [Hp Hs].
  apply negb_true_iff in Hp. cbn [app unescape_user_loop length].
  rewrite (proj2 (Z.leb_gt _ _)), Hp by lia.
  replace (Z.of_nat (S (length s)) + 1 - 1) with (Z.of_nat (length s) + 1) by lia.
  by rewrite IH.
Qed.

(** ** Main results *)

(** [unescape_common] undoes [escape_common] on every string, and the escaped
    string is at most twice as long and contains no NUL. *)
Theorem escape_common_inverse s :
  unescape_common (escape_common s) = s /\
  (length (escape_common s) <= 2 * length s)%nat /\ ~ In 0 (escape_common s).
Proof.
  split; [apply escape_unescape_common|]. split; [apply escape_common_length|apply escape_common_no_nul].
Qed.

(** [escape_user] accepts every printable user part given a buffer of three
    bytes per character, and both [unescape_user] and [un_escape] undo it. *)
Theorem escape_user_inverse s cap cap' tail :
  forallb printable s = true -> 3 * Z.of_nat (length s) + 1 <= cap -> cap <= cap' ->
  exists e, escape_user s cap = Some e /\ Z.of_nat (length e) < cap /\
    unescape_user (e ++ tail) (Z.of_nat (length e)) cap' = Ret (Some s) /\
    un_escape e = (Z.of_nat (length s), s).
Proof.
  intros Hp Hc Hc'. exists (flat_map escape_user_char s). pose proof (escape_user_length s) as L.
  split; [|split; [lia|split]].
  - unfold escape_user. rewrite (proj2 (Z.ltb_ge _ _)) by lia. by apply escape_user_loop_printable.
  - unfold unescape_user. replace (_ || _) with false by (symmetry; apply orb_false_iff; lia).
    by apply unescape_escape_user_loop.
  - unfold un_escape. by rewrite un_escape_escape_loop.
Qed.

Lemma escape_user_inverse_witness :
  exists e, escape_user (B "a b@c") 16 = Some e /\ un_escape e = (5, B "a b@c").
Proof.
  destruct (escape_user_inverse (B "a b@c") 16 16 []) as (e & E & _ & _ & U);
    [reflexivity|simpl; lia|lia|]. by exists e.
Defined.

End StrCommon.
