(* ===== verification/QValue.v ===== *)
(** * q values: [src/qvalue.c], [src/qvalue.h]

    A q value is kept as an integer number of thousandths; [str2q] is the state
    machine that reads one, [q2str] and [len_q] print and measure it, and [q2double] and
    [double2q] convert it to and from a [double], as the specification of IEEE numbers of
    the Standard Library computes with them. *)

From Stdlib Require Import ZArith Lia List String Ascii Bool.
From Stdlib Require Import Floats.SpecFloat.
From stdpp Require Import base tactics option list.
From S2P Require Import Prelude.

Module QValue.

(** ** Definitions *)

Definition Q_UNSPECIFIED : Z := -1.
Definition MAX_Q : Z := 1000.
Definition MIN_Q : Z := 0.

Definition E_Q_INV_CHAR : Z := -15.
Definition E_Q_EMPTY : Z := -16.
Definition E_Q_TOO_BIG : Z := -17.
Definition E_Q_DEC_MISSING : Z := -18.

Inductive st : Set :=
| ST_START | ST_0 | ST_1 | ST_0_PT | ST_1_PT | ST_1_PT_0 | ST_0_PT_N.

#[export] Instance st_eq_dec : EqDecision st.
Proof. solve_decision. Defined.

(** The variables of the scan: [q] is [*q], the rest are locals. *)
Record scan : Type := Scan { state : st; q : Z; digits : Z; order : Z }.

(** The test shared by the states that accept no further digit. *)
Definition bad_char (lo c : Z) : Z :=
  if (lo <=? c) && (c <=? §"9") then E_Q_TOO_BIG else E_Q_INV_CHAR.

(** One iteration: the next scan state, or the code returned. *)
Definition str2q_step (v : scan) (c : Z) : scan + Z :=
  let '(Scan s q digits order) := v in
  match s with
  | ST_START =>
      if (c =? §" ") || (c =? §"009") then inl v
      else if c =? §"0" then inl (Scan ST_0 0 digits order)
      else if c =? §"1" then inl (Scan ST_1 1000 digits order)
      else if c =? §"." then inl (Scan ST_0_PT q digits order)
      else inr E_Q_INV_CHAR
  | ST_0 =>
      if c =? §"0" then inl v
      else if c =? §"." then inl (Scan ST_0_PT q digits order)
      else if c =? §"1" then inl (Scan ST_1 1000 digits order)
      else inr (bad_char §"2" c)
  | ST_1 =>
      if c =? §"." then inl (Scan ST_1_PT q digits order)
      else inr (bad_char §"0" c)
  | ST_0_PT =>
      if is_digit c then inl (Scan ST_0_PT_N ((c - §"0") * order) digits (order / 10))
      else inr E_Q_INV_CHAR
  | ST_1_PT =>
      if c =? §"0" then inl (Scan ST_1_PT_0 q digits order)
      else inr (bad_char §"1" c)
  | ST_1_PT_0 =>
      if c =? §"0" then inl v else inr (bad_char §"1" c)
  | ST_0_PT_N =>
      if is_digit c then
        if digits <=? 3 then
          inl (Scan ST_0_PT_N (q + (c - §"0") * order) (digits + 1) (order / 10))
        else inl v
      else inr E_Q_INV_CHAR
  end.

(** The switch on the final state. *)
Definition str2q_end (s : st) : Z :=
  match s with
  | ST_START => E_Q_EMPTY
  | ST_0_PT | ST_1_PT => E_Q_DEC_MISSING
  | _ => 0
  end.

(** Return code and [*q]; on an error [*q] keeps what the scan left in it. *)
Fixpoint str2q_loop (s : bytes) (v : scan) : Z * Z :=
  match s with
  | [] => (str2q_end (state v), q v)
  | c :: s' =>
      match str2q_step v c with
      | inl v' => str2q_loop s' v'
      | inr e => (e, q v)
      end
  end.

(** [q0] is the value of [*q] on entry. *)
Definition str2q (q0 : Z) (s : bytes) : Z * Z := str2q_loop s (Scan ST_START q0 1 100).

Definition len_q (q : Z) : Z :=
  if q =? Q_UNSPECIFIED then 0
  else if q >=? MAX_Q then 1
  else if q <=? MIN_Q then 1
  else if q mod 100 =? 0 then 2 + 1
  else if q mod 10 =? 0 then 2 + 2
  else 2 + 3.

Definition q2str (q : Z) : bytes :=
  if q =? Q_UNSPECIFIED then []
  else if q >=? MAX_Q then B "1"
  else if q <=? MIN_Q then B "0"
  else
    B "0." ++
    let d1 := q / 100 + §"0" in
    let q := q mod 100 in
    if q =? 0 then [d1]
    else
      let d2 := q / 10 + §"0" in
      let q := q mod 10 in
      if q =? 0 then [d1; d2] else [d1; d2; q + §"0"].

(** ** The scanner keeps the value in range *)

(** What the scan has established in each state: the value read so far, and the
    weight of the next decimal digit. *)
Definition scan_ok (v : scan) : Prop :=
  match state v with
  | ST_START => digits v = 1 /\ order v = 100
  | ST_0 => q v = 0 /\ digits v = 1 /\ order v = 100
  | ST_0_PT => digits v = 1 /\ order v = 100
  | ST_1 | ST_1_PT | ST_1_PT_0 => q v = 1000
  | ST_0_PT_N =>
      0 <= q v /\
      ((digits v = 1 /\ order v = 10 /\ q v <= 900) \/
       (digits v = 2 /\ order v = 1 /\ q v <= 990) \/
       (3 <= digits v /\ order v = 0 /\ q v <= 999))
  end.

Lemma str2q_step_ok v c v' : scan_ok v -> str2q_step v c = inl v' -> scan_ok v'.
Proof.
  destruct v as [s q d o]. unfold str2q_step, is_digit.
  destruct s; intros Hok E; cases; unfold scan_ok in *; simpl in *; bool_to_prop;
    try done; try lia.
  - destruct Hok as [-> ->]. change (100 / 10) with 10. split; [lia|left; lia].
  - destruct Hok as [Hq [(-> & -> & ?)|[(-> & -> & ?)|(? & -> & ?)]]];
      (split; [lia|]); [right; left|right; right|right; right];
      change (10 / 10) with 1; change (1 / 10) with 0; change (0 / 10) with 0; lia.
Qed.

Lemma str2q_loop_range s v r :
  scan_ok v -> str2q_loop s v = (0, r) -> 0 <= r <= 1000.
Proof.
  revert v; induction s as [|c s IH]; intros v Hok; simpl.
  - destruct v as [[] q d o]; simpl in *; unfold scan_ok in Hok; simpl in Hok;
      intros [= <-]; lia.
  - destruct (str2q_step v c) as [v'|e] eqn:E.
    + intros. eapply IH; [|done]. by eapply str2q_step_ok.
    + intros [= -> <-]. exfalso. destruct v as [[] ? ? ?]; unfold str2q_step, bad_char in E;
        cases.
Qed.

(** ** Blank input *)

Definition is_blank (c : Z) : bool := (c =? §" ") || (c =? §"009").

Lemma str2q_loop_no_start s v :
  state v <> ST_START -> (str2q_loop s v).1 <> E_Q_EMPTY.
Proof.
  revert v; induction s as [|c s IH]; intros [st0 q d o] Hs; simpl.
  - by destruct st0.
  - destruct st0; simpl in *; try done; unfold bad_char; cases; try (apply IH; done); done.
Qed.

Lemma str2q_empty_iff q0 s : (str2q q0 s).1 = E_Q_EMPTY <-> forallb is_blank s = true.
Proof.
  unfold str2q. induction s as [|c s IH]; [done|]. simpl. fold (is_blank c).
  destruct (is_blank c); simpl; [apply IH|].
  split; [|done]. cases; try done; intros E; exfalso; revert E;
    by apply str2q_loop_no_start.
Qed.

(** ** Printing and reading back *)

Lemma q_range_check (P : Z -> bool) :
  forallb P (map Z.of_nat (seq 0 1001)) = true -> forall q, 0 <= q <= 1000 -> P q = true.
Proof.
  intros H q Hq. rewrite forallb_forall in H. apply H.
  apply in_map_iff. exists (Z.to_nat q). split; [lia|]. apply in_seq. lia.
Qed.

(** Only [*q] distinguishes runs from different initial contents, and the first
    digit overwrites it. *)
Lemma str2q_q2str q0 q : 0 <= q <= 1000 -> str2q q0 (q2str q) = (0, q).
Proof.
  intros Hq. unfold q2str, Q_UNSPECIFIED, MAX_Q, MIN_Q.
  rewrite (proj2 (Z.eqb_neq q (-1))) by lia.
  destruct (q >=? 1000) eqn:H1; [replace q with 1000 by lia; done|].
  destruct (q <=? 0) eqn:H0; [replace q with 0 by lia; done|].
  assert (Hd : str2q 0 (q2str q) = (0, q)).
  { apply (q_range_check (fun q => bool_decide (str2q 0 (q2str q) = (0, q)))) in Hq;
      [by apply bool_decide_eq_true in Hq|vm_compute; reflexivity]. }
  unfold q2str, Q_UNSPECIFIED, MAX_Q, MIN_Q in Hd.
  rewrite (proj2 (Z.eqb_neq q (-1))), H1, H0 in Hd by lia.
  rewrite <- Hd. reflexivity.
Qed.

Lemma len_q_q2str q : len_q q = Z.of_nat (length (q2str q)).
Proof.
  unfold len_q, q2str. cases; try done; try lia;
    pose proof (Z.mod_mod_divide q 100 10 ltac:(exists 10; done)) as Hm; bool_to_prop; lia.
Qed.

Lemma q2str_length q : (length (q2str q) <= 5)%nat.
Proof. unfold q2str. cases; simpl; lia. Qed.

(** ** Numbers in the database *)

Definition double : Type := spec_float.
Definition double_of_Z (n : Z) : double := binary_normalize 53 1024 n 0 false.

(** The conversion to [int] cuts the fraction off; it is undefined outside the range of an
    [int], where the model wraps, and for what is no number. *)
Definition int_of_double (d : double) : Z :=
  match d with
  | S754_finite sg m e => s32 ((if sg then -1 else 1) * (Z.pos m * 2 ^ Z.max 0 e / 2 ^ Z.max 0 (- e)))
  | _ => 0
  end.

Definition q2double (q : Z) : double :=
  if q =? Q_UNSPECIFIED then double_of_Z (-1) else SFdiv 53 1024 (double_of_Z q) (double_of_Z 1000).

Definition double2q (d : double) : Z :=
  if SFeqb d (double_of_Z (-1)) then Q_UNSPECIFIED else int_of_double (SFmul 53 1024 d (double_of_Z 1000)).

#[global] Arguments q2double : simpl never.
#[global] Arguments double2q : simpl never.

(** A q value is read back from the [double] written for it. *)
Lemma double_q_roundtrip q : -1 <= q <= 1000 -> double2q (q2double q) = q.
Proof.
  intros Hq. assert (A : forallb (fun q => double2q (q2double q) =? q) (seqZ (-1) 1002) = true) by (vm_compute; reflexivity).
  rewrite forallb_forall in A. apply Z.eqb_eq, A, list_elem_of_In, elem_of_seqZ. lia.
Qed.

(** ** Main results *)

(** Every q value prints as a string of [len_q] bytes, at most five, that
    [str2q] reads back. *)
Theorem q_roundtrip q0 q :
  0 <= q <= 1000 ->
  str2q q0 (q2str q) = (0, q) /\ len_q q = Z.of_nat (length (q2str q)) /\ (length (q2str q) <= 5)%nat.
Proof. intros Hq. split; [by apply str2q_q2str|]. split; [apply len_q_q2str|apply q2str_length]. Qed.

Lemma q_roundtrip_witness : str2q 7 (q2str 305) = (0, 305).
Proof. apply (q_roundtrip 7 305). lia. Defined.

(** When [str2q] succeeds, the value is between 0 and 1000. *)
Theorem str2q_range q0 s r : str2q q0 s = (0, r) -> 0 <= r <= 1000.
Proof. apply str2q_loop_range. done. Qed.

Lemma str2q_range_witness : 0 <= 999 <= 1000.
Proof. apply (str2q_range 0 (B "0.9999")). vm_compute. reflexivity. Defined.

End QValue.
