(* ===== verification/HashFunc.v ===== *)
(** * Hash functions and flag words: [src/hash_func.h], [src/flags.c]

    [core_hash] and [core_case_hash] choose the slot of every hash table of the
    server (dialogs, transactions, user records); the flag functions set, reset
    and test one bit of a message's flag word. *)

From Stdlib Require Import ZArith Lia List String Ascii Bool.
From stdpp Require Import base tactics option list.
From S2P Require Import Prelude Ut.

Module HashFunc.
Import Ut.

(** ** Definitions *)

(** [ch_h_inc]: [h += v ^ (v >> 3)] on 32-bit unsigned words. *)
Definition ch_h_inc (h v : Z) : Z := u32 (h + Z.lxor v (Z.shiftr v 3)).

Definition ch_icase (c : Z) : Z :=
  if (§"A" <=? c) && (c <=? §"Z") then Z.lor c 32 else c.

Section Words.
(** The two functions differ in the character map: the identity or [ch_icase]. *)
Variable fc : Z -> Z.

(** The four-byte word; each byte is a plain [char] promoted to [int]. *)
Definition word4 (a b c d : Z) : Z :=
  u32 (Z.shiftl (fc (s8 a)) 24 + Z.shiftl (fc (s8 b)) 16 +
       Z.shiftl (fc (s8 c)) 8 + fc (s8 d)).

(** The tail loop [v <<= 8; v += *p]. *)
Fixpoint tail_word (p : bytes) (v : Z) : Z :=
  match p with
  | [] => v
  | c :: p' => tail_word p' (u32 (u32 (Z.shiftl v 8) + fc (s8 c)))
  end.

(** One string: full words first, then the tail of at most three bytes. *)
Fixpoint hash_str (p : bytes) (h : Z) : Z :=
  match p with
  | a :: b :: c :: d :: p' => hash_str p' (ch_h_inc h (word4 a b c d))
  | _ => ch_h_inc h (tail_word p 0)
  end.

Definition hash_words (s1 : bytes) (s2 : option bytes) (size : Z) : Z :=
  let h := hash_str s1 0 in
  let h := match s2 with Some s2 => hash_str s2 h | None => h end in
  let h := u32 (u32 (h + Z.shiftr h 11) + u32 (Z.shiftr h 13 + Z.shiftr h 23)) in
  if negb (size =? 0) then Z.land h (u32 (size - 1)) else h.
End Words.

Definition core_hash (s1 : bytes) (s2 : option bytes) (size : Z) : Z :=
  hash_words (fun c => c) s1 s2 size.

Definition core_case_hash (s1 : bytes) (s2 : option bytes) (size : Z) : Z :=
  hash_words ch_icase s1 s2 size.

(** *** Flags *)

Definition MAX_FLAG : Z := 31.

(** [1 << flag], an [int], stored into a 32-bit unsigned word. *)
Definition flag_bit (flag : Z) : Z := u32 (Z.shiftl 1 flag).

(** The new value of [msg->flags]; the functions themselves return 1. *)
Definition setflag (flags flag : Z) : Z := Z.lor flags (flag_bit flag).
Definition resetflag (flags flag : Z) : Z := Z.land flags (u32 (Z.lnot (flag_bit flag))).
Definition isflagset (flags flag : Z) : Z :=
  if negb (Z.land flags (flag_bit flag) =? 0) then 1 else -1.

Definition flag_in_range (flag : Z) : bool := negb (flag >? MAX_FLAG).

(** Return code and [*flag], an [int]. *)
Definition flag_idx2mask (flag : Z) : Z * Z :=
  if flag <? 0 then (0, 0)
  else if flag >? MAX_FLAG then (-1, flag)
  else (0, s32 (Z.shiftl 1 flag)).

Definition fixup_flag (idx : Z) : Z := if idx >? MAX_FLAG then 0 else flag_bit idx.

(** The script flags: a global word and a mask. *)
Definition setsflag (sflags mask : Z) : Z := Z.lor sflags mask.
Definition resetsflag (sflags mask : Z) : Z := Z.land sflags (u32 (Z.lnot mask)).
Definition issflagset (sflags mask : Z) : Z :=
  if negb (Z.land sflags mask =? 0) then 1 else -1.

(** ** Hash values index the table *)

Lemma hash_words_range fc s1 s2 size :
  0 < size <= 2 ^ 32 -> 0 <= hash_words fc s1 s2 size < size.
Proof.
  intros Hs. unfold hash_words. rewrite (proj2 (Z.eqb_neq size 0)) by lia. simpl negb.
  rewrite (u32_small (size - 1)) by lia.
  match goal with |- context [Z.land ?x _] =>
    set (h := x); assert (Hh : 0 <= h) by (unfold h; apply u32_range) end.
  cbv iota. split; [by apply Z.land_nonneg; left|].
  pose proof (Z.log2_nonneg size).
  assert (Hle : Z.land h (size - 1) <= size - 1); [|lia].
  apply Z.ldiff_le; [lia|].
  apply Z.bits_inj'. intros n Hn. rewrite Z.ldiff_spec, Z.land_spec, Z.bits_0.
  destruct (Z.testbit h n), (Z.testbit (size - 1) n); done.
Qed.

(** ** Case folding *)

Lemma tolower_byte c : is_byte c = true -> is_byte (tolower c) = true.
Proof. unfold is_byte, tolower. intros. case_match; zbool. Qed.

Lemma ch_icase_spec (c : Z) : ch_icase c = tolower c.
Proof.
  unfold ch_icase, tolower. destruct ((65 <=? c) && (c <=? 90)) eqn:E; [|done].
  assert (Hc : 65 <= c <= 90) by zbool.
  assert (Hin : In c (map Z.of_nat (seq 65 26))).
  { apply in_map_iff. exists (Z.to_nat c). rewrite in_seq. lia. }
  revert Hin. clear. simpl. intuition (subst; reflexivity).
Qed.

Lemma ch_icase_tolower c :
  is_byte c = true -> ch_icase (s8 (tolower c)) = ch_icase (s8 c).
Proof.
  intros Hb. rewrite !ch_icase_spec. unfold is_byte in Hb.
  destruct (Z.lt_ge_cases c 128).
  - unfold tolower at 2. destruct ((65 <=? c) && (c <=? 90)) eqn:E.
    + rewrite !s8_ascii by zbool. unfold tolower. rewrite E.
      destruct ((65 <=? c + 32) && (c + 32 <=? 90)) eqn:E2; zbool.
    + done.
  - replace (tolower c) with c; [done|]. unfold tolower. case_match; zbool.
Qed.

Lemma hash_str_lower n p h :
  (length p <= n)%nat -> forallb is_byte p = true ->
  hash_str ch_icase (strlower p) h = hash_str ch_icase p h.
Proof.
  revert p h; induction n as [|n IH]; intros p h Hn Hb.
  { by destruct p; simpl in Hn; [|lia]. }
  destruct p as [|a [|b [|c [|d p]]]]; simpl in Hb; bool_to_prop;
    cbn [strlower map hash_str tail_word]; unfold word4;
    rewrite ?ch_icase_tolower by done; try done.
  apply IH; [simpl in Hn; lia|done].
Qed.

Lemma core_case_hash_lower s1 s2 size :
  forallb is_byte s1 = true ->
  match s2 with Some s => forallb is_byte s = true | None => True end ->
  core_case_hash (strlower s1) (strlower <$> s2) size = core_case_hash s1 s2 size.
Proof.
  intros H1 H2. unfold core_case_hash, hash_words.
  rewrite (hash_str_lower (length s1)) by done.
  destruct s2 as [s2|]; simpl; [|done].
  by rewrite (hash_str_lower (length s2)) by done.
Qed.

(** ** Flags *)

Lemma flag_bit_pow flag : 0 <= flag <= MAX_FLAG -> flag_bit flag = 2 ^ flag.
Proof.
  intros. unfold flag_bit, MAX_FLAG in *. rewrite Z.shiftl_mul_pow2, Z.mul_1_l by lia.
  apply u32_small. split; [apply Z.pow_nonneg; lia|apply Z.pow_lt_mono_r; lia].
Qed.

Lemma land_pow2_zero w n : 0 <= n -> (Z.land w (2 ^ n) =? 0) = negb (Z.testbit w n).
Proof.
  intros Hn. destruct (Z.testbit w n) eqn:E; simpl.
  - apply Z.eqb_neq. intros Hz. assert (Z.testbit (Z.land w (2 ^ n)) n = false) by (by rewrite Hz, Z.bits_0).
    rewrite Z.land_spec, E, Z.pow2_bits_true in H by lia. done.
  - apply Z.eqb_eq, Z.bits_inj'. intros m Hm. rewrite Z.land_spec, Z.pow2_bits_eqb, Z.bits_0 by lia.
    destruct (Z.eqb_spec n m); subst; [by rewrite E|by rewrite andb_false_r].
Qed.

Lemma isflagset_spec w f :
  0 <= f <= MAX_FLAG -> isflagset w f = if Z.testbit w f then 1 else -1.
Proof.
  intros Hf. unfold isflagset. rewrite flag_bit_pow, land_pow2_zero, negb_involutive; [done|lia|done].
Qed.

Lemma setflag_bit w f g :
  0 <= f <= MAX_FLAG -> 0 <= g ->
  Z.testbit (setflag w f) g = Z.testbit w g || (f =? g).
Proof.
  intros. unfold setflag. rewrite flag_bit_pow, Z.lor_spec, Z.pow2_bits_eqb by (done || lia). done.
Qed.

Lemma resetflag_bit w f g :
  0 <= f <= MAX_FLAG -> 0 <= g <= MAX_FLAG ->
  Z.testbit (resetflag w f) g = Z.testbit w g && negb (f =? g).
Proof.
  intros Hf Hg. unfold resetflag, MAX_FLAG in *. rewrite Z.land_spec, flag_bit_pow by (unfold MAX_FLAG; lia).
  unfold u32. rewrite <- Z.land_ones, Z.land_spec, Z.ones_spec_low, andb_true_r by lia.
  rewrite Z.lnot_spec, Z.pow2_bits_eqb by lia. done.
Qed.

(** ** Main results *)

(** The hash of a key is an index of the table, and the hash that ignores case
    does not change when the key is lowered. *)
Theorem hash_index s1 s2 size :
  0 < size <= 2 ^ 32 -> forallb is_byte s1 = true ->
  match s2 with Some s => forallb is_byte s = true | None => True end ->
  0 <= core_hash s1 s2 size < size /\ 0 <= core_case_hash s1 s2 size < size /\
  core_case_hash (strlower s1) (strlower <$> s2) size = core_case_hash s1 s2 size.
Proof.
  intros Hs H1 H2. split; [by apply hash_words_range|]. split; [by apply hash_words_range|].
  by apply core_case_hash_lower.
Qed.

Lemma hash_index_witness :
  core_case_hash (strlower (B "CaLL-Id")) (strlower <$> Some (B "tAg")) 4096 =
  core_case_hash (B "CaLL-Id") (Some (B "tAg")) 4096.
Proof. apply (hash_index (B "CaLL-Id") (Some (B "tAg")) 4096); [lia|reflexivity|reflexivity]. Defined.

(** [setflag] and [resetflag] change the bit of the flag and no other, and
    [isflagset] tests it. *)
Theorem flag_operations w f g :
  0 <= f <= MAX_FLAG -> 0 <= g <= MAX_FLAG ->
  isflagset (setflag w f) g = (if Z.testbit w g || (f =? g) then 1 else -1) /\
  isflagset (resetflag w f) g = (if Z.testbit w g && negb (f =? g) then 1 else -1).
Proof.
  intros Hf Hg. rewrite !isflagset_spec by done. rewrite setflag_bit by (done || lia).
  by rewrite resetflag_bit.
Qed.

Lemma flag_operations_witness : isflagset (setflag 0 31) 31 = 1 /\ isflagset (resetflag 5 2) 0 = 1.
Proof.
  split.
  - rewrite (proj1 (flag_operations 0 31 31 ltac:(unfold MAX_FLAG; lia) ltac:(unfold MAX_FLAG; lia))).
    reflexivity.
  - rewrite (proj2 (flag_operations 5 2 0 ltac:(unfold MAX_FLAG; lia) ltac:(unfold MAX_FLAG; lia))).
    reflexivity.
Defined.

End HashFunc.
