(* ===== verification/DlgTimer.v ===== *)
(** * The dialog timer: [src/modules/dialog/dlg_timer.c], [dlg_timer.h]

    The timer is a circular doubly linked list of the [tl] members of the dialog
    cells, sorted by expiry time, with the sentinel [d_timer->first].  The cells
    live in a heap; a pointer is an address, 0 the null pointer.  Every
    dereference of the C code is a load or store of that heap and faults when the
    address is null or not allocated.

    The refinement theorems relate this pointer structure to an abstract timer,
    the list of the queued cells in order of expiry. *)

From Stdlib Require Import ZArith Lia List String Ascii Bool Sorted.
From stdpp Require Import base tactics option list gmap sets.
From S2P Require Import Prelude.

Module DlgTimer.

(** ** Definitions *)

Record dlg_tl : Type := Tl { next : Z; prev : Z; timeout : Z }.

Abbreviation heap := (gmap Z dlg_tl).

(** [&d_timer->first] *)
Definition FIRST : Z := 1.
Definition NULL : Z := 0.

Definition load (p : Z) (h : heap) : res dlg_tl :=
  if p =? NULL then Fault NullDeref
  else match h !! p with Some c => Ret c | None => Fault UseAfterFree end.

Definition with_next (v : Z) (c : dlg_tl) : dlg_tl := Tl v (prev c) (timeout c).
Definition with_prev (v : Z) (c : dlg_tl) : dlg_tl := Tl (next c) v (timeout c).
Definition with_timeout (v : Z) (c : dlg_tl) : dlg_tl := Tl (next c) (prev c) v.

Definition store (f : dlg_tl -> dlg_tl) (p : Z) (h : heap) : res heap :=
  _ ← load p h; Ret (alter f p h).

(** [p->next = v] and so on. *)
Definition store_next (p v : Z) : heap -> res heap := store (with_next v) p.
Definition store_prev (p v : Z) : heap -> res heap := store (with_prev v) p.
Definition store_timeout (p v : Z) : heap -> res heap := store (with_timeout v) p.

(** Number of loop iterations after which the model gives up: a walk over distinct
    cells takes at most as many steps as there are cells. *)
Definition fuel (h : heap) : nat := S (size h).

(** The heap after [init_dlg_timer]: the sentinel points to itself. *)
Definition init_dlg_timer (h : heap) : heap := <[FIRST := Tl FIRST FIRST 0]> h.

(** The backward search of [insert_dlg_timer_unsafe]. *)
Fixpoint search_pos (n : nat) (h : heap) (ptr t : Z) : res Z :=
  match n with
  | O => Fault OutOfFuel
  | S n =>
      if ptr =? FIRST then Ret ptr
      else
        c ← load ptr h;
        if timeout c <=? t then Ret ptr else search_pos n h (prev c) t
  end.

Definition insert_dlg_timer_unsafe (tl : Z) (h : heap) : res heap :=
  f ← load FIRST h;
  c ← load tl h;
  ptr ← search_pos (fuel h) h (prev f) (timeout c);
  h ← store_prev tl ptr h;
  p ← load ptr h;
  h ← store_next tl (next p) h;
  c ← load tl h;
  h ← store_next (prev c) tl h;
  c ← load tl h;
  store_prev (next c) tl h.

(** [ticks] is [get_ticks()]; the result is the return code and the heap. *)
Definition insert_dlg_timer (ticks tl interval : Z) (h : heap) : res (Z * heap) :=
  c ← load tl h;
  if negb (next c =? NULL) || negb (prev c =? NULL) then Ret (-1, h)
  else
    h ← store_timeout tl (u32 (ticks + interval)) h;
    h ← insert_dlg_timer_unsafe tl h;
    Ret (0, h).

Definition remove_dlg_timer_unsafe (tl : Z) (h : heap) : res heap :=
  c ← load tl h;
  h ← store_next (prev c) (next c) h;
  c ← load tl h;
  store_prev (next c) (prev c) h.

Definition remove_dlg_timer (tl : Z) (h : heap) : res (Z * heap) :=
  c ← load tl h;
  if prev c =? NULL then Ret (-1, h)
  else
    h ← remove_dlg_timer_unsafe tl h;
    h ← store_next tl NULL h;
    h ← store_prev tl NULL h;
    h ← store_timeout tl 0 h;
    Ret (0, h).

Definition update_dlg_timer (ticks tl interval : Z) (h : heap) : res (Z * heap) :=
  c ← load tl h;
  if negb (next c =? NULL) && (prev c =? NULL) then Ret (-1, h)
  else
    h ← (if negb (next c =? NULL) then remove_dlg_timer_unsafe tl h else Ret h);
    h ← store_timeout tl (u32 (ticks + interval)) h;
    h ← insert_dlg_timer_unsafe tl h;
    Ret (0, h).

(** The loop of [get_expired_dlgs]: clears [prev] of every expired cell and
    returns the first cell that is not. *)
Fixpoint expire_loop (n : nat) (h : heap) (tl time : Z) : res (Z * heap) :=
  match n with
  | O => Fault OutOfFuel
  | S n =>
      if tl =? FIRST then Ret (tl, h)
      else
        c ← load tl h;
        if timeout c <=? time then
          h ← store_prev tl NULL h;
          expire_loop n h (next c) time
        else Ret (tl, h)
  end.

Definition get_expired_dlgs (time : Z) (h : heap) : res (Z * heap) :=
  f ← load FIRST h;
  stop ← (if next f =? FIRST then Ret true
          else (c ← load (next f) h; Ret (timeout c >? time)));
  if (stop : bool) then Ret (NULL, h)
  else
    '(tl, h) ← expire_loop (fuel h) h (next f) time;
    f ← load FIRST h;
    c ← load (next f) h;
    if (tl =? FIRST) && negb (prev c =? NULL) then Ret (NULL, h)
    else
      let ret := next f in
      t ← load tl h;
      h ← store_next (prev t) NULL h;
      h ← store_next FIRST tl h;
      h ← store_prev tl FIRST h;
      Ret (ret, h).

Section Routine.
(** [timer_hdl], the function registered with [init_dlg_timer]. *)
Variable timer_hdl : Z -> heap -> res heap.

Fixpoint routine_loop (n : nat) (tl : Z) (h : heap) : res heap :=
  match n with
  | O => Fault OutOfFuel
  | S n =>
      if tl =? NULL then Ret h
      else
        c ← load tl h;
        h ← store_next tl NULL h;
        h ← timer_hdl tl h;
        routine_loop n (next c) h
  end.

Definition dlg_timer_routine (ticks : Z) (h : heap) : res heap :=
  '(tl, h') ← get_expired_dlgs ticks h;
  routine_loop (fuel h) tl h'.
End Routine.

(** ** The abstract timer *)

Definition next_of (h : heap) (p : Z) : option Z := next <$> h !! p.
Definition prev_of (h : heap) (p : Z) : option Z := prev <$> h !! p.
Definition timeout_of (h : heap) (p : Z) : Z := default 0 (timeout <$> h !! p).

Definition linked (h : heap) (a b : Z) : Prop :=
  next_of h a = Some b /\ prev_of h b = Some a.

(** [chain h a l b]: the cells [a :: l ++ [b]] are doubly linked in this order. *)
Fixpoint chain (h : heap) (a : Z) (l : list Z) (b : Z) : Prop :=
  match l with
  | [] => linked h a b
  | x :: l' => linked h a x /\ chain h x l' b
  end.

(** Well-formed timer: the cells [l] are queued, in order of expiry. *)
Record timer_ok (h : heap) (l : list Z) : Prop := {
  ok_chain : chain h FIRST l FIRST;
  ok_nodup : NoDup (FIRST :: l);
  ok_nonnull : ~ In NULL l;
  ok_sorted : StronglySorted Z.le (map (timeout_of h) l)
}.

(** The abstract operations: insertion after every cell that expires no later,
    removal, and the expired prefix. *)
Fixpoint spec_insert (tm : Z -> Z) (x : Z) (l : list Z) : list Z :=
  match l with
  | [] => [x]
  | y :: l' => if tm y <=? tm x then y :: spec_insert tm x l' else x :: l
  end.

Definition spec_remove (x : Z) (l : list Z) : list Z := filter (fun y => y <> x) l.

Fixpoint take_expired (tm : Z -> Z) (time : Z) (l : list Z) : list Z :=
  match l with
  | [] => []
  | x :: l' => if tm x <=? time then x :: take_expired tm time l' else []
  end.

Fixpoint drop_expired (tm : Z -> Z) (time : Z) (l : list Z) : list Z :=
  match l with
  | [] => []
  | x :: l' => if tm x <=? time then drop_expired tm time l' else l
  end.


(** ** The heap *)

Definition allocated (h : heap) (p : Z) : Prop := p <> NULL /\ is_Some (h !! p).

Lemma load_ok h p : allocated h p -> exists c, load p h = Ret c /\ h !! p = Some c.
Proof.
  intros [Hp [c Hc]]. exists c. unfold load. rewrite (proj2 (Z.eqb_neq _ _)), Hc by done. done.
Qed.

Lemma load_lookup h p c : p <> NULL -> h !! p = Some c -> load p h = Ret c.
Proof. intros Hp Hc. unfold load. by rewrite (proj2 (Z.eqb_neq _ _)), Hc. Qed.

Lemma store_ok f h p : allocated h p -> store f p h = Ret (alter f p h).
Proof. intros H. unfold store. by destruct (load_ok h p H) as (c & -> & _). Qed.

Lemma store_next_ok v h p : allocated h p -> store_next p v h = Ret (alter (with_next v) p h).
Proof. apply store_ok. Qed.
Lemma store_prev_ok v h p : allocated h p -> store_prev p v h = Ret (alter (with_prev v) p h).
Proof. apply store_ok. Qed.
Lemma store_timeout_ok v h p : allocated h p -> store_timeout p v h = Ret (alter (with_timeout v) p h).
Proof. apply store_ok. Qed.

Lemma allocated_alter f h p q : allocated (alter f p h) q <-> allocated h q.
Proof.
  unfold allocated. rewrite lookup_alter. case_decide; subst; [|done].
  by rewrite fmap_is_Some.
Qed.

Lemma next_of_alter f h p q :
  next_of (alter f p h) q = if decide (p = q) then next ∘ f <$> h !! q else next_of h q.
Proof.
  unfold next_of. rewrite lookup_alter. case_decide; [|done]. subst. by destruct (h !! q).
Qed.

Lemma prev_of_alter f h p q :
  prev_of (alter f p h) q = if decide (p = q) then prev ∘ f <$> h !! q else prev_of h q.
Proof.
  unfold prev_of. rewrite lookup_alter. case_decide; [|done]. subst. by destruct (h !! q).
Qed.

(** Writing one field leaves the other two alone. *)
Lemma next_of_with_prev h p v q : next_of (alter (with_prev v) p h) q = next_of h q.
Proof. rewrite next_of_alter. by case_decide. Qed.
Lemma prev_of_with_next h p v q : prev_of (alter (with_next v) p h) q = prev_of h q.
Proof. rewrite prev_of_alter. by case_decide. Qed.
Lemma next_of_with_timeout h p v q : next_of (alter (with_timeout v) p h) q = next_of h q.
Proof. rewrite next_of_alter. by case_decide. Qed.
Lemma prev_of_with_timeout h p v q : prev_of (alter (with_timeout v) p h) q = prev_of h q.
Proof. rewrite prev_of_alter. by case_decide. Qed.
Lemma timeout_of_with_next h p v q : timeout_of (alter (with_next v) p h) q = timeout_of h q.
Proof. unfold timeout_of. rewrite lookup_alter. case_decide; [|done]. subst. by destruct (h !! q). Qed.
Lemma timeout_of_with_prev h p v q : timeout_of (alter (with_prev v) p h) q = timeout_of h q.
Proof. unfold timeout_of. rewrite lookup_alter. case_decide; [|done]. subst. by destruct (h !! q). Qed.

Lemma next_of_with_next h p v q :
  allocated h p -> next_of (alter (with_next v) p h) q = if decide (p = q) then Some v else next_of h q.
Proof. intros [_ [c Hc]]. rewrite next_of_alter. case_decide; [|done]. subst. by rewrite Hc. Qed.
Lemma prev_of_with_prev h p v q :
  allocated h p -> prev_of (alter (with_prev v) p h) q = if decide (p = q) then Some v else prev_of h q.
Proof. intros [_ [c Hc]]. rewrite prev_of_alter. case_decide; [|done]. subst. by rewrite Hc. Qed.
Lemma timeout_of_with_timeout h p v q :
  allocated h p ->
  timeout_of (alter (with_timeout v) p h) q = if decide (p = q) then v else timeout_of h q.
Proof. intros [_ [c Hc]]. unfold timeout_of. rewrite lookup_alter. case_decide; [|done]. subst. by rewrite Hc. Qed.

Create Rewrite HintDb heap.
#[export] Hint Rewrite next_of_with_prev prev_of_with_next next_of_with_timeout
  prev_of_with_timeout timeout_of_with_next timeout_of_with_prev : heap.

Lemma load_next h p a : p <> NULL -> next_of h p = Some a ->
  exists c, load p h = Ret c /\ next c = a /\ h !! p = Some c.
Proof.
  unfold next_of. intros Hp Hn. destruct (h !! p) as [c|] eqn:E; simplify_eq/=.
  exists c. by rewrite (load_lookup _ _ c).
Qed.

(** ** Chains *)

Lemma chain_app h a l1 x l2 b :
  chain h a (l1 ++ x :: l2) b <-> chain h a l1 x /\ chain h x l2 b.
Proof.
  revert a; induction l1 as [|y l1 IH]; intros a; simpl; [done|].
  rewrite IH. tauto.
Qed.

(** A chain only reads [next] of its sources and [prev] of its targets. *)
Lemma chain_ext h h' a l b :
  (forall x, In x (a :: l) -> next_of h' x = next_of h x) ->
  (forall x, In x (l ++ [b]) -> prev_of h' x = prev_of h x) ->
  chain h a l b -> chain h' a l b.
Proof.
  revert a; induction l as [|y l IH]; intros a Hn Hp; simpl in *; unfold linked.
  - intros [? ?]. rewrite Hn, Hp; auto.
  - intros [[? ?] ?]. rewrite Hn, Hp by auto. split; [done|]. apply IH; auto.
Qed.

Lemma chain_allocated h a l b x :
  chain h a l b -> In x (a :: l) -> is_Some (h !! x).
Proof.
  revert a; induction l as [|y l IH]; intros a Hc Hx; simpl in *.
  - destruct Hc as [Hn _], Hx as [<-|[]]. unfold next_of in Hn. by destruct (h !! a).
  - destruct Hc as [[Hn _] Hc], Hx as [<-|Hx].
    + unfold next_of in Hn. by destruct (h !! a).
    + by apply (IH y).
Qed.


Lemma last_cons_default (l : list Z) x a : List.last (x :: l) a = List.last l x.
Proof.
  revert x a; induction l as [|y l IH]; intros x a; [done|].
  change (List.last (x :: y :: l) a) with (List.last (y :: l) a).
  by rewrite (IH y a), <- (IH y x).
Qed.

Lemma last_in (l : list Z) a : In (List.last l a) (a :: l).
Proof.
  revert a; induction l as [|x l IH]; intros a; [by left|].
  rewrite last_cons_default. right. apply IH.
Qed.

Lemma last_in_app (l1 l2 : list Z) a : In (List.last l1 a) (a :: l1 ++ l2).
Proof. destruct (last_in l1 a); [by left|right; apply in_or_app; by left]. Qed.

Lemma hd_in_app (l1 l2 : list Z) a : In (hd a l2) (a :: l1 ++ l2).
Proof. destruct l2; simpl; [by left|right; apply in_elt]. Qed.

Lemma hd_in (l : list Z) b : In (hd b l) (l ++ [b]).
Proof. destruct l; simpl; tauto. Qed.

(** Splicing [tl] between [ptr] and its successor. *)
Lemma chain_insert h h' a l1 l2 b tl :
  let ptr := List.last l1 a in
  let nx := hd b l2 in
  chain h a (l1 ++ l2) b ->
  NoDup (a :: l1 ++ l2) -> ~ In tl (a :: l1 ++ l2) -> ~ In b (l1 ++ l2) -> b <> tl ->
  (forall x, x <> ptr -> x <> tl -> next_of h' x = next_of h x) ->
  (forall x, x <> nx -> x <> tl -> prev_of h' x = prev_of h x) ->
  linked h' ptr tl -> linked h' tl nx ->
  chain h' a (l1 ++ tl :: l2) b.
Proof.
  intros ptr nx; subst ptr nx.
  revert a; induction l1 as [|x l1 IH]; intros a Hc Hnd Htl Hb Hbt Hn Hp L1 L2.
  - simpl in *. split; [done|]. destruct l2 as [|y l2]; simpl in *; [done|].
    split; [done|]. destruct Hc as [_ Hc].
    apply NoDup_cons in Hnd as [Ha Hnd]. apply NoDup_cons in Hnd as [Hy Hnd].
    rewrite list_elem_of_In in Ha, Hy. simpl in Ha.
    eapply chain_ext; [..|done].
    + intros z [<-|Hz]; apply Hn; try tauto; intros ->; tauto.
    + intros z Hz. apply in_app_iff in Hz as [Hz|[<-|[]]]; apply Hp;
        intros ?; subst; tauto.
  - rewrite last_cons_default in *. simpl in Hc. destruct Hc as [[L3 L4] Hc].
    apply NoDup_cons in Hnd as [Ha Hnd]. rewrite list_elem_of_In in Ha. simpl in Htl, Hb, Ha.
    assert (Hin : In (List.last l1 x) (x :: l1 ++ l2)) by apply last_in_app.
    simpl. split.
    + split.
      * rewrite Hn; [done| |tauto]. intros ->. simpl in Hin. tauto.
      * rewrite Hp; [done| |intros ->; tauto].
        pose proof (hd_in l2 b) as Hh. intros ->. apply in_app_iff in Hh as [Hh|[Hh|[]]]; [|by apply Hb; left].
        apply NoDup_cons in Hnd as [Hx _]. rewrite list_elem_of_In in Hx. apply Hx.
        apply in_or_app. by right.
    + apply IH; try done; simpl; tauto.
Qed.

(** Unlinking [t]. *)
Lemma chain_remove h h' a l1 l2 b t :
  let pr := List.last l1 a in
  let nx := hd b l2 in
  chain h a (l1 ++ t :: l2) b ->
  NoDup (a :: l1 ++ t :: l2) -> ~ In b (l1 ++ t :: l2) ->
  (forall x, x <> pr -> x <> t -> next_of h' x = next_of h x) ->
  (forall x, x <> nx -> x <> t -> prev_of h' x = prev_of h x) ->
  linked h' pr nx ->
  chain h' a (l1 ++ l2) b.
Proof.
  intros pr nx; subst pr nx.
  revert a; induction l1 as [|x l1 IH]; intros a Hc Hnd Hb Hn Hp L.
  - simpl in *. destruct Hc as [_ Hc]. destruct l2 as [|y l2]; simpl in *; [done|].
    split; [done|]. destruct Hc as [_ Hc].
    rewrite !NoDup_cons, !list_elem_of_In in Hnd. simpl in Hnd.
    destruct Hnd as (Ha & Ht & Hy & Hnd).
    eapply chain_ext; [..|done].
    + intros z [<-|Hz]; apply Hn; intros ?; subst; tauto.
    + intros z Hz. apply in_app_iff in Hz as [Hz|[<-|[]]]; apply Hp; intros ?; subst; tauto.
  - rewrite last_cons_default in *. simpl in Hc. destruct Hc as [[L3 L4] Hc].
    apply NoDup_cons in Hnd as [Ha Hnd]. rewrite list_elem_of_In in Ha. simpl in Hb, Ha.
    assert (Hin : In (List.last l1 x) (x :: l1 ++ t :: l2)) by apply last_in_app.
    assert (Hax : a <> t) by (intros ->; apply Ha; right; apply in_elt).
    pose proof Hnd as Hnd'. apply NoDup_cons in Hnd' as [Hx _]. rewrite list_elem_of_In in Hx.
    assert (Hxt : x <> t) by (intros ->; apply Hx, in_elt).
    simpl. split.
    + split.
      * rewrite Hn; [done| |done]. intros ->. simpl in Hin. tauto.
      * rewrite Hp; [done| |done].
        pose proof (hd_in l2 b) as Hh. intros ->. apply in_app_iff in Hh as [Hh|[Hh|[]]].
        -- apply Hx. apply in_or_app. right. by right.
        -- by apply Hb; left.
    + apply IH; try done; simpl; tauto.
Qed.

(** Two consecutive cells, at any split point. *)
Lemma chain_split h a l1 l2 b :
  chain h a (l1 ++ l2) b -> linked h (List.last l1 a) (hd b l2).
Proof.
  revert a; induction l1 as [|x l1 IH]; intros a Hc.
  - by destruct l2; simpl in *; [|destruct Hc].
  - rewrite last_cons_default. destruct Hc as [_ Hc]. by apply IH.
Qed.

Lemma load_fields h p a b :
  p <> NULL -> next_of h p = Some a -> prev_of h p = Some b ->
  load p h = Ret (Tl a b (timeout_of h p)).
Proof.
  intros Hp Hn Hq. unfold next_of, prev_of, timeout_of in *.
  destruct (h !! p) as [c|] eqn:E; simplify_eq/=. rewrite (load_lookup _ _ c) by done.
  by destruct c.
Qed.

Lemma nodup_size (h : heap) (l : list Z) :
  NoDup l -> (forall x, In x l -> is_Some (h !! x)) -> (length l <= size h)%nat.
Proof.
  intros Hnd Hin.
  rewrite <- size_dom, <- (size_list_to_set (C := gset Z)) by done.
  apply subseteq_size. intros x Hx. apply elem_of_list_to_set, list_elem_of_In in Hx.
  by apply elem_of_dom, Hin.
Qed.

Section Ok.
Context (h : heap) (l : list Z) (OK : timer_ok h l).

Lemma ok_first_notin : ~ In FIRST l.
Proof. destruct (proj1 (NoDup_cons _ _) (ok_nodup _ _ OK)) as [H _]. by rewrite list_elem_of_In in H. Qed.

Lemma ok_allocated x : In x (FIRST :: l) -> allocated h x.
Proof.
  intros Hx. split.
  - destruct Hx as [<-|Hx]; [done|]. intros ->. by apply (ok_nonnull _ _ OK).
  - eapply chain_allocated; [apply OK|done].
Qed.

Lemma ok_length : (length l < size h)%nat.
Proof.
  apply (nodup_size h (FIRST :: l)); [apply OK|]. intros x Hx. by apply ok_allocated.
Qed.
End Ok.

Lemma search_pos_spec n h l1 l2 t :
  timer_ok h (l1 ++ l2) -> (length l1 < n)%nat ->
  exists k1 k2, l1 = k1 ++ k2 /\
    search_pos n h (List.last l1 FIRST) t = Ret (List.last k1 FIRST) /\
    Forall (fun x => t < timeout_of h x) k2 /\
    (k1 = [] \/ timeout_of h (List.last k1 FIRST) <= t).
Proof.
  revert l2 n; induction l1 as [|x l1 IH] using rev_ind; intros l2 n OK Hn.
  { exists [], []. destruct n; [simpl in Hn; lia|]. simpl. repeat split; auto. }
  rewrite length_app in Hn. simpl in Hn. destruct n as [|n]; [lia|].
  rewrite last_last. cbn [search_pos].
  assert (Hx : In x ((l1 ++ [x]) ++ l2)) by (rewrite !in_app_iff; simpl; tauto).
  assert (x <> FIRST) by (intros ->; by apply (ok_first_notin _ _ OK)).
  rewrite (proj2 (Z.eqb_neq x FIRST)) by done.
  pose proof (ok_chain _ _ OK) as Hc. rewrite <- app_assoc in Hc. simpl in Hc.
  apply chain_app in Hc as [Hc1 Hc2].
  assert (Hp : prev_of h x = Some (List.last l1 FIRST)).
  { rewrite <- (app_nil_r l1) in Hc1. apply chain_split in Hc1. simpl in Hc1. apply Hc1. }
  assert (Hn' : next_of h x = Some (hd FIRST l2)).
  { pose proof (chain_split h x [] l2 FIRST) as Hs. simpl in Hs. by apply Hs. }
  rewrite (load_fields h x _ _) by (done || apply (ok_allocated _ _ OK); by right).
  simpl. destruct (Z.leb_spec (timeout_of h x) t).
  - exists (l1 ++ [x]), []. rewrite app_nil_r, last_last. repeat split; auto.
  - rewrite <- app_assoc in OK. destruct (IH (x :: l2) n OK) as (k1 & k2 & -> & E & F & L); [lia|].
    exists k1, (k2 ++ [x]). rewrite app_assoc. repeat split; auto.
    apply Forall_app; split; [done|]. by repeat constructor.
Qed.

(** ** Sorted insertion *)

Lemma sorted_app_inv (tm : Z -> Z) l1 l2 :
  StronglySorted Z.le (map tm (l1 ++ l2)) ->
  StronglySorted Z.le (map tm l1) /\ StronglySorted Z.le (map tm l2) /\
  forall x y, In x l1 -> In y l2 -> tm x <= tm y.
Proof.
  induction l1 as [|x l1 IH]; simpl; intros H.
  - split; [constructor|]. split; [done|]. intros ? ? [].
  - inversion H as [|? ? Hs Hf]; subst. destruct (IH Hs) as (H1 & H2 & H3).
    rewrite map_app, Forall_app in Hf. destruct Hf as [Hf1 Hf2].
    split; [by constructor|]. split; [done|]. intros y z [<-|Hy] Hz; [|by apply H3].
    rewrite List.Forall_forall in Hf2. apply Hf2. by apply in_map.
Qed.

Lemma sorted_app (tm : Z -> Z) l1 l2 :
  StronglySorted Z.le (map tm l1) -> StronglySorted Z.le (map tm l2) ->
  (forall x y, In x l1 -> In y l2 -> tm x <= tm y) ->
  StronglySorted Z.le (map tm (l1 ++ l2)).
Proof.
  induction l1 as [|x l1 IH]; simpl; intros H1 H2 H3; [done|].
  inversion H1 as [|? ? Hs Hf]; subst. constructor; [apply IH; auto|].
  rewrite map_app, Forall_app. split; [done|].
  apply List.Forall_forall. intros y Hy. apply in_map_iff in Hy as (z & <- & Hz). auto.
Qed.

Lemma spec_insert_split (tm : Z -> Z) x l1 l2 :
  Forall (fun y => tm y <= tm x) l1 -> Forall (fun y => tm x < tm y) l2 ->
  spec_insert tm x (l1 ++ l2) = l1 ++ x :: l2.
Proof.
  intros H1 H2. induction H1 as [|y l1 Hy _ IH]; simpl.
  - destruct H2 as [|y l2 Hy _]; simpl; [done|].
    by rewrite (proj2 (Z.leb_gt _ _)) by lia.
  - by rewrite (proj2 (Z.leb_le _ _)), IH by lia.
Qed.

Lemma sorted_last_le (tm : Z -> Z) (l : list Z) a t :
  StronglySorted Z.le (map tm l) -> l = [] \/ tm (List.last l a) <= t ->
  Forall (fun y => tm y <= t) l.
Proof.
  intros Hs [->|Hl]; [constructor|].
  destruct l as [|x l] using rev_ind; [constructor|]. rewrite last_last in Hl.
  apply sorted_app_inv in Hs as (_ & _ & H). apply List.Forall_forall. intros y Hy.
  apply in_app_iff in Hy as [Hy|[<-|[]]]; [|done].
  specialize (H y x Hy ltac:(by left)). lia.
Qed.

Lemma spec_insert_sorted tm x l :
  StronglySorted Z.le (map tm l) -> StronglySorted Z.le (map tm (spec_insert tm x l)).
Proof.
  induction l as [|y l IH]; simpl; intros Hs; [by repeat constructor|].
  inversion Hs as [|? ? Hs' Hf]; subst.
  destruct (Z.leb_spec (tm y) (tm x)); simpl.
  - constructor; [by apply IH|].
    clear IH Hs Hs'. induction l as [|z l IH]; simpl in *; [by repeat constructor|].
    inversion Hf; subst. destruct (_ <=? _); simpl; constructor; auto.
  - constructor; [done|]. constructor; [lia|]. eapply Forall_impl; [done|]. intros. simpl in *. lia.
Qed.

Lemma spec_insert_perm tm x l : Permutation (spec_insert tm x l) (x :: l).
Proof.
  induction l as [|y l IH]; simpl; [done|]. destruct (_ <=? _); [|done].
  rewrite IH. constructor.
Qed.

(** The order of insertion only depends on the times of the cells involved. *)
Lemma spec_insert_ext tm tm' x l :
  (forall y, In y (x :: l) -> tm y = tm' y) -> spec_insert tm x l = spec_insert tm' x l.
Proof.
  induction l as [|y l IH]; simpl; intros H; [done|].
  rewrite (H y), (H x) by auto. destruct (_ <=? _); [|done]. f_equal. apply IH.
  intros z [<-|Hz]; apply H; auto.
Qed.

(** ** Insertion *)

(** What an operation leaves alone: the set of cells and every cell outside [ls]. *)
Definition frame (h h' : heap) (ls : list Z) : Prop :=
  dom h' = dom h /\ forall p, ~ In p ls -> h' !! p = h !! p.

Lemma frame_alter f p h ls : In p ls -> frame h (alter f p h) ls.
Proof.
  intros Hp. split; [apply dom_alter_L|]. intros q Hq. apply lookup_alter_ne. by intros ->.
Qed.

Lemma frame_refl h ls : frame h h ls.
Proof. by split. Qed.

Lemma frame_trans h1 h2 h3 ls : frame h1 h2 ls -> frame h2 h3 ls -> frame h1 h3 ls.
Proof. intros [D1 F1] [D2 F2]. split; [congruence|]. intros p Hp. by rewrite F2, F1. Qed.

Lemma frame_weaken h h' ls ls' : (forall x, In x ls -> In x ls') -> frame h h' ls -> frame h h' ls'.
Proof. intros Hs [D F]. split; [done|]. auto. Qed.

(** The four stores of [insert_dlg_timer_unsafe]. *)
Definition splice (ptr nx tl : Z) (h : heap) : heap :=
  alter (with_prev tl) nx (alter (with_next tl) ptr
    (alter (with_next nx) tl (alter (with_prev ptr) tl h))).

Section Splice.
Context (h : heap) (ptr nx tl : Z).
Context (A1 : allocated h ptr) (A2 : allocated h nx) (A3 : allocated h tl).
Context (N1 : ptr <> tl) (N2 : nx <> tl).

Lemma splice_next x :
  next_of (splice ptr nx tl h) x =
  if decide (ptr = x) then Some tl else if decide (tl = x) then Some nx else next_of h x.
Proof.
  unfold splice. rewrite next_of_with_prev.
  rewrite next_of_with_next by (rewrite !allocated_alter; done).
  case_decide; [done|]. rewrite next_of_with_next by (rewrite !allocated_alter; done).
  case_decide; [done|]. by rewrite next_of_with_prev.
Qed.

Lemma splice_prev x :
  prev_of (splice ptr nx tl h) x =
  if decide (nx = x) then Some tl else if decide (tl = x) then Some ptr else prev_of h x.
Proof.
  unfold splice. rewrite prev_of_with_prev by (rewrite !allocated_alter; done).
  case_decide; [done|]. autorewrite with heap.
  by rewrite prev_of_with_prev by done.
Qed.

Lemma splice_timeout x : timeout_of (splice ptr nx tl h) x = timeout_of h x.
Proof. unfold splice. by autorewrite with heap. Qed.

Lemma splice_run :
  next_of h ptr = Some nx ->
  (h ← store_prev tl ptr h; p ← load ptr h; h ← store_next tl (next p) h;
   c ← load tl h; h ← store_next (prev c) tl h; c ← load tl h;
   store_prev (next c) tl h) = Ret (splice ptr nx tl h).
Proof.
  intros Hn. rewrite store_prev_ok by done. simpl.
  set (h1 := alter (with_prev ptr) tl h).
  destruct (load_next h1 ptr nx) as (p & -> & <- & _); [by destruct A1|by unfold h1; rewrite next_of_with_prev|].
  simpl. rewrite store_next_ok by (unfold h1; by rewrite allocated_alter).
  simpl. set (h2 := alter (with_next (next p)) tl h1).
  assert (A : allocated h2 tl) by (unfold h2, h1; by rewrite !allocated_alter).
  rewrite (load_fields h2 tl (next p) ptr).
  2: by destruct A3.
  2: { unfold h2. rewrite next_of_with_next by (unfold h1; by rewrite allocated_alter). by rewrite decide_True. }
  2: { unfold h2. rewrite prev_of_with_next. unfold h1. rewrite prev_of_with_prev by done. by rewrite decide_True. }
  simpl. rewrite store_next_ok by (unfold h2, h1; by rewrite !allocated_alter).
  simpl. set (h3 := alter (with_next tl) ptr h2).
  destruct (load_next h3 tl (next p)) as (c & -> & Enx & _); [by destruct A3| |].
  { unfold h3. rewrite next_of_with_next by (unfold h2, h1; by rewrite !allocated_alter).
    rewrite decide_False by done. unfold h2.
    rewrite next_of_with_next by (unfold h1; by rewrite allocated_alter). by rewrite decide_True. }
  simpl. rewrite Enx. by rewrite store_prev_ok by (unfold h3, h2, h1; by rewrite !allocated_alter).
Qed.
End Splice.

Lemma insert_dlg_timer_unsafe_spec h l tl :
  timer_ok h l -> allocated h tl -> ~ In tl (FIRST :: l) ->
  exists h', insert_dlg_timer_unsafe tl h = Ret h' /\
    timer_ok h' (spec_insert (timeout_of h) tl l) /\
    (forall p, timeout_of h' p = timeout_of h p) /\
    frame h h' (FIRST :: tl :: l).
Proof.
  intros OK At Hnot. unfold insert_dlg_timer_unsafe.
  pose proof (ok_chain _ _ OK) as Hc.
  destruct (load_ok h FIRST) as (f & -> & Ef); [apply (ok_allocated _ _ OK); by left|].
  destruct (load_ok h tl At) as (c & -> & Ec). run.
  assert (Hpf : prev f = List.last l FIRST).
  { pose proof Hc as Hc'. rewrite <- (app_nil_r l) in Hc'. apply chain_split in Hc' as [_ Hp]. simpl in Hp.
    unfold prev_of in Hp. rewrite Ef in Hp. simpl in Hp. congruence. }
  assert (Htm : timeout_of h tl = timeout c) by (unfold timeout_of; by rewrite Ec).
  rewrite Hpf, <- Htm.
  destruct (search_pos_spec (fuel h) h l [] (timeout_of h tl)) as (l1 & l2 & -> & -> & F2 & L1).
  { by rewrite app_nil_r. }
  { pose proof (ok_length _ _ OK). unfold fuel. lia. }
  set (ptr := List.last l1 FIRST). set (nx := hd FIRST l2).
  pose proof (chain_split _ _ _ _ _ Hc) as [Hnx Hpr]. fold ptr nx in Hnx, Hpr.
  assert (Iptr : In ptr (FIRST :: l1 ++ l2)) by apply last_in_app.
  assert (Inx : In nx (FIRST :: l1 ++ l2)) by apply hd_in_app.
  assert (Aptr := ok_allocated _ _ OK _ Iptr). assert (Anx := ok_allocated _ _ OK _ Inx).
  assert (ptr <> tl) by (intros ->; done). assert (nx <> tl) by (intros E; by rewrite E in Inx).
  assert (F1 : Forall (fun x => timeout_of h x <= timeout_of h tl) l1).
  { apply (sorted_last_le _ _ FIRST); [|done].
    by destruct (sorted_app_inv _ _ _ (ok_sorted _ _ OK)) as (? & _ & _). }
  exists (splice ptr nx tl h). split; [by apply splice_run|].
  rewrite (spec_insert_split _ _ _ _ F1 F2).
  assert (Et : forall q, timeout_of (splice ptr nx tl h) q = timeout_of h q)
    by (intros; by apply splice_timeout).
  split; [|split; [done|]].
  - constructor.
    + eapply chain_insert; [apply Hc|apply OK|done|apply (ok_first_notin _ _ OK)|..].
      * intros E. apply Hnot. by left.
      * intros x Hx1 Hx2. rewrite splice_next by done. by rewrite !decide_False by (intros <-; (by apply Hx1) || (by apply Hx2)).
      * intros x Hx1 Hx2. rewrite splice_prev by done. by rewrite !decide_False by (intros <-; (by apply Hx1) || (by apply Hx2)).
      * split; [rewrite splice_next by done; by rewrite decide_True|].
        rewrite splice_prev by done. fold ptr. rewrite decide_False by done. by rewrite decide_True.
      * split; [|rewrite splice_prev by done; by rewrite decide_True].
        rewrite splice_next by done. rewrite decide_False by done. by rewrite decide_True.
    + pose proof (ok_nodup _ _ OK) as Hnd. rewrite <- list_elem_of_In in Hnot.
      assert (P : Permutation (FIRST :: l1 ++ tl :: l2) (tl :: FIRST :: l1 ++ l2)).
      { rewrite <- Permutation_middle. constructor. }
      rewrite P. by constructor.
    + rewrite in_app_iff. simpl. pose proof (ok_nonnull _ _ OK) as Hz. rewrite in_app_iff in Hz.
      destruct At. intuition.
    + rewrite (map_ext _ _ Et), <- (spec_insert_split _ _ _ _ F1 F2).
      apply spec_insert_sorted, OK.
  - unfold splice. repeat (eapply frame_trans; [|apply frame_alter]); [apply frame_refl|..];
      simpl in *; rewrite ?in_app_iff in *; tauto.
Qed.

(** A cell that is in no list, and one that was taken off the timer by an expiry
    and waits for its handler. *)
Definition idle (h : heap) (tl : Z) : Prop := next_of h tl = Some NULL /\ prev_of h tl = Some NULL.
Definition pending (h : heap) (tl : Z) : Prop :=
  prev_of h tl = Some NULL /\ exists n, next_of h tl = Some n /\ n <> NULL.

(** The expiry times after [tl] was given a new one. *)
Definition set_time (tm : Z -> Z) (tl v : Z) : Z -> Z := fun p => if decide (tl = p) then v else tm p.

(** Both links of a queued cell are live. *)
Lemma queued_links h l tl :
  timer_ok h l -> In tl l ->
  exists l1 l2, l = l1 ++ tl :: l2 /\ ~ In tl (FIRST :: l1 ++ l2) /\
    next_of h tl = Some (hd FIRST l2) /\ prev_of h tl = Some (List.last l1 FIRST) /\
    allocated h (hd FIRST l2) /\ allocated h (List.last l1 FIRST).
Proof.
  intros OK Hin. destruct (in_split _ _ Hin) as (l1 & l2 & ->). exists l1, l2. split; [done|].
  pose proof (ok_chain _ _ OK) as Hc. apply chain_app in Hc as [Hc1 Hc2].
  assert (I1 : In (List.last l1 FIRST) (FIRST :: l1 ++ tl :: l2)) by apply last_in_app.
  assert (I2 : In (hd FIRST l2) (FIRST :: l1 ++ tl :: l2)).
  { destruct l2; simpl; [by left|]. right. apply in_or_app. right. right. by left. }
  repeat split.
  - pose proof (ok_nodup _ _ OK) as Hnd.
    assert (P : Permutation (FIRST :: l1 ++ tl :: l2) (tl :: FIRST :: l1 ++ l2)).
    { rewrite <- Permutation_middle. constructor. }
    rewrite P in Hnd. apply NoDup_cons in Hnd as [Hx _]. by rewrite list_elem_of_In in Hx.
  - apply (chain_split h tl [] l2 FIRST) in Hc2. apply Hc2.
  - rewrite <- (app_nil_r l1) in Hc1. apply chain_split in Hc1. apply Hc1.
  - by apply (ok_allocated _ _ OK).
  - by apply (ok_allocated _ _ OK).
  - by apply (ok_allocated _ _ OK).
  - by apply (ok_allocated _ _ OK).
Qed.

Lemma not_queued h l tl : timer_ok h l -> prev_of h tl = Some NULL -> ~ In tl l.
Proof.
  intros OK Hp Hin. destruct (queued_links h l tl OK Hin) as (l1 & l2 & _ & _ & _ & Hq & _ & [A _]).
  congruence.
Qed.

Lemma timer_ok_set_timeout h l tl v :
  timer_ok h l -> ~ In tl l -> timer_ok (alter (with_timeout v) tl h) l.
Proof.
  intros OK Hn. constructor; [|apply OK|apply OK|].
  - eapply chain_ext; [..|apply OK]; intros; by autorewrite with heap.
  - replace (map (timeout_of (alter (with_timeout v) tl h)) l) with (map (timeout_of h) l);
      [apply OK|]. apply map_ext_in. intros a Ha. unfold timeout_of.
    rewrite lookup_alter_ne; [done|]. by intros ->.
Qed.

(** The common tail of [insert_dlg_timer] and [update_dlg_timer]. *)
Lemma set_and_insert_spec h l tl v :
  timer_ok h l -> allocated h tl -> ~ In tl (FIRST :: l) ->
  exists h', (h ← store_timeout tl v h; h ← insert_dlg_timer_unsafe tl h; Ret (0, h)) = Ret (0, h') /\
    timer_ok h' (spec_insert (set_time (timeout_of h) tl v) tl l) /\
    (forall p, timeout_of h' p = set_time (timeout_of h) tl v p) /\
    frame h h' (FIRST :: tl :: l).
Proof.
  intros OK A Hn. rewrite store_timeout_ok by done. run.
  set (h1 := alter (with_timeout v) tl h).
  assert (Et : forall p, timeout_of h1 p = set_time (timeout_of h) tl v p).
  { intros p. unfold h1. by rewrite timeout_of_with_timeout. }
  destruct (insert_dlg_timer_unsafe_spec h1 l tl) as (h' & -> & OK' & T & Fr).
  - apply timer_ok_set_timeout; [done|]. simpl in Hn. tauto.
  - unfold h1. by rewrite allocated_alter.
  - done.
  - exists h'. split; [done|]. split; [|split].
    + rewrite <- (spec_insert_ext (timeout_of h1)); auto.
    + intros p. by rewrite T.
    + eapply frame_trans; [|apply Fr]. apply frame_alter. simpl; auto.
Qed.

Lemma insert_dlg_timer_idle h l tl ticks interval :
  timer_ok h l -> tl <> FIRST -> tl <> NULL -> idle h tl ->
  let v := u32 (ticks + interval) in
  exists h', insert_dlg_timer ticks tl interval h = Ret (0, h') /\
    timer_ok h' (spec_insert (set_time (timeout_of h) tl v) tl l) /\
    (forall p, timeout_of h' p = set_time (timeout_of h) tl v p) /\
    frame h h' (FIRST :: tl :: l).
Proof.
  intros OK N1 N2 [In' Ip] v. unfold insert_dlg_timer.
  rewrite (load_fields h tl _ _ N2 In' Ip). run. rewrite Z.eqb_refl. simpl negb. cbv iota.
  apply set_and_insert_spec; [done| |].
  - split; [done|]. unfold next_of in In'. by destruct (h !! tl).
  - intros [E|E]; [done|]. by apply (not_queued h l tl).
Qed.

Lemma insert_dlg_timer_busy h tl ticks interval :
  tl <> NULL -> is_Some (h !! tl) -> ~ idle h tl ->
  insert_dlg_timer ticks tl interval h = Ret (-1, h).
Proof.
  intros N [c Hc] Hi. unfold insert_dlg_timer. rewrite (load_lookup h tl c) by done. run.
  destruct (negb (next c =? NULL) || negb (prev c =? NULL)) eqn:E; [done|].
  exfalso. apply Hi. unfold idle, next_of, prev_of. rewrite Hc. simpl. bool_to_prop. split; congruence.
Qed.

(** ** Removal *)

Definition unlink (pr nx : Z) (h : heap) : heap :=
  alter (with_prev pr) nx (alter (with_next nx) pr h).

Lemma spec_remove_notin tl k : ~ In tl k -> filter (fun y : Z => y <> tl) k = k.
Proof.
  induction k as [|y k IH]; intros Hk; [done|]. simpl in Hk.
  rewrite filter_cons_True by (intros ->; tauto). f_equal. apply IH. tauto.
Qed.

Lemma remove_dlg_timer_unsafe_spec h l tl :
  timer_ok h l -> In tl l ->
  exists h', remove_dlg_timer_unsafe tl h = Ret h' /\
    timer_ok h' (spec_remove tl l) /\
    (forall p, timeout_of h' p = timeout_of h p) /\
    (next_of h' tl = next_of h tl /\ prev_of h' tl = prev_of h tl) /\
    frame h h' (FIRST :: l).
Proof.
  intros OK Hin.
  destruct (queued_links h l tl OK Hin) as (l1 & l2 & -> & Hnot & Hn & Hp & A2 & A1).
  set (pr := List.last l1 FIRST) in *. set (nx := hd FIRST l2) in *.
  assert (Ntl : tl <> NULL) by (intros ->; by apply (ok_nonnull _ _ OK)).
  assert (Ipr : In pr (FIRST :: l1 ++ l2)) by apply last_in_app.
  assert (Inx : In nx (FIRST :: l1 ++ l2)) by apply hd_in_app.
  assert (pr <> tl) by (intros ->; done). assert (nx <> tl) by (intros E; by rewrite E in Inx).
  exists (unlink pr nx h). unfold remove_dlg_timer_unsafe.
  rewrite (load_fields h tl nx pr) by done. run. cbn [prev next].
  rewrite store_next_ok by done. run.
  rewrite (load_fields (alter (with_next nx) pr h) tl nx pr); [|done| |].
  2: { rewrite next_of_with_next by done. by rewrite decide_False. }
  2: { by rewrite prev_of_with_next. }
  run. cbn [prev next]. rewrite store_prev_ok by (by rewrite allocated_alter).
  assert (Un : forall x, next_of (unlink pr nx h) x = if decide (pr = x) then Some nx else next_of h x).
  { intros x. unfold unlink. rewrite next_of_with_prev. by rewrite next_of_with_next. }
  assert (Up : forall x, prev_of (unlink pr nx h) x = if decide (nx = x) then Some pr else prev_of h x).
  { intros x. unfold unlink. rewrite prev_of_with_prev by (by rewrite allocated_alter).
    by rewrite prev_of_with_next. }
  assert (Ut : forall x, timeout_of (unlink pr nx h) x = timeout_of h x).
  { intros x. unfold unlink. by autorewrite with heap. }
  assert (Er : spec_remove tl (l1 ++ tl :: l2) = l1 ++ l2).
  { unfold spec_remove. rewrite filter_app, filter_cons_False by (intros E; by apply E).
    simpl in Hnot. rewrite in_app_iff in Hnot.
    by rewrite !(spec_remove_notin tl) by tauto. }
  split; [done|]. rewrite Er. split; [|split; [done|split]].
  - constructor.
    + eapply chain_remove; [apply OK|apply OK|apply (ok_first_notin _ _ OK)|..].
      * intros x Hx1 Hx2. rewrite Un. rewrite decide_False; [done|]. intros <-. by apply Hx1.
      * intros x Hx1 Hx2. rewrite Up. rewrite decide_False; [done|]. intros <-. by apply Hx1.
      * split; [rewrite Un|rewrite Up]; by rewrite decide_True.
    + pose proof (ok_nodup _ _ OK) as Hnd.
      assert (P : Permutation (FIRST :: l1 ++ tl :: l2) (tl :: FIRST :: l1 ++ l2)).
      { rewrite <- Permutation_middle. constructor. }
      rewrite P in Hnd. by apply NoDup_cons in Hnd as [_ Hnd].
    + pose proof (ok_nonnull _ _ OK) as Hz. rewrite in_app_iff in *. simpl in Hz. tauto.
    + rewrite (map_ext _ _ Ut). pose proof (ok_sorted _ _ OK) as Hs.
      apply sorted_app_inv in Hs as (S1 & S2 & S3). inversion S2; subst.
      apply sorted_app; [done..|]. intros x y Hx Hy. apply S3; [done|by right].
  - split; [rewrite Un|rewrite Up]; by rewrite decide_False.
  - unfold unlink. repeat (eapply frame_trans; [|apply frame_alter]); [apply frame_refl|..];
      simpl in *; rewrite ?in_app_iff in *; simpl; tauto.
Qed.

Lemma spec_remove_in tl l x : In x (spec_remove tl l) <-> In x l /\ x <> tl.
Proof. unfold spec_remove. rewrite <- !list_elem_of_In, list_elem_of_filter. tauto. Qed.

(** Changing a cell outside a well-formed list keeps it well-formed. *)
Lemma timer_ok_alter_outside h l f p :
  timer_ok h l -> ~ In p (FIRST :: l) -> timer_ok (alter f p h) l.
Proof.
  intros OK Hp.
  assert (E : forall x, In x (FIRST :: l) -> alter f p h !! x = h !! x).
  { intros x Hx. apply lookup_alter_ne. by intros ->. }
  constructor; [|apply OK|apply OK|].
  - eapply chain_ext; [..|apply OK]; intros x Hx; unfold next_of, prev_of; rewrite E; auto.
    apply in_app_iff in Hx as [Hx|[<-|[]]]; [by right|by left].
  - replace (map (timeout_of (alter f p h)) l) with (map (timeout_of h) l); [apply OK|].
    apply map_ext_in. intros a Ha. unfold timeout_of. by rewrite E by (by right).
Qed.

Lemma remove_dlg_timer_queued h l tl :
  timer_ok h l -> In tl l ->
  exists h', remove_dlg_timer tl h = Ret (0, h') /\
    timer_ok h' (spec_remove tl l) /\ idle h' tl /\ frame h h' (FIRST :: l).
Proof.
  intros OK Hin. pose proof (ok_allocated _ _ OK tl ltac:(by right)) as A.
  destruct (queued_links h l tl OK Hin) as (l1 & l2 & _ & _ & Hn & Hp & _ & [Np _]).
  assert (Ntl : tl <> NULL) by apply A.
  assert (Nf : tl <> FIRST) by (intros ->; by apply (ok_first_notin _ _ OK)).
  unfold remove_dlg_timer. rewrite (load_fields h tl _ _ Ntl Hn Hp). run. cbn [prev].
  rewrite (proj2 (Z.eqb_neq _ _) Np).
  destruct (remove_dlg_timer_unsafe_spec h l tl OK Hin) as (h1 & -> & OK1 & _ & _ & Fr). run.
  assert (A1 : allocated h1 tl).
  { split; [done|]. apply elem_of_dom. destruct Fr as [-> _]. apply elem_of_dom, A. }
  rewrite store_next_ok by done. run.
  rewrite store_prev_ok by (by rewrite allocated_alter). run.
  rewrite store_timeout_ok by (by rewrite !allocated_alter). run.
  eexists. split; [done|].
  assert (Nout : ~ In tl (FIRST :: spec_remove tl l)).
  { intros [E|E]; [done|]. apply spec_remove_in in E. tauto. }
  split; [|split].
  - by repeat apply timer_ok_alter_outside.
  - split.
    + autorewrite with heap. rewrite next_of_with_next by done. by rewrite decide_True.
    + autorewrite with heap. rewrite prev_of_with_prev by (by rewrite allocated_alter).
      by rewrite decide_True.
  - eapply frame_trans; [apply Fr|].
    repeat (eapply frame_trans; [|apply frame_alter; by right]). apply frame_refl.
Qed.

Lemma remove_dlg_timer_unqueued h tl :
  tl <> NULL -> prev_of h tl = Some NULL -> remove_dlg_timer tl h = Ret (-1, h).
Proof.
  intros N Hp. unfold remove_dlg_timer, prev_of in *.
  destruct (h !! tl) as [c|] eqn:E; [|done]. injection Hp as Hp.
  rewrite (load_lookup h tl c) by done. run. by rewrite Hp.
Qed.

Lemma update_dlg_timer_queued h l tl ticks interval :
  timer_ok h l -> In tl l ->
  let v := u32 (ticks + interval) in
  exists h', update_dlg_timer ticks tl interval h = Ret (0, h') /\
    timer_ok h' (spec_insert (set_time (timeout_of h) tl v) tl (spec_remove tl l)) /\
    (forall p, timeout_of h' p = set_time (timeout_of h) tl v p) /\
    frame h h' (FIRST :: l).
Proof.
  intros OK Hin v. pose proof (ok_allocated _ _ OK tl ltac:(by right)) as A.
  destruct (queued_links h l tl OK Hin) as (l1 & l2 & _ & _ & Hn & Hp & [Nn _] & [Np _]).
  assert (Ntl : tl <> NULL) by apply A.
  assert (Nf : tl <> FIRST) by (intros ->; by apply (ok_first_notin _ _ OK)).
  unfold update_dlg_timer. rewrite (load_fields h tl _ _ Ntl Hn Hp). run. cbn [prev next].
  rewrite (proj2 (Z.eqb_neq _ _) Np), (proj2 (Z.eqb_neq _ _) Nn). simpl negb. cbn [andb].
  destruct (remove_dlg_timer_unsafe_spec h l tl OK Hin) as (h1 & -> & OK1 & T1 & _ & Fr). run.
  assert (A1 : allocated h1 tl).
  { split; [done|]. apply elem_of_dom. destruct Fr as [-> _]. apply elem_of_dom, A. }
  fold v. destruct (set_and_insert_spec h1 (spec_remove tl l) tl v) as (h' & -> & OK' & T' & Fr'); [done..| |].
  { intros [E|E]; [done|]. apply spec_remove_in in E. tauto. }
  assert (Es : forall y, set_time (timeout_of h1) tl v y = set_time (timeout_of h) tl v y).
  { intros y. unfold set_time. by rewrite T1. }
  exists h'. split; [done|]. split; [|split].
  - rewrite <- (spec_insert_ext (set_time (timeout_of h1) tl v)); auto.
  - intros p. by rewrite T', Es.
  - eapply frame_trans; [apply Fr|]. eapply frame_weaken; [|apply Fr'].
    intros x [<-|[<-|Hx]]; [by left|by right|]. right. by apply spec_remove_in in Hx as [Hx _].
Qed.

Lemma update_dlg_timer_idle h l tl ticks interval :
  timer_ok h l -> tl <> FIRST -> tl <> NULL -> idle h tl ->
  let v := u32 (ticks + interval) in
  exists h', update_dlg_timer ticks tl interval h = Ret (0, h') /\
    timer_ok h' (spec_insert (set_time (timeout_of h) tl v) tl l) /\
    (forall p, timeout_of h' p = set_time (timeout_of h) tl v p) /\
    frame h h' (FIRST :: tl :: l).
Proof.
  intros OK N1 N2 [In' Ip] v. unfold update_dlg_timer.
  rewrite (load_fields h tl _ _ N2 In' Ip). run. cbn [next prev]. rewrite Z.eqb_refl. cbn [negb andb]. run.
  apply set_and_insert_spec; [done| |].
  - split; [done|]. unfold next_of in In'. by destruct (h !! tl).
  - intros [E|E]; [done|]. by apply (not_queued h l tl).
Qed.

Lemma update_dlg_timer_pending h tl ticks interval :
  tl <> NULL -> pending h tl -> update_dlg_timer ticks tl interval h = Ret (-1, h).
Proof.
  intros N (Hp & n & Hn & Nn). unfold update_dlg_timer.
  rewrite (load_fields h tl _ _ N Hn Hp). run. cbn [next prev].
  by rewrite (proj2 (Z.eqb_neq _ _) Nn).
Qed.

(** ** Expiry *)

(** Forward links only. *)
Fixpoint nchain (h : heap) (l : list Z) (b : Z) : Prop :=
  match l with
  | [] => True
  | x :: l' => next_of h x = Some (hd b l') /\ nchain h l' b
  end.

(** The detached list handed to the timer routine: forward links ending in a null
    pointer, backward links cleared. *)
Fixpoint detached (h : heap) (l : list Z) : Prop :=
  match l with
  | [] => True
  | x :: l' => next_of h x = Some (hd NULL l') /\ prev_of h x = Some NULL /\ detached h l'
  end.

Definition clear_prevs (l : list Z) (h : heap) : heap :=
  fold_left (fun h x => alter (with_prev NULL) x h) l h.

Lemma chain_nchain h a l b : chain h a l b -> nchain h l b.
Proof.
  revert a; induction l as [|x l IH]; intros a; simpl; [done|]. intros [_ Hc]. split; [|by apply (IH x)].
  by apply (chain_split h x [] l b) in Hc as [? _].
Qed.

Lemma nchain_ext h h' l b :
  (forall x, In x l -> next_of h' x = next_of h x) -> nchain h l b -> nchain h' l b.
Proof. induction l as [|x l IH]; simpl; [done|]. intros H [? ?]. rewrite H; auto. Qed.

Lemma clear_prevs_next l h x : next_of (clear_prevs l h) x = next_of h x.
Proof. revert h; induction l as [|y l IH]; intros h; simpl; [done|]. by rewrite IH, next_of_with_prev. Qed.

Lemma clear_prevs_timeout l h x : timeout_of (clear_prevs l h) x = timeout_of h x.
Proof. revert h; induction l as [|y l IH]; intros h; simpl; [done|]. by rewrite IH, timeout_of_with_prev. Qed.

Lemma clear_prevs_allocated l h x : allocated (clear_prevs l h) x <-> allocated h x.
Proof. revert h; induction l as [|y l IH]; intros h; simpl; [done|]. by rewrite IH, allocated_alter. Qed.

Lemma clear_prevs_prev l h x :
  (forall y, In y l -> allocated h y) ->
  prev_of (clear_prevs l h) x = if decide (x ∈ l) then Some NULL else prev_of h x.
Proof.
  revert h; induction l as [|y l IH]; intros h Ha; simpl; [done|].
  rewrite IH by (intros; rewrite allocated_alter; apply Ha; by right).
  destruct (decide (x ∈ l)); [by rewrite decide_True by (by right)|].
  rewrite prev_of_with_prev by (apply Ha; by left). case_decide as E.
  - subst. by rewrite decide_True by (by left).
  - rewrite decide_False; [done|]. rewrite elem_of_cons. intuition.
Qed.

Lemma clear_prevs_frame l h ls : (forall x, In x l -> In x ls) -> frame h (clear_prevs l h) ls.
Proof.
  revert h; induction l as [|y l IH]; intros h Hs; simpl; [apply frame_refl|].
  eapply frame_trans; [apply frame_alter, Hs; by left|]. apply IH. intros; apply Hs; by right.
Qed.

Lemma take_drop_expired tm time l : l = take_expired tm time l ++ drop_expired tm time l.
Proof. induction l as [|x l IH]; simpl; [done|]. destruct (_ <=? _); simpl; [by f_equal|done]. Qed.

Lemma take_expired_ext tm tm' time l :
  (forall x, tm x = tm' x) ->
  take_expired tm time l = take_expired tm' time l /\ drop_expired tm time l = drop_expired tm' time l.
Proof.
  intros E. induction l as [|x l [IH1 IH2]]; simpl; [done|]. rewrite E.
  destruct (_ <=? _); [by rewrite IH1, IH2|done].
Qed.

Lemma expire_loop_spec n h l time :
  (length l < n)%nat -> nchain h l FIRST -> ~ In FIRST l ->
  (forall x, In x l -> allocated h x) ->
  expire_loop n h (hd FIRST l) time =
  Ret (hd FIRST (drop_expired (timeout_of h) time l),
       clear_prevs (take_expired (timeout_of h) time l) h).
Proof.
  revert h n; induction l as [|x l IH]; intros h n Hn Hc Hf Ha.
  { destruct n; [simpl in Hn; lia|done]. }
  destruct n as [|n]; [simpl in Hn; lia|]. simpl in Hf.
  cbn [expire_loop hd]. rewrite (proj2 (Z.eqb_neq x FIRST)) by (intros ->; tauto).
  destruct Hc as [Hx Hc]. destruct (Ha x ltac:(by left)) as [Nx _].
  destruct (load_next h x _ Nx Hx) as (c & -> & En & Ec). run.
  assert (Et : timeout_of h x = timeout c) by (unfold timeout_of; by rewrite Ec).
  cbn [take_expired drop_expired]. rewrite Et.
  destruct (timeout c <=? time); [|done].
  rewrite store_prev_ok by (apply Ha; by left). run. rewrite En.
  set (h1 := alter (with_prev NULL) x h).
  assert (E1 : forall y, timeout_of h1 y = timeout_of h y) by (intros; apply timeout_of_with_prev).
  destruct (take_expired_ext _ _ time l E1) as [E2 E3].
  rewrite (IH h1 n); [by rewrite E2, E3|simpl in Hn; lia| |tauto|].
  - eapply nchain_ext; [|done]. intros. apply next_of_with_prev.
  - intros y Hy. unfold h1. rewrite allocated_alter. apply Ha. by right.
Qed.

Lemma detached_intro h l :
  nchain h l NULL -> (forall x, In x l -> prev_of h x = Some NULL) -> detached h l.
Proof.
  induction l as [|x l IH]; simpl; [done|]. intros [Hn Hc] Hp. split; [done|].
  split; [apply Hp; by left|]. apply IH; [done|]. intros; apply Hp; by right.
Qed.

(** Cutting a forward chain after its last cell. *)
Lemma nchain_cut h h' l b b' :
  NoDup l -> nchain h l b ->
  (forall x, In x l -> x <> List.last l b' -> next_of h' x = next_of h x) ->
  (l <> [] -> next_of h' (List.last l b') = Some b') -> nchain h' l b'.
Proof.
  induction l as [|x l IH]; simpl; [done|]. intros Hnd [Hx Hc] Hn Hl.
  apply NoDup_cons in Hnd as [Hnx Hnd]. rewrite list_elem_of_In in Hnx.
  destruct l as [|y l].
  - split; [|done]. by apply Hl.
  - split.
    + rewrite Hn; [done|by left|]. intros E. apply Hnx. rewrite E.
      destruct (last_in l y) as [E'|E']; change (match l with [] => y | _ => List.last l b' end)
        with (List.last (y :: l) b') in *; rewrite last_cons_default in *; [by left|by right].
    + apply IH; [done|done| |].
      * intros z Hz Hz'. apply Hn; [by right|done].
      * intros _. by apply Hl.
Qed.

(** The three stores that detach the expired prefix [l1] from the rest [l2]. *)
Definition detach (l1 : list Z) (tl : Z) (h : heap) : heap :=
  alter (with_prev FIRST) tl (alter (with_next tl) FIRST
    (alter (with_next NULL) (List.last l1 FIRST) (clear_prevs l1 h))).

Section Detach.
Context (h : heap) (l1 l2 : list Z) (OK : timer_ok h (l1 ++ l2)).
Local Abbreviation tl := (hd FIRST l2).
Local Abbreviation lst := (List.last l1 FIRST).

Lemma detach_in1 x : In x l1 -> allocated h x.
Proof. intros. apply (ok_allocated _ _ OK). right. apply in_or_app. by left. Qed.
Lemma detach_tl : In tl (FIRST :: l2).
Proof. destruct l2; simpl; auto. Qed.
Lemma detach_alloc_tl : allocated h tl.
Proof. apply (ok_allocated _ _ OK), hd_in_app. Qed.
Lemma detach_alloc_lst : allocated h lst.
Proof. apply (ok_allocated _ _ OK), last_in_app. Qed.

Lemma detach_next x :
  next_of (detach l1 tl h) x =
  if decide (FIRST = x) then Some tl else if decide (lst = x) then Some NULL else next_of h x.
Proof.
  unfold detach. rewrite next_of_with_prev.
  rewrite next_of_with_next.
  2: { rewrite allocated_alter, clear_prevs_allocated. apply (ok_allocated _ _ OK). by left. }
  case_decide; [done|]. rewrite next_of_with_next.
  2: { rewrite clear_prevs_allocated. apply detach_alloc_lst. }
  case_decide; [done|]. apply clear_prevs_next.
Qed.

Lemma detach_prev x :
  prev_of (detach l1 tl h) x =
  if decide (tl = x) then Some FIRST else if decide (x ∈ l1) then Some NULL else prev_of h x.
Proof.
  unfold detach. rewrite prev_of_with_prev.
  2: { rewrite !allocated_alter, clear_prevs_allocated. apply detach_alloc_tl. }
  case_decide; [done|]. autorewrite with heap. apply clear_prevs_prev, detach_in1.
Qed.

Lemma detach_timeout x : timeout_of (detach l1 tl h) x = timeout_of h x.
Proof. unfold detach. autorewrite with heap. apply clear_prevs_timeout. Qed.

Lemma detach_disjoint x : In x l1 -> ~ In x (FIRST :: l2).
Proof.
  intros Hx. pose proof (ok_nodup _ _ OK) as Hnd.
  apply NoDup_cons in Hnd as [Hf Hnd]. apply NoDup_app in Hnd as (_ & Hd & _).
  rewrite list_elem_of_In in Hf. intros [<-|H2].
  - apply Hf, in_or_app. by left.
  - apply (Hd x); by apply list_elem_of_In.
Qed.

End Detach.

Lemma detach_ok h l1 l2 :
  timer_ok h (l1 ++ l2) -> l1 <> [] -> timer_ok (detach l1 (hd FIRST l2) h) l2.
Proof.
  intros OK Hne. set (lst := List.last l1 FIRST).
  assert (Hlst : In lst l1).
  { unfold lst. destruct l1 as [|y k]; [done|]. rewrite last_cons_default. apply last_in. }
  pose proof (detach_disjoint _ _ _ OK _ Hlst) as Dl.
  pose proof (ok_nodup _ _ OK) as Hnd.
  apply NoDup_cons in Hnd as [Hf Hnd]. apply NoDup_app in Hnd as (_ & _ & Hnd2).
  rewrite list_elem_of_In, in_app_iff in Hf.
  constructor.
  - assert (Hc : chain h lst l2 FIRST).
    { pose proof (ok_chain _ _ OK) as Hc. unfold lst.
      destruct l1 as [|y k] using rev_ind; [done|]. rewrite last_last.
      rewrite <- app_assoc in Hc. by apply chain_app in Hc as [_ ?]. }
    destruct l2 as [|y k]; simpl in *.
    + split; [rewrite (detach_next h _ _ OK)|rewrite (detach_prev h _ _ OK)]; by rewrite decide_True.
    + split.
      * split; [rewrite (detach_next h _ _ OK)|rewrite (detach_prev h _ _ OK)]; by rewrite decide_True.
      * destruct Hc as [_ Hc]. apply NoDup_cons in Hnd2 as [Hy _]. rewrite list_elem_of_In in Hy.
        eapply chain_ext; [..|done]; intros x Hx.
        -- rewrite (detach_next h _ _ OK), !decide_False; [done| |]; intros <-; [tauto|].
           apply Hf. by right.
        -- rewrite (detach_prev h _ _ OK). rewrite !decide_False; [done| |].
           ++ rewrite list_elem_of_In. intros Hx1. apply (detach_disjoint _ _ _ OK) in Hx1.
              simpl in Hx1. apply in_app_iff in Hx as [Hx|[Hx|[]]]; tauto.
           ++ simpl. intros <-. apply in_app_iff in Hx as [Hx|[Hx|[]]]; [tauto|].
              apply Hf. subst. right. by left.
  - apply NoDup_cons. split; [|done]. rewrite list_elem_of_In. tauto.
  - pose proof (ok_nonnull _ _ OK) as Hz. rewrite in_app_iff in Hz. tauto.
  - rewrite (map_ext _ _ (detach_timeout h l1 l2)).
    by destruct (sorted_app_inv _ _ _ (ok_sorted _ _ OK)) as (_ & ? & _).
Qed.

Lemma detach_detached h l1 l2 :
  timer_ok h (l1 ++ l2) -> detached (detach l1 (hd FIRST l2) h) l1.
Proof.
  intros OK. set (lst := List.last l1 FIRST). set (tl := hd FIRST l2).
  pose proof (ok_nodup _ _ OK) as Hnd. apply NoDup_cons in Hnd as [Hf Hnd].
  apply NoDup_app in Hnd as (Hnd1 & _ & _). rewrite list_elem_of_In, in_app_iff in Hf.
  assert (HF : forall x, In x l1 -> FIRST <> x) by (intros x Hx <-; tauto).
  apply detached_intro.
  - assert (Hc : nchain h l1 tl).
    { pose proof (ok_chain _ _ OK) as Hc. unfold tl. clear -Hc.
      revert Hc; generalize FIRST at 1 as a. induction l1 as [|x k IH]; intros a Hc; simpl in *; [done|].
      destruct Hc as [_ Hc]. split; [|by apply (IH x)].
      apply (chain_split h x [] (k ++ l2) FIRST) in Hc as [Hn _]. simpl in Hn. rewrite Hn.
      by destruct k. }
    assert (El : l1 <> [] -> List.last l1 NULL = lst).
    { unfold lst. destruct l1 as [|y k]; [done|]. by rewrite !last_cons_default. }
    eapply nchain_cut; [done|done| |].
    + intros x Hx Hx'. rewrite (detach_next h _ _ OK), !decide_False; [done| |by apply HF].
      intros E. apply Hx'. rewrite El; [done|]. by intros ->.
    + intros Hne. rewrite El by done. rewrite (detach_next h _ _ OK).
      rewrite decide_False; [by rewrite decide_True|].
      apply HF. unfold lst. destruct l1 as [|y k]; [done|]. rewrite last_cons_default. apply last_in.
  - intros x Hx. rewrite (detach_prev h _ _ OK).
    rewrite decide_False; [rewrite decide_True; [done|by apply list_elem_of_In]|].
    intros E. apply (detach_disjoint _ _ _ OK x Hx). rewrite <- E. unfold tl. destruct l2; simpl; auto.
Qed.

(** From the end of the loop to the return. *)
Lemma detach_run h ex l2 :
  timer_ok h (ex ++ l2) -> ex <> [] ->
  (f ← load FIRST (clear_prevs ex h);
   c ← load (next f) (clear_prevs ex h);
   if (hd FIRST l2 =? FIRST) && negb (prev c =? NULL) then Ret (NULL, clear_prevs ex h)
   else
     t ← load (hd FIRST l2) (clear_prevs ex h);
     h' ← store_next (prev t) NULL (clear_prevs ex h);
     h' ← store_next FIRST (hd FIRST l2) h';
     h' ← store_prev (hd FIRST l2) FIRST h';
     Ret (next f, h')) = Ret (hd NULL ex, detach ex (hd FIRST l2) h).
Proof.
  intros OK Hne. pose proof (ok_chain _ _ OK) as Hc.
  assert (Hin : forall x, In x ex -> allocated h x) by (intros; by apply (detach_in1 h ex l2)).
  set (h1 := clear_prevs ex h). set (tl := hd FIRST l2).
  assert (A1 : forall x, allocated h1 x <-> allocated h x) by (intros; apply clear_prevs_allocated).
  destruct ex as [|e ex']; [done|].
  destruct (load_next h1 FIRST e ltac:(done)) as (f1 & -> & Ef & _).
  { unfold h1. rewrite clear_prevs_next. apply (chain_split h FIRST [] _ FIRST Hc). }
  run. rewrite Ef. assert (Pe : prev_of h1 e = Some NULL).
  { unfold h1. rewrite clear_prevs_prev by done. rewrite decide_True; [done|]. by left. }
  destruct (load_ok h1 e) as (c1 & -> & Lc1); [apply A1, Hin; by left|]. run.
  unfold prev_of in Pe. rewrite Lc1 in Pe. injection Pe as Pe. rewrite Pe, Z.eqb_refl, andb_false_r.
  assert (Ptl : prev_of h1 tl = Some (List.last (e :: ex') FIRST)).
  { unfold h1. rewrite clear_prevs_prev by done. rewrite decide_False.
    - by apply chain_split in Hc as [_ ?].
    - rewrite list_elem_of_In. intros Hx. apply (detach_disjoint _ _ _ OK _ Hx).
      unfold tl. destruct l2; simpl; auto. }
  assert (At : allocated h1 tl) by (by apply A1, (detach_alloc_tl h (e :: ex') l2)).
  destruct (load_ok h1 tl At) as (t & -> & Lt). run.
  unfold prev_of in Ptl. rewrite Lt in Ptl. injection Ptl as Ptl. rewrite Ptl.
  rewrite store_next_ok by (by apply A1, (detach_alloc_lst h (e :: ex') l2)). run.
  rewrite store_next_ok by (rewrite allocated_alter, A1; apply (ok_allocated _ _ OK); by left). run.
  by rewrite store_prev_ok by (by rewrite !allocated_alter).
Qed.

Lemma detach_frame h ex l2 : frame h (detach ex (hd FIRST l2) h) (FIRST :: ex ++ l2).
Proof.
  unfold detach. eapply frame_trans; [|apply frame_alter, hd_in_app].
  eapply frame_trans; [|apply frame_alter; by left].
  eapply frame_trans; [|apply frame_alter, last_in_app].
  apply clear_prevs_frame. intros x Hx. right. apply in_or_app. by left.
Qed.

Lemma get_expired_dlgs_none h l time :
  timer_ok h l -> take_expired (timeout_of h) time l = [] ->
  get_expired_dlgs time h = Ret (NULL, h).
Proof.
  intros OK Hex. unfold get_expired_dlgs.
  pose proof (chain_split h FIRST [] l FIRST (ok_chain _ _ OK)) as [Hnf _]. simpl in Hnf.
  destruct (load_next h FIRST _ ltac:(done) Hnf) as (f & -> & Ef & Lf). run. rewrite Ef.
  destruct l as [|e l]; [done|]. simpl hd.
  rewrite (proj2 (Z.eqb_neq e FIRST)) by (intros ->; apply (ok_first_notin _ _ OK); by left).
  destruct (load_ok h e (ok_allocated _ _ OK e ltac:(right; by left))) as (c & -> & Lc). run.
  simpl in Hex. unfold timeout_of at 1 in Hex. rewrite Lc in Hex. simpl in Hex.
  destruct (Z.leb_spec (timeout c) time); [done|]. by replace (timeout c >? time) with true by lia.
Qed.

(** [get_expired_dlgs] returns exactly the queued cells whose time has come, in
    order of expiry, and leaves the others queued. *)
Lemma get_expired_dlgs_spec h l time :
  timer_ok h l ->
  let ex := take_expired (timeout_of h) time l in
  exists h', get_expired_dlgs time h = Ret (hd NULL ex, h') /\
    timer_ok h' (drop_expired (timeout_of h) time l) /\ detached h' ex /\
    (forall p, timeout_of h' p = timeout_of h p) /\ frame h h' (FIRST :: l).
Proof.
  intros OK ex. set (l2 := drop_expired (timeout_of h) time l).
  assert (El : l = ex ++ l2) by apply take_drop_expired.
  destruct (decide (ex = [])) as [Hex|Hex].
  { exists h. rewrite Hex in *. simpl in El.
    split; [by apply (get_expired_dlgs_none h l)|]. split; [by rewrite <- El|].
    split; [done|]. split; [done|apply frame_refl]. }
  pose proof OK as OK2. rewrite El in OK2. exists (detach ex (hd FIRST l2) h).
  split; [|split; [by apply detach_ok|split; [by apply (detach_detached h ex l2)|
    split; [apply (detach_timeout h ex l2)|rewrite El; apply detach_frame]]]].
  unfold get_expired_dlgs.
  pose proof (chain_split h FIRST [] l FIRST (ok_chain _ _ OK)) as [Hnf _]. simpl in Hnf.
  destruct (load_next h FIRST _ ltac:(done) Hnf) as (f & -> & Ef & Lf). run. rewrite Ef.
  destruct l as [|e l]; [done|].
  assert (Ne : e <> FIRST) by (intros ->; apply (ok_first_notin _ _ OK); by left).
  change (hd FIRST (e :: l)) with e. rewrite (proj2 (Z.eqb_neq e FIRST) Ne).
  destruct (load_ok h e (ok_allocated _ _ OK e ltac:(right; by left))) as (c & -> & Lc). run.
  replace (timeout c >? time) with false.
  2: { subst ex. simpl in Hex. unfold timeout_of at 1 in Hex. rewrite Lc in Hex. simpl in Hex.
       destruct (Z.leb_spec (timeout c) time); [lia|done]. }
  cbv iota. change e with (hd FIRST (e :: l)) at 1.
  rewrite (expire_loop_spec (fuel h) h (e :: l) time);
    [|pose proof (ok_length _ _ OK); unfold fuel; lia|eapply chain_nchain, OK
     |apply (ok_first_notin _ _ OK)|intros x Hx; apply (ok_allocated _ _ OK); by right].
  run. by apply detach_run.
Qed.

(** ** The timer routine *)

(** The reference behaviour: each cell of the list is unlinked and handed to the
    handler, in order. *)
Fixpoint run_handlers (hdl : Z -> heap -> res heap) (l : list Z) (h : heap) : res heap :=
  match l with
  | [] => Ret h
  | x :: l' => h ← store_next x NULL h; h ← hdl x h; run_handlers hdl l' h
  end.

(** A handler that leaves the cells of [l] still to be handled alone. *)
Definition respects (hdl : Z -> heap -> res heap) (l : list Z) : Prop :=
  forall x h h', In x l -> hdl x h = Ret h' -> forall p, In p l -> p <> x -> h' !! p = h !! p.

Lemma detached_ext h h' l :
  (forall x, In x l -> h' !! x = h !! x) -> detached h l -> detached h' l.
Proof.
  induction l as [|x l IH]; simpl; [done|]. intros E (H1 & H2 & H3).
  unfold next_of, prev_of in *. rewrite E by auto. split; [done|]. split; [done|]. apply IH; auto.
Qed.

Lemma routine_loop_spec hdl n l h :
  (length l < n)%nat -> detached h l -> NoDup l -> ~ In NULL l -> respects hdl l ->
  routine_loop hdl n (hd NULL l) h = run_handlers hdl l h.
Proof.
  revert n h; induction l as [|x l IH]; intros n h Hn Hd Hnd Hz Hr.
  { destruct n; [simpl in Hn; lia|done]. }
  destruct n as [|n]; [simpl in Hn; lia|]. simpl in Hz. cbn [routine_loop hd run_handlers].
  rewrite (proj2 (Z.eqb_neq x NULL)) by tauto. destruct Hd as (Hx & _ & Hd).
  assert (Nx : x <> NULL) by tauto.
  destruct (load_next h x _ Nx Hx) as (c & -> & En & Lc). run. rewrite En.
  apply NoDup_cons in Hnd as [Hxl Hnd]. rewrite list_elem_of_In in Hxl.
  rewrite store_next_ok by (split; [done|]; by rewrite Lc). run.
  destruct (hdl x _) as [h'|e] eqn:Eh; [|done]. run.
  apply IH; [simpl in Hn; lia| |done|tauto|].
  - eapply detached_ext; [|done]. intros y Hy.
    assert (y <> x) by (intros ->; done).
    rewrite (Hr x _ _ ltac:(by left) Eh y ltac:(by right)) by done.
    by apply lookup_alter_ne.
  - intros y h1 h2 Hy E p Hp Hpy. apply (Hr y h1 h2); auto; by right.
Qed.

Lemma take_expired_sub tm time l x : In x (take_expired tm time l) -> In x l.
Proof. induction l as [|y l IH]; simpl; [done|]. destruct (_ <=? _); simpl; tauto. Qed.

Lemma take_expired_nodup tm time l : NoDup l -> NoDup (take_expired tm time l).
Proof.
  intros H. rewrite (take_drop_expired tm time l) in H. by apply NoDup_app in H as (? & _ & _).
Qed.

Lemma dlg_timer_routine_spec hdl h l ticks :
  timer_ok h l ->
  let ex := take_expired (timeout_of h) ticks l in
  respects hdl ex ->
  exists h', timer_ok h' (drop_expired (timeout_of h) ticks l) /\ detached h' ex /\
    dlg_timer_routine hdl ticks h = run_handlers hdl ex h'.
Proof.
  intros OK ex Hr. destruct (get_expired_dlgs_spec h l ticks OK) as (h' & E & OK' & D & _ & _).
  exists h'. split; [done|]. split; [done|]. unfold dlg_timer_routine. rewrite E. run.
  pose proof (ok_nodup _ _ OK) as Hnd. apply NoDup_cons in Hnd as [_ Hnd].
  apply routine_loop_spec; [|done|by apply take_expired_nodup| |done].
  - pose proof (ok_length _ _ OK).
    pose proof (f_equal length (take_drop_expired (timeout_of h) ticks l)) as El.
    rewrite length_app in El. fold ex in El. unfold fuel. lia.
  - intros Hz. apply take_expired_sub in Hz. by apply (ok_nonnull _ _ OK).
Qed.

Lemma init_dlg_timer_ok h : timer_ok (init_dlg_timer h) [].
Proof.
  constructor; [|repeat constructor|by intros []|constructor].
  - unfold init_dlg_timer, chain, linked, next_of, prev_of. by rewrite lookup_insert_eq.
  - by apply not_elem_of_nil.
Qed.

(** ** What the dialog table relies on *)

Lemma timer_ok_ext h h' l :
  timer_ok h l -> (forall x, In x (FIRST :: l) -> h' !! x = h !! x) -> timer_ok h' l.
Proof.
  intros OK E. constructor; [|apply OK|apply OK|].
  - eapply chain_ext; [..|apply OK]; intros x Hx; unfold next_of, prev_of; rewrite E; auto.
    apply in_app_iff in Hx as [Hx|[<-|[]]]; [by right|by left].
  - replace (map (timeout_of h') l) with (map (timeout_of h) l); [apply OK|].
    apply map_ext_in. intros a Ha. unfold timeout_of. by rewrite E by (by right).
Qed.

(** A timer cell is either queued or has no backward link; this is what makes
    [remove_dlg_timer] safe to call on any cell. *)
Definition tl_ok (h : heap) (l : list Z) (p : Z) : Prop := In p l \/ prev_of h p = Some NULL.

Lemma remove_dlg_timer_total h l p :
  timer_ok h l -> p <> NULL -> p <> FIRST -> tl_ok h l p ->
  exists rc h', remove_dlg_timer p h = Ret (rc, h') /\
    timer_ok h' (spec_remove p l) /\ dom h' = dom h /\
    (forall q, q <> p -> tl_ok h l q -> tl_ok h' (spec_remove p l) q).
Proof.
  intros OK N Nf [Hin|Hp].
  - destruct (remove_dlg_timer_queued h l p OK Hin) as (h' & E & OK' & _ & D & F).
    exists 0, h'. split; [done|]. split; [done|]. split; [done|].
    intros q Hq [Hq'|Hq']; [left; by apply spec_remove_in|]. right.
    assert (~ In q (FIRST :: l)) as Hn; [|unfold prev_of; by rewrite F].
    intros [<-|Hi]; [|by apply (not_queued h l q OK)].
    pose proof (ok_chain _ _ OK) as Hc. rewrite <- (app_nil_r l) in Hc.
    apply chain_split in Hc as [_ Hc]. simpl in Hc. rewrite Hc in Hq'. injection Hq' as Hq'.
    destruct (ok_allocated _ _ OK (List.last l FIRST)) as [A _]; [apply last_in|done].
  - exists (-1), h. split; [by apply remove_dlg_timer_unqueued|].
    assert (E : spec_remove p l = l).
    { apply spec_remove_notin. by apply (not_queued h). }
    rewrite E. split; [done|]. split; [done|]. auto.
Qed.

(** The same for insertion and refresh: on any cell that is queued, idle or waiting
    for its handler they return, keep the timer well-formed and queue no other cell. *)
Definition timer_step (h : heap) (l : list Z) (p : Z) (r : res (Z * heap)) : Prop :=
  exists rc h' l', r = Ret (rc, h') /\ timer_ok h' l' /\ dom h' = dom h /\
    (forall q, tl_ok h l q -> tl_ok h' l' q) /\ (forall q, In q l' -> In q l \/ q = p).

Lemma timer_step_stay h l p rc : timer_ok h l -> timer_step h l p (Ret (rc, h)).
Proof. intros OK. exists rc, h, l. repeat split; auto; apply OK. Qed.

Lemma timer_step_queue h l p h' tm k :
  timer_ok h l -> timer_ok h' (spec_insert tm p k) -> frame h h' (FIRST :: p :: l) ->
  (forall q, In q k -> In q l) -> (forall q, In q l -> q <> p -> In q k) ->
  timer_step h l p (Ret (0, h')).
Proof.
  intros OK OK' [D F] K1 K2. exists 0, h', (spec_insert tm p k).
  assert (Hin : forall q, In q (spec_insert tm p k) <-> q = p \/ In q k).
  { intros q. rewrite <- !list_elem_of_In. rewrite spec_insert_perm, elem_of_cons. tauto. }
  split; [done|]. split; [done|]. split; [done|]. split.
  - intros q [Hq|Hq]; [left; apply Hin; destruct (decide (q = p)); auto|].
    destruct (decide (q = p)) as [->|Hne]; [left; apply Hin; auto|]. right.
    unfold prev_of. rewrite F; [done|]. intros [<-|[?|Hi]]; [|done|by apply (not_queued h l q OK)].
    pose proof (ok_chain _ _ OK) as Hc. rewrite <- (app_nil_r l) in Hc.
    apply chain_split in Hc as [_ Hc]. simpl in Hc. rewrite Hc in Hq. injection Hq as Hq.
    destruct (ok_allocated _ _ OK (List.last l FIRST)) as [A _]; [apply last_in|done].
  - intros q Hq. apply Hin in Hq as [->|Hq]; auto.
Qed.

Lemma unqueued_cases h p : prev_of h p = Some NULL -> idle h p \/ pending h p.
Proof.
  intros Hp. unfold idle, pending, next_of, prev_of in *.
  destruct (h !! p) as [c|]; [|done]. simpl in *.
  destruct (decide (next c = NULL)) as [->|Hn]; [by left|right]. split; [done|]. by exists (next c).
Qed.

Lemma insert_dlg_timer_total h l p ticks v :
  timer_ok h l -> p <> NULL -> p <> FIRST -> is_Some (h !! p) -> tl_ok h l p ->
  timer_step h l p (insert_dlg_timer ticks p v h).
Proof.
  intros OK N Nf A [Hin|Hp].
  - rewrite insert_dlg_timer_busy; [by apply timer_step_stay|done|done|].
    intros [_ Hi]. by apply (not_queued h l p).
  - destruct (unqueued_cases h p Hp) as [Hi|(_ & n & Hn & Nn)].
    + destruct (insert_dlg_timer_idle h l p ticks v OK Nf N Hi) as (h' & -> & OK' & _ & Fr).
      by eapply timer_step_queue.
    + rewrite insert_dlg_timer_busy; [by apply timer_step_stay|done|done|].
      intros [Hi _]. congruence.
Qed.

Lemma update_dlg_timer_total h l p ticks v :
  timer_ok h l -> p <> NULL -> p <> FIRST -> is_Some (h !! p) -> tl_ok h l p ->
  timer_step h l p (update_dlg_timer ticks p v h).
Proof.
  intros OK N Nf A [Hin|Hp].
  - destruct (update_dlg_timer_queued h l p ticks v OK Hin) as (h' & -> & OK' & _ & Fr).
    eapply timer_step_queue; [done|done| |..].
    + eapply frame_weaken; [|done]. simpl. tauto.
    + intros q Hq. by apply spec_remove_in in Hq as [? _].
    + intros q Hq Hne. by apply spec_remove_in.
  - destruct (unqueued_cases h p Hp) as [Hi|Hi].
    + destruct (update_dlg_timer_idle h l p ticks v OK Nf N Hi) as (h' & -> & OK' & _ & Fr).
      by eapply timer_step_queue.
    + rewrite update_dlg_timer_pending by done. by apply timer_step_stay.
Qed.

Lemma remove_dlg_timer_step h l p :
  timer_ok h l -> p <> NULL -> p <> FIRST -> tl_ok h l p ->
  timer_step h l p (remove_dlg_timer p h).
Proof.
  intros OK N Nf [Hin|Hp].
  - destruct (remove_dlg_timer_queued h l p OK Hin) as (h' & E & OK' & Hi & D & F).
    exists 0, h', (spec_remove p l). split; [done|]. split; [done|]. split; [done|]. split.
    + intros q Hq. destruct (decide (q = p)) as [->|Hne]; [right; apply Hi|].
      destruct (remove_dlg_timer_total h l p OK N Nf (or_introl Hin)) as (rc & h2 & E2 & _ & _ & Q).
      rewrite E in E2. injection E2 as _ <-. by apply Q.
    + intros q Hq. apply spec_remove_in in Hq as [? _]. by left.
  - rewrite remove_dlg_timer_unqueued by done. by apply timer_step_stay.
Qed.

(** ** Main results *)

(** Inserting a cell that is not queued succeeds and refines the abstract
    insertion: the cells stay linked both ways and in order of expiry, the new one after
    all that expire no later, and no other memory changes.  A cell with a link set is
    refused and nothing changes. *)
Theorem insert_refines h l tl ticks interval :
  timer_ok h l -> tl <> FIRST -> tl <> NULL -> is_Some (h !! tl) ->
  let tm := set_time (timeout_of h) tl (u32 (ticks + interval)) in
  (idle h tl -> exists h', insert_dlg_timer ticks tl interval h = Ret (0, h') /\
     timer_ok h' (spec_insert tm tl l) /\ (forall p, timeout_of h' p = tm p) /\
     frame h h' (FIRST :: tl :: l)) /\
  (~ idle h tl -> insert_dlg_timer ticks tl interval h = Ret (-1, h)).
Proof.
  intros OK Nf N A tm. split; [by apply insert_dlg_timer_idle|by apply insert_dlg_timer_busy].
Qed.

(** Two queued cells and an idle one. *)
Definition sample_heap : heap :=
  list_to_map [(1, Tl 10 20 0); (10, Tl 20 1 5); (20, Tl 1 10 9); (30, Tl 0 0 0)].

Lemma sample_ok : timer_ok sample_heap [10; 20].
Proof.
  constructor.
  - simpl. by repeat split; vm_compute.
  - apply (bool_decide_unpack _). by vm_compute.
  - vm_compute. intuition congruence.
  - vm_compute. repeat constructor; vm_compute; congruence.
Qed.

Lemma insert_refines_witness :
  exists h', insert_dlg_timer 4 30 3 sample_heap = Ret (0, h') /\ timer_ok h' [10; 30; 20].
Proof.
  destruct (insert_refines sample_heap [10; 20] 30 4 3) as [I _];
    [apply sample_ok|vm_compute; congruence|vm_compute; congruence|by eexists|].
  destruct I as (h' & E & OK & _); [by split; vm_compute|]. exists h'. split; [exact E|exact OK].
Defined.

(** Removing a queued cell succeeds, leaves it with both links cleared and the
    other cells linked in the same order; a cell that is not queued is refused and
    nothing changes. *)
Theorem remove_refines h l tl :
  timer_ok h l -> tl <> NULL ->
  (In tl l -> exists h', remove_dlg_timer tl h = Ret (0, h') /\
     timer_ok h' (spec_remove tl l) /\ idle h' tl /\ frame h h' (FIRST :: l)) /\
  (prev_of h tl = Some NULL -> remove_dlg_timer tl h = Ret (-1, h)).
Proof. intros OK N. split; [by apply remove_dlg_timer_queued|by apply remove_dlg_timer_unqueued]. Qed.

Lemma remove_refines_witness :
  exists h', remove_dlg_timer 10 sample_heap = Ret (0, h') /\ timer_ok h' [20].
Proof.
  destruct (remove_refines sample_heap [10; 20] 10) as [R _]; [apply sample_ok|vm_compute; congruence|].
  destruct R as (h' & E & OK & _); [by left|]. exists h'. split; [exact E|exact OK].
Defined.

(** The timer routine takes exactly the cells whose time has come off the queue
    and calls the handler once for each, in order of expiry, provided the handler
    leaves the cells still to be handled alone. *)
Theorem routine_handles_expired hdl h l ticks :
  timer_ok h l ->
  let ex := take_expired (timeout_of h) ticks l in
  respects hdl ex ->
  exists h', timer_ok h' (drop_expired (timeout_of h) ticks l) /\ detached h' ex /\
    dlg_timer_routine hdl ticks h = run_handlers hdl ex h'.
Proof. apply dlg_timer_routine_spec. Qed.

Lemma routine_handles_expired_witness :
  exists h', timer_ok h' [20] /\ dlg_timer_routine (fun _ h => Ret h) 7 sample_heap =
    run_handlers (fun _ h => Ret h) [10] h'.
Proof.
  destruct (routine_handles_expired (fun _ h => Ret h) sample_heap [10; 20] 7) as (h' & OK & _ & E).
  - apply sample_ok.
  - by intros x h h' _ [= <-].
  - exists h'. split; [exact OK|exact E].
Defined.

End DlgTimer.
