(* ===== verification/DlgHash.v ===== *)
(** * The dialog table: [src/modules/dialog/dlg_hash.c], [dlg_hash.h]

    Dialog cells live in shared memory ([cells], by address); an entry of the hash
    table keeps the cells hashed to it in the order of the [first .. last] chain.
    The [tl] member of a cell is its timer cell: it is kept in [tls], the heap of
    the timer component, under the address of the dialog ([&dlg->tl] and
    [get_dlg_tl_payload] are inverse offsets).  A lock is held around each
    operation, so an operation is one state transformer.  Reading a cell that was
    freed is a fault. *)

From Stdlib Require Import ZArith Lia List String Ascii Bool.
From stdpp Require Import base tactics option list gmap sets.
From S2P Require Import Prelude HashFunc DlgTimer.

Module DlgHash.
Import HashFunc.

(** ** Data *)

Definition DLG_STATE_UNCONFIRMED : Z := 1.
Definition DLG_STATE_EARLY : Z := 2.
Definition DLG_STATE_CONFIRMED_NA : Z := 3.
Definition DLG_STATE_CONFIRMED : Z := 4.
Definition DLG_STATE_DELETED : Z := 5.

Inductive dlg_event : Set :=
| DLG_EVENT_TDEL | DLG_EVENT_RPL1xx | DLG_EVENT_RPL2xx | DLG_EVENT_RPL3xx
| DLG_EVENT_REQPRACK | DLG_EVENT_REQACK | DLG_EVENT_REQBYE | DLG_EVENT_REQ.

#[export] Instance dlg_event_eq_dec : EqDecision dlg_event.
Proof. solve_decision. Defined.

Definition DLG_FLAG_NEW : Z := 1.
Definition DLG_FLAG_CHANGED : Z := 2.
Definition DLG_FLAG_HASBYE : Z := 4.

Inductive leg : Set := DLG_CALLER_LEG | DLG_CALLEE_LEG.

Inductive dir : Set := DLG_DIR_NONE | DLG_DIR_DOWNSTREAM | DLG_DIR_UPSTREAM.

(** The two-element arrays of a cell, indexed by leg. *)
Record legs (A : Type) : Type := Legs { caller : A; callee : A }.
Arguments Legs {A} _ _.
Arguments caller {A} _.
Arguments callee {A} _.

Definition leg_get {A} (a : legs A) (l : leg) : A :=
  match l with DLG_CALLER_LEG => caller a | DLG_CALLEE_LEG => callee a end.
Definition leg_set {A} (a : legs A) (l : leg) (v : A) : legs A :=
  match l with
  | DLG_CALLER_LEG => Legs v (callee a)
  | DLG_CALLEE_LEG => Legs (caller a) v
  end.

(** The [cseq] strings are the only ones overwritten in place: the allocated
    buffer ([None] for a null pointer) and the [len] field. *)
Record cstr : Type := CStr { buf : option bytes; len : Z }.

Record dlg_cell : Type := Cell {
  ref : Z;
  h_id : Z;
  h_entry : Z;
  state : Z;
  lifetime : Z;
  start_ts : Z;
  flags : Z;
  from_rr_nb : Z;
  callid : bytes;
  from_uri : bytes;
  to_uri : bytes;
  tag : legs bytes;
  cseq : legs cstr;
  route_set : legs bytes;
  contact : legs bytes;
  bind_addr : legs Z;
  dangling : legs (bool * bool)   (** [tag[leg].s] and [cseq[leg].s] point to freed memory *)
}.

Record dlg_entry : Type := Entry { dlgs : list Z; next_id : Z }.

Record dlg_st : Type := St {
  cells : gmap Z dlg_cell;
  tls : gmap Z DlgTimer.dlg_tl;
  entries : list dlg_entry
}.

(** Field updates. *)
Definition set_ref (v : Z) (c : dlg_cell) : dlg_cell :=
  Cell v (h_id c) (h_entry c) (state c) (lifetime c) (start_ts c) (flags c) (from_rr_nb c)
    (callid c) (from_uri c) (to_uri c) (tag c) (cseq c) (route_set c) (contact c) (bind_addr c) (dangling c).
Definition set_h_id (v : Z) (c : dlg_cell) : dlg_cell :=
  Cell (ref c) v (h_entry c) (state c) (lifetime c) (start_ts c) (flags c) (from_rr_nb c)
    (callid c) (from_uri c) (to_uri c) (tag c) (cseq c) (route_set c) (contact c) (bind_addr c) (dangling c).
Definition set_state (v : Z) (c : dlg_cell) : dlg_cell :=
  Cell (ref c) (h_id c) (h_entry c) v (lifetime c) (start_ts c) (flags c) (from_rr_nb c)
    (callid c) (from_uri c) (to_uri c) (tag c) (cseq c) (route_set c) (contact c) (bind_addr c) (dangling c).
Definition set_lifetime (v : Z) (c : dlg_cell) : dlg_cell :=
  Cell (ref c) (h_id c) (h_entry c) (state c) v (start_ts c) (flags c) (from_rr_nb c)
    (callid c) (from_uri c) (to_uri c) (tag c) (cseq c) (route_set c) (contact c) (bind_addr c) (dangling c).
Definition set_start_ts (v : Z) (c : dlg_cell) : dlg_cell :=
  Cell (ref c) (h_id c) (h_entry c) (state c) (lifetime c) v (flags c) (from_rr_nb c)
    (callid c) (from_uri c) (to_uri c) (tag c) (cseq c) (route_set c) (contact c) (bind_addr c) (dangling c).
Definition set_flags (v : Z) (c : dlg_cell) : dlg_cell :=
  Cell (ref c) (h_id c) (h_entry c) (state c) (lifetime c) (start_ts c) v (from_rr_nb c)
    (callid c) (from_uri c) (to_uri c) (tag c) (cseq c) (route_set c) (contact c) (bind_addr c) (dangling c).
Definition set_from_rr_nb (v : Z) (c : dlg_cell) : dlg_cell :=
  Cell (ref c) (h_id c) (h_entry c) (state c) (lifetime c) (start_ts c) (flags c) v
    (callid c) (from_uri c) (to_uri c) (tag c) (cseq c) (route_set c) (contact c) (bind_addr c) (dangling c).
Definition set_cseq (v : legs cstr) (c : dlg_cell) : dlg_cell :=
  Cell (ref c) (h_id c) (h_entry c) (state c) (lifetime c) (start_ts c) (flags c) (from_rr_nb c)
    (callid c) (from_uri c) (to_uri c) (tag c) v (route_set c) (contact c) (bind_addr c) (dangling c).
Definition set_bind_addr (v : legs Z) (c : dlg_cell) : dlg_cell :=
  Cell (ref c) (h_id c) (h_entry c) (state c) (lifetime c) (start_ts c) (flags c) (from_rr_nb c)
    (callid c) (from_uri c) (to_uri c) (tag c) (cseq c) (route_set c) (contact c) v (dangling c).

(** ** Operations *)

Definition get_cell (p : Z) (st : dlg_st) : res dlg_cell :=
  if p =? 0 then Fault NullDeref
  else match cells st !! p with Some c => Ret c | None => Fault UseAfterFree end.

Definition upd_cell (f : dlg_cell -> dlg_cell) (p : Z) (st : dlg_st) : res dlg_st :=
  _ ← get_cell p st; Ret (St (alter f p (cells st)) (tls st) (entries st)).

Definition set_tls (h : gmap Z DlgTimer.dlg_tl) (st : dlg_st) : dlg_st :=
  St (cells st) h (entries st).

Definition get_entry (i : Z) (st : dlg_st) : res dlg_entry :=
  match entries st !! Z.to_nat i with Some e => Ret e | None => Fault OutOfBounds end.

Definition set_entry (i : Z) (e : dlg_entry) (st : dlg_st) : dlg_st :=
  St (cells st) (tls st) (<[Z.to_nat i := e]> (entries st)).

Definition size (st : dlg_st) : Z := Z.of_nat (length (entries st)).

(** [init_dlg_table] with its locks allocated; [ids] are the values of [rand()]. *)
Definition init_dlg_table (ids : list Z) : list dlg_entry := map (Entry []) ids.

(** [strncmp(a, b, n) == 0] for strings of the same length [n]: equal up to and
    including the first NUL. *)
Fixpoint strncmp_eq (a b : bytes) : bool :=
  match a, b with
  | x :: a', y :: b' => (x =? y) && ((x =? 0) || strncmp_eq a' b')
  | _, _ => true
  end.

Definition same_len (a b : bytes) : bool := Nat.eqb (length a) (length b).

(** Result and the new [*dir]. *)
Definition match_dialog (dlg : dlg_cell) (clid ftag ttag : bytes) (d : dir) : bool * dir :=
  let t0 := caller (tag dlg) in
  let t1 := callee (tag dlg) in
  match d with
  | DLG_DIR_DOWNSTREAM =>
      if negb (same_len (callid dlg) clid) || negb (same_len t0 ftag) || negb (same_len t1 ttag)
         || negb (strncmp_eq (callid dlg) clid) || negb (strncmp_eq t0 ftag)
         || negb (strncmp_eq t1 ttag)
      then (false, d) else (true, d)
  | DLG_DIR_UPSTREAM =>
      if negb (same_len (callid dlg) clid) || negb (same_len t1 ftag) || negb (same_len t0 ttag)
         || negb (strncmp_eq (callid dlg) clid) || negb (strncmp_eq t1 ftag)
         || negb (strncmp_eq t0 ttag)
      then (false, d) else (true, d)
  | DLG_DIR_NONE =>
      if negb (same_len (callid dlg) clid) then (false, d)
      else if same_len t1 ftag && same_len t0 ttag then
        if negb (strncmp_eq (callid dlg) clid) then (false, d)
        else if same_len ftag ttag then
          if strncmp_eq t1 ftag && strncmp_eq t0 ttag then (true, DLG_DIR_UPSTREAM)
          else if strncmp_eq t0 ftag && strncmp_eq t1 ttag then (true, DLG_DIR_DOWNSTREAM)
          else (false, d)
        else
          if negb (strncmp_eq t1 ftag) || negb (strncmp_eq t0 ttag) then (false, d)
          else (true, DLG_DIR_UPSTREAM)
      else if same_len t0 ftag && same_len t1 ttag then
        if negb (strncmp_eq (callid dlg) clid) || negb (strncmp_eq t0 ftag)
           || negb (strncmp_eq t1 ttag)
        then (false, d)
        else (true, DLG_DIR_DOWNSTREAM)
      else (false, d)
  end.

(** The first argument is the address [shm_malloc] returned, [None] when out of
    memory. *)
Definition build_new_dlg (a : option Z) (clid furi turi ftag : bytes) (st : dlg_st)
  : option Z * dlg_st :=
  match a with
  | None => (None, st)
  | Some p =>
      let c := {| ref := 0; h_id := 0;
                  h_entry := core_hash clid (match ftag with [] => None | _ => Some ftag end) (size st);
                  state := DLG_STATE_UNCONFIRMED;
                  lifetime := 0; start_ts := 0; flags := 0; from_rr_nb := 0;
                  callid := clid; from_uri := furi; to_uri := turi;
                  tag := Legs [] []; cseq := Legs (CStr None 0) (CStr None 0);
                  route_set := Legs [] []; contact := Legs [] []; bind_addr := Legs 0 0;
                  dangling := Legs (false, false) (false, false) |} in
      (Some p, St (<[p := c]> (cells st)) (<[p := DlgTimer.Tl 0 0 0]> (tls st)) (entries st))
  end.

(** [mem] tells which of the two allocations succeed.  When one fails, the other is freed
    and its pointer stays in the cell, with the length the text had before.  (A leg is set
    once, so that this length is 0 and nothing is read through the pointer; it is freed a
    second time with the cell, or by [dlg_update_cseq].) *)
Definition dlg_set_leg_info (mem : bool * bool) (p : Z) (tg rr ct cs : bytes) (l : leg) (st : dlg_st)
  : res (Z * dlg_st) :=
  if mem.1 && mem.2 then
    st ← upd_cell (fun c =>
      Cell (ref c) (h_id c) (h_entry c) (state c) (lifetime c) (start_ts c) (flags c)
        (from_rr_nb c) (callid c) (from_uri c) (to_uri c)
        (leg_set (tag c) l tg)
        (leg_set (cseq c) l (CStr (Some cs) (Z.of_nat (length cs))))
        (match rr with [] => route_set c | _ => leg_set (route_set c) l rr end)
        (leg_set (contact c) l ct) (bind_addr c) (leg_set (dangling c) l (false, false))) p st;
    Ret (0, st)
  else
    st ← upd_cell (fun c =>
      Cell (ref c) (h_id c) (h_entry c) (state c) (lifetime c) (start_ts c) (flags c)
        (from_rr_nb c) (callid c) (from_uri c) (to_uri c) (tag c)
        (leg_set (cseq c) l (CStr (if mem.2 then Some [] else None) (len (leg_get (cseq c) l))))
        (route_set c) (contact c) (bind_addr c) (leg_set (dangling c) l mem)) p st;
    Ret (-1, st).

(** [memcpy] into an allocated buffer. *)
Definition buf_write (b v : bytes) : bytes := v ++ drop (length v) b.

(** Freeing or writing memory that was freed is a fault. *)
Definition dlg_update_cseq (mem : bool) (p : Z) (l : leg) (v : bytes) (st : dlg_st)
  : res (Z * dlg_st) :=
  c ← get_cell p st;
  let cur := leg_get (cseq c) l in
  let n := Z.of_nat (length v) in
  let fresh := if mem then Some (replicate (length v) 0) else None in
  let freed := (leg_get (dangling c) l).2 in
  b ← match buf cur with
      | Some b =>
          if len cur <? n then if freed then Fault UseAfterFree else Ret fresh
          else if freed && (0 <? n) then Fault UseAfterFree else Ret (Some b)
      | None => Ret fresh
      end;
  match b with
  | Some b =>
      st ← upd_cell (fun c => set_cseq (leg_set (cseq c) l (CStr (Some (buf_write b v)) n)) c) p st;
      Ret (0, st)
  | None =>
      st ← upd_cell (fun c => set_cseq (leg_set (cseq c) l (CStr None (len cur))) c) p st;
      Ret (-1, st)
  end.

(** The scan of [lookup_dlg]: the first cell with the id decides. *)
Fixpoint lookup_scan (ps : list Z) (id : Z) (st : dlg_st) : res (option Z) :=
  match ps with
  | [] => Ret None
  | p :: ps' =>
      c ← get_cell p st;
      if h_id c =? id then
        if state c =? DLG_STATE_DELETED then Ret None else Ret (Some p)
      else lookup_scan ps' id st
  end.

Definition ref_dlg_unsafe (p cnt : Z) (st : dlg_st) : res dlg_st :=
  upd_cell (fun c => set_ref (s32 (ref c + cnt)) c) p st.

Definition lookup_dlg (entry id : Z) (st : dlg_st) : res (option Z * dlg_st) :=
  if entry >=? size st then Ret (None, st)
  else
    e ← get_entry entry st;
    r ← lookup_scan (dlgs e) id st;
    match r with
    | Some p => st ← ref_dlg_unsafe p 1 st; Ret (Some p, st)
    | None => Ret (None, st)
    end.

(** The scan of [internal_get_dlg]; [*dir] is threaded through. *)
Fixpoint match_scan (ps : list Z) (clid ftag ttag : bytes) (d : dir) (st : dlg_st)
  : res (option Z * dir) :=
  match ps with
  | [] => Ret (None, d)
  | p :: ps' =>
      c ← get_cell p st;
      let '(m, d) := match_dialog c clid ftag ttag d in
      if m then
        if state c =? DLG_STATE_DELETED then Ret (None, d) else Ret (Some p, d)
      else match_scan ps' clid ftag ttag d st
  end.

Definition internal_get_dlg (entry : Z) (clid ftag ttag : bytes) (d : dir) (st : dlg_st)
  : res (option Z * dir * dlg_st) :=
  e ← get_entry entry st;
  '(r, d) ← match_scan (dlgs e) clid ftag ttag d st;
  match r with
  | Some p => st ← ref_dlg_unsafe p 1 st; Ret (Some p, d, st)
  | None => Ret (None, d, st)
  end.

Definition opt_tag (t : bytes) : option bytes := match t with [] => None | _ => Some t end.

Definition get_dlg (clid ftag ttag : bytes) (d : dir) (st : dlg_st)
  : res (option Z * dir * dlg_st) :=
  '(r, d, st) ← internal_get_dlg (core_hash clid (opt_tag ftag) (size st)) clid ftag ttag d st;
  match r with
  | Some p => Ret (Some p, d, st)
  | None => internal_get_dlg (core_hash clid (opt_tag ttag) (size st)) clid ftag ttag d st
  end.

Definition link_dlg (p n : Z) (st : dlg_st) : res dlg_st :=
  c ← get_cell p st;
  e ← get_entry (h_entry c) st;
  st ← upd_cell (set_h_id (next_id e)) p st;
  let st := set_entry (h_entry c) (Entry (dlgs e ++ [p]) (u32 (next_id e + 1))) st in
  ref_dlg_unsafe p (1 + n) st.

(** The chain without the cell. *)
Definition unlink_unsafe_dlg (i p : Z) (st : dlg_st) : res dlg_st :=
  e ← get_entry i st;
  Ret (set_entry i (Entry (filter (fun q => q <> p) (dlgs e)) (next_id e)) st).

(** No pointer of a leg dangles. *)
Definition intact (c : dlg_cell) : bool :=
  let ok d := negb (fst d || snd d) in ok (caller (dangling c)) && ok (callee (dangling c)).

(** Takes the cell off the timer, frees the texts of its legs and the cell itself. *)
Definition destroy_dlg (p : Z) (st : dlg_st) : res dlg_st :=
  c ← get_cell p st;
  '(_, h) ← DlgTimer.remove_dlg_timer p (tls st);
  if negb (intact c) then Fault UseAfterFree
  else Ret (St (delete p (cells st)) (delete p h) (entries st)).

Definition unref_dlg_unsafe (p cnt i : Z) (st : dlg_st) : res dlg_st :=
  st ← upd_cell (fun c => set_ref (s32 (ref c - cnt)) c) p st;
  c ← get_cell p st;
  if ref c <=? 0 then
    st ← unlink_unsafe_dlg i p st;
    destroy_dlg p st
  else Ret st.

Definition unref_dlg (p cnt : Z) (st : dlg_st) : res dlg_st :=
  c ← get_cell p st;
  unref_dlg_unsafe p cnt (h_entry c) st.

(** The switch of [next_state_dlg] on the event and the state [old = dlg->state];
    [unref0] is the content of [*unref] on entry, the first result its new content. *)
Definition dlg_transition (p : Z) (c : dlg_cell) (event : dlg_event) (unref0 : Z) (st : dlg_st)
  : res (Z * dlg_st) :=
  let i := h_entry c in
  let in_st s := state c =? s in
  match event with
  | DLG_EVENT_TDEL =>
      if in_st DLG_STATE_UNCONFIRMED || in_st DLG_STATE_EARLY then
        st ← upd_cell (set_state DLG_STATE_DELETED) p st;
        st ← unref_dlg_unsafe p 1 i st;
        Ret (1, st)
      else if in_st DLG_STATE_CONFIRMED_NA || in_st DLG_STATE_CONFIRMED
              || in_st DLG_STATE_DELETED then
        st ← unref_dlg_unsafe p 1 i st;
        Ret (unref0, st)
      else Ret (unref0, st)
  | DLG_EVENT_RPL1xx =>
      if in_st DLG_STATE_UNCONFIRMED || in_st DLG_STATE_EARLY then
        st ← upd_cell (set_state DLG_STATE_EARLY) p st; Ret (unref0, st)
      else Ret (unref0, st)
  | DLG_EVENT_RPL3xx =>
      if in_st DLG_STATE_UNCONFIRMED || in_st DLG_STATE_EARLY then
        st ← upd_cell (set_state DLG_STATE_DELETED) p st; Ret (1, st)
      else Ret (unref0, st)
  | DLG_EVENT_RPL2xx =>
      if in_st DLG_STATE_DELETED then
        if negb (Z.land (flags c) DLG_FLAG_HASBYE =? 0) then Ret (unref0, st)
        else
          st ← ref_dlg_unsafe p 1 st;
          st ← upd_cell (set_state DLG_STATE_CONFIRMED_NA) p st; Ret (unref0, st)
      else if in_st DLG_STATE_UNCONFIRMED || in_st DLG_STATE_EARLY then
        st ← upd_cell (set_state DLG_STATE_CONFIRMED_NA) p st; Ret (unref0, st)
      else Ret (unref0, st)
  | DLG_EVENT_REQACK =>
      if in_st DLG_STATE_CONFIRMED_NA then
        st ← upd_cell (set_state DLG_STATE_CONFIRMED) p st; Ret (unref0, st)
      else Ret (unref0, st)
  | DLG_EVENT_REQBYE =>
      if in_st DLG_STATE_CONFIRMED_NA || in_st DLG_STATE_CONFIRMED then
        st ← upd_cell (fun c => set_flags (Z.lor (flags c) DLG_FLAG_HASBYE) c) p st;
        st ← upd_cell (set_state DLG_STATE_DELETED) p st; Ret (1, st)
      else Ret (unref0, st)
  | DLG_EVENT_REQPRACK | DLG_EVENT_REQ => Ret (unref0, st)
  end.

(** Returns [*old_state], [*new_state] and [*unref]; the new state is read from the
    cell after the switch. *)
Definition next_state_dlg (p : Z) (event : dlg_event) (unref0 : Z) (st : dlg_st)
  : res (Z * Z * Z * dlg_st) :=
  c ← get_cell p st;
  let old := state c in
  '(unref, st) ← dlg_transition p c event unref0 st;
  c ← get_cell p st;
  Ret (old, state c, unref, st).

(** ** The table invariant *)

Record tab_ok (st : dlg_st) (l : list Z) : Prop := {
  tab_timer : DlgTimer.timer_ok (tls st) l;
  tab_cell : forall p c, cells st !! p = Some c ->
    p <> 0 /\ p <> DlgTimer.FIRST /\ is_Some (tls st !! p) /\
    DlgTimer.tl_ok (tls st) l p /\ 0 <= h_entry c < size st;
  tab_queued : forall p, In p l -> is_Some (cells st !! p);
  tab_linked : forall i e p, entries st !! i = Some e -> In p (dlgs e) ->
    exists c, cells st !! p = Some c /\ h_entry c = Z.of_nat i
}.

Lemma get_cell_ok st l p c :
  tab_ok st l -> cells st !! p = Some c -> get_cell p st = Ret c.
Proof.
  intros OK Hc. unfold get_cell. destruct (tab_cell _ _ OK p c Hc) as (N & _).
  by rewrite (proj2 (Z.eqb_neq p 0)), Hc.
Qed.

Lemma get_entry_ok st l p c :
  tab_ok st l -> cells st !! p = Some c ->
  exists e, get_entry (h_entry c) st = Ret e /\ entries st !! Z.to_nat (h_entry c) = Some e.
Proof.
  intros OK Hc. destruct (tab_cell _ _ OK p c Hc) as (_ & _ & _ & _ & R). unfold get_entry, size in *.
  destruct (lookup_lt_is_Some_2 (entries st) (Z.to_nat (h_entry c))) as [e E]; [lia|].
  exists e. by rewrite E.
Qed.

(** The state after a field update of one cell. *)
Definition upd (f : dlg_cell -> dlg_cell) (p : Z) (st : dlg_st) : dlg_st :=
  St (alter f p (cells st)) (tls st) (entries st).

Lemma upd_cell_ok st l f p c :
  tab_ok st l -> cells st !! p = Some c -> upd_cell f p st = Ret (upd f p st).
Proof. intros OK Hc. unfold upd_cell. by rewrite (get_cell_ok st l p c). Qed.

Lemma upd_lookup f p st c : cells st !! p = Some c -> cells (upd f p st) !! p = Some (f c).
Proof. intros H. simpl. by rewrite lookup_alter_eq, H. Qed.

Lemma upd_lookup_ne f p q st : p <> q -> cells (upd f p st) !! q = cells st !! q.
Proof. intros H. simpl. by rewrite lookup_alter_ne. Qed.

Lemma upd_ok st l f p :
  tab_ok st l -> (forall c, h_entry (f c) = h_entry c) -> tab_ok (upd f p st) l.
Proof.
  intros OK Hf. constructor; [apply OK|..].
  - intros q c. simpl. rewrite lookup_alter. case_decide; subst; [|apply (tab_cell _ _ OK)].
    destruct (cells st !! q) eqn:E; simpl; [|done]. intros [= <-]. rewrite Hf.
    by apply (tab_cell _ _ OK).
  - intros q Hq. simpl. rewrite lookup_alter. case_decide; subst; [|by apply (tab_queued _ _ OK)].
    rewrite fmap_is_Some. by apply (tab_queued _ _ OK).
  - intros i e q He Hq. destruct (tab_linked _ _ OK i e q He Hq) as (c & Hc & Hh).
    simpl. rewrite lookup_alter. case_decide; subst; [|by exists c].
    rewrite Hc. simpl. exists (f c). by rewrite Hf.
Qed.

(** Freeing a cell that is on the table. *)
Lemma destroy_ok st l p c :
  tab_ok st l -> cells st !! p = Some c -> intact c = true ->
  exists st', (st ← unlink_unsafe_dlg (h_entry c) p st; destroy_dlg p st) = Ret st' /\
    cells st' = delete p (cells st) /\ size st' = size st /\
    tab_ok st' (DlgTimer.spec_remove p l).
Proof.
  intros OK Hc Hin. destruct (tab_cell _ _ OK p c Hc) as (N & Nf & _ & T & R).
  destruct (get_entry_ok st l p c OK Hc) as (e & Ee & Le).
  unfold unlink_unsafe_dlg. rewrite Ee. run. unfold destroy_dlg.
  unfold get_cell, set_entry. simpl cells. simpl tls. rewrite (proj2 (Z.eqb_neq p 0) N), Hc. run.
  destruct (DlgTimer.remove_dlg_timer_total (tls st) l p (tab_timer _ _ OK) N Nf T)
    as (rc & h' & -> & T' & D & Q). run. rewrite Hin. cbn [negb].
  eexists. split; [done|]. split; [done|]. split; [unfold size; simpl; by rewrite length_insert|].
  assert (Nin : forall q, In q (DlgTimer.FIRST :: DlgTimer.spec_remove p l) -> q <> p).
  { intros q [<-|Hq]; [done|]. by apply DlgTimer.spec_remove_in in Hq as [_ ?]. }
  constructor; simpl.
  - eapply DlgTimer.timer_ok_ext; [done|]. intros x Hx. rewrite lookup_delete_ne; [done|].
    intros <-. by apply (Nin p Hx).
  - intros q d Hq. apply lookup_delete_Some in Hq as [Hne Hq].
    destruct (tab_cell _ _ OK q d Hq) as (? & ? & ? & Tq & ?).
    split; [done|]. split; [done|]. split.
    { rewrite lookup_delete_ne by done. apply elem_of_dom. rewrite D. by apply elem_of_dom. }
    split; [|unfold size; simpl; by rewrite length_insert].
    destruct (Q q ltac:(done) Tq) as [?|Hp]; [by left|right].
    unfold DlgTimer.prev_of. by rewrite lookup_delete_ne by done.
  - intros q Hq. rewrite lookup_delete_ne by (intros <-; by apply (Nin p); [right|]).
    apply DlgTimer.spec_remove_in in Hq as [Hq _]. by apply (tab_queued _ _ OK).
  - intros i e' q He Hq.
    destruct (decide (Z.to_nat (h_entry c) = i)) as [<-|Hi].
    + rewrite list_lookup_insert_eq in He by (by eapply lookup_lt_Some). injection He as <-.
      simpl in Hq. rewrite <- list_elem_of_In, list_elem_of_filter, list_elem_of_In in Hq.
      destruct Hq as [Hne Hq]. destruct (tab_linked _ _ OK _ _ _ Le Hq) as (d & Hd & Hh).
      exists d. by rewrite lookup_delete_ne by done.
    + rewrite list_lookup_insert_ne in He by done.
      destruct (tab_linked _ _ OK _ _ _ He Hq) as (d & Hd & Hh).
      assert (q <> p) by (intros ->; rewrite Hc in Hd; injection Hd as <-; lia).
      exists d. by rewrite lookup_delete_ne by done.
Qed.

(** A cell with a dangling pointer cannot be freed. *)
Lemma destroy_dangling st l p c :
  tab_ok st l -> cells st !! p = Some c -> intact c = false ->
  (st ← unlink_unsafe_dlg (h_entry c) p st; destroy_dlg p st) = Fault UseAfterFree.
Proof.
  intros OK Hc Hin. destruct (tab_cell _ _ OK p c Hc) as (N & Nf & _ & T & R).
  destruct (get_entry_ok st l p c OK Hc) as (e & Ee & Le).
  unfold unlink_unsafe_dlg. rewrite Ee. run. unfold destroy_dlg.
  unfold get_cell, set_entry. simpl cells. simpl tls. rewrite (proj2 (Z.eqb_neq p 0) N), Hc. run.
  destruct (DlgTimer.remove_dlg_timer_total (tls st) l p (tab_timer _ _ OK) N Nf T) as (rc & h' & -> & _). run.
  by rewrite Hin.
Qed.

Lemma unref_keep st l p c cnt :
  tab_ok st l -> cells st !! p = Some c -> 0 < s32 (ref c - cnt) ->
  unref_dlg_unsafe p cnt (h_entry c) st =
  Ret (upd (fun c => set_ref (s32 (ref c - cnt)) c) p st).
Proof.
  intros OK Hc Hr. unfold unref_dlg_unsafe. rewrite (upd_cell_ok st l _ p c) by done. run.
  rewrite (get_cell_ok _ l p (set_ref (s32 (ref c - cnt)) c)); [|by apply upd_ok|by apply (upd_lookup (fun c => _))].
  run. simpl ref. by rewrite (proj2 (Z.leb_gt _ _)).
Qed.

Lemma unref_last st l p c cnt :
  tab_ok st l -> cells st !! p = Some c -> s32 (ref c - cnt) <= 0 ->
  let g := fun c => set_ref (s32 (ref c - cnt)) c in
  unref_dlg_unsafe p cnt (h_entry c) st = (st ← unlink_unsafe_dlg (h_entry (g c)) p (upd g p st); destroy_dlg p st) /\
  tab_ok (upd g p st) l /\ cells (upd g p st) !! p = Some (g c).
Proof.
  intros OK Hc Hr g. unfold unref_dlg_unsafe. rewrite (upd_cell_ok st l _ p c) by done. run.
  assert (OK1 : tab_ok (upd g p st) l) by (by apply upd_ok).
  assert (L1 : cells (upd g p st) !! p = Some (g c)) by (by apply upd_lookup).
  fold g. rewrite (get_cell_ok _ l p (g c)) by done. run.
  by rewrite (proj2 (Z.leb_le _ _)) by done.
Qed.

Lemma unref_free st l p c cnt :
  tab_ok st l -> cells st !! p = Some c -> s32 (ref c - cnt) <= 0 -> intact c = true ->
  exists st', unref_dlg_unsafe p cnt (h_entry c) st = Ret st' /\
    cells st' = delete p (cells st) /\ size st' = size st /\
    tab_ok st' (DlgTimer.spec_remove p l).
Proof.
  intros OK Hc Hr Hi. destruct (unref_last st l p c cnt OK Hc Hr) as (-> & OK1 & L1).
  destruct (destroy_ok _ l p _ OK1 L1) as (st' & E & Ec & Es & OK'); [done|].
  exists st'. split; [exact E|]. split; [|done]. rewrite Ec. simpl. by rewrite delete_alter_eq.
Qed.

Lemma unref_dangling st l p c cnt :
  tab_ok st l -> cells st !! p = Some c -> s32 (ref c - cnt) <= 0 -> intact c = false ->
  unref_dlg_unsafe p cnt (h_entry c) st = Fault UseAfterFree.
Proof.
  intros OK Hc Hr Hi. destruct (unref_last st l p c cnt OK Hc Hr) as (-> & OK1 & L1). by apply (destroy_dangling _ l).
Qed.

(** ** The state machine *)

Definition has_bye (c : dlg_cell) : bool := negb (Z.land (flags c) DLG_FLAG_HASBYE =? 0).

Definition pre_answer (s : Z) : bool := (s =? DLG_STATE_UNCONFIRMED) || (s =? DLG_STATE_EARLY).
Definition confirmed (s : Z) : bool := (s =? DLG_STATE_CONFIRMED_NA) || (s =? DLG_STATE_CONFIRMED).
Definition deleted (s : Z) : bool := s =? DLG_STATE_DELETED.
Definition valid_state (s : Z) : Prop := 1 <= s <= 5.

(** The abstract machine: one transition of a dialog cell. *)
Definition next_state (s : Z) (bye : bool) (ev : dlg_event) : Z :=
  match ev with
  | DLG_EVENT_TDEL | DLG_EVENT_RPL3xx => if pre_answer s then DLG_STATE_DELETED else s
  | DLG_EVENT_RPL1xx => if pre_answer s then DLG_STATE_EARLY else s
  | DLG_EVENT_RPL2xx =>
      if deleted s then if bye then s else DLG_STATE_CONFIRMED_NA
      else if pre_answer s then DLG_STATE_CONFIRMED_NA else s
  | DLG_EVENT_REQACK => if s =? DLG_STATE_CONFIRMED_NA then DLG_STATE_CONFIRMED else s
  | DLG_EVENT_REQBYE => if confirmed s then DLG_STATE_DELETED else s
  | DLG_EVENT_REQPRACK | DLG_EVENT_REQ => s
  end.

(** References gained or lost in the transition itself: the transaction gives up
    its reference, a late 2xx takes the table's reference back. *)
Definition ref_delta (s : Z) (bye : bool) (ev : dlg_event) : Z :=
  match ev with
  | DLG_EVENT_TDEL => -1
  | DLG_EVENT_RPL2xx => if deleted s && negb bye then 1 else 0
  | _ => 0
  end.

Definition next_cell (ev : dlg_event) (c : dlg_cell) : dlg_cell :=
  let s := state c in
  let d := ref_delta s (has_bye c) ev in
  let c1 := if d =? 0 then c else set_ref (s32 (ref c + d)) c in
  let c2 := if (match ev with DLG_EVENT_REQBYE => confirmed s | _ => false end)
            then set_flags (Z.lor (flags c) DLG_FLAG_HASBYE) c1 else c1 in
  set_state (next_state s (has_bye c) ev) c2.

Definition put (p : Z) (c : dlg_cell) (st : dlg_st) : dlg_st :=
  St (<[p := c]> (cells st)) (tls st) (entries st).

Lemma upd_put f p st c : cells st !! p = Some c -> upd f p st = put p (f c) st.
Proof. intros H. unfold upd, put. f_equal. apply map_eq. intros q.
  rewrite lookup_alter, lookup_insert. case_decide; [|done]. subst. by rewrite H. Qed.

Lemma put_put p c c' st : put p c (put p c' st) = put p c st.
Proof. unfold put. simpl. by rewrite insert_insert_eq. Qed.

Lemma put_same p c st : cells st !! p = Some c -> put p c st = st.
Proof. intros H. unfold put. rewrite insert_id by done. by destruct st. Qed.

Lemma put_lookup p c st : cells (put p c st) !! p = Some c.
Proof. apply lookup_insert_eq. Qed.

Lemma put_ok st l p c c' :
  tab_ok st l -> cells st !! p = Some c -> h_entry c' = h_entry c -> tab_ok (put p c' st) l.
Proof.
  intros OK Hc Hh. constructor; [apply OK|..].
  - intros q d. simpl. rewrite lookup_insert. case_decide; subst; [|apply (tab_cell _ _ OK)].
    intros [= <-]. rewrite Hh. by apply (tab_cell _ _ OK).
  - intros q Hq. simpl. rewrite lookup_insert. case_decide; [done|]. by apply (tab_queued _ _ OK).
  - intros i e q He Hq. destruct (tab_linked _ _ OK i e q He Hq) as (d & Hd & Hi).
    simpl. rewrite lookup_insert. case_decide; subst; [|by exists d].
    exists c'. split; [done|]. congruence.
Qed.

Lemma upd_cell_put st l f p c :
  tab_ok st l -> cells st !! p = Some c -> upd_cell f p st = Ret (put p (f c) st).
Proof. intros OK Hc. rewrite (upd_cell_ok st l f p c OK Hc). by rewrite (upd_put f p st c). Qed.

Lemma set_state_same c : set_state (state c) c = c.
Proof. by destruct c. Qed.

(** Runs the two-step updates of one cell. *)
Lemma upd_cell_twice st l f g p c :
  tab_ok st l -> cells st !! p = Some c -> h_entry (f c) = h_entry c ->
  (st ← upd_cell f p st; upd_cell g p st) = Ret (put p (g (f c)) st).
Proof.
  intros OK Hc Hh. rewrite (upd_cell_put st l f p c OK Hc). run.
  rewrite (upd_cell_put _ l g p (f c)); [by rewrite put_put| |apply put_lookup].
  by apply (put_ok st l p c).
Qed.

(** What [*unref] holds afterwards. *)
Definition next_unref (ev : dlg_event) (c : dlg_cell) (u : Z) : Z :=
  if negb (deleted (state c)) && deleted (next_state (state c) (has_bye c) ev) then 1 else u.

Lemma unref_put st l p c c' :
  tab_ok st l -> cells st !! p = Some c -> h_entry c' = h_entry c -> 0 < s32 (ref c' - 1) ->
  unref_dlg_unsafe p 1 (h_entry c) (put p c' st) = Ret (put p (set_ref (s32 (ref c' - 1)) c') st).
Proof.
  intros OK Hc Hh Hr. rewrite <- Hh.
  rewrite (unref_keep _ l p c'); [|by apply (put_ok st l p c)|apply put_lookup|done].
  rewrite (upd_put _ _ _ c') by apply put_lookup. by rewrite put_put.
Qed.

(** The switch performs the transition of the abstract machine on the cell, as long
    as it does not drop the last reference. *)
Lemma dlg_transition_pure st l p c ev u :
  tab_ok st l -> cells st !! p = Some c -> valid_state (state c) ->
  (ev = DLG_EVENT_TDEL -> 0 < s32 (ref c - 1)) ->
  dlg_transition p c ev u st = Ret (next_unref ev c u, put p (next_cell ev c) st).
Proof.
  intros OK Hc Hv Ht.
  assert (Hid : put p c st = st) by (by apply put_same).
  assert (Hu : forall f, upd_cell f p st = Ret (put p (f c) st)) by (intros; by apply (upd_cell_put st l)).
  assert (Hr : ev = DLG_EVENT_TDEL -> forall c', h_entry c' = h_entry c -> ref c' = ref c ->
    unref_dlg_unsafe p 1 (h_entry c) (put p c' st) = Ret (put p (set_ref (s32 (ref c' - 1)) c') st)).
  { intros -> c' Hh E. apply (unref_put st l); [done..|]. rewrite E. by apply Ht. }
  assert (Hs : set_state (state c) c = c) by apply set_state_same.
  unfold valid_state in Hv.
  unfold dlg_transition, next_unref, next_cell, next_state, ref_delta, deleted, pre_answer,
    confirmed, has_bye, DLG_STATE_UNCONFIRMED, DLG_STATE_EARLY, DLG_STATE_CONFIRMED_NA,
    DLG_STATE_CONFIRMED, DLG_STATE_DELETED in *.
  assert (Ho : state c = 1 \/ state c = 2 \/ state c = 3 \/ state c = 4 \/ state c = 5) by lia.
  destruct ev; try specialize (Hr eq_refl); try clear Ht;
    destruct Ho as [Ho|[Ho|[Ho|[Ho|Ho]]]]; rewrite ?Ho in Hs |- *; simpl;
    rewrite ?Hu, ?Hs, ?Hid; run; rewrite ?Hr by done; run; try done.
  1-3: rewrite <- (put_same p c st Hc) at 1; rewrite Hr by done; run;
    do 3 f_equal; destruct c; simpl in *; by subst.
  - destruct (negb _) eqn:Eb; simpl; [by rewrite Hs, Hid|].
    unfold ref_dlg_unsafe. rewrite Hu. run.
    rewrite (upd_cell_put _ l _ p (set_ref (s32 (ref c + 1)) c));
      [|by apply (put_ok st l p c)|apply put_lookup].
    run. by rewrite put_put.
  - rewrite (upd_cell_put _ l _ p (set_flags (Z.lor (flags c) DLG_FLAG_HASBYE) c));
      [|by apply (put_ok st l p c)|apply put_lookup].
    run. by rewrite put_put.
  - rewrite (upd_cell_put _ l _ p (set_flags (Z.lor (flags c) DLG_FLAG_HASBYE) c));
      [|by apply (put_ok st l p c)|apply put_lookup].
    run. by rewrite put_put.
Qed.

Lemma next_cell_entry ev c : h_entry (next_cell ev c) = h_entry c.
Proof. unfold next_cell. simpl. by destruct (match ev with DLG_EVENT_REQBYE => _ | _ => _ end), (_ =? 0). Qed.

Lemma next_state_dlg_pure st l p c ev u :
  tab_ok st l -> cells st !! p = Some c -> valid_state (state c) ->
  (ev = DLG_EVENT_TDEL -> 0 < s32 (ref c - 1)) ->
  next_state_dlg p ev u st =
  Ret (state c, next_state (state c) (has_bye c) ev, next_unref ev c u, put p (next_cell ev c) st).
Proof.
  intros OK Hc Hv Ht. unfold next_state_dlg. rewrite (get_cell_ok st l p c) by done. run.
  rewrite (dlg_transition_pure st l p c ev u) by done. run.
  rewrite (get_cell_ok _ l p (next_cell ev c)); [done| |apply put_lookup].
  apply (put_ok st l p c); [done..|]. apply next_cell_entry.
Qed.

(** Dropping the last reference in the switch frees the cell that is read next. *)
Lemma next_state_dlg_freed st l p c u :
  tab_ok st l -> cells st !! p = Some c -> valid_state (state c) -> s32 (ref c - 1) <= 0 ->
  next_state_dlg p DLG_EVENT_TDEL u st = Fault UseAfterFree.
Proof.
  intros OK Hc Hv Hr. unfold next_state_dlg. rewrite (get_cell_ok st l p c) by done. run.
  destruct (tab_cell _ _ OK p c Hc) as (N & _).
  assert (Hd : forall st', cells st' = delete p (cells st) -> get_cell p st' = Fault UseAfterFree).
  { intros st' E. unfold get_cell. by rewrite (proj2 (Z.eqb_neq p 0) N), E, lookup_delete_eq. }
  assert (Hf : forall st' c', tab_ok st' l -> cells st' !! p = Some c' -> ref c' = ref c -> h_entry c' = h_entry c ->
    delete p (cells st') = delete p (cells st) -> forall u',
    ('(_, st) ← (st ← unref_dlg_unsafe p 1 (h_entry c) st'; Ret (u' : Z, st)); get_cell p st) = Fault UseAfterFree).
  { intros st' c' OK' Hc' Er Eh Ed u'. rewrite <- Eh. destruct (intact c') eqn:Hi.
    - destruct (unref_free st' l p c' 1 OK' Hc') as (st2 & E & Ec & _); [by rewrite Er|done|].
      rewrite E. run. apply Hd. by rewrite Ec.
    - rewrite (unref_dangling st' l p c') by (done || by rewrite Er). done. }
  unfold dlg_transition. destruct (_ || _) eqn:E1.
  - rewrite (upd_cell_put st l _ p c) by done. run. set (c1 := set_state DLG_STATE_DELETED c).
    specialize (Hf (put p c1 st) c1 (put_ok st l p c c1 OK Hc eq_refl) (put_lookup p c1 st) eq_refl eq_refl).
    simpl cells in Hf. rewrite delete_insert_eq in Hf. specialize (Hf eq_refl 1).
    destruct (unref_dlg_unsafe _ _ _ _) as [st2|]; revert Hf; run; [|by intros [= ->]]. by intros ->.
  - replace (_ || _) with true.
    2: { unfold valid_state, DLG_STATE_UNCONFIRMED, DLG_STATE_EARLY, DLG_STATE_CONFIRMED_NA,
         DLG_STATE_CONFIRMED, DLG_STATE_DELETED in *. lia. }
    specialize (Hf st c OK Hc eq_refl eq_refl eq_refl u).
    destruct (unref_dlg_unsafe _ _ _ _) as [st2|]; revert Hf; run; [|by intros [= ->]]. by intros ->.
Qed.

(** ** Lookup *)

Lemma lookup_scan_found st l ps id p c :
  tab_ok st l -> lookup_scan ps id st = Ret (Some p) -> cells st !! p = Some c ->
  In p ps /\ h_id c = id /\ state c <> DLG_STATE_DELETED.
Proof.
  intros OK. induction ps as [|q ps IH]; simpl; [done|]. intros E Hc.
  destruct (get_cell q st) as [d|] eqn:Eq; [|done]. revert E. run.
  destruct (Z.eqb_spec (h_id d) id).
  - destruct (Z.eqb_spec (state d) DLG_STATE_DELETED); [done|]. intros [= <-].
    rewrite (get_cell_ok st l q c) in Eq by done. injection Eq as <-. auto.
  - intros E. destruct (IH E Hc) as (? & ? & ?). auto.
Qed.

Lemma lookup_scan_total st l i e ps id :
  tab_ok st l -> entries st !! i = Some e -> (forall p, In p ps -> In p (dlgs e)) ->
  exists r, lookup_scan ps id st = Ret r /\
    forall p, r = Some p -> In p ps.
Proof.
  intros OK He. induction ps as [|q ps IH]; simpl; intros Hs; [by exists None|].
  destruct (tab_linked _ _ OK i e q He) as (d & Hd & _); [auto|].
  rewrite (get_cell_ok st l q d) by done. run. destruct (_ =? _).
  - destruct (_ =? _); [by exists None|]. exists (Some q). split; [done|]. intros p [= <-]. auto.
  - destruct IH as (r & E & Hr); [auto|]. exists r. split; [done|]. auto.
Qed.

(** Looking a dialog up never faults: it fails and changes nothing, or it returns
    a cell of the entry, with the id asked for and not deleted, and takes one
    reference on it. *)
Lemma lookup_dlg_spec st l en id :
  tab_ok st l -> 0 <= en ->
  lookup_dlg en id st = Ret (None, st) \/
  exists p c, lookup_dlg en id st = Ret (Some p, put p (set_ref (s32 (ref c + 1)) c) st) /\
    cells st !! p = Some c /\ h_id c = id /\ h_entry c = en /\ state c <> DLG_STATE_DELETED.
Proof.
  intros OK Hen. unfold lookup_dlg. destruct (en >=? size st) eqn:Es; [by left|].
  unfold size in Es. unfold get_entry.
  destruct (lookup_lt_is_Some_2 (entries st) (Z.to_nat en)) as [e He]; [lia|]. rewrite He. run.
  destruct (lookup_scan_total st l _ e (dlgs e) id OK He ltac:(done)) as (r & E & Hr).
  rewrite E. run. destruct r as [p|]; [|by left]. right.
  destruct (tab_linked _ _ OK _ e p He (Hr p eq_refl)) as (c & Hc & Hi).
  destruct (lookup_scan_found st l _ _ p c OK E Hc) as (_ & Hid & Hs).
  exists p, c. unfold ref_dlg_unsafe. rewrite (upd_cell_put st l _ p c) by done. run.
  split; [done|]. split; [done|]. split; [done|]. split; [lia|done].
Qed.

(** A balanced lookup and release leaves the table as it was. *)
Lemma lookup_unref_id st l en id p c :
  tab_ok st l -> 0 <= en -> cells st !! p = Some c -> 0 < ref c < 2 ^ 31 - 1 ->
  lookup_dlg en id st = Ret (Some p, put p (set_ref (s32 (ref c + 1)) c) st) ->
  (st' ← (r ← lookup_dlg en id st; Ret (snd r)); unref_dlg p 1 st') = Ret st.
Proof.
  intros OK Hen Hc Hr E. rewrite E. run. simpl snd. rewrite s32_small by lia.
  set (c1 := set_ref (ref c + 1) c). unfold unref_dlg.
  assert (OK1 : tab_ok (put p c1 st) l) by (by apply (put_ok st l p c)).
  rewrite (get_cell_ok _ l p c1) by (done || apply put_lookup). run.
  assert (Hs : s32 (ref c1 - 1) = ref c) by (unfold c1; simpl; rewrite s32_small; lia).
  rewrite (unref_keep _ l p c1) by (done || apply put_lookup || lia).
  rewrite (upd_put _ _ _ c1), Hs, put_put by apply put_lookup.
  rewrite put_same; [done|]. unfold c1. rewrite Hc. by destruct c.
Qed.

(** ** Timer operations on a cell of the table *)

Lemma tab_ok_timer st l p c r :
  tab_ok st l -> cells st !! p = Some c -> DlgTimer.timer_step (tls st) l p r ->
  returns r (fun '(_, h) => exists l', tab_ok (set_tls h st) l').
Proof.
  intros OK Hc (rc & h' & l' & -> & T & D & Q & S). exists (rc, h'). split; [done|]. exists l'.
  constructor; [done|..]; simpl.
  - intros q d Hq. destruct (tab_cell _ _ OK q d Hq) as (? & ? & A & Tq & ?).
    repeat (split; [done|]). split; [|split; [by apply Q|done]].
    apply elem_of_dom. rewrite D. by apply elem_of_dom.
  - intros q Hq. destruct (S q Hq) as [?| ->]; [by apply (tab_queued _ _ OK)|by rewrite Hc].
  - apply (tab_linked _ _ OK).
Qed.

(** ** A new cell *)

Lemma upd_cell_at f p st c :
  p <> 0 -> cells st !! p = Some c -> upd_cell f p st = Ret (put p (f c) st).
Proof.
  intros N Hc. unfold upd_cell, get_cell. rewrite (proj2 (Z.eqb_neq p 0) N), Hc. run.
  by rewrite <- (upd_put f p st c).
Qed.

(** Appending a cell to its chain. *)
Lemma linked_ok st l p c en n :
  tab_ok st l -> cells st !! p = Some c -> entries st !! Z.to_nat (h_entry c) = Some en ->
  tab_ok (set_entry (h_entry c) (Entry (dlgs en ++ [p]) n) st) l.
Proof.
  intros OK Hc Le. constructor; [apply OK| |apply (tab_queued _ _ OK)|]; simpl.
  - intros q d Hd. unfold size. simpl. rewrite length_insert. by apply (tab_cell _ _ OK).
  - intros i en' q. rewrite list_lookup_insert. case_decide as Hi; [|by apply (tab_linked _ _ OK)].
    intros [= <-]. simpl. rewrite in_app_iff. intros [Hq|[<-|[]]].
    + destruct Hi as [<- _]. by apply (tab_linked _ _ OK _ en).
    + exists c. split; [done|]. destruct (tab_cell _ _ OK p c Hc) as (_ & _ & _ & _ & ?). lia.
Qed.

(** The address of a new cell is not in use. *)
Definition fresh (p : Z) (st : dlg_st) : Prop :=
  p <> 0 /\ p <> DlgTimer.FIRST /\ cells st !! p = None.

Definition add_cell (p : Z) (c : dlg_cell) (st : dlg_st) : dlg_st :=
  St (<[p := c]> (cells st)) (<[p := DlgTimer.Tl 0 0 0]> (tls st)) (entries st).

Section New.
Context (p : Z) (st : dlg_st) (F : fresh p st).

Lemma fresh_not_queued l : tab_ok st l -> ~ In p (DlgTimer.FIRST :: l).
Proof.
  intros OK. destruct F as (_ & Nf & E). intros [Hp|Hp]; [congruence|].
  destruct (tab_queued _ _ OK p Hp) as [c Hc]. congruence.
Qed.

(** An unlinked cell may be added or taken away. *)
Lemma fresh_tls l tl : tab_ok st l -> (forall q, q <> p -> tl !! q = tls st !! q) ->
  DlgTimer.timer_ok tl l /\
  forall q c, cells st !! q = Some c -> is_Some (tl !! q) /\ DlgTimer.tl_ok tl l q.
Proof.
  intros OK Ht. pose proof (fresh_not_queued l OK) as Nq. split.
  - eapply DlgTimer.timer_ok_ext; [apply OK|]. intros x Hx. apply Ht. by intros ->.
  - intros q c Hc. destruct F as (_ & _ & E). assert (q <> p) by congruence.
    destruct (tab_cell _ _ OK q c Hc) as (_ & _ & A & T & _).
    unfold DlgTimer.tl_ok, DlgTimer.prev_of in *. by rewrite Ht.
Qed.

Lemma add_cell_ok l c :
  tab_ok st l -> 0 <= h_entry c < size st -> tab_ok (add_cell p c st) l.
Proof.
  intros OK Hh. pose proof F as (N & Nf & E).
  destruct (fresh_tls l (<[p := DlgTimer.Tl 0 0 0]> (tls st)) OK) as [T Tc].
  { intros q Hq. by rewrite lookup_insert_ne. }
  constructor; [done|..]; simpl.
  - intros q d. rewrite lookup_insert. case_decide; subst.
    + intros [= <-]. split; [done|]. split; [done|]. rewrite lookup_insert_eq. split; [done|].
      split; [|done]. right. unfold DlgTimer.prev_of. by rewrite lookup_insert_eq.
    + intros Hd. destruct (tab_cell _ _ OK q d Hd) as (? & ? & _ & _ & ?).
      destruct (Tc q d Hd). done.
  - intros q Hq. rewrite lookup_insert. case_decide; [done|]. by apply (tab_queued _ _ OK).
  - intros i en q He Hq. destruct (tab_linked _ _ OK i en q He Hq) as (d & Hd & Hi).
    exists d. by rewrite lookup_insert_ne by congruence.
Qed.

Lemma del_cell_ok l c :
  tab_ok st l ->
  tab_ok (St (delete p (cells (add_cell p c st))) (delete p (tls (add_cell p c st))) (entries st)) l.
Proof.
  intros OK. pose proof F as (N & Nf & E).
  destruct (fresh_tls l (delete p (tls (add_cell p c st))) OK) as [T Tc].
  { intros q Hq. simpl. by rewrite lookup_delete_ne, lookup_insert_ne. }
  assert (Ec : delete p (cells (add_cell p c st)) = cells st).
  { simpl. rewrite delete_insert_eq. by apply delete_id. }
  rewrite Ec. constructor; [done| |apply (tab_queued _ _ OK)|apply (tab_linked _ _ OK)].
  intros q d Hd. destruct (tab_cell _ _ OK q d Hd) as (? & ? & _ & _ & ?).
  by destruct (Tc q d Hd).
Qed.

(** Linking it: the cell gets the next id of its entry, goes to the end of the chain
    and holds the references asked for. *)
Lemma link_new l c n :
  tab_ok st l -> 0 <= h_entry c < size st ->
  exists en, entries st !! Z.to_nat (h_entry c) = Some en /\
    let st' := St (<[p := set_ref (s32 (ref c + (1 + n))) (set_h_id (next_id en) c)]> (cells st))
                  (<[p := DlgTimer.Tl 0 0 0]> (tls st))
                  (<[Z.to_nat (h_entry c) := Entry (dlgs en ++ [p]) (u32 (next_id en + 1))]> (entries st)) in
    link_dlg p n (add_cell p c st) = Ret st' /\ tab_ok st' l.
Proof.
  intros OK Hh. pose proof (add_cell_ok l c OK Hh) as OK1. pose proof F as (N & Nf & Ef).
  assert (C1 : cells (add_cell p c st) !! p = Some c) by apply lookup_insert_eq.
  destruct (get_entry_ok _ l p c OK1 C1) as (en & Ee & Le). exists en. split; [exact Le|]. cbv zeta.
  split.
  - unfold link_dlg. rewrite (get_cell_ok _ l p c) by done. run. rewrite Ee. run.
    rewrite (upd_cell_at _ p _ c) by done. run. unfold ref_dlg_unsafe.
    rewrite (upd_cell_at _ p _ (set_h_id (next_id en) c)) by (done || apply lookup_insert_eq).
    unfold put, set_entry, add_cell. simpl. by rewrite !insert_insert_eq.
  - pose proof (put_ok _ l p c (set_h_id (next_id en) c) OK1 C1 eq_refl) as OK2.
    pose proof (linked_ok _ l p (set_h_id (next_id en) c) en (u32 (next_id en + 1)) OK2
      (put_lookup p _ _) Le) as OK3.
    pose proof (put_ok _ l p (set_h_id (next_id en) c)
      (set_ref (s32 (ref c + (1 + n))) (set_h_id (next_id en) c)) OK3 (put_lookup p _ _) eq_refl) as OK4.
    revert OK4. unfold put, set_entry, add_cell. simpl. by rewrite !insert_insert_eq.
Qed.

End New.

(** ** Main results *)

(** C3: [next_state_dlg] refines the abstract dialog state machine: for a dialog of a
    well-formed table in one of the five states and every event, it reports the old and the
    new state of the machine, moves the cell to the new state with the references the machine
    gains or loses, reports a reference to give back exactly when the dialog is deleted, and
    changes nothing else; with one exception, the deletion of a transaction that holds the
    last reference, when it reads the dialog it has just freed. *)
Theorem next_state_refines st l p c event u :
  tab_ok st l -> cells st !! p = Some c -> valid_state (state c) ->
  next_state_dlg p event u st =
  if (match event with DLG_EVENT_TDEL => true | _ => false end) && (s32 (ref c - 1) <=? 0) then Fault UseAfterFree
  else Ret (state c, next_state (state c) (has_bye c) event, next_unref event c u, put p (next_cell event c) st).
Proof.
  intros OK Hc Hv. destruct (_ && _) eqn:E.
  - apply andb_true_iff in E as [E1 E2]. destruct event; try done. apply (next_state_dlg_freed st l p c); [done..|lia].
  - apply (next_state_dlg_pure st l p c); [done..|]. intros ->. simpl in E. lia.
Qed.

(** A table with one confirmed dialog. *)
Definition sample_cell : dlg_cell :=
  Cell 2 7 0 DLG_STATE_CONFIRMED_NA 60 0 0 0 (B "id") (B "a") (B "b") (Legs (B "x") (B "y"))
    (Legs (CStr None 0) (CStr None 0)) (Legs [] []) (Legs [] []) (Legs 0 0)
    (Legs (false, false) (false, false)).
Definition sample_table : dlg_st :=
  St {[16 := sample_cell]} (<[16 := DlgTimer.Tl 0 0 0]> (DlgTimer.init_dlg_timer ∅)) [Entry [16] 8].

Lemma sample_table_ok : tab_ok sample_table [].
Proof.
  constructor; simpl.
  - eapply DlgTimer.timer_ok_ext; [apply (DlgTimer.init_dlg_timer_ok ∅)|].
    intros x [<-|[]]. by vm_compute.
  - intros p c. rewrite lookup_singleton. case_decide; [|done]. subst. intros [= <-].
    split; [done|]. split; [done|]. split; [by eexists; vm_compute|]. split; [by right; vm_compute|].
    vm_compute. split; congruence.
  - done.
  - intros [|i] e p; [|done]. intros [= <-] [<-|[]]. by exists sample_cell.
Qed.

Definition last_cell : dlg_cell := set_ref 1 sample_cell.

Lemma next_state_refines_witness :
  next_state_dlg 16 DLG_EVENT_REQACK 0 sample_table =
    Ret (3, 4, 0, put 16 (next_cell DLG_EVENT_REQACK sample_cell) sample_table) /\
  next_state_dlg 16 DLG_EVENT_TDEL 0 sample_table =
    Ret (3, 3, 0, put 16 (set_ref 1 sample_cell) sample_table) /\
  next_state_dlg 16 DLG_EVENT_TDEL 0 (put 16 last_cell sample_table) = Fault UseAfterFree.
Proof.
  pose proof sample_table_ok as OK.
  split; [|split].
  - apply (next_state_refines sample_table [] 16 sample_cell DLG_EVENT_REQACK 0);
      [exact OK|reflexivity|vm_compute; split; congruence].
  - apply (next_state_refines sample_table [] 16 sample_cell DLG_EVENT_TDEL 0);
      [exact OK|reflexivity|vm_compute; split; congruence].
  - apply (next_state_refines (put 16 last_cell sample_table) [] 16 last_cell DLG_EVENT_TDEL 0);
      [by apply (put_ok _ _ 16 sample_cell)|reflexivity|vm_compute; split; congruence].
Defined.

(** Looking a dialog up by entry and id never faults.  It finds nothing and
    changes nothing, or it returns a live dialog of that entry with that id which is
    not deleted, with one more reference; giving the reference back restores the
    table. *)
Theorem lookup_and_release st l en id :
  tab_ok st l -> 0 <= en -> (forall p c, cells st !! p = Some c -> 0 < ref c < 2 ^ 31 - 1) ->
  lookup_dlg en id st = Ret (None, st) \/
  exists p c, cells st !! p = Some c /\ h_id c = id /\ h_entry c = en /\
    state c <> DLG_STATE_DELETED /\
    lookup_dlg en id st = Ret (Some p, put p (set_ref (ref c + 1) c) st) /\
    unref_dlg p 1 (put p (set_ref (ref c + 1) c) st) = Ret st.
Proof.
  intros OK Hen Hr. destruct (lookup_dlg_spec st l en id OK Hen) as [E|(p & c & E & Hc & Hi & He & Hs)];
    [by left|right].
  exists p, c. pose proof (lookup_unref_id st l en id p c OK Hen Hc (Hr p c Hc) E) as U.
  rewrite E in U. revert U. run. simpl snd. rewrite s32_small in * by (specialize (Hr p c Hc); lia).
  intros U. by repeat (split; [done|]).
Qed.

Lemma lookup_and_release_witness :
  exists p, lookup_dlg 0 7 sample_table = Ret (Some p, put 16 (set_ref 3 sample_cell) sample_table).
Proof.
  destruct (lookup_and_release sample_table [] 0 7) as [E|(p & c & Hc & _ & _ & _ & E & _)].
  - apply sample_table_ok.
  - lia.
  - intros p c. simpl. rewrite lookup_singleton. case_decide; [|done]. intros [= <-]. simpl. lia.
  - exfalso. by vm_compute in E.
  - exists p. rewrite E. revert Hc. simpl. rewrite lookup_singleton. case_decide; [|done]. subst.
    by intros [= <-].
Defined.

End DlgHash.
