(* ===== verification/DlgDb.v ===== *)
(** * Dialogs in the database: [src/modules/dialog/dlg_db_handler.c]

    Saving dialogs (at once, or all of them from the timer), deleting them, and
    reloading the table at start-up.  A row keeps the columns in the order of the
    source; [None] is a null column.  The database itself is the list of operations
    handed to it; whether it accepts an operation is an argument.  A socket is named
    in a row by its [sock_str]; the name is identified with the socket here, and
    [grep_sock] tells which socket a name stands for when it is read back (0 if
    none). *)

From Stdlib Require Import ZArith Lia List String Ascii Bool.
From stdpp Require Import base tactics option list gmap sets.
From S2P Require Import Prelude HashFunc DlgTimer DlgHash.

Module DlgDb.
Import HashFunc DlgHash.

Inductive db_mode : Set := DB_MODE_NONE | DB_MODE_REALTIME | DB_MODE_DELAYED.

#[export] Instance db_mode_eq_dec : EqDecision db_mode.
Proof. solve_decision. Defined.

Record db_row : Type := Row {
  c_entry : option Z; c_id : option Z;
  c_callid : option bytes; c_from_uri : option bytes; c_from_tag : option bytes;
  c_to_uri : option bytes; c_to_tag : option bytes;
  c_start : option Z; c_state : option Z; c_timeout : option Z;
  c_from_cseq : option bytes; c_to_cseq : option bytes;
  c_from_route : option bytes; c_to_route : option bytes;
  c_from_contact : option bytes; c_to_contact : option bytes;
  c_from_sock : option Z; c_to_sock : option Z
}.

Inductive db_op : Type :=
| DbInsert (r : db_row)
| DbUpdate (entry id state timeout : Z) (cseqs : legs bytes)
| DbDelete (entry id : Z).

(** The content of a [cseq] buffer, as a [str]. *)
Definition cstr_bytes (s : cstr) : bytes := take (Z.to_nat (len s)) (default [] (buf s)).

(** [SET_PROPER_NULL_FLAG] *)
Definition proper_null (s : bytes) : option bytes := match s with [] => None | _ => Some s end.

(** [time(0) + cell->tl.timeout - get_ticks()] *)
Definition db_timeout (now ticks timeout : Z) : Z := u32 (u32 now + timeout - ticks).

(** The values of an insert; both sockets are dereferenced. *)
Definition insert_row (now ticks : Z) (c : dlg_cell) (tl : DlgTimer.dlg_tl) : res db_row :=
  if (caller (bind_addr c) =? 0) || (callee (bind_addr c) =? 0) then Fault NullDeref
  else Ret {|
    c_entry := Some (h_entry c); c_id := Some (h_id c);
    c_callid := Some (callid c); c_from_uri := Some (from_uri c);
    c_from_tag := Some (caller (tag c)); c_to_uri := Some (to_uri c);
    c_to_tag := proper_null (callee (tag c));
    c_start := Some (start_ts c); c_state := Some (state c);
    c_timeout := Some (db_timeout now ticks (DlgTimer.timeout tl));
    c_from_cseq := Some (cstr_bytes (caller (cseq c)));
    c_to_cseq := Some (cstr_bytes (callee (cseq c)));
    c_from_route := proper_null (caller (route_set c));
    c_to_route := proper_null (callee (route_set c));
    c_from_contact := proper_null (caller (contact c));
    c_to_contact := proper_null (callee (contact c));
    c_from_sock := Some (caller (bind_addr c)); c_to_sock := Some (callee (bind_addr c)) |}.

Definition update_op (now ticks : Z) (c : dlg_cell) (tl : DlgTimer.dlg_tl) : db_op :=
  DbUpdate (h_entry c) (h_id c) (state c) (db_timeout now ticks (DlgTimer.timeout tl))
    (Legs (cstr_bytes (caller (cseq c))) (cstr_bytes (callee (cseq c)))).

Definition flag_on (f : Z) (c : dlg_cell) : bool := negb (Z.land (flags c) f =? 0).
Definition clear_flags (f : Z) (c : dlg_cell) : dlg_cell := set_flags (Z.land (flags c) (u32 (Z.lnot f))) c.

(** Saves one dialog: the body of [update_dialog_dbinfo] and of the loop of
    [dialog_update_db].  Return code, operation performed and table. *)
Definition save_dialog (now ticks : Z) (op_ok : bool) (p : Z) (st : dlg_st)
  : res (Z * list db_op * dlg_st) :=
  c ← get_cell p st;
  if flag_on DLG_FLAG_NEW c then
    tl ← DlgTimer.load p (tls st);
    r ← insert_row now ticks c tl;
    if op_ok then
      st ← upd_cell (clear_flags (Z.lor DLG_FLAG_NEW DLG_FLAG_CHANGED)) p st;
      Ret (0, [DbInsert r], st)
    else Ret (-1, [], st)
  else if flag_on DLG_FLAG_CHANGED c then
    tl ← DlgTimer.load p (tls st);
    if op_ok then
      st ← upd_cell (clear_flags DLG_FLAG_CHANGED) p st;
      Ret (0, [update_op now ticks c tl], st)
    else Ret (-1, [], st)
  else Ret (0, [], st).

(** [use_ok] is the outcome of [use_dialog_table]. *)
Definition update_dialog_dbinfo (now ticks : Z) (use_ok op_ok : bool) (p : Z) (st : dlg_st)
  : res (Z * list db_op * dlg_st) :=
  if use_ok then save_dialog now ticks op_ok p st else Ret (-1, [], st).

Definition remove_dialog_from_db (use_ok op_ok : bool) (p : Z) (st : dlg_st)
  : res (Z * list db_op * dlg_st) :=
  c ← get_cell p st;
  if flag_on DLG_FLAG_NEW c then Ret (0, [], st)
  else if negb use_ok then Ret (-1, [], st)
  else if op_ok then Ret (0, [DbDelete (h_entry c) (h_id c)], st) else Ret (-1, [], st).

(** The dialogs of one entry, stopping at the first operation that fails. *)
Fixpoint save_chain (now ticks : Z) (op_ok : Z -> bool) (ps : list Z) (st : dlg_st)
  : res (Z * list db_op * dlg_st) :=
  match ps with
  | [] => Ret (0, [], st)
  | p :: ps' =>
      '(rc, ops, st) ← save_dialog now ticks (op_ok p) p st;
      if negb (rc =? 0) then Ret (rc, ops, st)
      else
        '(rc, ops', st) ← save_chain now ticks op_ok ps' st;
        Ret (rc, ops ++ ops', st)
  end.

Definition dialog_update_db (now ticks : Z) (use_ok : bool) (op_ok : Z -> bool) (st : dlg_st)
  : res (list db_op * dlg_st) :=
  if use_ok then
    '(_, ops, st) ← save_chain now ticks op_ok (concat (map dlgs (entries st))) st;
    Ret (ops, st)
  else Ret ([], st).

(** ** Loading *)

(** What one row obtains from the allocator: the address of the cell, and whether
    each of the two allocations of the two legs succeeds. *)
Record row_mem : Type := RowMem { cell_at : option Z; leg1_ok : bool * bool; leg2_ok : bool * bool }.

Section Load.
Context (grep_sock : Z -> Z) (now ticks : Z).

(** A null column reads as the empty name. *)
Definition create_socket_info (v : option Z) : Z := match v with Some s => grep_sock s | None => 0 end.

(** [tl.timeout] as restored, before the cell is queued. *)
Definition load_timeout (v : Z) : Z :=
  let t := u32 (u32 v + ticks) in
  if t <=? u32 now then 0 else u32 (t - u32 now).

(** The columns that may not be null once the dialog is linked. *)
Definition leg_columns (r : db_row) : option (bytes * bytes * bytes * bytes * bytes) :=
  to_tag ← c_to_tag r;
  cseq1 ← c_from_cseq r; cseq2 ← c_to_cseq r;
  contact1 ← c_from_contact r; contact2 ← c_to_contact r;
  Some (c_string to_tag, c_string cseq1, c_string cseq2, c_string contact1, c_string contact2).

(** What is restored between the link and the leg columns: the id of the row, and
    [next_id] of the entry raised to it; nothing more when the to tag is missing. *)
Definition restore_id (p id : Z) (st : dlg_st) : res dlg_st :=
  c ← get_cell p st;
  st ← upd_cell (set_h_id id) p st;
  en ← get_entry (h_entry c) st;
  Ret (set_entry (h_entry c) (Entry (dlgs en) (if next_id en <? id then id else next_id en)) st).

Definition restore_times (p start state timeout : Z) (st : dlg_st) : res dlg_st :=
  st ← upd_cell (fun c => set_state state (set_start_ts start c)) p st;
  h ← DlgTimer.store_timeout p (load_timeout timeout) (tls st);
  '(_, h) ← DlgTimer.insert_dlg_timer ticks p (s32 (load_timeout timeout)) h;
  Ret (set_tls h st).

(** One row: [None] aborts the loading. *)
Definition load_row (r : db_row) (m : row_mem) (st : dlg_st) : res (option dlg_st) :=
  match c_entry r, c_id r, c_start r, c_state r with
  | Some entry, Some id, Some start, Some s =>
      match c_callid r, c_from_uri r, c_from_tag r, c_to_uri r with
      | Some clid, Some furi, Some ftag, Some turi =>
          let ftag := c_string ftag in
          match build_new_dlg (cell_at m) (c_string clid) (c_string furi) (c_string turi) ftag st with
          | (None, _) => Ret None
          | (Some p, st') =>
              c ← get_cell p st';
              if negb (h_entry c =? u32 entry) then Ret None
              else
                st ← link_dlg p 0 st';
                st ← restore_id p (u32 id) st;
                match c_to_tag r with
                | None => st ← unref_dlg p 1 st; Ret (Some st)
                | Some _ =>
                    st ← restore_times p (u32 start) (u32 s) (default 0 (c_timeout r)) st;
                    match leg_columns r with
                    | None => st ← unref_dlg p 1 st; Ret (Some st)
                    | Some (ttag, cseq1, cseq2, contact1, contact2) =>
                        '(rc, st) ← dlg_set_leg_info (leg1_ok m) p ftag
                           (c_string (default [] (c_from_route r))) contact1 cseq1 DLG_CALLER_LEG st;
                        '(rc, st) ← (if negb (rc =? 0) then Ret (rc, st) else
                          dlg_set_leg_info (leg2_ok m) p ttag
                            (c_string (default [] (c_to_route r))) contact2 cseq2 DLG_CALLEE_LEG st);
                        if negb (rc =? 0) then st ← unref_dlg p 1 st; Ret (Some st)
                        else
                          st ← upd_cell (fun c =>
                            set_flags 0 (set_lifetime 0 (set_bind_addr
                              (Legs (create_socket_info (c_from_sock r))
                                    (create_socket_info (c_to_sock r))) c))) p st;
                          Ret (Some st)
                    end
                end
          end
      | _, _, _, _ => Ret (Some st)
      end
  | _, _, _, _ => Ret (Some st)
  end.

Fixpoint load_rows (rows : list (db_row * row_mem)) (st : dlg_st) : res (Z * dlg_st) :=
  match rows with
  | [] => Ret (0, st)
  | (r, m) :: rows' =>
      o ← load_row r m st;
      match o with
      | None => Ret (-1, st)
      | Some st => load_rows rows' st
      end
  end.

(** [query_ok]: the whole table could be selected; otherwise nothing is loaded and
    the result is still 0. *)
Definition load_dialog_info_from_db (query_ok : bool) (rows : list (db_row * row_mem)) (st : dlg_st)
  : res (Z * dlg_st) :=
  if query_ok then load_rows rows st else Ret (0, st).

End Load.

(** ** Restoring a dialog *)

Lemma restore_id_ok st l p c id :
  tab_ok st l -> cells st !! p = Some c ->
  exists en, entries st !! Z.to_nat (h_entry c) = Some en /\
    let st' := St (<[p := set_h_id id c]> (cells st)) (tls st)
                  (<[Z.to_nat (h_entry c) := Entry (dlgs en) (Z.max (next_id en) id)]> (entries st)) in
    restore_id p id st = Ret st' /\ tab_ok st' l.
Proof.
  intros OK Hc. destruct (get_entry_ok st l p c OK Hc) as (en & Ee & Le).
  destruct (tab_cell _ _ OK p c Hc) as (N & _). exists en. split; [done|]. cbv zeta. split.
  - unfold restore_id. rewrite (get_cell_ok st l p c) by done. run.
    rewrite (upd_cell_at _ p st c) by done. run. unfold get_entry in *. simpl.
    rewrite Le. run. unfold set_entry, put. simpl. do 3 f_equal. f_equal.
    destruct (Z.ltb_spec (next_id en) id); lia.
  - pose proof (put_ok st l p c (set_h_id id c) OK Hc eq_refl) as OK1. constructor; simpl.
    + apply OK1.
    + intros q d Hd. unfold size. simpl. rewrite length_insert. by apply (tab_cell _ _ OK1).
    + apply (tab_queued _ _ OK1).
    + intros i e q. rewrite list_lookup_insert. case_decide as Hi; [|by apply (tab_linked _ _ OK1)].
      intros [= <-]. destruct Hi as [<- _]. by apply (tab_linked _ _ OK1 _ en).
Qed.

(** Writing the timer cell of a dialog that is not queued. *)
Lemma set_idle_ok st l p c tl :
  tab_ok st l -> cells st !! p = Some c -> ~ In p l -> DlgTimer.prev tl = 0 ->
  tab_ok (set_tls (<[p := tl]> (tls st)) st) l.
Proof.
  intros OK Hc Nq Hp. destruct (tab_cell _ _ OK p c Hc) as (N & Nf & _). constructor; simpl.
  - eapply DlgTimer.timer_ok_ext; [apply OK|]. intros x [<-|Hx]; rewrite lookup_insert_ne; try done.
    by intros ->.
  - intros q d Hd. destruct (tab_cell _ _ OK q d Hd) as (? & ? & A & T & ?).
    split; [done|]. split; [done|]. unfold DlgTimer.tl_ok, DlgTimer.prev_of in *. rewrite lookup_insert.
    case_decide; [|done]. subst. split; [done|]. split; [|done]. right. simpl. by rewrite Hp.
  - apply (tab_queued _ _ OK).
  - apply (tab_linked _ _ OK).
Qed.

Lemma restore_times_ok st l p c now ticks start s t :
  tab_ok st l -> cells st !! p = Some c -> tls st !! p = Some (DlgTimer.Tl 0 0 0) ->
  exists h' l', restore_times now ticks p start s t st =
      Ret (St (<[p := set_state s (set_start_ts start c)]> (cells st)) h' (entries st)) /\
    tab_ok (St (<[p := set_state s (set_start_ts start c)]> (cells st)) h' (entries st)) l' /\
    DlgTimer.timeout_of h' p = u32 (ticks + s32 (load_timeout now ticks t)).
Proof.
  intros OK Hc Ht. destruct (tab_cell _ _ OK p c Hc) as (N & Nf & _).
  unfold restore_times. rewrite (upd_cell_at _ p st c) by done. run.
  set (c1 := set_state s (set_start_ts start c)). set (v := load_timeout now ticks t).
  pose proof (put_ok st l p c c1 OK Hc eq_refl) as OK1. set (st1 := put p c1 st) in *.
  unfold DlgTimer.store_timeout. rewrite DlgTimer.store_ok by (split; [done|]; simpl; by rewrite Ht).
  run. simpl tls. set (h := alter _ p (tls st)).
  assert (Eh : h = <[p := DlgTimer.Tl 0 0 v]> (tls st)).
  { unfold h. apply map_eq. intros q. rewrite lookup_alter, lookup_insert. case_decide; [|done].
    subst. by rewrite Ht. }
  assert (Nq : ~ In p l).
  { intros Hin. assert (Hi : DlgTimer.idle (tls st) p).
    { split; unfold DlgTimer.next_of, DlgTimer.prev_of; by rewrite Ht. }
    by apply (DlgTimer.not_queued (tls st) l p (tab_timer _ _ OK) (proj2 Hi)). }
  pose proof (set_idle_ok st1 l p c1 (DlgTimer.Tl 0 0 v) OK1 (put_lookup p c1 st) Nq eq_refl) as OK2.
  change (tls st1) with (tls st) in OK2. rewrite <- Eh in OK2. set (st2 := set_tls h st1) in *.
  assert (Hi : DlgTimer.idle h p).
  { rewrite Eh. split; unfold DlgTimer.next_of, DlgTimer.prev_of; by rewrite lookup_insert_eq. }
  destruct (DlgTimer.insert_dlg_timer_idle h l p ticks (s32 v) (tab_timer _ _ OK2) Nf N Hi)
    as (h' & E & _ & Et & _).
  destruct (tab_cell _ _ OK2 p c1 (put_lookup p c1 st)) as (_ & _ & A & T & _).
  pose proof (DlgTimer.insert_dlg_timer_total h l p ticks (s32 v) (tab_timer _ _ OK2) N Nf A T) as St2.
  destruct (tab_ok_timer st2 l p c1 _ OK2 (put_lookup p c1 st) St2) as ([rc h2] & E2 & l' & OK3).
  rewrite E in E2. injection E2 as <- <-. exists h', l'. rewrite E. run. split; [done|].
  split; [done|]. rewrite Et. unfold DlgTimer.set_time. by rewrite decide_True.
Qed.

(** A dialog whose row can be read back: its strings have no NUL, the columns that
    may not be null are not empty, it hashes to its entry, and its sockets are still
    local. *)
Record storable (grep_sock : Z -> Z) (n : Z) (c : dlg_cell) : Prop := {
  s_entry : h_entry c = core_hash (callid c) (opt_tag (caller (tag c))) n;
  s_id : 0 <= h_id c < 2 ^ 32;
  s_state : 0 <= state c < 2 ^ 32;
  s_start : 0 <= start_ts c < 2 ^ 32;
  s_strings : forall s, In s [callid c; from_uri c; to_uri c; caller (tag c); callee (tag c);
      cstr_bytes (caller (cseq c)); cstr_bytes (callee (cseq c)); caller (route_set c);
      callee (route_set c); caller (contact c); callee (contact c)] -> ~ In 0 s;
  s_filled : callee (tag c) <> [] /\ caller (contact c) <> [] /\ callee (contact c) <> [];
  s_socks : grep_sock (caller (bind_addr c)) = caller (bind_addr c) /\
            grep_sock (callee (bind_addr c)) = callee (bind_addr c)
}.

(** The dialog as restored: only the lifetime, the flags and the number of records of
    the request are lost, and the table holds the one reference. *)
Definition restored (c : dlg_cell) : dlg_cell :=
  let cs l := cstr_bytes (leg_get (cseq c) l) in
  let str l := CStr (Some (cs l)) (Z.of_nat (length (cs l))) in
  Cell 1 (h_id c) (h_entry c) (state c) 0 (start_ts c) 0 0 (callid c) (from_uri c) (to_uri c)
    (tag c) (Legs (str DLG_CALLER_LEG) (str DLG_CALLEE_LEG)) (route_set c) (contact c) (bind_addr c)
    (Legs (false, false) (false, false)).

Lemma proper_null_some s : s <> [] -> proper_null s = Some s.
Proof. by destruct s. Qed.

Lemma proper_null_default s : default [] (proper_null s) = s.
Proof. by destruct s. Qed.

Lemma set_leg_info_at p tg rr ct cs l st c :
  p <> 0 -> cells st !! p = Some c ->
  exists c', dlg_set_leg_info (true, true) p tg rr ct cs l st = Ret (0, put p c' st) /\
    c' = Cell (ref c) (h_id c) (h_entry c) (state c) (lifetime c) (start_ts c) (flags c)
           (from_rr_nb c) (callid c) (from_uri c) (to_uri c) (leg_set (tag c) l tg)
           (leg_set (cseq c) l (CStr (Some cs) (Z.of_nat (length cs))))
           (match rr with [] => route_set c | _ => leg_set (route_set c) l rr end)
           (leg_set (contact c) l ct) (bind_addr c) (leg_set (dangling c) l (false, false)).
Proof.
  intros N Hc. eexists. split; [|done]. unfold dlg_set_leg_info.
  by rewrite (upd_cell_at _ p st c) by done.
Qed.

Section RoundTrip.
Context (grep_sock : Z -> Z) (st : dlg_st) (l : list Z) (OK : tab_ok st l)
  (Sz : 0 < size st <= 2 ^ 32) (p : Z) (F : fresh p st)
  (c : dlg_cell) (Sc : storable grep_sock (size st) c).

(** The leg columns of a saved dialog, and its sockets. *)
Definition saved_row now ticks tl : db_row := {|
    c_entry := Some (h_entry c); c_id := Some (h_id c);
    c_callid := Some (callid c); c_from_uri := Some (from_uri c);
    c_from_tag := Some (caller (tag c)); c_to_uri := Some (to_uri c);
    c_to_tag := Some (callee (tag c));
    c_start := Some (start_ts c); c_state := Some (state c);
    c_timeout := Some (db_timeout now ticks (DlgTimer.timeout tl));
    c_from_cseq := Some (cstr_bytes (caller (cseq c)));
    c_to_cseq := Some (cstr_bytes (callee (cseq c)));
    c_from_route := proper_null (caller (route_set c));
    c_to_route := proper_null (callee (route_set c));
    c_from_contact := Some (caller (contact c));
    c_to_contact := Some (callee (contact c));
    c_from_sock := Some (caller (bind_addr c)); c_to_sock := Some (callee (bind_addr c)) |}.

Lemma insert_row_saved now ticks tl r : insert_row now ticks c tl = Ret r -> r = saved_row now ticks tl.
Proof.
  destruct (s_filled _ _ _ Sc) as (F1 & F2 & F3). unfold insert_row.
  destruct (_ || _); [done|]. intros [= <-].
  by rewrite (proper_null_some (callee (tag c))), (proper_null_some (caller (contact c))),
    (proper_null_some (callee (contact c))).
Qed.

Lemma saved_legs now ticks tl :
  leg_columns (saved_row now ticks tl) =
  Some (callee (tag c), cstr_bytes (caller (cseq c)), cstr_bytes (callee (cseq c)),
        caller (contact c), callee (contact c)).
Proof.
  unfold leg_columns, saved_row. simpl.
  by rewrite !c_string_id by (apply (s_strings _ _ _ Sc); simpl; tauto).
Qed.

(** The cell while it is being restored. *)
Definition linked_cell (id : Z) : dlg_cell :=
  Cell 1 id (h_entry c) DLG_STATE_UNCONFIRMED 0 0 0 0 (callid c) (from_uri c) (to_uri c)
    (Legs [] []) (Legs (CStr None 0) (CStr None 0)) (Legs [] []) (Legs [] []) (Legs 0 0)
    (Legs (false, false) (false, false)).

(** The two legs, the sockets and the flags. *)
Lemma load_legs st1 l1 :
  tab_ok st1 l1 -> cells st1 !! p = Some (set_state (state c) (set_start_ts (start_ts c) (linked_cell (h_id c)))) ->
  ('(rc, st) ← dlg_set_leg_info (true, true) p (caller (tag c)) (caller (route_set c)) (caller (contact c))
      (cstr_bytes (caller (cseq c))) DLG_CALLER_LEG st1;
   '(rc, st) ← (if negb (rc =? 0) then Ret (rc, st) else
      dlg_set_leg_info (true, true) p (callee (tag c)) (callee (route_set c)) (callee (contact c))
        (cstr_bytes (callee (cseq c))) DLG_CALLEE_LEG st);
   if negb (rc =? 0) then st ← unref_dlg p 1 st; Ret (Some st)
   else
     st ← upd_cell (fun c0 => set_flags 0 (set_lifetime 0 (set_bind_addr
        (Legs (caller (bind_addr c)) (callee (bind_addr c))) c0))) p st;
     Ret (Some st)) = Ret (Some (put p (restored c) st1)).
Proof.
  intros OK1 Hc. destruct F as (N & _).
  destruct (set_leg_info_at p (caller (tag c)) (caller (route_set c)) (caller (contact c))
    (cstr_bytes (caller (cseq c))) DLG_CALLER_LEG st1 _ N Hc) as (c1 & -> & E1). run. cbn [Z.eqb negb].
  destruct (set_leg_info_at p (callee (tag c)) (callee (route_set c)) (callee (contact c))
    (cstr_bytes (callee (cseq c))) DLG_CALLEE_LEG (put p c1 st1) c1 N (put_lookup p c1 st1)) as (c2 & -> & E2).
  run. cbn [Z.eqb negb]. rewrite (upd_cell_at _ p _ c2) by (done || apply put_lookup). run.
  rewrite !put_put. do 3 f_equal. subst c1 c2. unfold restored. simpl.
  destruct (tag c), (contact c), (bind_addr c), (route_set c) as [ra rb]. simpl.
  destruct ra, rb; done.
Qed.

Lemma load_saved now ticks tl r now' ticks' :
  insert_row now ticks c tl = Ret r ->
  exists st' l', load_row grep_sock now' ticks' r (RowMem (Some p) (true, true) (true, true)) st = Ret (Some st') /\
    tab_ok st' l' /\ cells st' = <[p := restored c]> (cells st) /\
    DlgTimer.timeout_of (tls st') p =
      u32 (ticks' + s32 (load_timeout now' ticks' (db_timeout now ticks (DlgTimer.timeout tl)))).
Proof.
  intros Hr. apply insert_row_saved in Hr as ->. pose proof F as (N & Nf & Ef).
  destruct Sc as [Se Si Ss Sst Sn _ [K1 K2]].
  unfold load_row. cbn [c_entry c_id c_start c_state c_callid c_from_uri c_from_tag c_to_uri cell_at
    build_new_dlg saved_row leg1_ok leg2_ok c_to_tag c_timeout default id].
  fold (saved_row now ticks tl). rewrite saved_legs.
  rewrite (c_string_id (callid c)), (c_string_id (from_uri c)), (c_string_id (to_uri c)),
    (c_string_id (caller (tag c))) by (apply Sn; simpl; tauto).
  pose proof (hash_words_range (fun x => x) (callid c) (opt_tag (caller (tag c))) (size st) Sz) as Hh.
  fold (core_hash (callid c) (opt_tag (caller (tag c))) (size st)) in Hh. rewrite <- Se in Hh.
  fold (opt_tag (caller (tag c))). rewrite <- Se.
  set (c0 := {| ref := 0 |}). change (St (<[p:=c0]> _) _ _) with (add_cell p c0 st).
  unfold get_cell at 1. rewrite (proj2 (Z.eqb_neq p 0) N). simpl cells at 1. rewrite lookup_insert_eq. run.
  rewrite (u32_small (h_entry c)) by lia.
  rewrite (u32_small (h_id c)), (u32_small (start_ts c)), (u32_small (state c)) by done. simpl h_entry at 1. rewrite Z.eqb_refl. cbn [negb].
  destruct (link_new p st F l c0 0 OK Hh) as (en & Le & -> & OK1). run.
  change (set_ref _ (set_h_id (next_id en) c0)) with (linked_cell (next_id en)) in *.
  match type of OK1 with tab_ok ?s _ => set (st1 := s) in * end.
  destruct (restore_id_ok st1 l p (linked_cell (next_id en)) (h_id c) OK1) as (en1 & Le1 & -> & OK2);
    [apply lookup_insert_eq|]. run.
  change (set_h_id (h_id c) (linked_cell (next_id en))) with (linked_cell (h_id c)) in *.
  match type of OK2 with tab_ok ?s _ => set (st2 := s) in * end.
  destruct (restore_times_ok st2 l p (linked_cell (h_id c)) now' ticks' (start_ts c) (state c)
    (db_timeout now ticks (DlgTimer.timeout tl)) OK2) as (h' & l' & -> & OK3 & Et);
    [apply lookup_insert_eq|apply lookup_insert_eq|]. run.
  match type of OK3 with tab_ok ?s _ => set (st3 := s) in * end.
  cbn [c_from_route c_to_route saved_row c_from_sock c_to_sock create_socket_info].
  rewrite !proper_null_default, K1, K2.
  rewrite (c_string_id (caller (route_set c))), (c_string_id (callee (route_set c))) by (apply Sn; simpl; tauto).
  rewrite (load_legs st3 l' OK3) by apply lookup_insert_eq.
  eexists _, l'. split; [done|]. split; [|split; [|exact Et]].
  - by eapply put_ok; [exact OK3|apply lookup_insert_eq|].
  - simpl. by rewrite !insert_insert_eq.
Qed.

End RoundTrip.

(** Reloaded when no tick has passed, the dialog expires when it would have. *)
Lemma restored_timeout now ticks t now' :
  0 <= now < 2 ^ 32 -> 0 <= now' < 2 ^ 32 -> 0 <= now + t - ticks < 2 ^ 32 ->
  now + t - ticks - now' < 2 ^ 31 ->
  u32 (0 + s32 (load_timeout now' 0 (db_timeout now ticks t))) = Z.max 0 (now + t - ticks - now').
Proof.
  intros Hn Hn' He Hd. unfold load_timeout, db_timeout.
  rewrite (u32_small now), (u32_small now') by lia.
  rewrite (u32_small (now + t - ticks)) by lia. rewrite (u32_small (now + t - ticks)) by lia.
  rewrite Z.add_0_r, (u32_small (now + t - ticks)) by lia.
  destruct (Z.leb_spec (now + t - ticks) now').
  - rewrite s32_small, u32_small by lia. lia.
  - rewrite (u32_small (now + t - ticks - now')) by lia. rewrite s32_small, u32_small by lia. lia.
Qed.

(** ** Main results *)

(** C37: a dialog saved by an insert and read back into a table of the same size,
    before the first tick, is restored with its id, entry, state, tags, CSeqs, routes,
    contacts and sockets, is queued to expire at the same time, and leaves the table
    well formed. *)
Theorem save_load_roundtrip grep_sock st l p c now ticks tl r now' :
  tab_ok st l -> 0 < size st <= 2 ^ 32 -> fresh p st -> storable grep_sock (size st) c ->
  let expiry := now + DlgTimer.timeout tl - ticks in
  0 <= now < 2 ^ 32 -> 0 <= now' < 2 ^ 32 -> 0 <= expiry < 2 ^ 32 -> expiry - now' < 2 ^ 31 ->
  insert_row now ticks c tl = Ret r ->
  exists st' l', load_row grep_sock now' 0 r (RowMem (Some p) (true, true) (true, true)) st = Ret (Some st') /\
    tab_ok st' l' /\ cells st' = <[p := restored c]> (cells st) /\
    DlgTimer.timeout_of (tls st') p = Z.max 0 (expiry - now').
Proof.
  intros OK Sz F Sc expiry Hn Hn' He Hd Hr.
  destruct (load_saved grep_sock st l OK Sz p F c Sc now ticks tl r now' 0 Hr)
    as (st' & l' & E & OK' & C & T).
  exists st', l'. split; [done|]. split; [done|]. split; [done|]. rewrite T. by apply restored_timeout.
Qed.

(** A dialog to save, and the table it is read into. *)
Definition saved_cell : dlg_cell :=
  Cell 2 7 0 DLG_STATE_CONFIRMED 60 1000 3 0 (B "id") (B "sip:a") (B "sip:b") (Legs (B "x") (B "y"))
    (Legs (CStr (Some (B "12")) 2) (CStr (Some (B "1")) 1)) (Legs [] (B "<sip:r>"))
    (Legs (B "sip:a@h") (B "sip:b@h")) (Legs 3 4) (Legs (false, false) (false, false)).
Definition empty_table : dlg_st := St ∅ (DlgTimer.init_dlg_timer ∅) (init_dlg_table [5]).

Lemma empty_table_ok : tab_ok empty_table [].
Proof.
  constructor; simpl; [apply DlgTimer.init_dlg_timer_ok|done|done|].
  intros [|i] en p; [|done]. by intros [= <-].
Qed.

Lemma saved_cell_storable : storable (fun s => s) 1 saved_cell.
Proof.
  constructor; try done. intros s. simpl. intros Hs.
  repeat (destruct Hs as [<-|Hs]; [vm_compute; intuition congruence|]). done.
Qed.

Lemma save_load_roundtrip_witness :
  match insert_row 1000 100 saved_cell (DlgTimer.Tl 1 1 160) with
  | Ret r => exists st', load_row (fun s => s) 1010 0 r (RowMem (Some 64) (true, true) (true, true)) empty_table = Ret (Some st') /\
      cells st' !! 64 = Some (restored saved_cell) /\ DlgTimer.timeout_of (tls st') 64 = 50
  | Fault _ => False
  end.
Proof.
  destruct (insert_row 1000 100 saved_cell (DlgTimer.Tl 1 1 160)) as [r|] eqn:Er; [|by vm_compute in Er].
  destruct (save_load_roundtrip (fun s => s) empty_table [] 64 saved_cell 1000 100
    (DlgTimer.Tl 1 1 160) r 1010 empty_table_ok) as (st' & l' & E & _ & C & T).
  - vm_compute. split; congruence.
  - by split; [|split].
  - exact saved_cell_storable.
  - lia.
  - lia.
  - simpl. lia.
  - simpl. lia.
  - exact Er.
  - exists st'. split; [exact E|]. split; [rewrite C; apply lookup_insert_eq|exact T].
Defined.

(** After a dialog with an id not below [next_id] was reloaded, the next dialog
    linked to the same entry is given the same id: [next_id] is raised to the id of the
    row and not past it. *)
Theorem reload_reuses_id st l p c id en q c' n :
  tab_ok st l -> cells st !! p = Some c -> entries st !! Z.to_nat (h_entry c) = Some en ->
  next_id en <= id -> fresh q st -> h_entry c' = h_entry c ->
  exists st1 st2, restore_id p id st = Ret st1 /\ link_dlg q n (add_cell q c' st1) = Ret st2 /\
    (h_id <$> cells st2 !! p) = Some id /\ (h_id <$> cells st2 !! q) = Some id.
Proof.
  intros OK Hc Le Hid F He. destruct (restore_id_ok st l p c id OK Hc) as (en' & Le' & E1 & OK1).
  rewrite Le in Le'. injection Le' as <-. destruct (tab_cell _ _ OK p c Hc) as (_ & _ & _ & _ & R).
  pose proof F as (N & Nf & Ef). assert (Nq : q <> p) by congruence.
  match type of OK1 with tab_ok ?s _ => set (st1 := s) in * end. exists st1.
  assert (F1 : fresh q st1) by (split; [done|]; split; [done|]; simpl; by rewrite lookup_insert_ne).
  destruct (link_new q st1 F1 l c' n OK1) as (en2 & Le2 & E2 & _).
  { rewrite He. unfold size, st1. simpl. rewrite length_insert. exact R. }
  eexists. split; [exact E1|]. split; [exact E2|]. simpl.
  rewrite He in Le2. unfold st1 in Le2. simpl in Le2.
  rewrite list_lookup_insert_eq in Le2 by (by eapply lookup_lt_Some). injection Le2 as <-. split.
  - by rewrite lookup_insert_ne, lookup_insert_eq by done.
  - rewrite lookup_insert_eq. simpl. f_equal. lia.
Qed.

Lemma reload_reuses_id_witness :
  exists st1 st2, restore_id 16 9 sample_table = Ret st1 /\
    link_dlg 32 1 (add_cell 32 sample_cell st1) = Ret st2 /\ (h_id <$> cells st2 !! 32) = Some 9.
Proof.
  destruct (reload_reuses_id sample_table [] 16 sample_cell 9 (Entry [16] 8) 32 sample_cell 1)
    as (st1 & st2 & E1 & E2 & _ & I2).
  - apply sample_table_ok.
  - done.
  - done.
  - simpl. lia.
  - by split; [|split].
  - done.
  - by exists st1, st2.
Defined.

End DlgDb.
