(* ===== verification/DlgHandlers.v ===== *)
(** * Dialog handlers: [src/modules/dialog/dlg_handlers.c]

    The entry points of the dialog module: the request callback that creates a
    dialog, the transaction callback that follows its replies, the Record-Route
    callback that matches in-dialog requests, and the timer handler; with
    [print_rr_body] of [src/parser/parse_rr.c], which builds the route sets.

    A message is the record of what the SIP parser extracted from it ([None] for a
    header that is missing or does not parse).  Functions of other modules that the
    handlers call appear as their outcome in [env] (memory, database, [rr], [tm])
    or as an entry of the log (the dialog callbacks, database operations). *)

From Stdlib Require Import ZArith Lia List String Ascii Bool.
From stdpp Require Import base tactics option list gmap sets.
From S2P Require Import Prelude Ut HashFunc DlgTimer DlgHash DlgDb.

Module DlgHandlers.
Import Ut DlgHash DlgDb.

(** ** [print_rr_body] *)

Definition MAX_RR_HDRS : Z := 64.

(** Whether the first loop counts record [i]: [order = 0] keeps [i >= nb], otherwise
    [i <= n - nb], on unsigned words. *)
Definition rr_counted (reverse : bool) (n nb i : Z) : bool :=
  if reverse then i <=? u32 (n - nb) else nb <=? i.

(** Bytes asked from [pkg_malloc]: the counted records and [nr - 1] commas. *)
Fixpoint rr_kept (reverse : bool) (n nb i : Z) (routes : list bytes) : list bytes :=
  match routes with
  | [] => []
  | r :: rs =>
      if rr_counted reverse n nb i then r :: rr_kept reverse n nb (i + 1) rs
      else rr_kept reverse n nb (i + 1) rs
  end.

Definition sum_len (l : list bytes) : Z :=
  fold_right Z.add 0 (map (fun r : bytes => Z.of_nat (length r)) l).

Definition rr_alloc_len (reverse : bool) (routes : list bytes) (nb : Z) : Z :=
  let kept := rr_kept reverse (Z.of_nat (length routes)) nb 0 routes in
  sum_len kept + (Z.of_nat (length kept) - 1).

(** The copy loops: records separated by commas. *)
Fixpoint comma_join (l : list bytes) : bytes :=
  match l with
  | [] => []
  | [r] => r
  | r :: l' => r ++ [§","] ++ comma_join l'
  end.

(** The records written, in the order written: forward from [nb], or backward from
    [n - nb - 1] (an [int], so nothing when [nb >= n]). *)
Definition rr_written (reverse : bool) (routes : list bytes) (nb : Z) : list bytes :=
  if reverse then rev (take (length routes - Z.to_nat nb) routes)
  else drop (Z.to_nat nb) routes.

(** Result: the route set and the new [*nb_recs], the number of records.  [mem] is
    the outcome of [pkg_malloc], which fails on a negative (huge) size. *)
Definition print_rr_body (mem : bool) (routes : list bytes) (reverse : bool) (nb : Z)
  : option (bytes * Z) :=
  let n := Z.of_nat (length routes) in
  if MAX_RR_HDRS <=? n then None
  else if negb mem || (rr_alloc_len reverse routes nb <? 0) then None
  else Some (comma_join (rr_written reverse routes nb), n).

(** ** Messages and environment *)

Record sip_msg : Type := Msg {
  m_to : option (bytes * bytes);      (** URI and tag of To *)
  m_from : option (bytes * bytes);    (** URI and tag of From *)
  m_callid : option bytes;            (** body of Call-ID *)
  m_cseq : option bytes;              (** number of CSeq *)
  m_contact : option bytes;           (** URI of the only contact *)
  m_rr : option (list bytes);         (** Record-Route entries, [[]] if absent *)
  m_method : Z;
  m_flags : Z;
  m_id : Z;
  m_bind : Z;                         (** receiving socket *)
  m_timeout : option Z;               (** integer value of the timeout AVP *)
  m_route_param : option (bytes * Z)  (** our Route parameter, and the byte after it *)
}.

Definition METHOD_CANCEL : Z := 2.
Definition METHOD_ACK : Z := 4.
Definition METHOD_BYE : Z := 8.
Definition METHOD_PRACK : Z := 2048.

(** The part of the transaction ([struct cell]) the handlers read. *)
Record tcell : Type := TCell { relaied_reply_branch : Z; added_rr : list Z }.

Inductive seq_match : Set := SEQ_MATCH_STRICT_ID | SEQ_MATCH_FALLBACK | SEQ_MATCH_NO_ID.

#[export] Instance seq_match_eq_dec : EqDecision seq_match.
Proof. solve_decision. Defined.

(** The module's configuration ([init_dlg_handlers]). *)
Record config : Type := Config {
  rr_param : bytes;
  dlg_flag : Z;
  default_timeout : Z;
  seq_match_mode : seq_match;
  dlg_db_mode : db_mode;
  dlg_enable_stats : bool
}.

(** What the code obtains from outside during one call. *)
Record env : Type := Env {
  ticks : Z;                 (** [get_ticks()] *)
  now : Z;                   (** [time(0)] *)
  shm_dlg : option Z;        (** address from [shm_malloc] for a new cell *)
  shm_leg : bool * bool;     (** the two [shm_malloc] of [dlg_set_leg_info] succeed *)
  shm_ok : bool;             (** the other [shm_malloc] calls succeed *)
  pkg_ok : bool;             (** [pkg_malloc] succeeds *)
  db_use_ok : bool;          (** [use_dialog_table] succeeds *)
  db_ok : bool;              (** the database operation succeeds *)
  add_rr_ok : bool;          (** [add_rr_param] of the rr module succeeds *)
  tmcb_ok : bool;            (** [register_tmcb] of the tm module succeeds *)
  stack_unref : Z;           (** content of the uninitialised local [unref] *)
  shutdown_done : bool       (** set by [destroy_dlg_handlers] *)
}.

Inductive ev : Type :=
| Callback (type dlg : Z)
| Db (op : db_op)
| RouteParam (s : bytes).

Definition DLGCB_CREATED : Z := 1.
Definition DLGCB_FAILED : Z := 2.
Definition DLGCB_CONFIRMED : Z := 4.
Definition DLGCB_REQ_WITHIN : Z := 8.
Definition DLGCB_TERMINATED : Z := 16.
Definition DLGCB_EXPIRED : Z := 32.
Definition DLGCB_EARLY : Z := 64.
Definition DLGCB_RESPONSE_FWDED : Z := 128.

Record stats : Type := Stats {
  processed_dlgs : Z; active_dlgs : Z; early_dlgs : Z; expired_dlgs : Z; failed_dlgs : Z
}.

(** The module's state: the table, the dialogs whose transaction still has
    [dlg_onreply] registered, the statistics, the log, and the dialog id, lifetime
    and status of the message being processed. *)
Record hst : Type := H {
  tab : dlg_st;
  tmcbs : gset Z;
  sts : stats;
  log : list ev;
  curr : Z * Z * Z
}.

Definition with_tab (st : dlg_st) (h : hst) : hst := H st (tmcbs h) (sts h) (log h) (curr h).
Definition with_sts (s : stats) (h : hst) : hst := H (tab h) (tmcbs h) s (log h) (curr h).
Definition say (e : ev) (h : hst) : hst := H (tab h) (tmcbs h) (sts h) (log h ++ [e]) (curr h).
Definition run_dlg_callbacks (type p : Z) (h : hst) : hst := say (Callback type p) h.

(** Runs a table operation. *)
Definition on_tab (f : dlg_st -> res dlg_st) (h : hst) : res hst :=
  st ← f (tab h); Ret (with_tab st h).

Definition on_cell (f : dlg_cell -> dlg_cell) (p : Z) (h : hst) : res hst := on_tab (upd_cell f p) h.

(** Runs a database operation on a dialog; its return code is ignored by the callers. *)
Definition on_db (f : dlg_st -> res (Z * list db_op * dlg_st)) (h : hst) : res hst :=
  '(_, ops, st) ← f (tab h);
  Ret (H st (tmcbs h) (sts h) (log h ++ map Db ops) (curr h)).

Definition db_update (e : env) (p : Z) : hst -> res hst :=
  on_db (update_dialog_dbinfo (now e) (ticks e) (db_use_ok e) (db_ok e) p).
Definition db_remove (e : env) (p : Z) : hst -> res hst :=
  on_db (remove_dialog_from_db (db_use_ok e) (db_ok e) p).

(** The timer that saves all dialogs. *)
Definition save_all (now ticks : Z) (use_ok : bool) (op_ok : Z -> bool) (h : hst) : res hst :=
  '(ops, st) ← dialog_update_db now ticks use_ok op_ok (tab h);
  Ret (H st (tmcbs h) (sts h) (log h ++ map Db ops) (curr h)).

Definition add_stat (cfg : config) (f : stats -> stats) (h : hst) : hst :=
  if dlg_enable_stats cfg then with_sts (f (sts h)) h else h.

Definition add_processed (n : Z) (s : stats) : stats :=
  Stats (processed_dlgs s + n) (active_dlgs s) (early_dlgs s) (expired_dlgs s) (failed_dlgs s).
Definition add_active (n : Z) (s : stats) : stats :=
  Stats (processed_dlgs s) (active_dlgs s + n) (early_dlgs s) (expired_dlgs s) (failed_dlgs s).
Definition add_early (n : Z) (s : stats) : stats :=
  Stats (processed_dlgs s) (active_dlgs s) (early_dlgs s + n) (expired_dlgs s) (failed_dlgs s).
Definition add_expired (n : Z) (s : stats) : stats :=
  Stats (processed_dlgs s) (active_dlgs s) (early_dlgs s) (expired_dlgs s + n) (failed_dlgs s).
Definition add_failed (n : Z) (s : stats) : stats :=
  Stats (processed_dlgs s) (active_dlgs s) (early_dlgs s) (expired_dlgs s) (failed_dlgs s + n).

(** ** Record-Route parameter *)

(** [2*2*sizeof(int) + 3 + MAX_DLG_RR_PARAM_NAME] *)
Definition RR_DLG_PARAM_SIZE : Z := 51.
Definition DLG_SEPARATOR : Z := §".".

(** Return code and the parameter handed to the rr module; [entry] and [id] are
    passed where [int2reverse_hex] takes an [int]. *)
Definition add_dlg_rr_param (cfg : config) (e : env) (entry id : Z) : Z * option bytes :=
  let p0 := [§";"] ++ rr_param cfg ++ [§"="] in
  let n := RR_DLG_PARAM_SIZE - Z.of_nat (length p0) in
  let '(w1, _, rc1) := int2reverse_hex (Z.to_nat n) (s32 entry) in
  if rc1 =? -1 then (-1, None)
  else
    let p1 := p0 ++ w1 ++ [DLG_SEPARATOR] in
    let n := RR_DLG_PARAM_SIZE - Z.of_nat (length p1) in
    let '(w2, _, rc2) := int2reverse_hex (Z.to_nat n) (s32 id) in
    if rc2 =? -1 then (-1, None)
    else if add_rr_ok e then (0, Some (p1 ++ w2)) else (-1, Some (p1 ++ w2)).

(** The scan for the separator: the text before it and the text after, if found. *)
Fixpoint split_sep (s : bytes) : bytes * option bytes :=
  match s with
  | [] => ([], None)
  | c :: s' =>
      if c =? DLG_SEPARATOR then ([], Some s')
      else let '(a, b) := split_sep s' in (c :: a, b)
  end.

(** [nxt] is the byte at [end]: the code tests it when no separator comes before. *)
Definition parse_dlg_rr_param (val : bytes) (nxt : Z) : option (Z * Z) :=
  let '(a, b) := split_sep val in
  match b with
  | None =>
      if negb (nxt =? DLG_SEPARATOR) then None
      else
        let h_entry := reverse_hex2int a in
        if h_entry <? 0 then None else Some (h_entry, reverse_hex2int [])
  | Some b =>
      let h_entry := reverse_hex2int a in
      if h_entry <? 0 then None
      else
        let h_id := reverse_hex2int b in
        if h_id <? 0 then None else Some (h_entry, h_id)
  end.

(** ** Helpers of the handlers *)

Definition get_dlg_timeout (cfg : config) (m : sip_msg) : Z :=
  match m_timeout m with
  | Some v => if v >? 0 then v else default_timeout cfg
  | None => default_timeout cfg
  end.

(** [skip_recs] for the callee leg, as C parses the expression: the sum is the
    condition of the conditional operator. *)
Definition skip_recs_callee (from_rr_nb : Z) (t : tcell) : res Z :=
  let b := relaied_reply_branch t in
  if negb (u32 (from_rr_nb + (if b >=? 0 then 1 else 0)) =? 0) then
    if b <? 0 then Fault OutOfBounds
    else match added_rr t !! Z.to_nat b with Some r => Ret r | None => Fault OutOfBounds end
  else Ret 0.

(** Return code and state. *)
Definition populate_leg_info (e : env) (p : Z) (m : sip_msg) (t : tcell) (l : leg) (tg : bytes)
    (h : hst) : res (Z * hst) :=
  c ← get_cell p (tab h);
  let cs := match l with
            | DLG_CALLER_LEG => m_cseq m
            | DLG_CALLEE_LEG => Some (cstr_bytes (caller (cseq c)))
            end in
  match cs, m_contact m, m_rr m with
  | Some cs, Some ct, Some routes =>
      skip ← match l with
             | DLG_CALLER_LEG => Ret 0
             | DLG_CALLEE_LEG => skip_recs_callee (from_rr_nb c) t
             end;
      let r := match routes with
               | [] => Some ([], skip)
               | _ => print_rr_body (pkg_ok e) routes
                        (match l with DLG_CALLER_LEG => false | DLG_CALLEE_LEG => true end) skip
               end in
      match r with
      | None => Ret (-1, h)
      | Some (rr_set, skip) =>
          h ← match l with
              | DLG_CALLER_LEG => on_cell (set_from_rr_nb skip) p h
              | DLG_CALLEE_LEG => Ret h
              end;
          '(rc, st) ← dlg_set_leg_info (shm_leg e) p tg rr_set ct cs l (tab h);
          let h := with_tab st h in
          if negb (rc =? 0) then Ret (-1, h)
          else
            h ← on_cell (fun c => set_bind_addr (leg_set (bind_addr c) l (m_bind m)) c) p h;
            Ret (0, h)
      end
  | _, _, _ => Ret (-1, h)
  end.

(** ** The handlers *)

Inductive tmcb_type : Set := TMCB_RESPONSE_OUT | TMCB_TRANS_DELETED | TMCB_RESPONSE_FWDED.

Definition reply_event (type : tmcb_type) (code : Z) : dlg_event :=
  match type with
  | TMCB_TRANS_DELETED => DLG_EVENT_TDEL
  | _ =>
      if code <? 200 then DLG_EVENT_RPL1xx
      else if code <? 300 then DLG_EVENT_RPL2xx
      else DLG_EVENT_RPL3xx
  end.

(** What [dlg_onreply] does when the dialog is confirmed. *)
Definition on_confirmed (cfg : config) (e : env) (t : tcell) (p old : Z) (rpl : sip_msg) (h : hst)
  : res hst :=
  tg ← match m_to rpl with Some (_, tg) => Ret tg | None => Fault NullDeref end;
  '(_, h) ← populate_leg_info e p rpl t DLG_CALLEE_LEG tg h;
  h ← on_cell (set_start_ts (u32 (now e))) p h;
  h ← on_cell (fun c => set_flags (Z.lor (flags c) DLG_FLAG_NEW) c) p h;
  h ← (if decide (dlg_db_mode cfg = DB_MODE_REALTIME) then db_update e p h else Ret h);
  c ← get_cell p (tab h);
  '(_, tl) ← DlgTimer.insert_dlg_timer (ticks e) p (lifetime c) (tls (tab h));
  let h := with_tab (set_tls tl (tab h)) h in
  let h := run_dlg_callbacks DLGCB_CONFIRMED p h in
  let h := if old =? DLG_STATE_EARLY then add_stat cfg (add_early (-1)) h else h in
  Ret (add_stat cfg (add_active 1) h).

Definition dlg_onreply (cfg : config) (e : env) (t : tcell) (type : tmcb_type) (code : Z)
    (p : Z) (rpl : sip_msg) (h : hst) : res hst :=
  if shutdown_done e || (p =? 0) then Ret h else
  match type with
  | TMCB_RESPONSE_FWDED => Ret (run_dlg_callbacks DLGCB_RESPONSE_FWDED p h)
  | _ =>
      '(old, new, unref, st) ← next_state_dlg p (reply_event type code) (stack_unref e) (tab h);
      let h := with_tab st h in
      if new =? DLG_STATE_EARLY then
        let h := run_dlg_callbacks DLGCB_EARLY p h in
        Ret (if negb (old =? DLG_STATE_EARLY) then add_stat cfg (add_early 1) h else h)
      else if (new =? DLG_STATE_CONFIRMED_NA) && negb (old =? DLG_STATE_CONFIRMED_NA)
              && negb (old =? DLG_STATE_CONFIRMED) then
        on_confirmed cfg e t p old rpl h
      else if negb (old =? DLG_STATE_DELETED) && (new =? DLG_STATE_DELETED) then
        let h := run_dlg_callbacks DLGCB_FAILED p h in
        h ← (if negb (unref =? 0) then on_tab (unref_dlg p unref) h else Ret h);
        Ret (if old =? DLG_STATE_EARLY then add_stat cfg (add_early (-1)) h else h)
      else Ret h
  end.

(** The deletion of the transaction also ends the registration. *)
Definition trans_deleted (cfg : config) (e : env) (t : tcell) (p : Z) (rpl : sip_msg) (h : hst)
  : res hst :=
  h ← dlg_onreply cfg e t TMCB_TRANS_DELETED 0 p rpl h;
  Ret (H (tab h) (tmcbs h ∖ {[p]}) (sts h) (log h) (curr h)).

Definition dlg_onreq (cfg : config) (e : env) (t : tcell) (req : sip_msg) (h : hst) : res hst :=
  match m_to req with
  | None => Ret h
  | Some (to_uri, _ :: _) => Ret h
  | Some (to_uri, []) =>
      if m_method req =? METHOD_CANCEL then Ret h
      else if negb (Z.land (m_flags req) (dlg_flag cfg) =? dlg_flag cfg) then Ret h
      else
        match m_from req, m_callid req with
        | Some (from_uri, ftag), Some clid =>
            let '(r, st) := build_new_dlg (shm_dlg e) (trim clid) from_uri to_uri ftag (tab h) in
            match r with
            | None => Ret h
            | Some p =>
                let h := with_tab st h in
                '(rc, h) ← populate_leg_info e p req t DLG_CALLER_LEG ftag h;
                if negb (rc =? 0) then
                  (* shm_free(dlg): the cell was never linked *)
                  Ret (with_tab (St (delete p (cells (tab h))) (delete p (tls (tab h)))
                                    (entries (tab h))) h)
                else
                  let h := run_dlg_callbacks DLGCB_CREATED p h in
                  h ← on_tab (link_dlg p 1) h;
                  c ← get_cell p (tab h);
                  let '(rrc, sent) :=
                    if decide (seq_match_mode cfg = SEQ_MATCH_NO_ID) then (0, None)
                    else add_dlg_rr_param cfg e (h_entry c) (h_id c) in
                  let h := match sent with Some s => say (RouteParam s) h | None => h end in
                  if (rrc <? 0) || negb (tmcb_ok e) then
                    h ← on_tab (unref_dlg p 2) h;
                    Ret (with_sts (add_failed 1 (sts h)) h)
                  else
                    let h := H (tab h) ({[p]} ∪ tmcbs h) (sts h) (log h) (curr h) in
                    h ← on_cell (set_lifetime (u32 (get_dlg_timeout cfg req))) p h;
                    Ret (add_stat cfg (add_processed 1) h)
            end
        | _, _ => Ret h
        end
  end.

Definition pre_match_parse (req : sip_msg) : option (bytes * bytes * bytes) :=
  match m_callid req, m_to req, m_from req with
  | Some clid, Some (_, ((_ :: _) as ttag)), Some (_, ((_ :: _) as ftag)) =>
      Some (trim clid, ftag, ttag)
  | _, _, _ => None
  end.

Definition update_cseqs (e : env) (p : Z) (req : sip_msg) (d : dir) (st : dlg_st) : res (Z * dlg_st) :=
  match m_cseq req with
  | None => Ret (-1, st)
  | Some cs =>
      match d with
      | DLG_DIR_UPSTREAM => dlg_update_cseq (shm_ok e) p DLG_CALLEE_LEG cs st
      | DLG_DIR_DOWNSTREAM => dlg_update_cseq (shm_ok e) p DLG_CALLER_LEG cs st
      | DLG_DIR_NONE => Ret (-1, st)
      end
  end.

(** How [dlg_onroute] finds the dialog: [None] is a return without one.  The first
    component tells what was found, the last is the state, in which the lookup has
    taken a reference. *)
Definition find_dialog (cfg : config) (req : sip_msg) (h : hst)
  : res (option (Z * dir) * hst) :=
  let by_tags h :=
    match pre_match_parse req with
    | None => Ret (None, h)
    | Some (clid, ftag, ttag) =>
        '(r, d, st) ← get_dlg clid ftag ttag DLG_DIR_NONE (tab h);
        Ret (match r with Some p => Some (p, d) | None => None end, with_tab st h)
    end in
  if decide (seq_match_mode cfg = SEQ_MATCH_NO_ID) then by_tags h
  else
    match m_route_param req with
    | None => if decide (seq_match_mode cfg = SEQ_MATCH_STRICT_ID) then Ret (None, h) else by_tags h
    | Some (val, nxt) =>
        match parse_dlg_rr_param val nxt with
        | None => Ret (None, h)
        | Some (h_entry, h_id) =>
            '(r, st) ← lookup_dlg (u32 h_entry) (u32 h_id) (tab h);
            let h := with_tab st h in
            match r with
            | None => Ret (None, h)
            | Some p =>
                match pre_match_parse req with
                | None => Ret (None, h)
                | Some (clid, ftag, ttag) =>
                    c ← get_cell p (tab h);
                    let '(m, d) := match_dialog c clid ftag ttag DLG_DIR_NONE in
                    if m then Ret (Some (p, d), h) else Ret (None, h)
                end
            end
        end
    end.

Definition request_event (req : sip_msg) : dlg_event :=
  if m_method req =? METHOD_PRACK then DLG_EVENT_REQPRACK
  else if m_method req =? METHOD_ACK then DLG_EVENT_REQACK
  else if m_method req =? METHOD_BYE then DLG_EVENT_REQBYE
  else DLG_EVENT_REQ.

(** The refresh of a confirmed dialog by a sequential request. *)
Definition on_sequential (cfg : config) (e : env) (p : Z) (d : dir) (req : sip_msg) (h : hst)
  : res hst :=
  h ← on_cell (set_lifetime (u32 (get_dlg_timeout cfg req))) p h;
  c ← get_cell p (tab h);
  '(rc, tl) ← DlgTimer.update_dlg_timer (ticks e) p (lifetime c) (tls (tab h));
  let h := with_tab (set_tls tl (tab h)) h in
  if rc =? -1 then Ret h
  else
    '(rc, st) ← update_cseqs e p req d (tab h);
    let h := with_tab st h in
    h ← (if negb (rc =? 0) then Ret h
         else
           h ← on_cell (fun c => set_flags (Z.lor (flags c) DLG_FLAG_CHANGED) c) p h;
           if decide (dlg_db_mode cfg = DB_MODE_REALTIME) then db_update e p h else Ret h);
    Ret (run_dlg_callbacks DLGCB_REQ_WITHIN p h).

Definition dlg_onroute (cfg : config) (e : env) (req : sip_msg) (h : hst) : res hst :=
  '(found, h) ← find_dialog cfg req h;
  match found with
  | None => Ret h
  | Some (p, d) =>
      let event := request_event req in
      '(old, new, unref, st) ← next_state_dlg p event (stack_unref e) (tab h);
      let h := with_tab st h in
      c ← get_cell p (tab h);
      let h := H (tab h) (tmcbs h) (sts h) (log h)
                 (m_id req, u32 (u32 (now e) - start_ts c), new) in
      if (match event with DLG_EVENT_REQBYE => true | _ => false end)
         && (new =? DLG_STATE_DELETED) && negb (old =? DLG_STATE_DELETED) then
        '(_, tl) ← DlgTimer.remove_dlg_timer p (tls (tab h));
        let h := with_tab (set_tls tl (tab h)) h in
        let h := run_dlg_callbacks DLGCB_TERMINATED p h in
        h ← (if decide (dlg_db_mode cfg = DB_MODE_NONE) then Ret h else db_remove e p h);
        h ← on_tab (unref_dlg p (unref + 1)) h;
        Ret (add_stat cfg (add_active (-1)) h)
      else
        h ← (if (match event with DLG_EVENT_REQ | DLG_EVENT_REQACK => true | _ => false end)
                && (new =? DLG_STATE_CONFIRMED)
             then on_sequential cfg e p d req h else Ret h);
        h ← (if (new =? DLG_STATE_CONFIRMED) && (old =? DLG_STATE_CONFIRMED_NA) then
               h ← on_cell (fun c => set_flags (Z.lor (flags c) DLG_FLAG_CHANGED) c) p h;
               if decide (dlg_db_mode cfg = DB_MODE_REALTIME) then db_update e p h else Ret h
             else Ret h);
        on_tab (unref_dlg p 1) h
  end.

(** [get_dlg_tl_payload] is the identity on addresses here. *)
Definition dlg_ontimeout (cfg : config) (e : env) (p : Z) (h : hst) : res hst :=
  '(old, new, unref, st) ← next_state_dlg p DLG_EVENT_REQBYE (stack_unref e) (tab h);
  let h := with_tab st h in
  if (new =? DLG_STATE_DELETED) && negb (old =? DLG_STATE_DELETED) then
    let h := run_dlg_callbacks DLGCB_EXPIRED p h in
    h ← (if decide (dlg_db_mode cfg = DB_MODE_NONE) then Ret h else db_remove e p h);
    h ← on_tab (unref_dlg p unref) h;
    Ret (add_stat cfg (add_active (-1)) (add_stat cfg (add_expired 1) h))
  else Ret h.

(** ** The route set fits its buffer *)

Lemma rr_kept_forward n nb i rs : rr_kept false n nb i rs = drop (Z.to_nat (nb - i)) rs.
Proof.
  revert i; induction rs as [|r rs IH]; intros i; simpl; [by rewrite drop_nil|].
  unfold rr_counted. destruct (Z.leb_spec nb i).
  - replace (Z.to_nat (nb - i)) with O by lia. simpl. f_equal. rewrite IH.
    by replace (Z.to_nat (nb - (i + 1))) with O by lia.
  - replace (Z.to_nat (nb - i)) with (S (Z.to_nat (nb - (i + 1)))) by lia. simpl. apply IH.
Qed.

Lemma rr_kept_reverse n nb i rs :
  0 <= n - nb < 2 ^ 32 -> 0 <= i ->
  rr_kept true n nb i rs = take (Z.to_nat (n - nb + 1 - i)) rs.
Proof.
  intros Hn. revert i; induction rs as [|r rs IH]; intros i Hi; simpl; [by rewrite take_nil|].
  unfold rr_counted. rewrite u32_small by lia. destruct (Z.leb_spec i (n - nb)).
  - replace (Z.to_nat (n - nb + 1 - i)) with (S (Z.to_nat (n - nb + 1 - (i + 1)))) by lia. simpl.
    f_equal. apply IH. lia.
  - replace (Z.to_nat (n - nb + 1 - i)) with O by lia. simpl. rewrite IH by lia.
    by replace (Z.to_nat (n - nb + 1 - (i + 1))) with O by lia.
Qed.

Lemma sum_len_app l1 l2 : sum_len (l1 ++ l2) = sum_len l1 + sum_len l2.
Proof. unfold sum_len. induction l1; simpl; lia. Qed.

Lemma sum_len_nonneg l : 0 <= sum_len l.
Proof. unfold sum_len. induction l; simpl; lia. Qed.

Lemma sum_len_rev l : sum_len (rev l) = sum_len l.
Proof.
  induction l as [|r l IH]; simpl; [done|]. rewrite sum_len_app, IH. unfold sum_len; simpl; lia.
Qed.

Lemma sum_len_take n l : sum_len (take n l) <= sum_len l.
Proof.
  rewrite <- (take_drop n l) at 2. rewrite sum_len_app.
  pose proof (sum_len_nonneg (drop n l)). lia.
Qed.

Lemma comma_join_length l :
  Z.of_nat (length (comma_join l)) = sum_len l + Z.max 0 (Z.of_nat (length l) - 1).
Proof.
  induction l as [|r l IH]; [done|]. destruct l as [|r' l]; [unfold sum_len; simpl; lia|].
  change (comma_join (r :: r' :: l)) with (r ++ [44] ++ comma_join (r' :: l)).
  rewrite !length_app, !Nat2Z.inj_add, IH. unfold sum_len. simpl. lia.
Qed.

(** The copy loops write no more than was allocated. *)
Lemma print_rr_body_fits reverse routes nb :
  0 <= nb < 2 ^ 31 -> Z.of_nat (length routes) < MAX_RR_HDRS ->
  0 <= rr_alloc_len reverse routes nb ->
  Z.of_nat (length (comma_join (rr_written reverse routes nb))) <= rr_alloc_len reverse routes nb.
Proof.
  unfold MAX_RR_HDRS, rr_alloc_len. intros Hnb Hn Ha. rewrite comma_join_length.
  destruct reverse; unfold rr_written.
  - rewrite sum_len_rev, length_rev.
    destruct (Z.le_gt_cases nb (Z.of_nat (length routes))) as [Hle|Hgt].
    + rewrite rr_kept_reverse in * by lia. rewrite !length_take in *.
      set (n := length routes) in *.
      assert (Hs : sum_len (take (n - Z.to_nat nb) routes) <=
                   sum_len (take (Z.to_nat (Z.of_nat n - nb + 1 - 0)) routes)).
      { replace (n - Z.to_nat nb)%nat
          with ((n - Z.to_nat nb) `min` Z.to_nat (Z.of_nat n - nb + 1 - 0))%nat by lia.
        rewrite <- take_take. apply sum_len_take. }
      assert (Hz : (n - Z.to_nat nb = 0)%nat -> sum_len (take (n - Z.to_nat nb) routes) = 0).
      { intros ->. done. }
      lia.
    + replace (length routes - Z.to_nat nb)%nat with O by lia.
      change (take 0 routes) with (@nil bytes). change (sum_len []) with 0. cbn [length]. lia.
  - rewrite rr_kept_forward in *. rewrite Z.sub_0_r in *. rewrite length_drop in *.
    assert (Hz : (length routes - Z.to_nat nb = 0)%nat -> sum_len (drop (Z.to_nat nb) routes) = 0).
    { intros E. by rewrite drop_ge by lia. }
    lia.
Qed.

(** ** The Record-Route parameter identifies the dialog *)

Lemma split_sep_hex a b :
  forallb is_hex_char a = true -> split_sep (a ++ [DLG_SEPARATOR] ++ b) = (a, Some b).
Proof.
  induction a as [|c a IH]; simpl; [done|]. intros H. apply andb_true_iff in H as [Hc Ha].
  destruct (Z.eqb_spec c DLG_SEPARATOR) as [->|_]; [by vm_compute in Hc|].
  simpl in IH. by rewrite IH.
Qed.

(** The parameter [";name=entry.id"] of a dialog whose entry and id are below
    [2 ^ 31] is built, and its value is parsed back to them. *)
Lemma add_parse_rr_param cfg e entry id nxt :
  (length (rr_param cfg) <= 32)%nat -> 0 <= entry < 2 ^ 31 -> 0 <= id < 2 ^ 31 ->
  add_rr_ok e = true ->
  exists val, add_dlg_rr_param cfg e entry id = (0, Some ([59] ++ rr_param cfg ++ [61] ++ val)) /\
    parse_dlg_rr_param val nxt = Some (entry, id).
Proof.
  intros Hl He Hi Hok. unfold add_dlg_rr_param. rewrite !s32_small by lia.
  set (p0 := [59] ++ rr_param cfg ++ [61]).
  assert (L0 : length p0 = (2 + length (rr_param cfg))%nat) by (unfold p0; rewrite !length_app; simpl; lia).
  destruct (reverse_hex_roundtrip (Z.to_nat (RR_DLG_PARAM_SIZE - Z.of_nat (length p0))) entry)
    as (w1 & z1 & E1 & R1 & _); [done|unfold RR_DLG_PARAM_SIZE; lia|].
  destruct (int2reverse_hex_text (Z.to_nat (RR_DLG_PARAM_SIZE - Z.of_nat (length p0))) entry He) as [W1 C1].
  rewrite E1 in W1, C1 |- *. simpl in W1, C1. cbn [Z.eqb Pos.eqb].
  set (p1 := p0 ++ w1 ++ [DLG_SEPARATOR]).
  assert (L1 : length p1 = (length p0 + length w1 + 1)%nat) by (unfold p1; rewrite !length_app; simpl; lia).
  destruct (reverse_hex_roundtrip (Z.to_nat (RR_DLG_PARAM_SIZE - Z.of_nat (length p1))) id)
    as (w2 & z2 & E2 & R2 & _); [done|unfold RR_DLG_PARAM_SIZE; lia|].
  rewrite E2, Hok. cbn [Z.eqb Pos.eqb]. exists (w1 ++ [DLG_SEPARATOR] ++ w2). split.
  - unfold p1, p0. by rewrite <- !app_assoc.
  - unfold parse_dlg_rr_param. rewrite split_sep_hex by done. rewrite R1, R2.
    by rewrite !(proj2 (Z.ltb_ge _ _)) by lia.
Qed.

(** Above that the parameter cannot be built. *)
Lemma add_rr_param_overflow cfg e entry id :
  2 ^ 31 <= id < 2 ^ 32 -> (add_dlg_rr_param cfg e entry id).1 = -1.
Proof.
  intros Hi. unfold add_dlg_rr_param.
  destruct (int2reverse_hex _ (s32 entry)) as [[w1 z1] rc1].
  destruct (rc1 =? -1); [done|].
  match goal with |- context [int2reverse_hex ?n (s32 id)] =>
    pose proof (int2reverse_hex_negative n (s32 id)) as N; destruct (int2reverse_hex n (s32 id)) as [[w2 z2] rc2] end.
  simpl in N. rewrite N; [done|]. unfold s32.
  replace (id + 2 ^ 31) with (id - 2 ^ 31 + 1 * 2 ^ 32) by lia. rewrite Z.mod_add, Z.mod_small by lia. lia.
Qed.

(** ** Main results *)

(** For a dialog whose entry and id are below [2 ^ 31], [add_dlg_rr_param]
    builds the Record-Route parameter within its buffer, and [parse_dlg_rr_param]
    reads entry and id back whatever byte follows the value. *)
Theorem rr_param_roundtrip cfg e entry id nxt :
  (length (rr_param cfg) <= 32)%nat -> 0 <= entry < 2 ^ 31 -> 0 <= id < 2 ^ 31 ->
  add_rr_ok e = true ->
  exists val, add_dlg_rr_param cfg e entry id = (0, Some (B ";" ++ rr_param cfg ++ B "=" ++ val)) /\
    parse_dlg_rr_param val nxt = Some (entry, id).
Proof. apply add_parse_rr_param. Qed.

Lemma rr_param_roundtrip_witness :
  exists val, parse_dlg_rr_param val 59 = Some (4095, 305419896).
Proof.
  destruct (rr_param_roundtrip
    (Config (B "did") 16 43200 SEQ_MATCH_STRICT_ID DB_MODE_NONE true)
    (Env 100 1000 None (true, true) true true true true true true 0 false) 4095 305419896 59) as (val & _ & P);
    [simpl; lia|lia|lia|reflexivity|]. by exists val.
Defined.

(** The copy loops of [print_rr_body] write no more bytes than it allocated,
    in either order and for every number of records to skip. *)
Theorem route_set_fits reverse routes nb :
  0 <= nb < 2 ^ 31 -> Z.of_nat (length routes) < MAX_RR_HDRS ->
  0 <= rr_alloc_len reverse routes nb ->
  Z.of_nat (length (comma_join (rr_written reverse routes nb))) <= rr_alloc_len reverse routes nb.
Proof. apply print_rr_body_fits. Qed.

Lemma route_set_fits_witness :
  Z.of_nat (length (comma_join (rr_written true [B "<sip:a>"; B "<sip:b>"] 1))) <= 15.
Proof.
  apply (route_set_fits true [B "<sip:a>"; B "<sip:b>"] 1); vm_compute; try split; congruence.
Defined.

End DlgHandlers.
