(* ===== verification/DlgSafety.v ===== *)
(** * Reference counting of dialogs

    The memory-safety invariant of the dialog module ([dlg_hash.c],
    [dlg_handlers.c]): every cell holds at least one reference for the table as
    long as it is not deleted and one for the transaction as long as its callback
    is registered, so no handler frees a dialog that is still in use.  The runs are calls
    of the handlers, each one step.  The invariant holds in all of them; that the handlers
    return is shown where no pointer dangles and dialogs are not saved at once. *)

From Stdlib Require Import ZArith Lia List String Ascii Bool.
From stdpp Require Import base tactics option list gmap sets.
From S2P Require Import Prelude Ut HashFunc DlgTimer DlgHash DlgDb DlgHandlers.

Module DlgSafety.
Import DlgHash DlgDb DlgHandlers.

(** ** What a call guarantees *)

(** The handlers are followed under two sets of assumptions: with [safe] they return and
    their result is as stated; without it the result is as stated if they return. *)
Section Safe.
Context (safe : bool).

Definition outcome {A} (m : res A) (Q : A -> Prop) : Prop := if safe then returns m Q else may_return m Q.

Lemma oc_returns {A} (m : res A) Q : returns m Q -> outcome m Q.
Proof. unfold outcome. destruct safe; [done|apply returns_may]. Qed.

Lemma oc_may {A} (m : res A) Q : outcome m Q -> may_return m Q.
Proof. unfold outcome. destruct safe; [apply returns_may|done]. Qed.

Lemma oc_unsafe {A} (m : res A) (Q : A -> Prop) : safe = false -> may_return m Q -> outcome m Q.
Proof. unfold outcome. by intros ->. Qed.

Lemma oc_ret {A} (a : A) (Q : A -> Prop) : Q a -> outcome (Ret a) Q.
Proof. intros H. by apply oc_returns, returns_ret. Qed.

Lemma oc_bind {A C} (m : res A) (f : A -> res C) Q R :
  outcome m Q -> (forall a, Q a -> outcome (f a) R) -> outcome (m ≫= f) R.
Proof. unfold outcome. destruct safe; [apply returns_bind|apply may_bind]. Qed.

Lemma oc_impl {A} (m : res A) (Q R : A -> Prop) : outcome m Q -> (forall a, Q a -> R a) -> outcome m R.
Proof. unfold outcome. destruct safe; [apply returns_impl|]. intros H HR a E. auto. Qed.

Lemma oc_eq {A} (m : res A) Q a : outcome m Q -> m = Ret a -> Q a.
Proof. unfold outcome. destruct safe; [|auto]. intros (b & -> & Hb) [= <-]. done. Qed.

(** ** The invariant *)

(** The cells none of whose pointers may dangle: those of dialogs that have not been
    answered, and all of them with [safe]. *)
Definition held (c : dlg_cell) : Prop := safe = true \/ pre_answer (state c) = true.

(** References a cell must hold: the table's, and its transaction's. *)
Definition need (tr : bool) (c : dlg_cell) : Z :=
  (if deleted (state c) then 0 else 1) + (if tr then 1 else 0).

Lemma need_nonneg tr c : 0 <= need tr c.
Proof. unfold need. by destruct (deleted _), tr. Qed.

Definition cell_inv (tr : bool) (extra : Z) (c : dlg_cell) : Prop :=
  valid_state (state c) /\ 1 <= ref c < 2 ^ 31 /\ need tr c + extra <= ref c /\ (held c -> intact c = true).

Definition has_tmcb (h : hst) (p : Z) : bool := bool_decide (p ∈ tmcbs h).

(** [hinv_k p k h]: the invariant, with [k] more references held on [p]. *)
Record hinv_k (p k : Z) (h : hst) : Prop := {
  inv_tab : exists l, tab_ok (tab h) l;
  inv_size : 0 < size (tab h) <= 2 ^ 32;
  inv_cells : forall q c, cells (tab h) !! q = Some c ->
    cell_inv (has_tmcb h q) (if decide (q = p) then k else 0) c;
  inv_tmcbs : forall q, q ∈ tmcbs h -> is_Some (cells (tab h) !! q)
}.

Definition hinv : hst -> Prop := hinv_k 0 0.

(** ** Operations that do not touch the count or the state *)

Definition core (c : dlg_cell) : Z * Z * Z * Z := (ref c, h_id c, h_entry c, state c).

(** The same, with pointers that dangle no more than before where none may. *)
Definition same (c c' : dlg_cell) : Prop := core c' = core c /\ (held c -> intact c = true -> intact c' = true).

Lemma same_cells_refl c : same c c.
Proof. done. Qed.

Lemma same_cells_trans c1 c2 c3 : same c1 c2 -> same c2 c3 -> same c1 c3.
Proof.
  intros [E1 H1] [E2 H2]. split; [congruence|]. intros Hh Hi. apply H2; [|by apply H1].
  unfold held, core in *. injection E1 as _ _ _ ->. done.
Qed.

Lemma same_core c c' : core c' = core c -> dangling c' = dangling c -> same c c'.
Proof. intros E D. split; [done|]. unfold intact. by rewrite D. Qed.

(** A dialog of the table that can be freed. *)
Definition live (p : Z) (h : hst) : Prop := exists c, cells (tab h) !! p = Some c /\ (safe = true -> intact c = true).

Record benign (h h' : hst) : Prop := {
  b_tmcbs : tmcbs h' = tmcbs h;
  b_size : size (tab h') = size (tab h);
  b_core : forall q, option_Forall2 same (cells (tab h) !! q) (cells (tab h') !! q)
}.

Definition keeps (h h' : hst) : Prop := (exists l, tab_ok (tab h') l) /\ benign h h'.

Lemma same_option_refl (o : option dlg_cell) : option_Forall2 same o o.
Proof. destruct o; constructor. apply same_cells_refl. Qed.
#[local] Hint Resolve same_option_refl same_cells_refl : core.

Lemma benign_refl h : benign h h.
Proof. by constructor. Qed.

Lemma benign_trans h1 h2 h3 : benign h1 h2 -> benign h2 h3 -> benign h1 h3.
Proof.
  intros [A1 B1 C1] [A2 B2 C2]. constructor; [congruence|congruence|]. intros q. specialize (C1 q). specialize (C2 q).
  destruct C1; inversion C2; subst; constructor. by eapply same_cells_trans.
Qed.

Lemma keeps_trans h1 h2 h3 : keeps h1 h2 -> keeps h2 h3 -> keeps h1 h3.
Proof. intros [_ B1] [G B2]. split; [done|]. by eapply benign_trans. Qed.

Lemma benign_live h h' p : benign h h' -> live p h -> live p h'.
Proof.
  intros B (c & Hc & Hi). pose proof (b_core _ _ B p) as E. rewrite Hc in E. inversion E as [c1 c' [E1 Hk] E2 E3|]; subst.
  exists c'. split; [done|]. intros Hs. apply Hk; [by left|auto].
Qed.

Lemma core_inv tr k c c' : same c c' -> cell_inv tr k c -> cell_inv tr k c'.
Proof.
  unfold same, core, cell_inv, need, valid_state, held. intros [[= -> _ _ ->] Hi] (V & R & N & I).
  split; [done|]. split; [done|]. split; [done|]. intros Hh. apply Hi; [done|auto].
Qed.

Lemma hinv_k_keeps p k h h' : hinv_k p k h -> keeps h h' -> hinv_k p k h'.
Proof.
  intros I [G B]. constructor; [done|rewrite (b_size _ _ B); apply I|..].
  - intros q c Hc. pose proof (b_core _ _ B q) as E. rewrite Hc in E. inversion E as [d c' Sd Ed E2|]; subst.
    apply (core_inv _ _ d); [done|].
    replace (has_tmcb h' q) with (has_tmcb h q) by (unfold has_tmcb; by rewrite (b_tmcbs _ _ B)).
    by apply (inv_cells _ _ _ I).
  - intros q. rewrite (b_tmcbs _ _ B). intros Hq. destruct (inv_tmcbs _ _ _ I q Hq) as [c Hc].
    pose proof (b_core _ _ B q) as E. rewrite Hc in E. inversion E; subst. by eexists.
Qed.

Lemma inv_live p k h q : hinv_k p k h -> is_Some (cells (tab h) !! q) -> live q h.
Proof.
  intros I [c Hc]. exists c. split; [done|]. intros Hs. destruct (inv_cells _ _ _ I q c Hc) as (_ & _ & _ & Hi). apply Hi. by left.
Qed.

Section Keeps.
Context (h : hst) (G : exists l, tab_ok (tab h) l) (p : Z) (A : live p h).

Lemma on_cell_keeps f :
  (forall c, core (f c) = core c /\ dangling (f c) = dangling c) -> outcome (on_cell f p h) (keeps h).
Proof.
  intros Hf. destruct G as [l OK], A as (c & Hc & _). unfold on_cell, on_tab.
  rewrite (upd_cell_put _ l f p c OK Hc). run. apply oc_ret. destruct (Hf c) as [Hf1 Hf2].
  assert (Hh : h_entry (f c) = h_entry c) by (unfold core in Hf1; congruence).
  split; [exists l; by apply (put_ok _ l p c)|]. constructor; [done|done|].
  intros q. simpl. rewrite lookup_insert. case_decide; [|auto]. subst. rewrite Hc. constructor. by apply same_core.
Qed.

Lemma get_cell_returns : outcome (get_cell p (tab h)) (fun c => cells (tab h) !! p = Some c /\ (safe = true -> intact c = true)).
Proof.
  destruct G as [l OK], A as (c & Hc & Hi). apply oc_returns. exists c. split; [by apply (get_cell_ok _ l)|done].
Qed.

Lemma set_tls_keeps tl : (exists l, tab_ok (set_tls tl (tab h)) l) -> keeps h (with_tab (set_tls tl (tab h)) h).
Proof. intros Hl. split; [done|]. by constructor. Qed.

(** A timer operation on the cell. *)
Lemma timer_keeps (op : gmap Z DlgTimer.dlg_tl -> res (Z * gmap Z DlgTimer.dlg_tl)) :
  (forall l, DlgTimer.timer_ok (tls (tab h)) l -> p <> 0 -> p <> DlgTimer.FIRST ->
     is_Some (tls (tab h) !! p) -> DlgTimer.tl_ok (tls (tab h)) l p ->
     DlgTimer.timer_step (tls (tab h)) l p (op (tls (tab h)))) ->
  outcome (op (tls (tab h))) (fun '(_, tl) => keeps h (with_tab (set_tls tl (tab h)) h)).
Proof.
  intros Hop. destruct G as [l OK], A as (c & Hc & _).
  destruct (tab_cell _ _ OK p c Hc) as (N & Nf & Al & T & _).
  eapply oc_impl; [apply oc_returns, (tab_ok_timer _ l p c _ OK Hc), Hop; (done || apply OK)|].
  intros [rc tl]. apply set_tls_keeps.
Qed.
End Keeps.

Lemma say_keeps e h : (exists l, tab_ok (tab h) l) -> keeps h (say e h).
Proof. intros G. split; [done|]. by constructor. Qed.

Lemma keeps_refl h : (exists l, tab_ok (tab h) l) -> keeps h h.
Proof. intros G. split; [done|apply benign_refl]. Qed.

(** Sequencing: each step may rely on what the previous ones kept. *)
Lemma keeps_bind (m : res hst) f h p :
  live p h ->
  outcome m (keeps h) ->
  (forall h', (exists l, tab_ok (tab h') l) -> live p h' -> outcome (f h') (keeps h')) ->
  outcome (m ≫= f) (keeps h).
Proof.
  intros A Hm Hf. eapply oc_bind; [done|]. intros h' K.
  eapply oc_impl; [apply Hf; [apply K|]|].
  - apply (benign_live h); [apply K|done].
  - intros h'' K'. by eapply keeps_trans.
Qed.

(** ** Database operations *)

(** What a database operation does to the table. *)
Definition keeps_db (h : hst) (r : Z * list db_op * dlg_st) : Prop := keeps h (with_tab r.2 h).

Lemma upd_keeps_db h p f rc ops :
  (exists l, tab_ok (tab h) l) -> live p h -> (forall c, core (f c) = core c /\ dangling (f c) = dangling c) ->
  outcome (st ← upd_cell f p (tab h); Ret (rc, ops, st)) (keeps_db h).
Proof.
  intros G A Hf. pose proof (on_cell_keeps h G p A f Hf) as K. revert K.
  unfold on_cell, on_tab. destruct (upd_cell f p (tab h)) as [st|x]; run; intros K.
  - apply oc_ret. by apply (oc_eq _ _ _ K).
  - unfold outcome in *. destruct safe; [|done]. by destruct K as (? & ? & _).
Qed.

Lemma stay_keeps_db h rc ops :
  (exists l, tab_ok (tab h) l) -> outcome (Ret (rc, ops, tab h)) (keeps_db h).
Proof. intros G. apply oc_ret. split; [done|]. by constructor. Qed.

(** Saving a dialog changes its flags only; it faults when a new dialog lacks a
    socket. *)
Lemma save_dialog_keeps h p now ticks ok :
  (exists l, tab_ok (tab h) l) -> live p h ->
  may_return (save_dialog now ticks ok p (tab h)) (keeps_db h).
Proof.
  intros G A. unfold save_dialog.
  eapply may_bind; [apply oc_may; by apply get_cell_returns|]. intros c [Hc _].
  assert (L : may_return (DlgTimer.load p (tls (tab h))) (fun _ => True)) by done.
  assert (U : forall f op, (forall c, core (f c) = core c /\ dangling (f c) = dangling c) ->
    may_return (st ← upd_cell f p (tab h); Ret (0, [op], st)) (keeps_db h)).
  { intros f op Hf. apply oc_may. by apply upd_keeps_db. }
  destruct (flag_on DLG_FLAG_NEW c); [|destruct (flag_on DLG_FLAG_CHANGED c)].
  - eapply may_bind; [exact L|]. intros tl _. eapply may_bind with (Q := fun _ => True); [done|].
    intros r _. destruct ok; [by apply U|]. apply oc_may. by apply stay_keeps_db.
  - eapply may_bind; [exact L|]. intros tl _. destruct ok; [by apply U|].
    apply oc_may. by apply stay_keeps_db.
  - apply oc_may. by apply stay_keeps_db.
Qed.

Lemma remove_dialog_from_db_keeps h p use ok :
  (exists l, tab_ok (tab h) l) -> live p h ->
  outcome (remove_dialog_from_db use ok p (tab h)) (keeps_db h).
Proof.
  intros G A. unfold remove_dialog_from_db. eapply oc_bind; [by apply get_cell_returns|].
  intros c Hc. repeat case_match; by apply stay_keeps_db.
Qed.

Lemma on_db_keeps f h : outcome (f (tab h)) (keeps_db h) -> outcome (on_db f h) (keeps h).
Proof.
  intros Hf. unfold on_db. eapply oc_bind; [exact Hf|]. intros [[rc ops] st] [G [B1 B2 B3]].
  apply oc_ret. split; [exact G|]. constructor; [exact B1|exact B2|exact B3].
Qed.

Lemma db_remove_keeps e h p :
  (exists l, tab_ok (tab h) l) -> live p h -> outcome (db_remove e p h) (keeps h).
Proof. intros G A. by apply on_db_keeps, remove_dialog_from_db_keeps. Qed.

Lemma save_chain_keeps now ticks ok ps h :
  (exists l, tab_ok (tab h) l) -> (forall p, In p ps -> live p h) ->
  may_return (save_chain now ticks ok ps (tab h)) (keeps_db h).
Proof.
  revert h. induction ps as [|p ps IH]; simpl; intros h G A.
  { apply oc_may. by apply stay_keeps_db. }
  eapply may_bind; [apply (save_dialog_keeps h p); auto|]. intros [[rc ops] st] K1.
  destruct (negb (rc =? 0)); [by apply may_ret|].
  eapply may_bind; [apply (IH (with_tab st h))|].
  - apply K1.
  - intros q Hq. apply (benign_live h); [apply K1|auto].
  - intros [[rc2 ops2] st2] K2. apply may_ret. by apply (keeps_trans h (with_tab st h)).
Qed.

Lemma say_none_keeps h ops :
  (exists l, tab_ok (tab h) l) -> keeps h (H (tab h) (tmcbs h) (sts h) (log h ++ map Db ops) (curr h)).
Proof. intros G. split; [done|]. by constructor. Qed.

Lemma save_all_keeps now ticks use ok h :
  hinv h -> may_return (save_all now ticks use ok h) (keeps h).
Proof.
  intros I. pose proof (inv_tab _ _ _ I) as G. unfold save_all, dialog_update_db. destruct use; [|apply may_ret; by apply say_none_keeps].
  eapply may_bind with (Q := fun r => keeps h (with_tab r.2 h)).
  - eapply may_bind; [apply (save_chain_keeps now ticks ok _ h G)|].
    + intros p Hp. apply in_concat in Hp as (ds & Hd & Hp). apply in_map_iff in Hd as (en & <- & Hen).
      apply list_elem_of_In, list_elem_of_lookup in Hen as [i Hi].
      destruct G as [l OK]. destruct (tab_linked _ _ OK i en p Hi Hp) as (c & Hc & _).
      apply (inv_live _ _ _ _ I). by exists c.
    + intros [[rc ops] st] K. by apply may_ret.
  - intros [ops st] [G' [B1 B2 B3]]. apply may_ret. split; [exact G'|]. constructor; [exact B1|exact B2|exact B3].
Qed.

(** ** Holding and dropping references *)

Lemma zero_extra (q : Z) : (if decide (q = 0) then 0 else 0) = 0.
Proof. by destruct (decide (q = 0)). Qed.

Lemma hinv_at p h : hinv h -> hinv_k p 0 h.
Proof.
  intros I. constructor; [apply (inv_tab _ _ _ I)|apply (inv_size _ _ _ I)| |apply (inv_tmcbs _ _ _ I)].
  intros q c Hc. pose proof (inv_cells _ _ _ I q c Hc) as C. by do 2 case_decide.
Qed.

Lemma hinv_drop p k h : 0 <= k -> hinv_k p k h -> hinv h.
Proof.
  intros Hk I. constructor; [apply (inv_tab _ _ _ I)|apply (inv_size _ _ _ I)| |apply (inv_tmcbs _ _ _ I)].
  intros q c Hc. pose proof (inv_cells _ _ _ I q c Hc) as (V & R & N & J).
  split; [done|]. split; [done|]. split; [|done]. repeat case_decide; lia.
Qed.

(** Rewriting one cell. *)
Lemma hinv_put p k k' h c c' :
  hinv_k p k h -> cells (tab h) !! p = Some c -> h_entry c' = h_entry c ->
  cell_inv (has_tmcb h p) k' c' -> hinv_k p k' (with_tab (put p c' (tab h)) h).
Proof.
  intros I Hc He Hi. constructor.
  - destruct (inv_tab _ _ _ I) as [l OK]. exists l. by apply (put_ok _ l p c).
  - apply (inv_size _ _ _ I).
  - intros q d. simpl. rewrite lookup_insert. case_decide; subst.
    + intros [= <-]. by rewrite decide_True.
    + intros Hd. pose proof (inv_cells _ _ _ I q d Hd) as C. by rewrite decide_False in * by done.
  - intros q Hq. simpl. rewrite lookup_insert. case_decide; [done|]. by apply (inv_tmcbs _ _ _ I).
Qed.

(** Dropping the last reference of a cell no transaction refers to frees it. *)
Lemma unref_free_inv p k cnt h c :
  hinv_k p k h -> cells (tab h) !! p = Some c -> s32 (ref c - cnt) <= 0 -> p ∉ tmcbs h ->
  returns (on_tab (unref_dlg p cnt) h) hinv \/ (intact c = false /\ on_tab (unref_dlg p cnt) h = Fault UseAfterFree).
Proof.
  intros I Hc Hr Nt. destruct (inv_tab _ _ _ I) as [l OK].
  unfold on_tab, unref_dlg. rewrite (get_cell_ok _ l p c) by done. run.
  destruct (intact c) eqn:Hi.
  2: { right. by rewrite (unref_dangling (tab h) l p c cnt) by done. }
  destruct (unref_free (tab h) l p c cnt OK Hc Hr Hi) as (st' & -> & Ec & Es & OK').
  run. left. apply returns_ret. constructor.
  - by exists (DlgTimer.spec_remove p l).
  - simpl. rewrite Es. apply (inv_size _ _ _ I).
  - intros q d. simpl. rewrite Ec, lookup_delete_Some. intros [Hne Hd].
    pose proof (inv_cells _ _ _ I q d Hd) as Cq. rewrite decide_False in Cq by done.
    destruct (decide (q = 0)); exact Cq.
  - intros q Hq. simpl in Hq |- *. rewrite Ec. rewrite lookup_delete_ne by set_solver.
    by apply (inv_tmcbs _ _ _ I).
Qed.

(** Giving back references that are held leaves the invariant: the cell is freed only
    when neither the table nor a transaction needs it. *)
Lemma unref_cases p k cnt h c :
  hinv_k p k h -> cells (tab h) !! p = Some c -> 0 <= cnt <= k ->
  returns (on_tab (unref_dlg p cnt) h) hinv \/ (intact c = false /\ on_tab (unref_dlg p cnt) h = Fault UseAfterFree).
Proof.
  intros I Hc Hk. destruct (inv_tab _ _ _ I) as [l OK].
  pose proof (inv_cells _ _ _ I p c Hc) as C. rewrite decide_True in C by done.
  destruct C as (V & R & Nd & Hi). pose proof (need_nonneg (has_tmcb h p) c) as Nn.
  destruct (Z.lt_ge_cases cnt (ref c)) as [L|L].
  - unfold on_tab, unref_dlg. rewrite (get_cell_ok _ l p c) by done. run.
    assert (Es : s32 (ref c - cnt) = ref c - cnt) by (rewrite s32_small; lia).
    rewrite (unref_keep _ l p c) by (done || lia). run. left. apply returns_ret.
    rewrite (upd_put _ _ _ c), Es by done. apply (hinv_drop p (k - cnt)); [lia|].
    apply (hinv_put p k _ h c); [done..|]. split; [done|]. simpl.
    change (need _ (set_ref _ c)) with (need (has_tmcb h p) c). split; [lia|]. split; [lia|done].
  - apply (unref_free_inv p k cnt h c); [done|done|rewrite s32_small; lia|]. intros Hin. assert (has_tmcb h p = true) by (by apply bool_decide_eq_true).
    unfold need in Nd. destruct (has_tmcb h p); [|done]. destruct (deleted _) in Nd; lia.
Qed.

Lemma unref_outcome p k h c m :
  hinv_k p k h -> cells (tab h) !! p = Some c ->
  returns m hinv \/ (intact c = false /\ m = Fault UseAfterFree) -> outcome m hinv.
Proof.
  intros I Hc [R|[Hi ->]]; [by apply oc_returns|]. apply oc_unsafe; [|done]. apply not_true_iff_false. intros Hs.
  destruct (inv_cells _ _ _ I p c Hc) as (_ & _ & _ & Hk). rewrite Hk in Hi; [done|by left].
Qed.

Lemma unref_inv p k cnt h c :
  hinv_k p k h -> cells (tab h) !! p = Some c -> 0 <= cnt <= k -> outcome (on_tab (unref_dlg p cnt) h) hinv.
Proof. intros I Hc Hk. apply (unref_outcome p k h c); [done..|]. by apply (unref_cases p k). Qed.

(** One more reference. *)
Lemma ref_inv p k h c :
  hinv_k p k h -> cells (tab h) !! p = Some c -> ref c < 2 ^ 31 - 1 ->
  hinv_k p (k + 1) (with_tab (put p (set_ref (s32 (ref c + 1)) c) (tab h)) h).
Proof.
  intros I Hc Hr. pose proof (inv_cells _ _ _ I p c Hc) as C. rewrite decide_True in C by done.
  apply (hinv_put p k _ h c); [done..|]. destruct C as (V & R & Nd & Hk). split; [done|]. simpl. rewrite s32_small by lia.
  change (need _ (set_ref _ c)) with (need (has_tmcb h p) c). split; [lia|]. split; [lia|done].
Qed.

(** ** Transitions *)

(** The references set free by a transition: the table's, when the dialog ends. *)
Definition freed (ev : dlg_event) (c : dlg_cell) : Z := next_unref ev c 0.

Lemma next_state_valid s bye ev : valid_state s -> valid_state (next_state s bye ev).
Proof.
  unfold valid_state, next_state, DLG_STATE_UNCONFIRMED, DLG_STATE_EARLY, DLG_STATE_CONFIRMED_NA,
    DLG_STATE_CONFIRMED, DLG_STATE_DELETED. intros H. destruct ev; repeat case_match; lia.
Qed.

Lemma next_cell_state ev c : state (next_cell ev c) = next_state (state c) (has_bye c) ev.
Proof. done. Qed.

Lemma next_cell_ref ev c :
  ref (next_cell ev c) =
  let d := ref_delta (state c) (has_bye c) ev in if d =? 0 then ref c else s32 (ref c + d).
Proof.
  unfold next_cell. simpl. destruct (match ev with DLG_EVENT_REQBYE => _ | _ => _ end), (_ =? 0); done.
Qed.

Lemma next_cell_intact ev c : intact (next_cell ev c) = intact c.
Proof. unfold next_cell. simpl. by destruct (match ev with DLG_EVENT_REQBYE => _ | _ => _ end), (_ =? 0). Qed.

(** A dialog that has been answered stays so. *)
Lemma next_state_answered s bye ev : valid_state s -> pre_answer (next_state s bye ev) = true -> pre_answer s = true.
Proof.
  unfold valid_state. intros V. assert (Hs : s = 1 \/ s = 2 \/ s = 3 \/ s = 4 \/ s = 5) by lia.
  destruct Hs as [->|[->|[->|[->| ->]]]], ev, bye; done.
Qed.

Lemma next_cell_held ev c : valid_state (state c) -> (held c -> intact c = true) -> held (next_cell ev c) -> intact (next_cell ev c) = true.
Proof.
  intros V Hk [Hs|Hs]; rewrite next_cell_intact; apply Hk; [by left|right]. rewrite next_cell_state in Hs. by apply next_state_answered in Hs.
Qed.

Lemma next_cell_inv tr k ev c :
  ev <> DLG_EVENT_TDEL -> (ev = DLG_EVENT_RPL2xx -> ref c < 2 ^ 31 - 1) -> cell_inv tr k c ->
  cell_inv tr (k + freed ev c) (next_cell ev c).
Proof.
  intros Hev Hr (V & R & N & Hk). split; [by apply next_state_valid|].
  apply and_assoc. split; [|by apply next_cell_held].
  rewrite next_cell_ref. unfold need, freed, next_unref in *. rewrite next_cell_state.
  set (bye := has_bye c). set (s := state c) in *. unfold valid_state in V. cbv zeta.
  assert (Hs : s = 1 \/ s = 2 \/ s = 3 \/ s = 4 \/ s = 5) by lia. clearbody s bye.
  destruct Hs as [->|[->|[->|[->| ->]]]], ev, bye; try done; simpl in *;
    try specialize (Hr eq_refl); rewrite ?s32_small by lia; lia.
Qed.

Definition small (h : hst) : Prop := forall q c, cells (tab h) !! q = Some c -> ref c < 2 ^ 31 - 1.

(** A transition that is not the deletion of the transaction: its result, and the
    references it leaves to give back. *)
Lemma transition_inv p k ev u h c :
  ev <> DLG_EVENT_TDEL -> hinv_k p k h -> cells (tab h) !! p = Some c ->
  (ev = DLG_EVENT_RPL2xx -> ref c < 2 ^ 31 - 1) ->
  exists h', next_state_dlg p ev u (tab h) =
      Ret (state c, next_state (state c) (has_bye c) ev, next_unref ev c u, tab h') /\
    with_tab (tab h') h = h' /\
    hinv_k p (k + freed ev c) h' /\ cells (tab h') !! p = Some (next_cell ev c).
Proof.
  intros Hev I Hc Hr. destruct (inv_tab _ _ _ I) as [l OK].
  pose proof (inv_cells _ _ _ I p c Hc) as C. rewrite decide_True in C by done.
  exists (with_tab (put p (next_cell ev c) (tab h)) h). split; [|split; [done|split]].
  - rewrite (next_state_dlg_pure _ l p c); [done|done|done|apply C|done].
  - apply (hinv_put p k _ h c); [done|done|apply next_cell_entry|]. by apply next_cell_inv.
  - apply put_lookup.
Qed.

(** ** The handlers' updates of one dialog *)

(** A table operation with a return code. *)
Definition keeps_st (h : hst) (r : Z * dlg_st) : Prop := keeps h (with_tab r.2 h).

Lemma upd_keeps_st h p f rc :
  (exists l, tab_ok (tab h) l) -> live p h -> (forall c, core (f c) = core c /\ dangling (f c) = dangling c) ->
  outcome (st ← upd_cell f p (tab h); Ret (rc, st)) (keeps_st h).
Proof.
  intros G A Hf. pose proof (on_cell_keeps h G p A f Hf) as K. revert K.
  unfold on_cell, on_tab. destruct (upd_cell f p (tab h)) as [st|x]; run; intros K.
  - apply oc_ret. by apply (oc_eq _ _ _ K).
  - unfold outcome in *. destruct safe; [|done]. by destruct K as (? & ? & _).
Qed.

Lemma intact_leg c l : intact c = true -> leg_get (dangling c) l = (false, false).
Proof.
  unfold intact. destruct (dangling c) as [[[] []] [[] []]]; try done. by destruct l.
Qed.

(** Saving a dialog when it changes may fault. *)
Section Handlers.
Context (cfg : config) (e : env) (NR : safe = true -> dlg_db_mode cfg <> DB_MODE_REALTIME).

Lemma update_cseqs_keeps h p req d :
  (exists l, tab_ok (tab h) l) -> live p h ->
  outcome (update_cseqs e p req d (tab h)) (keeps_st h).
Proof.
  intros G A.
  assert (S : forall rc, outcome (Ret (rc, tab h)) (keeps_st h)).
  { intros rc. apply oc_ret. split; [done|]. by constructor. }
  assert (U : forall l v, outcome (dlg_update_cseq (shm_ok e) p l v (tab h)) (keeps_st h)).
  { intros l v. unfold dlg_update_cseq. eapply oc_bind; [by apply get_cell_returns|].
    intros c [Hc Hi]. cbv zeta. eapply oc_bind with (Q := fun _ => True).
    - destruct (leg_get (dangling c) l).2 eqn:Ed; [|cbn [andb]; by repeat case_match; apply oc_ret].
      assert (Hu : safe = false).
      { apply not_true_iff_false. intros Hs. rewrite (intact_leg c l (Hi Hs)) in Ed. done. }
      repeat case_match; first [by apply oc_ret|by apply oc_unsafe].
    - intros [b|] _; by apply upd_keeps_st. }
  unfold update_cseqs. destruct (m_cseq req); [|done]. by destruct d.
Qed.

Lemma maybe_db_keeps h p :
  (exists l, tab_ok (tab h) l) -> live p h ->
  outcome (if decide (dlg_db_mode cfg = DB_MODE_REALTIME) then db_update e p h else Ret h)
    (keeps h).
Proof.
  intros G A. case_decide as E; [|apply oc_ret; by apply keeps_refl].
  apply oc_unsafe; [apply not_true_iff_false; intros Hs; by apply NR|].
  unfold db_update, on_db, update_dialog_dbinfo. destruct (db_use_ok e).
  - eapply may_bind; [by apply save_dialog_keeps|]. intros [[rc ops] st] [G' [B1 B2 B3]].
    apply may_ret. split; [exact G'|]. constructor; [exact B1|exact B2|exact B3].
  - apply may_ret. destruct h. by apply say_none_keeps.
Qed.

(** Setting a flag and saving the dialog. *)
Lemma mark_changed_keeps h p f :
  (exists l, tab_ok (tab h) l) -> live p h -> (forall c, core (f c) = core c /\ dangling (f c) = dangling c) ->
  outcome (h ← on_cell f p h;
           if decide (dlg_db_mode cfg = DB_MODE_REALTIME) then db_update e p h else Ret h)
    (keeps h).
Proof.
  intros G A Hf. apply (keeps_bind _ _ h p); [done|by apply on_cell_keeps|].
  intros h' G' A'. by apply maybe_db_keeps.
Qed.

Lemma on_sequential_keeps h p d req :
  (exists l, tab_ok (tab h) l) -> live p h ->
  outcome (on_sequential cfg e p d req h) (keeps h).
Proof.
  intros G A. unfold on_sequential. apply (keeps_bind _ _ h p); [done|by apply on_cell_keeps|].
  clear h G A. intros h G A. eapply oc_bind; [by apply get_cell_returns|]. intros c Hc.
  eapply oc_bind.
  { apply (timer_keeps h G p A). intros. by apply DlgTimer.update_dlg_timer_total. }
  intros [rc tl] K. set (h1 := with_tab _ h) in *. pose proof K as [G1 B1].
  pose proof (benign_live _ _ p B1 A) as A1.
  destruct (rc =? -1); [by apply oc_ret|].
  eapply oc_bind; [by apply update_cseqs_keeps|]. intros [rc2 st] K2.
  set (h2 := with_tab st h1) in *. pose proof K2 as [G2 B2].
  pose proof (benign_live _ _ p B2 A1) as A2.
  eapply oc_bind.
  { destruct (negb (rc2 =? 0)); [apply oc_ret; by apply keeps_refl|]. by apply mark_changed_keeps. }
  intros h3 K3. apply oc_ret. eapply keeps_trans; [exact K|]. eapply keeps_trans; [exact K2|].
  eapply keeps_trans; [exact K3|]. apply say_keeps, K3.
Qed.

(** A relayed reply: it has a To header and the relayed branch is one of the transaction's. *)
Definition reply_ok (t : tcell) (rpl : sip_msg) : Prop :=
  is_Some (m_to rpl) /\ 0 <= relaied_reply_branch t < Z.of_nat (length (added_rr t)).

Lemma skip_recs_returns n t rpl : (safe = true -> reply_ok t rpl) -> outcome (skip_recs_callee n t) (fun _ => True).
Proof.
  intros R. unfold outcome. destruct safe; [|done]. destruct (R eq_refl) as [_ Rb]. unfold skip_recs_callee. case_match; [|by apply returns_ret].
  rewrite (proj2 (Z.ltb_ge _ _)) by lia.
  destruct (lookup_lt_is_Some_2 (added_rr t) (Z.to_nat (relaied_reply_branch t))) as [r ->]; [lia|].
  by apply returns_ret.
Qed.

(** The two allocations of a leg succeed or fail together. *)
Definition evenly : Prop := (shm_leg e).1 = (shm_leg e).2.

(** The leg information is written into the cell and nowhere else; under [W] no pointer
    comes to dangle. *)
Definition rewrites (W : Prop) (p : Z) (h h' : hst) : Prop :=
  exists c c', cells (tab h) !! p = Some c /\ h' = with_tab (put p c' (tab h)) h /\ core c' = core c /\
    (W -> intact c = true -> intact c' = true).

Lemma rewrites_refl W p h c : cells (tab h) !! p = Some c -> rewrites W p h h.
Proof. intros Hc. exists c, c. split; [done|]. rewrite put_same by done. by destruct h. Qed.

Lemma rewrites_trans W p h1 h2 h3 : rewrites W p h1 h2 -> rewrites W p h2 h3 -> rewrites W p h1 h3.
Proof.
  intros (c1 & c2 & H1 & -> & E1 & W1) (d & c3 & H2 & -> & E2 & W2). exists c1, c3. split; [done|].
  simpl in H2 |- *. rewrite lookup_insert_eq in H2. injection H2 as <-. split; [|split; [congruence|auto]].
  unfold with_tab, put. simpl. by rewrite insert_insert_eq.
Qed.

Lemma rewrites_impl (W W' : Prop) p h h' : (W' -> W) -> rewrites W p h h' -> rewrites W' p h h'.
Proof. intros HW (c & c' & ? & ? & ? & ?). exists c, c'. split_and!; auto. Qed.

Lemma rewrites_keeps W p h h' c :
  (exists l, tab_ok (tab h) l) -> cells (tab h) !! p = Some c -> (held c -> W) -> rewrites W p h h' -> keeps h h'.
Proof.
  intros [l OK] Hc0 Hw (c1 & c' & Hc & -> & E & Hi). assert (c1 = c) as -> by congruence.
  assert (h_entry c' = h_entry c) by (unfold core in E; congruence).
  split; [exists l; by apply (put_ok _ l p c)|]. constructor; [done|done|].
  intros q. simpl. rewrite lookup_insert. case_decide; [|auto]. subst. rewrite Hc. constructor. split; auto.
Qed.

Lemma rewrites_some W p h h' : rewrites W p h h' -> is_Some (cells (tab h') !! p).
Proof. intros (c & c' & _ & -> & _). exists c'. apply put_lookup. Qed.

Lemma on_cell_rewrites W f p h :
  p <> 0 -> is_Some (cells (tab h) !! p) -> (forall c, core (f c) = core c /\ dangling (f c) = dangling c) ->
  outcome (on_cell f p h) (rewrites W p h).
Proof.
  intros N [c Hc] Hf. unfold on_cell, on_tab. rewrite (upd_cell_at f p _ c) by done. run.
  apply oc_ret. destruct (Hf c) as [Hf1 Hf2]. exists c, (f c). split_and!; try done. unfold intact. by rewrite Hf2.
Qed.

Lemma set_leg_rewrites h p tg rr ct cs l :
  p <> 0 -> is_Some (cells (tab h) !! p) ->
  outcome (dlg_set_leg_info (shm_leg e) p tg rr ct cs l (tab h)) (fun r => rewrites (evenly \/ r.1 = 0) p h (with_tab r.2 h)).
Proof.
  intros N [c Hc]. unfold dlg_set_leg_info, evenly.
  assert (D : forall c' m, dangling c' = leg_set (dangling c) l m -> m = (false, false) -> intact c = true -> intact c' = true).
  { intros c' m E -> Hi. unfold intact. rewrite E. pose proof (intact_leg c DLG_CALLER_LEG Hi). pose proof (intact_leg c DLG_CALLEE_LEG Hi).
    destruct (dangling c) as [a b]. simpl in *. subst. by destruct l. }
  destruct (shm_leg e) as [a b]. cbn [fst snd]. destruct (a && b) eqn:Eab; rewrite (upd_cell_at _ p _ c) by done; run; apply oc_ret.
  - exists c. eexists. split; [done|]. split; [done|]. split; [done|]. intros _. by apply (D _ (false, false)).
  - exists c. eexists. split; [done|]. split; [done|]. split; [done|]. intros [E|E]; [|done]. apply (D _ (a, b)); [done|].
    simpl in E. subst. by destruct b.
Qed.

Lemma populate_leg_info_rewrites h p m t l tg :
  p <> 0 -> is_Some (cells (tab h) !! p) -> (l = DLG_CALLEE_LEG -> safe = true -> reply_ok t m) ->
  outcome (populate_leg_info e p m t l tg h) (fun r => rewrites (evenly \/ r.1 = 0) p h r.2).
Proof.
  intros N [c Hc] Hl. unfold populate_leg_info.
  assert (Eg : get_cell p (tab h) = Ret c) by (unfold get_cell; by rewrite (proj2 (Z.eqb_neq p 0) N), Hc).
  rewrite Eg. run.
  assert (S : outcome (Ret (-1, h)) (fun r => rewrites (evenly \/ r.1 = 0) p h r.2)) by (apply oc_ret; by apply (rewrites_refl _ p h c)).
  destruct (match l with DLG_CALLER_LEG => _ | _ => _ end) as [cs|]; [|done].
  destruct (m_contact m) as [ct|]; [|done]. destruct (m_rr m) as [routes|]; [|done].
  eapply oc_bind with (Q := fun _ => True).
  { destruct l; [by apply oc_ret|]. apply (skip_recs_returns _ _ m). by apply Hl. }
  intros skip _. destruct (match routes with [] => _ | _ => _ end) as [[rr sk]|]; [|done].
  eapply oc_bind with (Q := rewrites True p h).
  { destruct l; [by apply on_cell_rewrites|]. apply oc_ret. by apply (rewrites_refl _ p h c). }
  intros h1 R1. eapply oc_bind; [apply set_leg_rewrites; [done|by apply (rewrites_some True p h)]|].
  intros [rc st] R2. set (h2 := with_tab st h1) in *. simpl in R2. fold h2 in R2.
  assert (R02 : rewrites (evenly \/ rc = 0) p h h2).
  { apply (rewrites_trans _ p h h1 h2); [by apply (rewrites_impl True)|done]. }
  destruct (Z.eqb_spec rc 0) as [->|Hrc]; cbn [negb].
  - eapply oc_bind; [apply on_cell_rewrites; [done|by eapply rewrites_some|done]|].
    intros h3 R3. apply oc_ret. cbn [fst snd]. by apply (rewrites_trans _ p h h2).
  - apply oc_ret. cbn [fst snd]. eapply rewrites_impl; [|exact R02]. intros [?|?]; [by left|lia].
Qed.

Lemma add_stat_keeps f h : (exists l, tab_ok (tab h) l) -> keeps h (add_stat cfg f h).
Proof. intros G. unfold add_stat. case_match; split; try done; by constructor. Qed.

Lemma on_confirmed_keeps h p t old rpl :
  (exists l, tab_ok (tab h) l) -> live p h -> (forall c, cells (tab h) !! p = Some c -> pre_answer (state c) = false) ->
  (safe = true -> reply_ok t rpl /\ evenly) -> outcome (on_confirmed cfg e t p old rpl h) (keeps h).
Proof.
  intros G A Ha Hr. unfold on_confirmed. destruct (m_to rpl) as [[u tg]|] eqn:Eto.
  2: { apply oc_unsafe; [|done]. apply not_true_iff_false. intros Hs. destruct (Hr Hs) as [[[x Hx] _] _]. congruence. }
  run. pose proof A as (c & Hc & _). assert (N : p <> 0) by (destruct G as [l OK]; by destruct (tab_cell _ _ OK p c Hc)).
  eapply oc_bind; [apply populate_leg_info_rewrites; [done|by exists c|intros _ Hs; by apply Hr]|].
  intros [rc h1] Rw. apply (rewrites_keeps _ p h h1 c) in Rw as [G1 B1]; [|done..|].
  2: { intros [Hs|Hp]; [left; by apply Hr|]. by rewrite (Ha c Hc) in Hp. }
  simpl in *. clear c Hc N Ha.
  eapply oc_impl; [|intros h'; apply (keeps_trans h h1); by split].
  pose proof (benign_live _ _ p B1 A) as A1. clear h G A B1.
  apply (keeps_bind _ _ h1 p); [done|by apply on_cell_keeps|]. clear h1 G1 A1. intros h G A.
  apply (keeps_bind _ _ h p); [done|by apply on_cell_keeps|]. clear h G A. intros h G A.
  apply (keeps_bind _ _ h p); [done|by apply maybe_db_keeps|]. clear h G A. intros h G A.
  eapply oc_bind; [by apply get_cell_returns|]. intros c Hc. eapply oc_bind.
  { apply (timer_keeps h G p A). intros. by apply DlgTimer.insert_dlg_timer_total. }
  intros [rc2 tl] K. set (h1 := with_tab _ h) in *. pose proof K as [G1 _].
  apply oc_ret. eapply keeps_trans; [exact K|].
  eapply keeps_trans; [by apply (say_keeps (Callback DLGCB_CONFIRMED p))|].
  destruct (old =? DLG_STATE_EARLY); [|by apply add_stat_keeps].
  eapply keeps_trans; [by apply (add_stat_keeps (add_early (-1)))|].
  apply add_stat_keeps. unfold add_stat. by case_match.
Qed.

(** ** The entry points *)

Lemma maybe_remove_keeps h p :
  (exists l, tab_ok (tab h) l) -> live p h ->
  outcome (if decide (dlg_db_mode cfg = DB_MODE_NONE) then Ret h else db_remove e p h)
    (keeps h).
Proof.
  intros G A. case_decide; [|by apply db_remove_keeps].
  apply oc_ret. by apply keeps_refl.
Qed.

(** The state depends on the cells, the entries and the callbacks only. *)
Lemma hinv_sts s h : hinv h -> hinv (with_sts s h).
Proof. intros I. constructor; apply I. Qed.

Lemma hinv_stat f h : hinv h -> hinv (add_stat cfg f h).
Proof. intros I. unfold add_stat. case_match; [by apply hinv_sts|done]. Qed.

Lemma unref_after_keeps p k cnt h h' :
  hinv_k p k h -> live p h -> keeps h h' -> 0 <= cnt <= k ->
  outcome (on_tab (unref_dlg p cnt) h') hinv.
Proof.
  intros I A K Hk. destruct (benign_live h h' p) as (c & Hc & _); [apply K|done|].
  apply (unref_inv p k cnt h' c); [|done|done]. by apply (hinv_k_keeps p k h).
Qed.

Lemma next_unref_ends ev c u :
  deleted (next_state (state c) (has_bye c) ev) = true -> deleted (state c) = false ->
  next_unref ev c u = 1.
Proof. unfold next_unref. by intros -> ->. Qed.

Lemma dlg_ontimeout_inv p h :
  hinv h -> is_Some (cells (tab h) !! p) -> outcome (dlg_ontimeout cfg e p h) hinv.
Proof.
  intros I [c Hc]. apply (hinv_at p) in I. unfold dlg_ontimeout.
  destruct (transition_inv p 0 DLG_EVENT_REQBYE (stack_unref e) h c) as (h1 & E & E1 & I1 & C1);
    [done..|].
  rewrite E. run. rewrite E1.
  change (_ =? DLG_STATE_DELETED) with (deleted (next_state (state c) (has_bye c) DLG_EVENT_REQBYE)) at 1.
  change (state c =? DLG_STATE_DELETED) with (deleted (state c)).
  assert (G1 : exists l, tab_ok (tab h1) l) by apply I1.
  destruct (deleted (next_state _ _ _)) eqn:D1; simpl.
  2: { apply oc_ret. eapply hinv_drop; [|exact I1]. unfold freed, next_unref. case_match; lia. }
  destruct (deleted (state c)) eqn:D0; simpl.
  { apply oc_ret. eapply hinv_drop; [|exact I1]. unfold freed, next_unref. case_match; lia. }
  rewrite next_unref_ends by done. unfold freed in I1. rewrite next_unref_ends in I1 by done.
  set (h2 := run_dlg_callbacks _ _ _). assert (K2 : keeps h1 h2) by (by apply say_keeps).
  assert (A2 : live p h2) by (apply (benign_live h1); [apply K2|]; apply (inv_live _ _ _ _ I1); by exists (next_cell DLG_EVENT_REQBYE c)).
  eapply oc_bind; [apply (maybe_remove_keeps h2 p); [apply K2|done]|]. intros h3 K3.
  eapply oc_bind.
  - apply (unref_after_keeps p 1 1 h2 h3); [by apply (hinv_k_keeps p 1 h1)|done|done|lia].
  - intros h4 I4. apply oc_ret. by do 2 apply hinv_stat.
Qed.

(** Finding the dialog of a request: nothing is found and the invariant holds, or one
    reference is held on the dialog found. *)
Definition found_inv (r : option (Z * dir) * hst) : Prop :=
  match r.1 with
  | None => hinv r.2
  | Some (p, _) => hinv_k p 1 r.2 /\ is_Some (cells (tab r.2) !! p)
  end.

Lemma match_scan_total st l i en ps clid ftag ttag d :
  tab_ok st l -> entries st !! i = Some en -> (forall p, In p ps -> In p (dlgs en)) ->
  outcome (match_scan ps clid ftag ttag d st) (fun r => forall p, r.1 = Some p -> In p ps).
Proof.
  intros OK He. revert d. induction ps as [|q ps IH]; simpl; intros d Hs; [by apply oc_ret|].
  destruct (tab_linked _ _ OK i en q He) as (c & Hc & _); [auto|].
  rewrite (get_cell_ok st l q c) by done. run. destruct (match_dialog c clid ftag ttag d) as [[] d'].
  - destruct (_ =? _); apply oc_ret; simpl; [done|]. intros p [= <-]. auto.
  - eapply oc_impl; [apply IH; auto|]. intros r Hr p Hp. auto.
Qed.

Lemma internal_get_dlg_inv h en clid ftag ttag d :
  hinv h -> small h -> 0 <= en < size (tab h) ->
  outcome (internal_get_dlg en clid ftag ttag d (tab h))
    (fun r => (r.1.1 = None /\ r.2 = tab h) \/
      exists p, r.1.1 = Some p /\ hinv_k p 1 (with_tab r.2 h) /\ is_Some (cells r.2 !! p)).
Proof.
  intros I S R. destruct (inv_tab _ _ _ I) as [l OK]. unfold internal_get_dlg, get_entry, size in *.
  destruct (lookup_lt_is_Some_2 (entries (tab h)) (Z.to_nat en)) as [x He]; [lia|]. rewrite He. run.
  eapply oc_bind; [by apply (match_scan_total (tab h) l (Z.to_nat en) x)|]. intros [[p|] d'] Hp; simpl in *.
  - destruct (tab_linked _ _ OK _ x p He (Hp p eq_refl)) as (c & Hc & _).
    unfold ref_dlg_unsafe. rewrite (upd_cell_put (tab h) l _ p c) by done. run. apply oc_ret.
    right. exists p. split; [done|]. split; [|eexists; apply put_lookup].
    apply (ref_inv p 0); [by apply hinv_at|done|by apply (S p)].
  - apply oc_ret. by left.
Qed.

Lemma core_hash_size h s1 s2 : hinv h -> 0 <= HashFunc.core_hash s1 s2 (size (tab h)) < size (tab h).
Proof. intros I. apply HashFunc.hash_words_range, (inv_size _ _ _ I). Qed.

Lemma get_dlg_inv h clid ftag ttag d :
  hinv h -> small h ->
  outcome (get_dlg clid ftag ttag d (tab h))
    (fun r => (r.1.1 = None /\ r.2 = tab h) \/
      exists p, r.1.1 = Some p /\ hinv_k p 1 (with_tab r.2 h) /\ is_Some (cells r.2 !! p)).
Proof.
  intros I S. unfold get_dlg.
  eapply oc_bind; [by apply internal_get_dlg_inv; [..|apply core_hash_size]|].
  intros [[[p|] d'] st] [[E1 E2]|(q & E & F)]; simplify_eq/=.
  - apply oc_ret. right. by exists q.
  - by apply internal_get_dlg_inv; [..|apply core_hash_size].
Qed.

Lemma find_dialog_inv h req : hinv h -> small h -> outcome (find_dialog cfg req h) found_inv.
Proof.
  intros I S. unfold find_dialog. cbv zeta.
  assert (N : forall h', hinv h' -> outcome (Ret (None, h')) found_inv) by (intros; by apply oc_ret).
  assert (T : outcome (match pre_match_parse req with
    | None => Ret (None, h)
    | Some (clid, ftag, ttag) =>
        '(r, d, st) ← get_dlg clid ftag ttag DLG_DIR_NONE (tab h);
        Ret (match r with Some p => Some (p, d) | None => None end, with_tab st h)
    end) found_inv).
  { destruct (pre_match_parse req) as [[[clid ftag] ttag]|]; [|by apply N].
    eapply oc_bind; [by apply get_dlg_inv|].
    intros [[[p|] d'] st] [[E1 E2]|(q & E & F)]; simplify_eq/=; apply oc_ret; [done|].
    unfold found_inv. simpl. by destruct h. }
  case_decide; [done|]. destruct (m_route_param req) as [[val nxt]|]; [|case_decide; [by apply N|done]].
  destruct (parse_dlg_rr_param val nxt) as [[en id]|]; [|by apply N].
  destruct (inv_tab _ _ _ I) as [l OK].
  destruct (lookup_dlg_spec (tab h) l (u32 en) (u32 id) OK (proj1 (u32_range en)))
    as [E|(p & c & E & Hc & _)]; rewrite E; run.
  - apply N. by destruct h.
  - pose proof (ref_inv p 0 h c (hinv_at p h I) Hc (S p c Hc)) as I1.
    set (h1 := with_tab _ h) in *. set (c1 := set_ref _ c) in *.
    assert (C1 : cells (tab h1) !! p = Some c1) by apply put_lookup.
    assert (D : hinv h1) by (by apply (hinv_drop p (0 + 1))).
    destruct (pre_match_parse req) as [[[clid ftag] ttag]|]; [|by apply N].
    destruct (inv_tab _ _ _ I1) as [l1 OK1]. rewrite (get_cell_ok _ l1 p c1) by done. run.
    destruct (match_dialog c1 clid ftag ttag DLG_DIR_NONE) as [[] d]; [|by apply N].
    apply oc_ret. split; [done|by exists c1].
Qed.

(** The part of [dlg_onroute] after a request that does not end the dialog. *)
Lemma after_request_keeps h p d req ev old new :
  (exists l, tab_ok (tab h) l) -> live p h ->
  outcome (h ← (if (match ev with DLG_EVENT_REQ | DLG_EVENT_REQACK => true | _ => false end)
                   && (new =? DLG_STATE_CONFIRMED)
                then on_sequential cfg e p d req h else Ret h);
           if (new =? DLG_STATE_CONFIRMED) && (old =? DLG_STATE_CONFIRMED_NA) then
             h ← on_cell (fun c => set_flags (Z.lor (flags c) DLG_FLAG_CHANGED) c) p h;
             if decide (dlg_db_mode cfg = DB_MODE_REALTIME) then db_update e p h else Ret h
           else Ret h) (keeps h).
Proof.
  intros G A. apply (keeps_bind _ _ h p); [done|..].
  - destruct (_ && _); [by apply on_sequential_keeps|]. apply oc_ret. by apply keeps_refl.
  - intros h' G' A'. destruct (_ && _); [by apply mark_changed_keeps|].
    apply oc_ret. by apply keeps_refl.
Qed.

Lemma request_event_not_tdel req : request_event req <> DLG_EVENT_TDEL.
Proof. unfold request_event. by repeat case_match. Qed.

Lemma request_event_not_2xx req P : request_event req = DLG_EVENT_RPL2xx -> P.
Proof. unfold request_event. by repeat case_match. Qed.

Lemma freed_nonneg ev c : 0 <= freed ev c.
Proof. unfold freed, next_unref. case_match; lia. Qed.

Lemma bind_assoc {A B C} (m : res A) (f : A -> res B) (g : B -> res C) :
  (m ≫= f) ≫= g = m ≫= (fun x => f x ≫= g).
Proof. by destruct m. Qed.

Lemma dlg_onroute_inv h req : hinv h -> small h -> outcome (dlg_onroute cfg e req h) hinv.
Proof.
  intros I S. unfold dlg_onroute.
  eapply oc_bind; [exact (find_dialog_inv h req I S)|]. intros [found h0] F. clear I S. destruct found as [[p d]|]; [|by apply oc_ret].
  destruct F as [I0 [c Hc]]. simpl in I0, Hc. set (ev := request_event req).
  destruct (transition_inv p 1 ev (stack_unref e) h0 c) as (h1 & E & E1 & I1 & C1);
    [apply request_event_not_tdel|done|done|by apply request_event_not_2xx|].
  rewrite E. run. rewrite E1. destruct (inv_tab _ _ _ I1) as [l1 OK1].
  rewrite (get_cell_ok _ l1 p _ OK1 C1). run.
  set (h2 := H _ _ _ _ _). assert (I2 : hinv_k p (1 + freed ev c) h2) by (constructor; apply I1).
  assert (A2 : live p h2) by (apply (inv_live _ _ _ _ I2); by exists (next_cell ev c)).
  assert (G2 : exists l, tab_ok (tab h2) l) by apply I2. clearbody h2.
  clear h1 E E1 I1 C1 l1 OK1.
  destruct ((match ev with DLG_EVENT_REQBYE => true | _ => false end) && _ && _) eqn:Eb.
  - apply andb_true_iff in Eb as [Eb D0]. apply andb_true_iff in Eb as [_ D1].
    apply negb_true_iff in D0. rewrite next_unref_ends by done.
    unfold freed in I2. rewrite next_unref_ends in I2 by done.
    eapply oc_bind.
    { apply (timer_keeps h2 G2 p A2). intros. by apply DlgTimer.remove_dlg_timer_step. }
    intros [rc tl] K3. set (h3 := with_tab _ h2) in *. set (h4 := run_dlg_callbacks _ _ h3).
    assert (K4 : keeps h2 h4) by (apply (keeps_trans h2 h3); [done|apply say_keeps, K3]).
    eapply oc_bind.
    { apply (maybe_remove_keeps h4 p); [apply K4|]. apply (benign_live h2); [apply K4|done]. }
    intros h5 K5. eapply oc_bind; [apply (unref_after_keeps p 2 _ h2 h5)|].
    + done.
    + done.
    + by apply (keeps_trans h2 h4).
    + lia.
    + intros h6 I6. apply oc_ret. by apply hinv_stat.
  - rewrite <- bind_assoc. eapply oc_bind; [by apply after_request_keeps|].
    intros h5 K5. apply (unref_after_keeps p (1 + freed ev c) _ h2 h5); [done..|].
    pose proof (freed_nonneg ev c). lia.
Qed.

(** A reply of the transaction. *)
Lemma dlg_onreply_inv h t code p rpl :
  hinv h -> small h -> p ∈ tmcbs h -> (safe = true -> reply_ok t rpl /\ evenly) ->
  outcome (dlg_onreply cfg e t TMCB_RESPONSE_OUT code p rpl h) hinv.
Proof.
  intros I S Hp Hr. unfold dlg_onreply. destruct (_ || _); [by apply oc_ret|].
  destruct (inv_tmcbs _ _ _ I p Hp) as [c Hc]. apply (hinv_at p) in I.
  set (ev := reply_event TMCB_RESPONSE_OUT code).
  destruct (transition_inv p 0 ev (stack_unref e) h c) as (h1 & E & E1 & I1 & C1);
    [unfold ev; simpl; by repeat case_match|done|done|intros; by apply (S p)|].
  rewrite E. run. rewrite E1. clear E E1.
  assert (G1 : exists l, tab_ok (tab h1) l) by apply I1.
  assert (A1 : live p h1) by (apply (inv_live _ _ _ _ I1); by exists (next_cell ev c)).
  assert (D : forall h', keeps h1 h' -> outcome (Ret h') hinv).
  { intros h' K. apply oc_ret. apply (hinv_drop p (0 + freed ev c)); [apply freed_nonneg|].
    by apply (hinv_k_keeps p _ h1). }
  destruct (_ =? DLG_STATE_EARLY).
  { apply D. set (h2 := run_dlg_callbacks _ _ _). assert (K2 : keeps h1 h2) by (by apply say_keeps).
    destruct (negb _); [|done]. apply (keeps_trans h1 h2); [done|]. apply add_stat_keeps, K2. }
  destruct (_ && _ && _) eqn:Ec.
  { apply andb_true_iff in Ec as [Ec _]. apply andb_true_iff in Ec as [Ec _]. apply Z.eqb_eq in Ec.
    eapply oc_impl; [apply (on_confirmed_keeps h1 p t (state c) rpl G1 A1); [|done]|].
    - rewrite C1. intros c' [= <-]. by rewrite next_cell_state, Ec.
    - intros h2 K2. by apply (oc_eq (Ret h2) _ _ (D h2 K2)). }
  clear Ec. destruct (negb (state c =? DLG_STATE_DELETED) && _) eqn:Eb; [|by apply D, keeps_refl].
  apply andb_true_iff in Eb as [D0 D1]. apply negb_true_iff in D0.
  rewrite next_unref_ends by done. unfold freed in I1. rewrite next_unref_ends in I1 by done. simpl negb.
  cbv iota. eapply oc_bind.
  { apply (unref_after_keeps p 1 1 h1); [done|done|by apply say_keeps|lia]. }
  intros h3 I3. apply oc_ret. destruct (state c =? DLG_STATE_EARLY); [by apply hinv_stat|done].
Qed.

(** ** The end of the transaction *)

Definition drop_tmcb (p : Z) (h : hst) : hst := H (tab h) (tmcbs h ∖ {[p]}) (sts h) (log h) (curr h).

Lemma has_tmcb_drop p q h : has_tmcb (drop_tmcb p h) q = if decide (q = p) then false else has_tmcb h q.
Proof. unfold has_tmcb. simpl. case_decide; subst; case_bool_decide; [set_solver|done|..];
  symmetry; apply bool_decide_eq_true || apply bool_decide_eq_false; set_solver. Qed.

(** Forgetting the registration leaves the reference that was kept for it. *)
Lemma drop_tmcb_inv p h : hinv h -> p ∈ tmcbs h -> hinv_k p 1 (drop_tmcb p h).
Proof.
  intros I Hp. constructor; [apply (inv_tab _ _ _ I)|apply (inv_size _ _ _ I)|..].
  - intros q c Hc. pose proof (inv_cells _ _ _ I q c Hc) as C. rewrite has_tmcb_drop.
    rewrite zero_extra in C. case_decide; [|done].
    subst. replace (has_tmcb h p) with true in C by (symmetry; by apply bool_decide_eq_true).
    destruct C as (V & R & Nd & Hi). split; [done|]. split; [done|]. split; [|done]. unfold need in *. lia.
  - intros q Hq. apply (inv_tmcbs _ _ _ I). simpl in Hq. set_solver.
Qed.

Lemma tdel_cell_inv c :
  cell_inv false 1 c -> 1 < ref c -> cell_inv false (freed DLG_EVENT_TDEL c) (next_cell DLG_EVENT_TDEL c).
Proof.
  intros (V & R & N & Hk) Hr. split; [by apply next_state_valid|].
  apply and_assoc. split; [|by apply next_cell_held].
  rewrite next_cell_ref. unfold need, freed, next_unref in *. rewrite next_cell_state.
  set (s := state c) in *. unfold valid_state in V. cbv zeta.
  assert (Hs : s = 1 \/ s = 2 \/ s = 3 \/ s = 4 \/ s = 5) by lia. clearbody s.
  destruct Hs as [->|[->|[->|[->| ->]]]]; simpl in *; rewrite ?s32_small by lia; lia.
Qed.

Lemma drop_on_tab p f h :
  (h' ← on_tab f h; Ret (drop_tmcb p h')) = on_tab f (drop_tmcb p h).
Proof. unfold on_tab. simpl. by destruct (f (tab h)). Qed.

(** The state of a dialog after its transaction was deleted, before the callbacks. *)
Lemma tdel_transition h p c :
  hinv h -> p ∈ tmcbs h -> cells (tab h) !! p = Some c -> 1 < ref c ->
  let h1 := with_tab (put p (next_cell DLG_EVENT_TDEL c) (tab h)) h in
  next_state_dlg p DLG_EVENT_TDEL (stack_unref e) (tab h) =
    Ret (state c, next_state (state c) (has_bye c) DLG_EVENT_TDEL,
         next_unref DLG_EVENT_TDEL c (stack_unref e), tab h1) /\
  hinv_k p (freed DLG_EVENT_TDEL c) (drop_tmcb p h1).
Proof.
  intros I Hp Hc Hr h1. pose proof (drop_tmcb_inv p h I Hp) as I0.
  destruct (inv_tab _ _ _ I) as [l OK].
  pose proof (inv_cells _ _ _ I0 p c Hc) as C. rewrite decide_True in C by done.
  rewrite has_tmcb_drop, decide_True in C by done. split.
  - apply (next_state_dlg_pure (tab h) l p c); [done|done|apply C|].
    intros _. destruct C as (_ & R & _). rewrite s32_small; lia.
  - change (drop_tmcb p h1) with (with_tab (put p (next_cell DLG_EVENT_TDEL c) (tab h)) (drop_tmcb p h)).
    apply (hinv_put p 1 _ (drop_tmcb p h) c); [done|done|apply next_cell_entry|].
    rewrite has_tmcb_drop, decide_True by done. by apply tdel_cell_inv.
Qed.

Lemma tdel_state s bye :
  next_state s bye DLG_EVENT_TDEL = DLG_STATE_DELETED \/
  (next_state s bye DLG_EVENT_TDEL = s /\ pre_answer s = false).
Proof. simpl. destruct (pre_answer s); auto. Qed.

(** Deleting the transaction gives its reference up; the dialog must hold another. *)
Lemma trans_deleted_inv h t p rpl c :
  hinv h -> p ∈ tmcbs h -> cells (tab h) !! p = Some c -> 1 < ref c ->
  shutdown_done e = false ->
  returns (trans_deleted cfg e t p rpl h) hinv.
Proof.
  intros I Hp Hc Hr Hs. destruct (tdel_transition h p c I Hp Hc Hr) as [E I1].
  destruct (inv_tab _ _ _ I) as [l OK]. destruct (tab_cell _ _ OK p c Hc) as (N & _).
  unfold trans_deleted. fold (drop_tmcb p). unfold dlg_onreply. rewrite Hs, (proj2 (Z.eqb_neq p 0) N).
  cbn [orb reply_event]. rewrite E. run. set (h1 := with_tab _ h) in *. change (with_tab (tab h1) h) with h1.
  assert (D : returns (Ret (drop_tmcb p h1)) hinv).
  { apply returns_ret. by apply (hinv_drop p (freed DLG_EVENT_TDEL c)); [apply freed_nonneg|]. }
  assert (G1 : exists l, tab_ok (tab (drop_tmcb p h1)) l) by apply I1.
  destruct (tdel_state (state c) (has_bye c)) as [E1|[E1 E2]].
  - unfold freed in I1. rewrite E1 in *. cbn [Z.eqb Pos.eqb andb]. simpl.
    destruct (state c =? DLG_STATE_DELETED) eqn:D0; [done|]. simpl.
    rewrite next_unref_ends in I1 |- * by (done || by rewrite E1). simpl negb. cbv iota.
    rewrite bind_assoc. set (h2 := run_dlg_callbacks _ _ h1).
    assert (R : returns (h' ← on_tab (unref_dlg p 1) h2; Ret (drop_tmcb p h')) hinv).
    { rewrite drop_on_tab. pose proof (say_keeps (Callback DLGCB_FAILED p) (drop_tmcb p h1) G1) as K.
      destruct (unref_cases p 1 1 (drop_tmcb p h2) (next_cell DLG_EVENT_TDEL c)) as [?|[Hi _]]; [|apply put_lookup|lia|done|].
      - by apply (hinv_k_keeps p 1 (drop_tmcb p h1)).
      - exfalso. rewrite next_cell_intact in Hi. destruct (inv_cells _ _ _ I p c Hc) as (V & _ & _ & Hk).
        rewrite Hk in Hi; [done|]. right. destruct (pre_answer (state c)) eqn:Ep; [done|].
        simpl in E1. rewrite Ep in E1. by rewrite E1 in D0. }
    destruct R as (h3 & R & I3). destruct (on_tab _ h2) as [h4|]; [|done]. revert R. run. intros [= <-].
    apply returns_ret. destruct (state c =? DLG_STATE_EARLY); [|done].
    unfold add_stat. destruct (dlg_enable_stats cfg); [|done]. constructor; apply I3.
  - rewrite E1. apply orb_false_iff in E2 as [_ E2]. rewrite E2.
    replace (_ && negb (state c =? _) && _) with false by (by destruct (state c =? DLG_STATE_CONFIRMED_NA)).
    replace (negb _ && _) with false by (by destruct (state c =? DLG_STATE_DELETED)). done.
Qed.

(** Otherwise the cell is freed and read again. *)
Lemma trans_deleted_last h t p rpl c :
  hinv h -> cells (tab h) !! p = Some c -> ref c = 1 -> shutdown_done e = false ->
  trans_deleted cfg e t p rpl h = Fault UseAfterFree.
Proof.
  intros I Hc Hr Hs. destruct (inv_tab _ _ _ I) as [l OK].
  destruct (tab_cell _ _ OK p c Hc) as (N & _). unfold trans_deleted, dlg_onreply.
  rewrite Hs, (proj2 (Z.eqb_neq p 0) N). cbn [orb reply_event].
  rewrite (next_state_dlg_freed _ l p c); [done|done|done| |by rewrite Hr].
  apply (inv_cells _ _ _ I p c Hc).
Qed.

(** ** A new dialog *)

Section New.
Context (p : Z) (h : hst) (I : hinv h) (F : fresh p (tab h)).

Definition with_new (c : dlg_cell) : hst := with_tab (add_cell p c (tab h)) h.

Lemma fresh_tmcb : p ∉ tmcbs h.
Proof. intros Hp. apply (inv_tmcbs _ _ _ I) in Hp as [c Hc]. destruct F as (_ & _ & E). congruence. Qed.

Lemma del_cell_inv c :
  hinv (with_tab (St (delete p (cells (tab (with_new c)))) (delete p (tls (tab (with_new c))))
                     (entries (tab (with_new c)))) h).
Proof.
  destruct (inv_tab _ _ _ I) as [l OK]. pose proof F as (N & Nf & E).
  assert (Ec : delete p (cells (tab (with_new c))) = cells (tab h)).
  { simpl. rewrite delete_insert_eq. by apply delete_id. }
  constructor; [|apply (inv_size _ _ _ I)|..].
  - exists l. by apply (del_cell_ok p _ F).
  - cbn [tab with_tab cells]. rewrite Ec. apply (inv_cells _ _ _ I).
  - cbn [tab with_tab cells]. rewrite Ec. apply (inv_tmcbs _ _ _ I).
Qed.

(** Linking the cell: it is on its chain with a reference for the table and one for
    the caller. *)
Lemma link_new_inv c :
  ref c = 0 -> state c = DLG_STATE_UNCONFIRMED -> 0 <= h_entry c < size (tab h) -> intact c = true ->
  returns (on_tab (link_dlg p 1) (with_new c))
    (fun h' => hinv_k p 1 h' /\ tmcbs h' = tmcbs h /\
               exists c', cells (tab h') !! p = Some c' /\ ref c' = 2).
Proof.
  intros Hr Hs Hh Hin. destruct (inv_tab _ _ _ I) as [l OK].
  destruct (link_new p (tab h) F l c 1 OK Hh) as (en & Le & El & OKl).
  unfold on_tab. cbn [tab with_new with_tab]. rewrite El. run. apply returns_ret.
  rewrite Hr. change (s32 (0 + (1 + 1))) with 2. split; [|split; [done|]].
  2: { eexists. split; [apply lookup_insert_eq|done]. }
  constructor; cbn [tab with_tab tmcbs cells].
  - by exists l; rewrite Hr in OKl.
  - unfold size. simpl. rewrite length_insert. apply (inv_size _ _ _ I).
  - intros q d. simpl. rewrite lookup_insert. case_decide; subst.
    + intros [= <-]. rewrite decide_True by done.
      unfold cell_inv, need, valid_state, deleted. simpl. rewrite Hs.
      replace (has_tmcb _ _) with false; [unfold DLG_STATE_UNCONFIRMED, DLG_STATE_DELETED; simpl; split_and!; done || lia|].
      symmetry. apply bool_decide_eq_false. apply fresh_tmcb.
    + intros Hd. pose proof (inv_cells _ _ _ I q d Hd) as C. rewrite decide_False by done.
      by destruct (decide (q = 0)).
  - intros q Hq. simpl. rewrite !lookup_insert. case_decide; [done|]. by apply (inv_tmcbs _ _ _ I).
Qed.

Lemma put_with_new c c' : with_tab (put p c' (tab (with_new c))) (with_new c) = with_new c'.
Proof. unfold with_new, add_cell, put, with_tab. simpl. by rewrite insert_insert_eq. Qed.

End New.

Lemma hinv_log ev h p k : hinv_k p k h -> hinv_k p k (say ev h).
Proof. intros I. constructor; apply I. Qed.

Definition add_tmcb (p : Z) (h : hst) : hst := H (tab h) ({[p]} ∪ tmcbs h) (sts h) (log h) (curr h).

Lemma has_tmcb_add p q h : has_tmcb (add_tmcb p h) q = if decide (q = p) then true else has_tmcb h q.
Proof. unfold has_tmcb. simpl. case_decide; subst; case_bool_decide; [done|set_solver|..];
  symmetry; apply bool_decide_eq_true || apply bool_decide_eq_false; set_solver. Qed.

Lemma add_tmcb_inv p h :
  hinv_k p 1 h -> is_Some (cells (tab h) !! p) -> p ∉ tmcbs h -> hinv (add_tmcb p h).
Proof.
  intros I A Np. constructor; [apply (inv_tab _ _ _ I)|apply (inv_size _ _ _ I)|..]; simpl.
  - intros q c Hc. pose proof (inv_cells _ _ _ I q c Hc) as C. rewrite has_tmcb_add, zero_extra.
    case_decide; [subst|done].
    replace (has_tmcb h p) with false in C by (symmetry; by apply bool_decide_eq_false).
    destruct C as (V & R & Nd & Hi). split; [done|]. split; [done|]. split; [|done]. unfold need in *. lia.
  - intros q Hq. apply elem_of_union in Hq as [Hq|Hq]; [|by apply (inv_tmcbs _ _ _ I)].
    apply elem_of_singleton in Hq as ->. done.
Qed.

(** After the cell is linked: register for the replies, or take the dialog back. *)
Lemma register_inv p h c' rrc sent req :
  hinv_k p 1 h -> cells (tab h) !! p = Some c' -> ref c' = 2 -> p ∉ tmcbs h -> p <> 0 ->
  outcome (let h := match sent with Some s => say (RouteParam s) h | None => h end in
           if (rrc <? 0) || negb (tmcb_ok e) then
             h ← on_tab (unref_dlg p 2) h; Ret (with_sts (add_failed 1 (sts h)) h)
           else
             let h := H (tab h) ({[p]} ∪ tmcbs h) (sts h) (log h) (curr h) in
             h ← on_cell (set_lifetime (u32 (get_dlg_timeout cfg req))) p h;
             Ret (add_stat cfg (add_processed 1) h)) hinv.
Proof.
  intros I Hc Hr Np N. cbv zeta. set (h1 := match sent with Some _ => _ | None => h end).
  assert (I1 : hinv_k p 1 h1) by (unfold h1; destruct sent; [by apply hinv_log|done]).
  assert (C1 : cells (tab h1) !! p = Some c') by (unfold h1; by destruct sent).
  assert (N1 : p ∉ tmcbs h1) by (unfold h1; by destruct sent).
  clearbody h1. destruct (_ || _).
  - eapply oc_bind; [apply (unref_outcome p 1 h1 c'); [done..|]; by apply (unref_free_inv p 1 2 h1 c'); [..|rewrite Hr|]|].
    intros h2 I2. apply oc_ret. by apply hinv_sts.
  - eapply oc_bind; [apply on_cell_keeps|].
    + apply (inv_tab _ _ _ I1).
    + apply (inv_live _ _ _ _ I1). by exists c'.
    + done.
    + intros h2 K2. apply oc_ret. apply hinv_stat.
      eapply hinv_k_keeps; [|exact K2]. by apply (add_tmcb_inv p h1); [|exists c'|].
Qed.

Lemma dlg_onreq_inv h t req :
  hinv h -> (forall p, shm_dlg e = Some p -> fresh p (tab h)) -> outcome (dlg_onreq cfg e t req h) hinv.
Proof.
  intros I Fr. unfold dlg_onreq. destruct (m_to req) as [[to_uri [|]]|]; [|by apply oc_ret..].
  destruct (_ =? METHOD_CANCEL); [by apply oc_ret|]. destruct (negb _); [by apply oc_ret|].
  destruct (m_from req) as [[from_uri ftag]|]; [|by apply oc_ret].
  destruct (m_callid req) as [clid|]; [|by apply oc_ret].
  unfold build_new_dlg. destruct (shm_dlg e) as [p|]; [|by apply oc_ret].
  specialize (Fr p eq_refl). set (c0 := {| ref := 0 |}). change (with_tab _ h) with (with_new p h c0).
  eapply oc_bind.
  { apply (populate_leg_info_rewrites (with_new p h c0)); [apply Fr| |done]. exists c0. apply lookup_insert_eq. }
  intros [rc h1] (c & c1 & Hc & E1 & Ec & Hin). cbn [fst snd] in E1, Hin. simpl in Hc. rewrite lookup_insert_eq in Hc.
  injection Hc as <-. rewrite put_with_new in E1. subst h1. unfold core in Ec. injection Ec as Er _ Ee Es.
  simpl in Er, Ee, Es. destruct (Z.eqb_spec rc 0) as [->|]; [|apply oc_ret, (del_cell_inv p h I Fr c1)]. cbn [negb].
  specialize (Hin (or_intror eq_refl) eq_refl).
  assert (Hh : 0 <= h_entry c1 < size (tab h)) by (rewrite Ee; by apply core_hash_size).
  set (h2 := run_dlg_callbacks _ _ _). destruct (link_new_inv p h I Fr c1 Er Es Hh Hin) as (h3 & E3 & I3 & T3 & c3 & C3 & R3).
  assert (E3' : on_tab (link_dlg p 1) h2 = Ret (say (Callback DLGCB_CREATED p) h3)).
  { revert E3. unfold on_tab. change (tab h2) with (tab (with_new p h c1)).
    destruct (link_dlg p 1 _); run; [|done]. by intros [= <-]. }
  rewrite E3'. run. destruct (inv_tab _ _ _ I3) as [l3 OK3].
  rewrite (get_cell_ok _ l3 p c3) by done. run.
  destruct (if decide _ then _ else _) as [rrc sent].
  apply (register_inv p (say (Callback DLGCB_CREATED p) h3) c3 rrc sent req).
  - by apply hinv_log.
  - done.
  - done.
  - simpl. rewrite T3. by apply fresh_tmcb.
  - apply Fr.
Qed.

End Handlers.
End Safe.

(** ** Reachable states *)

(** The module after [init_dlg_table], [init_dlg_timer] and [init_dlg_handlers]. *)
Definition init_state (ids : list Z) : hst :=
  H (St ∅ (DlgTimer.init_dlg_timer ∅) (init_dlg_table ids)) ∅ (Stats 0 0 0 0 0) [] (0, 0, 0).

(** One call of a handler that returns, made by the core, the transaction module, the
    Record-Route module or the timer, with any configuration, message and outcome of the
    calls it makes; only the counters must not be about to overflow, and [shm_malloc] must
    not return an address in use.  A handler is one step, so that the steps of different
    processes alternate call by call: the code holds the lock of the entry within
    [next_state_dlg], within a lookup and within [unref_dlg], but not from one to the other.
    [step_timeout] is the handler the timer calls for a dialog that is still in the table; the
    list of expired dialogs it takes them from ([DlgTimer]) is not part of the state. *)
Inductive step (cfg : config) : hst -> hst -> Prop :=
| step_request e t req h h' :
    (forall p, shm_dlg e = Some p -> fresh p (tab h)) ->
    dlg_onreq cfg e t req h = Ret h' -> step cfg h h'
| step_reply e t code p rpl h h' :
    small h -> p ∈ tmcbs h ->
    dlg_onreply cfg e t TMCB_RESPONSE_OUT code p rpl h = Ret h' -> step cfg h h'
| step_forwarded e t code p rpl h h' :
    dlg_onreply cfg e t TMCB_RESPONSE_FWDED code p rpl h = Ret h' -> step cfg h h'
| step_trans_deleted e t p rpl h h' :
    p ∈ tmcbs h -> trans_deleted cfg e t p rpl h = Ret h' -> step cfg h h'
| step_route e req h h' :
    small h -> dlg_onroute cfg e req h = Ret h' -> step cfg h h'
| step_timeout e p h h' :
    is_Some (cells (tab h) !! p) -> dlg_ontimeout cfg e p h = Ret h' -> step cfg h h'
| step_save now ticks use_ok op_ok h h' :
    save_all now ticks use_ok op_ok h = Ret h' -> step cfg h h'.

Definition reachable (cfg : config) (ids : list Z) (h : hst) : Prop := rtc (step cfg) (init_state ids) h.

Lemma init_state_inv safe ids : (0 < length ids)%nat -> Z.of_nat (length ids) <= 2 ^ 32 -> hinv safe (init_state ids).
Proof.
  intros L1 L2. constructor.
  - exists []. constructor; simpl; [apply DlgTimer.init_dlg_timer_ok|done|done|].
    intros i en p He Hp. unfold init_dlg_table in He. rewrite list_lookup_fmap in He.
    destruct (ids !! i); simplify_eq/=. done.
  - unfold size, init_state, init_dlg_table. simpl. rewrite length_map. lia.
  - done.
  - simpl. set_solver.
Qed.

(** The invariant without assumptions on memory, replies and the database. *)
Abbreviation winv := (hinv false).

Lemma trans_deleted_step cfg e t p rpl h h' :
  winv h -> p ∈ tmcbs h -> trans_deleted cfg e t p rpl h = Ret h' -> winv h'.
Proof.
  intros I Hp E. destruct (inv_tmcbs _ _ _ _ I p Hp) as [c Hc]. destruct (shutdown_done e) eqn:Hs.
  { revert E. unfold trans_deleted, dlg_onreply. rewrite Hs. cbn [orb]. run. intros [= <-].
    apply (hinv_drop false p 1); [lia|]. by apply (drop_tmcb_inv false cfg). }
  destruct (Z.lt_ge_cases 1 (ref c)) as [L|L].
  - destruct (trans_deleted_inv false cfg e ltac:(done) h t p rpl c I Hp Hc L Hs) as (h2 & E2 & I2). congruence.
  - destruct (inv_cells _ _ _ _ I p c Hc) as (_ & R & _).
    rewrite (trans_deleted_last false cfg e h t p rpl c) in E by (done || lia). done.
Qed.

Lemma step_inv cfg h h' : winv h -> step cfg h h' -> winv h'.
Proof.
  intros I St. destruct St as [e t req h h' Fr E|e t code p rpl h h' S Hp E|e t code p rpl h h' E|e t p rpl h h' Hp E
    |e req h h' S E|e p h h' A E|now ticks use ok h h' E].
  - by eapply (oc_eq false); [apply dlg_onreq_inv|].
  - by eapply (oc_eq false); [apply (dlg_onreply_inv false cfg e)|].
  - revert E. unfold dlg_onreply. destruct (_ || _); intros [= <-]; [done|]. by apply hinv_log.
  - by eapply trans_deleted_step.
  - by eapply (oc_eq false); [apply (dlg_onroute_inv false cfg e)|].
  - by eapply (oc_eq false); [apply (dlg_ontimeout_inv false cfg e)|].
  - apply (hinv_k_keeps false 0 0 h); [done|]. by apply (save_all_keeps false now ticks use ok h I).
Qed.

Lemma reachable_winv cfg ids h : (0 < length ids)%nat -> Z.of_nat (length ids) <= 2 ^ 32 -> reachable cfg ids h -> winv h.
Proof.
  intros L1 L2 R. remember (init_state ids) as h0 eqn:E0.
  assert (I0 : winv h0) by (subst; by apply init_state_inv). unfold reachable in R. rewrite <- E0 in R.
  clear E0. induction R as [|h1 h2 h3 St _ IH]; [done|]. apply IH. by eapply step_inv.
Qed.

(** No pointer of a dialog dangles. *)
Definition all_intact (h : hst) : Prop := forall p c, cells (tab h) !! p = Some c -> intact c = true.

Lemma winv_hinv h : winv h -> all_intact h -> hinv true h.
Proof.
  intros I A. constructor; try apply I. intros q c Hc. destruct (inv_cells _ _ _ _ I q c Hc) as (V & R & N & _).
  split; [done|]. split; [done|]. split; [done|]. intros _. by apply (A q).
Qed.

(** ** A short call *)

Definition call_cfg : config :=
  Config (B "did") 16 43200 SEQ_MATCH_STRICT_ID DB_MODE_NONE true.
Definition call_env : env := Env 100 1000 (Some 4096) (true, true) true true true true true true 0 false.
Definition call_tcell : tcell := TCell 0 [0].

(** The INVITE, the 200 reply, the ACK and the BYE. *)
Definition call_msg (method : Z) (ttag : bytes) (param : option (bytes * Z)) : sip_msg :=
  Msg (Some (B "sip:b", ttag)) (Some (B "sip:a", B "fa")) (Some (B "call1")) (Some (B "1"))
    (Some (B "sip:a@h")) (Some []) method 16 7 1 None param.
Definition call_invite : sip_msg := call_msg 1 [] None.
Definition call_ok : sip_msg := call_msg 1 (B "tb") None.
Definition call_ack : sip_msg := call_msg METHOD_ACK (B "tb") (Some (B "0.5", 0)).
Definition call_bye : sip_msg := call_msg METHOD_BYE (B "tb") (Some (B "0.5", 0)).

Definition call : list (hst -> res hst) :=
  [ dlg_onreq call_cfg call_env call_tcell call_invite;
    dlg_onreply call_cfg call_env call_tcell TMCB_RESPONSE_OUT 200 4096 call_ok;
    dlg_onroute call_cfg call_env call_ack;
    dlg_onroute call_cfg call_env call_bye ].

Definition call_run (n : nat) : res hst :=
  fold_left (fun r f => r ≫= f) (take n call) (Ret (init_state [5])).
Definition call_state (n : nat) : hst := match call_run n with Ret h => h | Fault _ => init_state [] end.

(** Decides a bound on every reference count. *)
Definition smallb (h : hst) : bool :=
  forallb (fun x : Z * dlg_cell => ref x.2 <? 2 ^ 31 - 1) (map_to_list (cells (tab h))).

Lemma smallb_small h : smallb h = true -> small h.
Proof.
  intros S q c Hc. apply Z.ltb_lt. unfold smallb in S. rewrite forallb_forall in S.
  apply (S (q, c)). apply list_elem_of_In. by apply elem_of_map_to_list.
Qed.

Lemma call_fresh : forall p, shm_dlg call_env = Some p -> fresh p (tab (call_state 0)).
Proof. intros p [= <-]. done. Qed.

Lemma call_reply_ok : reply_ok call_tcell call_ok.
Proof. split; [by eexists|]. vm_compute. split; congruence. Qed.

Lemma call_small n : forallb (fun n => smallb (call_state n)) (seq 0 5) = true -> (n < 5)%nat -> small (call_state n).
Proof. intros F L. apply smallb_small. rewrite forallb_forall in F. apply F, in_seq. lia. Qed.

Lemma call_steps :
  step call_cfg (call_state 0) (call_state 1) /\ step call_cfg (call_state 1) (call_state 2) /\
  step call_cfg (call_state 2) (call_state 3) /\ step call_cfg (call_state 3) (call_state 4).
Proof.
  assert (S : forall n, (n < 5)%nat -> small (call_state n)) by (intros; by apply call_small).
  split; [|split; [|split]].
  - apply (step_request call_cfg call_env call_tcell call_invite); [apply call_fresh|by vm_compute].
  - apply (step_reply call_cfg call_env call_tcell 200 4096 call_ok);
      [apply S; lia| |by vm_compute].
    apply (bool_decide_unpack _). by vm_compute.
  - apply (step_route call_cfg call_env call_ack); [apply S; lia|by vm_compute].
  - apply (step_route call_cfg call_env call_bye); [apply S; lia|by vm_compute].
Qed.

Lemma call_confirmed_reachable : reachable call_cfg [5] (call_state 3).
Proof.
  destruct call_steps as (S1 & S2 & S3 & _).
  eapply rtc_l; [exact S1|]. eapply rtc_l; [exact S2|]. by apply rtc_once.
Qed.

Lemma call_ended_reachable : reachable call_cfg [5] (call_state 4).
Proof. eapply rtc_r; [apply call_confirmed_reachable|apply call_steps]. Qed.

(** The call has ended and only the transaction still refers to the dialog. *)
Lemma call_ended :
  exists h c, reachable call_cfg [5] h /\ 4096 ∈ tmcbs h /\ cells (tab h) !! 4096 = Some c /\
    state c = DLG_STATE_DELETED /\ ref c = 1.
Proof.
  exists (call_state 4). eexists. split; [apply call_ended_reachable|].
  split; [apply (bool_decide_unpack _); by vm_compute|]. split; [by vm_compute|done].
Qed.

(** ** Main results *)

(** C1: in every state reached by calls of the handlers that return, in every mode of
    the database and whatever memory, messages and replies the calls get, a dialog that is
    not deleted holds a reference for the table, a dialog whose transaction still has its
    callback registered holds one for it, every count is positive and every state is one of
    the five, every registered callback points to a live dialog, and no pointer of a dialog
    that has not been answered dangles.  A call is one step, and no count is about to
    overflow when a lookup or a reply takes a reference. *)
Theorem reference_counts cfg ids h :
  (0 < length ids)%nat -> Z.of_nat (length ids) <= 2 ^ 32 -> reachable cfg ids h ->
  (forall p c, cells (tab h) !! p = Some c ->
     valid_state (state c) /\ 1 <= ref c < 2 ^ 31 /\ need (has_tmcb h p) c <= ref c /\
     (pre_answer (state c) = true -> intact c = true)) /\
  (forall p, p ∈ tmcbs h -> is_Some (cells (tab h) !! p)).
Proof.
  intros L1 L2 R. pose proof (reachable_winv cfg ids h L1 L2 R) as I.
  split; [|apply (inv_tmcbs _ _ _ _ I)]. intros p c Hc.
  destruct (inv_cells _ _ _ _ I p c Hc) as (V & B & N & Hi). rewrite zero_extra, Z.add_0_r in N.
  split_and!; try done; try lia. intros Hp. apply Hi. by right.
Qed.

(** C2: in every reachable state in which no count is about to overflow and no pointer of
    a dialog dangles, in the modes that do not save dialogs at once, each handler returns: no
    call reads or frees memory that is not the dialog's, and no loop runs forever.  A relayed
    reply has a To header and comes from a branch of the transaction, and the two
    allocations for the callee's leg succeed or fail together; the deletion of a transaction
    needs a second reference.  Without them a handler may fault:
    [realtime_reply_without_contact], [half_leg_use_after_free], [short_call_use_after_free]. *)
Theorem handlers_return cfg ids h e :
  dlg_db_mode cfg <> DB_MODE_REALTIME -> (0 < length ids)%nat -> Z.of_nat (length ids) <= 2 ^ 32 -> reachable cfg ids h ->
  small h -> all_intact h ->
  (forall t req, (forall p, shm_dlg e = Some p -> fresh p (tab h)) ->
     exists h', dlg_onreq cfg e t req h = Ret h') /\
  (forall t code p rpl, p ∈ tmcbs h -> reply_ok t rpl -> evenly e ->
     exists h', dlg_onreply cfg e t TMCB_RESPONSE_OUT code p rpl h = Ret h') /\
  (forall req, exists h', dlg_onroute cfg e req h = Ret h') /\
  (forall p, is_Some (cells (tab h) !! p) -> exists h', dlg_ontimeout cfg e p h = Ret h') /\
  (forall t p rpl c, p ∈ tmcbs h -> shutdown_done e = false -> cells (tab h) !! p = Some c ->
     1 < ref c -> exists h', trans_deleted cfg e t p rpl h = Ret h').
Proof.
  intros NR L1 L2 R S A. pose proof (winv_hinv h (reachable_winv cfg ids h L1 L2 R) A) as I.
  assert (NR' : true = true -> dlg_db_mode cfg <> DB_MODE_REALTIME) by done.
  split; [|split; [|split; [|split]]].
  - intros t req Fr. destruct (dlg_onreq_inv true cfg e NR' h t req I Fr) as (h' & E & _). by exists h'.
  - intros t code p rpl Hp Hr He. destruct (dlg_onreply_inv true cfg e NR' h t code p rpl I S Hp) as (h' & E & _); [done|].
    by exists h'.
  - intros req. destruct (dlg_onroute_inv true cfg e NR' h req I S) as (h' & E & _). by exists h'.
  - intros p Hp. destruct (dlg_ontimeout_inv true cfg e p h I Hp) as (h' & E & _). by exists h'.
  - intros t p rpl c Hp Hs Hc Hr.
    destruct (trans_deleted_inv true cfg e NR' h t p rpl c I Hp Hc Hr Hs) as (h' & E & _). by exists h'.
Qed.

(** C38: in every reachable state, when the transaction of a dialog is deleted,
    [dlg_onreply] uses the dialog after freeing it exactly when the transaction's reference
    was the last one. *)
Theorem trans_deleted_fault_iff cfg ids h e t p rpl c :
  (0 < length ids)%nat -> Z.of_nat (length ids) <= 2 ^ 32 -> reachable cfg ids h ->
  p ∈ tmcbs h -> shutdown_done e = false -> cells (tab h) !! p = Some c ->
  trans_deleted cfg e t p rpl h = Fault UseAfterFree <-> ref c = 1.
Proof.
  intros L1 L2 R Hp Hs Hc. pose proof (reachable_winv cfg ids h L1 L2 R) as I. split.
  - intros E. destruct (Z.lt_ge_cases 1 (ref c)) as [L|L].
    + destruct (trans_deleted_inv false cfg e ltac:(done) h t p rpl c I Hp Hc L Hs) as (h' & E' & _). congruence.
    + destruct (inv_cells _ _ _ _ I p c Hc) as (_ & B & _). lia.
  - intros Hr. by apply (trans_deleted_last false cfg e h t p rpl c).
Qed.

(** A request whose Route parameter names a live dialog but whose
    Call-ID and tags do not match it leaves the reference that [lookup_dlg] took: the
    handler returns without giving it back. *)
Theorem onroute_mismatch_leaks cfg e req h val nxt en id p c :
  winv h -> small h -> seq_match_mode cfg <> SEQ_MATCH_NO_ID ->
  m_route_param req = Some (val, nxt) -> parse_dlg_rr_param val nxt = Some (en, id) ->
  cells (tab h) !! p = Some c ->
  lookup_dlg (u32 en) (u32 id) (tab h) = Ret (Some p, put p (set_ref (s32 (ref c + 1)) c) (tab h)) ->
  (forall clid ftag ttag, pre_match_parse req = Some (clid, ftag, ttag) ->
     (match_dialog (set_ref (s32 (ref c + 1)) c) clid ftag ttag DLG_DIR_NONE).1 = false) ->
  dlg_onroute cfg e req h = Ret (with_tab (put p (set_ref (ref c + 1) c) (tab h)) h).
Proof.
  intros I S Hm Hr Hv Hc El Hn. destruct (inv_tab _ _ _ _ I) as [l OK].
  assert (Es : s32 (ref c + 1) = ref c + 1).
  { rewrite s32_small; [done|]. pose proof (S p c Hc). destruct (inv_cells _ _ _ _ I p c Hc) as (_ & B & _). lia. }
  rewrite Es in El, Hn. unfold dlg_onroute, find_dialog. rewrite decide_False, Hr, Hv by done.
  rewrite El. run. destruct (pre_match_parse req) as [[[clid ftag] ttag]|]; [|done].
  specialize (Hn clid ftag ttag eq_refl). cbn [tab with_tab].
  rewrite (get_cell_ok _ l p (set_ref (ref c + 1) c)); [|by apply (put_ok _ l p c)|apply put_lookup].
  run. destruct (match_dialog _ clid ftag ttag DLG_DIR_NONE) as [m d]. simpl in Hn. by subst m.
Qed.

(** A call that ends before its INVITE transaction is deleted
    (INVITE, 200, ACK, BYE) leads to that read: the deletion of the transaction frees
    the dialog and then reads its state. *)
Theorem short_call_use_after_free :
  exists h p, reachable call_cfg [5] h /\ p ∈ tmcbs h /\
    (forall c, cells (tab h) !! p = Some c -> state c = DLG_STATE_DELETED /\ ref c = 1) /\
    forall e t rpl, shutdown_done e = false -> trans_deleted call_cfg e t p rpl h = Fault UseAfterFree.
Proof.
  destruct call_ended as (h & c & R & Hp & Hc & Hs & Hr). exists h, 4096. split; [done|]. split; [done|].
  split; [intros c' Hc'; rewrite Hc in Hc'; by injection Hc' as <-|].
  intros e t rpl Hd. apply (trans_deleted_last false call_cfg e h t 4096 rpl c); [|done|done|done].
  apply (reachable_winv call_cfg [5]); [simpl; lia|simpl; lia|done].
Qed.

(** When the allocation of the callee's tag succeeds and that of its CSeq fails, the freed
    tag stays in the dialog and is freed again with it, here when the dialog expires. *)
Definition half_env : env := Env 100 1000 (Some 4096) (true, false) true true true true true true 0 false.

Definition half_call : res hst :=
  h ← dlg_onreply call_cfg half_env call_tcell TMCB_RESPONSE_OUT 200 4096 call_ok (call_state 1);
  trans_deleted call_cfg call_env call_tcell 4096 call_ok h.

Theorem half_leg_use_after_free :
  exists h, reachable call_cfg [5] h /\ small h /\ dlg_ontimeout call_cfg call_env 4096 h = Fault UseAfterFree.
Proof.
  destruct (dlg_onreply call_cfg half_env call_tcell TMCB_RESPONSE_OUT 200 4096 call_ok (call_state 1)) as [h1|] eqn:E1; [|by vm_compute in E1].
  destruct (trans_deleted call_cfg call_env call_tcell 4096 call_ok h1) as [h2|] eqn:E2.
  2: { exfalso. assert (E : half_call = Fault f) by (unfold half_call; by rewrite E1). vm_compute in E. done. }
  assert (E : half_call = Ret h2) by (unfold half_call; by rewrite E1). exists h2. split.
  - eapply rtc_r; [eapply rtc_r; [apply rtc_once, call_steps|]|].
    + apply (step_reply call_cfg half_env call_tcell 200 4096 call_ok _ h1); [apply smallb_small; by vm_compute| |done].
      apply (bool_decide_unpack _). by vm_compute.
    + apply (step_trans_deleted call_cfg call_env call_tcell 4096 call_ok); [|done].
      assert (T : (bool_decide (4096 ∈ tmcbs h1)) = true) by (vm_compute in E1; injection E1 as <-; by vm_compute).
      by apply bool_decide_eq_true in T.
  - vm_compute in E. injection E as <-. split; [apply smallb_small|]; by vm_compute.
Qed.

(** With dialogs saved in real time, a 2xx reply without a usable Contact makes
    the handler read through a null socket pointer: the callee leg is left unset and the
    dialog is saved all the same. *)
Theorem realtime_reply_without_contact cfg e h t code p rpl c :
  winv h -> cells (tab h) !! p = Some c -> pre_answer (state c) = true -> 200 <= code < 300 ->
  dlg_db_mode cfg = DB_MODE_REALTIME -> db_use_ok e = true -> shutdown_done e = false ->
  is_Some (m_to rpl) -> m_contact rpl = None -> callee (bind_addr c) = 0 ->
  dlg_onreply cfg e t TMCB_RESPONSE_OUT code p rpl h = Fault NullDeref.
Proof.
  intros I Hc Hs Hcode Hm Hu Hd [[u tg] Hto] Hct Hb. destruct (inv_tab _ _ _ _ I) as [l OK].
  destruct (tab_cell _ _ OK p c Hc) as (N & _ & [tl Htl] & _). unfold dlg_onreply.
  rewrite Hd, (proj2 (Z.eqb_neq p 0) N). cbn [orb]. unfold reply_event.
  rewrite (proj2 (Z.ltb_ge code 200)), (proj2 (Z.ltb_lt code 300)) by lia.
  destruct (inv_cells _ _ _ _ I p c Hc) as (V & _ & _).
  rewrite (next_state_dlg_pure _ l p c) by done. run.
  assert (En : next_state (state c) (has_bye c) DLG_EVENT_RPL2xx = DLG_STATE_CONFIRMED_NA /\
    (state c =? DLG_STATE_CONFIRMED_NA) = false /\ (state c =? DLG_STATE_CONFIRMED) = false).
  { apply orb_true_iff in Hs as [Hs|Hs]; apply Z.eqb_eq in Hs; rewrite Hs; done. }
  destruct En as (-> & -> & ->). cbn [Z.eqb Pos.eqb negb andb DLG_STATE_CONFIRMED_NA DLG_STATE_EARLY].
  set (c1 := next_cell _ c). set (h1 := with_tab _ h). unfold on_confirmed. rewrite Hto. run.
  assert (C1 : cells (tab h1) !! p = Some c1) by apply put_lookup.
  assert (G1 : get_cell p (tab h1) = Ret c1) by (unfold get_cell; by rewrite (proj2 (Z.eqb_neq p 0) N), C1).
  unfold populate_leg_info. rewrite G1, Hct. run.
  unfold on_cell, on_tab. rewrite (upd_cell_at _ p _ c1) by done. run.
  rewrite (upd_cell_at _ p _ (set_start_ts (u32 (now e)) c1)) by (done || apply put_lookup). run.
  rewrite decide_True by done. unfold db_update, on_db, update_dialog_dbinfo. rewrite Hu.
  unfold save_dialog, get_cell. cbn [tab with_tab cells]. rewrite (proj2 (Z.eqb_neq p 0) N), put_lookup. run.
  replace (flag_on DLG_FLAG_NEW _) with true.
  2: { symmetry. unfold flag_on. simpl. apply negb_true_iff, Z.eqb_neq. intros E.
       apply (f_equal (fun z => Z.testbit z 0)) in E. by rewrite Z.land_spec, Z.lor_spec, orb_true_r in E. }
  unfold DlgTimer.load. rewrite (proj2 (Z.eqb_neq p DlgTimer.NULL)) by done. simpl tls. rewrite Htl. run.
  assert (Ei : forall c2, bind_addr c2 = bind_addr c -> insert_row (now e) (ticks e) c2 tl = Fault NullDeref).
  { intros c2 E2. unfold insert_row. by rewrite E2, Hb, Z.eqb_refl, orb_true_r. }
  rewrite Ei; [done|]. simpl. unfold c1, next_cell. by destruct (_ =? 0).
Qed.

(** ** Instances *)

Definition realtime_cfg : config :=
  Config (B "did") 16 43200 SEQ_MATCH_STRICT_ID DB_MODE_REALTIME true.
Definition ok_without_contact : sip_msg :=
  Msg (Some (B "sip:b", B "tb")) (Some (B "sip:a", B "fa")) (Some (B "call1")) (Some (B "1"))
    None (Some []) 1 16 7 1 None None.

Lemma realtime_reply_without_contact_witness :
  dlg_onreply realtime_cfg call_env call_tcell TMCB_RESPONSE_OUT 200 4096 ok_without_contact (call_state 1)
  = Fault NullDeref.
Proof.
  eapply (realtime_reply_without_contact realtime_cfg call_env (call_state 1) call_tcell 200 4096).
  - apply (step_inv call_cfg (call_state 0)); [|apply call_steps].
    apply init_state_inv; simpl; lia.
  - by vm_compute.
  - done.
  - lia.
  - done.
  - done.
  - done.
  - by eexists.
  - done.
  - done.
Defined.


Definition intactb (h : hst) : bool := forallb (fun x : Z * dlg_cell => intact x.2) (map_to_list (cells (tab h))).

Lemma intactb_intact h : intactb h = true -> all_intact h.
Proof.
  intros S q c Hc. unfold intactb in S. rewrite forallb_forall in S.
  apply (S (q, c)). apply list_elem_of_In. by apply elem_of_map_to_list.
Qed.

Lemma reference_counts_witness :
  exists c, cells (tab (call_state 3)) !! 4096 = Some c /\ need (has_tmcb (call_state 3) 4096) c <= ref c.
Proof.
  destruct (reference_counts call_cfg [5] (call_state 3)) as [C _];
    [simpl; lia|simpl; lia|apply call_confirmed_reachable|].
  eexists. split; [by vm_compute|]. apply C. by vm_compute.
Defined.

Lemma handlers_return_witness :
  (exists h', dlg_onreply call_cfg call_env call_tcell TMCB_RESPONSE_OUT 200 4096 call_ok (call_state 3) = Ret h') /\
  (exists h', dlg_onroute call_cfg call_env call_bye (call_state 3) = Ret h') /\
  (exists h', dlg_ontimeout call_cfg call_env 4096 (call_state 3) = Ret h') /\
  (exists h', trans_deleted call_cfg call_env call_tcell 4096 call_ok (call_state 3) = Ret h').
Proof.
  destruct (handlers_return call_cfg [5] (call_state 3) call_env) as (_ & P & R & T & D);
    [done|simpl; lia|simpl; lia|apply call_confirmed_reachable|apply smallb_small; by vm_compute|apply intactb_intact; by vm_compute|].
  split; [|split; [apply R|split; [apply T; eexists; by vm_compute|]]].
  - apply P; [|apply call_reply_ok|reflexivity]. apply (bool_decide_unpack _). by vm_compute.
  - eapply D; [|reflexivity|by vm_compute|by vm_compute]. apply (bool_decide_unpack _). by vm_compute.
Defined.

Lemma trans_deleted_fault_iff_witness :
  trans_deleted call_cfg call_env call_tcell 4096 call_ok (call_state 4) = Fault UseAfterFree.
Proof.
  eapply (trans_deleted_fault_iff call_cfg [5] (call_state 4) call_env call_tcell 4096 call_ok);
    [simpl; lia|simpl; lia|apply call_ended_reachable|apply (bool_decide_unpack _); by vm_compute|done|
     by vm_compute|done].
Defined.

Lemma onroute_mismatch_leaks_witness :
  exists h', dlg_onroute call_cfg call_env (call_msg METHOD_BYE (B "xx") (Some (B "0.5", 0))) (call_state 3) = Ret h' /\
    (ref <$> cells (tab h') !! 4096) = Some 3.
Proof.
  eexists. split.
  - eapply (onroute_mismatch_leaks call_cfg call_env _ (call_state 3) (B "0.5") 0 0 5 4096).
    + apply (reachable_winv call_cfg [5]); [simpl; lia|simpl; lia|apply call_confirmed_reachable].
    + apply smallb_small; by vm_compute.
    + done.
    + done.
    + by vm_compute.
    + by vm_compute.
    + by vm_compute.
    + intros clid ftag ttag. vm_compute. intros [= <- <- <-]. done.
  - by vm_compute.
Defined.

End DlgSafety.
