(* ===== verification/Dset.v ===== *)
(** * The destination set: [src/dset.c]

    The branches of the request being processed beside its Request-URI: a static array
    of at most eleven, of which the first [nr_branches] are used.  Here it is the list of
    those.  An empty destination or path is the empty string. *)

From Stdlib Require Import ZArith Lia List String Ascii Bool.
From stdpp Require Import base tactics option list.
From S2P Require Import Prelude QValue.

Module Dset.
Import QValue.

Definition MAX_BRANCHES : Z := 12.
Definition MAX_REDIRECTION_LEN : Z := 512.

Record branch : Type := Branch {
  b_uri : bytes;
  b_dst_uri : bytes;
  b_path : bytes;
  b_q : Z;
  b_socket : Z;
  b_flags : Z
}.

Record dset : Type := DSet { branches : list branch; ruri_q : Z; ruri_bflags : Z }.

Definition nr_branches (ds : dset) : Z := zlen (branches ds).

Definition clear_branches (ds : dset) : dset := DSet [] Q_UNSPECIFIED 0.

Definition set_ruri_q (q : Z) (ds : dset) : dset := DSet (branches ds) q (ruri_bflags ds).

(** ** Branch flags *)

Definition set_b_flags (f : Z) (b : branch) : branch :=
  Branch (b_uri b) (b_dst_uri b) (b_path b) (b_q b) (b_socket b) f.

(** The flags of branch [b_idx], branch 0 being the Request-URI. *)
Definition get_bflags (b_idx : Z) (ds : dset) : option Z :=
  if b_idx =? 0 then Some (ruri_bflags ds)
  else if u32 (b_idx - 1) <? nr_branches ds then b_flags <$> branches ds !! Z.to_nat (b_idx - 1)
  else None.

Definition put_bflags (b_idx f : Z) (ds : dset) : dset :=
  if b_idx =? 0 then DSet (branches ds) (ruri_q ds) f
  else DSet (alter (set_b_flags f) (Z.to_nat (b_idx - 1)) (branches ds)) (ruri_q ds) (ruri_bflags ds).

Definition getb0flags (ds : dset) : Z := ruri_bflags ds.
Definition setb0flags (f : Z) (ds : dset) : Z * dset := (0, DSet (branches ds) (ruri_q ds) f).

Definition setbflag (b_idx mask : Z) (ds : dset) : Z * dset :=
  match get_bflags b_idx ds with
  | None => (-1, ds)
  | Some f => (1, put_bflags b_idx (Z.lor f mask) ds)
  end.

Definition isbflagset (b_idx mask : Z) (ds : dset) : Z :=
  match get_bflags b_idx ds with
  | None => -1
  | Some f => if Z.land f mask =? 0 then -1 else 1
  end.

Definition resetbflag (b_idx mask : Z) (ds : dset) : Z * dset :=
  match get_bflags b_idx ds with
  | None => (-1, ds)
  | Some f => (1, put_bflags b_idx (Z.land f (u32 (Z.lnot mask))) ds)
  end.

(** ** Branches *)

Definition get_branch (idx : Z) (ds : dset) : option branch :=
  if idx <? nr_branches ds then branches ds !! Z.to_nat idx else None.

(** [cur] is the current Request-URI of the message, taken when no URI is given; the
    return code and the set. *)
Definition append_branch (cur uri dst path : bytes) (q flags sock : Z) (ds : dset) : Z * dset :=
  if nr_branches ds =? MAX_BRANCHES - 1 then (-1, ds)
  else
    let luri := match uri with [] => cur | _ => uri end in
    if zlen luri >? MAX_URI_SIZE - 1 then (-1, ds)
    else if zlen dst >? MAX_URI_SIZE - 1 then (-1, ds)
    else if zlen path >? MAX_PATH_SIZE - 1 then (-1, ds)
    else (1, DSet (branches ds ++ [Branch luri dst path q sock flags]) (ruri_q ds) (ruri_bflags ds)).

Definition branch_uri2dset (new_uri : bytes) (ds : dset) : Z * dset :=
  if zlen new_uri + 1 >? MAX_URI_SIZE then (-1, ds)
  else
    (0, DSet (map (fun b => Branch new_uri (b_uri b) (b_path b) (b_q b) (b_socket b) (b_flags b)) (branches ds))
          (ruri_q ds) (ruri_bflags ds)).

(** ** Printing *)

Definition CONTACT : bytes := B "Contact: ".
Definition CONTACT_DELIM : bytes := B ", ".
Definition Q_PARAM : bytes := B ">;q=".
Definition CRLF : bytes := [13; 10].

(** The length counted for one URI, and its text. *)
Definition uri_len (uri : bytes) (q : Z) : Z :=
  zlen uri + (if q =? Q_UNSPECIFIED then 0 else 1 + zlen Q_PARAM + len_q q).

Definition print_uri (uri : bytes) (q : Z) : bytes :=
  (if q =? Q_UNSPECIFIED then [] else B "<") ++ uri ++
  (if q =? Q_UNSPECIFIED then [] else Q_PARAM ++ q2str q).

Fixpoint print_branches (i : Z) (bs : list branch) : bytes :=
  match bs with
  | [] => []
  | b :: bs' =>
      (if i =? 0 then [] else CONTACT_DELIM) ++ print_uri (b_uri b) (b_q b) ++ print_branches (i + 1) bs'
  end.

Definition sum_len (bs : list branch) : Z := fold_right (fun b n => uri_len (b_uri b) (b_q b) + n) 0 bs.

(** [*len] and the bytes written to the buffer; the last byte is not counted. *)
Definition print_dset (new_uri : option bytes) (ds : dset) : option (Z * bytes) :=
  let cnt0 := match new_uri with Some _ => 1 | None => 0 end in
  let len0 := match new_uri with Some u => uri_len u (ruri_q ds) | None => 0 end in
  let cnt := cnt0 + nr_branches ds in
  if cnt =? 0 then None
  else
    let len := len0 + sum_len (branches ds) + (zlen CONTACT + zlen CRLF + (cnt - 1) * zlen CONTACT_DELIM) in
    if len + 1 >? MAX_REDIRECTION_LEN then None
    else
      Some (len, CONTACT ++ match new_uri with Some u => print_uri u (ruri_q ds) | None => [] end
                   ++ print_branches cnt0 (branches ds) ++ CRLF ++ B " ").

(** ** Bounds *)

(** What keeps the array and its buffers within bounds. *)
Record dset_ok (ds : dset) : Prop := {
  n_ok : nr_branches ds <= MAX_BRANCHES - 1;
  b_ok : Forall (fun b => zlen (b_uri b) < MAX_URI_SIZE /\ zlen (b_dst_uri b) < MAX_URI_SIZE /\
                          zlen (b_path b) < MAX_PATH_SIZE) (branches ds)
}.

Lemma clear_ok ds : dset_ok (clear_branches ds).
Proof. constructor; [done|constructor]. Qed.

Lemma append_ok cur uri dst path q fl sk ds :
  dset_ok ds -> dset_ok (append_branch cur uri dst path q fl sk ds).2.
Proof.
  intros [N F]. unfold append_branch. cbv zeta. set (luri := match uri with [] => cur | _ => uri end).
  destruct (Z.eqb_spec (nr_branches ds) (MAX_BRANCHES - 1)); [done|]. rewrite !Z.gtb_ltb.
  destruct (Z.ltb_spec (MAX_URI_SIZE - 1) (zlen luri)); [done|].
  destruct (Z.ltb_spec (MAX_URI_SIZE - 1) (zlen dst)); [done|].
  destruct (Z.ltb_spec (MAX_PATH_SIZE - 1) (zlen path)); [done|]. constructor.
  - unfold nr_branches, zlen in *. simpl. rewrite length_app. simpl. lia.
  - simpl. apply Forall_app. split; [done|]. constructor; [simpl; lia|constructor].
Qed.

Lemma alter_flags_ok n f bs (P : bytes -> bytes -> bytes -> Prop) :
  Forall (fun b => P (b_uri b) (b_dst_uri b) (b_path b)) bs ->
  Forall (fun b => P (b_uri b) (b_dst_uri b) (b_path b)) (alter (set_b_flags f) n bs).
Proof. intros F. apply Forall_alter; [done|]. by intros b Hb Pb. Qed.

Lemma put_bflags_ok i f ds : dset_ok ds -> dset_ok (put_bflags i f ds).
Proof.
  intros [N F]. unfold put_bflags. case_match; constructor; try done; unfold nr_branches, zlen in *; simpl.
  - by rewrite length_alter.
  - by apply (alter_flags_ok _ _ _ (fun u d p => zlen u < MAX_URI_SIZE /\ zlen d < MAX_URI_SIZE /\ zlen p < MAX_PATH_SIZE)).
Qed.

Lemma uri2dset_ok u ds : dset_ok ds -> dset_ok (branch_uri2dset u ds).2.
Proof.
  intros [N F]. unfold branch_uri2dset. rewrite Z.gtb_ltb.
  destruct (Z.ltb_spec MAX_URI_SIZE (zlen u + 1)); [done|]. simpl. constructor; unfold nr_branches, zlen in *; simpl.
  - by rewrite length_map.
  - apply Forall_map. eapply Forall_impl; [exact F|]. simpl. intros b. lia.
Qed.

(** ** The text of the set *)

Lemma print_uri_len u q : zlen (print_uri u q) = uri_len u q.
Proof.
  unfold print_uri, uri_len. destruct (q =? Q_UNSPECIFIED) eqn:E; rewrite ?zlen_app, ?len_q_q2str; unfold zlen; simpl; lia.
Qed.

Lemma print_branches_len bs i :
  0 <= i ->
  zlen (print_branches i bs) =
    sum_len bs + (i + zlen bs - 1) * zlen CONTACT_DELIM - (i - 1) * zlen CONTACT_DELIM
    - (if (i =? 0) && negb (zlen bs =? 0) then zlen CONTACT_DELIM else 0).
Proof.
  revert i. induction bs as [|b bs IH]; intros i Hi.
  - change (zlen (@nil branch)) with 0. simpl. rewrite andb_false_r. unfold zlen. simpl. lia.
  - simpl. rewrite !zlen_app, print_uri_len, IH by lia.
    rewrite (proj2 (Z.eqb_neq (i + 1) 0)) by lia. cbn [andb].
    replace (zlen (b :: bs)) with (1 + zlen bs) by (unfold zlen; simpl; lia).
    rewrite andb_true_r.
    destruct (i =? 0); change (zlen CONTACT_DELIM) with 2; change (zlen (@nil Z)) with 0; lia.
Qed.

Lemma print_dset_fits new_uri ds n out :
  print_dset new_uri ds = Some (n, out) -> zlen out = n + 1 /\ zlen out <= MAX_REDIRECTION_LEN.
Proof.
  unfold print_dset. set (cnt0 := match new_uri with Some _ => 1 | None => 0 end).
  case_match eqn:Ec; [done|]. case_match eqn:El; [done|]. bool_to_prop.
  intros E. apply (inj Some) in E. apply pair_equal_spec in E as [<- <-]. rewrite Z.gtb_ltb in El. bool_to_prop.
  enough (E : zlen (CONTACT ++ match new_uri with Some u => print_uri u (ruri_q ds) | None => [] end
    ++ print_branches cnt0 (branches ds) ++ CRLF ++ B " ") =
    match new_uri with Some u => uri_len u (ruri_q ds) | None => 0 end + sum_len (branches ds) +
    (zlen CONTACT + zlen CRLF + (cnt0 + nr_branches ds - 1) * zlen CONTACT_DELIM) + 1) by (rewrite E; lia).
  rewrite !zlen_app, print_branches_len by (unfold cnt0; case_match; lia).
  unfold nr_branches in *. pose proof (zlen (branches ds)) as k.
  change (zlen CONTACT_DELIM) with 2. change (zlen (B " ")) with 1.
  unfold cnt0 in *. destruct new_uri as [u|]; cbn [Z.eqb andb].
  - rewrite print_uri_len. lia.
  - rewrite (proj2 (Z.eqb_neq (zlen (branches ds)) 0)) by lia. cbn [negb]. change (zlen (@nil Z)) with 0. lia.
Qed.

Lemma setbflag_ok i m ds : dset_ok ds -> dset_ok (setbflag i m ds).2.
Proof. unfold setbflag. case_match; [apply put_bflags_ok|done]. Qed.

Lemma resetbflag_ok i m ds : dset_ok ds -> dset_ok (resetbflag i m ds).2.
Proof. unfold resetbflag. case_match; [apply put_bflags_ok|done]. Qed.

(** What a branch that was accepted adds. *)
Lemma append_adds cur uri dst path q fl sk ds ds' :
  append_branch cur uri dst path q fl sk ds = (1, ds') ->
  branches ds' = branches ds ++ [Branch (match uri with [] => cur | _ => uri end) dst path q sk fl].
Proof.
  unfold append_branch. cbv zeta.
  destruct (nr_branches ds =? _); [done|]. destruct (_ >? _); [done|]. destruct (_ >? _); [done|].
  destruct (_ >? _); [done|]. intros E. apply pair_equal_spec in E as [_ <-]. done.
Qed.

(** ** Main results *)

(** Every operation on the destination set keeps the number of branches within the
    static array and each URI and path, with its terminating NUL, within its buffer; a
    branch that is accepted is added last and the others stay; the text that [print_dset]
    writes is one byte longer than the length it returns and fits the static buffer. *)
Theorem dset_bounds ds :
  dset_ok ds ->
  (forall cur uri dst path q fl sk, let '(rc, ds') := append_branch cur uri dst path q fl sk ds in
     dset_ok ds' /\
     if rc =? 1 then branches ds' =
       branches ds ++ [Branch (match uri with [] => cur | _ => uri end) dst path q sk fl] else ds' = ds) /\
  (forall u, dset_ok (branch_uri2dset u ds).2) /\
  (forall i m, dset_ok (setbflag i m ds).2 /\ dset_ok (resetbflag i m ds).2) /\
  (forall new_uri n out, print_dset new_uri ds = Some (n, out) ->
     zlen out = n + 1 /\ zlen out <= MAX_REDIRECTION_LEN).
Proof.
  intros OK. split; [|split; [|split]].
  - intros cur uri dst path q fl sk. pose proof (append_ok cur uri dst path q fl sk ds OK) as A.
    pose proof (append_adds cur uri dst path q fl sk ds) as B.
    destruct (append_branch cur uri dst path q fl sk ds) as [rc ds'] eqn:E. split; [done|].
    destruct (Z.eqb_spec rc 1) as [->|]; [by apply B|]. unfold append_branch in E.
    repeat case_match; congruence.
  - intros u. by apply uri2dset_ok.
  - intros i m. split; [by apply setbflag_ok|by apply resetbflag_ok].
  - intros new_uri n out. by apply print_dset_fits.
Qed.

Lemma dset_bounds_witness :
  exists out, print_dset (Some (B "sip:a@b")) (DSet [Branch (B "sip:c@d") [] [] 500 0 0] 1000 0) = Some (41, out) /\
    zlen out = 42.
Proof.
  assert (OK : dset_ok (DSet [Branch (B "sip:c@d") [] [] 500 0 0] 1000 0)).
  { constructor; [done|]. constructor; [done|constructor]. }
  destruct (dset_bounds _ OK) as (_ & _ & _ & P). eexists. split; [by vm_compute|].
  destruct (P (Some (B "sip:a@b")) 41 (B "Contact: <sip:a@b>;q=1, <sip:c@d>;q=0.5" ++ CRLF ++ B " ")) as [E _];
    [by vm_compute|]. exact E.
Defined.

End Dset.
