(* ===== verification/Ucontact.v ===== *)
(** * User location, contacts: [src/modules/usrloc/ucontact.c], [urecord.c]

    A record holds the contacts bound to an address of record, in the order of its
    linked list; a contact is identified by its address [id].  The location table of
    the database is the list of its rows: an insert appends a row, an update rewrites
    the rows with the key, a delete removes them.  Whether the database accepts an
    operation and whether memory can be allocated are arguments. *)

From Stdlib Require Import ZArith Lia List String Ascii Bool Permutation Sorted.
From stdpp Require Import base tactics option list.
From S2P Require Import Prelude Ut QValue.

Module Ucontact.
Import Ut.

(** ** Data *)

Inductive cstate : Set := CS_NEW | CS_SYNC | CS_DIRTY.
Inductive ul_mode : Set := NO_DB | WRITE_THROUGH | WRITE_BACK | DB_ONLY.
Inductive match_mode : Set := CONTACT_ONLY | CONTACT_CALLID.

#[export] Instance cstate_eq_dec : EqDecision cstate.
Proof. solve_decision. Defined.
#[export] Instance ul_mode_eq_dec : EqDecision ul_mode.
Proof. solve_decision. Defined.

(** The module parameters. *)
Record ul_config : Type := UlConfig {
  db_mode : ul_mode;
  use_domain : bool;
  desc_time_order : bool;
  matching_mode : match_mode;
  cseq_delay : Z
}.

(** [uri] is the member [c], [qv] the member [q]; an unset string is [None]. *)
Record ucontact : Type := UContact {
  id : Z;
  uri : bytes;
  received : option bytes;
  path : option bytes;
  expires : Z;
  qv : Z;
  callid : bytes;
  cseq : Z;
  state : cstate;
  flags : Z;
  cflags : Z;
  user_agent : bytes;
  sock : Z;
  last_modified : Z;
  methods : Z
}.

Record ucontact_info : Type := UInfo {
  i_received : bytes;
  i_path : option bytes;
  i_expires : Z;
  i_q : Z;
  i_callid : bytes;
  i_cseq : Z;
  i_flags : Z;
  i_cflags : Z;
  i_user_agent : bytes;
  i_sock : Z;
  i_methods : Z;
  i_last_modified : Z
}.

(** A row of the location table, [None] for a null column. *)
Record db_key : Type := Key { k_user : bytes; k_domain : option bytes; k_contact : bytes; k_callid : bytes }.

#[export] Instance db_key_eq_dec : EqDecision db_key.
Proof. solve_decision. Defined.

Record db_vals : Type := Vals {
  v_expires : Z; v_q : QValue.double; v_cseq : Z; v_flags : Z; v_cflags : Z; v_user_agent : bytes;
  v_received : option bytes; v_path : option bytes; v_sock : option Z;
  v_methods : option Z; v_last_modified : Z
}.

Definition row : Type := db_key * db_vals.

Inductive pres : Set := PRES_OFFLINE | PRES_ONLINE.

Definition UL_CONTACT_INSERT : Z := 1.
Definition UL_CONTACT_UPDATE : Z := 2.
Definition UL_CONTACT_DELETE : Z := 4.
Definition UL_CONTACT_EXPIRE : Z := 8.

(** What the module tells others: callbacks and watchers. *)
Inductive ul_event : Type :=
| Callback (type contact : Z)
| Notify (watcher : Z) (contact : bytes) (p : pres).

(** A record; [in_slot] is false for the static record of [DB_ONLY]. *)
Record urecord : Type := URecord {
  rid : Z;
  aor : bytes;
  aorhash : Z;
  contacts : list ucontact;
  watchers : list Z;
  in_slot : bool
}.

(** The database table, the statistics of the domain and the events. *)
Record ul_st : Type := UlSt {
  rows : list row;
  n_users : Z; n_contacts : Z; n_expires : Z;
  events : list ul_event
}.

Definition set_contacts (l : list ucontact) (r : urecord) : urecord :=
  URecord (rid r) (aor r) (aorhash r) l (watchers r) (in_slot r).
Definition set_state (s : cstate) (c : ucontact) : ucontact :=
  UContact (id c) (uri c) (received c) (path c) (expires c) (qv c) (callid c) (cseq c) s (flags c)
    (cflags c) (user_agent c) (sock c) (last_modified c) (methods c).
Definition set_expires (e : Z) (c : ucontact) : ucontact :=
  UContact (id c) (uri c) (received c) (path c) e (qv c) (callid c) (cseq c) (state c) (flags c)
    (cflags c) (user_agent c) (sock c) (last_modified c) (methods c).

Definition with_rows (l : list row) (s : ul_st) : ul_st :=
  UlSt l (n_users s) (n_contacts s) (n_expires s) (events s).
Definition add_users (n : Z) (s : ul_st) : ul_st :=
  UlSt (rows s) (n_users s + n) (n_contacts s) (n_expires s) (events s).
Definition add_contacts (n : Z) (s : ul_st) : ul_st :=
  UlSt (rows s) (n_users s) (n_contacts s + n) (n_expires s) (events s).
Definition add_expires (n : Z) (s : ul_st) : ul_st :=
  UlSt (rows s) (n_users s) (n_contacts s) (n_expires s + n) (events s).
Definition emit (l : list ul_event) (s : ul_st) : ul_st :=
  UlSt (rows s) (n_users s) (n_contacts s) (n_expires s) (events s ++ l).

(** [if_update_stat(_r->slot, contacts, n)] *)
Definition slot_stat (r : urecord) (n : Z) (s : ul_st) : ul_st :=
  if in_slot r then add_contacts n s else s.

Definition FL_MEM : Z := 1.
Definition UL_EXPIRED_TIME : Z := 10.
Definition ALL_METHODS : Z := 4294967295.

Definition VALID_CONTACT (c : ucontact) (t : Z) : bool := (t <? expires c) || (expires c =? 0).

Definition notify_watchers (r : urecord) (c : ucontact) (p : pres) (s : ul_st) : ul_st :=
  emit (map (fun w => Notify w (uri c) p) (watchers r)) s.
Definition run_ul_callbacks (type : Z) (c : ucontact) (s : ul_st) : ul_st := emit [Callback type (id c)] s.

(** ** Contacts *)

Definition non_empty (s : bytes) : option bytes := match s with [] => None | _ => Some s end.

(** [a] is the address of the new contact, [None] when memory is exhausted. *)
Definition new_ucontact (a : option Z) (contact : bytes) (ci : ucontact_info) : option ucontact :=
  i ← a;
  Some (UContact i contact (non_empty (i_received ci)) (i_path ci ≫= non_empty) (i_expires ci)
    (i_q ci) (i_callid ci) (i_cseq ci) CS_NEW (i_flags ci) (i_cflags ci) (i_user_agent ci)
    (i_sock ci) (i_last_modified ci) (i_methods ci)).

(** [update_str]: [None] when the longer string cannot be allocated; a string that is
    unset has no room, so it stays unset when the new one is empty. *)
Definition update_str (ok : bool) (old : option bytes) (new : bytes) : option (option bytes) :=
  if Nat.ltb (length (default [] old)) (length new) then
    if ok then Some (Some new) else None
  else Some (match old with Some _ => Some new | None => None end).

(** The allocations of one update: for the user agent, [received] and [path]. *)
Record upd_mem : Type := UpdMem { ok_ua : bool; ok_received : bool; ok_path : bool }.

Definition upd_strings (ua : bytes) (rc pt : option bytes) (c : ucontact) : ucontact :=
  UContact (id c) (uri c) rc pt (expires c) (qv c) (callid c) (cseq c) (state c) (flags c)
    (cflags c) ua (sock c) (last_modified c) (methods c).

(** Return code and contact: strings replaced before a failure stay replaced. *)
Definition mem_update_ucontact (m : upd_mem) (c : ucontact) (ci : ucontact_info) : Z * ucontact :=
  match update_str (ok_ua m) (Some (user_agent c)) (i_user_agent ci) with
  | None => (-1, c)
  | Some ua =>
      let c := upd_strings (default [] ua) (received c) (path c) c in
      match (match i_received ci with
             | [] => Some None
             | rcv => update_str (ok_received m) (received c) rcv
             end) with
      | None => (-1, c)
      | Some rc =>
          let c := upd_strings (user_agent c) rc (path c) c in
          match (match i_path ci with
                 | None => Some None
                 | Some p => update_str (ok_path m) (path c) p
                 end) with
          | None => (-1, c)
          | Some pt =>
              (0, UContact (id c) (uri c) (received c) pt (i_expires ci) (i_q ci) (callid c)
                    (i_cseq ci) (state c) (i_flags ci) (i_cflags ci) (user_agent c) (i_sock ci)
                    (i_last_modified ci) (i_methods ci))
          end
      end
  end.

(** ** The state of a contact *)

Definition st_update_ucontact (m : ul_mode) (c : ucontact) : ucontact :=
  match state c with
  | CS_SYNC => match m with WRITE_BACK | WRITE_THROUGH => set_state CS_DIRTY c | _ => c end
  | _ => c
  end.

(** Whether to delete at once, and the contact. *)
Definition st_delete_ucontact (m : ul_mode) (c : ucontact) : bool * ucontact :=
  match state c with
  | CS_NEW => (true, c)
  | _ => match m with WRITE_BACK => (false, set_expires UL_EXPIRED_TIME c) | _ => (true, c) end
  end.

Definition st_expired_ucontact (c : ucontact) : bool :=
  match state c with CS_NEW => false | _ => true end.

(** 1 insert, 2 update, 0 nothing. *)
Definition st_flush_ucontact (c : ucontact) : Z * ucontact :=
  match state c with
  | CS_NEW => (1, set_state CS_SYNC c)
  | CS_SYNC => (0, c)
  | CS_DIRTY => (2, set_state CS_SYNC c)
  end.

(** ** The database *)

Definition AT : Z := §"@".

(** User and domain columns of an address of record; a missing [@] is handled by the
    insert only. *)
Definition split_aor (cfg : ul_config) (a : bytes) : option (bytes * option bytes) :=
  if use_domain cfg then
    match q_memchr a AT with
    | Some i => Some (take i a, Some (drop (S i) a))
    | None => None
    end
  else Some (a, None).

Definition insert_user (cfg : ul_config) (a : bytes) : bytes * option bytes :=
  default ([], Some a) (split_aor cfg a).

Definition vals_of (c : ucontact) : db_vals :=
  Vals (expires c) (QValue.q2double (qv c)) (cseq c) (flags c) (cflags c) (user_agent c) (received c) (path c)
    (if sock c =? 0 then None else Some (sock c))
    (if methods c =? ALL_METHODS then None else Some (methods c)) (last_modified c).

Definition mem_only (c : ucontact) : bool := negb (Z.land (flags c) FL_MEM =? 0).

(** Return code and rows. *)
Definition db_insert_ucontact (cfg : ul_config) (ok : bool) (a : bytes) (c : ucontact) (s : ul_st)
  : Z * ul_st :=
  if mem_only c then (0, s)
  else if ok then
    let '(u, d) := insert_user cfg a in
    (0, with_rows (rows s ++ [(Key u d (uri c) (callid c), vals_of c)]) s)
  else (-1, s).

(** A missing [@] makes the user length negative and the domain an invalid pointer. *)
Definition db_key_of (cfg : ul_config) (a : bytes) (c : ucontact) : res db_key :=
  match split_aor cfg a with
  | Some (u, d) => Ret (Key u d (uri c) (callid c))
  | None => Fault OutOfBounds
  end.

Definition db_update_ucontact (cfg : ul_config) (ok : bool) (a : bytes) (c : ucontact) (s : ul_st)
  : res (Z * ul_st) :=
  if mem_only c then Ret (0, s)
  else
    k ← db_key_of cfg a c;
    if ok then
      Ret (0, with_rows (map (fun r : row => if decide (r.1 = k) then (k, vals_of c) else r) (rows s)) s)
    else Ret (-1, s).

Definition db_delete_ucontact (cfg : ul_config) (ok : bool) (a : bytes) (c : ucontact) (s : ul_st)
  : res (Z * ul_st) :=
  if mem_only c then Ret (0, s)
  else
    k ← db_key_of cfg a c;
    if ok then Ret (0, with_rows (filter (fun r : row => r.1 <> k) (rows s)) s) else Ret (-1, s).

(** ** Contacts of a record *)

(** Insertion before the first contact with a smaller q, or at the head. *)
Fixpoint insert_by_q (c : ucontact) (l : list ucontact) : list ucontact :=
  match l with
  | [] => [c]
  | p :: l' => if qv p <? qv c then c :: l else p :: insert_by_q c l'
  end.

Definition mem_insert_ucontact (cfg : ul_config) (a : option Z) (contact : bytes) (ci : ucontact_info)
    (r : urecord) (s : ul_st) : option ucontact * urecord * ul_st :=
  match new_ucontact a contact ci with
  | None => (None, r, s)
  | Some c =>
      let l := if desc_time_order cfg then c :: contacts r else insert_by_q c (contacts r) in
      (Some c, set_contacts l r, slot_stat r 1 s)
  end.

Definition mem_remove_ucontact (i : Z) (l : list ucontact) : list ucontact :=
  filter (fun c => id c <> i) l.

Definition mem_delete_ucontact (i : Z) (r : urecord) (s : ul_st) : urecord * ul_st :=
  (set_contacts (mem_remove_ucontact i (contacts r)) r, slot_stat r (-1) s).

(** The contact at an address, and writing it back. *)
Definition find_contact (i : Z) (l : list ucontact) : option ucontact :=
  List.find (fun c => id c =? i) l.
Definition put_contact (c : ucontact) (l : list ucontact) : list ucontact :=
  map (fun d => if id d =? id c then c else d) l.

(** The neighbours of a contact in the list. *)
Fixpoint neighbours (prev : option ucontact) (i : Z) (l : list ucontact)
  : option (option ucontact * option ucontact) :=
  match l with
  | [] => None
  | c :: l' => if id c =? i then Some (prev, head l') else neighbours (Some c) i l'
  end.

(** The walk of [update_contact_pos]: before the first contact whose q is not smaller. *)
Fixpoint insert_asc (c : ucontact) (l : list ucontact) : list ucontact :=
  match l with
  | [] => [c]
  | p :: l' => if qv p <? qv c then p :: insert_asc c l' else c :: l
  end.

Definition update_contact_pos (cfg : ul_config) (c : ucontact) (l : list ucontact) : list ucontact :=
  match neighbours None (id c) l with
  | None => l
  | Some (prev, next) =>
      let rest := mem_remove_ucontact (id c) l in
      if desc_time_order cfg then
        match prev with None => l | Some _ => c :: rest end
      else if (match prev with None => true | Some p => qv c <=? qv p end)
              && (match next with None => true | Some n => qv n <=? qv c end)
      then l
      else insert_asc c rest
  end.

(** ** Operations on a record *)

Definition writes_now (m : ul_mode) : bool :=
  match m with WRITE_THROUGH | DB_ONLY => true | _ => false end.

(** Return code, the new contact, record and state. *)
Definition insert_ucontact (cfg : ul_config) (ok : bool) (a : option Z) (contact : bytes)
    (ci : ucontact_info) (r : urecord) (s : ul_st) : Z * option ucontact * urecord * ul_st :=
  let '(o, r, s) := mem_insert_ucontact cfg a contact ci r s in
  match o with
  | None => (-1, None, r, s)
  | Some c =>
      let s := notify_watchers r c (if expires c >? 0 then PRES_ONLINE else PRES_OFFLINE) s in
      let s := run_ul_callbacks UL_CONTACT_INSERT c s in
      if writes_now (db_mode cfg) then
        let '(rc, s) := db_insert_ucontact cfg ok (aor r) c s in
        if rc <? 0 then (0, Some c, r, s)
        else
          let c := set_state CS_SYNC c in
          (0, Some c, set_contacts (put_contact c (contacts r)) r, s)
      else (0, Some c, r, s)
  end.

Definition delete_ucontact (cfg : ul_config) (ok : bool) (c : ucontact) (r : urecord) (s : ul_st)
  : res (urecord * ul_st) :=
  let s := run_ul_callbacks UL_CONTACT_DELETE c s in
  let s := notify_watchers r c PRES_OFFLINE s in
  let '(del, c) := st_delete_ucontact (db_mode cfg) c in
  if del then
    s ← (if writes_now (db_mode cfg)
         then '(_, s) ← db_delete_ucontact cfg ok (aor r) c s; Ret s else Ret s);
    Ret (mem_delete_ucontact (id c) r s)
  else Ret (set_contacts (put_contact c (contacts r)) r, s).

(** Return code, record and state. *)
Definition update_ucontact (cfg : ul_config) (m : upd_mem) (ok : bool) (c : ucontact)
    (ci : ucontact_info) (r : urecord) (s : ul_st) : res (Z * urecord * ul_st) :=
  let '(rc, c) := mem_update_ucontact m c ci in
  let r := set_contacts (put_contact c (contacts r)) r in
  if rc <? 0 then Ret (-1, r, s)
  else
    let s := run_ul_callbacks UL_CONTACT_UPDATE c s in
    let r := if decide (db_mode cfg = DB_ONLY) then r
             else set_contacts (update_contact_pos cfg c (contacts r)) r in
    let c := st_update_ucontact (db_mode cfg) c in
    let r := set_contacts (put_contact c (contacts r)) r in
    if writes_now (db_mode cfg) then
      '(rc, s) ← db_update_ucontact cfg ok (aor r) c s;
      if rc <? 0 then Ret (0, r, s)
      else Ret (0, set_contacts (put_contact (set_state CS_SYNC c) (contacts r)) r, s)
    else Ret (0, r, s).

Definition bytes_eqb (a b : bytes) : bool := bool_decide (a = b).

Definition contact_match (l : list ucontact) (c : bytes) : option ucontact :=
  List.find (fun p => bytes_eqb c (uri p)) l.
Definition contact_callid_match (l : list ucontact) (c cid : bytes) : option ucontact :=
  List.find (fun p => bytes_eqb c (uri p) && bytes_eqb cid (callid p)) l.

(** Return code and [*_co]; [now] is the time. *)
Definition get_ucontact (cfg : ul_config) (now : Z) (r : urecord) (c cid : bytes) (cs : Z)
  : Z * option ucontact :=
  let ptr := match matching_mode cfg with
             | CONTACT_ONLY => contact_match (contacts r) c
             | CONTACT_CALLID => contact_callid_match (contacts r) c cid
             end in
  let no_callid := match matching_mode cfg with CONTACT_ONLY => false | CONTACT_CALLID => true end in
  match ptr with
  | None => (1, None)
  | Some p =>
      if no_callid || bytes_eqb (callid p) cid then
        if cs <? cseq p then (-1, None)
        else if cs =? cseq p then
          (if last_modified p + cseq_delay cfg >? now then -2 else -1, None)
        else (0, Some p)
      else (0, Some p)
  end.

(** ** Timers *)

(** The contacts that expire: events and statistics of one. *)
Definition expire_events (r : urecord) (c : ucontact) (s : ul_st) : ul_st :=
  notify_watchers r c PRES_OFFLINE (run_ul_callbacks UL_CONTACT_EXPIRE c s).

Fixpoint nodb_loop (now : Z) (todo : list ucontact) (r : urecord) (s : ul_st) : urecord * ul_st :=
  match todo with
  | [] => (r, s)
  | c :: todo' =>
      if VALID_CONTACT c now then nodb_loop now todo' r s
      else
        let s := expire_events r c s in
        let '(r, s) := mem_delete_ucontact (id c) r s in
        nodb_loop now todo' r (add_expires 1 s)
  end.

Definition nodb_timer (now : Z) (r : urecord) (s : ul_st) : urecord * ul_st :=
  nodb_loop now (contacts r) r s.

(** [ok] tells for each contact whether the database accepts its operation. *)
Fixpoint wb_loop (cfg : ul_config) (ok : Z -> bool) (now : Z) (todo : list ucontact) (r : urecord)
    (s : ul_st) : res (urecord * ul_st) :=
  match todo with
  | [] => Ret (r, s)
  | c :: todo' =>
      if VALID_CONTACT c now then
        let '(op, c') := st_flush_ucontact c in
        let keep := set_contacts (put_contact c' (contacts r)) r in
        if op =? 1 then
          let '(rc, s) := db_insert_ucontact cfg (ok (id c)) (aor r) c' s in
          wb_loop cfg ok now todo' (if rc <? 0 then r else keep) s
        else if op =? 2 then
          '(rc, s) ← db_update_ucontact cfg (ok (id c)) (aor r) c' s;
          wb_loop cfg ok now todo' (if rc <? 0 then r else keep) s
        else wb_loop cfg ok now todo' r s
      else
        let s := add_expires 1 (expire_events r c s) in
        s ← (if st_expired_ucontact c
             then '(_, s) ← db_delete_ucontact cfg (ok (id c)) (aor r) c s; Ret s else Ret s);
        let '(r, s) := mem_delete_ucontact (id c) r s in
        wb_loop cfg ok now todo' r s
  end.

Definition wb_timer (cfg : ul_config) (ok : Z -> bool) (now : Z) (r : urecord) (s : ul_st)
  : res (urecord * ul_st) := wb_loop cfg ok now (contacts r) r s.

Definition timer_urecord (cfg : ul_config) (ok : Z -> bool) (now : Z) (r : urecord) (s : ul_st)
  : res (urecord * ul_st) :=
  match db_mode cfg with
  | NO_DB => Ret (nodb_timer now r s)
  | WRITE_THROUGH | WRITE_BACK => wb_timer cfg ok now r s
  | DB_ONLY => Ret (r, s)
  end.

(** ** Order of the contacts *)

Definition q_order (a b : ucontact) : Prop := qv b <= qv a.
Definition time_order (a b : ucontact) : Prop := last_modified b <= last_modified a.

Lemma insert_by_q_perm c l : Permutation (insert_by_q c l) (c :: l).
Proof.
  induction l as [|p l IH]; simpl; [done|]. case_match; [done|].
  rewrite IH. apply perm_swap.
Qed.

Lemma insert_by_q_sorted c l : StronglySorted q_order l -> StronglySorted q_order (insert_by_q c l).
Proof.
  induction l as [|p l IH]; simpl; intros S; [by repeat constructor|].
  apply StronglySorted_inv in S as [S F]. destruct (Z.ltb_spec (qv p) (qv c)).
  - constructor; [by constructor|]. constructor; [unfold q_order; lia|].
    eapply Forall_impl; [exact F|]. unfold q_order. intros; lia.
  - constructor; [by apply IH|]. rewrite insert_by_q_perm. constructor; [unfold q_order; lia|done].
Qed.

Lemma remove_sorted (R : ucontact -> ucontact -> Prop) i l :
  StronglySorted R l -> StronglySorted R (mem_remove_ucontact i l).
Proof.
  unfold mem_remove_ucontact. induction 1 as [|c l S IH F]; [constructor|].
  rewrite filter_cons. case_decide; [|done]. constructor; [done|].
  apply Forall_forall. intros d Hd. apply list_elem_of_filter in Hd as [_ Hd].
  rewrite Forall_forall in F. by apply F.
Qed.

(** ** Rows of the table *)

Section Rows.
Context (cfg : ul_config) (a : bytes).

Definition key_of (c : ucontact) : db_key :=
  let '(u, d) := insert_user cfg a in Key u d (uri c) (callid c).

(** The key belongs to the address of record. *)
Definition own (k : db_key) : Prop := (k_user k, k_domain k) = insert_user cfg a.

Definition rows_at (k : db_key) (s : ul_st) : list row := filter (fun r : row => r.1 = k) (rows s).

Context (Ha : is_Some (split_aor cfg a)).

Lemma db_key_of_ok c : db_key_of cfg a c = Ret (key_of c).
Proof. unfold db_key_of, key_of, insert_user. destruct Ha as [[u d] ->]. done. Qed.

Lemma own_key c : own (key_of c).
Proof. unfold own, key_of. by destruct (insert_user cfg a). Qed.

Lemma key_of_upd c c' : uri c' = uri c -> callid c' = callid c -> key_of c' = key_of c.
Proof. unfold key_of. by intros -> ->. Qed.

Lemma insert_rows c s :
  mem_only c = false ->
  db_insert_ucontact cfg true a c s = (0, with_rows (rows s ++ [(key_of c, vals_of c)]) s).
Proof. intros M. unfold db_insert_ucontact, key_of. rewrite M. by destruct (insert_user cfg a). Qed.

Lemma rows_at_insert k c s :
  rows_at k (with_rows (rows s ++ [(key_of c, vals_of c)]) s) =
  rows_at k s ++ (if decide (key_of c = k) then [(key_of c, vals_of c)] else []).
Proof. unfold rows_at. simpl. rewrite filter_app, filter_cons, filter_nil. done. Qed.

Lemma rows_at_update k k' v s :
  rows_at k (with_rows (map (fun r : row => if decide (r.1 = k') then (k', v) else r) (rows s)) s) =
  if decide (k = k') then map (fun _ => (k', v)) (rows_at k s) else rows_at k s.
Proof.
  unfold rows_at. simpl. induction (rows s) as [|r l IH]; simpl; [by case_decide|].
  rewrite !filter_cons. destruct (decide (r.1 = k')) as [E|E]; simpl.
  - destruct (decide (k' = k)) as [E2|E2].
    + rewrite (decide_True (P := k = k')) in * by done. rewrite decide_True by congruence. simpl. by f_equal.
    + rewrite (decide_False (P := k = k')) in * by congruence. by rewrite decide_False by congruence.
  - destruct (decide (k = k')) as [E2|E2]; case_decide; try congruence; by rewrite IH.
Qed.

Lemma rows_at_delete k k' s :
  rows_at k (with_rows (filter (fun r : row => r.1 <> k') (rows s)) s) =
  if decide (k = k') then [] else rows_at k s.
Proof.
  unfold rows_at. simpl. induction (rows s) as [|r l IH]; simpl; [by case_decide|].
  rewrite !filter_cons. destruct (decide (r.1 <> k')) as [E|E]; rewrite ?filter_cons; rewrite IH.
  - destruct (decide (k = k')); [|done]. by rewrite decide_False by congruence.
  - destruct (decide (k = k')); [done|]. rewrite decide_False; [done|].
    intros E2. apply E. congruence.
Qed.

End Rows.

(** ** Agreement of memory and database *)

(** What the table holds for a contact in each state.  A synchronised contact that was
    deleted in write-back mode waits for the timer with a changed expiry. *)
Definition contact_agrees (cfg : ul_config) (a : bytes) (s : ul_st) (c : ucontact) : Prop :=
  mem_only c = false /\
  match state c with
  | CS_NEW => rows_at (key_of cfg a c) s = []
  | CS_SYNC => exists v, rows_at (key_of cfg a c) s = [(key_of cfg a c, v)] /\
                 (v = vals_of c \/ expires c = UL_EXPIRED_TIME)
  | CS_DIRTY => exists v, rows_at (key_of cfg a c) s = [(key_of cfg a c, v)]
  end.

Record agrees (cfg : ul_config) (r : urecord) (s : ul_st) : Prop := {
  a_ids : NoDup (map id (contacts r));
  a_keys : NoDup (map (key_of cfg (aor r)) (contacts r));
  a_contacts : forall c, In c (contacts r) -> contact_agrees cfg (aor r) s c;
  a_rows : forall x, In x (rows s) -> own cfg (aor r) x.1 ->
             In x.1 (map (key_of cfg (aor r)) (contacts r))
}.

Lemma rows_at_eq k s s' : rows s' = rows s -> rows_at k s' = rows_at k s.
Proof. unfold rows_at. by intros ->. Qed.

Lemma contact_agrees_rows cfg a s s' c :
  rows_at (key_of cfg a c) s' = rows_at (key_of cfg a c) s ->
  contact_agrees cfg a s c -> contact_agrees cfg a s' c.
Proof. unfold contact_agrees. by intros ->. Qed.

Lemma agrees_rows cfg r s s' : rows s' = rows s -> agrees cfg r s -> agrees cfg r s'.
Proof.
  intros E [A1 A2 A3 A4]. constructor; [done|done| |by rewrite E].
  intros c Hc. by apply (contact_agrees_rows cfg (aor r) s); [apply rows_at_eq|apply A3].
Qed.

(** The order of the contacts does not matter. *)
Lemma agrees_perm cfg r s l l' :
  Permutation l l' -> agrees cfg (set_contacts l r) s -> agrees cfg (set_contacts l' r) s.
Proof.
  intros P [A1 A2 A3 A4]. simpl in *. constructor; simpl.
  - by rewrite <- P.
  - by rewrite <- P.
  - intros c Hc. apply A3. by apply (Permutation_in c (Permutation_sym P)).
  - intros x Hx Ho. apply (Permutation_in x.1 (Permutation_map _ P)). by apply A4.
Qed.

Lemma map_inj_In {A B} (f : A -> B) l x y :
  NoDup (map f l) -> In x l -> In y l -> f x = f y -> x = y.
Proof.
  induction l as [|z l IH]; simpl; [done|]. intros N [->|Hx] [->|Hy] E; try done;
    apply NoDup_cons in N as [Nz N].
  - exfalso. apply Nz. rewrite E. apply list_elem_of_In, in_map_iff. by exists y.
  - exfalso. apply Nz. rewrite <- E. apply list_elem_of_In, in_map_iff. by exists x.
  - by apply IH.
Qed.

Lemma put_contact_in c' l d :
  In d (put_contact c' l) -> d = c' \/ (In d l /\ id d <> id c').
Proof.
  unfold put_contact. rewrite in_map_iff. intros (x & E & Hx). revert E.
  destruct (Z.eqb_spec (id x) (id c')); intros <-; auto.
Qed.

Lemma put_contact_map {B} (f : ucontact -> B) c c' l :
  NoDup (map id l) -> In c l -> id c' = id c -> f c' = f c -> map f (put_contact c' l) = map f l.
Proof.
  intros N Hc Hi Hf. unfold put_contact. rewrite map_map. apply map_ext_in. intros d Hd.
  destruct (Z.eqb_spec (id d) (id c')) as [E|]; [|done].
  rewrite (map_inj_In id l d c N Hd Hc) by congruence. done.
Qed.

Section Replace.
Context (cfg : ul_config) (r : urecord) (s : ul_st) (A : agrees cfg r s)
  (c : ucontact) (Hc : In c (contacts r)).

Abbreviation key := (key_of cfg (aor r)).

Lemma other_key d : In d (contacts r) -> id d <> id c -> key d <> key c.
Proof.
  intros Hd Hn E. apply Hn. by rewrite (map_inj_In key (contacts r) d c (a_keys _ _ _ A) Hd Hc E).
Qed.

Lemma kept_rows s' x :
  (forall k, k <> key c -> rows_at k s' = rows_at k s) -> x.1 <> key c -> In x (rows s') -> In x (rows s).
Proof.
  intros Hs Hk Hx. assert (Hin : x ∈ rows_at x.1 s').
  { apply list_elem_of_filter. split; [done|]. by apply list_elem_of_In. }
  rewrite Hs in Hin by done. apply list_elem_of_filter in Hin as [_ Hin]. by apply list_elem_of_In.
Qed.

(** One contact and its rows change. *)
Lemma agrees_replace s' c' :
  id c' = id c -> key c' = key c -> (forall k, k <> key c -> rows_at k s' = rows_at k s) ->
  contact_agrees cfg (aor r) s' c' -> agrees cfg (set_contacts (put_contact c' (contacts r)) r) s'.
Proof.
  intros Hi Hk Hs Hn. pose proof A as [A1 A2 A3 A4]. constructor; simpl.
  - by rewrite (put_contact_map id c).
  - by rewrite (put_contact_map key c).
  - intros d Hd. apply put_contact_in in Hd as [->|[Hd Hne]]; [done|].
    apply (contact_agrees_rows cfg (aor r) s); [|by apply A3].
    apply Hs, other_key; [done|congruence].
  - intros x Hx Ho. rewrite (put_contact_map key c) by done.
    destruct (decide (x.1 = key c)) as [->|Hne]; [by apply in_map|].
    apply A4; [|done]. by apply (kept_rows s').
Qed.

(** The contact goes, and its rows. *)
Lemma agrees_remove s' :
  rows_at (key c) s' = [] -> (forall k, k <> key c -> rows_at k s' = rows_at k s) ->
  agrees cfg (set_contacts (mem_remove_ucontact (id c) (contacts r)) r) s'.
Proof.
  intros Hz Hs. pose proof A as [A1 A2 A3 A4].
  assert (Sub : forall B (f : ucontact -> B), NoDup (map f (contacts r)) ->
    NoDup (map f (mem_remove_ucontact (id c) (contacts r)))).
  { intros B f N. eapply sublist_NoDup; [exact N|]. apply (fmap_sublist f), sublist_filter. }
  constructor; simpl; [by apply Sub|by apply Sub|..].
  - intros d Hd. apply list_elem_of_In, list_elem_of_filter in Hd as [Hne Hd].
    apply list_elem_of_In in Hd. apply (contact_agrees_rows cfg (aor r) s); [|by apply A3].
    apply Hs. by apply other_key.
  - intros x Hx Ho. assert (Hne : x.1 <> key c).
    { intros E. assert (Hin : x ∈ rows_at (key c) s') by (apply list_elem_of_filter; by rewrite list_elem_of_In).
      rewrite Hz in Hin. by apply not_elem_of_nil in Hin. }
    destruct (proj1 (in_map_iff _ _ _) (A4 x (kept_rows s' x Hs Hne Hx) Ho)) as (d & Ed & Hd).
    rewrite <- Ed. apply in_map. apply list_elem_of_In, list_elem_of_filter. rewrite list_elem_of_In.
    split; [|done]. intros Ei. apply Hne. rewrite <- Ed.
    by rewrite (map_inj_In id (contacts r) d c A1 Hd Hc Ei).
Qed.

End Replace.

(** A new contact. *)
Lemma agrees_add cfg r s c l :
  agrees cfg r s -> Permutation l (c :: contacts r) -> mem_only c = false -> state c = CS_NEW ->
  ~ In (id c) (map id (contacts r)) -> ~ In (key_of cfg (aor r) c) (map (key_of cfg (aor r)) (contacts r)) ->
  agrees cfg (set_contacts l r) s.
Proof.
  intros [A1 A2 A3 A4] P M S Ni Nk. apply (agrees_perm cfg r s (c :: contacts r)); [by symmetry|].
  constructor; simpl.
  - constructor; [by rewrite list_elem_of_In|done].
  - constructor; [by rewrite list_elem_of_In|done].
  - intros d [<-|Hd]; [|by apply A3]. split; [done|]. rewrite S. unfold rows_at.
    apply elem_of_nil_inv. intros x Hx. apply list_elem_of_filter in Hx as [E Hx].
    apply Nk. rewrite <- E. apply A4; [by apply list_elem_of_In|]. rewrite E. apply own_key.
  - intros x Hx Ho. right. by apply A4.
Qed.

(** ** The operations keep memory and database in agreement *)

Lemma slot_stat_rows r n s : rows (slot_stat r n s) = rows s.
Proof. unfold slot_stat. by destruct (in_slot r). Qed.

(** A row that was inserted or updated by the contact it describes. *)
Lemma synced cfg a s c :
  mem_only c = false -> rows_at (key_of cfg a c) s = [(key_of cfg a c, vals_of c)] ->
  contact_agrees cfg a s (set_state CS_SYNC c).
Proof. intros M E. split; [done|]. simpl. exists (vals_of c). auto. Qed.

Section Operations.
Context (cfg : ul_config) (r : urecord) (s : ul_st) (A : agrees cfg r s)
  (Ha : is_Some (split_aor cfg (aor r))).

Abbreviation key := (key_of cfg (aor r)).

(** Writing a contact's row for the first time. *)
Lemma agrees_db_insert c :
  In c (contacts r) -> state c = CS_NEW ->
  let '(rc, s') := db_insert_ucontact cfg true (aor r) c s in
  rc = 0 /\ agrees cfg (set_contacts (put_contact (set_state CS_SYNC c) (contacts r)) r) s'.
Proof.
  intros Hc Hs. destruct (a_contacts _ _ _ A c Hc) as [M N]. rewrite Hs in N.
  rewrite insert_rows by done. split; [done|].
  apply (agrees_replace cfg r s A c Hc); [done|done|..].
  - intros k Hk. rewrite rows_at_insert. rewrite decide_False by congruence. by rewrite app_nil_r.
  - apply synced; [done|]. rewrite rows_at_insert, decide_True by done. by rewrite N.
Qed.

(** Rewriting it. *)
Lemma agrees_db_update c :
  In c (contacts r) -> state c <> CS_NEW ->
  exists s', db_update_ucontact cfg true (aor r) c s = Ret (0, s') /\
    agrees cfg (set_contacts (put_contact (set_state CS_SYNC c) (contacts r)) r) s'.
Proof.
  intros Hc Hs. destruct (a_contacts _ _ _ A c Hc) as [M N].
  assert (Hv : exists v, rows_at (key c) s = [(key c, v)]).
  { destruct (state c); [done|destruct N as (v & E & _); by exists v|done]. }
  destruct Hv as [v Hv]. unfold db_update_ucontact. rewrite M, db_key_of_ok by done. run.
  eexists. split; [done|]. apply (agrees_replace cfg r s A c Hc); [done|done|..].
  - intros k Hk. by rewrite rows_at_update, decide_False.
  - apply synced; [done|]. by rewrite rows_at_update, decide_True, Hv.
Qed.

Lemma agrees_db_delete c :
  In c (contacts r) ->
  exists s', db_delete_ucontact cfg true (aor r) c s = Ret (0, s') /\
    agrees cfg (set_contacts (mem_remove_ucontact (id c) (contacts r)) r) s'.
Proof.
  intros Hc. destruct (a_contacts _ _ _ A c Hc) as [M _]. unfold db_delete_ucontact.
  rewrite M, db_key_of_ok by done. run. eexists. split; [done|].
  apply (agrees_remove cfg r s A c Hc).
  - by rewrite rows_at_delete, decide_True.
  - intros k Hk. by rewrite rows_at_delete, decide_False.
Qed.

End Operations.

Lemma insert_list_perm cfg c l :
  Permutation (if desc_time_order cfg then c :: l else insert_by_q c l) (c :: l).
Proof. destruct (desc_time_order cfg); [done|apply insert_by_q_perm]. Qed.

Lemma insert_agrees cfg ok i contact ci r s :
  agrees cfg r s -> ~ In i (map id (contacts r)) -> Z.land (i_flags ci) FL_MEM = 0 ->
  (forall d, In d (contacts r) -> uri d <> contact \/ callid d <> i_callid ci) ->
  let '(rc, o, r', s') := insert_ucontact cfg ok (Some i) contact ci r s in
  rc = 0 /\ agrees cfg r' s'.
Proof.
  intros A Ni Hf Hk. unfold insert_ucontact, mem_insert_ucontact, new_ucontact. cbn [mbind option_bind].
  set (c := UContact _ _ _ _ _ _ _ _ _ _ _ _ _ _ _). set (l := if desc_time_order cfg then _ else _).
  set (r1 := set_contacts l r).
  assert (M : mem_only c = false) by (unfold mem_only; simpl; by rewrite Hf).
  assert (A1 : agrees cfg r1 s).
  { apply (agrees_add cfg r s c); [done|apply insert_list_perm|done|done|done|].
    intros Hin. apply in_map_iff in Hin as (d & E & Hd). unfold key_of in E.
    destruct (insert_user cfg (aor r)). injection E as E1 E2. destruct (Hk d Hd); done. }
  set (s1 := run_ul_callbacks _ _ _).
  assert (A2 : agrees cfg r1 s1) by (apply (agrees_rows cfg r1 s); [apply slot_stat_rows|done]).
  destruct (writes_now (db_mode cfg)); [|done].
  assert (Hc : In c (contacts r1)).
  { simpl. eapply Permutation_in; [symmetry; apply insert_list_perm|]. by left. }
  destruct ok.
  - pose proof (agrees_db_insert cfg r1 s1 A2 c Hc eq_refl) as D.
    change (aor r1) with (aor r) in D |- *. destruct (db_insert_ucontact cfg true (aor r) c s1) as [rc s2].
    destruct D as [-> D]. done.
  - unfold db_insert_ucontact. rewrite M. done.
Qed.

Lemma delete_agrees cfg c r s :
  agrees cfg r s -> is_Some (split_aor cfg (aor r)) -> In c (contacts r) -> db_mode cfg <> NO_DB ->
  returns (delete_ucontact cfg true c r s) (fun x => agrees cfg x.1 x.2).
Proof.
  intros A Ha Hc Hm. unfold delete_ucontact. set (s1 := notify_watchers _ _ _ _).
  assert (A1 : agrees cfg r s1) by (by apply (agrees_rows cfg r s)).
  assert (Now : writes_now (db_mode cfg) = true ->
    returns (s ← (if writes_now (db_mode cfg)
              then '(_, s) ← db_delete_ucontact cfg true (aor r) c s1; Ret s else Ret s1);
             Ret (mem_delete_ucontact (id c) r s)) (fun x => agrees cfg x.1 x.2)).
  { intros ->. destruct (agrees_db_delete cfg r s1 A1 Ha c Hc) as (s2 & -> & D). run. apply returns_ret.
    apply (agrees_rows cfg _ s2); [apply slot_stat_rows|done]. }
  destruct (a_contacts _ _ _ A1 c Hc) as [M Hs]. unfold st_delete_ucontact.
  destruct (state c) eqn:Es; destruct (db_mode cfg) eqn:Em; try done; try (by apply Now); cbn [writes_now]; run;
    apply returns_ret.
  - apply (agrees_rows cfg _ s1); [apply slot_stat_rows|]. by apply (agrees_remove cfg r s1 A1 c Hc).
  - apply (agrees_replace cfg r s1 A1 c Hc); [done|done|done|]. split; [done|]. simpl. rewrite Es.
    destruct Hs as (v & E & _). exists v. auto.
  - apply (agrees_replace cfg r s1 A1 c Hc); [done|done|done|]. split; [done|]. simpl. rewrite Es.
    destruct Hs as (v & E). by exists v.
Qed.

Lemma remove_notin i l : ~ In i (map id l) -> mem_remove_ucontact i l = l.
Proof.
  unfold mem_remove_ucontact. induction l as [|d l IH]; simpl; [done|]. intros N.
  rewrite filter_cons, decide_True by (intros E; auto). f_equal. auto.
Qed.

Lemma remove_perm c l :
  NoDup (map id l) -> In c l -> Permutation (c :: mem_remove_ucontact (id c) l) l.
Proof.
  unfold mem_remove_ucontact. induction l as [|d l IH]; simpl; [done|]. intros N Hc.
  apply NoDup_cons in N as [Nd N]. rewrite filter_cons. destruct Hc as [->|Hc].
  - rewrite decide_False by (intros H; by apply H). f_equiv.
    fold (mem_remove_ucontact (id c) l). rewrite remove_notin; [done|]. by rewrite <- list_elem_of_In.
  - assert (id d <> id c).
    { intros E. apply Nd. rewrite E. apply list_elem_of_In, in_map_iff. by exists c. }
    rewrite decide_True by done. rewrite perm_swap. by rewrite IH.
Qed.

Lemma insert_asc_perm c l : Permutation (insert_asc c l) (c :: l).
Proof. induction l as [|p l IH]; simpl; [done|]. case_match; [|done]. rewrite IH. apply perm_swap. Qed.

Lemma update_pos_perm cfg c l :
  NoDup (map id l) -> In c l -> Permutation (update_contact_pos cfg c l) l.
Proof.
  intros N Hc. unfold update_contact_pos. destruct (neighbours None (id c) l) as [[p n]|]; [|done].
  destruct (desc_time_order cfg).
  - destruct p; [by apply remove_perm|done].
  - destruct (_ && _); [done|]. rewrite insert_asc_perm. by apply remove_perm.
Qed.

Definition mem_ok : upd_mem := UpdMem true true true.

Lemma update_str_ok old new : exists x, update_str true old new = Some x.
Proof. unfold update_str. case_match; by eexists. Qed.

(** The updated contact keeps its identity and its state. *)
Lemma mem_update_ok c ci :
  exists c', mem_update_ucontact mem_ok c ci = (0, c') /\ id c' = id c /\ uri c' = uri c /\
    callid c' = callid c /\ state c' = state c /\ flags c' = i_flags ci /\
    cseq c' = i_cseq ci /\ last_modified c' = i_last_modified ci /\ qv c' = i_q ci.
Proof.
  unfold mem_update_ucontact. cbn [ok_ua ok_received ok_path mem_ok].
  destruct (update_str_ok (Some (user_agent c)) (i_user_agent ci)) as [ua ->].
  set (c1 := upd_strings _ _ _ c).
  assert (E2 : exists rc, match i_received ci with [] => Some None
    | rcv => update_str true (received c1) rcv end = Some rc).
  { destruct (i_received ci) as [|z l]; [by eexists|apply (update_str_ok (received c1) (z :: l))]. }
  destruct E2 as [rc ->]. set (c2 := upd_strings _ _ _ c1).
  assert (E3 : exists pt, match i_path ci with None => Some None
    | Some p => update_str true (path c2) p end = Some pt).
  { destruct (i_path ci); [apply update_str_ok|by eexists]. }
  destruct E3 as [pt ->]. eexists. split; [done|]. done.
Qed.

Lemma put_put_contact c c' l : id c' = id c -> put_contact c' (put_contact c l) = put_contact c' l.
Proof.
  intros E. unfold put_contact. rewrite map_map. apply map_ext. intros d.
  destruct (Z.eqb_spec (id d) (id c)) as [Ed|Ed].
  - by rewrite E, Ed, Z.eqb_refl.
  - rewrite E. by rewrite (proj2 (Z.eqb_neq _ _) Ed).
Qed.

Lemma put_contact_self c c' l : In c l -> id c' = id c -> In c' (put_contact c' l).
Proof.
  intros Hc E. unfold put_contact. apply in_map_iff. exists c. split; [|done].
  by rewrite E, Z.eqb_refl.
Qed.

Lemma put_contact_perm c l l' : Permutation l l' -> Permutation (put_contact c l) (put_contact c l').
Proof. apply Permutation_map. Qed.

(** The list after an update, up to order. *)
Lemma update_list_perm cfg r c c1 c2 :
  NoDup (map id (contacts r)) -> In c (contacts r) -> id c1 = id c -> id c2 = id c ->
  let r1 := set_contacts (put_contact c1 (contacts r)) r in
  let r2 := if decide (db_mode cfg = DB_ONLY) then r1
            else set_contacts (update_contact_pos cfg c1 (contacts r1)) r1 in
  Permutation (put_contact c2 (contacts r)) (put_contact c2 (contacts r2)).
Proof.
  intros N Hc E1 E2 r1 r2.
  assert (P : Permutation (contacts r2) (put_contact c1 (contacts r))).
  { unfold r2. case_decide; [done|]. apply update_pos_perm.
    - simpl. by rewrite (put_contact_map id c).
    - by apply (put_contact_self c). }
  rewrite (put_contact_perm c2 _ _ P). rewrite put_put_contact by congruence. done.
Qed.

Lemma st_update_agrees cfg a s c c1 m :
  contact_agrees cfg a s c -> id c1 = id c -> uri c1 = uri c -> callid c1 = callid c ->
  state c1 = state c -> mem_only c1 = false -> m = WRITE_BACK \/ m = WRITE_THROUGH ->
  contact_agrees cfg a s (st_update_ucontact m c1).
Proof.
  intros [M A] _ Hu Hi Hs M1 Hm.
  assert (K : key_of cfg a c1 = key_of cfg a c) by (by apply key_of_upd).
  unfold st_update_ucontact. rewrite Hs. destruct (state c) eqn:Es.
  - split; [done|]. by rewrite Hs, K.
  - destruct A as (v & E & _).
    assert (D : contact_agrees cfg a s (set_state CS_DIRTY c1)).
    { split; [done|]. simpl. exists v. change (key_of cfg a (set_state CS_DIRTY c1)) with (key_of cfg a c1).
      by rewrite K. }
    by destruct Hm as [-> | ->].
  - split; [done|]. by rewrite Hs, K.
Qed.

Lemma update_agrees cfg ok c ci r s :
  agrees cfg r s -> is_Some (split_aor cfg (aor r)) -> In c (contacts r) ->
  Z.land (i_flags ci) FL_MEM = 0 ->
  db_mode cfg = WRITE_BACK \/ (db_mode cfg = WRITE_THROUGH /\ state c <> CS_NEW) ->
  returns (update_ucontact cfg mem_ok ok c ci r s) (fun x => x.1.1 = 0 /\ agrees cfg x.1.2 x.2).
Proof.
  intros A Ha Hc Hf Hm. unfold update_ucontact.
  destruct (mem_update_ok c ci) as (c1 & -> & Ei & Eu & Ec & Es & Ef & _). cbn [Z.ltb Z.compare].
  set (s1 := run_ul_callbacks _ _ _). assert (A1 : agrees cfg r s1) by (by apply (agrees_rows cfg r s)).
  set (c2 := st_update_ucontact (db_mode cfg) c1).
  assert (Hm' : db_mode cfg = WRITE_BACK \/ db_mode cfg = WRITE_THROUGH) by tauto.
  assert (M1 : mem_only c1 = false) by (unfold mem_only; by rewrite Ef, Hf).
  assert (C2 : contact_agrees cfg (aor r) s1 c2).
  { apply (st_update_agrees cfg (aor r) s1 c); try done. by apply (a_contacts _ _ _ A1). }
  assert (I2 : id c2 = id c /\ uri c2 = uri c /\ callid c2 = callid c /\ mem_only c2 = false).
  { unfold c2, st_update_ucontact. destruct (state c1), (db_mode cfg); done. }
  destruct I2 as (I2 & U2 & K2 & M2).
  set (r2 := if decide (db_mode cfg = DB_ONLY) then _ else _).
  assert (Ea : aor r2 = aor r) by (unfold r2; by case_decide).
  assert (A2 : agrees cfg (set_contacts (put_contact c2 (contacts r2)) r) s1).
  { eapply agrees_perm; [apply (update_list_perm cfg r c c1 c2); [apply A|done|done|done]|].
    apply (agrees_replace cfg r s1 A1 c Hc); [done|by apply key_of_upd|done|done]. }
  assert (Er : set_contacts (put_contact c2 (contacts r2)) r2 = set_contacts (put_contact c2 (contacts r2)) r)
    by (unfold r2; by case_decide).
  rewrite Er. set (r3 := set_contacts (put_contact c2 (contacts r2)) r) in *.
  destruct Hm as [Hm|[Hm Hn]]; rewrite Hm; cbn [writes_now]; [by apply returns_ret|].
  assert (H3 : In c2 (contacts r3)).
  { apply (Permutation_in c2 (update_list_perm cfg r c c1 c2 (a_ids _ _ _ A) Hc Ei I2)).
    by apply (put_contact_self c). }
  destruct ok.
  - destruct (agrees_db_update cfg r3 s1 A2 Ha c2 H3) as (s2 & E2 & D).
    { unfold c2, st_update_ucontact. rewrite Hm, Es. destruct (state c); simpl; congruence. }
    rewrite E2. run. by apply returns_ret.
  - unfold db_update_ucontact. rewrite M2, db_key_of_ok by done. run. by apply returns_ret.
Qed.

(** ** The timer *)

Lemma put_contact_other c' l d : In d l -> id d <> id c' -> In d (put_contact c' l).
Proof.
  intros Hd Hne. unfold put_contact. apply in_map_iff. exists d. split; [|done].
  by rewrite (proj2 (Z.eqb_neq _ _) Hne).
Qed.

Lemma remove_in i l d : In d (mem_remove_ucontact i l) <-> In d l /\ id d <> i.
Proof. unfold mem_remove_ucontact. rewrite <- !list_elem_of_In, list_elem_of_filter. tauto. Qed.

(** What one pass of the timer leaves for a contact. *)
Definition flushed (ok : Z -> bool) (now : Z) (d : ucontact) : Prop :=
  VALID_CONTACT d now = true /\ (ok (id d) = true -> state d = CS_SYNC).

Section Timer.
Context (cfg : ul_config) (ok : Z -> bool) (now : Z).

(** The body of the loop for one contact. *)
Definition wb_one (c : ucontact) (r : urecord) (s : ul_st) : res (urecord * ul_st) :=
  if VALID_CONTACT c now then
    let '(op, c') := st_flush_ucontact c in
    let keep := set_contacts (put_contact c' (contacts r)) r in
    if op =? 1 then
      let '(rc, s) := db_insert_ucontact cfg (ok (id c)) (aor r) c' s in
      Ret (if rc <? 0 then r else keep, s)
    else if op =? 2 then
      '(rc, s) ← db_update_ucontact cfg (ok (id c)) (aor r) c' s;
      Ret (if rc <? 0 then r else keep, s)
    else Ret (r, s)
  else
    let s := add_expires 1 (expire_events r c s) in
    s ← (if st_expired_ucontact c
         then '(_, s) ← db_delete_ucontact cfg (ok (id c)) (aor r) c s; Ret s else Ret s);
    Ret (mem_delete_ucontact (id c) r s).

Lemma wb_loop_cons c todo r s :
  wb_loop cfg ok now (c :: todo) r s = ('(r, s) ← wb_one c r s; wb_loop cfg ok now todo r s).
Proof.
  simpl. unfold wb_one. destruct (VALID_CONTACT c now).
  - destruct (st_flush_ucontact c) as [op c']. destruct (op =? 1).
    + by destruct (db_insert_ucontact _ _ _ _ _).
    + destruct (op =? 2); [|done]. by destruct (db_update_ucontact _ _ _ _ _) as [[rc s1]|].
  - destruct (st_expired_ucontact c); [|done].
    by destruct (db_delete_ucontact _ _ _ _ _) as [[rc s1]|].
Qed.

(** The effect of the body on the record, apart from the rows. *)
Definition one_effect (c : ucontact) (r r' : urecord) : Prop :=
  aor r' = aor r /\
  (forall d, In d (contacts r) -> id d <> id c -> In d (contacts r')) /\
  (forall d, In d (contacts r') -> id d <> id c -> In d (contacts r)) /\
  (forall d, In d (contacts r') -> id d = id c -> flushed ok now d) /\
  (forall i, In i (map id (contacts r')) <->
     In i (map id (contacts r)) /\ (i = id c -> VALID_CONTACT c now = true)).

Lemma effect_put c c' r :
  NoDup (map id (contacts r)) -> In c (contacts r) -> id c' = id c -> VALID_CONTACT c now = true -> flushed ok now c' ->
  one_effect c r (set_contacts (put_contact c' (contacts r)) r).
Proof.
  intros N Hc Hi Hv Hf. split; [done|]. split; [|split; [|split]]; simpl.
  - intros d Hd Hne. apply put_contact_other; congruence.
  - intros d Hd Hne. apply put_contact_in in Hd as [->|[? _]]; congruence.
  - intros d Hd He. apply put_contact_in in Hd as [->|[_ ?]]; [done|congruence].
  - intros i. rewrite (put_contact_map id c) by done. rewrite Hv. tauto.
Qed.

Lemma effect_stay c r :
  NoDup (map id (contacts r)) -> In c (contacts r) -> flushed ok now c -> one_effect c r r.
Proof.
  intros N Hc Hf. split; [done|]. split; [auto|]. split; [auto|]. split.
  - intros d Hd He. by rewrite (map_inj_In id (contacts r) d c N Hd Hc He).
  - intros i. rewrite (proj1 Hf). tauto.
Qed.

Lemma effect_remove c r :
  VALID_CONTACT c now = false ->
  one_effect c r (set_contacts (mem_remove_ucontact (id c) (contacts r)) r).
Proof.
  intros Hv. split; [done|]. split; [|split; [|split]]; simpl.
  - intros d Hd Hne. by apply remove_in.
  - intros d Hd _. by apply remove_in in Hd as [? _].
  - intros d Hd He. by apply remove_in in Hd as [_ ?].
  - intros i. rewrite Hv, !in_map_iff. split.
    + intros (d & <- & Hd). apply remove_in in Hd as [Hd Hne]. split; [by exists d|done].
    + intros [(d & <- & Hd) Hne]. exists d. split; [done|]. apply remove_in. split; [done|].
      intros E. by specialize (Hne E).
Qed.

Lemma wb_one_spec c r s :
  agrees cfg r s -> is_Some (split_aor cfg (aor r)) -> In c (contacts r) ->
  (VALID_CONTACT c now = false -> ok (id c) = true) ->
  returns (wb_one c r s) (fun x => agrees cfg x.1 x.2 /\ one_effect c r x.1).
Proof.
  intros A Ha Hc Hd. pose proof (a_ids _ _ _ A) as N. destruct (a_contacts _ _ _ A c Hc) as [M Hst].
  unfold wb_one. destruct (VALID_CONTACT c now) eqn:Ev.
  - assert (F : ok (id c) = true -> state c = CS_SYNC \/ flushed ok now (set_state CS_SYNC c)).
    { right. by split. }
    unfold st_flush_ucontact. destruct (state c) eqn:Es; cbn [Z.eqb Pos.eqb].
    + change (db_insert_ucontact cfg (ok (id c)) (aor r) (set_state CS_SYNC c) s)
        with (db_insert_ucontact cfg (ok (id c)) (aor r) c s).
      destruct (ok (id c)) eqn:Eo.
      * pose proof (agrees_db_insert cfg r s A c Hc Es) as D.
        destruct (db_insert_ucontact cfg true (aor r) c s) as [rc s'], D as [-> D].
        apply returns_ret. split; [done|]. by apply effect_put.
      * unfold db_insert_ucontact. rewrite M. apply returns_ret. split; [done|].
        apply effect_stay; [done|done|]. split; [done|congruence].
    + apply returns_ret. split; [done|]. apply effect_stay; [done|done|]. by split.
    + change (db_update_ucontact cfg (ok (id c)) (aor r) (set_state CS_SYNC c) s)
        with (db_update_ucontact cfg (ok (id c)) (aor r) c s).
      destruct (ok (id c)) eqn:Eo.
      * destruct (agrees_db_update cfg r s A Ha c Hc) as (s' & -> & D); [congruence|]. run.
        apply returns_ret. split; [done|]. by apply effect_put.
      * unfold db_update_ucontact. rewrite M, db_key_of_ok by done. run. apply returns_ret.
        split; [done|]. apply effect_stay; [done|done|]. split; [done|congruence].
  - set (s1 := add_expires 1 _). assert (A1 : agrees cfg r s1) by (by apply (agrees_rows cfg r s)).
    rewrite Hd by done. unfold st_expired_ucontact, mem_delete_ucontact. destruct (state c) eqn:Es; run.
    1: { apply returns_ret. split; [|by apply effect_remove].
         apply (agrees_rows cfg _ s1); [apply slot_stat_rows|]. by apply (agrees_remove cfg r s1 A1 c Hc). }
    all: destruct (agrees_db_delete cfg r s1 A1 Ha c Hc) as (s2 & -> & D); run; apply returns_ret;
      (split; [|by apply effect_remove]); (apply (agrees_rows cfg _ s2); [apply slot_stat_rows|done]).
Qed.

(** The whole pass: the contacts left are the ones that had not expired, and those the
    database accepted are synchronised. *)
Lemma wb_loop_spec todo r s :
  agrees cfg r s -> is_Some (split_aor cfg (aor r)) -> NoDup (map id todo) ->
  (forall c, In c todo -> In c (contacts r)) ->
  (forall c, In c todo -> VALID_CONTACT c now = false -> ok (id c) = true) ->
  returns (wb_loop cfg ok now todo r s) (fun x => agrees cfg x.1 x.2 /\ aor x.1 = aor r /\
    (forall d, In d (contacts x.1) -> In d (contacts r) /\ ~ In (id d) (map id todo) \/ flushed ok now d) /\
    (forall i, In i (map id (contacts x.1)) <->
       In i (map id (contacts r)) /\ (forall c, In c todo -> id c = i -> VALID_CONTACT c now = true))).
Proof.
  revert r s. induction todo as [|c todo IH]; intros r s A Ha N Hin Hd.
  { apply returns_ret. split; [done|]. split; [done|]. split; [simpl; tauto|]. intros i. simpl. naive_solver. }
  rewrite wb_loop_cons. apply NoDup_cons in N as [Nc N]. rewrite list_elem_of_In in Nc.
  eapply returns_bind; [apply (wb_one_spec c r s A Ha); [apply Hin; by left|apply Hd; by left]|].
  intros [r1 s1] [A1 (Ea & E1 & E2 & E3 & E4)]. simpl in *.
  assert (Hne : forall d, In d todo -> id d <> id c).
  { intros d Hd' E. apply Nc. rewrite <- E. by apply in_map. }
  eapply returns_impl; [apply IH; [done|by rewrite Ea|done|auto|auto]|].
  intros [r2 s2] (A2 & Ea2 & F2 & G2). simpl in *. split; [done|]. split; [congruence|]. split.
  - intros d Hd2. destruct (F2 d Hd2) as [[Hd1 Hn]|]; [|by right].
    destruct (decide (id d = id c)) as [E|E]; [right; by apply E3|left]. split; [by apply E2|].
    intros [?|?]; [congruence|done].
  - intros i. rewrite G2, E4. naive_solver.
Qed.

End Timer.

(** Without a database: the expired contacts go, in order, and are counted. *)
Definition expired_of (now : Z) (l : list ucontact) : list ucontact :=
  filter (fun c => VALID_CONTACT c now = false) l.

Lemma remove_app i l l' : mem_remove_ucontact i (l ++ l') = mem_remove_ucontact i l ++ mem_remove_ucontact i l'.
Proof. apply filter_app. Qed.

Lemma remove_head c l : ~ In (id c) (map id l) -> mem_remove_ucontact (id c) (c :: l) = l.
Proof.
  intros N. unfold mem_remove_ucontact. rewrite filter_cons, decide_False by (intros H; by apply H).
  by apply remove_notin.
Qed.

Lemma nodb_loop_spec now done todo r s :
  contacts r = done ++ todo -> NoDup (map id (done ++ todo)) -> in_slot r = true ->
  let n := Z.of_nat (length (expired_of now todo)) in
  exists s', nodb_loop now todo r s =
      (set_contacts (done ++ filter (fun c => VALID_CONTACT c now = true) todo) r, s') /\
    n_contacts s' = n_contacts s - n /\ n_expires s' = n_expires s + n /\ rows s' = rows s /\
    n_users s' = n_users s.
Proof.
  revert done r s. induction todo as [|c todo IH]; intros dn r s Hl N Hs; simpl.
  { exists s. rewrite app_nil_r in *. split; [|split; [lia|split; [lia|done]]].
    f_equal. rewrite <- Hl. by destruct r. }
  unfold expired_of. rewrite !filter_cons. destruct (VALID_CONTACT c now) eqn:Ev.
  - rewrite decide_True, decide_False by done.
    destruct (IH (dn ++ [c]) r s) as (s' & E & E1 & E2 & E3 & E4); [by rewrite <- app_assoc|by rewrite <- app_assoc|done|].
    exists s'. rewrite E. by rewrite <- app_assoc.
  - rewrite decide_False, decide_True by done. rewrite map_app in N. simpl in N.
    assert (Nc : ~ In (id c) (map id (dn ++ todo))).
    { rewrite map_app, in_app_iff. apply NoDup_app in N as (N1 & N2 & N3). apply NoDup_cons in N3 as [N3 _].
      intros [Hin|Hin]; apply list_elem_of_In in Hin; [|done]. apply (N2 (id c) Hin). by left. }
    rewrite map_app, in_app_iff in Nc.
    unfold mem_delete_ucontact. rewrite Hl, remove_app, (remove_notin (id c) dn), remove_head by tauto.
    destruct (IH dn (set_contacts (dn ++ todo) r) (add_expires 1 (slot_stat r (-1) (expire_events r c s))))
      as (s' & E & E1 & E2 & E3 & E4); [done| |done|].
    { rewrite map_app. apply NoDup_app in N as (N1 & N2 & N3). apply NoDup_cons in N3 as [_ N3].
      apply NoDup_app. split; [done|]. split; [|done]. intros x Hx Hin. apply (N2 x Hx). by right. }
    exists s'. rewrite E. split; [done|]. unfold slot_stat in *. rewrite Hs in *. simpl in *.
    split; [rewrite E1; unfold expired_of; lia|]. split; [rewrite E2; unfold expired_of; lia|done].
Qed.

(** ** Lookup by contact *)

Lemma find_unique (f : ucontact -> bool) l c :
  In c l -> f c = true -> (forall d, In d l -> f d = true -> d = c) -> List.find f l = Some c.
Proof.
  intros Hc Hf Hu. destruct (List.find f l) as [d|] eqn:E.
  - apply find_some in E as [Hd Fd]. by rewrite (Hu d Hd Fd).
  - rewrite (find_none f l E c Hc) in Hf. done.
Qed.

Lemma contact_match_unique l c :
  NoDup (map uri l) -> In c l -> contact_match l (uri c) = Some c.
Proof.
  intros N Hc. apply find_unique; [done|by apply bool_decide_eq_true|]. intros d Hd E.
  apply bool_decide_eq_true in E. by apply (map_inj_In uri l); [..|symmetry].
Qed.

(** The contact after an update, and the record it is in. *)
Lemma st_update_state m c : exists st, st_update_ucontact m c = set_state st c.
Proof.
  unfold st_update_ucontact. destruct (state c) eqn:E, m; (by eexists) || (exists (state c); by destruct c).
Qed.

Lemma update_result cfg ok c ci r s rc r' s' :
  NoDup (map id (contacts r)) -> In c (contacts r) ->
  update_ucontact cfg mem_ok ok c ci r s = Ret (rc, r', s') ->
  exists st, let d := set_state st (mem_update_ucontact mem_ok c ci).2 in
    rc = 0 /\ Permutation (contacts r') (put_contact d (contacts r)).
Proof.
  intros N Hc. unfold update_ucontact.
  destruct (mem_update_ok c ci) as (c1 & -> & Ei & _). cbn [Z.ltb Z.compare snd].
  set (s1 := run_ul_callbacks _ _ _). set (r2 := if decide (db_mode cfg = DB_ONLY) then _ else _).
  destruct (st_update_state (db_mode cfg) c1) as [st E2]. rewrite E2. set (c2 := set_state st c1).
  assert (P : forall d, id d = id c -> Permutation (put_contact d (contacts r2)) (put_contact d (contacts r))).
  { intros d Hd. symmetry. by apply (update_list_perm cfg r c c1 d). }
  destruct (writes_now (db_mode cfg)).
  - destruct (db_update_ucontact _ _ _ _ _) as [[rc2 s2]|]; run; [|done].
    destruct (rc2 <? 0); intros [= <- <- <-].
    + exists st. split; [done|]. by apply P.
    + exists CS_SYNC. split; [done|]. simpl. rewrite put_put_contact by done. by apply P.
  - intros [= <- <- <-]. exists st. split; [done|]. by apply P.
Qed.

(** After a pass in which the database accepted everything, its rows for the address of
    record are the contacts in memory. *)
Lemma synced_rows cfg r s now x :
  agrees cfg r s -> UL_EXPIRED_TIME <= now ->
  (forall d, In d (contacts r) -> VALID_CONTACT d now = true /\ state d = CS_SYNC) ->
  own cfg (aor r) x.1 ->
  In x (rows s) <-> In x (map (fun c => (key_of cfg (aor r) c, vals_of c)) (contacts r)).
Proof.
  intros A Hn F Ho.
  assert (R : forall d, In d (contacts r) -> rows_at (key_of cfg (aor r) d) s = [(key_of cfg (aor r) d, vals_of d)]).
  { intros d Hd. destruct (F d Hd) as [V S]. destruct (a_contacts _ _ _ A d Hd) as [_ C]. rewrite S in C.
    destruct C as (v & E & [->|X]); [done|]. exfalso. unfold VALID_CONTACT, UL_EXPIRED_TIME in *.
    rewrite X in V. apply orb_true_iff in V as [V|V]; lia. }
  split.
  - intros Hx. destruct (proj1 (in_map_iff _ _ _) (a_rows _ _ _ A x Hx Ho)) as (d & Ed & Hd).
    apply in_map_iff. exists d. split; [|done].
    assert (Hin : x ∈ rows_at (key_of cfg (aor r) d) s) by (apply list_elem_of_filter; by rewrite list_elem_of_In).
    rewrite R in Hin by done. by apply list_elem_of_singleton in Hin.
  - intros Hx. apply in_map_iff in Hx as (d & <- & Hd).
    assert (Hin : (key_of cfg (aor r) d, vals_of d) ∈ rows_at (key_of cfg (aor r) d) s)
      by (rewrite R by done; by left).
    apply list_elem_of_filter in Hin as [_ Hin]. by apply list_elem_of_In.
Qed.

(** A pass of the write-back timer that the database accepts. *)
Lemma wb_timer_ok cfg r s now :
  agrees cfg r s -> is_Some (split_aor cfg (aor r)) -> UL_EXPIRED_TIME <= now ->
  exists r' s', wb_timer cfg (fun _ => true) now r s = Ret (r', s') /\ agrees cfg r' s' /\ aor r' = aor r /\
    (forall d, In d (contacts r') -> VALID_CONTACT d now = true /\ state d = CS_SYNC) /\
    (forall i, In i (map id (contacts r')) <->
       exists c, In c (contacts r) /\ id c = i /\ VALID_CONTACT c now = true) /\
    (forall x, own cfg (aor r) x.1 ->
       In x (rows s') <-> In x (map (fun c => (key_of cfg (aor r) c, vals_of c)) (contacts r'))).
Proof.
  intros A Ha Hn. unfold wb_timer.
  destruct (wb_loop_spec cfg (fun _ => true) now (contacts r) r s) as ([r' s'] & E0 & A' & Ea & F & G);
    [done|done|apply A|done|done|]. simpl in *.
  assert (F' : forall d, In d (contacts r') -> VALID_CONTACT d now = true /\ state d = CS_SYNC).
  { intros d Hd. destruct (F d Hd) as [[Hin Hn']|[V S]]; [|auto]. exfalso. apply Hn'. by apply in_map. }
  exists r', s'. split; [done|]. split; [done|]. split; [done|]. split; [done|]. split.
  - intros i. rewrite G. split.
    + intros [Hin V]. apply in_map_iff in Hin as (c & Ec & Hc). exists c. auto.
    + intros (c & Hc & <- & V). split; [by apply in_map|]. intros d Hd E.
      by rewrite (map_inj_In id (contacts r) d c (a_ids _ _ _ A) Hd Hc E).
  - intros x Ho. rewrite <- Ea. apply (synced_rows cfg r' s' now); [done|done|done|by rewrite Ea].
Qed.

(** ** Main results *)

(** A pass of the write-back timer in which the database accepts every operation
    keeps exactly the contacts that have not expired, marks them all synchronised, and
    leaves in the table, for this address of record, exactly their rows. *)
Theorem wb_timer_flushes cfg r s now :
  agrees cfg r s -> is_Some (split_aor cfg (aor r)) -> UL_EXPIRED_TIME <= now ->
  exists r' s', wb_timer cfg (fun _ => true) now r s = Ret (r', s') /\ aor r' = aor r /\
    (forall d, In d (contacts r') -> VALID_CONTACT d now = true /\ state d = CS_SYNC) /\
    (forall i, In i (map id (contacts r')) <->
       exists c, In c (contacts r) /\ id c = i /\ VALID_CONTACT c now = true) /\
    (forall x, own cfg (aor r) x.1 ->
       In x (rows s') <-> In x (map (fun c => (key_of cfg (aor r) c, vals_of c)) (contacts r'))).
Proof.
  intros A Ha Hn. destruct (wb_timer_ok cfg r s now A Ha Hn) as (r' & s' & E & _ & R).
  by exists r', s'.
Qed.

(** C7: In write-back and write-through mode, inserting, updating and deleting a contact keep
    memory and table in agreement: a new contact has no row, a dirty one has one row, a
    synchronised one has one row with its values (unless it waits to be deleted), and no other
    row belongs to the address of record. An insert or an update that the table refuses is
    allowed; a delete must be accepted, there is memory, and in write-through mode a contact not
    yet inserted must not be updated ([update_hides_failed_insert] is what happens otherwise).
    Contacts stored in memory only ([FL_MEM]) are not covered. *)
Theorem operations_agree cfg ok r s :
  agrees cfg r s -> is_Some (split_aor cfg (aor r)) ->
  db_mode cfg = WRITE_BACK \/ db_mode cfg = WRITE_THROUGH ->
  (forall i contact ci, ~ In i (map id (contacts r)) -> Z.land (i_flags ci) FL_MEM = 0 ->
     (forall d, In d (contacts r) -> uri d <> contact \/ callid d <> i_callid ci) ->
     let '(rc, _, r', s') := insert_ucontact cfg ok (Some i) contact ci r s in rc = 0 /\ agrees cfg r' s') /\
  (forall c ci, In c (contacts r) -> Z.land (i_flags ci) FL_MEM = 0 ->
     db_mode cfg = WRITE_BACK \/ state c <> CS_NEW ->
     exists r' s', update_ucontact cfg mem_ok ok c ci r s = Ret (0, r', s') /\ agrees cfg r' s') /\
  (forall c, In c (contacts r) ->
     exists r' s', delete_ucontact cfg true c r s = Ret (r', s') /\ agrees cfg r' s').
Proof.
  intros A Ha Hm. split; [|split].
  - intros i contact ci Ni Hf Hk. by apply (insert_agrees cfg ok i contact ci r s).
  - intros c ci Hc Hf Hn.
    destruct (update_agrees cfg ok c ci r s A Ha Hc Hf) as ([[rc r'] s'] & E & E0 & A'); [tauto|].
    simpl in *. subst. by exists r', s'.
  - intros c Hc. destruct (delete_agrees cfg c r s A Ha Hc) as ([r' s'] & E & A').
    + destruct Hm as [-> | ->]; done.
    + by exists r', s'.
Qed.

(** In write-through mode, updating a contact whose insert had failed marks it
    synchronised although the table has no row for it: the update matches no row, and
    the timer will never insert it. *)
Theorem update_hides_failed_insert cfg c ci r s :
  agrees cfg r s -> is_Some (split_aor cfg (aor r)) -> In c (contacts r) -> state c = CS_NEW ->
  db_mode cfg = WRITE_THROUGH -> Z.land (i_flags ci) FL_MEM = 0 ->
  exists r' s' d, update_ucontact cfg mem_ok true c ci r s = Ret (0, r', s') /\
    In d (contacts r') /\ id d = id c /\ state d = CS_SYNC /\ rows_at (key_of cfg (aor r) d) s' = [].
Proof.
  intros A Ha Hc Hs Hm Hf. destruct (a_contacts _ _ _ A c Hc) as [_ N]. rewrite Hs in N.
  unfold update_ucontact.
  destruct (mem_update_ok c ci) as (c1 & -> & Ei & Eu & Ec & Es & Ef & _). cbn [Z.ltb Z.compare].
  rewrite Hm. cbn [writes_now]. rewrite decide_False by done.
  assert (E2 : st_update_ucontact WRITE_THROUGH c1 = c1) by (unfold st_update_ucontact; by rewrite Es, Hs).
  rewrite E2. unfold db_update_ucontact. simpl aor. rewrite (db_key_of_ok cfg _ Ha).
  replace (mem_only c1) with false by (unfold mem_only; by rewrite Ef, Hf). run. cbn [Z.ltb Z.compare].
  eexists _, _, (set_state CS_SYNC c1). split; [done|]. split; [|split; [done|split; [done|]]].
  - simpl. apply (put_contact_self c1); [|done]. apply (put_contact_self c1); [|done].
    eapply Permutation_in; [symmetry; apply update_pos_perm|].
    + rewrite (put_contact_map id c); [apply A|apply A|done|done|done].
    + by apply (put_contact_self c).
    + by apply (put_contact_self c).
  - change (key_of cfg (aor r) (set_state CS_SYNC c1)) with (key_of cfg (aor r) c1).
    rewrite rows_at_update, decide_True by done.
    rewrite (key_of_upd cfg (aor r) c c1) by done. rewrite rows_at_eq with (s := s) by done. by rewrite N.
Qed.

(** [mem_insert_ucontact] adds the contact and nothing else, keeps the contacts in
    order of decreasing q when they are ordered by q, and puts the newest first when they
    are ordered by time. *)
Theorem insert_keeps_order cfg i contact ci r s :
  let '(o, r', s') := mem_insert_ucontact cfg (Some i) contact ci r s in
  exists c, o = Some c /\ Permutation (contacts r') (c :: contacts r) /\
    (desc_time_order cfg = false -> StronglySorted q_order (contacts r) ->
       StronglySorted q_order (contacts r')) /\
    (desc_time_order cfg = true -> StronglySorted time_order (contacts r) ->
       Forall (fun d => last_modified d <= i_last_modified ci) (contacts r) ->
       StronglySorted time_order (contacts r')).
Proof.
  unfold mem_insert_ucontact, new_ucontact. cbn [mbind option_bind]. eexists. split; [done|].
  split; [apply insert_list_perm|]. split.
  - intros -> S. simpl. by apply insert_by_q_sorted.
  - intros -> S F. simpl. by constructor.
Qed.

(** In write-through and write-back mode with contacts ordered by q, updating the
    q of a contact can leave the list out of order: [update_contact_pos] looks for the
    place from the wrong end. *)
Theorem update_breaks_order :
  exists cfg c ci r s r' s', desc_time_order cfg = false /\
    StronglySorted q_order (contacts r) /\ In c (contacts r) /\
    update_ucontact cfg mem_ok true c ci r s = Ret (0, r', s') /\
    map qv (contacts r') = [700; 1000; 500] /\ ~ StronglySorted q_order (contacts r').
Proof.
  set (cfg := UlConfig WRITE_BACK false false CONTACT_ONLY 20).
  set (mk := fun i q => UContact i [i] None None 5000 q (B "id") 1 CS_NEW 0 0 [] 0 0 0).
  set (r := URecord 1 (B "a") 0 [mk 1 1000; mk 2 500; mk 3 300] [] true).
  exists cfg, (mk 3 300), (UInfo [] None 6000 700 (B "id") 2 0 0 [] 0 0 0), r, (UlSt [] 1 3 0 []).
  eexists _, _. split; [done|]. split.
  { repeat constructor; unfold q_order; simpl; lia. }
  split; [simpl; auto|]. split; [by vm_compute|]. split; [by vm_compute|].
  intros S. apply StronglySorted_inv in S as [_ F]. apply Forall_inv in F. unfold q_order in F.
  vm_compute in F. congruence.
Qed.

(** When contacts are matched by address only, a binding that was refreshed with
    another Call-ID keeps the old one, so later requests with the new Call-ID are
    accepted whatever their CSeq. *)
Theorem refresh_keeps_callid cfg ok c ci r s rc r' s' now cs :
  NoDup (map id (contacts r)) -> NoDup (map uri (contacts r)) -> In c (contacts r) ->
  matching_mode cfg = CONTACT_ONLY -> callid c <> i_callid ci ->
  update_ucontact cfg mem_ok ok c ci r s = Ret (rc, r', s') ->
  exists d, get_ucontact cfg now r' (uri c) (i_callid ci) cs = (0, Some d) /\ id d = id c /\
    cseq d = i_cseq ci.
Proof.
  intros Ni Nu Hc Hm Hk E.
  destruct (update_result cfg ok c ci r s rc r' s' Ni Hc E) as (st & _ & P).
  destruct (mem_update_ok c ci) as (c1 & Em & Ei & Eu & Ek & _ & _ & Eq & _). rewrite Em in P. simpl in P.
  set (d := set_state st c1) in *.
  assert (Hd : In d (contacts r')).
  { apply (Permutation_in d (Permutation_sym P)). by apply (put_contact_self c). }
  exists d. split; [|done]. unfold get_ucontact. rewrite Hm. rewrite <- Eu. change (uri c1) with (uri d).
  rewrite (contact_match_unique (contacts r') d); [|by rewrite P, (put_contact_map uri c)|done].
  cbn [orb]. unfold bytes_eqb. rewrite bool_decide_eq_false_2; [done|]. simpl. congruence.
Qed.

(** Without a database the timer removes exactly the expired contacts, keeps the
    others in order, and the statistics count them. *)
Theorem nodb_timer_expires now r s :
  NoDup (map id (contacts r)) -> in_slot r = true ->
  let n := Z.of_nat (length (expired_of now (contacts r))) in
  exists s', nodb_timer now r s =
      (set_contacts (filter (fun c => VALID_CONTACT c now = true) (contacts r)) r, s') /\
    n_contacts s' = n_contacts s - n /\ n_expires s' = n_expires s + n /\ rows s' = rows s /\
    n_users s' = n_users s.
Proof. intros N Hs. by apply (nodb_loop_spec now [] (contacts r) r s). Qed.

(** ** Instances *)

Definition demo_cfg (m : ul_mode) : ul_config := UlConfig m true false CONTACT_ONLY 20.
Definition demo_contact (i q : Z) (e : Z) (st : cstate) : ucontact :=
  UContact i [i] None None e q (B "cid") 1 st 0 0 (B "ua") 0 100 ALL_METHODS.
Definition demo_record : urecord :=
  URecord 9 (B "joe@x") 0
    [demo_contact 1 800 5000 CS_SYNC; demo_contact 2 500 40 CS_SYNC; demo_contact 3 100 0 CS_NEW] [] true.
Definition demo_state : ul_st :=
  UlSt (map (fun c => (key_of (demo_cfg WRITE_BACK) (B "joe@x") c, vals_of c))
         [demo_contact 1 800 5000 CS_SYNC; demo_contact 2 500 40 CS_SYNC]) 1 3 0 [].

Lemma demo_split m : is_Some (split_aor (demo_cfg m) (aor demo_record)).
Proof. by eexists. Qed.

Lemma demo_agrees m : agrees (demo_cfg m) demo_record demo_state.
Proof.
  constructor.
  - apply (bool_decide_unpack _). by vm_compute.
  - apply (bool_decide_unpack _). by vm_compute.
  - intros c [<-|[<-|[<-|[]]]]; (split; [done|]); simpl; [eexists|eexists|]; try split; try by vm_compute.
    all: by left.
  - intros x [<-|[<-|[]]] _; vm_compute; auto.
Qed.

Lemma wb_timer_flushes_witness :
  exists r' s', wb_timer (demo_cfg WRITE_BACK) (fun _ => true) 1000 demo_record demo_state = Ret (r', s') /\
    (forall d, In d (contacts r') -> state d = CS_SYNC).
Proof.
  destruct (wb_timer_flushes (demo_cfg WRITE_BACK) demo_record demo_state 1000) as (r' & s' & E & _ & F & _).
  - apply demo_agrees.
  - apply demo_split.
  - unfold UL_EXPIRED_TIME. lia.
  - exists r', s'. split; [exact E|]. intros d Hd. by apply F.
Defined.

Lemma operations_agree_witness :
  exists r' s', delete_ucontact (demo_cfg WRITE_BACK) true (demo_contact 1 800 5000 CS_SYNC) demo_record
    demo_state = Ret (r', s') /\ agrees (demo_cfg WRITE_BACK) r' s'.
Proof.
  destruct (operations_agree (demo_cfg WRITE_BACK) true demo_record demo_state) as (_ & _ & D).
  - apply demo_agrees.
  - apply demo_split.
  - by left.
  - apply D. by left.
Defined.

Lemma update_hides_failed_insert_witness :
  exists r' s' d, update_ucontact (demo_cfg WRITE_THROUGH) mem_ok true (demo_contact 3 100 0 CS_NEW)
      (UInfo [] None 6000 100 (B "cid") 2 0 0 [] 0 0 0) demo_record demo_state = Ret (0, r', s') /\
    In d (contacts r') /\ state d = CS_SYNC /\ rows_at (key_of (demo_cfg WRITE_THROUGH) (B "joe@x") d) s' = [].
Proof.
  destruct (update_hides_failed_insert (demo_cfg WRITE_THROUGH) (demo_contact 3 100 0 CS_NEW)
    (UInfo [] None 6000 100 (B "cid") 2 0 0 [] 0 0 0) demo_record demo_state)
    as (r' & s' & d & E & Hd & _ & Hs & Hr).
  - apply demo_agrees.
  - apply demo_split.
  - simpl. auto.
  - done.
  - done.
  - done.
  - exists r', s', d. split; [exact E|]. split; [exact Hd|]. split; [exact Hs|exact Hr].
Defined.

Lemma refresh_keeps_callid_witness :
  exists r' s' d, update_ucontact (demo_cfg WRITE_BACK) mem_ok true (demo_contact 1 800 5000 CS_SYNC)
      (UInfo [] None 6000 800 (B "new") 50 0 0 [] 0 0 0) demo_record demo_state = Ret (0, r', s') /\
    get_ucontact (demo_cfg WRITE_BACK) 1000 r' [1] (B "new") 3 = (0, Some d) /\ cseq d = 50.
Proof.
  destruct (update_ucontact (demo_cfg WRITE_BACK) mem_ok true (demo_contact 1 800 5000 CS_SYNC)
      (UInfo [] None 6000 800 (B "new") 50 0 0 [] 0 0 0) demo_record demo_state) as [[[rc r'] s']|] eqn:E;
    [|by vm_compute in E].
  destruct (refresh_keeps_callid (demo_cfg WRITE_BACK) true (demo_contact 1 800 5000 CS_SYNC)
      (UInfo [] None 6000 800 (B "new") 50 0 0 [] 0 0 0) demo_record demo_state rc r' s' 1000 3)
    as (d & G & _ & Q).
  - apply (bool_decide_unpack _). by vm_compute.
  - apply (bool_decide_unpack _). by vm_compute.
  - by left.
  - done.
  - vm_compute. congruence.
  - exact E.
  - exists r', s', d. split; [|split; [exact G|exact Q]]. f_equal. f_equal. f_equal.
    vm_compute in E. by injection E.
Defined.

Lemma nodb_timer_expires_witness :
  exists s', nodb_timer 1000 demo_record demo_state =
    (set_contacts [demo_contact 1 800 5000 CS_SYNC; demo_contact 3 100 0 CS_NEW] demo_record, s') /\
    n_expires s' = 1.
Proof.
  destruct (nodb_timer_expires 1000 demo_record demo_state) as (s' & E & _ & X & _).
  - apply (bool_decide_unpack _). by vm_compute.
  - done.
  - exists s'. split; [exact E|exact X].
Defined.

End Ucontact.
