(* ===== verification/Udomain.v ===== *)
(** * User location, domains: [src/modules/usrloc/udomain.c], [hslot.c], [urecord.c], [notify.c]

    A domain is a hash table of records: the slots are lists of records in the order of
    their linked lists.  A record found by [get_urecord] is named by its address [rid];
    operations on it write it back into its slot. *)

From Stdlib Require Import ZArith Lia List String Ascii Bool Permutation Sorted.
From stdpp Require Import base tactics option list relations.
From S2P Require Import Prelude Ut QValue HashFunc Ucontact.

Module Udomain.
Import Ut HashFunc Ucontact.

(** ** Data *)

Abbreviation udomain := (list (list urecord)).

Definition dsize (d : udomain) : Z := Z.of_nat (length d).

Definition new_udomain (n : nat) : udomain := replicate n [].

(** [a] is the address of the record, [None] when memory is exhausted. *)
Definition new_urecord (a : option Z) (ar : bytes) : option urecord :=
  i ← a; Some (URecord i ar (core_hash ar None 0) [] [] false).

Definition set_slot (b : bool) (r : urecord) : urecord :=
  URecord (rid r) (aor r) (aorhash r) (contacts r) (watchers r) b.
Definition set_watchers (l : list Z) (r : urecord) : urecord :=
  URecord (rid r) (aor r) (aorhash r) (contacts r) l (in_slot r).

(** ** Slots *)

Definition slot_of (h : Z) (d : udomain) : nat := Z.to_nat (Z.land h (dsize d - 1)).

Definition slot_add (r : urecord) (sl : list urecord) : list urecord := sl ++ [set_slot true r].
Definition slot_rem (r : urecord) (sl : list urecord) : list urecord := filter (fun x => rid x <> rid r) sl.

(** Writes a record back. *)
Definition put_record (r : urecord) (d : udomain) : udomain :=
  map (map (fun x => if rid x =? rid r then r else x)) d.

(** ** Operations *)

Definition mem_insert_urecord (a : option Z) (ar : bytes) (d : udomain) (s : ul_st)
  : option urecord * udomain * ul_st :=
  match new_urecord a ar with
  | None => (None, d, s)
  | Some r =>
      (Some (set_slot true r), alter (slot_add r) (slot_of (aorhash r) d) d, add_users 1 s)
  end.

(** A record with watchers stays. *)
Definition mem_delete_urecord (r : urecord) (d : udomain) (s : ul_st) : udomain * ul_st :=
  match watchers r with
  | [] => (alter (slot_rem r) (slot_of (aorhash r) d) d, add_users (-1) s)
  | _ => (d, s)
  end.

(** The slot that [lock_udomain] locks. *)
Definition lock_slot (ar : bytes) (d : udomain) : Z := core_hash ar None (dsize d).

(** The search in the cache. *)
Definition get_urecord (ar : bytes) (d : udomain) : option urecord :=
  let h := core_hash ar None 0 in
  List.find (fun r => (aorhash r =? h) && bytes_eqb (aor r) ar) (default [] (d !! slot_of h d)).

Definition get_static_urecord (ar : bytes) : urecord := URecord 0 ar 0 [] [] false.

(** The record inserted, and the domain. *)
Definition insert_urecord (cfg : ul_config) (a : option Z) (ar : bytes) (d : udomain) (s : ul_st)
  : option urecord * udomain * ul_st :=
  if decide (db_mode cfg = DB_ONLY) then (Some (get_static_urecord ar), d, s)
  else mem_insert_urecord a ar d s.

Definition release_urecord (cfg : ul_config) (r : urecord) (d : udomain) (s : ul_st) : udomain * ul_st :=
  if decide (db_mode cfg = DB_ONLY) then (d, s)
  else match contacts r with
       | [] => mem_delete_urecord r d s
       | _ => (d, s)
       end.

(** Deletes the rows of an address of record; the missing [@] is not handled. *)
Definition db_delete_urecord (cfg : ul_config) (ok : bool) (ar : bytes) (s : ul_st) : res (Z * ul_st) :=
  match split_aor cfg ar with
  | None => Fault OutOfBounds
  | Some (u, dm) =>
      if ok then
        Ret (0, with_rows (filter (fun x : row => (k_user x.1, k_domain x.1) <> (u, dm)) (rows s)) s)
      else Ret (-1, s)
  end.

(** [delete_ucontact] on each contact in turn. *)
Fixpoint delete_contacts (cfg : ul_config) (ok : bool) (todo : list ucontact) (r : urecord) (s : ul_st)
  : res (urecord * ul_st) :=
  match todo with
  | [] => Ret (r, s)
  | c :: todo' =>
      '(r, s) ← delete_ucontact cfg ok c r s;
      delete_contacts cfg ok todo' r s
  end.

(** The callers that have the record pass it; here it is looked up. *)
Definition delete_urecord (cfg : ul_config) (ok : bool) (ar : bytes) (d : udomain) (s : ul_st)
  : res (Z * udomain * ul_st) :=
  if decide (db_mode cfg = DB_ONLY) then
    '(rc, s) ← db_delete_urecord cfg ok ar s;
    Ret (if rc <? 0 then -1 else 0, d, s)
  else
    match get_urecord ar d with
    | None => Ret (0, d, s)
    | Some r =>
        '(r, s) ← delete_contacts cfg ok (contacts r) r s;
        let '(d, s) := release_urecord cfg r (put_record r d) s in
        Ret (0, d, s)
    end.

(** One slot of [mem_timer_udomain]: each record is run, and dropped when it is left
    empty and unwatched. *)
Fixpoint timer_slot (cfg : ul_config) (ok : Z -> bool) (now : Z) (sl : list urecord) (s : ul_st)
  : res (list urecord * ul_st) :=
  match sl with
  | [] => Ret ([], s)
  | r :: sl' =>
      '(r, s) ← timer_urecord cfg ok now r s;
      match contacts r, watchers r with
      | [], [] => timer_slot cfg ok now sl' (add_users (-1) s)
      | _, _ =>
          '(sl', s) ← timer_slot cfg ok now sl' s;
          Ret (r :: sl', s)
      end
  end.

Fixpoint mem_timer_udomain (cfg : ul_config) (ok : Z -> bool) (now : Z) (d : udomain) (s : ul_st)
  : res (udomain * ul_st) :=
  match d with
  | [] => Ret ([], s)
  | sl :: d' =>
      '(sl, s) ← timer_slot cfg ok now sl s;
      '(d', s) ← mem_timer_udomain cfg ok now d' s;
      Ret (sl :: d', s)
  end.

(** Deletes the expired rows: [expires < act_time + 1] and not permanent. *)
Definition db_timer_udomain (ok : bool) (now : Z) (s : ul_st) : Z * ul_st :=
  if ok then
    (0, with_rows (filter (fun x : row =>
      ~ (v_expires x.2 < now + 1 /\ v_expires x.2 <> 0)) (rows s)) s)
  else (-1, s).

(** ** Watchers *)

(** The new watcher is told of every contact. *)
Definition add_watcher (ok : bool) (w : Z) (r : urecord) (s : ul_st) : Z * urecord * ul_st :=
  if ok then
    (0, set_watchers (w :: watchers r) r,
     emit (map (fun c => Notify w (uri c) PRES_ONLINE) (contacts r)) s)
  else (-1, r, s).

Fixpoint remove_first (w : Z) (l : list Z) : list Z :=
  match l with
  | [] => []
  | x :: l' => if x =? w then l' else x :: remove_first w l'
  end.

(** Return code and record. *)
Definition remove_watcher (w : Z) (r : urecord) : Z * urecord :=
  (if existsb (Z.eqb w) (watchers r) then 0 else 1, set_watchers (remove_first w (watchers r)) r).

Definition register_watcher (cfg : ul_config) (ok : bool) (a : option Z) (w : Z) (ar : bytes)
    (d : udomain) (s : ul_st) : Z * udomain * ul_st :=
  if decide (db_mode cfg = DB_ONLY) then (0, d, s)
  else
    let '(o, d, s) := match get_urecord ar d with
                      | Some r => (Some r, d, s)
                      | None => insert_urecord cfg a ar d s
                      end in
    match o with
    | None => (-2, d, s)
    | Some r =>
        let '(rc, r, s) := add_watcher ok w r s in
        if rc <? 0 then
          let '(d, s) := release_urecord cfg r d s in (-3, d, s)
        else (0, put_record r d, s)
    end.

Definition unregister_watcher (cfg : ul_config) (w : Z) (ar : bytes) (d : udomain) (s : ul_st)
  : Z * udomain * ul_st :=
  if decide (db_mode cfg = DB_ONLY) then (0, d, s)
  else
    match get_urecord ar d with
    | None => (0, d, s)
    | Some r =>
        let '(_, r) := remove_watcher w r in
        let '(d, s) := release_urecord cfg r (put_record r d) s in
        (0, d, s)
    end.

(** ** Loading *)

(** A row as selected: contact, expires, q, callid, cseq, flags, cflags, user agent,
    received, path, socket, methods, last modified; [None] is null. *)
Record db_sel : Type := Sel {
  s_user : option bytes; s_domain : option bytes;
  s_contact : option bytes; s_expires : option Z; s_q : option QValue.double; s_callid : option bytes;
  s_cseq : option Z; s_flags : option Z; s_cflags : option Z; s_user_agent : option bytes;
  s_received : option bytes; s_path : option bytes; s_sock : option Z; s_methods : option Z;
  s_last_modified : option Z
}.

(** A string column: null or empty, or its text up to the first NUL. *)
Definition text (v : option bytes) : option bytes := v ≫= (fun s => non_empty (c_string s)).

(** [grep_sock] maps the name of a socket to the socket, [None] when the name does not
    parse and 0 when it is not local. *)
Section Load.
Context (grep_sock : Z -> option Z).

Definition dbrow2info (v : db_sel) : option (bytes * ucontact_info) :=
  contact ← text (s_contact v);
  e ← s_expires v;
  q ← s_q v;
  cs ← s_cseq v;
  cid ← text (s_callid v);
  fl ← s_flags v;
  cfl ← s_cflags v;
  sk ← match s_sock v with None => Some 0 | Some n => grep_sock n end;
  Some (contact, UInfo (default [] (text (s_received v))) (Some (default [] (text (s_path v)))) e
    (QValue.double2q q) cid cs fl cfl (default [] (text (s_user_agent v))) sk
    (default ALL_METHODS (s_methods v)) (default 0 (s_last_modified v))).

(** The address of record of a row.  The test for an empty domain column looks at the
    column before it, [last_modified]; [snprintf] returns the length it would need,
    so a name that does not fit is read past the buffer. *)
Definition row_aor (cfg : ul_config) (v : db_sel) : res (option bytes) :=
  match text (s_user v) with
  | None => Ret None
  | Some user =>
      if use_domain cfg then
        match s_last_modified v, text (s_domain v) with
        | Some _, Some dm =>
            let ar := user ++ [AT] ++ dm in
            if MAX_URI_SIZE <=? Z.of_nat (length ar) then Fault OutOfBounds else Ret (Some ar)
        | _, _ => Ret None
        end
      else Ret (Some user)
  end.

(** One row; [a] are the addresses of a new record and of the contact.  A return code
    of -1 stops the loading. *)
Definition preload_row (cfg : ul_config) (v : db_sel) (a : option Z * option Z) (d : udomain) (s : ul_st)
  : res (Z * udomain * ul_st) :=
  match text (s_user v), dbrow2info v with
  | Some _, Some (contact, ci) =>
      oa ← row_aor cfg v;
      match oa with
      | None => Ret (0, d, s)
      | Some ar =>
          let '(o, d, s) := match get_urecord ar d with
                            | Some r => (Some r, d, s)
                            | None => mem_insert_urecord (fst a) ar d s
                            end in
          match o with
          | None => Ret (-1, d, s)
          | Some r =>
              let '(o, r, s) := mem_insert_ucontact cfg (snd a) contact ci r s in
              match o with
              | None => Ret (-1, d, s)
              | Some c =>
                  Ret (0, put_record (set_contacts (put_contact (set_state CS_SYNC c) (contacts r)) r) d, s)
              end
          end
      end
  | _, _ => Ret (0, d, s)
  end.

Fixpoint preload_udomain (cfg : ul_config) (l : list (db_sel * (option Z * option Z))) (d : udomain)
    (s : ul_st) : res (Z * udomain * ul_st) :=
  match l with
  | [] => Ret (0, d, s)
  | (v, a) :: l' =>
      '(rc, d, s) ← preload_row cfg v a d s;
      if rc <? 0 then Ret (rc, d, s) else preload_udomain cfg l' d s
  end.

(** The contacts of one address of record; [None] when it has none, or when a contact
    cannot be allocated. *)
Fixpoint load_rows (cfg : ul_config) (l : list (db_sel * option Z)) (ar : bytes) (o : option urecord)
    (s : ul_st) : option urecord :=
  match l with
  | [] => o
  | (v, a) :: l' =>
      match dbrow2info v with
      | None => load_rows cfg l' ar o s
      | Some (contact, ci) =>
          let '(oc, r, s) := mem_insert_ucontact cfg a contact ci (default (get_static_urecord ar) o) s in
          match oc with
          | None => None
          | Some c =>
              load_rows cfg l' ar
                (Some (set_contacts (put_contact (set_state CS_SYNC c) (contacts r)) r)) s
          end
      end
  end.

Definition db_load_urecord (cfg : ul_config) (l : list (db_sel * option Z)) (ar : bytes) (s : ul_st)
  : option urecord := load_rows cfg l ar None s.

End Load.

(** ** Well-formed domains *)

Definition records (d : udomain) : list urecord := concat d.

(** What identifies a record. *)
Definition ident (r : urecord) : Z * bytes := (rid r, aor r).

Definition hash_of (ar : bytes) : Z := core_hash ar None 0.

Record record_ok (r : urecord) : Prop := {
  r_hash : aorhash r = hash_of (aor r);
  r_slot : in_slot r = true;
  r_ids : NoDup (map id (contacts r))
}.

Record dom_ok (d : udomain) : Prop := {
  d_size : (0 < length d)%nat;
  d_place : forall i sl r, d !! i = Some sl -> In r sl -> slot_of (hash_of (aor r)) d = i;
  d_recs : forall r, In r (records d) -> record_ok r;
  d_rids : NoDup (map rid (records d));
  d_aors : NoDup (map aor (records d))
}.

Lemma slot_of_lt h d : (0 < length d)%nat -> 0 <= h -> (slot_of h d < length d)%nat.
Proof.
  intros L Hh. unfold slot_of, dsize.
  assert (Z.land h (Z.of_nat (length d) - 1) <= Z.of_nat (length d) - 1); [|lia].
  apply Z.ldiff_le; [lia|]. apply Z.bits_inj'. intros n Hn.
  rewrite Z.ldiff_spec, Z.land_spec, Z.bits_0.
  by destruct (Z.testbit h n), (Z.testbit (Z.of_nat (length d) - 1) n).
Qed.

Lemma core_hash_nonneg ar : 0 <= core_hash ar None 0.
Proof. unfold core_hash, hash_words. simpl negb. cbv iota. apply u32_range. Qed.

(** The slot that is locked is the slot of the record. *)
Lemma lock_slot_eq ar d :
  (0 < length d)%nat -> dsize d <= 2 ^ 32 -> Z.to_nat (lock_slot ar d) = slot_of (core_hash ar None 0) d.
Proof.
  intros L1 L2. unfold lock_slot, slot_of, core_hash, hash_words, dsize in *.
  rewrite (proj2 (Z.eqb_neq (Z.of_nat (length d)) 0)) by lia. cbn [negb Z.eqb].
  by rewrite (u32_small (Z.of_nat (length d) - 1)) by lia.
Qed.

Lemma in_records r d : In r (records d) <-> exists i sl, d !! i = Some sl /\ In r sl.
Proof.
  unfold records. rewrite in_concat. split.
  - intros (sl & Hs & Hr). apply list_elem_of_In, list_elem_of_lookup in Hs as [i Hi]. by exists i, sl.
  - intros (i & sl & Hi & Hr). exists sl. split; [|done]. apply list_elem_of_In.
    by eapply list_elem_of_lookup_2.
Qed.

(** [get_urecord] is the lookup of the address of record. *)
Lemma get_urecord_found d ar r :
  dom_ok d -> get_urecord ar d = Some r <-> In r (records d) /\ aor r = ar.
Proof.
  intros OK. unfold get_urecord. cbv zeta. set (h := core_hash ar None 0).
  assert (L : (slot_of h d < length d)%nat) by (apply slot_of_lt; [apply OK|apply core_hash_nonneg]).
  destruct (lookup_lt_is_Some_2 d (slot_of h d) L) as [sl Hs]. rewrite Hs. simpl default.
  assert (Hin : forall x, In x sl -> In x (records d)) by (intros x Hx; apply in_records; by exists (slot_of h d), sl).
  split.
  - intros E. apply find_some in E as [Hr E]. apply andb_true_iff in E as [_ E].
    apply bool_decide_eq_true in E. auto.
  - intros [Hr <-]. apply in_records in Hr as (i & sl' & Hi & Hr).
    assert (Hh : aorhash r = h) by (apply (d_recs _ OK), in_records; eauto).
    assert (sl' = sl) as ->.
    { pose proof (d_place _ OK i sl' r Hi Hr) as Hp. unfold h, hash_of in *. congruence. }
    destruct (List.find _ sl) as [x|] eqn:E.
    + apply find_some in E as [Hx E]. apply andb_true_iff in E as [_ E]. apply bool_decide_eq_true in E.
      f_equal. by apply (map_inj_In aor (records d)); [apply OK|auto|auto|].
    + apply (find_none _ _ E) in Hr. unfold bytes_eqb in Hr.
      rewrite bool_decide_eq_true_2, Hh, Z.eqb_refl in Hr by done. done.
Qed.

Lemma get_urecord_none d ar :
  dom_ok d -> get_urecord ar d = None <-> ~ In ar (map aor (records d)).
Proof.
  intros OK. split.
  - intros E Hin. apply in_map_iff in Hin as (r & <- & Hr).
    by rewrite (proj2 (get_urecord_found d (aor r) r OK)) in E.
  - intros N. destruct (get_urecord ar d) as [r|] eqn:E; [|done]. exfalso.
    apply (get_urecord_found d ar r OK) in E as [Hr <-]. apply N. by apply in_map.
Qed.

(** ** Insertion and removal *)

Lemma alter_concat (f : list urecord -> list urecord) i (d : udomain) sl :
  d !! i = Some sl ->
  exists d1 d2, d = d1 ++ sl :: d2 /\ length d1 = i /\ alter f i d = d1 ++ f sl :: d2.
Proof.
  intros Hi. exists (take i d), (drop (S i) d). split; [by rewrite take_drop_middle|].
  split; [apply length_take_le; apply lookup_lt_Some in Hi; lia|].
  rewrite <- (take_drop_middle d i sl Hi) at 1. apply lookup_lt_Some in Hi.
  rewrite alter_app_r_alt; rewrite length_take_le by lia; [|done]. by rewrite Nat.sub_diag.
Qed.

Lemma slot_found h d : (0 < length d)%nat -> 0 <= h -> exists sl, d !! slot_of h d = Some sl.
Proof. intros L Hh. by apply lookup_lt_is_Some, slot_of_lt. Qed.

(** Records changed in place or removed, slot by slot. *)
Definition sub_slots (d' d : udomain) : Prop := Forall2 (fun sl' sl => sublist (map ident sl') (map ident sl)) d' d.

Lemma sub_slots_records d' d : sub_slots d' d -> sublist (map ident (records d')) (map ident (records d)).
Proof.
  unfold records. induction 1 as [|sl' sl d' d Hs F IH]; simpl; [constructor|].
  rewrite !map_app. by apply sublist_app.
Qed.

Lemma sub_slots_refl d : sub_slots d d.
Proof. apply Forall_Forall2_diag, Forall_true. done. Qed.

Lemma ident_parts l : map rid l = map fst (map ident l) /\ map aor l = map snd (map ident l).
Proof. by rewrite !map_map. Qed.

Lemma sublist_map {A B} (f : A -> B) l k : sublist l k -> sublist (map f l) (map f k).
Proof. induction 1; simpl; by constructor. Qed.

Lemma dom_ok_sub d' d :
  dom_ok d -> sub_slots d' d -> (forall r, In r (records d') -> record_ok r) -> dom_ok d'.
Proof.
  intros OK F R. pose proof (Forall2_length _ _ _ F) as L. pose proof (sub_slots_records _ _ F) as S.
  destruct (ident_parts (records d')) as [E1 E2], (ident_parts (records d)) as [E3 E4].
  constructor; [rewrite L; apply OK| |done| |].
  - intros i sl' r Hi Hr. destruct (Forall2_lookup_l _ _ _ _ _ F Hi) as (sl & Hj & Hs).
    assert (Hin : ident r ∈ map ident sl).
    { eapply elem_of_sublist; [|exact Hs]. apply list_elem_of_In, in_map, Hr. }
    apply list_elem_of_In, in_map_iff in Hin as (x & Ex & Hx). injection Ex as _ <-.
    rewrite <- (d_place _ OK i sl x Hj Hx). unfold slot_of, dsize. by rewrite L.
  - rewrite E1. eapply sublist_NoDup; [|by apply sublist_map]. rewrite <- E3. apply OK.
  - rewrite E2. eapply sublist_NoDup; [|by apply sublist_map]. rewrite <- E4. apply OK.
Qed.

(** The lookup after a change of the records. *)
Lemma get_perm d d' r l :
  dom_ok d -> dom_ok d' -> Permutation (records d') (r :: l) ->
  (forall x, aor x <> aor r -> In x (records d) <-> In x l) ->
  forall ar, get_urecord ar d' = if decide (ar = aor r) then Some r else get_urecord ar d.
Proof.
  intros OK OK' P E ar. case_decide as D.
  - apply (get_urecord_found d' ar r OK'). split; [|done]. rewrite P. by left.
  - destruct (get_urecord ar d) as [x|] eqn:G.
    + apply (get_urecord_found d ar x OK) in G as [Hx <-]. apply (get_urecord_found d' _ x OK').
      split; [|done]. rewrite P. right. by apply E.
    + apply (get_urecord_none d' ar OK'). intros Hin. apply in_map_iff in Hin as (x & <- & Hx).
      rewrite P in Hx. destruct Hx as [->|Hx]; [done|]. apply E in Hx; [|done].
      apply (get_urecord_none d (aor x) OK) in G. apply G. by apply in_map.
Qed.

(** *** A new record *)

Lemma add_ok d r sl :
  dom_ok d -> record_ok r -> ~ In (rid r) (map rid (records d)) -> ~ In (aor r) (map aor (records d)) ->
  d !! slot_of (hash_of (aor r)) d = Some sl ->
  let d' := alter (slot_add r) (slot_of (hash_of (aor r)) d) d in
  dom_ok d' /\ Permutation (records d') (r :: records d).
Proof.
  intros OK R Nr Na Hs d'. assert (Er : set_slot true r = r) by (rewrite <- (r_slot _ R); by destruct r).
  assert (P : Permutation (records d') (r :: records d)).
  { destruct (alter_concat (slot_add r) _ d sl Hs) as (d1 & d2 & Ed & _ & Ea).
    unfold d'. rewrite Ea, Ed. unfold records, slot_add. rewrite !concat_app, Er. simpl. solve_Permutation. }
  assert (L : length d' = length d) by apply length_alter.
  assert (ND : forall {B} (f : urecord -> B), NoDup (map f (records d)) -> ~ In (f r) (map f (records d)) ->
    NoDup (map f (records d'))).
  { intros B f N1 N2. rewrite P. constructor; [by rewrite list_elem_of_In|done]. }
  split; [|done]. constructor.
  - rewrite L. apply OK.
  - intros i sl' x Hi Hx. unfold slot_of, dsize. rewrite L. fold (dsize d). fold (slot_of (hash_of (aor x)) d).
    destruct (decide (slot_of (hash_of (aor r)) d = i)) as [<-|Ne].
    + unfold d' in Hi. rewrite list_lookup_alter_eq, Hs in Hi. injection Hi as <-.
      unfold slot_add in Hx. rewrite Er in Hx. apply in_app_iff in Hx as [Hx|[<-|[]]]; [|done].
      by apply (d_place _ OK _ sl).
    + unfold d' in Hi. rewrite list_lookup_alter_ne in Hi by done. by apply (d_place _ OK i sl').
  - intros x Hx. rewrite P in Hx. destruct Hx as [<-|Hx]; [done|]. by apply OK.
  - apply ND; [apply OK|done].
  - apply ND; [apply OK|done].
Qed.

Lemma mem_insert_ok d s a ar :
  dom_ok d -> get_urecord ar d = None -> ~ In a (map rid (records d)) ->
  let '(o, d', _) := mem_insert_urecord (Some a) ar d s in
  exists r, o = Some r /\ dom_ok d' /\ rid r = a /\ aor r = ar /\ contacts r = [] /\ watchers r = [] /\
    Permutation (records d') (r :: records d).
Proof.
  intros OK G N. unfold mem_insert_urecord, new_urecord. cbn [mbind option_bind].
  set (r := URecord a ar (core_hash ar None 0) [] [] false).
  destruct (slot_found (hash_of ar) d) as [sl Hs]; [apply OK|apply core_hash_nonneg|].
  destruct (add_ok d (set_slot true r) sl) as (OK' & P); [done| |done| |done|].
  { constructor; [done|done|constructor]. }
  { by apply get_urecord_none. }
  exists (set_slot true r). by split.
Qed.

(** *** A record removed *)

Lemma rem_notin r l : ~ In (rid r) (map rid l) -> slot_rem r l = l.
Proof.
  unfold slot_rem. induction l as [|x l IH]; simpl; intros N; [done|].
  rewrite filter_cons, decide_True by (intros E; apply N; auto). f_equal. apply IH. tauto.
Qed.

Lemma rem_ok d r :
  dom_ok d -> In r (records d) ->
  let d' := alter (slot_rem r) (slot_of (aorhash r) d) d in
  dom_ok d' /\ Permutation (records d) (r :: records d').
Proof.
  intros OK Hr d'. apply in_records in Hr as (i & sl & Hi & Hx).
  assert (Ei : slot_of (aorhash r) d = i).
  { rewrite (r_hash r) by (apply OK, in_records; eauto). by apply (d_place _ OK i sl). }
  destruct (alter_concat (slot_rem r) i d sl Hi) as (d1 & d2 & Ed & _ & Ea).
  destruct (in_split r sl Hx) as (l1 & l2 & El).
  pose proof (d_rids _ OK) as N. rewrite Ed, El in N. unfold records in N.
  rewrite concat_app in N. simpl in N. rewrite <- app_assoc, !map_app in N. simpl in N.
  assert (Er : slot_rem r sl = l1 ++ l2).
  { rewrite El. unfold slot_rem. rewrite filter_app, filter_cons, decide_False by tauto.
    apply NoDup_app in N as (_ & _ & N). apply NoDup_app in N as (_ & N1 & N2).
    apply NoDup_cons in N2 as [N2 _]. fold (slot_rem r l1) (slot_rem r l2).
    rewrite elem_of_app, !list_elem_of_In in N2. rewrite !rem_notin; [done|tauto|].
    intros Hin. apply (N1 (rid r)); [by apply list_elem_of_In|by left]. }
  assert (Ed' : d' = d1 ++ (l1 ++ l2) :: d2) by (unfold d'; by rewrite Ei, Ea, Er).
  assert (P : Permutation (records d) (r :: records d')).
  { rewrite Ed', Ed, El. unfold records. rewrite !concat_app. simpl. solve_Permutation. }
  split; [|done]. apply (dom_ok_sub d' d OK).
  - rewrite Ed', Ed. apply Forall2_app; [apply sub_slots_refl|].
    constructor; [|apply sub_slots_refl]. rewrite El, !map_app. simpl.
    apply sublist_app; [done|]. by apply sublist_cons.
  - intros x Hin. apply OK. rewrite P. by right.
Qed.

(** *** A record changed in place *)

Definition replace_rec (r' x : urecord) : urecord := if rid x =? rid r' then r' else x.

Lemma replace_other r' l : ~ In (rid r') (map rid l) -> map (replace_rec r') l = l.
Proof.
  induction l as [|x l IH]; simpl; intros N; [done|]. unfold replace_rec at 1.
  rewrite (proj2 (Z.eqb_neq _ _)) by (intros E; apply N; auto). f_equal. apply IH. tauto.
Qed.

Lemma put_record_ok d r r' :
  dom_ok d -> In r (records d) -> ident r' = ident r -> record_ok r' ->
  dom_ok (put_record r' d) /\
  exists l, Permutation (records d) (r :: l) /\ Permutation (records (put_record r' d)) (r' :: l).
Proof.
  intros OK Hr Ei R. pose proof (d_rids _ OK) as N.
  assert (Er : records (put_record r' d) = map (replace_rec r') (records d))
    by (unfold records, put_record; by rewrite concat_map).
  destruct (in_split r _ Hr) as (l1 & l2 & El). rewrite El, map_app in N. simpl in N.
  injection Ei as E1 E2.
  assert (Ep : records (put_record r' d) = l1 ++ r' :: l2).
  { rewrite Er, El, map_app. simpl. unfold replace_rec at 2. rewrite E1, Z.eqb_refl.
    apply NoDup_app in N as (_ & N1 & N2). apply NoDup_cons in N2 as [N2 _].
    rewrite !replace_other; [done|by rewrite E1, <- list_elem_of_In|].
    intros Hin. apply (N1 (rid r)); [by rewrite <- E1, list_elem_of_In|by left]. }
  assert (Hrep : forall x, In x (records d) -> ident (replace_rec r' x) = ident x).
  { intros x Hx. unfold replace_rec. destruct (Z.eqb_spec (rid x) (rid r')) as [E|]; [|done].
    rewrite (map_inj_In rid (records d) x r (d_rids _ OK) Hx Hr) by congruence.
    unfold ident. by rewrite E1, E2. }
  split.
  - apply (dom_ok_sub _ d OK).
    + unfold sub_slots, put_record. apply Forall2_fmap_l. apply Forall_Forall2_diag, Forall_forall.
      intros sl Hsl. cbn [compose]. rewrite map_map.
      replace (map (fun x => ident (if rid x =? rid r' then r' else x)) sl) with (map ident sl); [done|].
      apply map_ext_in. intros x Hx. symmetry. apply (Hrep x). unfold records.
      apply in_concat. exists sl. by rewrite list_elem_of_In in Hsl.
    + intros x Hx. rewrite Ep in Hx. apply in_app_iff in Hx as [Hx|[<-|Hx]]; [|done|];
        apply OK; rewrite El; apply in_app_iff; simpl; auto.
  - exists (l1 ++ l2). rewrite El, Ep. split; solve_Permutation.
Qed.

(** ** Operations on one record *)

Definition count (r : urecord) : Z := Z.of_nat (length (contacts r)).

Definition same_stats (s s' : ul_st) : Prop := n_users s' = n_users s /\ n_contacts s' = n_contacts s.

(** The record stays itself and well-formed, and the statistics follow its contacts. *)
Record keeps (r : urecord) (s : ul_st) (r' : urecord) (s' : ul_st) : Prop := {
  k_ok : record_ok r';
  k_ident : ident r' = ident r;
  k_users : n_users s' = n_users s;
  k_contacts : n_contacts s' - count r' = n_contacts s - count r
}.

Lemma keeps_stats r s s' : record_ok r -> same_stats s s' -> keeps r s r s'.
Proof. intros R [E1 E2]. constructor; [done|done|done|lia]. Qed.

Lemma rec_keeps_trans r s r1 s1 r2 s2 : keeps r s r1 s1 -> keeps r1 s1 r2 s2 -> keeps r s r2 s2.
Proof. intros [] []. constructor; [done|congruence|congruence|lia]. Qed.

(** The list of contacts replaced by one with the same addresses. *)
Lemma keeps_ids r s l :
  record_ok r -> Permutation (map id l) (map id (contacts r)) -> keeps r s (set_contacts l r) s.
Proof.
  intros R P. constructor; [constructor; simpl; [apply R|apply R|rewrite P; apply R]|done|done|].
  apply Permutation_length in P. rewrite !length_map in P. unfold count. simpl. lia.
Qed.

Lemma put_contact_ids c l : map id (put_contact c l) = map id l.
Proof.
  unfold put_contact. rewrite map_map. apply map_ext. intros d.
  by destruct (Z.eqb_spec (id d) (id c)).
Qed.

Lemma keeps_put r s c : record_ok r -> keeps r s (set_contacts (put_contact c (contacts r)) r) s.
Proof. intros R. apply keeps_ids; [done|]. by rewrite put_contact_ids. Qed.

Lemma keeps_remove r s c :
  record_ok r -> In c (contacts r) ->
  let '(r', s') := mem_delete_ucontact (id c) r s in keeps r s r' s'.
Proof.
  intros R Hc. unfold mem_delete_ucontact. pose proof (remove_perm c (contacts r) (r_ids _ R) Hc) as P.
  constructor; [constructor; simpl; [apply R|apply R|]|done| |].
  - pose proof (r_ids _ R) as N. rewrite <- P in N. by apply NoDup_cons in N as [_ N].
  - unfold slot_stat. by case_match.
  - unfold slot_stat. rewrite (r_slot _ R). apply Permutation_length in P. unfold count. simpl in *. lia.
Qed.

Lemma insert_stats cfg ok a c s : same_stats s (db_insert_ucontact cfg ok a c s).2.
Proof.
  unfold db_insert_ucontact. case_match; [done|]. destruct ok; [|done]. by destruct (insert_user cfg a).
Qed.

Lemma update_stats cfg ok a c s :
  is_Some (split_aor cfg a) -> returns (db_update_ucontact cfg ok a c s) (fun x => same_stats s x.2).
Proof.
  intros Ha. unfold db_update_ucontact. rewrite db_key_of_ok by done. case_match; [by apply returns_ret|].
  destruct ok; by apply returns_ret.
Qed.

Lemma delete_stats cfg ok a c s :
  is_Some (split_aor cfg a) -> returns (db_delete_ucontact cfg ok a c s) (fun x => same_stats s x.2).
Proof.
  intros Ha. unfold db_delete_ucontact. rewrite db_key_of_ok by done. case_match; [by apply returns_ret|].
  destruct ok; by apply returns_ret.
Qed.

Lemma mem_insert_keeps cfg i contact ci r s :
  record_ok r -> ~ In i (map id (contacts r)) ->
  let '(_, r', s') := mem_insert_ucontact cfg (Some i) contact ci r s in keeps r s r' s'.
Proof.
  intros R Ni. unfold mem_insert_ucontact, new_ucontact. cbn [mbind option_bind].
  set (c := UContact i contact _ _ _ _ _ _ _ _ _ _ _ _ _).
  pose proof (insert_list_perm cfg c (contacts r)) as P.
  set (l := if desc_time_order cfg then _ else _) in *.
  unfold slot_stat. rewrite (r_slot _ R). constructor; [constructor; simpl; try apply R|done|done|].
  - rewrite P. simpl. constructor; [by rewrite list_elem_of_In|apply R].
  - apply Permutation_length in P. unfold count. simpl in *. lia.
Qed.

Lemma insert_keeps cfg ok i contact ci r s :
  record_ok r -> ~ In i (map id (contacts r)) ->
  let '(_, _, r', s') := insert_ucontact cfg ok (Some i) contact ci r s in keeps r s r' s'.
Proof.
  intros R Ni. unfold insert_ucontact. pose proof (mem_insert_keeps cfg i contact ci r s R Ni) as K.
  destruct (mem_insert_ucontact cfg (Some i) contact ci r s) as [[[c|] r1] s1]; [|done].
  assert (K1 : forall s', same_stats s1 s' -> keeps r s r1 s').
  { intros s' Hs. eapply rec_keeps_trans; [exact K|]. apply keeps_stats; [apply K|done]. }
  destruct (writes_now (db_mode cfg)); [|by apply K1].
  match goal with |- context [db_insert_ucontact _ _ _ _ ?x] =>
    pose proof (insert_stats cfg ok (aor r1) c x) as D; set (s2 := x) in * end.
  destruct (db_insert_ucontact _ _ _ _ s2) as [rc s3]. simpl in D.
  destruct (rc <? 0); [by apply K1|]. eapply rec_keeps_trans; [by apply K1|]. apply keeps_put. by apply (K1 s3).
Qed.

Lemma delete_keeps cfg ok c r s :
  record_ok r -> is_Some (split_aor cfg (aor r)) -> In c (contacts r) ->
  returns (delete_ucontact cfg ok c r s) (fun x => keeps r s x.1 x.2 /\
    (forall d, In d (contacts r) -> id d <> id c -> In d (contacts x.1))).
Proof.
  intros R Ha Hc. unfold delete_ucontact, st_delete_ucontact.
  set (s1 := notify_watchers _ _ _ _). assert (S1 : same_stats s s1) by done.
  assert (D : returns (s ← (if writes_now (db_mode cfg)
      then '(_, s) ← db_delete_ucontact cfg ok (aor r) c s1; Ret s else Ret s1);
      Ret (mem_delete_ucontact (id c) r s)) (fun x => keeps r s x.1 x.2 /\
        (forall d, In d (contacts r) -> id d <> id c -> In d (contacts x.1)))).
  { apply returns_bind with (Q := same_stats s).
    - case_match; [|by apply returns_ret]. eapply returns_bind; [by apply delete_stats|].
      intros [rc s2] [E1 E2]. apply returns_ret. destruct S1. split; simpl in *; congruence.
    - intros s2 S2. apply returns_ret. split.
      + pose proof (keeps_remove r s2 c R Hc) as K. destruct (mem_delete_ucontact (id c) r s2) as [r' s'].
        eapply rec_keeps_trans; [|exact K]. by apply keeps_stats.
      + intros d Hd Ne. simpl. by apply remove_in. }
  destruct (state c), (db_mode cfg); try exact D; apply returns_ret;
    (split; [eapply rec_keeps_trans; [by apply keeps_stats|]; by apply keeps_put|]);
    intros d Hd Ne; by apply put_contact_other.
Qed.

Lemma st_update_id m c : id (st_update_ucontact m c) = id c.
Proof. unfold st_update_ucontact. destruct (state c), m; done. Qed.

Lemma update_keeps cfg ok c ci r s :
  record_ok r -> is_Some (split_aor cfg (aor r)) -> In c (contacts r) ->
  returns (update_ucontact cfg mem_ok ok c ci r s) (fun x => keeps r s x.1.2 x.2).
Proof.
  intros R Ha Hc. unfold update_ucontact.
  destruct (mem_update_ok c ci) as (c1 & -> & Ei & _). cbn [Z.ltb Z.compare].
  set (r1 := set_contacts (put_contact c1 (contacts r)) r).
  assert (K1 : forall s', same_stats s s' -> keeps r s r1 s').
  { intros s' Hs. eapply rec_keeps_trans; [by apply keeps_stats|]. by apply keeps_put. }
  assert (R1 : record_ok r1) by by apply (K1 s).
  set (r2 := if decide (db_mode cfg = DB_ONLY) then _ else _).
  assert (K2 : forall s', keeps r1 s' r2 s').
  { intros s'. unfold r2. case_decide; [by apply keeps_stats|]. apply keeps_ids; [done|].
    apply Permutation_map, update_pos_perm; [apply R1|]. by apply (put_contact_self c). }
  set (s1 := run_ul_callbacks _ _ _). assert (S1 : same_stats s s1) by done.
  set (r3 := set_contacts _ r2).
  assert (K3 : forall s', same_stats s s' -> keeps r s r3 s').
  { intros s' Hs. eapply rec_keeps_trans; [by apply K1|]. eapply rec_keeps_trans; [apply K2|].
    apply keeps_put. by apply (K2 s'). }
  case_match; [|by apply returns_ret, K3].
  eapply returns_bind. { apply update_stats. unfold r3, r2. simpl. by case_decide. }
  intros [rc s2] [E1 E2]. assert (S2 : same_stats s s2) by (split; simpl in *; congruence).
  case_match; apply returns_ret; [by apply K3|]. eapply rec_keeps_trans; [by apply K3|].
  apply keeps_put. by apply (K3 s2).
Qed.

(** *** The timer *)

Lemma VALID_set_state st c now : VALID_CONTACT (set_state st c) now = VALID_CONTACT c now.
Proof. done. Qed.

(** What the body of the write-back loop does to the record. *)
Lemma wb_one_shape cfg ok now c r s :
  is_Some (split_aor cfg (aor r)) ->
  returns (wb_one cfg ok now c r s) (fun x => exists s0, same_stats s s0 /\
    if VALID_CONTACT c now
    then x = (r, s0) \/ x = (set_contacts (put_contact (set_state CS_SYNC c) (contacts r)) r, s0)
    else x = mem_delete_ucontact (id c) r s0).
Proof.
  intros Ha. unfold wb_one. destruct (VALID_CONTACT c now).
  - unfold st_flush_ucontact. destruct (state c); cbn [Z.eqb Pos.eqb].
    + pose proof (insert_stats cfg (ok (id c)) (aor r) (set_state CS_SYNC c) s) as D.
      destruct (db_insert_ucontact _ _ _ _ _) as [rc s0]. apply returns_ret. exists s0.
      split; [done|]. destruct (rc <? 0); auto.
    + apply returns_ret. exists s. split; [done|by left].
    + eapply returns_bind; [by apply update_stats|]. intros [rc s0] D. apply returns_ret. exists s0.
      split; [done|]. destruct (rc <? 0); auto.
  - eapply returns_bind with (Q := same_stats s).
    + case_match; [|by apply returns_ret]. eapply returns_bind; [by apply delete_stats|].
      intros [rc s0] D. by apply returns_ret.
    + intros s0 D. apply returns_ret. by exists s0.
Qed.

Lemma wb_one_keeps cfg ok now c r s :
  record_ok r -> is_Some (split_aor cfg (aor r)) -> In c (contacts r) ->
  returns (wb_one cfg ok now c r s) (fun x => keeps r s x.1 x.2 /\ watchers x.1 = watchers r /\
    (forall d, In d (contacts r) -> id d <> id c -> In d (contacts x.1)) /\
    (forall d, In d (contacts x.1) -> In d (contacts r) /\ id d <> id c \/ VALID_CONTACT d now = true)).
Proof.
  intros R Ha Hc. eapply returns_impl; [by apply wb_one_shape|]. intros x (s0 & S & Hx).
  pose proof (keeps_stats r s s0 R S) as K0.
  assert (Hd : forall d, In d (contacts r) -> VALID_CONTACT c now = true ->
    In d (contacts r) /\ id d <> id c \/ VALID_CONTACT d now = true).
  { intros d Hd V. destruct (decide (id d = id c)) as [E|]; [|auto]. right.
    by rewrite (map_inj_In id _ d c (r_ids _ R) Hd Hc E). }
  destruct (VALID_CONTACT c now) eqn:V; [destruct Hx as [->| ->]|subst x].
  - split; [done|]. split; [done|]. split; [auto|]. intros d Hin. by apply Hd.
  - split; [by eapply rec_keeps_trans, keeps_put|]. split; [done|]. split; simpl.
    + intros d Hin Ne. by apply put_contact_other.
    + intros d Hin. apply put_contact_in in Hin as [->|[Hin Ne]]; [by right|by left].
  - pose proof (keeps_remove r s0 c R Hc) as K. unfold mem_delete_ucontact in *.
    split; [by eapply rec_keeps_trans|]. split; [done|]. split; simpl.
    + intros d Hin Ne. by apply remove_in.
    + intros d Hin. apply remove_in in Hin. by left.
Qed.

Definition all_valid (now : Z) (r : urecord) : Prop :=
  forall d, In d (contacts r) -> VALID_CONTACT d now = true.

Lemma wb_loop_keeps cfg ok now todo r s :
  record_ok r -> is_Some (split_aor cfg (aor r)) -> NoDup (map id todo) ->
  (forall c, In c todo -> In c (contacts r)) ->
  (forall d, In d (contacts r) -> In (id d) (map id todo) \/ VALID_CONTACT d now = true) ->
  returns (wb_loop cfg ok now todo r s)
    (fun x => keeps r s x.1 x.2 /\ watchers x.1 = watchers r /\ all_valid now x.1).
Proof.
  revert r s. induction todo as [|c todo IH]; intros r s R Ha N Hin Hv.
  { apply returns_ret. split; [by apply keeps_stats|]. split; [done|]. intros d Hd.
    by destruct (Hv d Hd). }
  rewrite wb_loop_cons. apply NoDup_cons in N as [Nc N]. rewrite list_elem_of_In in Nc.
  eapply returns_bind; [apply wb_one_keeps; [done|done|apply Hin; by left]|].
  intros [r1 s1] (K & W & P1 & P2). simpl in *.
  assert (Ea : aor r1 = aor r) by (pose proof (k_ident _ _ _ _ K) as E; by injection E).
  eapply returns_impl; [apply IH; [apply K|by rewrite Ea|done| |]|].
  - intros d Hd. apply P1; [by apply Hin; right|]. intros E. apply Nc. rewrite <- E. by apply in_map.
  - intros d Hd. destruct (P2 d Hd) as [[Hd' Ne]|]; [|auto].
    destruct (Hv d Hd') as [[E|]|]; [by symmetry in E|auto|auto].
  - intros [r2 s2] (K2 & W2 & V2). simpl in *. split; [by eapply rec_keeps_trans|].
    split; [congruence|done].
Qed.

Lemma filter_split now l :
  (length (filter (fun c => VALID_CONTACT c now = true) l) + length (expired_of now l) = length l)%nat.
Proof.
  unfold expired_of. induction l as [|c l IH]; [done|]. rewrite !filter_cons.
  destruct (VALID_CONTACT c now); simpl in *; lia.
Qed.

Lemma timer_urecord_keeps cfg ok now r s :
  record_ok r -> is_Some (split_aor cfg (aor r)) -> db_mode cfg <> DB_ONLY ->
  returns (timer_urecord cfg ok now r s)
    (fun x => keeps r s x.1 x.2 /\ watchers x.1 = watchers r /\ all_valid now x.1).
Proof.
  intros R Ha Hm. unfold timer_urecord.
  assert (W : returns (wb_timer cfg ok now r s)
    (fun x => keeps r s x.1 x.2 /\ watchers x.1 = watchers r /\ all_valid now x.1)).
  { apply wb_loop_keeps; [done|done|apply R|auto|]. intros d Hd. left. by apply in_map. }
  destruct (db_mode cfg); [|done|done|done]. apply returns_ret.
  destruct (nodb_loop_spec now [] (contacts r) r s) as (s' & E & E1 & _ & _ & E2); [done|apply R|apply R|].
  unfold nodb_timer. rewrite E. simpl. split; [|split; [done|]].
  - constructor; [constructor; simpl; try apply R|done|done|].
    + eapply sublist_NoDup; [apply R|]. apply sublist_map, sublist_filter.
    + unfold count. simpl. rewrite E1. pose proof (filter_split now (contacts r)). lia.
  - intros d Hd. simpl in Hd. apply list_elem_of_In, list_elem_of_filter in Hd. by destruct Hd.
Qed.

(** ** The invariant of a domain *)

Definition count_all (l : list urecord) : Z := fold_right (fun r n => count r + n) 0 l.

#[export] Instance count_all_perm : Proper (Permutation ==> eq) count_all.
Proof. induction 1; simpl; lia. Qed.

Lemma count_all_app l l' : count_all (l ++ l') = count_all l + count_all l'.
Proof. induction l; simpl; lia. Qed.

(** The table is well-formed, the statistics count it, and every address of record has
    the form that the database columns need. *)
Record ul_inv (cfg : ul_config) (d : udomain) (s : ul_st) : Prop := {
  u_dom : dom_ok d;
  u_users : n_users s = Z.of_nat (length (records d));
  u_contacts : n_contacts s = count_all (records d);
  u_split : forall r, In r (records d) -> is_Some (split_aor cfg (aor r))
}.

Lemma keeps_aor r s r' s' : keeps r s r' s' -> aor r' = aor r.
Proof. intros K. pose proof (k_ident _ _ _ _ K) as E. by injection E. Qed.

Section Invariant.
Context (cfg : ul_config) (d : udomain) (s : ul_st).
Context (I : ul_inv cfg d s).

Lemma inv_put r r' s' :
  In r (records d) -> keeps r s r' s' -> ul_inv cfg (put_record r' d) s'.
Proof.
  intros Hr K. destruct (put_record_ok d r r' (u_dom _ _ _ I) Hr) as (OK & l & P & P'); [apply K|apply K|].
  pose proof (u_users _ _ _ I) as U. pose proof (u_contacts _ _ _ I) as C. destruct K as [_ Ei K1 K2].
  rewrite P in U, C. simpl in U, C. constructor; [done|rewrite P'; simpl; lia|rewrite P'; simpl; lia|].
  intros x Hx. rewrite P' in Hx. injection Ei as _ Ea. destruct Hx as [<-|Hx].
  - rewrite Ea. by apply (u_split _ _ _ I).
  - apply (u_split _ _ _ I). rewrite P. by right.
Qed.

Lemma inv_mem_insert a ar :
  get_urecord ar d = None -> ~ In a (map rid (records d)) -> is_Some (split_aor cfg ar) ->
  let '(o, d', s') := mem_insert_urecord (Some a) ar d s in
  exists r, o = Some r /\ ul_inv cfg d' s' /\ rid r = a /\ aor r = ar /\ contacts r = [] /\ watchers r = [] /\
    Permutation (records d') (r :: records d).
Proof.
  intros G N Ha. pose proof (mem_insert_ok d s a ar (u_dom _ _ _ I) G N) as X.
  unfold mem_insert_urecord, new_urecord in *. cbn [mbind option_bind] in *.
  destruct X as (r & [= <-] & OK & E1 & E2 & E3 & E4 & P).
  eexists. split; [done|]. set (d' := alter _ _ _) in *. clearbody d'.
  split; [|done]. destruct I as [_ U C S]. constructor; [done| | |]; simpl.
  - rewrite U, P. simpl. lia.
  - rewrite C, P. done.
  - intros x Hx. rewrite P in Hx. destruct Hx as [<-|Hx]; [done|by apply S].
Qed.

Lemma inv_release r :
  In r (records d) -> let '(d', s') := release_urecord cfg r d s in ul_inv cfg d' s'.
Proof.
  intros Hr. unfold release_urecord. case_decide; [done|].
  destruct (contacts r) as [|] eqn:Ec; [|done]. unfold mem_delete_urecord. destruct (watchers r); [|done].
  destruct (rem_ok d r (u_dom _ _ _ I) Hr) as (OK & P). destruct I as [_ U C S].
  rewrite P in U, C. simpl in U, C. unfold count in C at 1. rewrite Ec in C. constructor; [done| | |]; simpl.
  - rewrite U. lia.
  - rewrite C. simpl. lia.
  - intros x Hx. apply S. rewrite P. by right.
Qed.

End Invariant.

(** *** Deletion of a record *)

Lemma delete_contacts_keeps cfg ok todo r s :
  record_ok r -> is_Some (split_aor cfg (aor r)) -> NoDup (map id todo) ->
  (forall c, In c todo -> In c (contacts r)) ->
  returns (delete_contacts cfg ok todo r s) (fun x => keeps r s x.1 x.2).
Proof.
  revert r s. induction todo as [|c todo IH]; intros r s R Ha N Hin.
  { apply returns_ret. by apply keeps_stats. }
  simpl. apply NoDup_cons in N as [Nc N]. rewrite list_elem_of_In in Nc.
  eapply returns_bind; [apply delete_keeps; [done|done|apply Hin; by left]|].
  intros [r1 s1] [K P]. simpl in *.
  eapply returns_impl; [apply IH; [apply K|by rewrite (keeps_aor _ _ _ _ K)|done|]|].
  - intros d Hd. apply P; [by apply Hin; right|]. intros E. apply Nc. rewrite <- E. by apply in_map.
  - intros x K2. by eapply rec_keeps_trans.
Qed.

Lemma inv_delete cfg ok ar d s :
  ul_inv cfg d s -> db_mode cfg <> DB_ONLY ->
  returns (delete_urecord cfg ok ar d s) (fun x => x.1.1 = 0 /\ ul_inv cfg x.1.2 x.2).
Proof.
  intros I Hm. unfold delete_urecord. rewrite decide_False by done.
  destruct (get_urecord ar d) as [r|] eqn:G; [|by apply returns_ret].
  apply (get_urecord_found d ar r (u_dom _ _ _ I)) in G as [Hr <-].
  assert (R : record_ok r) by by apply I.
  eapply returns_bind; [apply delete_contacts_keeps; [done|by apply I|apply R|auto]|].
  intros [r1 s1] K. simpl in K. pose proof (inv_put cfg d s I r r1 s1 Hr K) as I1.
  pose proof (inv_release cfg (put_record r1 d) s1 I1 r1) as I2.
  destruct (put_record_ok d r r1 (u_dom _ _ _ I) Hr (k_ident _ _ _ _ K) (k_ok _ _ _ _ K)) as (_ & l & _ & P).
  destruct (release_urecord cfg r1 (put_record r1 d) s1) as [d' s']. apply returns_ret. split; [done|].
  apply I2. rewrite P. by left.
Qed.

(** *** Watchers *)

Lemma keeps_watchers r s l s' : record_ok r -> same_stats s s' -> keeps r s (set_watchers l r) s'.
Proof. intros R [E1 E2]. constructor; [constructor; apply R|done|done|]. unfold count. simpl. lia. Qed.

Lemma inv_register cfg ok a w ar d s :
  ul_inv cfg d s -> ~ In a (map rid (records d)) -> is_Some (split_aor cfg ar) ->
  let '(_, d', s') := register_watcher cfg ok (Some a) w ar d s in ul_inv cfg d' s'.
Proof.
  intros I N Ha. unfold register_watcher. case_decide as Hm; [done|].
  assert (X : let '(o, d1, s1) := match get_urecord ar d with
      | Some r => (Some r, d, s) | None => insert_urecord cfg (Some a) ar d s end in
      exists r, o = Some r /\ In r (records d1) /\ ul_inv cfg d1 s1).
  { destruct (get_urecord ar d) as [r|] eqn:G.
    - apply (get_urecord_found d ar r (u_dom _ _ _ I)) in G as [Hr _]. by exists r.
    - unfold insert_urecord. rewrite decide_False by done. pose proof (inv_mem_insert cfg d s I a ar G N Ha) as X.
      destruct (mem_insert_urecord (Some a) ar d s) as [[o d1] s1].
      destruct X as (r & -> & I1 & _ & _ & _ & _ & P). exists r. split; [done|]. split; [|done]. rewrite P. by left. }
  destruct (match get_urecord ar d with Some r => _ | None => _ end) as [[o d1] s1].
  destruct X as (r & -> & Hr & I1). unfold add_watcher. destruct ok; cbn [Z.ltb Z.compare].
  - eapply inv_put; [exact I1|exact Hr|]. apply keeps_watchers; [by apply I1|done].
  - pose proof (inv_release cfg d1 s1 I1 r Hr) as I2. by destruct (release_urecord cfg r d1 s1).
Qed.

Lemma inv_unregister cfg w ar d s :
  ul_inv cfg d s -> let '(_, d', s') := unregister_watcher cfg w ar d s in ul_inv cfg d' s'.
Proof.
  intros I. unfold unregister_watcher. case_decide as Hm; [done|].
  destruct (get_urecord ar d) as [r|] eqn:G; [|done].
  apply (get_urecord_found d ar r (u_dom _ _ _ I)) in G as [Hr _].
  assert (R : record_ok r) by by apply I.
  unfold remove_watcher. set (r' := set_watchers _ r).
  assert (K : keeps r s r' s) by by apply keeps_watchers.
  pose proof (inv_put cfg d s I r _ s Hr K) as I1.
  pose proof (inv_release cfg _ s I1 r') as I2.
  destruct (put_record_ok d r _ (u_dom _ _ _ I) Hr (k_ident _ _ _ _ K) (k_ok _ _ _ _ K)) as (_ & l & _ & P).
  destruct (release_urecord cfg r' _ s). apply I2. rewrite P. by left.
Qed.

(** *** The timer *)

Definition used (now : Z) (r : urecord) : Prop :=
  record_ok r /\ all_valid now r /\ (contacts r <> [] \/ watchers r <> []).

Section Timer.
Context (cfg : ul_config) (ok : Z -> bool) (now : Z).
Context (Hm : db_mode cfg <> DB_ONLY).

Lemma timer_slot_ok sl s :
  (forall r, In r sl -> record_ok r /\ is_Some (split_aor cfg (aor r))) ->
  returns (timer_slot cfg ok now sl s) (fun x =>
    sublist (map ident x.1) (map ident sl) /\ (forall r, In r x.1 -> used now r) /\
    n_users x.2 - Z.of_nat (length x.1) = n_users s - Z.of_nat (length sl) /\
    n_contacts x.2 - count_all x.1 = n_contacts s - count_all sl).
Proof.
  revert s. induction sl as [|r sl IH]; intros s H; simpl.
  { apply returns_ret. split; [done|]. split; [done|]. simpl. lia. }
  destruct (H r) as [R Ha]; [by left|].
  eapply returns_bind; [by apply (timer_urecord_keeps cfg ok now r s)|].
  intros [r1 s1] (K & W & V). simpl in *.
  destruct K as [R1 Ei Ku Kc]. unfold count in Kc.
  assert (Keep : used now r1 -> returns ('(sl', s) ← timer_slot cfg ok now sl s1; Ret (r1 :: sl', s)) (fun x =>
    sublist (map ident x.1) (ident r :: map ident sl) /\ (forall r, In r x.1 -> used now r) /\
    n_users x.2 - Z.of_nat (length x.1) = n_users s - Z.of_nat (S (length sl)) /\
    n_contacts x.2 - count_all x.1 = n_contacts s - (count r + count_all sl))).
  { intros Hu. eapply returns_bind; [apply (IH s1); auto|]. intros [sl2 s2] (S1 & S2 & S3 & S4).
    apply returns_ret. simpl in *. rewrite Ei. split; [by apply sublist_skip|]. unfold count in *.
    split; [|lia]. intros x [<-|Hx]; auto. }
  destruct (contacts r1) eqn:Ec; [destruct (watchers r1) eqn:Ew|].
  - eapply returns_impl; [apply (IH (add_users (-1) s1)); auto|]. intros [sl2 s2] (S1 & S2 & S3 & S4).
    simpl in *. unfold count in *. split; [by apply sublist_cons|]. split; [done|lia].
  - apply Keep. split; [done|]. split; [done|]. right. by rewrite Ew.
  - apply Keep. split; [done|]. split; [done|]. left. by rewrite Ec.
Qed.

Lemma mem_timer_ok d s :
  (forall r, In r (records d) -> record_ok r /\ is_Some (split_aor cfg (aor r))) ->
  returns (mem_timer_udomain cfg ok now d s) (fun x =>
    sub_slots x.1 d /\ (forall r, In r (records x.1) -> used now r) /\
    n_users x.2 - Z.of_nat (length (records x.1)) = n_users s - Z.of_nat (length (records d)) /\
    n_contacts x.2 - count_all (records x.1) = n_contacts s - count_all (records d)).
Proof.
  revert s. induction d as [|sl d IH]; intros s H; simpl.
  { apply returns_ret. split; [apply sub_slots_refl|]. done. }
  unfold records in *. simpl in H.
  eapply returns_bind; [apply (timer_slot_ok sl s); intros; apply H, in_app_iff; auto|].
  intros [sl1 s1] (A1 & A2 & A3 & A4).
  eapply returns_bind; [apply (IH s1); intros; apply H, in_app_iff; auto|].
  intros [d2 s2] (B1 & B2 & B3 & B4). apply returns_ret. simpl in *.
  rewrite !length_app, !count_all_app. split; [by constructor|]. split; [|lia].
  intros r Hr. apply in_app_iff in Hr as [|]; auto.
Qed.

Lemma inv_timer d s :
  ul_inv cfg d s ->
  returns (mem_timer_udomain cfg ok now d s) (fun x =>
    ul_inv cfg x.1 x.2 /\ sub_slots x.1 d /\ (forall r, In r (records x.1) -> used now r)).
Proof.
  intros I. eapply returns_impl; [apply mem_timer_ok; intros r Hr; split; by apply I|].
  intros [d' s'] (S & Hu & U & C). simpl in *. split; [|done]. destruct I as [OK U0 C0 Sp].
  constructor; [|lia|lia|].
  - apply (dom_ok_sub d' d OK S). intros r Hr. by apply Hu.
  - intros r Hr. assert (Hin : In (ident r) (map ident (records d))).
    { apply list_elem_of_In. eapply elem_of_sublist; [|by apply sub_slots_records].
      by apply list_elem_of_In, in_map. }
    apply in_map_iff in Hin as (x & E & Hx). injection E as _ <-. by apply Sp.
Qed.

End Timer.

(** ** Runs *)

(** The operations the module offers, each done under the lock of the domain.  A new
    record or contact gets an address that is not in use. *)
Inductive ul_step (cfg : ul_config) : udomain * ul_st -> udomain * ul_st -> Prop :=
| S_insert_record d s a ar r d' s' :
    get_urecord ar d = None -> ~ In a (map rid (records d)) -> is_Some (split_aor cfg ar) ->
    insert_urecord cfg (Some a) ar d s = (Some r, d', s') -> ul_step cfg (d, s) (d', s')
| S_insert_contact d s ar r ok i contact ci rc o r' s' :
    get_urecord ar d = Some r -> ~ In i (map id (contacts r)) ->
    insert_ucontact cfg ok (Some i) contact ci r s = (rc, o, r', s') ->
    ul_step cfg (d, s) (put_record r' d, s')
| S_update_contact d s ar r now c cid cs p ok ci rc r' s' :
    get_urecord ar d = Some r -> get_ucontact cfg now r c cid cs = (0, Some p) ->
    update_ucontact cfg mem_ok ok p ci r s = Ret (rc, r', s') ->
    ul_step cfg (d, s) (put_record r' d, s')
| S_delete_contact d s ar r c ok r' s' :
    get_urecord ar d = Some r -> In c (contacts r) -> delete_ucontact cfg ok c r s = Ret (r', s') ->
    ul_step cfg (d, s) (put_record r' d, s')
| S_release d s ar r d' s' :
    get_urecord ar d = Some r -> release_urecord cfg r d s = (d', s') -> ul_step cfg (d, s) (d', s')
| S_delete_record d s ar ok rc d' s' :
    delete_urecord cfg ok ar d s = Ret (rc, d', s') -> ul_step cfg (d, s) (d', s')
| S_register d s ok a w ar rc d' s' :
    ~ In a (map rid (records d)) -> is_Some (split_aor cfg ar) ->
    register_watcher cfg ok (Some a) w ar d s = (rc, d', s') -> ul_step cfg (d, s) (d', s')
| S_unregister d s w ar rc d' s' :
    unregister_watcher cfg w ar d s = (rc, d', s') -> ul_step cfg (d, s) (d', s')
| S_timer d s ok now d' s' :
    mem_timer_udomain cfg ok now d s = Ret (d', s') -> ul_step cfg (d, s) (d', s').

Definition ul_reachable (cfg : ul_config) (n : nat) : udomain * ul_st -> Prop :=
  rtc (ul_step cfg) (new_udomain n, UlSt [] 0 0 0 []).

Lemma get_ucontact_in cfg now r c cid cs rc p : get_ucontact cfg now r c cid cs = (rc, Some p) -> In p (contacts r).
Proof.
  unfold get_ucontact, contact_match, contact_callid_match. intros E.
  destruct (matching_mode cfg);
    (destruct (List.find _ (contacts r)) as [q|] eqn:F; [|done]); apply find_some in F as [F _];
    repeat case_match; by simplify_eq.
Qed.

Lemma ul_step_inv cfg x y :
  db_mode cfg <> DB_ONLY -> ul_step cfg x y -> ul_inv cfg x.1 x.2 -> ul_inv cfg y.1 y.2.
Proof.
  intros Hm S I.
  assert (P : forall ar r r' s', get_urecord ar x.1 = Some r -> (record_ok r -> is_Some (split_aor cfg (aor r)) ->
    keeps r x.2 r' s') -> ul_inv cfg (put_record r' x.1) s').
  { intros ar r r' s' G K. apply (get_urecord_found _ ar r (u_dom _ _ _ I)) in G as [Hr _].
    apply (inv_put cfg x.1 x.2 I r); [done|]. apply K; by apply I. }
  destruct S as [d s a ar r d' s' G N Ha E|d s ar r ok i ct ci rc o r' s' G Ni E
    |d s ar r now c cid cs p ok ci rc r' s' G Gc E|d s ar r c ok r' s' G Hc E|d s ar r d' s' G E
    |d s ar ok rc d' s' E|d s ok a w ar rc d' s' N Ha E|d s w ar rc d' s' E|d s ok now d' s' E]; simpl in *.
  - unfold insert_urecord in E. rewrite decide_False in E by done.
    pose proof (inv_mem_insert cfg d s I a ar G N Ha) as X. rewrite E in X. by destruct X as (? & _ & ? & _).
  - apply (P ar r); [done|]. intros R _. pose proof (insert_keeps cfg ok i ct ci r s R Ni) as K. by rewrite E in K.
  - apply (P ar r); [done|]. intros R Ha. apply get_ucontact_in in Gc.
    by apply (returns_may _ _ (update_keeps cfg ok p ci r s R Ha Gc) _ E).
  - apply (P ar r); [done|]. intros R Ha. by apply (returns_may _ _ (delete_keeps cfg ok c r s R Ha Hc) _ E).
  - apply (get_urecord_found _ ar r (u_dom _ _ _ I)) in G as [Hr _].
    pose proof (inv_release cfg d s I r Hr) as X. by rewrite E in X.
  - by apply (returns_may _ _ (inv_delete cfg ok ar d s I Hm) _ E).
  - pose proof (inv_register cfg ok a w ar d s I N Ha) as X. by rewrite E in X.
  - pose proof (inv_unregister cfg w ar d s I) as X. by rewrite E in X.
  - by apply (returns_may _ _ (inv_timer cfg ok now Hm d s I) _ E).
Qed.

Lemma new_records n : records (new_udomain n) = [].
Proof. unfold records, new_udomain. induction n; [done|simpl; done]. Qed.

Lemma new_inv cfg n : (0 < n)%nat -> ul_inv cfg (new_udomain n) (UlSt [] 0 0 0 []).
Proof.
  intros Hn. constructor; [constructor|..]; rewrite ?new_records; try done; try constructor.
  - unfold new_udomain. by rewrite length_replicate.
  - intros i sl r Hi. unfold new_udomain in Hi. apply lookup_replicate in Hi as [-> _]. done.
Qed.

(** ** Lookup laws *)

Lemma get_after_put d r r' :
  dom_ok d -> In r (records d) -> ident r' = ident r -> record_ok r' ->
  forall ar, get_urecord ar (put_record r' d) = if decide (ar = aor r) then Some r' else get_urecord ar d.
Proof.
  intros OK Hr Ei R ar. destruct (put_record_ok d r r' OK Hr Ei R) as (OK' & l & P & P').
  injection Ei as _ Ea. rewrite <- Ea. apply (get_perm d _ r' l); [done|done|done|].
  intros x Hx. rewrite P. split; [intros [<-|]; [congruence|done]|by right].
Qed.

Lemma get_after_remove d s r :
  dom_ok d -> In r (records d) -> watchers r = [] ->
  let d' := (mem_delete_urecord r d s).1 in
  dom_ok d' /\ forall ar, get_urecord ar d' = if decide (ar = aor r) then None else get_urecord ar d.
Proof.
  intros OK Hr Hw. unfold mem_delete_urecord. rewrite Hw. simpl.
  destruct (rem_ok d r OK Hr) as (OK' & P). set (d' := alter _ _ _) in *. clearbody d'. split; [done|].
  pose proof (d_aors _ OK) as Na. rewrite P in Na. simpl in Na. apply NoDup_cons in Na as [Na _].
  rewrite list_elem_of_In in Na. intros ar. case_decide as D.
  - apply get_urecord_none; [done|]. by rewrite D.
  - destruct (get_urecord ar d) as [x|] eqn:G.
    + apply (get_urecord_found d ar x OK) in G as [Hx <-]. apply (get_urecord_found d' _ x OK').
      split; [|done]. rewrite P in Hx. destruct Hx as [->|Hx]; [done|done].
    + apply (get_urecord_none d ar OK) in G. apply get_urecord_none; [done|].
      intros Hin. apply G. rewrite P. by right.
Qed.

(** ** Main results *)

(** A domain is a map from addresses of record to records: in a well-formed domain an
    insertion is found by later lookups and changes no other lookup, a record changed in
    place is found changed, and a record removed is no longer found; each leaves the
    domain well-formed. *)
Theorem domain_lookup d s :
  dom_ok d ->
  (forall a ar, get_urecord ar d = None -> ~ In a (map rid (records d)) ->
     let '(o, d', _) := mem_insert_urecord (Some a) ar d s in
     exists r, o = Some r /\ contacts r = [] /\ watchers r = [] /\ dom_ok d' /\
       forall x, get_urecord x d' = if decide (x = ar) then Some r else get_urecord x d) /\
  (forall ar r r', get_urecord ar d = Some r -> ident r' = ident r -> record_ok r' ->
     dom_ok (put_record r' d) /\
     forall x, get_urecord x (put_record r' d) = if decide (x = ar) then Some r' else get_urecord x d) /\
  (forall ar r, get_urecord ar d = Some r -> watchers r = [] ->
     let d' := (mem_delete_urecord r d s).1 in
     dom_ok d' /\ forall x, get_urecord x d' = if decide (x = ar) then None else get_urecord x d).
Proof.
  intros OK. split; [|split].
  - intros a ar G N. pose proof (mem_insert_ok d s a ar OK G N) as X.
    destruct (mem_insert_urecord (Some a) ar d s) as [[o d'] s'].
    destruct X as (r & -> & OK' & _ & <- & Hc & Hw & P). exists r. split; [done|]. split; [done|].
    split; [done|]. split; [done|]. by apply (get_perm d d' r (records d)).
  - intros ar r r' G Ei R. apply (get_urecord_found d ar r OK) in G as [Hr <-].
    split; [by apply (put_record_ok d r r')|by apply get_after_put].
  - intros ar r G Hw. apply (get_urecord_found d ar r OK) in G as [Hr <-]. by apply get_after_remove.
Qed.

(** C6: in every state that the operations of the module reach from an empty domain, each
    record is in the slot of its hash, addresses of record are not repeated, and the
    statistics of registered users and contacts are the numbers of records and of
    contacts in the table. *)
Theorem domain_invariant cfg n d s :
  (0 < n)%nat -> db_mode cfg <> DB_ONLY -> ul_reachable cfg n (d, s) -> ul_inv cfg d s.
Proof.
  intros Hn Hm R. change (ul_inv cfg (d, s).1 (d, s).2). unfold ul_reachable in R.
  remember (new_udomain n, UlSt [] 0 0 0 []) as x0 eqn:E0.
  assert (I : ul_inv cfg x0.1 x0.2) by (subst; by apply new_inv). clear E0.
  induction R as [x|x y z S _ IH]; [done|]. by apply IH, (ul_step_inv cfg x y).
Qed.

(** In a reachable state the timer of a domain returns, whatever the database answers;
    it leaves no expired contact, drops the records that have neither contacts nor watchers
    left, adds none, and keeps the statistics exact. *)
Theorem timer_cleans cfg ok now d s :
  ul_inv cfg d s -> db_mode cfg <> DB_ONLY ->
  exists d' s', mem_timer_udomain cfg ok now d s = Ret (d', s') /\ ul_inv cfg d' s' /\
    sublist (map aor (records d')) (map aor (records d)) /\
    (forall r c, In r (records d') -> In c (contacts r) -> VALID_CONTACT c now = true) /\
    (forall r, In r (records d') -> contacts r <> [] \/ watchers r <> []).
Proof.
  intros I Hm. destruct (inv_timer cfg ok now Hm d s I) as ([d' s'] & E & I' & S & U). simpl in *.
  exists d', s'. split; [done|]. split; [done|]. split; [|split].
  - destruct (ident_parts (records d')) as [_ ->], (ident_parts (records d)) as [_ ->].
    by apply sublist_map, sub_slots_records.
  - intros r c Hr Hc. destruct (U r Hr) as (_ & V & _). by apply V.
  - intros r Hr. by destruct (U r Hr) as (_ & _ & ?).
Qed.

(** The slot that is locked for an address of record is a slot of the domain, and the
    one where its record is searched and inserted. *)
Theorem lock_covers_record ar d :
  (0 < length d)%nat -> dsize d <= 2 ^ 32 ->
  Z.to_nat (lock_slot ar d) = slot_of (core_hash ar None 0) d /\ 0 <= lock_slot ar d < dsize d.
Proof.
  intros L1 L2. split; [by apply lock_slot_eq|]. apply hash_words_range. unfold dsize in *. lia.
Qed.

(** ** Instances *)

Definition empty_st : ul_st := UlSt [] 0 0 0 [].

(** A domain of four slots with one record, and the same with a contact that expires. *)
Definition demo_domain : udomain * ul_st :=
  let '(_, d, s) := mem_insert_urecord (Some 7) (B "joe@x") (new_udomain 4) empty_st in (d, s).

Definition demo_info : ucontact_info := UInfo [] None 5000 500 (B "cid") 1 0 0 [] 0 ALL_METHODS 100.

Lemma demo_inv : ul_inv (demo_cfg WRITE_BACK) demo_domain.1 demo_domain.2.
Proof.
  assert (I : ul_inv (demo_cfg WRITE_BACK) (new_udomain 4) empty_st) by (apply new_inv; lia).
  pose proof (inv_mem_insert _ _ _ I 7 (B "joe@x")) as X. unfold demo_domain.
  destruct (mem_insert_urecord (Some 7) (B "joe@x") (new_udomain 4) empty_st) as [[o d] s].
  destruct X as (r & _ & I' & _); [by vm_compute|by intros []|by eexists|done].
Qed.

Definition demo_rec : urecord := URecord 7 (B "joe@x") (core_hash (B "joe@x") None 0) [] [] true.

Lemma domain_lookup_witness :
  let d := demo_domain.1 in
  get_urecord (B "joe@x") (mem_delete_urecord demo_rec d empty_st).1 = None /\
  get_urecord (B "joe@x") (put_record (set_contacts [demo_contact 1 500 90 CS_NEW] demo_rec) d) =
    Some (set_contacts [demo_contact 1 500 90 CS_NEW] demo_rec).
Proof.
  destruct (domain_lookup demo_domain.1 empty_st) as (_ & P & D).
  - apply demo_inv.
  - split.
    + destruct (D (B "joe@x") demo_rec) as [_ E]; [by vm_compute|done|]. by rewrite E.
    + destruct (P (B "joe@x") demo_rec (set_contacts [demo_contact 1 500 90 CS_NEW] demo_rec)) as [_ E].
      * by vm_compute.
      * done.
      * constructor; [done|done|]. apply (bool_decide_unpack _). by vm_compute.
      * by rewrite E.
Defined.

Lemma domain_invariant_witness :
  exists d s, ul_inv (demo_cfg WRITE_BACK) d s /\ length (records d) = 1%nat /\ n_contacts s = 1.
Proof.
  set (x := insert_ucontact (demo_cfg WRITE_BACK) true (Some 3) (B "c") demo_info demo_rec demo_domain.2).
  exists (put_record x.1.2 demo_domain.1), x.2. split; [|by vm_compute].
  apply (domain_invariant (demo_cfg WRITE_BACK) 4).
  - lia.
  - done.
  - eapply rtc_l; [eapply (S_insert_record _ _ _ 7 (B "joe@x") demo_rec demo_domain.1 demo_domain.2)|].
    + by vm_compute.
    + by intros [].
    + by eexists.
    + by vm_compute.
    + eapply rtc_l; [eapply (S_insert_contact _ _ _ (B "joe@x") demo_rec true 3 (B "c") demo_info
        x.1.1.1 x.1.1.2 x.1.2 x.2)|apply rtc_refl].
      * by vm_compute.
      * by intros [].
      * by vm_compute.
Defined.

Lemma timer_cleans_witness :
  exists d' s', mem_timer_udomain (demo_cfg WRITE_BACK) (fun _ => false) 1000 demo_domain.1 demo_domain.2 =
    Ret (d', s') /\ records d' = [] /\ n_users s' = 0.
Proof.
  destruct (timer_cleans (demo_cfg WRITE_BACK) (fun _ => false) 1000 demo_domain.1 demo_domain.2)
    as (d' & s' & E & _).
  - apply demo_inv.
  - done.
  - exists d', s'. split; [exact E|]. vm_compute in E. by injection E as <- <-.
Defined.

Lemma lock_covers_record_witness :
  Z.to_nat (lock_slot (B "joe@x") demo_domain.1) = slot_of (core_hash (B "joe@x") None 0) demo_domain.1.
Proof.
  apply (lock_covers_record (B "joe@x") demo_domain.1).
  - vm_compute. lia.
  - vm_compute. congruence.
Defined.

End Udomain.
