(* ===== verification/UlApi.v ===== *)
(** * User location: the interface to other modules ([src/modules/usrloc/usrloc.h])

    The module exports a table of functions, [usrloc_api_t]; the registrar works on
    records and contacts through it only.  [UsrlocApi] is that table, over an abstract
    state, and [UsrlocLaws] states what the functions promise.  The instance is the
    domain of [Udomain] with an allocator: an address is the number of allocations so
    far, and [mem], [upd] and [db] tell which allocations of records and contacts, which
    allocations of an update and which database operations succeed.  The laws are shown for
    it in the modes that keep contacts in memory, with contacts matched by their URI, and
    when the allocations of updates succeed. *)

From Stdlib Require Import ZArith Lia List String Ascii Bool Permutation.
From stdpp Require Import base tactics option list.
From S2P Require Import Prelude Ut HashFunc Ucontact Udomain.

Module UlApi.
Import Ut HashFunc Ucontact Udomain.

(** The functions; [ul_store] writes back a record whose contacts the caller changed in
    place. *)
Class UsrlocApi (St : Type) := {
  ul_get_urecord : bytes -> St -> option urecord;
  ul_insert_urecord : bytes -> St -> option urecord * St;
  ul_delete_urecord : bytes -> St -> res (Z * St);
  ul_release_urecord : urecord -> St -> St;
  ul_get_ucontact : Z -> urecord -> bytes -> bytes -> Z -> Z * option ucontact;
  ul_insert_ucontact : urecord -> bytes -> ucontact_info -> St -> Z * option ucontact * urecord * St;
  ul_update_ucontact : urecord -> ucontact -> ucontact_info -> St -> res (Z * urecord * St);
  ul_delete_ucontact : urecord -> ucontact -> St -> res (urecord * St);
  ul_store : urecord -> St -> St
}.

(** A contact carries what was given for it; the Call-ID is apart, an update keeps it. *)
Record bound (u : bytes) (ci : ucontact_info) (c : ucontact) : Prop := {
  bd_uri : uri c = u;
  bd_expires : expires c = i_expires ci;
  bd_q : qv c = i_q ci;
  bd_cseq : cseq c = i_cseq ci;
  bd_received : received c = non_empty (i_received ci);
  bd_path : path c = i_path ci;
  bd_cflags : cflags c = i_cflags ci;
  bd_sock : sock c = i_sock ci;
  bd_methods : methods c = i_methods ci;
  bd_modified : last_modified c = i_last_modified ci
}.

Definition set_c_flags (f : Z) (c : ucontact) : ucontact :=
  UContact (id c) (uri c) (received c) (path c) (expires c) (qv c) (callid c) (cseq c) (state c) f
    (cflags c) (user_agent c) (sock c) (last_modified c) (methods c).

(** A contact that was deleted is gone, or stays with an expiry in the past. *)
Definition deleted (c : ucontact) (l l' : list ucontact) : Prop :=
  exists rest, Permutation l (c :: rest) /\
    (Permutation l' rest \/
     exists c', Permutation l' (c' :: rest) /\ id c' = id c /\ uri c' = uri c /\ expires c' = UL_EXPIRED_TIME).

Class UsrlocLaws (St : Type) `{UsrlocApi St} := {
  ul_ok : St -> Prop;
  ul_aor_ok : bytes -> Prop;
  ul_mem : Prop;  (* memory does not run out *)
  law_mem_urecord s ar : ul_mem -> ul_ok s -> ul_get_urecord ar s = None -> (ul_insert_urecord ar s).1 <> None;
  law_mem_ucontact s r u ci : ul_mem -> (ul_insert_ucontact r u ci s).1.1.2 <> None;
  law_get s ar r : ul_ok s -> ul_get_urecord ar s = Some r -> aor r = ar /\ NoDup (map id (contacts r));
  law_insert_urecord s ar : ul_ok s -> ul_aor_ok ar -> ul_get_urecord ar s = None ->
    let '(o, s') := ul_insert_urecord ar s in
    ul_ok s' /\ (forall r, o = Some r -> aor r = ar /\ contacts r = []) /\
    forall x, ul_get_urecord x s' = if decide (x = ar) then o else ul_get_urecord x s;
  law_delete_urecord s ar : ul_ok s ->
    returns (ul_delete_urecord ar s) (fun y => y.1 = 0 /\ ul_ok y.2 /\
      (forall r c, ul_get_urecord ar y.2 = Some r -> In c (contacts r) -> expires c = UL_EXPIRED_TIME) /\
      forall x, x <> ar -> ul_get_urecord x y.2 = ul_get_urecord x s);
  law_release s r : ul_ok s -> ul_get_urecord (aor r) s = Some r ->
    let s' := ul_release_urecord r s in
    ul_ok s' /\ (contacts r <> [] -> ul_get_urecord (aor r) s' = Some r) /\
    (ul_get_urecord (aor r) s' = Some r \/ ul_get_urecord (aor r) s' = None) /\
    forall x, x <> aor r -> ul_get_urecord x s' = ul_get_urecord x s;
  law_get_ucontact now r u cid cs :
    match ul_get_ucontact now r u cid cs with
    | (rc, Some c) => rc = 0 /\ In c (contacts r) /\ uri c = u
    | (rc, None) => rc <> 0 /\ (rc > 0 -> forall c, In c (contacts r) -> uri c <> u) /\
        (rc < 0 -> exists c, In c (contacts r) /\ uri c = u /\ callid c = cid /\ cs <= cseq c)
    end;
  law_insert_ucontact s r u ci : ul_ok s -> ul_get_urecord (aor r) s = Some r -> i_path ci <> Some [] ->
    let '(rc, o, r', s') := ul_insert_ucontact r u ci s in
    ul_ok s' /\ aor r' = aor r /\
    (forall x, ul_get_urecord x s' = if decide (x = aor r) then Some r' else ul_get_urecord x s) /\
    match o with
    | None => rc = -1 /\ r' = r
    | Some c => rc = 0 /\ bound u ci c /\ Permutation (contacts r') (c :: contacts r)
    end;
  law_update_ucontact s r c ci : ul_ok s -> ul_get_urecord (aor r) s = Some r -> In c (contacts r) ->
    i_path ci <> Some [] ->
    returns (ul_update_ucontact r c ci s) (fun '(rc, r', s') =>
      rc = 0 /\ ul_ok s' /\ aor r' = aor r /\
      (forall x, ul_get_urecord x s' = if decide (x = aor r) then Some r' else ul_get_urecord x s) /\
      exists c' rest, bound (uri c) ci c' /\ Permutation (contacts r) (c :: rest) /\
        Permutation (contacts r') (c' :: rest));
  law_delete_ucontact s r c : ul_ok s -> ul_get_urecord (aor r) s = Some r -> In c (contacts r) ->
    returns (ul_delete_ucontact r c s) (fun '(r', s') =>
      ul_ok s' /\ aor r' = aor r /\
      (forall x, ul_get_urecord x s' = if decide (x = aor r) then Some r' else ul_get_urecord x s) /\
      deleted c (contacts r) (contacts r'));
  law_store s r c f : ul_ok s -> ul_get_urecord (aor r) s = Some r -> In c (contacts r) ->
    let r' := set_contacts (put_contact (set_c_flags f c) (contacts r)) r in
    ul_ok (ul_store r' s) /\
    forall x, ul_get_urecord x (ul_store r' s) = if decide (x = aor r) then Some r' else ul_get_urecord x s
}.

(** ** The implementation *)

Record world : Type := World { w_dom : udomain; w_st : ul_st; w_next : Z }.

Section World.
Context (cfg : ul_config) (mem : Z -> bool) (upd : Z -> upd_mem) (db : Z -> bool).

Definition alloc (w : world) : option Z := if mem (w_next w) then Some (w_next w) else None.
Definition step_w (d : udomain) (s : ul_st) (w : world) : world := World d s (w_next w + 1).
Definition db_ok (w : world) : bool := db (w_next w).

#[export] Instance domain_api : UsrlocApi world := {
  ul_get_urecord ar w := get_urecord ar (w_dom w);
  ul_insert_urecord ar w :=
    let '(o, d, s) := insert_urecord cfg (alloc w) ar (w_dom w) (w_st w) in (o, step_w d s w);
  ul_delete_urecord ar w :=
    '(rc, d, s) ← delete_urecord cfg (db_ok w) ar (w_dom w) (w_st w); Ret (rc, step_w d s w);
  ul_release_urecord r w :=
    let '(d, s) := release_urecord cfg r (w_dom w) (w_st w) in step_w d s w;
  ul_get_ucontact now r u cid cs := get_ucontact cfg now r u cid cs;
  ul_insert_ucontact r u ci w :=
    let '(rc, o, r', s) := insert_ucontact cfg (db_ok w) (alloc w) u ci r (w_st w) in
    (rc, o, r', step_w (put_record r' (w_dom w)) s w);
  ul_update_ucontact r c ci w :=
    '(rc, r', s) ← update_ucontact cfg (upd (w_next w)) (db_ok w) c ci r (w_st w);
    Ret (rc, r', step_w (put_record r' (w_dom w)) s w);
  ul_delete_ucontact r c w :=
    '(r', s) ← delete_ucontact cfg (db_ok w) c r (w_st w); Ret (r', step_w (put_record r' (w_dom w)) s w);
  ul_store r w := step_w (put_record r (w_dom w)) (w_st w) w
}.

End World.

(** ** What an update and an insertion write *)

Lemma non_empty_id (s : bytes) : s <> [] -> non_empty s = Some s.
Proof. by destruct s. Qed.

Lemma update_str_new old new : new <> [] -> update_str true old new = Some (Some new).
Proof.
  intros Hn. unfold update_str. destruct old as [o|]; simpl; [by case_match|]. by destruct new.
Qed.

Lemma mem_update_bound c ci st :
  i_path ci <> Some [] -> bound (uri c) ci (set_state st (mem_update_ucontact mem_ok c ci).2).
Proof.
  intros Hp. unfold mem_update_ucontact. cbn [ok_ua ok_received ok_path mem_ok].
  destruct (update_str_ok (Some (user_agent c)) (i_user_agent ci)) as [ua ->].
  set (c1 := upd_strings _ _ _ c).
  assert (E2 : match i_received ci with [] => Some None | rcv => update_str true (received c1) rcv end =
    Some (non_empty (i_received ci))) by (destruct (i_received ci); [done|by apply update_str_new]).
  rewrite E2. set (c2 := upd_strings _ _ _ c1).
  assert (E3 : match i_path ci with None => Some None | Some p => update_str true (path c2) p end =
    Some (i_path ci)).
  { destruct (i_path ci) as [p|]; [|done]. apply update_str_new. intros ->. by apply Hp. }
  rewrite E3. by constructor.
Qed.

Lemma new_bound i u ci c st :
  i_path ci <> Some [] -> new_ucontact (Some i) u ci = Some c -> bound u ci (set_state st c).
Proof.
  intros Hp [= <-]. constructor; try done. simpl. destruct (i_path ci) as [[|]|]; done.
Qed.

Lemma put_contact_new c' c l :
  id c' = id c -> ~ In (id c) (map id l) -> put_contact c' (c :: l) = c' :: l.
Proof.
  intros E N. simpl. rewrite E, Z.eqb_refl. f_equal. rewrite <- E in N. clear E.
  induction l as [|d l IH]; simpl in *; [done|].
  rewrite (proj2 (Z.eqb_neq _ _)) by (intros E; apply N; auto). f_equal. apply IH. tauto.
Qed.

Lemma insert_shape cfg ok i u ci r s :
  ~ In i (map id (contacts r)) -> i_path ci <> Some [] ->
  let '(rc, o, r', s') := insert_ucontact cfg ok (Some i) u ci r s in
  exists c, rc = 0 /\ o = Some c /\ id c = i /\ bound u ci c /\ Permutation (contacts r') (c :: contacts r).
Proof.
  intros Ni Hp. unfold insert_ucontact, mem_insert_ucontact.
  destruct (new_ucontact (Some i) u ci) as [c|] eqn:En; [|done].
  assert (Ei : id c = i) by (by injection En as <-).
  assert (Eb : forall st, bound u ci (set_state st c)) by (intros st; by eapply new_bound).
  pose proof (insert_list_perm cfg c (contacts r)) as P.
  set (l := if desc_time_order cfg then _ else _) in *.
  assert (B0 : bound u ci c) by (replace c with (set_state (state c) c) by (by destruct c); done).
  destruct (writes_now (db_mode cfg)); [|by exists c].
  destruct (db_insert_ucontact _ _ _ _ _) as [rc s2]. destruct (rc <? 0); [by exists c|].
  exists (set_state CS_SYNC c). do 4 (split; [done|]). simpl.
  rewrite (put_contact_perm _ _ _ P), put_contact_new; [done|done|]. by rewrite Ei.
Qed.

Lemma delete_shape cfg ok c r s :
  NoDup (map id (contacts r)) -> In c (contacts r) ->
  may_return (delete_ucontact cfg ok c r s) (fun x => deleted c (contacts r) (contacts x.1)).
Proof.
  intros N Hc. pose proof (remove_perm c (contacts r) N Hc) as P.
  set (rest := mem_remove_ucontact (id c) (contacts r)) in *.
  assert (Nr : ~ In (id c) (map id rest)).
  { rewrite <- P in N. by apply NoDup_cons in N as [N _]; rewrite list_elem_of_In in N. }
  assert (D : forall x, may_return (s ← x; Ret (mem_delete_ucontact (id c) r s))
    (fun x => deleted c (contacts r) (contacts x.1))).
  { intros x. apply (may_bind _ _ (fun _ => True)); [done|]. intros s' _. apply may_ret.
    exists rest. split; [by symmetry|by left]. }
  unfold delete_ucontact, st_delete_ucontact. destruct (state c), (db_mode cfg); try apply D;
    apply may_ret; exists rest; (split; [by symmetry|]); right;
    exists (set_expires UL_EXPIRED_TIME c); (split; [|done]); simpl;
    rewrite <- (put_contact_perm _ _ _ P), put_contact_new; done.
Qed.

(** ** The laws hold *)

Section Laws.
Context (cfg : ul_config) (mem : Z -> bool) (upd : Z -> upd_mem) (db : Z -> bool).
Context (Hm : db_mode cfg <> DB_ONLY) (Hc : matching_mode cfg = CONTACT_ONLY) (Hu : forall n, upd n = mem_ok).

Definition below (n : Z) (r : urecord) : Prop := rid r < n /\ forall c, In c (contacts r) -> id c < n.

Record world_ok (w : world) : Prop := {
  wk_inv : ul_inv cfg (w_dom w) (w_st w);
  wk_next : forall r, In r (records (w_dom w)) -> below (w_next w) r
}.

Lemma world_record w ar r :
  world_ok w -> get_urecord ar (w_dom w) = Some r ->
  In r (records (w_dom w)) /\ aor r = ar /\ record_ok r /\ is_Some (split_aor cfg (aor r)) /\ below (w_next w) r.
Proof.
  intros [I B] G. apply (get_urecord_found _ ar r (u_dom _ _ _ I)) in G as [Hr Ea].
  split; [done|]. split; [done|]. split; [by apply I|]. split; [by apply I|by apply B].
Qed.

(** A record changed in place. *)
Lemma world_put w r r' s' :
  world_ok w -> In r (records (w_dom w)) -> keeps r (w_st w) r' s' ->
  (forall c, In c (contacts r') -> id c <= w_next w) ->
  let w' := step_w (put_record r' (w_dom w)) s' w in
  world_ok w' /\ aor r' = aor r /\
  forall x, get_urecord x (w_dom w') = if decide (x = aor r) then Some r' else get_urecord x (w_dom w).
Proof.
  intros [I B] Hr K Hi w'. pose proof (k_ident _ _ _ _ K) as Ei.
  destruct (put_record_ok _ r r' (u_dom _ _ _ I) Hr Ei (k_ok _ _ _ _ K)) as (OK & l & P & P').
  split; [|split; [by injection Ei|]].
  - constructor; [by apply (inv_put cfg _ _ I r)|]. simpl. intros x Hx. rewrite P' in Hx.
    destruct Hx as [<-|Hx].
    + injection Ei as E1 _. destruct (B r Hr) as [B1 _]. split; [lia|]. intros c Hc'. apply Hi in Hc'. lia.
    + destruct (B x) as [B1 B2]; [rewrite P; by right|]. split; [lia|]. intros c Hc'. apply B2 in Hc'. lia.
  - apply get_after_put; [apply I|done|done|apply K].
Qed.

Lemma below_next w d s : world_ok w -> ul_inv cfg d s ->
  (forall r, In r (records d) -> below (w_next w + 1) r) -> world_ok (step_w d s w).
Proof. intros _ I B. by constructor. Qed.

Lemma below_weaken n r : below n r -> below (n + 1) r.
Proof. intros [B1 B2]. split; [lia|]. intros c Hc'. apply B2 in Hc'. lia. Qed.

Lemma api_insert_urecord w ar :
  world_ok w -> is_Some (split_aor cfg ar) -> get_urecord ar (w_dom w) = None ->
  let '(o, d, s) := insert_urecord cfg (alloc mem w) ar (w_dom w) (w_st w) in
  world_ok (step_w d s w) /\ (forall r, o = Some r -> aor r = ar /\ contacts r = []) /\
  forall x, get_urecord x d = if decide (x = ar) then o else get_urecord x (w_dom w).
Proof.
  intros [I B] Ha G. unfold insert_urecord. rewrite decide_False by done. unfold alloc.
  destruct (mem (w_next w)); cycle 1.
  - simpl. split; [constructor; [done|]; intros r Hr; by apply below_weaken, B|].
    split; [done|]. intros x. case_decide as D; [by subst|done].
  - pose proof (inv_mem_insert cfg _ _ I (w_next w) ar G) as X.
    destruct (mem_insert_urecord (Some (w_next w)) ar (w_dom w) (w_st w)) as [[o d] s].
    destruct X as (r & -> & I' & Ei & Ea & Ec & Ew & P); [|done|].
    { intros Hin. apply in_map_iff in Hin as (x & E & Hx). destruct (B x Hx). lia. }
    split; [|split; [by intros r' [= <-]|]].
    + constructor; [done|]. intros x Hx. simpl in *. rewrite P in Hx. destruct Hx as [<-|Hx]; [|by apply below_weaken, B].
      split; [lia|]. rewrite Ec. by intros c [].
    + intros x. rewrite <- Ea. by apply (get_perm (w_dom w) d r (records (w_dom w)) (u_dom _ _ _ I) (u_dom _ _ _ I')).
Qed.

(** The release of a record. *)
Lemma world_release d s r :
  ul_inv cfg d s -> get_urecord (aor r) d = Some r ->
  let '(d', s') := release_urecord cfg r d s in
  ul_inv cfg d' s' /\ incl (records d') (records d) /\ (contacts r <> [] -> get_urecord (aor r) d' = Some r) /\
  (get_urecord (aor r) d' = Some r \/ get_urecord (aor r) d' = None) /\
  forall x, x <> aor r -> get_urecord x d' = get_urecord x d.
Proof.
  intros I G. pose proof G as Hr. apply (get_urecord_found d _ r (u_dom _ _ _ I)) in Hr as [Hr _].
  pose proof (inv_release cfg d s I r Hr) as I'. unfold release_urecord in *. rewrite decide_False in * by done.
  destruct (contacts r) as [|c l] eqn:Ec; [|split; [done|]; split; [apply incl_refl|]; auto].
  unfold mem_delete_urecord in *. destruct (watchers r) eqn:Ew; [|split; [done|]; split; [apply incl_refl|]; auto].
  destruct (get_after_remove d s r (u_dom _ _ _ I) Hr Ew) as [OK E].
  destruct (rem_ok d r (u_dom _ _ _ I) Hr) as (_ & P).
  unfold mem_delete_urecord in *. rewrite Ew in *. simpl in *. set (d' := alter _ _ _) in *. clearbody d'.
  split; [done|]. split; [intros x Hx; rewrite P; by right|]. split; [done|]. split.
  - right. by rewrite E, decide_True.
  - intros x Hx. by rewrite E, decide_False.
Qed.

Lemma deleted_contacts ok todo r s :
  record_ok r -> is_Some (split_aor cfg (aor r)) -> NoDup (map id todo) ->
  (forall c, In c todo -> In c (contacts r)) ->
  (forall d, In d (contacts r) -> In (id d) (map id todo) \/ expires d = UL_EXPIRED_TIME) ->
  returns (delete_contacts cfg ok todo r s) (fun x => keeps r s x.1 x.2 /\
    (forall d, In d (contacts x.1) -> expires d = UL_EXPIRED_TIME /\ In (id d) (map id (contacts r)))).
Proof.
  revert r s. induction todo as [|c todo IH]; intros r s R Ha N Hin Hv.
  { apply returns_ret. split; [by apply keeps_stats|]. intros d Hd. split; [by destruct (Hv d Hd)|by apply in_map]. }
  simpl. apply NoDup_cons in N as [Nc N]. rewrite list_elem_of_In in Nc.
  assert (Hc1 : In c (contacts r)) by (apply Hin; by left).
  destruct (delete_keeps cfg ok c r s R Ha Hc1) as ([r1 s1] & E & K & P).
  destruct (delete_shape cfg ok c r s (r_ids _ R) Hc1 _ E) as (rest & Q & D). rewrite E. run. simpl in *.
  assert (D' : forall d, In d (contacts r1) -> In d rest \/ id d = id c /\ expires d = UL_EXPIRED_TIME).
  { intros d Hd. destruct D as [D|(c' & D & Ei & _ & Ee)].
    - left. by apply (Permutation_in d D).
    - apply (Permutation_in d D) in Hd as [<-|Hd]; [by right|by left]. }
  assert (Hrest : forall d, In d rest -> In d (contacts r)) by (intros d Hd; rewrite Q; by right).
  eapply returns_impl; [apply IH; [apply K|by rewrite (keeps_aor _ _ _ _ K)|done| |]|].
  - intros d Hd. apply P; [by apply Hin; right|]. intros Ed. apply Nc. rewrite <- Ed. by apply in_map.
  - intros d Hd. destruct (D' d Hd) as [Hd'|[_ Ee]]; [|auto]. destruct (Hv d (Hrest d Hd')) as [[Ei|]|]; [|auto|auto].
    exfalso. pose proof (r_ids _ R) as Nr. rewrite Q in Nr. apply NoDup_cons in Nr as [Nr _].
    apply Nr, list_elem_of_In. rewrite Ei. by apply in_map.
  - intros [r2 s2] [K2 E2]. split; [by eapply rec_keeps_trans|]. intros d Hd. destruct (E2 d Hd) as [Ee Hi].
    split; [done|]. apply in_map_iff in Hi as (e & Ei & He). rewrite <- Ei.
    destruct (D' e He) as [He'|[-> _]]; apply in_map; [by apply Hrest|done].
Qed.

Lemma api_delete_urecord w ar :
  world_ok w ->
  returns ('(rc, d, s) ← delete_urecord cfg (db_ok db w) ar (w_dom w) (w_st w); Ret (rc, step_w d s w))
    (fun y => y.1 = 0 /\ world_ok y.2 /\
      (forall r c, get_urecord ar (w_dom y.2) = Some r -> In c (contacts r) -> expires c = UL_EXPIRED_TIME) /\
      forall x, x <> ar -> get_urecord x (w_dom y.2) = get_urecord x (w_dom w)).
Proof.
  intros W. unfold delete_urecord. rewrite decide_False by done.
  destruct (get_urecord ar (w_dom w)) as [r|] eqn:G; cycle 1.
  { run. apply returns_ret. split; [done|]. split; [|split; [intros r c G'; simpl in G'; congruence|done]].
    destruct W as [I B]. constructor; [done|]. intros r Hr. by apply below_weaken, B. }
  destruct (world_record w ar r W G) as (Hr & <- & R & Ha & Bw).
  destruct (deleted_contacts (db_ok db w) (contacts r) r (w_st w) R Ha (r_ids _ R)) as ([r1 s1] & E & K & D);
    [auto|intros d Hd; left; by apply in_map|]. rewrite E. run. simpl in K, D.
  destruct (world_put w r r1 s1 W Hr K) as (W1 & Ea & G1).
  { intros c Hin. destruct (D c Hin) as [_ Hi]. apply in_map_iff in Hi as (e & <- & He).
    destruct Bw as [_ Bw]. apply Bw in He. lia. }
  pose proof (world_release (put_record r1 (w_dom w)) s1 r1 (wk_inv _ W1)) as X. simpl in G1.
  rewrite G1, decide_True in X by done.
  destruct (release_urecord cfg r1 (put_record r1 (w_dom w)) s1) as [d s]. run. apply returns_ret.
  destruct X as (I2 & Hincl & _ & X & F); [done|]. split; [done|]. split; [|split].
  - constructor; [done|]. intros x Hx. simpl in *. by apply (wk_next _ W1), Hincl.
  - intros r2 c G2 Hin. simpl in G2. rewrite <- Ea in G2. destruct X as [X|X]; rewrite X in G2; [|done].
    injection G2 as <-. by apply D.
  - intros x Hx. simpl. rewrite F by congruence. rewrite G1. by rewrite decide_False.
Qed.

Lemma api_get_ucontact now r u cid cs :
  match get_ucontact cfg now r u cid cs with
  | (rc, Some c) => rc = 0 /\ In c (contacts r) /\ uri c = u
  | (rc, None) => rc <> 0 /\ (rc > 0 -> forall c, In c (contacts r) -> uri c <> u) /\
      (rc < 0 -> exists c, In c (contacts r) /\ uri c = u /\ callid c = cid /\ cs <= cseq c)
  end.
Proof.
  unfold get_ucontact. rewrite Hc. unfold contact_match.
  destruct (List.find _ (contacts r)) as [p|] eqn:E.
  - apply find_some in E as [Hp E]. apply bool_decide_eq_true in E. cbn [orb].
    destruct (bytes_eqb (callid p) cid) eqn:Ec; [|done]. apply bool_decide_eq_true in Ec.
    destruct (Z.ltb_spec cs (cseq p)); [|destruct (Z.eqb_spec cs (cseq p)); [|done]].
    + split; [lia|]. split; [lia|]. intros _. exists p. split; [done|]. split; [done|]. split; [done|lia].
    + case_match; (split; [lia|]; split; [lia|]; intros _; exists p; repeat split; done || lia).
  - split; [lia|]. split; [|lia]. intros _ c Hin Eu. apply (find_none _ _ E) in Hin. unfold bytes_eqb in Hin.
    rewrite bool_decide_eq_true_2 in Hin by done. done.
Qed.

Lemma api_insert_ucontact w r u ci :
  world_ok w -> get_urecord (aor r) (w_dom w) = Some r -> i_path ci <> Some [] ->
  let '(rc, o, r', s) := insert_ucontact cfg (db_ok db w) (alloc mem w) u ci r (w_st w) in
  let w' := step_w (put_record r' (w_dom w)) s w in
  world_ok w' /\ aor r' = aor r /\
  (forall x, get_urecord x (w_dom w') = if decide (x = aor r) then Some r' else get_urecord x (w_dom w)) /\
  match o with
  | None => rc = -1 /\ r' = r
  | Some c => rc = 0 /\ bound u ci c /\ Permutation (contacts r') (c :: contacts r)
  end.
Proof.
  intros W G Hp. destruct (world_record w (aor r) r W G) as (Hr & _ & R & Ha & Bw). unfold alloc.
  destruct (mem (w_next w)); cycle 1.
  { destruct (world_put w r r (w_st w) W Hr) as (W1 & Ea & G1); [by apply keeps_stats| |by auto].
    intros c Hin. apply Bw in Hin. lia. }
  assert (Ni : ~ In (w_next w) (map id (contacts r))).
  { intros Hin. apply in_map_iff in Hin as (c & E & Hin). apply Bw in Hin. lia. }
  pose proof (insert_keeps cfg (db_ok db w) (w_next w) u ci r (w_st w) R Ni) as K.
  pose proof (insert_shape cfg (db_ok db w) (w_next w) u ci r (w_st w) Ni Hp) as S.
  destruct (insert_ucontact cfg (db_ok db w) (Some (w_next w)) u ci r (w_st w)) as [[[rc o] r'] s].
  destruct S as (c & -> & -> & Ei & Hb & P).
  destruct (world_put w r r' s W Hr K) as (W1 & Ea & G1); [|by auto].
  intros d Hin. apply (Permutation_in d P) in Hin as [<-|Hin]; [lia|]. apply Bw in Hin. lia.
Qed.

Lemma api_update_ucontact w r c ci :
  world_ok w -> get_urecord (aor r) (w_dom w) = Some r -> In c (contacts r) -> i_path ci <> Some [] ->
  returns ('(rc, r', s) ← update_ucontact cfg (upd (w_next w)) (db_ok db w) c ci r (w_st w);
           Ret (rc, r', step_w (put_record r' (w_dom w)) s w)) (fun '(rc, r', w') =>
    rc = 0 /\ world_ok w' /\ aor r' = aor r /\
    (forall x, get_urecord x (w_dom w') = if decide (x = aor r) then Some r' else get_urecord x (w_dom w)) /\
    exists c' rest, bound (uri c) ci c' /\ Permutation (contacts r) (c :: rest) /\
      Permutation (contacts r') (c' :: rest)).
Proof.
  intros W G Hin Hp. rewrite Hu. destruct (world_record w (aor r) r W G) as (Hr & _ & R & Ha & Bw).
  destruct (update_keeps cfg (db_ok db w) c ci r (w_st w) R Ha Hin) as ([[rc r'] s] & E & K). simpl in K.
  destruct (update_result cfg _ c ci r (w_st w) rc r' s (r_ids _ R) Hin E) as (st & -> & P).
  set (c' := set_state st _) in P. assert (Ei : id c' = id c).
  { unfold c'. destruct (mem_update_ok c ci) as (c1 & -> & Ei & _). done. }
  pose proof (remove_perm c (contacts r) (r_ids _ R) Hin) as Q.
  assert (P' : Permutation (contacts r') (c' :: mem_remove_ucontact (id c) (contacts r))).
  { rewrite P, <- (put_contact_perm c' _ _ Q), put_contact_new; [done|done|].
    pose proof (r_ids _ R) as N. rewrite <- Q in N. apply NoDup_cons in N as [N _]. by rewrite <- list_elem_of_In. }
  rewrite E. run. apply returns_ret. split; [done|].
  destruct (world_put w r r' s W Hr K) as (W1 & Ea & G1).
  { intros d Hd. apply (Permutation_in d P') in Hd as [<-|Hd].
    - rewrite Ei. apply Bw in Hin. lia.
    - apply remove_in in Hd as [Hd _]. apply Bw in Hd. lia. }
  do 3 (split; [done|]). exists c', (mem_remove_ucontact (id c) (contacts r)).
  split; [by apply mem_update_bound|]. split; [by symmetry|done].
Qed.

Lemma api_delete_ucontact w r c :
  world_ok w -> get_urecord (aor r) (w_dom w) = Some r -> In c (contacts r) ->
  returns ('(r', s) ← delete_ucontact cfg (db_ok db w) c r (w_st w);
           Ret (r', step_w (put_record r' (w_dom w)) s w)) (fun '(r', w') =>
    world_ok w' /\ aor r' = aor r /\
    (forall x, get_urecord x (w_dom w') = if decide (x = aor r) then Some r' else get_urecord x (w_dom w)) /\
    deleted c (contacts r) (contacts r')).
Proof.
  intros W G Hin. destruct (world_record w (aor r) r W G) as (Hr & _ & R & Ha & Bw).
  destruct (delete_keeps cfg (db_ok db w) c r (w_st w) R Ha Hin) as ([r' s] & E & K & _). simpl in K.
  pose proof (delete_shape cfg (db_ok db w) c r (w_st w) (r_ids _ R) Hin _ E) as D. simpl in D.
  rewrite E. run. apply returns_ret. destruct (world_put w r r' s W Hr K) as (W1 & Ea & G1); [|by auto].
  destruct D as (rest & Q & D). intros d Hd.
  assert (Hd' : In (id d) (map id (contacts r))).
  { rewrite Q. destruct D as [D|(c' & D & Ei & _)]; apply (Permutation_in d D) in Hd; [right; by apply in_map|].
    destruct Hd as [<-|Hd]; [left; by symmetry|right; by apply in_map]. }
  apply in_map_iff in Hd' as (e & <- & He). apply Bw in He. lia.
Qed.

Lemma api_store w r c f :
  world_ok w -> get_urecord (aor r) (w_dom w) = Some r -> In c (contacts r) ->
  let r' := set_contacts (put_contact (set_c_flags f c) (contacts r)) r in
  world_ok (step_w (put_record r' (w_dom w)) (w_st w) w) /\
  forall x, get_urecord x (put_record r' (w_dom w)) =
    if decide (x = aor r) then Some r' else get_urecord x (w_dom w).
Proof.
  intros W G Hin r'. destruct (world_record w (aor r) r W G) as (Hr & _ & R & Ha & Bw).
  destruct (world_put w r r' (w_st w) W Hr) as (W1 & Ea & G1); [by apply keeps_put| |by auto].
  intros d Hd. assert (Hd' : In (id d) (map id (contacts r))).
  { unfold r' in Hd. simpl in Hd. rewrite <- (put_contact_ids (set_c_flags f c)). by apply in_map. }
  apply in_map_iff in Hd' as (e & <- & He). apply Bw in He. lia.
Qed.

#[export] Instance domain_laws : @UsrlocLaws world (domain_api cfg mem upd db).
Proof.
  refine {| ul_ok := world_ok; ul_aor_ok := fun ar => is_Some (split_aor cfg ar);
            ul_mem := forall n, mem n = true |}; simpl.
  - intros w ar M W G. unfold insert_urecord, alloc. by rewrite decide_False, M by done.
  - intros w r u ci M. unfold insert_ucontact, mem_insert_ucontact, alloc. rewrite M. simpl.
    destruct (writes_now (db_mode cfg)); [|done]. destruct (db_insert_ucontact _ _ _ _ _) as [rc s2].
    by destruct (rc <? 0).
  - intros w ar r W G. destruct (world_record w ar r W G) as (_ & Ea & R & _). split; [done|apply R].
  - intros w ar W Ha G. pose proof (api_insert_urecord w ar W Ha G) as X.
    by destruct (insert_urecord cfg (alloc mem w) ar (w_dom w) (w_st w)) as [[o d] s].
  - exact api_delete_urecord.
  - intros w r W G. pose proof (world_release (w_dom w) (w_st w) r (wk_inv _ W) G) as X.
    destruct (release_urecord cfg r (w_dom w) (w_st w)) as [d s]. destruct X as (I & Hi & X).
    split; [|done]. constructor; [done|]. intros x Hx. simpl in *. by apply below_weaken, (wk_next _ W), Hi.
  - exact api_get_ucontact.
  - intros w r u ci W G Hp. pose proof (api_insert_ucontact w r u ci W G Hp) as X.
    by destruct (insert_ucontact cfg _ _ u ci r (w_st w)) as [[[rc o] r'] s].
  - exact api_update_ucontact.
  - exact api_delete_ucontact.
  - exact api_store.
Defined.

End Laws.

End UlApi.
