(* ===== verification/UlTable.v ===== *)
(** * User location: the table of the database and the contacts in memory

    The rows that the contacts of a domain stand for are its image.  A pass of the timer
    of a domain writes the image of what is left ([udomain.c], [mem_timer_udomain]); the
    loading at start ([udomain.c], [preload_udomain]) builds a domain whose image is the
    table. *)

From Stdlib Require Import ZArith Lia List String Ascii Bool Permutation Sorted.
From stdpp Require Import base tactics option list.
From S2P Require Import Prelude Ut QValue HashFunc Ucontact Udomain.

Module UlTable.
Import Ut HashFunc Ucontact Udomain.

(** ** Addresses of record and columns *)

Definition is_bytes (s : bytes) : Prop := Forall (fun x => is_byte x = true) s.

Lemma byte_is_at x : is_byte x = true -> (s8 x =? u8 AT) = (x =? AT).
Proof.
  unfold is_byte, s8, u8, AT. intros H. bool_to_prop. change (64 mod 2 ^ 8) with 64. 
  destruct (Z.eqb_spec x 64) as [->|]; [done|]. apply Z.eqb_neq. change (2 ^ 7) with 128.
  change (2 ^ 8) with 256. Z.to_euclidean_division_equations. lia.
Qed.

Lemma memchr_found p i :
  is_bytes p -> q_memchr p AT = Some i -> p = take i p ++ AT :: drop (S i) p.
Proof.
  revert i. induction p as [|x p IH]; intros i Hb; simpl; [done|].
  apply Forall_cons in Hb as [Hx Hb]. rewrite byte_is_at by done. destruct (Z.eqb_spec x AT) as [->|].
  - intros [= <-]. done.
  - destruct (q_memchr p AT) as [j|] eqn:E; [|done]. intros [= <-]. simpl. f_equal. by apply IH.
Qed.

Lemma memchr_first u v : is_bytes u -> ~ In AT u -> q_memchr (u ++ AT :: v) AT = Some (length u).
Proof.
  induction u as [|x u IH]; intros Hb N; simpl; [done|].
  apply Forall_cons in Hb as [Hx Hb]. rewrite byte_is_at by done.
  rewrite (proj2 (Z.eqb_neq x AT)) by (intros ->; apply N; by left).
  rewrite IH; [done|done|]. intros Hin. apply N. by right.
Qed.

(** The columns determine the address of record. *)
Lemma insert_user_inj cfg a b :
  is_bytes a -> is_bytes b -> is_Some (split_aor cfg a) -> is_Some (split_aor cfg b) ->
  insert_user cfg a = insert_user cfg b -> a = b.
Proof.
  intros Ba Bb [x Hx] [y Hy]. unfold insert_user. rewrite Hx, Hy. simpl. intros ->.
  unfold split_aor in *. destruct (use_domain cfg); [|congruence].
  destruct (q_memchr a AT) as [i|] eqn:Ea, (q_memchr b AT) as [j|] eqn:Eb; try done.
  rewrite (memchr_found a i Ba Ea), (memchr_found b j Bb Eb). congruence.
Qed.

#[export] Instance own_dec cfg a k : Decision (own cfg a k).
Proof. unfold own. apply _. Defined.

(** ** What an operation leaves untouched *)

Section Frame.
Context (cfg : ul_config).

Definition untouched (a : bytes) (s s' : ul_st) : Prop :=
  forall k, ~ own cfg a k -> rows_at k s' = rows_at k s.

Lemma untouched_trans a s s1 s2 : untouched a s s1 -> untouched a s1 s2 -> untouched a s s2.
Proof. intros U1 U2 k Hk. by rewrite (U2 k Hk), (U1 k Hk). Qed.

Context (a : bytes) (Ha : is_Some (split_aor cfg a)).

Lemma key_not_own c k : ~ own cfg a k -> k <> key_of cfg a c.
Proof. intros N ->. apply N, own_key. Qed.

Lemma insert_untouched ok c s : untouched a s (db_insert_ucontact cfg ok a c s).2.
Proof.
  destruct (mem_only c) eqn:M; [unfold db_insert_ucontact; by rewrite M|].
  destruct ok; [|unfold db_insert_ucontact; by rewrite M]. rewrite insert_rows by done.
  intros k Hk. simpl. rewrite rows_at_insert, decide_False, app_nil_r; [done|].
  intros E. by apply (key_not_own c k Hk).
Qed.

Lemma update_untouched ok c s : may_return (db_update_ucontact cfg ok a c s) (fun x => untouched a s x.2).
Proof.
  unfold db_update_ucontact. rewrite db_key_of_ok by done. case_match; [by apply may_ret|].
  destruct ok; apply may_ret; [|done]. intros k Hk. simpl.
  rewrite rows_at_update, decide_False; [done|]. by apply key_not_own.
Qed.

Lemma delete_untouched ok c s : may_return (db_delete_ucontact cfg ok a c s) (fun x => untouched a s x.2).
Proof.
  unfold db_delete_ucontact. rewrite db_key_of_ok by done. case_match; [by apply may_ret|].
  destruct ok; apply may_ret; [|done]. intros k Hk. simpl.
  rewrite rows_at_delete, decide_False; [done|]. by apply key_not_own.
Qed.

End Frame.

Lemma wb_one_untouched cfg ok now c r s :
  is_Some (split_aor cfg (aor r)) ->
  may_return (wb_one cfg ok now c r s) (fun x => untouched cfg (aor r) s x.2 /\ aor x.1 = aor r).
Proof.
  intros Ha. unfold wb_one. destruct (VALID_CONTACT c now).
  - unfold st_flush_ucontact. destruct (state c); cbn [Z.eqb Pos.eqb].
    + pose proof (insert_untouched cfg (aor r) (ok (id c)) (set_state CS_SYNC c) s) as D.
      destruct (db_insert_ucontact _ _ _ _ _) as [rc s0]. apply may_ret. split; [done|]. by case_match.
    + by apply may_ret.
    + eapply may_bind; [by apply update_untouched|]. intros [rc s0] D. apply may_ret.
      split; [done|]. by case_match.
  - eapply may_bind with (Q := untouched cfg (aor r) s).
    + case_match; [|by apply may_ret]. eapply may_bind; [by apply delete_untouched|].
      intros [rc s0] D. by apply may_ret.
    + intros s0 D. apply may_ret. split; [|done]. intros k Hk. rewrite <- (D k Hk).
      by apply rows_at_eq, slot_stat_rows.
Qed.

Lemma wb_loop_untouched cfg ok now todo r s :
  is_Some (split_aor cfg (aor r)) ->
  may_return (wb_loop cfg ok now todo r s) (fun x => untouched cfg (aor r) s x.2).
Proof.
  revert r s. induction todo as [|c todo IH]; intros r s Ha; [by apply may_ret|].
  rewrite wb_loop_cons. eapply may_bind; [by apply wb_one_untouched|]. intros [r1 s1] [U Ea]. simpl in *.
  eapply may_impl; [apply IH; by rewrite Ea|]. intros x U2. rewrite Ea in U2. by eapply untouched_trans.
Qed.

(** ** The image of a domain *)

Section Image.
Context (cfg : ul_config).

Definition row_of (a : bytes) (c : ucontact) : row := (key_of cfg a c, vals_of c).
Definition image (l : list urecord) : list row := flat_map (fun r => map (row_of (aor r)) (contacts r)) l.

Lemma in_image x l :
  In x (image l) <-> exists r c, In r l /\ In c (contacts r) /\ x = row_of (aor r) c.
Proof.
  unfold image. rewrite in_flat_map. split.
  - intros (r & Hr & Hx). apply in_map_iff in Hx as (c & <- & Hc). by exists r, c.
  - intros (r & c & Hr & Hc & ->). exists r. split; [done|]. by apply in_map.
Qed.

Lemma image_app l l' : image (l ++ l') = image l ++ image l'.
Proof. apply flat_map_app. Qed.

#[export] Instance image_perm : Proper (Permutation ==> Permutation) image.
Proof. intros l l' P. by apply Permutation_flat_map. Qed.

Definition aor_wf (a : bytes) : Prop := is_bytes a /\ is_Some (split_aor cfg a).

Lemma own_inj a b k : aor_wf a -> aor_wf b -> own cfg a k -> own cfg b k -> a = b.
Proof.
  intros [Ba Sa] [Bb Sb] Oa Ob. apply (insert_user_inj cfg); [done|done|done|done|].
  unfold own in *. congruence.
Qed.

Lemma in_rows_at x s : In x (rows s) <-> In x (rows_at x.1 s).
Proof.
  unfold rows_at. rewrite <- !list_elem_of_In, list_elem_of_filter. tauto.
Qed.

Lemma in_rows_eq x s s' : rows_at x.1 s' = rows_at x.1 s -> In x (rows s') <-> In x (rows s).
Proof. intros E. by rewrite (in_rows_at x s'), E, <- in_rows_at. Qed.

Lemma agrees_frame r s s' :
  (forall k, own cfg (aor r) k -> rows_at k s' = rows_at k s) -> agrees cfg r s -> agrees cfg r s'.
Proof.
  intros E [A1 A2 A3 A4]. constructor; [done|done| |].
  - intros c Hc. apply (contact_agrees_rows cfg (aor r) s); [|by apply A3]. apply E, own_key.
  - intros x Hx Ho. apply A4; [|done]. by apply (in_rows_eq x s s'); [apply E|].
Qed.

(** What the timer does to a list of records. *)
Record flushes (now : Z) (L : list urecord) (s : ul_st) (L' : list urecord) (s' : ul_st) : Prop := {
  f_agree : forall r, In r L' -> agrees cfg r s';
  f_sub : forall r, In r L' -> In (aor r) (map aor L);
  f_sync : forall r c, In r L' -> In c (contacts r) -> VALID_CONTACT c now = true /\ state c = CS_SYNC;
  f_frame : forall k, (forall r, In r L -> ~ own cfg (aor r) k) -> rows_at k s' = rows_at k s;
  f_rows : forall x r, In r L -> own cfg (aor r) x.1 -> In x (rows s') <-> In x (image L');
  f_kept : forall a i, (exists r, In r L' /\ aor r = a /\ In i (map id (contacts r))) <->
    exists r c, In r L /\ aor r = a /\ In c (contacts r) /\ id c = i /\ VALID_CONTACT c now = true
}.

Lemma flushes_nil now s : flushes now [] s [] s.
Proof. constructor; simpl; try done. intros a i. split; [by intros (? & [] & _)|by intros (? & ? & [] & _)]. Qed.

Lemma image_own r c : own cfg (aor r) (row_of (aor r) c).1.
Proof. apply own_key. Qed.

(** The keys of one list are not those of another. *)
Lemma disjoint_keys L1 L2 r k :
  (forall r, In r (L1 ++ L2) -> aor_wf (aor r)) -> NoDup (map aor (L1 ++ L2)) ->
  In r L1 -> own cfg (aor r) k -> forall x, In (aor x) (map aor L2) -> ~ own cfg (aor x) k.
Proof.
  intros W N Hr Ho x Hx Ox. apply in_map_iff in Hx as (y & Ey & Hy).
  assert (E : aor r = aor y).
  { apply (own_inj (aor r) (aor y) k); [apply W, in_app_iff; auto|apply W, in_app_iff; auto|done|by rewrite Ey]. }
  rewrite map_app in N. apply NoDup_app in N as (_ & N & _).
  apply (N (aor r)); [by apply list_elem_of_In, in_map|]. rewrite E. by apply list_elem_of_In, in_map.
Qed.

Lemma flushes_app now L1 L2 s s1 s2 L1' L2' :
  (forall r, In r (L1 ++ L2) -> aor_wf (aor r)) -> NoDup (map aor (L1 ++ L2)) ->
  flushes now L1 s L1' s1 -> flushes now L2 s1 L2' s2 -> flushes now (L1 ++ L2) s (L1' ++ L2') s2.
Proof.
  intros W N F1 F2.
  assert (D1 : forall r k, In (aor r) (map aor L1) -> own cfg (aor r) k -> rows_at k s2 = rows_at k s1).
  { intros r k Hr Ho. apply (f_frame _ _ _ _ _ F2). intros x Hx.
    apply in_map_iff in Hr as (y & Ey & Hy). rewrite <- Ey in Ho.
    apply (disjoint_keys L1 L2 y k W N Hy Ho). by apply in_map. }
  assert (W' : forall r, In r (L2 ++ L1) -> aor_wf (aor r)) by (intros r; rewrite in_app_iff; intros; apply W, in_app_iff; tauto).
  assert (N' : NoDup (map aor (L2 ++ L1))) by (by rewrite Permutation_app_comm).
  constructor.
  - intros r Hr. apply in_app_iff in Hr as [Hr|Hr]; [|by apply F2].
    apply (agrees_frame r s1); [|by apply F1]. intros k Ho. apply (D1 r); [by apply F1|done].
  - intros r Hr. rewrite map_app, in_app_iff. apply in_app_iff in Hr as [Hr|Hr]; [left; by apply F1|right; by apply F2].
  - intros r c Hr. apply in_app_iff in Hr as [Hr|Hr]; [by apply F1|by apply F2].
  - intros k Hk. rewrite (f_frame _ _ _ _ _ F2), (f_frame _ _ _ _ _ F1); [done|..];
      intros r Hr; apply Hk, in_app_iff; auto.
  - intros x r Hr Ho. rewrite image_app, in_app_iff. apply in_app_iff in Hr as [Hr|Hr].
    + rewrite (in_rows_eq x s1 s2), (f_rows _ _ _ _ _ F1 x r) by (done || by apply (D1 r); [apply in_map|]).
      split; [by left|]. intros [|Hx]; [done|exfalso]. apply in_image in Hx as (y & c & Hy & Hc & ->).
      apply (disjoint_keys L1 L2 r _ W N Hr Ho y); [by apply F2|apply image_own].
    + rewrite (f_rows _ _ _ _ _ F2 x r) by done. split; [by right|]. intros [Hx|]; [exfalso|done].
      apply in_image in Hx as (y & c & Hy & Hc & ->).
      apply (disjoint_keys L2 L1 r _ W' N' Hr Ho y); [by apply F1|apply image_own].
  - intros a i. pose proof (f_kept _ _ _ _ _ F1 a i) as K1. pose proof (f_kept _ _ _ _ _ F2 a i) as K2.
    split.
    + intros (r & Hr & Ea & Hi). apply in_app_iff in Hr as [Hr|Hr].
      * destruct (proj1 K1) as (y & c & Hy & X); [by exists r|]. exists y, c. rewrite in_app_iff. tauto.
      * destruct (proj1 K2) as (y & c & Hy & X); [by exists r|]. exists y, c. rewrite in_app_iff. tauto.
    + intros (r & c & Hr & X). apply in_app_iff in Hr as [Hr|Hr].
      * destruct (proj2 K1) as (y & Hy & Z); [by exists r, c|]. exists y. rewrite in_app_iff. tauto.
      * destruct (proj2 K2) as (y & Hy & Z); [by exists r, c|]. exists y. rewrite in_app_iff. tauto.
Qed.

End Image.

Lemma flushes_rows cfg now L s L' s1 s2 :
  rows s2 = rows s1 -> flushes cfg now L s L' s1 -> flushes cfg now L s L' s2.
Proof.
  intros E [F1 F2 F3 F4 F5 F6]. constructor; [|done|done| | |done].
  - intros r Hr. by apply (agrees_rows cfg r s1), F1.
  - intros k Hk. rewrite <- (F4 k Hk). by apply rows_at_eq.
  - intros x r. rewrite E. apply F5.
Qed.

(** ** The timer of a domain *)

Section Timer.
Context (cfg : ul_config) (now : Z).
Context (Hm : db_mode cfg = WRITE_BACK \/ db_mode cfg = WRITE_THROUGH) (Hnow : UL_EXPIRED_TIME <= now).

Abbreviation all_ok := (fun _ : Z => true).

Lemma timer_one r s :
  agrees cfg r s -> aor_wf cfg (aor r) ->
  returns (timer_urecord cfg all_ok now r s) (fun x =>
    aor x.1 = aor r /\ flushes cfg now [r] s [x.1] x.2).
Proof.
  intros A [Hb Ha].
  assert (E : timer_urecord cfg all_ok now r s = wb_timer cfg all_ok now r s)
    by (unfold timer_urecord; destruct Hm as [-> | ->]; done).
  rewrite E. destruct (wb_timer_ok cfg r s now A Ha Hnow) as (r' & s' & E' & A' & Ea & F & K & R).
  exists (r', s'). split; [done|]. split; [done|].
  pose proof (wb_loop_untouched cfg all_ok now (contacts r) r s Ha (r', s') E') as U. simpl in *.
  constructor; simpl.
  - by intros x [<-|[]].
  - intros x [<-|[]]. by left.
  - intros x c [<-|[]]. apply F.
  - intros k Hk. apply U, Hk. by left.
  - intros x y [<-|[]] Ho. rewrite (R x Ho), app_nil_r. by rewrite Ea.
  - intros a i. split.
    + intros (x & [<-|[]] & <- & Hi). apply K in Hi as (c & Hc & Ei & V). exists r, c. auto.
    + intros (x & c & [<-|[]] & <- & Hc & <- & V). exists r'. split; [auto|]. split; [done|].
      apply K. by exists c.
Qed.

(** Dropping a record with no contacts. *)
Lemma flushes_drop L s L' r s' :
  contacts r = [] -> flushes cfg now L s (r :: L') s' -> flushes cfg now L s L' s'.
Proof.
  intros Ec [F1 F2 F3 F4 F5 F6]. constructor; [simpl in *; auto|simpl in *; auto| |done| |].
  - intros x c Hx. apply F3. by right.
  - intros x y Hy Ho. rewrite (F5 x y Hy Ho). simpl. by rewrite Ec.
  - intros a i. rewrite <- (F6 a i). split.
    + intros (x & Hx & R). exists x. split; [by right|done].
    + intros (x & [<-|Hx] & Ea & Hi); [by rewrite Ec in Hi|]. by exists x.
Qed.

(** The other records see nothing of a flush. *)
Lemma flushes_others L1 L2 s L1' s1 r :
  (forall r, In r (L1 ++ L2) -> aor_wf cfg (aor r)) -> NoDup (map aor (L1 ++ L2)) ->
  flushes cfg now L1 s L1' s1 -> In r L2 -> agrees cfg r s -> agrees cfg r s1.
Proof.
  intros W N F Hr. apply agrees_frame. intros k Ho. apply (f_frame _ _ _ _ _ _ F).
  intros x Hx Ox. by apply (disjoint_keys cfg L1 L2 x k W N Hx Ox r); [apply in_map|].
Qed.

Definition ready (L : list urecord) (s : ul_st) : Prop :=
  (forall r, In r L -> aor_wf cfg (aor r) /\ agrees cfg r s) /\ NoDup (map aor L).

Lemma ready_app L1 L2 s :
  ready (L1 ++ L2) s -> (forall r, In r (L1 ++ L2) -> aor_wf cfg (aor r)) /\ NoDup (map aor (L1 ++ L2)) /\
  ready L1 s /\ (forall L1' s1, flushes cfg now L1 s L1' s1 -> ready L2 s1).
Proof.
  intros [W N]. split; [intros r Hr; by apply W|]. split; [done|]. pose proof N as N0.
  rewrite map_app in N. apply NoDup_app in N as (N1 & _ & N2). split.
  - split; [|done]. intros r Hr. apply W, in_app_iff. by left.
  - intros L1' s1 F. split; [|done]. intros r Hr. split; [apply W, in_app_iff; by right|].
    eapply (flushes_others L1 L2); [by apply W|done|done|done|]. apply W, in_app_iff. by right.
Qed.

Lemma timer_slot_flushes sl s :
  ready sl s -> returns (timer_slot cfg all_ok now sl s) (fun x => flushes cfg now sl s x.1 x.2).
Proof.
  revert s. induction sl as [|r sl IH]; intros s Hr; simpl; [by apply returns_ret, flushes_nil|].
  destruct (ready_app [r] sl s Hr) as (W & N & R1 & R2).
  eapply returns_bind; [by apply timer_one; apply R1; left|]. intros [r1 s1] [Ea F]. simpl in Ea, F.
  assert (Keep : returns ('(sl', s) ← timer_slot cfg all_ok now sl s1; Ret (r1 :: sl', s))
    (fun x => flushes cfg now (r :: sl) s x.1 x.2)).
  { eapply returns_bind; [apply (IH s1), (R2 _ _ F)|]. intros [sl2 s2] F2. apply returns_ret.
    by apply (flushes_app cfg now [r] sl s s1 s2 [r1] sl2). }
  destruct (contacts r1) eqn:Ec; [destruct (watchers r1)|]; [|done|done].
  assert (F' : flushes cfg now [r] s [r1] (add_users (-1) s1)) by by apply (flushes_rows _ _ _ _ _ s1).
  eapply returns_impl; [apply (IH (add_users (-1) s1)), (R2 _ _ F')|]. intros [sl2 s2] F2.
  eapply (flushes_drop _ _ _ r1); [done|]. by apply (flushes_app cfg now [r] sl s (add_users (-1) s1) s2 [r1] sl2).
Qed.

Lemma mem_timer_flushes d s :
  ready (records d) s ->
  returns (mem_timer_udomain cfg all_ok now d s) (fun x => flushes cfg now (records d) s (records x.1) x.2).
Proof.
  revert s. induction d as [|sl d IH]; intros s Hr; simpl; [by apply returns_ret, flushes_nil|].
  unfold records in *. simpl in *. destruct (ready_app sl (concat d) s Hr) as (W & N & R1 & R2).
  eapply returns_bind; [by apply timer_slot_flushes|]. intros [sl1 s1] F1. simpl in F1.
  eapply returns_bind; [apply (IH s1), (R2 _ _ F1)|]. intros [d2 s2] F2. apply returns_ret. simpl in *.
  by apply (flushes_app cfg now sl (concat d) s s1 s2).
Qed.

End Timer.

(** ** Loading the table *)

(** The columns that are selected of a row. *)
Definition sel_of (x : row) : db_sel :=
  let '(k, v) := x in
  Sel (Some (k_user k)) (k_domain k) (Some (k_contact k)) (Some (v_expires v)) (Some (v_q v))
    (Some (k_callid k)) (Some (v_cseq v)) (Some (v_flags v)) (Some (v_cflags v)) (Some (v_user_agent v))
    (v_received v) (v_path v) (v_sock v) (v_methods v) (Some (v_last_modified v)).

Definition no_nul (s : bytes) : Prop := ~ In 0 s.
Definition text_ok (s : bytes) : Prop := s <> [] /\ no_nul s.

Lemma text_some s : text_ok s -> text (Some s) = Some s.
Proof.
  intros [Ne N]. unfold text. cbn [mbind option_bind]. rewrite c_string_id by done. by destruct s.
Qed.

Lemma text_default s : no_nul s -> default [] (text (Some s)) = s.
Proof.
  intros N. unfold text. cbn [mbind option_bind]. rewrite c_string_id by done. by destruct s.
Qed.

Lemma text_opt o : (forall s, o = Some s -> text_ok s) -> non_empty (default [] (text o)) = o.
Proof.
  intros H. destruct o as [s|]; [|done]. pose proof (H s eq_refl) as T. rewrite text_some by done.
  destruct T as [Ne _]. by destruct s.
Qed.

#[local] Arguments text : simpl never.

Section Preload.
Context (cfg : ul_config) (grep_sock : Z -> option Z).

(** The rows that the module writes and can read back. *)
Record row_wf (x : row) : Prop := {
  w_user : text_ok (k_user x.1) /\ is_bytes (k_user x.1);
  w_domain : if use_domain cfg
    then ~ In AT (k_user x.1) /\ exists dm, k_domain x.1 = Some dm /\ text_ok dm /\ is_bytes dm /\
           Z.of_nat (length (k_user x.1 ++ [AT] ++ dm)) < MAX_URI_SIZE
    else k_domain x.1 = None;
  w_contact : text_ok (k_contact x.1);
  w_callid : text_ok (k_callid x.1);
  w_q : exists q, -1 <= q <= 1000 /\ v_q x.2 = QValue.q2double q;
  w_flags : Z.land (v_flags x.2) FL_MEM = 0;
  w_ua : no_nul (v_user_agent x.2);
  w_received : forall s, v_received x.2 = Some s -> text_ok s;
  w_path : forall s, v_path x.2 = Some s -> text_ok s;
  w_sock : forall n, v_sock x.2 = Some n -> n <> 0 /\ grep_sock n = Some n;
  w_methods : v_methods x.2 <> Some ALL_METHODS
}.

Definition aor_of (k : db_key) : bytes :=
  if use_domain cfg then k_user k ++ [AT] ++ default [] (k_domain k) else k_user k.

Lemma aor_of_wf x : row_wf x -> aor_wf cfg (aor_of x.1).
Proof.
  intros W. destruct (w_user _ W) as [_ Hu]. pose proof (w_domain _ W) as Hd. unfold aor_of, aor_wf, split_aor.
  destruct (use_domain cfg); [|by eauto]. destruct Hd as (Na & dm & E & _ & Hb & _). rewrite E. simpl.
  rewrite memchr_first by done. split; [|by eauto]. apply Forall_app. split; [done|]. by constructor.
Qed.

(** The row is at the key of its address of record. *)
Lemma aor_of_key x c :
  row_wf x -> uri c = k_contact x.1 -> callid c = k_callid x.1 -> key_of cfg (aor_of x.1) c = x.1.
Proof.
  intros W E1 E2. destruct (w_user _ W) as [_ Hu]. pose proof (w_domain _ W) as Hd.
  unfold key_of, insert_user, aor_of, split_aor. rewrite E1, E2. destruct x as [[u od ct cid] v]. simpl in *.
  destruct (use_domain cfg); [|by rewrite Hd]. destruct Hd as (Na & dm & -> & _). simpl.
  rewrite memchr_first by done. simpl. rewrite take_app_length. f_equal. f_equal.
  by rewrite (drop_app_ge u) , Nat.sub_succ_l, Nat.sub_diag by lia.
Qed.

Lemma row_aor_of x : row_wf x -> row_aor cfg (sel_of x) = Ret (Some (aor_of x.1)).
Proof.
  intros W. destruct (w_user _ W) as [Hu _]. pose proof (w_domain _ W) as Hd.
  destruct x as [k v]. unfold row_aor, aor_of. simpl in *. rewrite text_some by done.
  destruct (use_domain cfg); [|done]. destruct Hd as (_ & dm & -> & Ht & _ & L). rewrite text_some by done.
  simpl in *. rewrite (proj2 (Z.leb_gt _ _)) by done. done.
Qed.

(** The contact read back from its row. *)
Lemma read_back x i :
  row_wf x -> exists ci c, dbrow2info grep_sock (sel_of x) = Some (k_contact x.1, ci) /\
    new_ucontact (Some i) (k_contact x.1) ci = Some c /\ id c = i /\ uri c = k_contact x.1 /\
    callid c = k_callid x.1 /\ vals_of c = x.2.
Proof.
  intros W. destruct x as [k v]. unfold dbrow2info. simpl.
  rewrite (text_some (k_contact k)) by apply W. cbn [mbind option_bind].
  rewrite (text_some (k_callid k)) by apply W. cbn [mbind option_bind].
  assert (Es : exists sk, match v_sock v with None => Some 0 | Some n => grep_sock n end = Some sk /\
    (if sk =? 0 then None else Some sk) = v_sock v).
  { pose proof (w_sock _ W) as H. simpl in H. destruct (v_sock v) as [n|]; [|by exists 0].
    destruct (H n eq_refl) as [Hn ->]. exists n. by rewrite (proj2 (Z.eqb_neq n 0)). }
  destruct Es as (sk & -> & Esk). cbn [mbind option_bind].
  eexists _, _. split; [done|]. split; [done|]. split; [done|]. split; [done|]. split; [done|].
  unfold vals_of. simpl. rewrite Esk, text_default, !text_opt by apply W.
  replace (QValue.q2double (QValue.double2q (v_q v))) with (v_q v).
  2: { destruct (w_q _ W) as (q & Hq & Eq). simpl in Eq. by rewrite Eq, QValue.double_q_roundtrip. }
  pose proof (w_methods _ W) as Hm. simpl in Hm. destruct v as [e q cs fl cfl ua rcv pt so me lm]; simpl in *.
  destruct me as [m|]; simpl; [|done]. by rewrite (proj2 (Z.eqb_neq m ALL_METHODS)) by congruence.
Qed.

Definition all_contacts (l : list urecord) : list ucontact := flat_map contacts l.

#[export] Instance all_contacts_perm : Proper (Permutation ==> Permutation) all_contacts.
Proof. intros l l' P. by apply Permutation_flat_map. Qed.

Lemma in_all_contacts c l : In c (all_contacts l) <-> exists r, In r l /\ In c (contacts r).
Proof. apply in_flat_map. Qed.

Lemma put_contact_notin c l : ~ In (id c) (map id l) -> put_contact c l = l.
Proof.
  induction l as [|d l IH]; simpl; intros N; [done|].
  rewrite (proj2 (Z.eqb_neq _ _)) by (intros E; apply N; auto). f_equal. apply IH. tauto.
Qed.

(** The contact of a row inserted and marked synchronised. *)
Lemma load_contact x i r s :
  row_wf x -> record_ok r -> ~ In i (map id (contacts r)) -> aor r = aor_of x.1 ->
  exists ci, dbrow2info grep_sock (sel_of x) = Some (k_contact x.1, ci) /\
    let '(o, r1, s1) := mem_insert_ucontact cfg (Some i) (k_contact x.1) ci r s in
    exists c, o = Some c /\ rows s1 = rows s /\
      let c' := set_state CS_SYNC c in let r2 := set_contacts (put_contact c' (contacts r1)) r1 in
      id c' = i /\ mem_only c' = false /\ row_of cfg (aor r) c' = x /\ keeps r s r2 s1 /\
      Permutation (contacts r2) (c' :: contacts r).
Proof.
  intros W R Ni Ea. destruct (read_back x i W) as (ci & c & D & N & Ei & Eu & Ek & Ev). exists ci. split; [done|].
  pose proof (mem_insert_keeps cfg i (k_contact x.1) ci r s R Ni) as K.
  unfold mem_insert_ucontact in *. rewrite N in *. exists c. split; [done|]. split; [apply slot_stat_rows|].
  cbv zeta. split; [done|]. split; [|split; [|split]].
  - pose proof (w_flags _ W) as F. unfold mem_only. rewrite <- Ev in F. simpl in *. by rewrite F.
  - unfold row_of. change (vals_of (set_state CS_SYNC c)) with (vals_of c).
    rewrite Ev, Ea, aor_of_key by done. by destruct x.
  - eapply rec_keeps_trans; [exact K|]. apply keeps_put. apply K.
  - simpl. rewrite (put_contact_perm _ _ _ (insert_list_perm cfg c (contacts r))).
    simpl. rewrite Z.eqb_refl. rewrite put_contact_notin; [done|]. simpl. by rewrite Ei.
Qed.

(** What a row adds to a domain. *)
Record added (x : row) (a i : Z) (d : udomain) (s : ul_st) (d' : udomain) (s' : ul_st) : Prop := {
  ad_inv : ul_inv cfg d' s';
  ad_rows : rows s' = rows s;
  ad_contact : exists c, id c = i /\ state c = CS_SYNC /\ mem_only c = false /\
    Permutation (all_contacts (records d')) (c :: all_contacts (records d));
  ad_image : Permutation (image cfg (records d')) (x :: image cfg (records d));
  ad_rids : incl (map rid (records d')) (a :: map rid (records d));
  ad_aors : incl (map aor (records d')) (aor_of x.1 :: map aor (records d))
}.

(** The record of an address of record, found or made. *)
Lemma record_for a ar d s :
  ul_inv cfg d s -> ~ In a (map rid (records d)) -> is_Some (split_aor cfg ar) ->
  let '(o, d1, s1) := match get_urecord ar d with
                      | Some r => (Some r, d, s)
                      | None => mem_insert_urecord (Some a) ar d s
                      end in
  exists r, o = Some r /\ aor r = ar /\ In r (records d1) /\ ul_inv cfg d1 s1 /\ rows s1 = rows s /\
    Permutation (all_contacts (records d1)) (all_contacts (records d)) /\
    Permutation (image cfg (records d1)) (image cfg (records d)) /\
    incl (map rid (records d1)) (a :: map rid (records d)) /\
    incl (map aor (records d1)) (ar :: map aor (records d)).
Proof.
  intros I N Ha. destruct (get_urecord ar d) as [r|] eqn:G.
  - apply (get_urecord_found d ar r (u_dom _ _ _ I)) in G as [Hr Ea]. exists r.
    do 7 (split; [done|]). split; by apply incl_tl, incl_refl.
  - pose proof (inv_mem_insert cfg d s I a ar G N Ha) as X.
    assert (Er : rows (mem_insert_urecord (Some a) ar d s).2 = rows s) by done.
    destruct (mem_insert_urecord (Some a) ar d s) as [[o d1] s1].
    destruct X as (r & -> & I1 & Ei & Ea & Ec & _ & P). exists r. split; [done|]. split; [done|].
    split; [rewrite P; by left|]. split; [done|]. split; [done|].
    split; [rewrite (all_contacts_perm _ _ P); simpl; by rewrite Ec|].
    split; [rewrite (image_perm cfg _ _ P); simpl; by rewrite Ec|].
    split; intros y Hy; [apply (Permutation_in y (Permutation_map rid P)) in Hy
      |apply (Permutation_in y (Permutation_map aor P)) in Hy]; by rewrite <- ?Ei, <- ?Ea.
Qed.

Lemma preload_row_ok x a i d s :
  row_wf x -> ul_inv cfg d s -> ~ In a (map rid (records d)) ->
  ~ In i (map id (all_contacts (records d))) ->
  returns (preload_row grep_sock cfg (sel_of x) (Some a, Some i) d s)
    (fun y => y.1.1 = 0 /\ added x a i d s y.1.2 y.2).
Proof.
  intros W I Na Ni. destruct (aor_of_wf x W) as [_ Sp].
  pose proof (record_for a (aor_of x.1) d s I Na Sp) as X.
  unfold preload_row. replace (text (s_user (sel_of x))) with (Some (k_user x.1))
    by (destruct x as [k v]; symmetry; apply text_some, (w_user _ W)).
  destruct (read_back x i W) as (ci & _ & D & _). rewrite D, row_aor_of by done. run. simpl fst. simpl snd.
  destruct (match get_urecord _ d with Some r => _ | None => _ end) as [[o d1] s1].
  destruct X as (r & -> & Ea & Hr & I1 & Er & P1 & P2 & P3 & P4). assert (R : record_ok r) by by apply I1.
  assert (Nr : ~ In i (map id (contacts r))).
  { intros Hin. apply Ni. apply in_map_iff in Hin as (c & <- & Hc). apply in_map.
    apply (Permutation_in c P1), in_all_contacts. by exists r. }
  destruct (load_contact x i r s1 W R Nr Ea) as (ci' & D' & L). rewrite D in D'. injection D' as <-.
  destruct (mem_insert_ucontact cfg (Some i) (k_contact x.1) ci r s1) as [[o r1] s2].
  destruct L as (c & -> & Er2 & Ei & Em & Ex & K & Pc). apply returns_ret. split; [done|]. simpl.
  set (r2 := set_contacts (put_contact (set_state CS_SYNC c) (contacts r1)) r1) in *.
  destruct (put_record_ok d1 r r2 (u_dom _ _ _ I1) Hr (k_ident _ _ _ _ K) (k_ok _ _ _ _ K)) as (_ & l & Q1 & Q2).
  assert (Hin : forall {B} (f : urecord -> B) y, f r2 = f r ->
    In y (map f (records (put_record r2 d1))) -> In y (map f (records d1))).
  { intros B f y E Hy. apply (Permutation_in y (Permutation_map f Q2)) in Hy.
    apply (Permutation_in y (Permutation_map f (Permutation_sym Q1))). simpl in *. by rewrite <- E. }
  pose proof (k_ident _ _ _ _ K) as E. injection E as E1 E2. constructor.
  - by apply (inv_put cfg d1 s1 I1 r).
  - congruence.
  - exists (set_state CS_SYNC c). split; [done|]. split; [done|]. split; [done|].
    rewrite <- P1, (all_contacts_perm _ _ Q1), (all_contacts_perm _ _ Q2). simpl.
    by apply (Permutation_app_tail (all_contacts l)) in Pc.
  - rewrite <- P2, (image_perm cfg _ _ Q1), (image_perm cfg _ _ Q2), <- Ex.
    apply (Permutation_map (row_of cfg (aor r))) in Pc. unfold image at 1. cbn [flat_map].
    replace (aor r2) with (aor r) by done. rewrite Pc. done.
  - intros y Hy. apply P3. by apply (Hin _ rid).
  - intros y Hy. apply P4. by apply (Hin _ aor).
Qed.

(** The whole table. *)
Lemma preload_ok L addrs d s :
  Forall row_wf L -> length addrs = length L -> ul_inv cfg d s ->
  NoDup (map fst addrs) -> NoDup (map snd addrs) ->
  (forall p, In p addrs -> ~ In p.1 (map rid (records d)) /\ ~ In p.2 (map id (all_contacts (records d)))) ->
  (forall c, In c (all_contacts (records d)) -> state c = CS_SYNC /\ mem_only c = false) ->
  (forall r, In r (records d) -> is_bytes (aor r)) ->
  returns (preload_udomain grep_sock cfg
      (zip (map sel_of L) (map (fun p : Z * Z => (Some p.1, Some p.2)) addrs)) d s)
    (fun y => y.1.1 = 0 /\ ul_inv cfg y.1.2 y.2 /\ rows y.2 = rows s /\
      Permutation (image cfg (records y.1.2)) (L ++ image cfg (records d)) /\
      (forall c, In c (all_contacts (records y.1.2)) -> state c = CS_SYNC /\ mem_only c = false) /\
      (forall r, In r (records y.1.2) -> is_bytes (aor r))).
Proof.
  revert addrs d s. induction L as [|x L IH]; intros [|[a i] addrs] d s W Hl I Na Ni Hf Hs Hb; try done.
  { by apply returns_ret. }
  simpl. apply Forall_cons in W as [Wx W]. simpl in Na, Ni.
  apply NoDup_cons in Na as [Na1 Na], Ni as [Ni1 Ni]. rewrite list_elem_of_In in Na1, Ni1.
  destruct (Hf (a, i)) as [Fa Fi]; [by left|].
  eapply returns_bind; [by apply (preload_row_ok x a i d s)|]. intros [[rc d1] s1] [E0 A]. simpl in E0, A.
  subst rc. cbn [Z.ltb Z.compare]. destruct A as [I1 Er (c & Ei & Es & Em & Pc) Pi Ir Ia].
  eapply returns_impl; [apply (IH addrs d1 s1)|]; try done.
  - by injection Hl.
  - intros p Hp. destruct (Hf p) as [Fp1 Fp2]; [by right|]. split.
    + intros Hin. destruct (Ir _ Hin) as [E|]; [|done]. apply Na1. rewrite E. by apply in_map.
    + intros Hin. apply (Permutation_in _ (Permutation_map id Pc)) in Hin as [E|]; [|done].
      apply Ni1. rewrite <- Ei, E. by apply in_map.
  - intros e He. apply (Permutation_in _ Pc) in He as [<-|He]; [done|by apply Hs].
  - intros r Hr. destruct (Ia (aor r)) as [<-|Hin]; [by apply in_map|by apply (aor_of_wf x Wx)|].
    apply in_map_iff in Hin as (r0 & <- & Hr0). by apply Hb.
  - intros [[rc d2] s2] (B1 & B2 & B3 & B4 & B5). simpl in *. split; [done|]. split; [done|].
    split; [congruence|]. split; [|done]. rewrite B4, Pi. solve_Permutation.
Qed.

End Preload.

(** ** Agreement from the image *)

Lemma only_row (l : list row) x : NoDup (map fst l) -> In x l -> filter (fun r : row => r.1 = x.1) l = [x].
Proof.
  induction l as [|y l IH]; simpl; [done|]. intros N [->|Hx]; apply NoDup_cons in N as [Ny N];
    rewrite filter_cons.
  - rewrite decide_True by done. f_equal. rewrite list_elem_of_In in Ny.
    destruct (filter _ l) as [|z k] eqn:E; [done|]. exfalso. apply Ny.
    assert (Hz : z ∈ filter (fun r : row => r.1 = x.1) l) by (rewrite E; by left).
    apply list_elem_of_filter in Hz as [<- Hz]. by apply in_map, list_elem_of_In.
  - rewrite decide_False; [by apply IH|]. intros E. apply Ny. rewrite E, list_elem_of_In. by apply in_map.
Qed.

Lemma image_agrees cfg d s :
  ul_inv cfg d s -> (forall r, In r (records d) -> is_bytes (aor r)) ->
  (forall c, In c (all_contacts (records d)) -> state c = CS_SYNC /\ mem_only c = false) ->
  NoDup (map fst (rows s)) -> Permutation (image cfg (records d)) (rows s) ->
  forall r, In r (records d) -> agrees cfg r s.
Proof.
  intros I Hb Hs N P r Hr. constructor.
  - by apply (u_dom _ _ _ I).
  - destruct (in_split r _ Hr) as (l1 & l2 & El). rewrite <- P, El, image_app in N. simpl in N.
    rewrite !map_app in N. apply NoDup_app in N as (_ & _ & N). apply NoDup_app in N as (N & _).
    by rewrite map_map in N.
  - intros c Hc. destruct (Hs c) as [Es Em]; [apply in_all_contacts; by exists r|].
    split; [done|]. rewrite Es. exists (vals_of c). split; [|by left].
    change (rows_at (row_of cfg (aor r) c).1 s = [row_of cfg (aor r) c]). apply only_row; [done|].
    apply (Permutation_in _ P), in_image. by exists r, c.
  - intros x Hx Ho. apply (Permutation_in _ (Permutation_sym P)), in_image in Hx as (r' & c & Hr' & Hc & ->).
    assert (E : aor r' = aor r).
    { apply (own_inj cfg _ _ (key_of cfg (aor r') c)); [split; [by apply Hb|by apply I]|split; [by apply Hb|by apply I]|apply own_key|done]. }
    rewrite (map_inj_In aor _ r' r (d_aors _ (u_dom _ _ _ I)) Hr' Hr E) in Hc. simpl. rewrite E. by apply in_map.
Qed.

(** With no other rows, the table is the image. *)
Lemma flushes_all cfg now L s L' s' :
  flushes cfg now L s L' s' -> (forall x, In x (rows s) -> exists r, In r L /\ own cfg (aor r) x.1) ->
  forall x, In x (rows s') <-> In x (image cfg L').
Proof.
  intros F O x. split.
  - intros Hx. assert (Ho : Exists (fun r => own cfg (aor r) x.1) L).
    { apply dec_stable. intros Ho. assert (Hx' : In x (rows s)).
      { apply (in_rows_eq x s s'); [|done]. apply (f_frame _ _ _ _ _ _ F). intros r Hr Ox. apply Ho.
        apply Exists_exists. exists r. by rewrite list_elem_of_In. }
      destruct (O x Hx') as (r & Hr & Ox). apply Ho, Exists_exists. exists r. by rewrite list_elem_of_In. }
    apply Exists_exists in Ho as (r & Hr & Ho). rewrite list_elem_of_In in Hr.
    by apply (f_rows _ _ _ _ _ _ F x r Hr Ho).
  - intros Hx. pose proof Hx as Hi. apply in_image in Hi as (r & c & Hr & Hc & ->).
    apply (f_sub _ _ _ _ _ _ F) in Hr as Ha. apply in_map_iff in Ha as (r0 & Ea & Hr0).
    apply (f_rows _ _ _ _ _ _ F _ r0 Hr0); [|done]. rewrite Ea. apply image_own.
Qed.

(** ** Main results *)

(** C4: In write-back or write-through mode, a pass of the timer over a domain whose records
    agree with the table, where every row of the table belongs to a record of the domain and the
    database accepts every operation of the pass, returns; it keeps exactly the contacts that
    have not expired, all synchronised, and leaves the table with exactly the rows of the
    contacts in memory. The agreement beforehand is what [operations_agree] keeps; it fails
    after an update of a contact whose insert the table has refused
    ([update_hides_failed_insert]). *)
Theorem timer_flushes_domain cfg d s now :
  ul_inv cfg d s -> db_mode cfg = WRITE_BACK \/ db_mode cfg = WRITE_THROUGH -> UL_EXPIRED_TIME <= now ->
  (forall r, In r (records d) -> is_bytes (aor r) /\ agrees cfg r s) ->
  (forall x, In x (rows s) -> exists r, In r (records d) /\ own cfg (aor r) x.1) ->
  exists d' s', mem_timer_udomain cfg (fun _ => true) now d s = Ret (d', s') /\ ul_inv cfg d' s' /\
    (forall r, In r (records d') -> agrees cfg r s') /\
    (forall x, In x (rows s') <-> In x (image cfg (records d'))) /\
    (forall r c, In r (records d') -> In c (contacts r) -> VALID_CONTACT c now = true /\ state c = CS_SYNC) /\
    (forall a i, (exists r, In r (records d') /\ aor r = a /\ In i (map id (contacts r))) <->
       exists r c, In r (records d) /\ aor r = a /\ In c (contacts r) /\ id c = i /\
         VALID_CONTACT c now = true).
Proof.
  intros I Hm Hn A O.
  assert (Hm' : db_mode cfg <> DB_ONLY) by (destruct Hm; congruence).
  destruct (inv_timer cfg (fun _ => true) now Hm' d s I) as ([d' s'] & E & I' & S & _).
  destruct (mem_timer_flushes cfg now Hm Hn d s) as (y & E' & F).
  { split; [|apply I]. intros r Hr. destruct (A r Hr). split; [|done]. split; [done|by apply I]. }
  rewrite E in E'. injection E' as <-. simpl in *. exists d', s'. split; [done|]. split; [done|].
  split; [apply F|]. split; [by apply (flushes_all cfg now (records d) s)|]. split; apply F.
Qed.

(** C5: loading, at start, a table of distinct rows such as the module writes into an empty
    domain succeeds; the contacts in memory are then exactly the rows, all of them marked
    synchronised, the statistics count them, and every record agrees with the table. *)
Theorem preload_restores cfg grep_sock n L addrs s :
  (0 < n)%nat -> rows s = L -> n_users s = 0 -> n_contacts s = 0 -> NoDup (map fst L) ->
  Forall (row_wf cfg grep_sock) L ->
  length addrs = length L -> NoDup (map fst addrs) -> NoDup (map snd addrs) ->
  exists d s', preload_udomain grep_sock cfg
      (zip (map sel_of L) (map (fun p : Z * Z => (Some p.1, Some p.2)) addrs)) (new_udomain n) s =
      Ret (0, d, s') /\
    ul_inv cfg d s' /\ rows s' = L /\ Permutation (image cfg (records d)) L /\
    (forall r c, In r (records d) -> In c (contacts r) -> state c = CS_SYNC) /\
    (forall r, In r (records d) -> agrees cfg r s').
Proof.
  intros Hn Er Hu Hc N W Hl N1 N2.
  assert (I : ul_inv cfg (new_udomain n) s).
  { pose proof (new_inv cfg n Hn) as [I _ _ _]. constructor; rewrite ?new_records; try done. }
  destruct (preload_ok cfg grep_sock L addrs (new_udomain n) s) as ([[rc d] s'] & E & X);
    try done; rewrite ?new_records; try done; [intros p _; split; by intros []|].
  simpl in X. destruct X as (-> & I' & Er' & P & Hs & Hb). rewrite new_records, app_nil_r in P.
  exists d, s'. split; [done|]. split; [done|]. split; [congruence|]. split; [done|]. split.
  - intros r c Hr Hc'. apply Hs, in_all_contacts. by exists r.
  - intros r Hr. apply (image_agrees cfg d s'); try done; by rewrite Er', Er.
Qed.

(** ** Instances *)

Definition demo_row (c : bytes) (e : Z) : row :=
  (Key (B "joe") (Some (B "x")) c (B "cid"), Vals e (QValue.q2double 500) 1 0 0 (B "ua") None None (Some 3) None 100).
Definition demo_table : list row := [demo_row (B "c1") 5000; demo_row (B "c2") 40].
Definition demo_addrs : list (Z * Z) := [(11, 21); (12, 22)].
Definition demo_start : ul_st := UlSt demo_table 0 0 0 [].

Definition demo_loaded : udomain * ul_st :=
  match preload_udomain Some (demo_cfg WRITE_BACK)
    (zip (map sel_of demo_table) (map (fun p : Z * Z => (Some p.1, Some p.2)) demo_addrs)) (new_udomain 4)
    demo_start with
  | Ret (_, d, s) => (d, s)
  | Fault _ => ([], demo_start)
  end.

Lemma demo_rows_wf : Forall (row_wf (demo_cfg WRITE_BACK) Some) demo_table.
Proof.
  assert (T : forall s, bool_decide (s <> [] /\ ~ 0 ∈ s) = true -> text_ok s).
  { intros s H. apply bool_decide_eq_true in H as [H1 H2]. split; [done|]. unfold no_nul. by rewrite <- list_elem_of_In. }
  assert (Y : forall s, forallb is_byte s = true -> is_bytes s).
  { intros s H. unfold is_bytes. apply Forall_forall. intros x Hx. rewrite forallb_forall in H.
    apply H. by apply list_elem_of_In. }
  assert (R : forall c e, text_ok c -> row_wf (demo_cfg WRITE_BACK) Some (demo_row c e)).
  { intros c e Hc. constructor; simpl; try done.
    - split; [by apply T|by apply Y].
    - split; [by intros [?|[?|[?|[]]]]|]. exists (B "x"). split; [done|]. split; [by apply T|].
      split; [by apply Y|done].
    - by apply T.
    - by exists 500.
    - by apply (T (B "ua")).
    - intros n [= <-]. done. }
  constructor; [by apply R, T|]. constructor; [by apply R, T|constructor].
Qed.

Lemma preload_restores_witness :
  exists d s', preload_udomain Some (demo_cfg WRITE_BACK)
      (zip (map sel_of demo_table) (map (fun p : Z * Z => (Some p.1, Some p.2)) demo_addrs)) (new_udomain 4)
      demo_start = Ret (0, d, s') /\
    Permutation (image (demo_cfg WRITE_BACK) (records d)) demo_table.
Proof.
  destruct (preload_restores (demo_cfg WRITE_BACK) Some 4 demo_table demo_addrs demo_start)
    as (d & s' & E & _ & _ & P & _).
  - lia.
  - done.
  - done.
  - done.
  - apply (bool_decide_unpack _). by vm_compute.
  - apply demo_rows_wf.
  - done.
  - apply (bool_decide_unpack _). by vm_compute.
  - apply (bool_decide_unpack _). by vm_compute.
  - exists d, s'. split; [exact E|exact P].
Defined.

(** The domain after the loading is well-formed and agrees with the table. *)
Lemma demo_loaded_ok :
  ul_inv (demo_cfg WRITE_BACK) demo_loaded.1 demo_loaded.2 /\
  (forall r, In r (records demo_loaded.1) -> is_bytes (aor r) /\ agrees (demo_cfg WRITE_BACK) r demo_loaded.2).
Proof.
  destruct (preload_ok (demo_cfg WRITE_BACK) Some demo_table demo_addrs (new_udomain 4) demo_start)
    as ([[rc d] s'] & E & X).
  - apply demo_rows_wf.
  - done.
  - pose proof (new_inv (demo_cfg WRITE_BACK) 4) as [I _ _ _]; [lia|]. by constructor.
  - apply (bool_decide_unpack _). by vm_compute.
  - apply (bool_decide_unpack _). by vm_compute.
  - intros p _. by split; intros [].
  - by intros c [].
  - by intros r [].
  - unfold demo_loaded. rewrite E. cbn [fst snd] in X |- *. destruct X as (_ & I & Er & P & Hs & Hb). split; [done|].
    intros r Hr. split; [by apply Hb|].
    apply (image_agrees _ d s'); try done; rewrite Er; [|done]. apply (bool_decide_unpack _). by vm_compute.
Qed.

Lemma timer_flushes_domain_witness :
  exists d' s', mem_timer_udomain (demo_cfg WRITE_BACK) (fun _ => true) 1000 demo_loaded.1 demo_loaded.2 =
      Ret (d', s') /\
    (forall x, In x (rows s') <-> In x (image (demo_cfg WRITE_BACK) (records d'))) /\
    rows s' = [demo_row (B "c1") 5000].
Proof.
  destruct (timer_flushes_domain (demo_cfg WRITE_BACK) demo_loaded.1 demo_loaded.2 1000)
    as (d' & s' & E & _ & _ & R & _).
  - apply demo_loaded_ok.
  - by left.
  - unfold UL_EXPIRED_TIME. lia.
  - apply demo_loaded_ok.
  - intros x Hx. assert (Hr : rows demo_loaded.2 = demo_table) by by vm_compute. rewrite Hr in Hx.
    exists (default demo_rec (get_urecord (B "joe@x") demo_loaded.1)). split.
    + vm_compute. by left.
    + destruct Hx as [<-|[<-|[]]]; by vm_compute.
  - exists d', s'. split; [exact E|]. split; [exact R|]. vm_compute in E. by injection E as <- <-.
Defined.

End UlTable.
