(* ===== verification/RegMsg.v ===== *)
(** * Registrar, the message: [src/modules/registrar/sip_msg.c], [common.c], [reply.c]

    What the registrar takes from a REGISTER request: its checks, the expiry and the q
    value of each contact ([sip_msg.c], with [src/parser/parse_expires.c]), the address of
    record ([common.c]), and the Contact header of the reply ([reply.c]).  The request is
    the record of what the parsers found: [None] is a header or parameter that is missing,
    or a header that does not parse. *)

From Stdlib Require Import ZArith Lia List String Ascii Bool.
From stdpp Require Import base tactics option list.
From S2P Require Import Prelude Ut QValue HashFunc Ucontact.

Module RegMsg.
Import Ut QValue Ucontact.

Inductive rerr : Set :=
| R_FINE | R_UL_DEL_R | R_UL_GET_R | R_UL_NEW_R | R_INV_CSEQ | R_UL_INS_C | R_UL_INS_R | R_UL_DEL_C
| R_UL_UPD_C | R_TO_USER | R_AOR_LEN | R_AOR_PARSE | R_INV_EXP | R_INV_Q | R_PARSE | R_TO_MISS
| R_CID_MISS | R_CS_MISS | R_PARSE_EXP | R_PARSE_CONT | R_STAR_EXP | R_STAR_CONT | R_OOO | R_RETRANS
| R_UNESCAPE | R_TOO_MANY | R_CONTACT_LEN | R_CALLID_LEN | R_PARSE_PATH | R_PATH_UNSUP.

#[export] Instance rerr_eq_dec : EqDecision rerr.
Proof. solve_decision. Defined.

(** The module parameters. *)
Record reg_config : Type := RegConfig {
  default_expires : Z;
  default_q : Z;
  min_expires : Z;
  max_expires : Z;
  max_contacts : Z;
  append_branches : bool;
  case_sensitive : bool;
  reg_use_domain : bool;
  realm_prefix : bytes;
  method_filtering : bool;
  path_enabled : bool;
  path_mode : Z;
  nat_flag : Z;
  rcv_param : bytes
}.

Definition CONTACT_MAX_SIZE : Z := 255.
Definition RECEIVED_MAX_SIZE : Z := 255.
Definition USERNAME_MAX_SIZE : Z := 64.
Definition DOMAIN_MAX_SIZE : Z := 128.
Definition CALLID_MAX_SIZE : Z := 255.
Definition UA_MAX_SIZE : Z := 255.
Definition MAX_AOR_LEN : Z := 256.

(** A contact: the bodies of its parameters; [c_methods] is the result of
    [parse_methods], [c_received_len] the length of the whole parameter, with its name,
    and [c_tcp] whether its URI parses and names TCP or TLS. *)
Record contact : Type := Contact {
  c_uri : bytes;
  c_q : option bytes;
  c_expires : option bytes;
  c_methods : option (option Z);
  c_received : option bytes;
  c_received_len : Z;
  c_tcp : option bool
}.

Record contact_hdr : Type := CHdr { star : bool; hcontacts : list contact }.

Record reg_msg : Type := RegMsg {
  m_headers_ok : bool;                     (* [parse_headers] *)
  m_to : option (option (bytes * bytes));  (* To: user and host of its URI *)
  m_callid : option bytes;
  m_cseq : option bytes;
  m_expires : option bytes;                (* body of Expires *)
  m_contact : list (option contact_hdr);   (* the Contact headers in order *)
  m_bind_address : Z;
  m_sock_hdr : option Z;                   (* [get_sock_hdr], when the flag is set *)
  m_user_agent : option bytes;
  m_path : option (bytes * bytes);         (* [build_path_vector]: path and received *)
  m_set_path : bool;                       (* [set_path_vector] *)
  m_allow : option Z;
  m_rcv_avp : option bytes;
  m_bflags : Z;                            (* [getb0flags] *)
  m_tcp_check : bool;
  m_supported : option bool;               (* [parse_supported], then the path flag *)
  m_reply_ok : bool                        (* the reply can be built and sent *)
}.

(** ** Expires *)

(** The digits read before the scan stops, and whether they make a value. *)
Fixpoint expires_scan (s : bytes) (val : Z) : bool * Z :=
  match s with
  | [] => (true, val)
  | c :: s' =>
      if is_digit c then expires_scan s' (s32 (s32 (val * 10) + (c - §"0")))
      else (trim_white c, val)
  end.

(** [valid] and [val]; [None] when the body is empty. *)
Definition parse_expires (body : bytes) : option (bool * Z) :=
  match trim_leading body with
  | [] => None
  | s => Some (expires_scan s 0)
  end.

(** The result is an [int]; [now] is [act_time]. *)
Definition get_expires_hf (cfg : reg_config) (now : Z) (m : reg_msg) : Z :=
  match m_expires m ≫= parse_expires with
  | Some (true, v) => if negb (v =? 0) then s32 (v + now) else 0
  | _ => s32 (now + default_expires cfg)
  end.

Definition calc_contact_expires (cfg : reg_config) (now : Z) (m : reg_msg) (ep : option bytes) : Z :=
  let e := match ep with
           | None | Some [] => get_expires_hf cfg now m
           | Some b =>
               let '(rc, v) := str2int b in
               let e := if rc <? 0 then default_expires cfg else s32 v in
               if negb (e =? 0) then s32 (e + now) else e
           end in
  let e := if negb (e =? 0) && (e - now <? min_expires cfg) then s32 (min_expires cfg + now) else e in
  if negb (e =? 0) && negb (max_expires cfg =? 0) && (e - now >? max_expires cfg)
  then s32 (max_expires cfg + now) else e.

(** Return code, [rerrno] and [*r]; [r0] is what [*r] held. *)
Definition calc_contact_q (cfg : reg_config) (q : option bytes) (r0 : Z) : Z * Z :=
  match q with
  | None | Some [] => (0, default_q cfg)
  | Some b => let '(rc, r) := str2q r0 b in (if rc <? 0 then -1 else 0, r)
  end.

(** ** Checks *)

Definition parse_message (m : reg_msg) : rerr :=
  if negb (m_headers_ok m) then R_PARSE
  else if absent (m_to m) then R_TO_MISS
  else if absent (m_callid m) then R_CID_MISS
  else if absent (m_cseq m) then R_CS_MISS
  else if match m_expires m with Some b => absent (parse_expires b) | None => false end then R_PARSE_EXP
  else if existsb absent (m_contact m) then R_PARSE_CONT
  else R_FINE.

(** The headers, once they have all been parsed. *)
Definition contact_hdrs (m : reg_msg) : list contact_hdr := omap Datatypes.id (m_contact m).

Definition too_long (c : contact) : bool :=
  (zlen (c_uri c) >? CONTACT_MAX_SIZE) ||
  match c_received c with Some _ => c_received_len c >? RECEIVED_MAX_SIZE | None => false end.

(** The later headers, when the first is not a star. *)
Fixpoint check_others (hs : list contact_hdr) : rerr :=
  match hs with
  | [] => R_FINE
  | h :: hs' =>
      if star h then R_STAR_CONT
      else if existsb too_long (hcontacts h) then R_CONTACT_LEN
      else check_others hs'
  end.

(** [rerrno] and [*_s]. *)
Definition check_contacts (cfg : reg_config) (now : Z) (m : reg_msg) : rerr * bool :=
  match contact_hdrs m with
  | [] => (R_FINE, false)
  | h :: hs =>
      if star h then
        if get_expires_hf cfg now m >? 0 then (R_STAR_EXP, false)
        else match hcontacts h, hs with
             | [], [] => (R_FINE, true)
             | _, _ => (R_STAR_CONT, false)
             end
      else (check_others hs, false)
  end.

(** ** The contacts of a message

    [act_contact] is a static pointer to the header of the current contact: [after] are
    the Contact headers that follow it.  A loop from the contacts [cur] visits these and
    moves [act_contact]; the result is what it visits, and what follows the header it
    ends in. *)
Fixpoint visited (cur : list contact) (after : list contact_hdr) : list contact * list contact_hdr :=
  match cur, after with
  | [], _ => ([], after)
  | _, [] => (cur, [])
  | _, h :: after' => let '(l, a) := visited (hcontacts h) after' in (cur ++ l, a)
  end.

(** [get_first_contact]: the contacts of the first header, and the headers after it. *)
Definition get_first_contact (m : reg_msg) : list contact * list contact_hdr :=
  match contact_hdrs m with
  | [] => ([], [])
  | h :: hs => (hcontacts h, hs)
  end.

(** ** The address of record *)

(** [puri] is the result of [parse_uri]: user and host. *)
Definition extract_aor (cfg : reg_config) (puri : option (bytes * bytes)) : rerr + bytes :=
  match puri with
  | None => inl R_AOR_PARSE
  | Some (user, host) =>
      if (zlen user + zlen host + 1 >? MAX_AOR_LEN) || (zlen user >? USERNAME_MAX_SIZE)
         || (zlen host >? DOMAIN_MAX_SIZE) then inl R_AOR_LEN
      else
        let '(rc, u) := un_escape user in
        if rc <? 0 then inl R_UNESCAPE
        else
          let user_len := length u in
          let pre := realm_prefix cfg in
          let a := if reg_use_domain cfg then
                     u ++ (if Nat.eqb user_len 0 then [] else [AT]) ++
                     (if negb (zlen pre =? 0) && (zlen pre <? zlen host)
                         && bool_decide (take (length pre) host = pre)
                      then drop (length pre) host else host)
                   else u in
          inr (if case_sensitive cfg && negb (Nat.eqb user_len 0)
               then take (S user_len) a ++ strlower (drop (S user_len) a)
               else strlower a)
  end.

(** ** The Contact header of the reply *)

Definition CONTACT_BEGIN : bytes := B "Contact: ".
Definition CONTACT_SEP : bytes := B ", ".
Definition REG_Q_PARAM : bytes := B ";q=".
Definition EXPIRES_PARAM : bytes := B ";expires=".
Definition DQUOTE : Z := 34.
Definition CRLF : bytes := [13; 10].

Section Reply.
Context (cfg : reg_config) (now : Z).

(** [len] before the contacts, and after them. *)
Fixpoint buf_len (l : list ucontact) (len : Z) : Z :=
  match l with
  | [] => len
  | c :: l' =>
      if VALID_CONTACT c now then
        let len := if negb (len =? 0) then len + zlen CONTACT_SEP else len in
        let len := len + (2 + zlen (uri c)) in
        let len := if negb (len_q (qv c) =? 0) then len + (zlen REG_Q_PARAM + len_q (qv c)) else len in
        let len := len + (zlen EXPIRES_PARAM + Z.of_nat INT2STR_MAX_LEN) in
        let len := match received c with
                   | Some r => len + (1 + zlen (rcv_param cfg) + 1 + 1 + zlen r + 1)
                   | None => len
                   end in
        buf_len l' len
      else buf_len l' len
  end.

Definition calc_buf_len (l : list ucontact) : Z :=
  let len := buf_len l 0 in
  if negb (len =? 0) then len + (zlen CONTACT_BEGIN + zlen CRLF) else len.

(** [int2str] is given an [int] as an [unsigned long]. *)
Definition print_contact (c : ucontact) : bytes :=
  B "<" ++ uri c ++ B ">" ++
  (if negb (len_q (qv c) =? 0) then REG_Q_PARAM ++ q2str (qv c) else []) ++
  EXPIRES_PARAM ++ int2str (u64 (s32 (expires c - now))) ++
  match received c with
  | Some r => B ";" ++ rcv_param cfg ++ B "=" ++ [DQUOTE] ++ r ++ [DQUOTE]
  | None => []
  end.

Fixpoint print_contacts (fl : bool) (l : list ucontact) : bytes :=
  match l with
  | [] => []
  | c :: l' =>
      if VALID_CONTACT c now
      then (if fl then CONTACT_SEP else []) ++ print_contact c ++ print_contacts true l'
      else print_contacts fl l'
  end.

(** What is left in the buffer, empty when there is no valid contact. *)
Definition build_contact (l : list ucontact) : bytes :=
  if calc_buf_len l =? 0 then []
  else CONTACT_BEGIN ++ print_contacts false l ++ CRLF.

End Reply.

(** ** Expiry times *)

(** What the configuration makes of a number of seconds. *)
Definition clamp (cfg : reg_config) (v : Z) : Z :=
  let v := Z.max v (min_expires cfg) in
  if max_expires cfg =? 0 then v else Z.min v (max_expires cfg).

(** The limits make sense and the clock has not reached the end of an [int]. *)
Record limits_ok (cfg : reg_config) (now : Z) : Prop := {
  l_now : 0 < now;
  l_min : 0 <= min_expires cfg;
  l_min_now : now + min_expires cfg < 2 ^ 31;
  l_max : max_expires cfg = 0 \/ min_expires cfg <= max_expires cfg /\ now + max_expires cfg < 2 ^ 31
}.

Lemma clamp_ok cfg now e :
  limits_ok cfg now -> e <> 0 ->
  let e1 := if negb (e =? 0) && (e - now <? min_expires cfg) then s32 (min_expires cfg + now) else e in
  (if negb (e1 =? 0) && negb (max_expires cfg =? 0) && (e1 - now >? max_expires cfg)
   then s32 (max_expires cfg + now) else e1) = now + clamp cfg (e - now).
Proof.
  intros [Hn Hm Hmn Hx] He. cbv zeta. unfold clamp. rewrite (proj2 (Z.eqb_neq e 0)) by done. cbn [negb andb].
  rewrite (s32_small (min_expires cfg + now)) by lia.
  destruct (Z.ltb_spec (e - now) (min_expires cfg)).
  - rewrite (proj2 (Z.eqb_neq (min_expires cfg + now) 0)), Z.max_r by lia. cbn [negb andb].
    destruct (Z.eqb_spec (max_expires cfg) 0); cbn [negb andb]; [lia|]. rewrite Z.gtb_ltb.
    destruct (Z.ltb_spec (max_expires cfg) (min_expires cfg + now - now)); [lia|]. lia.
  - rewrite (proj2 (Z.eqb_neq e 0)), Z.max_l by lia. cbn [negb andb].
    destruct (Z.eqb_spec (max_expires cfg) 0); cbn [negb andb]; [lia|]. rewrite Z.gtb_ltb.
    destruct (Z.ltb_spec (max_expires cfg) (e - now)); [rewrite s32_small by lia|]; lia.
Qed.

Lemma expires_zero cfg now :
  let e1 := if negb (0 =? 0) && (0 - now <? min_expires cfg) then s32 (min_expires cfg + now) else 0 in
  (if negb (e1 =? 0) && negb (max_expires cfg =? 0) && (e1 - now >? max_expires cfg)
   then s32 (max_expires cfg + now) else e1) = 0.
Proof. done. Qed.

(** The value before it is clamped. *)
Definition raw_expires (cfg : reg_config) (now : Z) (m : reg_msg) (ep : option bytes) : Z :=
  match ep with
  | None | Some [] => get_expires_hf cfg now m
  | Some b =>
      let '(rc, v) := str2int b in
      let e := if rc <? 0 then default_expires cfg else s32 v in
      if negb (e =? 0) then s32 (e + now) else e
  end.

Lemma calc_raw cfg now m ep :
  limits_ok cfg now ->
  calc_contact_expires cfg now m ep =
    let e := raw_expires cfg now m ep in if e =? 0 then 0 else now + clamp cfg (e - now).
Proof.
  intros L. unfold calc_contact_expires. fold (raw_expires cfg now m ep). cbv zeta.
  destruct (Z.eqb_spec (raw_expires cfg now m ep) 0) as [->|Ne]; [done|].
  pose proof (clamp_ok cfg now _ L Ne) as C. cbv zeta in C.
  by rewrite (proj2 (Z.eqb_neq (raw_expires cfg now m ep) 0) Ne) in C.
Qed.

Lemma expires_scan_digits s v :
  forallb is_digit s = true -> expires_scan s (s32 v) = (true, s32 (fold_left dec_step s v)).
Proof.
  revert v. induction s as [|c s IH]; intros v H; simpl in *; [done|].
  apply andb_true_iff in H as [Hc H]. rewrite Hc.
  rewrite s32_dec_step. by apply IH.
Qed.

(** ** The reply fits its buffer *)

Section Fits.
Context (cfg : reg_config) (now : Z).

(** What one contact needs. *)
Definition contact_len (c : ucontact) : Z :=
  2 + zlen (uri c) + (if negb (len_q (qv c) =? 0) then zlen REG_Q_PARAM + len_q (qv c) else 0) +
  (zlen EXPIRES_PARAM + Z.of_nat INT2STR_MAX_LEN) +
  match received c with Some r => 1 + zlen (rcv_param cfg) + 1 + 1 + zlen r + 1 | None => 0 end.

Lemma print_contact_fits c : zlen (print_contact cfg now c) <= contact_len c.
Proof.
  unfold print_contact, contact_len.
  assert (Hu : 0 <= u64 (s32 (expires c - now)) < 2 ^ 64) by (unfold u64; apply Z.mod_pos_bound; lia).
  destruct (int2str_spec _ Hu) as (_ & _ & _ & Hl & _).
  rewrite !zlen_app. change (zlen (B "<")) with 1. change (zlen (B ">")) with 1.
  assert (Hq : zlen (if negb (len_q (qv c) =? 0) then REG_Q_PARAM ++ q2str (qv c) else []) =
    (if negb (len_q (qv c) =? 0) then zlen REG_Q_PARAM + len_q (qv c) else 0)).
  { case_match; [|done]. rewrite zlen_app, len_q_q2str. done. }
  rewrite Hq. set (q := if negb _ then _ + _ else 0). clearbody q. clear Hq.
  set (i := int2str _) in *. clearbody i. unfold INT2STR_MAX_LEN.
  destruct (received c) as [r|]; rewrite ?zlen_app; unfold zlen in *; simpl; lia.
Qed.

Lemma buf_len_ge l n :
  0 <= n -> n + zlen (print_contacts cfg now (negb (n =? 0)) l) <= buf_len cfg now l n /\ n <= buf_len cfg now l n.
Proof.
  revert n. induction l as [|c l IH]; intros n Hn; cbn [print_contacts buf_len]; [change (zlen (@nil Z)) with 0; lia|].
  destruct (VALID_CONTACT c now); [|by apply IH]. rewrite !zlen_app.
  pose proof (print_contact_fits c) as P. pose proof (zlen_nonneg (uri c)).
  set (n1 := if negb (n =? 0) then n + zlen CONTACT_SEP else n).
  match goal with |- context [buf_len cfg now l ?x] => set (n2 := x) end.
  assert (E2 : n2 = n1 + contact_len c).
  { unfold n2, contact_len. destruct (negb (len_q (qv c) =? 0)), (received c); lia. }
  assert (E1 : n1 = n + zlen (if negb (n =? 0) then CONTACT_SEP else [])).
  { unfold n1. case_match; [done|]. change (zlen (@nil Z)) with 0. lia. }
  assert (Hc : 0 < contact_len c).
  { unfold contact_len. pose proof (len_q_q2str (qv c)). pose proof (zlen_nonneg (rcv_param cfg)).
    change (zlen EXPIRES_PARAM) with 9. change (zlen REG_Q_PARAM) with 3. unfold INT2STR_MAX_LEN.
    destruct (negb (len_q (qv c) =? 0)), (received c) as [r|]; try pose proof (zlen_nonneg r); lia. }
  pose proof (zlen_nonneg (if negb (n =? 0) then CONTACT_SEP else [])).
  destruct (IH n2) as [I1 I2]; [lia|]. rewrite (proj2 (Z.eqb_neq n2 0)) in I1 by lia. cbn [negb] in I1. lia.
Qed.

Lemma build_contact_fits l : zlen (build_contact cfg now l) <= calc_buf_len cfg now l.
Proof.
  unfold build_contact. destruct (buf_len_ge l 0) as [H1 H2]; [done|]. unfold calc_buf_len in *. cbv zeta.
  destruct (Z.eqb_spec (buf_len cfg now l 0) 0) as [E|E]; cbn [negb]; [by rewrite E|].
  change (zlen CONTACT_BEGIN) with 9. change (zlen CRLF) with 2.
  rewrite (proj2 (Z.eqb_neq _ 0)) by lia. rewrite !zlen_app. cbn [Z.eqb negb] in H1.
  change (zlen CONTACT_BEGIN) with 9. change (zlen CRLF) with 2. lia.
Qed.

End Fits.

(** ** The address of record *)

Lemma memchr_in s : In AT s -> is_Some (q_memchr s AT).
Proof.
  induction s as [|x s IH]; [done|]. intros [->|Hx]; simpl; [by eexists|].
  case_match; [by eexists|]. destruct (IH Hx) as [i ->]. by eexists.
Qed.

Lemma memchr_notin s : forallb is_byte s = true -> ~ In AT s -> q_memchr s AT = None.
Proof.
  induction s as [|x s IH]; [done|]. simpl. intros Hb N. apply andb_true_iff in Hb as [Hx Hb].
  rewrite IH by tauto. assert (Hne : s8 x <> u8 AT); [|by rewrite (proj2 (Z.eqb_neq _ _) Hne)].
  unfold is_byte in Hx. bool_to_prop. change (u8 AT) with 64. unfold s8.
  intros E. apply N. left. unfold AT. change (2 ^ 7) with 128 in E. change (2 ^ 8) with 256 in E.
  Z.to_euclidean_division_equations. lia.
Qed.

Lemma strlower_in s : In AT s -> In AT (strlower s).
Proof. intros H. unfold strlower. apply in_map_iff. by exists AT. Qed.

Lemma strlower_len s : zlen (strlower s) = zlen s.
Proof. unfold strlower, zlen. by rewrite length_map. Qed.

(** The bytes before the case of letters is changed. *)
Lemma lowered_len (b : bool) n a :
  zlen (if b then take n a ++ strlower (drop n a) else strlower a) = zlen a.
Proof.
  destruct b; [|apply strlower_len]. rewrite zlen_app, strlower_len. unfold zlen.
  rewrite length_take, length_drop. lia.
Qed.

Lemma lowered_in (b : bool) n a :
  In AT a -> In AT (if b then take n a ++ strlower (drop n a) else strlower a).
Proof.
  intros H. destruct b; [|by apply strlower_in]. rewrite <- (take_drop n a), in_app_iff in H.
  apply in_app_iff. destruct H; [by left|right; by apply strlower_in].
Qed.

Lemma un_escape_len s : zlen (un_escape s).2 <= zlen s.
Proof.
  unfold un_escape. pose proof (un_escape_loop_length (length s) s (le_n _)) as H.
  destruct (un_escape_loop s) as [ok out]. unfold zlen. simpl in *. lia.
Qed.

Lemma stripped_len (b : bool) n (h : bytes) : zlen (if b then drop n h else h) <= zlen h.
Proof. destruct b; unfold zlen; rewrite ?length_drop; lia. Qed.

Lemma stripped_in (b : bool) n (h : bytes) x : In x (if b then drop n h else h) -> In x h.
Proof.
  destruct b; [|done]. intros Hx. rewrite <- (take_drop n h). apply in_app_iff. by right.
Qed.

Lemma aor_fits cfg puri a : extract_aor cfg puri = inr a -> zlen a <= MAX_AOR_LEN.
Proof.
  unfold extract_aor. destruct puri as [[user host]|]; [|done].
  destruct (_ || _) eqn:E; [done|]. pose proof (un_escape_len user) as U.
  destruct (un_escape user) as [rc u]. destruct (rc <? 0); [done|]. cbv zeta. intros [= <-].
  rewrite lowered_len. apply orb_false_iff in E as [E _]. apply orb_false_iff in E as [E _].
  rewrite Z.gtb_ltb in E. apply Z.ltb_ge in E. simpl in U. pose proof (zlen_nonneg host).
  destruct (reg_use_domain cfg); [|lia]. rewrite !zlen_app.
  assert (zlen (if Nat.eqb (length u) 0 then [] else [AT]) <= 1) by (by case_match).
  pose proof (stripped_len (negb (zlen (realm_prefix cfg) =? 0) && (zlen (realm_prefix cfg) <? zlen host)
    && bool_decide (take (length (realm_prefix cfg)) host = realm_prefix cfg)) (length (realm_prefix cfg)) host).
  lia.
Qed.

Lemma aor_has_at cfg user host a :
  extract_aor cfg (Some (user, host)) = inr a -> reg_use_domain cfg = true -> (un_escape user).2 <> [] -> In AT a.
Proof.
  unfold extract_aor. intros E D U. rewrite D in E. destruct (_ || _); [done|].
  destruct (un_escape user) as [rc u]. destruct (rc <? 0); [done|]. cbv zeta in E. simpl in U.
  injection E as <-. apply lowered_in. destruct u; [done|]. cbn [length Nat.eqb]. apply in_app_iff. right. by left.
Qed.

(** ** Main results *)

(** With sensible limits and a clock within an [int], the expiry of a contact is zero
    (the contact is to be removed) or lies between the configured minimum and maximum
    after now; a number of seconds that does not overflow is read as such and clamped, and
    zero as a removal. *)
Theorem contact_expiry cfg now m :
  limits_ok cfg now ->
  (forall ep, let e := calc_contact_expires cfg now m ep in
     e = 0 \/ now + min_expires cfg <= e /\ (max_expires cfg <> 0 -> e <= now + max_expires cfg)) /\
  (forall b, b <> [] -> forallb is_digit b = true -> dec_value b + now < 2 ^ 31 ->
     calc_contact_expires cfg now m (Some b) =
       if dec_value b =? 0 then 0 else now + clamp cfg (dec_value b)).
Proof.
  intros L. split.
  - intros ep. cbv zeta. rewrite calc_raw by done. cbv zeta. case_match; [by left|right].
    unfold clamp. destruct L as [_ _ _ Hx]. destruct (Z.eqb_spec (max_expires cfg) 0); lia.
  - intros b Hb Hd Hv. rewrite calc_raw by done. unfold raw_expires.
    destruct b as [|x b]; [done|]. rewrite str2int_digits by done. cbn [Z.ltb Z.compare].
    pose proof (l_now _ _ L). assert (0 <= dec_value (x :: b)) by (by apply dec_value_bound).
    rewrite u32_small, s32_small by lia. cbv zeta.
    destruct (Z.eqb_spec (dec_value (x :: b)) 0) as [->|Ne]; [done|]. cbn [negb].
    rewrite s32_small by lia. rewrite (proj2 (Z.eqb_neq _ 0)) by lia. f_equal. f_equal. lia.
Qed.

(** The arithmetic wraps: an [expires] parameter of 2^32 less the current time, which
    asks for the longest registration, removes the contact. *)
Theorem expires_wraps cfg now m :
  0 < now < 2 ^ 31 -> calc_contact_expires cfg now m (Some (int2str (2 ^ 32 - now))) = 0.
Proof.
  intros Hn. unfold calc_contact_expires.
  destruct (int2str_spec (2 ^ 32 - now)) as (_ & _ & Ne & _); [lia|].
  destruct (int2str (2 ^ 32 - now)) as [|x b] eqn:E; [done|]. rewrite <- E, str2int_int2str by lia.
  cbn [Z.ltb Z.compare]. replace (s32 (2 ^ 32 - now)) with (- now).
  - rewrite (proj2 (Z.eqb_neq (- now) 0)) by lia. cbn [negb]. replace (- now + now) with 0 by lia. done.
  - unfold s32. replace (2 ^ 32 - now + 2 ^ 31) with (2 ^ 31 - now + 1 * 2 ^ 32) by lia.
    rewrite Z.mod_add, Z.mod_small; lia.
Qed.

(** The Contact header written into the reply is never longer than the buffer that
    was allocated for it. *)
Theorem reply_fits cfg now l : zlen (build_contact cfg now l) <= calc_buf_len cfg now l.
Proof. apply build_contact_fits. Qed.

(** An address of record fits its buffer; when domains are used it has the [@] that
    the database columns need if the URI has a user, and lacks it if there is no user. *)
Theorem aor_form cfg :
  (forall puri a, extract_aor cfg puri = inr a -> zlen a <= MAX_AOR_LEN) /\
  (forall ucfg user host a, extract_aor cfg (Some (user, host)) = inr a -> use_domain ucfg = reg_use_domain cfg ->
     (un_escape user).2 <> [] -> is_Some (split_aor ucfg a)) /\
  (forall ucfg host a, extract_aor cfg (Some ([], host)) = inr a -> reg_use_domain cfg = true ->
     use_domain ucfg = true -> forallb is_byte host = true -> ~ In AT host -> split_aor ucfg a = None).
Proof.
  split; [intros puri a; apply aor_fits|]. split.
  - intros ucfg user host a E D U. unfold split_aor. rewrite D. destruct (reg_use_domain cfg) eqn:R; [|by eexists].
    destruct (memchr_in a) as [i ->]; [by eapply aor_has_at|by eexists].
  - intros ucfg host a E R D Hb N. unfold split_aor. rewrite D. unfold extract_aor in E. rewrite R in E.
    destruct (_ || _); [done|]. cbn [un_escape un_escape_loop Z.ltb length Nat.eqb app] in E. rewrite andb_false_r in E.
    cbv zeta in E. set (h := if _ && _ && _ then _ else _) in E.
    assert (Hh : forall x, In x h -> In x host).
    { intros x. apply stripped_in. }
    assert (Ea : a = strlower h) by (simpl in E; congruence). subst a.
    rewrite forallb_forall in Hb.
    rewrite memchr_notin; [done| |].
    + apply forallb_forall. intros x Hx. apply in_map_iff in Hx as (y & <- & Hy). apply Hh, Hb in Hy.
      by apply HashFunc.tolower_byte.
    + intros Hx. apply in_map_iff in Hx as (y & Ey & Hy). unfold tolower in Ey. unfold AT in Ey.
      destruct (y between 65 and 90) eqn:Eb; bool_to_prop; [lia|]. subst y. by apply N, Hh.
Qed.

Definition demo_reg : reg_config :=
  RegConfig 3600 Q_UNSPECIFIED 60 7200 2 true false true [] false false 0 0 (B "received").
Definition demo_msg (cs : list contact) : reg_msg :=
  RegMsg true (Some (Some (B "joe", B "Example.com"))) (Some (B "cid")) (Some (B "7")) None
    [Some (CHdr false cs)] 1 None None None true None None 0 false None true.

Lemma contact_expiry_witness : calc_contact_expires demo_reg 1000 (demo_msg []) (Some (B "100000")) = 8200.
Proof.
  destruct (contact_expiry demo_reg 1000 (demo_msg [])) as [_ E].
  - by constructor; simpl; lia.
  - by rewrite E.
Defined.

Lemma expires_wraps_witness : calc_contact_expires demo_reg 1000 (demo_msg []) (Some (B "4294966296")) = 0.
Proof. apply (expires_wraps demo_reg 1000 (demo_msg [])). lia. Defined.

End RegMsg.
