(* ===== verification/Registrar.v ===== *)
(** * Registrar: [src/modules/registrar/save.c], [lookup.c]

    Saving the contacts of a REGISTER request and looking up the contacts of a request.
    The module works on user location through its interface [UsrlocApi] only, and the
    theorems rely on the laws of that interface only; the last section instantiates them
    with the domain.  [now] is the time taken at the start of the request. *)

From Stdlib Require Import ZArith Lia List String Ascii Bool Permutation.
From stdpp Require Import base tactics option list.
From S2P Require Import Prelude Ut QValue HashFunc Dset Ucontact Udomain UlApi RegMsg.

Module Registrar.
Import Ut QValue Ucontact UlApi RegMsg.

(** What the module keeps besides user location: the Contact header under construction,
    whether a path vector was set on the message, the statistics, the lifetimes given to
    TCP connections and the replies sent (code and Contact header). *)
Record reg_st (St : Type) : Type := RegSt {
  usr : St;
  cbuf : bytes;
  path_vec : bool;
  accepted : Z;
  rejected : Z;
  tcp_life : list Z;
  replies : list (Z * bytes)
}.
Arguments RegSt {St}.
Arguments usr {St}.
Arguments cbuf {St}.
Arguments path_vec {St}.
Arguments accepted {St}.
Arguments rejected {St}.
Arguments tcp_life {St}.
Arguments replies {St}.

Definition with_usr {St} (u : St) (s : reg_st St) : reg_st St :=
  RegSt u (cbuf s) (path_vec s) (accepted s) (rejected s) (tcp_life s) (replies s).
Definition with_cbuf {St} (b : bytes) (s : reg_st St) : reg_st St :=
  RegSt (usr s) b (path_vec s) (accepted s) (rejected s) (tcp_life s) (replies s).
Definition with_path {St} (b : bool) (s : reg_st St) : reg_st St :=
  RegSt (usr s) (cbuf s) b (accepted s) (rejected s) (tcp_life s) (replies s).
Definition add_tcp {St} (e : Z) (s : reg_st St) : reg_st St :=
  RegSt (usr s) (cbuf s) (path_vec s) (accepted s) (rejected s) (tcp_life s ++ [e]) (replies s).
Definition add_accepted {St} (s : reg_st St) : reg_st St :=
  RegSt (usr s) (cbuf s) (path_vec s) (accepted s + 1) (rejected s) (tcp_life s) (replies s).
Definition add_rejected {St} (s : reg_st St) : reg_st St :=
  RegSt (usr s) (cbuf s) (path_vec s) (accepted s) (rejected s + 1) (tcp_life s) (replies s).

(** ** Contact information *)

Definition NO_UA : bytes := B "n/a".

(** The part of [pack_ci] that depends on the message only; also tells whether the path
    vector was set on the message. *)
Definition pack_msg (cfg : reg_config) (now flags : Z) (m : reg_msg) : rerr + ucontact_info * bool :=
  let callid := trim_trailing (default [] (m_callid m)) in
  if zlen callid >? CALLID_MAX_SIZE then inl R_CALLID_LEN
  else
    let '(rc, n) := str2int (default [] (m_cseq m)) in
    if rc <? 0 then inl R_INV_CSEQ
    else
      let sock := default (m_bind_address m) (m_sock_hdr m) in
      let ua := match m_user_agent m with
                | Some b => if (zlen b >? 0) && (zlen b <? UA_MAX_SIZE) then b else NO_UA
                | None => NO_UA
                end in
      let ci path rcv :=
        UInfo rcv path 0 0 callid (s32 n) flags
          (if zlen rcv =? 0 then m_bflags m else Z.lor (m_bflags m) (nat_flag cfg)) ua sock 0 now in
      if path_enabled cfg then
        match m_path m with
        | None => inl R_PARSE_PATH
        | Some ([], rcv) => inr (ci None rcv, false)
        | Some (p, rcv) => if m_set_path m then inr (ci (Some p) rcv, true) else inl R_PARSE_PATH
        end
      else inr (ci None [], false).

(** The part that depends on the contact; the structure is static, so [received] stays
    what an earlier contact of the message made it. *)
Definition pack_contact (cfg : reg_config) (m : reg_msg) (ci : ucontact_info) (c : contact) (e : Z)
  : rerr + ucontact_info :=
  let '(rc, q) := calc_contact_q cfg (c_q c) (i_q ci) in
  if rc <? 0 then inl R_INV_Q
  else
    match (match c_methods c with
           | Some r => r
           | None => Some (default ALL_METHODS (m_allow m))
           end) with
    | None => inl R_PARSE
    | Some meth =>
        let rcv := if zlen (i_received ci) =? 0 then
                     match c_received c with
                     | Some b => inr b
                     | None =>
                         match m_rcv_avp m with
                         | Some v => if zlen v >? RECEIVED_MAX_SIZE then inl R_CONTACT_LEN else inr v
                         | None => inr []
                         end
                     end
                   else inr (i_received ci) in
        match rcv with
        | inl err => inl err
        | inr rcv =>
            inr (UInfo rcv (i_path ci) (u32 e) q (i_callid ci) (i_cseq ci) (i_flags ci) (i_cflags ci)
                   (i_user_agent ci) (i_sock ci) meth (i_last_modified ci))
        end
    end.

Section Save.
Context {St : Type} `{UsrlocApi St} (cfg : reg_config) (now : Z).

Definition mem_flag (mem_only c_flags : Z) : Z :=
  if negb (mem_only =? 0) then Z.lor c_flags FL_MEM else Z.land c_flags (u32 (Z.lnot FL_MEM)).

(** [c->flags] written in place. *)
Definition store_flag (mem_only : Z) (c : ucontact) (r : urecord) (u : St) : ucontact * urecord * St :=
  let c := set_c_flags (mem_flag mem_only (flags c)) c in
  let r := set_contacts (put_contact c (contacts r)) r in
  (c, r, ul_store r u).

Fixpoint flag_loop (mem_only : Z) (todo : list ucontact) (r : urecord) (u : St) : St :=
  match todo with
  | [] => u
  | c :: todo' => let '(_, r, u) := store_flag mem_only c r u in flag_loop mem_only todo' r u
  end.

Definition star (mem_only : Z) (ar : bytes) (s : reg_st St) : res (rerr * reg_st St) :=
  let u := match ul_get_urecord ar (usr s) with
           | Some r => flag_loop mem_only (contacts r) r (usr s)
           | None => usr s
           end in
  '(rc, u) ← ul_delete_urecord ar u;
  let s := with_usr u s in
  if rc <? 0 then
    Ret (R_UL_DEL_R, match ul_get_urecord ar u with
                     | Some r => with_cbuf (build_contact cfg now (contacts r)) s
                     | None => s
                     end)
  else Ret (R_FINE, s).

Definition no_contacts (ar : bytes) (s : reg_st St) : reg_st St :=
  match ul_get_urecord ar (usr s) with
  | Some r => with_cbuf (build_contact cfg now (contacts r)) s
  | None => s
  end.

(** ** A new record *)

Definition tcp_insert (m : reg_msg) (c : contact) (e e_max : Z) : Z :=
  match m_tcp_check m, c_tcp c with
  | true, Some true => if negb (e_max =? 0) then (if e >? e_max then e else e_max) else e
  | _, _ => e_max
  end.

(** Binds one contact in a record; [ci] is what was packed for it. *)
Definition bind_new (c : contact) (ci : ucontact_info) (r : urecord) (u : St)
  : res (rerr * urecord * St) :=
  let found := match contacts r with
               | [] => None
               | _ => match ul_get_ucontact now r (c_uri c) (i_callid ci) (s32 (i_cseq ci + 1)) with
                      | (rc, o) => if rc =? 0 then o else None
                      end
               end in
  match found with
  | None =>
      let '(rc, _, r, u) := ul_insert_ucontact r (c_uri c) ci u in
      Ret (if rc <? 0 then R_UL_INS_C else R_FINE, r, u)
  | Some d =>
      '(rc, r, u) ← ul_update_ucontact r d ci u;
      Ret (if rc <? 0 then R_UL_UPD_C else R_FINE, r, u)
  end.

(** [rerrno], the record, [e_max], whether the path was set, and user location. *)
Fixpoint insert_loop (flags : Z) (m : reg_msg) (ar : bytes) (cs : list contact) (r : option urecord)
    (ci : option (ucontact_info * bool)) (num e_max : Z) (u : St)
  : res (rerr * option urecord * Z * bool * St) :=
  let pv := match ci with Some (_, b) => b | None => false end in
  match cs with
  | [] => Ret (R_FINE, r, e_max, pv, u)
  | c :: cs' =>
      let e := calc_contact_expires cfg now m (c_expires c) in
      if e =? 0 then insert_loop flags m ar cs' r ci num e_max u
      else if negb (max_contacts cfg =? 0) && (num >=? max_contacts cfg) then Ret (R_TOO_MANY, r, e_max, pv, u)
      else
        let '(o, u) := match r with Some r => (Some r, u) | None => ul_insert_urecord ar u end in
        match o with
        | None => Ret (R_UL_NEW_R, None, e_max, pv, u)
        | Some r =>
            match (match ci with Some x => inr x | None => pack_msg cfg now flags m end) with
            | inl err => Ret (err, Some r, e_max, pv, u)
            | inr (ci, pv) =>
                match pack_contact cfg m ci c e with
                | inl err => Ret (err, Some r, e_max, pv, u)
                | inr ci =>
                    '(err, r, u) ← bind_new c ci r u;
                    if decide (err = R_FINE)
                    then insert_loop flags m ar cs' (Some r) (Some (ci, pv)) (num + 1) (tcp_insert m c e e_max) u
                    else Ret (err, Some r, e_max, pv, u)
                end
            end
        end
  end.

Definition insert_contacts (mem_only : Z) (m : reg_msg) (ar : bytes) (cs : list contact) (s : reg_st St)
  : res (rerr * reg_st St) :=
  '(err, r, e_max, pv, u) ← insert_loop mem_only m ar cs None None 0 0 (usr s);
  let s := with_path pv (with_usr u s) in
  if decide (err = R_FINE) then
    let s := match r with
             | None => s
             | Some r =>
                 let s := match contacts r with [] => s | l => with_cbuf (build_contact cfg now l) s end in
                 with_usr (ul_release_urecord r (usr s)) s
             end in
    Ret (R_FINE, if m_tcp_check m && (e_max >? 0) then add_tcp (s32 (e_max - now) + 10) s else s)
  else
    u ← (match r with Some _ => '(_, u) ← ul_delete_urecord ar u; Ret u | None => Ret u end);
    Ret (err, with_usr u s).

(** ** A record that exists *)

(** The number of contacts after the request, or an error. *)
Fixpoint count_loop (m : reg_msg) (ci : ucontact_info) (r : urecord) (cs : list contact) (num : Z) : option Z :=
  match cs with
  | [] => Some num
  | c :: cs' =>
      let e := calc_contact_expires cfg now m (c_expires c) in
      let '(ret, _) := ul_get_ucontact now r (c_uri c) (i_callid ci) (i_cseq ci) in
      if ret =? -1 then None
      else if ret =? -2 then count_loop m ci r cs' num
      else if ret >? 0 then count_loop m ci r cs' (if negb (e =? 0) then num + 1 else num)
      else count_loop m ci r cs' (if e =? 0 then num - 1 else num)
  end.

Definition num_valid (l : list ucontact) : Z := zlen (filter (fun c => VALID_CONTACT c now = true) l).

Definition test_max_contacts (m : reg_msg) (ci : ucontact_info) (r : urecord) (cs : list contact) : rerr :=
  match count_loop m ci r cs (num_valid (contacts r)) with
  | None => R_INV_CSEQ
  | Some num => if num >? max_contacts cfg then R_TOO_MANY else R_FINE
  end.

Definition tcp_update (m : reg_msg) (c : contact) (e e_max : Z) : Z :=
  match m_tcp_check m, c_tcp c with
  | true, Some true => if e >? e_max then e else e_max
  | _, _ => e_max
  end.

(** One contact: [None] when the loop continues without more ado. *)
Definition update_one (mem_only : Z) (m : reg_msg) (ci : ucontact_info) (c : contact) (r : urecord) (u : St)
  : res (option (rerr * ucontact_info * urecord * St)) :=
  let e := calc_contact_expires cfg now m (c_expires c) in
  let '(ret, o) := ul_get_ucontact now r (c_uri c) (i_callid ci) (i_cseq ci) in
  if ret =? -1 then Ret (Some (R_INV_CSEQ, ci, r, u))
  else if ret =? -2 then Ret None
  else
    match o with
    | None =>
        if e =? 0 then Ret None
        else match pack_contact cfg m ci c e with
             | inl err => Ret (Some (err, ci, r, u))
             | inr ci =>
                 let '(rc, _, r, u) := ul_insert_ucontact r (c_uri c) ci u in
                 Ret (Some (if rc <? 0 then R_UL_INS_C else R_FINE, ci, r, u))
             end
    | Some d =>
        if e =? 0 then
          let '(d, r, u) := store_flag mem_only d r u in
          '(r, u) ← ul_delete_ucontact r d u;
          Ret (Some (R_FINE, ci, r, u))
        else match pack_contact cfg m ci c e with
             | inl err => Ret (Some (err, ci, r, u))
             | inr ci =>
                 '(rc, r, u) ← ul_update_ucontact r d ci u;
                 Ret (Some (if rc <? 0 then R_UL_UPD_C else R_FINE, ci, r, u))
             end
    end.

Fixpoint update_loop (mem_only : Z) (m : reg_msg) (ci : ucontact_info) (cs : list contact) (r : urecord)
    (e_max : Z) (u : St) : res (rerr * urecord * Z * St) :=
  match cs with
  | [] => Ret (R_FINE, r, e_max, u)
  | c :: cs' =>
      o ← update_one mem_only m ci c r u;
      match o with
      | None => update_loop mem_only m ci cs' r e_max u
      | Some (err, ci, r, u) =>
          if decide (err = R_FINE)
          then update_loop mem_only m ci cs' r (tcp_update m c (calc_contact_expires cfg now m (c_expires c)) e_max) u
          else Ret (err, r, e_max, u)
      end
  end.

(** [cur] and [after] are the contacts of the first header and the headers after it.
    The test for the maximum walks the contacts and leaves [act_contact] at its end. *)
Definition update_contacts (mem_only : Z) (m : reg_msg) (cur : list contact) (after : list contact_hdr)
    (r : urecord) (s : reg_st St) : res (rerr * urecord * reg_st St) :=
  match pack_msg cfg now mem_only m with
  | inl err => Ret (err, r, s)
  | inr (ci, pv) =>
      let s := with_path pv s in
      let '(tested, after') := visited cur after in
      let limit := negb (max_contacts cfg =? 0) in
      let err := if limit then test_max_contacts m ci r tested else R_FINE in
      if decide (err = R_FINE) then
        let '(cs, _) := visited cur (if limit then after' else after) in
        let e0 := if m_tcp_check m then -1 else 0 in
        '(err, r, e_max, u) ← update_loop mem_only m ci cs r e0 (usr s);
        let s := with_usr u s in
        if decide (err = R_FINE) then
          Ret (R_FINE, r,
               if m_tcp_check m && (e_max >? -1)
               then add_tcp ((if negb (e_max =? 0) then s32 (e_max - now) else e_max) + 10) s else s)
        else Ret (err, r, s)
      else Ret (err, r, s)
  end.

Definition add_contacts (mem_only : Z) (m : reg_msg) (cur : list contact) (after : list contact_hdr)
    (ar : bytes) (s : reg_st St) : res (rerr * reg_st St) :=
  match ul_get_urecord ar (usr s) with
  | Some r =>
      '(err, r, s) ← update_contacts mem_only m cur after r s;
      let s := with_cbuf (build_contact cfg now (contacts r)) s in
      Ret (err, with_usr (ul_release_urecord r (usr s)) s)
  | None => insert_contacts mem_only m ar (visited cur after).1 s
  end.

(** ** The reply *)

Definition PATH_MODE_OFF : Z := 0.
Definition PATH_MODE_STRICT : Z := 2.

Definition code_of (e : rerr) : Z :=
  match e with
  | R_FINE | R_OOO | R_RETRANS => 200
  | R_UL_DEL_R | R_UL_GET_R | R_UL_NEW_R | R_UL_INS_C | R_UL_INS_R | R_UL_DEL_C | R_UL_UPD_C | R_AOR_LEN => 500
  | R_TOO_MANY => 503
  | R_PATH_UNSUP => 420
  | _ => 400
  end.

(** Return code; the Contact header is used up whatever happens then. *)
Definition send_reply (m : reg_msg) (e : rerr) (s : reg_st St) : Z * reg_st St :=
  let contact := cbuf s in
  let s := with_cbuf [] s in
  let e := if decide (e = R_FINE) then
             if path_enabled cfg && path_vec s && negb (path_mode cfg =? PATH_MODE_OFF)
                && (path_mode cfg =? PATH_MODE_STRICT) && negb (default false (m_supported m))
             then R_PATH_UNSUP else e
           else e in
  if m_reply_ok m then
    (0, RegSt (usr s) (cbuf s) (path_vec s) (accepted s) (rejected s) (tcp_life s)
          (replies s ++ [(code_of e, contact)]))
  else (-1, s).

(** ** Entry point *)

(** [mem_only] and [norpl] are the flags of the call; the result is the return value.
    The contacts are checked before the time is taken: [old] is that of an earlier
    request. *)
Definition save (old : Z) (mem_only norpl : bool) (m : reg_msg) (s : reg_st St) : res (Z * reg_st St) :=
  let s := with_path false s in
  let mem := if mem_only then FL_MEM else 0 in
  '(err, s) ←
    (let err := parse_message m in
     if decide (err = R_FINE) then
       let '(err, st) := check_contacts cfg old m in
       if decide (err = R_FINE) then
         let '(cur, after) := get_first_contact m in
         match extract_aor cfg (default None (m_to m)) with
         | inl err => Ret (err, s)
         | inr ar =>
             match cur with
             | [] => if (st : bool) then star mem ar s else Ret (R_FINE, no_contacts ar s)
             | _ => add_contacts mem m cur after ar s
             end
         end
       else Ret (err, s)
     else Ret (err, s));
  if decide (err = R_FINE) then
    let s := add_accepted s in
    if norpl then Ret (1, s)
    else let '(rc, s) := send_reply m R_FINE s in Ret (if rc <? 0 then -1 else 1, s)
  else
    let s := add_rejected s in
    Ret (0, if norpl then s else (send_reply m err s).2).

End Save.

(** ** Lookup *)

(** Where the request is sent: the parts of the message that [lookup] sets. *)
Record target : Type := Target {
  t_uri : bytes;
  t_new_uri : option bytes;
  t_dst : option bytes;
  t_path : option bytes;
  t_sock : Z;
  t_dset : Dset.dset
}.

(** Whether [rewrite_uri], [set_path_vector] and [set_dst_uri] get their memory. *)
Record lk_mem : Type := LkMem { ok_uri : bool; ok_path_vec : bool; ok_dst : bool }.

Section Lookup.
Context {St : Type} `{UsrlocApi St} (cfg : reg_config) (now method : Z).

(** [get_path_dst_uri]: the first URI of a path. *)
Context (path_dst : bytes -> option bytes).

Definition allowed_method (c : ucontact) : bool :=
  negb (method_filtering cfg) || negb (Z.land method (methods c) =? 0).

(** The first usable contact and the rest of the list, or the code to return. *)
Fixpoint first_usable (l : list ucontact) (ret : Z) : Z + ucontact * list ucontact :=
  match l with
  | [] => inl ret
  | c :: l' =>
      if VALID_CONTACT c now then
        if allowed_method c then inr (c, l') else first_usable l' (-2)
      else first_usable l' ret
  end.

Definition set_ruri (c : ucontact) (t : target) : target :=
  Target (t_uri t) (Some (uri c)) (t_dst t) (t_path t) (t_sock t) (t_dset t).
Definition set_dst (d : bytes) (t : target) : target :=
  Target (t_uri t) (t_new_uri t) (Some d) (t_path t) (t_sock t) (t_dset t).
Definition set_path (p : bytes) (t : target) : target :=
  Target (t_uri t) (t_new_uri t) (t_dst t) (Some p) (t_sock t) (t_dset t).

(** The Request-URI and destination from the first contact; [None] is an error, with
    what was set before it. *)
Definition use_contact (mm : lk_mem) (c : ucontact) (t : target) : bool * target :=
  if negb (ok_uri mm) then (false, t)
  else
    let t := set_ruri c t in
    let '(ok, t) :=
      match path c ≫= non_empty, received c ≫= non_empty with
      | Some p, _ =>
          match path_dst p with
          | None => (false, t)
          | Some d =>
              if negb (ok_path_vec mm) then (false, t)
              else let t := set_path p t in if ok_dst mm then (true, set_dst d t) else (false, t)
          end
      | None, Some r => if ok_dst mm then (true, set_dst r t) else (false, t)
      | None, None => (true, t)
      end in
    if (ok : bool) then
      let ds := (Dset.setbflag 0 (cflags c) (Dset.set_ruri_q (qv c) (t_dset t))).2 in
      (true, Target (t_uri t) (t_new_uri t) (t_dst t) (t_path t)
               (if sock c =? 0 then t_sock t else sock c) ds)
    else (false, t).

(** A further contact as a branch; one that cannot be added is skipped. *)
Definition add_branch (c : ucontact) (t : target) : target :=
  let cur := default (t_uri t) (t_new_uri t) in
  match path c ≫= non_empty with
  | Some p =>
      match path_dst p with
      | None => t
      | Some d =>
          let dst := match d with [] => default [] (received c) | _ => d end in
          Target (t_uri t) (t_new_uri t) (t_dst t) (t_path t) (t_sock t)
            (Dset.append_branch cur (uri c) dst p (qv c) (cflags c) (sock c) (t_dset t)).2
      end
  | None =>
      Target (t_uri t) (t_new_uri t) (t_dst t) (t_path t) (t_sock t)
        (Dset.append_branch cur (uri c) (default [] (received c)) [] (qv c) (cflags c) (sock c) (t_dset t)).2
  end.

Fixpoint add_branches (l : list ucontact) (t : target) : target :=
  match l with
  | [] => t
  | c :: l' =>
      add_branches l' (if VALID_CONTACT c now && allowed_method c then add_branch c t else t)
  end.

(** [puri] is the parsed URI of the request; the return value, the message and user
    location. *)
Definition lookup (mm : lk_mem) (puri : option (bytes * bytes)) (t : target) (u : St) : Z * target * St :=
  match extract_aor cfg puri with
  | inl _ => (-3, t, u)
  | inr ar =>
      match ul_get_urecord ar u with
      | None => (-1, t, u)
      | Some r =>
          let '(ret, t) :=
            match first_usable (contacts r) (-1) with
            | inl ret => (ret, t)
            | inr (c, rest) =>
                let '(ok, t) := use_contact mm c t in
                if (ok : bool) then (1, if append_branches cfg then add_branches rest t else t) else (-3, t)
            end in
          (ret, t, ul_release_urecord r u)
      end
  end.

(** [registered] does not take the time: [act_time] is that of an earlier request. *)
Definition registered (act_time : Z) (puri : option (bytes * bytes)) (u : St) : Z :=
  match extract_aor cfg puri with
  | inl _ => -1
  | inr ar =>
      match ul_get_urecord ar u with
      | Some r => if existsb (fun c => VALID_CONTACT c act_time) (contacts r) then 1 else -1
      | None => -1
      end
  end.

End Lookup.

End Registrar.
