(* ===== verification/RegSpec.v ===== *)
(** * Registrar: what saving and looking up achieve

    The theorems about [Registrar] are proved from the laws of the user location
    interface ([UsrlocLaws]); the last section runs them on the domain. *)

From Stdlib Require Import ZArith Lia List String Ascii Bool Permutation.
From stdpp Require Import base tactics option list.
From S2P Require Import Prelude Ut QValue HashFunc Dset Ucontact Udomain UlApi RegMsg Registrar.

Module RegSpec.
Import Ut QValue Ucontact Udomain UlApi RegMsg Registrar.

(** ** Bindings *)

Section Spec.
Context {St : Type} `{UsrlocLaws St} (cfg : reg_config) (now : Z).
Context (Hnow : UL_EXPIRED_TIME <= now).

Definition contacts_at (ar : bytes) (u : St) : list ucontact :=
  match ul_get_urecord ar u with Some r => contacts r | None => [] end.

(** The contacts with other URIs are the same. *)
Definition same_others (x : bytes) (l l' : list ucontact) : Prop :=
  forall d, uri d <> x -> In d l <-> In d l'.

Definition unbound (x : bytes) (l : list ucontact) : Prop :=
  forall d, In d l -> uri d = x -> VALID_CONTACT d now = false.

(** The URI is bound with the expiry, q value and CSeq of the request. *)
Definition bound_as (x : bytes) (e q cs : Z) (l : list ucontact) : Prop :=
  exists d, In d l /\ uri d = x /\ expires d = u32 e /\ qv d = q /\ cseq d = cs /\ last_modified d = now.

(** What the request asks for one of its contacts. *)
Definition carried_out (m : reg_msg) (cs : Z) (c : contact) (l : list ucontact) : Prop :=
  let e := calc_contact_expires cfg now m (c_expires c) in
  if e =? 0 then unbound (c_uri c) l
  else exists q0 q, calc_contact_q cfg (c_q c) q0 = (0, q) /\ bound_as (c_uri c) e q cs l.

(** No contact has the Call-ID of the request with its CSeq or a later one. *)
Definition in_order (cid : bytes) (cs : Z) (x : bytes) (l : list ucontact) : Prop :=
  forall d, In d l -> uri d = x -> callid d = cid -> cseq d < cs.

Lemma others_refl x l : same_others x l l.
Proof. by intros d _. Qed.

Lemma others_trans x l l1 l2 : same_others x l l1 -> same_others x l1 l2 -> same_others x l l2.
Proof. intros A B d Hd. by rewrite (A d Hd), (B d Hd). Qed.

Lemma carried_others m cs c x l l' :
  c_uri c <> x -> same_others x l l' -> carried_out m cs c l -> carried_out m cs c l'.
Proof.
  intros Ne S. unfold carried_out. cbv zeta. case_match.
  - intros U d Hd Eu. apply U; [|done]. apply S; [congruence|done].
  - intros (q0 & q & Eq & d & Hd & Eu & R). exists q0, q. split; [done|]. exists d. split; [|done].
    apply S; [congruence|done].
Qed.

Lemma in_order_others cid cs x y l l' :
  x <> y -> same_others y l l' -> in_order cid cs x l -> in_order cid cs x l'.
Proof. intros Ne S O d Hd Eu. apply O; [|done]. apply S; [congruence|done]. Qed.

(** Replacing or adding the contact of a URI. *)
Lemma others_perm x c rest l l' :
  uri c = x -> Permutation l (c :: rest) -> Permutation l' rest -> same_others x l l'.
Proof.
  intros E P Q d Hd. split; intros Hin.
  - apply (Permutation_in d P) in Hin as [->|Hin]; [done|]. by apply (Permutation_in d (Permutation_sym Q)).
  - apply (Permutation_in d (Permutation_sym P)). right. by apply (Permutation_in d Q).
Qed.

Lemma others_sym x l l' : same_others x l l' -> same_others x l' l.
Proof. intros S d Hd. by rewrite (S d Hd). Qed.

Definition uris (l : list ucontact) : list bytes := map uri l.

Lemma uris_perm l l' : Permutation l l' -> NoDup (uris l) -> NoDup (uris l').
Proof. intros P N. unfold uris. by rewrite <- (Permutation_map uri P). Qed.

(** *** One contact *)

(** A record in user location. *)
Record holds (r : urecord) (u : St) : Prop := {
  h_ok : ul_ok u;
  h_get : ul_get_urecord (aor r) u = Some r;
  h_uris : NoDup (uris (contacts r))
}.

(** The change of one record in which [x] is the only URI touched. *)
Record changes (x : bytes) (r : urecord) (u : St) (r' : urecord) (u' : St) : Prop := {
  ch_holds : holds r' u';
  ch_aor : aor r' = aor r;
  ch_others : same_others x (contacts r) (contacts r');
  ch_frame : forall a, a <> aor r -> ul_get_urecord a u' = ul_get_urecord a u
}.

Lemma changes_refl x r u : holds r u -> changes x r u r u.
Proof. intros Hr. constructor; [done|done|apply others_refl|done]. Qed.

Lemma get_frame r r' (u u' : St) :
  (forall x, ul_get_urecord x u' = if decide (x = aor r) then Some r' else ul_get_urecord x u) -> aor r' = aor r ->
  ul_get_urecord (aor r') u' = Some r' /\ forall a, a <> aor r -> ul_get_urecord a u' = ul_get_urecord a u.
Proof.
  intros G E. split; [by rewrite G, E, decide_True|]. intros a Ha. by rewrite G, decide_False.
Qed.

Lemma insert_changes x ci r u :
  holds r u -> i_path ci <> Some [] -> (forall c, In c (contacts r) -> uri c <> x) ->
  let '(rc, o, r', u') := ul_insert_ucontact r x ci u in
  (rc = -1 /\ ~ ul_mem /\ changes x r u r' u') \/
  (rc = 0 /\ changes x r u r' u' /\ exists c, bound x ci c /\ In c (contacts r')).
Proof.
  intros Hr Hp Nx. pose proof (law_insert_ucontact u r x ci (h_ok _ _ Hr) (h_get _ _ Hr) Hp) as L.
  pose proof (law_mem_ucontact u r x ci) as M.
  destruct (ul_insert_ucontact r x ci u) as [[[rc o] r'] u']. destruct L as (OK & Ea & G & L).
  destruct (get_frame r r' u u' G Ea) as [G1 G2]. destruct o as [c|].
  - destruct L as (-> & B & P). right. split; [done|]. split; [constructor; [constructor|..]|]; try done.
    + apply (uris_perm (c :: contacts r)); [by symmetry|]. simpl. constructor; [|apply Hr].
      rewrite list_elem_of_In. intros Hin. apply in_map_iff in Hin as (d & E & Hd). apply (Nx d Hd).
      rewrite E. apply B.
    + apply others_sym, (others_perm x c (contacts r)); [apply B|done|done].
    + exists c. split; [done|]. apply (Permutation_in c (Permutation_sym P)). by left.
  - destruct L as [-> ->]. left. split; [done|]. split; [intros Hm; by apply (M Hm)|]. constructor; [constructor; [done|done|apply Hr]|done|apply others_refl|done].
Qed.

Lemma update_changes c ci r u :
  holds r u -> i_path ci <> Some [] -> In c (contacts r) ->
  returns (ul_update_ucontact r c ci u) (fun '(rc, r', u') =>
    rc = 0 /\ changes (uri c) r u r' u' /\ exists d, bound (uri c) ci d /\ In d (contacts r')).
Proof.
  intros Hr Hp Hc. eapply returns_impl; [apply (law_update_ucontact u r c ci (h_ok _ _ Hr) (h_get _ _ Hr) Hc Hp)|].
  intros [[rc r'] u'] (-> & OK & Ea & G & d & rest & B & P & P'). destruct (get_frame r r' u u' G Ea) as [G1 G2].
  split; [done|]. split; [constructor; [constructor|..]|]; try done.
  - apply (uris_perm (d :: rest)); [by symmetry|]. pose proof (uris_perm _ _ P (h_uris _ _ Hr)) as N.
    simpl in *. by rewrite (bd_uri _ _ _ B).
  - eapply others_trans; [by apply (others_perm _ c rest _ rest)|].
    apply others_sym, (others_perm _ d rest _ rest); [apply B|done|done].
  - exists d. split; [done|]. apply (Permutation_in d (Permutation_sym P')). by left.
Qed.

Lemma delete_changes c r u :
  holds r u -> In c (contacts r) ->
  returns (ul_delete_ucontact r c u) (fun '(r', u') =>
    changes (uri c) r u r' u' /\ unbound (uri c) (contacts r')).
Proof.
  intros Hr Hc. eapply returns_impl; [apply (law_delete_ucontact u r c (h_ok _ _ Hr) (h_get _ _ Hr) Hc)|].
  intros [r' u'] (OK & Ea & G & rest & P & D). destruct (get_frame r r' u u' G Ea) as [G1 G2].
  pose proof (uris_perm _ _ P (h_uris _ _ Hr)) as N. simpl in N. apply NoDup_cons in N as [Nc N].
  rewrite list_elem_of_In in Nc.
  assert (Hu : forall d, In d rest -> uri d = uri c -> False) by (intros d Hd E; apply Nc; rewrite <- E; by apply in_map).
  destruct D as [D|(c' & D & _ & Eu & Ee)].
  - split; [constructor; [constructor|..]; try done|].
    + by apply (uris_perm rest); [symmetry|].
    + by apply (others_perm _ c rest).
    + intros d Hd E. apply (Permutation_in d D) in Hd. by destruct (Hu d Hd E).
  - split; [constructor; [constructor|..]; try done|].
    + apply (uris_perm (c' :: rest)); [by symmetry|]. simpl. rewrite Eu. constructor; [by rewrite list_elem_of_In|done].
    + eapply others_trans; [by apply (others_perm _ c rest _ rest)|].
      by apply others_sym, (others_perm _ c' rest _ rest).
    + intros d Hd E. apply (Permutation_in d D) in Hd as [<-|Hd]; [|by destruct (Hu d Hd E)].
      unfold VALID_CONTACT. rewrite Ee. unfold UL_EXPIRED_TIME in *. apply orb_false_iff. split; [lia|done].
Qed.

Lemma store_changes f c r u :
  holds r u -> In c (contacts r) ->
  let c' := set_c_flags f c in let r' := set_contacts (put_contact c' (contacts r)) r in
  changes (uri c) r u r' (ul_store r' u) /\ In c' (contacts r').
Proof.
  intros Hr Hc c' r'. destruct (law_store u r c f (h_ok _ _ Hr) (h_get _ _ Hr) Hc) as [OK G].
  destruct (get_frame r r' u _ G eq_refl) as [G1 G2].
  destruct (law_get u (aor r) r (h_ok _ _ Hr) (h_get _ _ Hr)) as [_ Ni].
  assert (Hother : forall d, In d (contacts r) -> uri d <> uri c -> id d <> id c).
  { intros d Hd Ne E. apply Ne. by rewrite (map_inj_In id (contacts r) d c Ni Hd Hc E). }
  split; [constructor; [constructor|..]; try done|].
  - simpl. unfold uris. rewrite (put_contact_map uri c); [apply Hr|done|done|done|done].
  - intros d Hd. simpl. split; intros Hin.
    + apply put_contact_other; [done|]. by apply Hother.
    + apply put_contact_in in Hin as [->|[Hin _]]; [done|done].
  - simpl. by apply (put_contact_self c).
Qed.

Lemma changes_trans x r u r1 u1 r2 u2 :
  changes x r u r1 u1 -> changes x r1 u1 r2 u2 -> changes x r u r2 u2.
Proof.
  intros [A1 A2 A3 A4] [B1 B2 B3 B4]. constructor; [done|congruence|by eapply others_trans|].
  intros a Ha. rewrite B4 by congruence. by apply A4.
Qed.

(** *** The contact information *)

(** What a packed structure has in common for all contacts of the request. *)
Record packed (cid : bytes) (cs : Z) (ci : ucontact_info) : Prop := {
  pk_callid : i_callid ci = cid;
  pk_cseq : i_cseq ci = cs;
  pk_path : i_path ci <> Some [];
  pk_now : i_last_modified ci = now
}.

Definition msg_callid (m : reg_msg) : bytes := trim_trailing (default [] (m_callid m)).
Definition msg_cseq (m : reg_msg) : Z := s32 (str2int (default [] (m_cseq m))).2.

Lemma pack_msg_ok flags m ci pv :
  pack_msg cfg now flags m = inr (ci, pv) -> packed (msg_callid m) (msg_cseq m) ci.
Proof.
  unfold pack_msg, msg_cseq. cbv zeta. case_match; [done|].
  destruct (str2int (default [] (m_cseq m))) as [rc n]. case_match; [done|].
  destruct (path_enabled cfg); [|intros [= <- <-]; by constructor].
  destruct (m_path m) as [[[|x p] rcv]|]; [intros [= <- <-]; by constructor| |done].
  case_match; [|done]. intros [= <- <-]. by constructor.
Qed.

Lemma pack_contact_ok cid cs m ci c e ci' :
  packed cid cs ci -> pack_contact cfg m ci c e = inr ci' ->
  packed cid cs ci' /\ i_expires ci' = u32 e /\ exists q0, calc_contact_q cfg (c_q c) q0 = (0, i_q ci').
Proof.
  intros [P1 P2 P3 P4]. unfold pack_contact.
  destruct (calc_contact_q cfg (c_q c) (i_q ci)) as [rc q] eqn:Eq.
  destruct (rc <? 0) eqn:Er; [done|].
  destruct (match c_methods c with Some r => r | None => _ end) as [meth|]; [|done]. cbv zeta.
  match goal with |- match ?x with inl _ => _ | inr _ => _ end = _ -> _ => destruct x as [er|rcv] end; [done|].
  intros [= <-]. split; [by constructor|]. split; [done|]. exists (i_q ci). simpl. rewrite Eq. f_equal.
  unfold calc_contact_q in Eq. destruct (c_q c) as [[|x b]|]; simplify_eq; try done.
  destruct (str2q (i_q ci) (x :: b)) as [r2 q2]. injection Eq as <- <-. by destruct (r2 <? 0).
Qed.

Lemma pack_contact_err m ci c e : pack_contact cfg m ci c e = inl R_FINE -> False.
Proof.
  unfold pack_contact. destruct (calc_contact_q cfg (c_q c) (i_q ci)) as [rc q]. case_match; [done|].
  destruct (match c_methods c with Some r => r | None => _ end); [|done]. cbv zeta.
  destruct (zlen (i_received ci) =? 0); [|done]. destruct (c_received c); [done|].
  destruct (m_rcv_avp m) as [v|]; [|done]. by destruct (zlen v >? RECEIVED_MAX_SIZE).
Qed.

Lemma bound_carried cid cs m c e ci l d :
  calc_contact_expires cfg now m (c_expires c) = e -> e <> 0 -> packed cid cs ci ->
  i_expires ci = u32 e -> (exists q0, calc_contact_q cfg (c_q c) q0 = (0, i_q ci)) ->
  bound (c_uri c) ci d -> In d l -> carried_out m cs c l.
Proof.
  intros Ee Ne [P1 P2 P3 P4] Ex [q0 Eq] B Hd. unfold carried_out. cbv zeta. rewrite Ee, (proj2 (Z.eqb_neq e 0)) by done.
  exists q0, (i_q ci). split; [done|]. exists d. split; [done|]. destruct B. split; [done|]. split; [congruence|].
  split; [done|]. split; congruence.
Qed.

(** The parameters of a contact are in order. *)
Definition packable (m : reg_msg) (c : contact) : Prop :=
  forall ci e, exists ci', pack_contact cfg m ci c e = inr ci'.

Lemma packable_ok m c ci e err : packable m c -> pack_contact cfg m ci c e = inl err -> False.
Proof. intros P E. destruct (P ci e) as [ci' E']. congruence. Qed.

(** *** An existing record *)

Lemma update_one_ok mem m cid cs ci c r u :
  holds r u -> packed cid cs ci -> in_order cid cs (c_uri c) (contacts r) ->
  returns (update_one cfg now mem m ci c r u) (fun o =>
    match o with
    | None => carried_out m cs c (contacts r)
    | Some (err, ci', r', u') =>
        changes (c_uri c) r u r' u' /\ (err = R_FINE -> packed cid cs ci' /\ carried_out m cs c (contacts r')) /\
        (ul_mem -> packable m c -> err = R_FINE)
    end).
Proof.
  intros Hr Pk O. unfold update_one. cbv zeta. set (e := calc_contact_expires cfg now m (c_expires c)).
  pose proof (law_get_ucontact now r (c_uri c) (i_callid ci) (i_cseq ci)) as L.
  destruct (ul_get_ucontact now r (c_uri c) (i_callid ci) (i_cseq ci)) as [ret [d|]].
  - destruct L as (-> & Hd & Ed). cbn [Z.eqb].
    destruct (Z.eqb_spec e 0) as [E0|Ne].
    + unfold store_flag. destruct (store_changes (mem_flag mem (flags d)) d r u Hr Hd) as [C1 Hd'].
      set (d' := set_c_flags _ d) in *. set (r1 := set_contacts _ r) in *.
      eapply returns_bind; [apply (delete_changes d' r1 _ (ch_holds _ _ _ _ _ C1) Hd')|].
      intros [r2 u2] [C2 U]. apply returns_ret. change (uri d') with (uri d) in *. rewrite Ed in *.
      split; [by eapply changes_trans|]. split; [|done]. intros _. split; [done|]. unfold carried_out. cbv zeta.
      fold e. rewrite E0. done.
    + destruct (pack_contact cfg m ci c e) as [err|ci'] eqn:Ep.
      { apply returns_ret. split; [by apply changes_refl|].
        split; [intros ->; exfalso; by apply pack_contact_err in Ep|]. intros _ P. by destruct (packable_ok m c ci e err P). }
      destruct (pack_contact_ok cid cs m ci c e ci' Pk Ep) as (Pk' & Ex & Eq).
      eapply returns_bind; [apply (update_changes d ci' r u Hr (pk_path _ _ _ Pk') Hd)|].
      intros [[rc r2] u2] (-> & C & x & B & Hx). apply returns_ret. rewrite Ed in *. split; [done|].
      split; [|done]. intros _. split; [done|]. by apply (bound_carried cid cs m c e ci' _ x).
  - destruct L as (Nz & L1 & L2).
    assert (Hpos : ret > 0).
    { assert (~ ret < 0); [|lia]. intros Hlt. destruct (L2 Hlt) as (d & Hd & Eu & Ec & Es).
      rewrite (pk_callid _ _ _ Pk), (pk_cseq _ _ _ Pk) in *. pose proof (O d Hd Eu Ec). lia. }
    rewrite !(proj2 (Z.eqb_neq ret _)) by lia. specialize (L1 Hpos).
    destruct (Z.eqb_spec e 0) as [E0|Ne].
    + apply returns_ret. unfold carried_out. cbv zeta. fold e. rewrite E0. intros d Hd Eu. by destruct (L1 d Hd).
    + destruct (pack_contact cfg m ci c e) as [err|ci'] eqn:Ep.
      { apply returns_ret. split; [by apply changes_refl|].
        split; [intros ->; exfalso; by apply pack_contact_err in Ep|]. intros _ P. by destruct (packable_ok m c ci e err P). }
      destruct (pack_contact_ok cid cs m ci c e ci' Pk Ep) as (Pk' & Ex & Eq).
      pose proof (insert_changes (c_uri c) ci' r u Hr (pk_path _ _ _ Pk') L1) as I.
      destruct (ul_insert_ucontact r (c_uri c) ci' u) as [[[rc o] r'] u']. apply returns_ret.
      destruct I as [(-> & M & C)|(-> & C & x & B & Hx)]; (split; [done|]); [done|].
      split; [|done]. intros _. split; [done|]. by apply (bound_carried cid cs m c e ci' _ x).
Qed.

(** All the contacts of a request. *)
Definition all_carried (m : reg_msg) (cs : Z) (l : list contact) (old new : list ucontact) : Prop :=
  (forall c, In c l -> carried_out m cs c new) /\
  (forall d, ~ In (uri d) (map c_uri l) -> In d old <-> In d new).

Lemma all_carried_cons m cs c l old mid new :
  ~ In (c_uri c) (map c_uri l) -> carried_out m cs c mid -> same_others (c_uri c) old mid ->
  (forall c, In c l -> carried_out m cs c new) ->
  (forall d, ~ In (uri d) (map c_uri l) -> In d mid <-> In d new) ->
  all_carried m cs (c :: l) old new.
Proof.
  intros Nc Car Ot Y1 Y2. split.
  - intros c' [<-|Hc']; [|by apply Y1]. revert Car. unfold carried_out. cbv zeta. case_match.
    + intros U d Hd Eu. apply U; [|done]. apply Y2; [by rewrite Eu|done].
    + intros (q0 & q & Eq & d & Hd & Eu & R). exists q0, q. split; [done|]. exists d. split; [|done].
      apply Y2; [by rewrite Eu|done].
  - intros d Hd. simpl in Hd. rewrite (Ot d) by (intros E; apply Hd; auto). apply Y2. tauto.
Qed.

Lemma update_loop_ok mem m cid cs ci l r e_max u :
  holds r u -> packed cid cs ci -> NoDup (map c_uri l) ->
  (forall c, In c l -> in_order cid cs (c_uri c) (contacts r)) ->
  returns (update_loop cfg now mem m ci l r e_max u) (fun '(err, r', _, u') =>
    holds r' u' /\ aor r' = aor r /\ (forall a, a <> aor r -> ul_get_urecord a u' = ul_get_urecord a u) /\
    (err = R_FINE -> all_carried m cs l (contacts r) (contacts r')) /\
    (ul_mem -> (forall c, In c l -> packable m c) -> err = R_FINE)).
Proof.
  revert ci r e_max u. induction l as [|c l IH]; intros ci r e_max u Hr Pk N O.
  { apply returns_ret. do 3 (split; [done|]). split; [|done]. intros _. split; [by intros c []|done]. }
  simpl map in N. apply NoDup_cons in N as [Nc N]. rewrite list_elem_of_In in Nc. cbn [update_loop].
  eapply returns_bind; [apply (update_one_ok mem m cid cs ci c r u Hr Pk); apply O; by left|].
  assert (Hrest : forall c', In c' l -> c_uri c' <> c_uri c).
  { intros c' Hc' E. apply Nc. rewrite <- E. by apply in_map. }
  intros [[[[err ci1] r1] u1]|] X.
  - destruct X as (C & X & Pa). destruct C as [Hr1 Ea Ot Fr]. destruct (decide (err = R_FINE)) as [E|E].
    + destruct (X E) as [Pk1 Car].
      eapply returns_impl; [apply IH; [done|done|done|]|].
      * intros c' Hc'. eapply in_order_others; [by apply Hrest|exact Ot|]. apply O. by right.
      * intros [[[err2 r2] em2] u2] (Hr2 & Ea2 & Fr2 & Y & Z2). split; [done|]. split; [congruence|].
        split; [intros a Ha; rewrite Fr2 by congruence; by apply Fr|].
        split; [|intros M P; apply (Z2 M); intros c' Hc'; apply P; by right]. intros E2. destruct (Y E2) as [Y1 Y2].
        by apply (all_carried_cons m cs c l (contacts r) (contacts r1)).
    + apply returns_ret. do 4 (split; [done|]). intros M P. apply (Pa M), P. by left.
  - eapply returns_impl; [apply IH; [done|done|done|intros c' Hc'; apply O; by right]|].
    intros [[[err2 r2] em2] u2] (Hr2 & Ea2 & Fr2 & Y & Z2). do 3 (split; [done|]).
    split; [|intros M P; apply (Z2 M); intros c' Hc'; apply P; by right].
    intros E2. destruct (Y E2) as [Y1 Y2]. by apply (all_carried_cons m cs c l (contacts r) (contacts r)); [| |apply others_refl|..].
Qed.

(** *** A new record *)

Lemma bind_new_ok m cid cs ci c e r u :
  holds r u -> packed cid cs ci -> (forall d, In d (contacts r) -> uri d <> c_uri c) ->
  calc_contact_expires cfg now m (c_expires c) = e -> e <> 0 -> i_expires ci = u32 e ->
  (exists q0, calc_contact_q cfg (c_q c) q0 = (0, i_q ci)) ->
  returns (bind_new now c ci r u) (fun '(err, r', u') =>
    changes (c_uri c) r u r' u' /\ (err = R_FINE -> carried_out m cs c (contacts r')) /\ (ul_mem -> err = R_FINE)).
Proof.
  intros Hr Pk Nx Ee Ne Ex Eq. unfold bind_new.
  set (found := match contacts r with [] => None | _ => _ end).
  assert (Ef : found = None).
  { unfold found. destruct (contacts r) as [|d0 l] eqn:Ec; [done|]. rewrite <- Ec in *. clear Ec.
    pose proof (law_get_ucontact now r (c_uri c) (i_callid ci) (s32 (i_cseq ci + 1))) as L.
    destruct (ul_get_ucontact _ _ _ _ _) as [rc [d|]]; [|by destruct (rc =? 0)].
    destruct L as (_ & Hd & Eu). by destruct (Nx d Hd). }
  rewrite Ef. clear found Ef.
  pose proof (insert_changes (c_uri c) ci r u Hr (pk_path _ _ _ Pk) Nx) as I.
  destruct (ul_insert_ucontact r (c_uri c) ci u) as [[[rc o] r'] u']. apply returns_ret.
  destruct I as [(-> & M & C)|(-> & C & x & B & Hx)]; (split; [done|]); [done|].
  split; [|done]. intros _. by apply (bound_carried cid cs m c e ci _ x).
Qed.

(** The record of an address of record, if it has been made. *)
Definition may_hold (ar : bytes) (o : option urecord) (u : St) : Prop :=
  match o with
  | Some r => holds r u /\ aor r = ar
  | None => ul_ok u /\ ul_get_urecord ar u = None
  end.

Definition contacts_of (o : option urecord) : list ucontact := match o with Some r => contacts r | None => [] end.

Lemma may_hold_insert ar o u :
  ul_aor_ok ar -> may_hold ar o u ->
  let '(o', u') := match o with Some r => (Some r, u) | None => ul_insert_urecord ar u end in
  may_hold ar o' u' /\ contacts_of o' = contacts_of o /\
  (forall a, a <> ar -> ul_get_urecord a u' = ul_get_urecord a u) /\ (ul_mem -> o' <> None).
Proof.
  intros Ha Hm. destruct o as [r|]; [done|]. destruct Hm as [OK G].
  pose proof (law_insert_urecord u ar OK Ha G) as L.
  assert (M : ul_mem -> (ul_insert_urecord ar u).1 <> None) by (intros M; by apply law_mem_urecord).
  destruct (ul_insert_urecord ar u) as [o u'].
  destruct L as (OK' & Ho & F). assert (G' : ul_get_urecord ar u' = o) by by rewrite F, decide_True.
  split; [|split; [|split; [intros a Hne; by rewrite F, decide_False|done]]].
  - destruct o as [r|]; [|by split]. destruct (Ho r eq_refl) as [<- Ec]. split; [|done]. constructor; [done|done|].
    rewrite Ec. constructor.
  - destruct o as [r|]; [|done]. by destruct (Ho r eq_refl) as [_ Ec].
Qed.

Lemma changes_may_hold x r u r' u' ar :
  changes x r u r' u' -> aor r = ar -> may_hold ar (Some r') u' /\ forall a, a <> ar -> ul_get_urecord a u' = ul_get_urecord a u.
Proof. intros [C1 C2 _ C4] <-. split; [by split|done]. Qed.

(** Nothing stands in the way of the request. *)
Definition acceptable (flags : Z) (m : reg_msg) (l : list contact) : Prop :=
  ul_mem /\ max_contacts cfg = 0 /\ (exists x, pack_msg cfg now flags m = inr x) /\ forall c, In c l -> packable m c.

Lemma acceptable_cons flags m c l : acceptable flags m (c :: l) -> acceptable flags m l.
Proof. intros (A & B & C & D). do 3 (split; [done|]). intros x Hx. apply D. by right. Qed.

(** What a loop over the contacts of a new record gives. *)
Definition inserted (flags : Z) (m : reg_msg) (cs : Z) (ar : bytes) (l : list contact) (o : option urecord) (u : St)
    (x : rerr * option urecord * Z * bool * St) : Prop :=
  let '(err, o', _, _, u') := x in
  may_hold ar o' u' /\ (forall a, a <> ar -> ul_get_urecord a u' = ul_get_urecord a u) /\
  (err = R_FINE -> all_carried m cs l (contacts_of o) (contacts_of o')) /\
  (acceptable flags m l -> err = R_FINE).

Lemma inserted_error flags m cs ar l o u err o' em pv u' :
  may_hold ar o' u' -> (forall a, a <> ar -> ul_get_urecord a u' = ul_get_urecord a u) -> err <> R_FINE ->
  ~ acceptable flags m l -> inserted flags m cs ar l o u (err, o', em, pv, u').
Proof. by intros. Qed.

Lemma packed_again flags m (ci : option (ucontact_info * bool)) ci' pv :
  (forall x b, ci = Some (x, b) -> packed (msg_callid m) (msg_cseq m) x) ->
  match ci with Some x => inr x | None => pack_msg cfg now flags m end = inr (ci', pv) ->
  packed (msg_callid m) (msg_cseq m) ci'.
Proof.
  intros Hci E. destruct ci as [[x b]|]; [|by eapply pack_msg_ok]. injection E as -> ->. by eapply Hci.
Qed.

Lemma pack_msg_err flags m : pack_msg cfg now flags m = inl R_FINE -> False.
Proof.
  unfold pack_msg. cbv zeta. case_match; [done|]. destruct (str2int _) as [rc n]. case_match; [done|].
  destruct (path_enabled cfg); [|done]. destruct (m_path m) as [[[|x p] rcv]|]; [done| |done]. by case_match.
Qed.

(** A contact that is skipped because it asks for no binding. *)
Lemma inserted_skip flags m cs ar c l o u x :
  calc_contact_expires cfg now m (c_expires c) = 0 -> ~ In (c_uri c) (map c_uri l) ->
  (forall d, In d (contacts_of o) -> uri d <> c_uri c) ->
  inserted flags m cs ar l o u x -> inserted flags m cs ar (c :: l) o u x.
Proof.
  destruct x as [[[[err o'] em] pv] u']. intros E Nc Hn (H1 & H2 & H3 & H4). split; [done|]. split; [done|].
  split; [|intros A; by apply H4, (acceptable_cons _ _ c)]. intros Ef. destruct (H3 Ef) as [Y1 Y2].
  apply (all_carried_cons m cs c l (contacts_of o) (contacts_of o)); [done| |apply others_refl|done|done].
  unfold carried_out. cbv zeta. rewrite E. intros d Hd Eu. by destruct (Hn d Hd).
Qed.

(** A contact that was bound, and the rest of the loop. *)
Lemma inserted_step flags m cs ar c l o r1 u u1 x :
  ~ In (c_uri c) (map c_uri l) -> carried_out m cs c (contacts r1) ->
  same_others (c_uri c) (contacts_of o) (contacts r1) ->
  (forall a, a <> ar -> ul_get_urecord a u1 = ul_get_urecord a u) ->
  inserted flags m cs ar l (Some r1) u1 x -> inserted flags m cs ar (c :: l) o u x.
Proof.
  destruct x as [[[[err o'] em] pv] u']. intros Nc Car Ot Fr (H1 & H2 & H3 & H4). split; [done|].
  split; [intros a Ha; rewrite H2 by done; by apply Fr|].
  split; [|intros A; by apply H4, (acceptable_cons _ _ c)]. intros Ef. destruct (H3 Ef) as [Y1 Y2].
  by apply (all_carried_cons m cs c l (contacts_of o) (contacts r1)).
Qed.

Lemma insert_loop_ok flags m ar l o ci num e_max u :
  ul_aor_ok ar -> may_hold ar o u -> NoDup (map c_uri l) ->
  (forall d, In d (contacts_of o) -> ~ In (uri d) (map c_uri l)) ->
  (forall x b, ci = Some (x, b) -> packed (msg_callid m) (msg_cseq m) x) ->
  returns (insert_loop cfg now flags m ar l o ci num e_max u) (inserted flags m (msg_cseq m) ar l o u).
Proof.
  intros Ha. revert o ci num e_max u.
  induction l as [|c l IH]; intros o ci num e_max u Hm N Hn Hci.
  { apply returns_ret. split; [done|]. split; [done|]. split; [|done]. intros _. split; [by intros c []|done]. }
  simpl map in N. apply NoDup_cons in N as [Nc N]. rewrite list_elem_of_In in Nc. cbn [insert_loop]. cbv zeta.
  assert (Hc : forall d, In d (contacts_of o) -> uri d <> c_uri c) by (intros d Hd E; apply (Hn d Hd); by left).
  assert (Hl : forall d, In d (contacts_of o) -> ~ In (uri d) (map c_uri l)) by (intros d Hd E; apply (Hn d Hd); by right).
  set (e := calc_contact_expires cfg now m (c_expires c)). destruct (Z.eqb_spec e 0) as [E0|Ne].
  { eapply returns_impl; [by apply IH|]. intros x. by apply inserted_skip. }
  destruct (negb (max_contacts cfg =? 0) && (num >=? max_contacts cfg)) eqn:Em.
  { apply returns_ret, inserted_error; [done|done|done|]. intros (_ & A & _). by rewrite A in Em. }
  pose proof (may_hold_insert ar o u Ha Hm) as I.
  destruct (match o with Some r => (Some r, u) | None => ul_insert_urecord ar u end) as [o1 u1].
  destruct I as (Hm1 & Ec1 & F1 & Mm). destruct o1 as [r|]; cycle 1.
  { apply returns_ret, inserted_error; [done|done|done|]. intros (M & _). by apply Mm. }
  destruct (match ci with Some x => inr x | None => pack_msg cfg now flags m end) as [err|[ci1 pv]] eqn:Ep.
  { destruct ci as [x|]; [done|]. apply returns_ret, inserted_error; [done|done|by intros ->; apply pack_msg_err in Ep|].
    intros (_ & _ & [x Ex] & _). congruence. }
  pose proof (packed_again flags m ci ci1 pv Hci Ep) as Pk.
  destruct (pack_contact cfg m ci1 c e) as [err|ci2] eqn:Ec.
  { apply returns_ret, inserted_error; [done|done|by intros ->; apply pack_contact_err in Ec|].
    intros (_ & _ & _ & P). apply (packable_ok m c ci1 e err); [|done]. apply P. by left. }
  destruct (pack_contact_ok _ _ m ci1 c e ci2 Pk Ec) as (Pk2 & Ex & Eq). destruct Hm1 as [Hr Ear].
  simpl in Ec1. rewrite <- Ec1 in Hc, Hl.
  eapply returns_bind; [by apply (bind_new_ok m (msg_callid m) (msg_cseq m) ci2 c e r u1)|].
  intros [[err r2] u2] (C & Car & Me). pose proof (ch_others _ _ _ _ _ C) as Ot.
  destruct (changes_may_hold _ _ _ _ _ _ C Ear) as [Hm2 F2].
  assert (F : forall a, a <> ar -> ul_get_urecord a u2 = ul_get_urecord a u) by (intros a Hne; rewrite F2, F1 by done; done).
  destruct (decide (err = R_FINE)) as [E|E]; cycle 1.
  { apply returns_ret, inserted_error; [done|done|done|]. intros (M & _). by apply E, Me. }
  eapply returns_impl; [apply IH; [done|done| |by intros x b [= <- <-]]|].
  - simpl. intros d Hd Hin. destruct (decide (uri d = c_uri c)) as [Eu|Nu]; [by rewrite Eu in Hin|].
    apply (Ot d Nu) in Hd. by apply (Hl d).
  - intros x. apply inserted_step; [done|by apply Car| |done]. by rewrite <- Ec1.
Qed.

(** *** The whole request *)

Lemma may_hold_at ar o u : may_hold ar o u -> ul_ok u /\ contacts_at ar u = contacts_of o /\ NoDup (uris (contacts_of o)).
Proof.
  destruct o as [r|]; unfold contacts_at; simpl.
  - intros [Hr <-]. split; [apply Hr|]. rewrite (h_get _ _ Hr). split; [done|apply Hr].
  - intros [OK ->]. split; [done|]. split; [done|constructor].
Qed.

Lemma release_at r u :
  holds r u -> let u' := ul_release_urecord r u in
  ul_ok u' /\ contacts_at (aor r) u' = contacts r /\ forall a, a <> aor r -> ul_get_urecord a u' = ul_get_urecord a u.
Proof.
  intros Hr. destruct (law_release u r (h_ok _ _ Hr) (h_get _ _ Hr)) as (OK & L1 & L2 & L3).
  split; [done|]. split; [|done]. unfold contacts_at. destruct (decide (contacts r = [])) as [E|E].
  - destruct L2 as [-> | ->]; [done|by rewrite E].
  - by rewrite L1.
Qed.

(** The state after a request for [ar] whose contacts are [l]. *)
Definition registered_as (m : reg_msg) (ar : bytes) (l : list contact) (u u' : St) : Prop :=
  NoDup (uris (contacts_at ar u')) /\ all_carried m (msg_cseq m) l (contacts_at ar u) (contacts_at ar u').

Definition reg_result (flags : Z) (m : reg_msg) (ar : bytes) (l : list contact) (u : St) (err : rerr) (u' : St) : Prop :=
  ul_ok u' /\ (forall a, a <> ar -> ul_get_urecord a u' = ul_get_urecord a u) /\
  (err = R_FINE -> registered_as m ar l u u') /\ (acceptable flags m l -> err = R_FINE).

Lemma with_usr_usr (u : St) s : usr (with_usr u s) = u.
Proof. done. Qed.

Lemma insert_contacts_ok flags m ar l s :
  ul_aor_ok ar -> ul_ok (usr s) -> ul_get_urecord ar (usr s) = None -> NoDup (map c_uri l) ->
  returns (insert_contacts cfg now flags m ar l s) (fun '(err, s') =>
    reg_result flags m ar l (usr s) err (usr s') /\ accepted s' = accepted s /\ rejected s' = rejected s).
Proof.
  intros Ha OK G N. unfold insert_contacts.
  eapply returns_bind; [by apply (insert_loop_ok flags m ar l None None)|].
  assert (Eat : contacts_at ar (usr s) = []) by (unfold contacts_at; by rewrite G).
  intros [[[[err o] em] pv] u] (Hm & F & X & Ac). destruct (decide (err = R_FINE)) as [E|E].
  - apply returns_ret. destruct (may_hold_at ar o u Hm) as (OKu & Eu & Nu). specialize (X E). simpl in X.
    set (s1 := match o with None => _ | Some r => _ end).
    assert (R : reg_result flags m ar l (usr s) R_FINE (usr s1) /\ accepted s1 = accepted s /\ rejected s1 = rejected s).
    { unfold s1. destruct o as [r|].
      - destruct Hm as [Hr Er]. destruct (release_at r u Hr) as (O1 & O2 & O3). rewrite Er in O2, O3.
        assert (Es : usr s1 = ul_release_urecord r u) by (unfold s1; by destruct (contacts r)).
        split; [|by destruct (contacts r)]. fold s1. unfold reg_result. rewrite Es. split; [done|].
        split; [intros a Hne; rewrite O3 by done; by apply F|]. split; [|done]. intros _. unfold registered_as. by rewrite O2, Eat.
      - split; [|done]. split; [done|]. split; [done|]. split; [|done]. intros _. unfold registered_as. simpl. by rewrite Eat, Eu. }
    by destruct (m_tcp_check m && (em >? 0)).
  - destruct o as [r|].
    + eapply returns_bind; [eapply returns_bind; [apply (law_delete_urecord u ar); apply (may_hold_at _ _ _ Hm)|]|].
      * intros [rc u'] (_ & OK' & _ & F'). apply (returns_ret _ (fun u' => ul_ok u' /\ forall a, a <> ar -> ul_get_urecord a u' = ul_get_urecord a u)). by split.
      * intros u' [OK' F']. apply returns_ret. split; [|done]. split; [done|].
        split; [intros a Hne; simpl; rewrite F', F by done; done|done].
    + eapply returns_bind; [apply (returns_ret u (fun x => x = u)); done|]. intros ? ->. apply returns_ret.
      split; [|done]. split; [apply Hm|]. split; [done|done].
Qed.

(** The state a request has to find: its CSeq is new for each of its contacts. *)
Record reg_ready (m : reg_msg) (ar : bytes) (l : list contact) (u : St) : Prop := {
  rr_ok : ul_ok u;
  rr_aor : ul_aor_ok ar;
  rr_uris : NoDup (uris (contacts_at ar u));
  rr_new : NoDup (map c_uri l);
  rr_order : forall c, In c l -> in_order (msg_callid m) (msg_cseq m) (c_uri c) (contacts_at ar u)
}.

(** The contacts that [update_contacts] goes through. *)
Definition gone_through (cur : list contact) (after : list contact_hdr) : list contact :=
  (visited cur (if negb (max_contacts cfg =? 0) then (visited cur after).2 else after)).1.

Lemma visited_again cur after :
  max_contacts cfg = 0 \/ after = [] -> gone_through cur after = (visited cur after).1.
Proof. unfold gone_through. intros [-> | ->]; [done|]. destruct cur; by destruct (negb _). Qed.

Lemma visited_end cur after :
  cur <> [] -> Forall (fun h => hcontacts h <> []) after -> (visited cur after).2 = [].
Proof.
  revert cur. induction after as [|h after IH]; intros cur Hc F; [by destruct cur|].
  apply Forall_cons in F as [Fh F]. destruct cur as [|c cur]; [done|]. simpl. specialize (IH (hcontacts h) Fh F).
  by destruct (visited (hcontacts h) after).
Qed.

Lemma update_contacts_ok flags m cur after r s :
  let l := gone_through cur after in
  ul_get_urecord (aor r) (usr s) = Some r ->
  reg_ready m (aor r) l (usr s) ->
  returns (update_contacts cfg now flags m cur after r s) (fun '(err, r', s') =>
    holds r' (usr s') /\ aor r' = aor r /\ (forall a, a <> aor r -> ul_get_urecord a (usr s') = ul_get_urecord a (usr s)) /\
    (err = R_FINE -> all_carried m (msg_cseq m) l (contacts r) (contacts r')) /\
    (acceptable flags m l -> err = R_FINE) /\ accepted s' = accepted s /\ rejected s' = rejected s).
Proof.
  intros l G [OK _ Nu Nn Or]. unfold contacts_at in Nu, Or. rewrite G in Nu, Or.
  assert (Hr : holds r (usr s)) by by constructor. unfold update_contacts.
  destruct (pack_msg cfg now flags m) as [err|[ci pv]] eqn:Ep.
  { apply returns_ret. do 3 (split; [done|]). split; [intros ->; by apply pack_msg_err in Ep|]. split; [|done].
    intros (_ & _ & [x Ex] & _). congruence. }
  assert (Ev : gone_through cur after = l) by done. unfold gone_through in Ev.
  destruct (visited cur after) as [tested after'] eqn:Evis. simpl in Ev. clearbody l.
  destruct (decide _) as [Et|Et]; cycle 1.
  { apply returns_ret. do 4 (split; [done|]). split; [|done]. intros (_ & A & _). by rewrite A in Et. }
  destruct (visited cur (if negb (max_contacts cfg =? 0) then after' else after)) as [l' a']. simpl in Ev. subst l'.
  eapply returns_bind; [by apply (update_loop_ok flags m _ _ _ _ _ _ _ Hr (pack_msg_ok _ _ _ _ Ep) Nn Or)|].
  intros [[[err r'] em] u'] (Hr' & Ea & F & X & Ac).
  assert (Ac' : acceptable flags m l -> err = R_FINE) by (intros (M & _ & _ & P); by apply Ac).
  destruct (decide (err = R_FINE)) as [E|E]; apply returns_ret.
  - destruct (m_tcp_check m && _); simpl; auto 10.
  - simpl. auto 10.
Qed.

Lemma add_existing_ok flags m cur after ar s :
  let l := gone_through cur after in
  is_Some (ul_get_urecord ar (usr s)) -> reg_ready m ar l (usr s) ->
  returns (add_contacts cfg now flags m cur after ar s) (fun '(err, s') =>
    reg_result flags m ar l (usr s) err (usr s') /\ accepted s' = accepted s /\ rejected s' = rejected s).
Proof.
  intros l [r G] R. unfold add_contacts. rewrite G.
  destruct (law_get (usr s) ar r (rr_ok _ _ _ _ R) G) as [Ea _]. subst ar.
  eapply returns_bind; [by apply (update_contacts_ok flags m cur after r s)|].
  intros [[err r'] s'] (Hr & Ea & F & X & Ac & A1 & A2). apply returns_ret. split; [|done].
  destruct (release_at r' (usr s') Hr) as (O1 & O2 & O3). rewrite Ea in O2, O3. simpl. split; [done|].
  split; [intros a Ha; rewrite O3 by done; by apply F|]. split; [|done]. intros E. unfold registered_as. rewrite O2.
  split; [apply Hr|]. unfold contacts_at. rewrite G. by apply X.
Qed.

Lemma add_contacts_ok flags m cur after ar s :
  let l := (visited cur after).1 in
  max_contacts cfg = 0 \/ after = [] -> reg_ready m ar l (usr s) ->
  returns (add_contacts cfg now flags m cur after ar s) (fun '(err, s') =>
    reg_result flags m ar l (usr s) err (usr s') /\ accepted s' = accepted s /\ rejected s' = rejected s).
Proof.
  intros l Hl R. unfold l in *. destruct (ul_get_urecord ar (usr s)) as [r|] eqn:G.
  - rewrite <- (visited_again cur after Hl) in *. apply add_existing_ok; [by rewrite G|done].
  - unfold add_contacts. rewrite G. apply insert_contacts_ok; [apply R|apply R|done|apply R].
Qed.

Lemma send_reply_usr m err (s : reg_st St) :
  let s' := (send_reply cfg m err s).2 in
  usr s' = usr s /\ accepted s' = accepted s /\ rejected s' = rejected s.
Proof. unfold send_reply. by destruct (m_reply_ok m). Qed.

(** The headers and parameters of the request have values the module accepts. *)
Record well_formed (m : reg_msg) (l : list contact) : Prop := {
  wf_callid : zlen (msg_callid m) <= CALLID_MAX_SIZE;
  wf_cseq : (str2int (default [] (m_cseq m))).1 = 0;
  wf_path : path_enabled cfg = true -> is_Some (m_path m) /\ m_set_path m = true;
  wf_received : forall v, m_rcv_avp m = Some v -> zlen v <= RECEIVED_MAX_SIZE;
  wf_q : forall c q0, In c l -> (calc_contact_q cfg (c_q c) q0).1 = 0;
  wf_methods : forall c, In c l -> c_methods c <> Some None
}.

Lemma well_formed_acceptable flags m l :
  ul_mem -> max_contacts cfg = 0 -> well_formed m l -> acceptable flags m l.
Proof.
  intros M Hx [W1 W2 W3 W4 W5 W6]. split; [done|]. split; [done|]. split.
  - unfold pack_msg. cbv zeta. rewrite Z.gtb_ltb, (proj2 (Z.ltb_ge _ _)) by done.
    destruct (str2int (default [] (m_cseq m))) as [rc n]. simpl in W2. subst rc. cbn [Z.ltb Z.compare].
    destruct (path_enabled cfg); [|eauto]. destruct (W3 eq_refl) as [[[p rcv] ->] ->]. destruct p; eauto.
  - intros c Hc ci e. unfold pack_contact. pose proof (W5 c (i_q ci) Hc) as Eq.
    destruct (calc_contact_q cfg (c_q c) (i_q ci)) as [rc q]. simpl in Eq. subst rc. cbn [Z.ltb Z.compare].
    pose proof (W6 c Hc) as Em.
    destruct (match c_methods c with Some r => r | None => _ end) as [meth|] eqn:E;
      [|by destruct (c_methods c) as [[|]|]].
    cbv zeta. destruct (zlen (i_received ci) =? 0); [|eauto]. destruct (c_received c); [eauto|].
    destruct (m_rcv_avp m) as [v|] eqn:Ev; [|eauto]. rewrite Z.gtb_ltb, (proj2 (Z.ltb_ge _ _)) by (by apply W4). eauto.
Qed.

Definition msg_contacts (m : reg_msg) : list contact :=
  let '(cur, after) := get_first_contact m in (visited cur after).1.

(** A request with contacts for the address of record [ar], that passes the checks. *)
Record register_of (old : Z) (m : reg_msg) (ar : bytes) : Prop := {
  ro_parse : parse_message m = R_FINE;
  ro_check : check_contacts cfg old m = (R_FINE, false);
  ro_aor : extract_aor cfg (default None (m_to m)) = inr ar;
  ro_contacts : (get_first_contact m).1 <> []
}.

(** The end of [save]. *)
Lemma save_end (norpl : bool) m err (s : reg_st St) :
  exists rc s', (if decide (err = R_FINE) then
      let s := add_accepted s in
      if norpl then Ret (1, s)
      else let '(rc, s) := send_reply cfg m R_FINE s in Ret (if rc <? 0 then -1 else 1, s)
    else
      let s := add_rejected s in
      Ret (0, if norpl then s else (send_reply cfg m err s).2)) = Ret (rc, s') /\
    usr s' = usr s /\
    (err = R_FINE /\ rc <> 0 /\ accepted s' = accepted s + 1 /\ rejected s' = rejected s \/
     err <> R_FINE /\ rc = 0 /\ accepted s' = accepted s /\ rejected s' = rejected s + 1).
Proof.
  destruct (decide (err = R_FINE)) as [E|E]; cbv zeta.
  - destruct norpl; [by exists 1, (add_accepted s); auto 10|].
    pose proof (send_reply_usr m R_FINE (add_accepted s)) as (A & B & C).
    destruct (send_reply cfg m R_FINE (add_accepted s)) as [rc s']. simpl in A, B, C.
    eexists _, s'. split; [done|]. split; [done|]. left. split; [done|]. by destruct (rc <? 0).
  - eexists 0, _. split; [done|]. destruct norpl; [by auto 10|].
    destruct (send_reply_usr m err (add_rejected s)) as (A & B & C). simpl in *. auto 10.
Qed.

(** [save] is what [add_contacts] does, and the reply. *)
Lemma save_add old (mem norpl : bool) m ar s P :
  let '(cur, after) := get_first_contact m in
  register_of old m ar ->
  returns (add_contacts cfg now (if mem then FL_MEM else 0) m cur after ar (with_path false s)) (fun '(err, s') =>
    P err (usr s') /\ accepted s' = accepted s /\ rejected s' = rejected s) ->
  returns (save cfg now old mem norpl m s) (fun '(rc, s') =>
    exists err, P err (usr s') /\
    (err = R_FINE /\ rc <> 0 /\ accepted s' = accepted s + 1 /\ rejected s' = rejected s \/
     err <> R_FINE /\ rc = 0 /\ accepted s' = accepted s /\ rejected s' = rejected s + 1)).
Proof.
  destruct (get_first_contact m) as [cur after] eqn:Ef. intros [R1 R2 R3 R4] X. unfold save. cbv zeta. rewrite R1, R2.
  destruct (decide (R_FINE = R_FINE)); [|done]. rewrite Ef in *. simpl in R4.
  destruct (decide (R_FINE = R_FINE)); [|done]. rewrite R3. destruct cur as [|c cur]; [done|].
  eapply returns_bind; [apply X|]. intros [err s'] (Y & A1 & A2).
  destruct (save_end norpl m err s') as (rc & s2 & E & Eu & Z). cbv zeta in E. rewrite E. apply returns_ret.
  exists err. rewrite Eu. split; [done|]. rewrite A1, A2 in Z. done.
Qed.

Lemma save_ok old (mem norpl : bool) m ar s :
  let l := msg_contacts m in
  register_of old m ar -> max_contacts cfg = 0 \/ (length (contact_hdrs m) <= 1)%nat -> reg_ready m ar l (usr s) ->
  returns (save cfg now old mem norpl m s) (fun '(rc, s') =>
    exists err, reg_result (if mem then FL_MEM else 0) m ar l (usr s) err (usr s') /\
    (err = R_FINE /\ rc <> 0 /\ accepted s' = accepted s + 1 /\ rejected s' = rejected s \/
     err <> R_FINE /\ rc = 0 /\ accepted s' = accepted s /\ rejected s' = rejected s + 1)).
Proof.
  intros l Ro Hl R. unfold l, msg_contacts in *.
  pose proof (save_add old mem norpl m ar s (reg_result (if mem then FL_MEM else 0) m ar (msg_contacts m) (usr s))) as S.
  unfold msg_contacts in S. destruct (get_first_contact m) as [cur after] eqn:Ef. apply S; [done|].
  apply (add_contacts_ok _ m cur after ar (with_path false s)); [|done].
  destruct Hl as [|Hl]; [auto|]. right. unfold get_first_contact in Ef.
  destruct (contact_hdrs m) as [|h [|h' hs]]; simplify_eq/=; try done. lia.
Qed.

(** *** The star *)

Lemma flag_loop_ok mem todo r u :
  ul_ok u -> ul_get_urecord (aor r) u = Some r -> (forall c, In c todo -> In c (contacts r)) -> NoDup (map id todo) ->
  let u' := flag_loop mem todo r u in
  ul_ok u' /\ forall a, a <> aor r -> ul_get_urecord a u' = ul_get_urecord a u.
Proof.
  revert r u. induction todo as [|c todo IH]; intros r u OK G Hin N; [done|].
  simpl map in N. apply NoDup_cons in N as [Nc N]. rewrite list_elem_of_In in Nc. cbn [flag_loop]. unfold store_flag.
  destruct (law_store u r c (mem_flag mem (flags c)) OK G (Hin c (or_introl eq_refl))) as [OK1 G1].
  set (c' := set_c_flags _ c) in *. set (r' := set_contacts _ r) in *.
  destruct (get_frame r r' u _ G1 eq_refl) as [G2 F]. destruct (IH r' (ul_store r' u) OK1 G2) as [OK2 F2]; [|done|].
  - intros d Hd. apply put_contact_other; [apply Hin; by right|]. intros E. apply Nc.
    change (id c') with (id c) in E. rewrite <- E. by apply in_map.
  - split; [done|]. intros a Ha. by rewrite F2, F.
Qed.

Lemma star_ok mem ar s :
  ul_ok (usr s) ->
  returns (star cfg now mem ar s) (fun '(err, s') =>
    err = R_FINE /\ ul_ok (usr s') /\ accepted s' = accepted s /\ rejected s' = rejected s /\
    (forall c, In c (contacts_at ar (usr s')) -> expires c = UL_EXPIRED_TIME) /\
    forall a, a <> ar -> ul_get_urecord a (usr s') = ul_get_urecord a (usr s)).
Proof.
  intros OK. unfold star. set (u := match ul_get_urecord ar (usr s) with Some r => _ | None => _ end).
  assert (Hu : ul_ok u /\ forall a, a <> ar -> ul_get_urecord a u = ul_get_urecord a (usr s)).
  { unfold u. destruct (ul_get_urecord ar (usr s)) as [r|] eqn:G; [|done].
    destruct (law_get (usr s) ar r OK G) as [<- Ni]. by apply flag_loop_ok. }
  destruct Hu as [OKu Fu]. clearbody u.
  eapply returns_bind; [by apply (law_delete_urecord u ar)|]. intros [rc u'] (Erc & OK' & X & F). simpl in *. subst rc.
  apply returns_ret. do 4 (split; [done|]). split.
  - intros c Hc. unfold contacts_at in Hc. simpl in Hc. destruct (ul_get_urecord ar u') as [r|] eqn:G; [|done]. by eapply X.
  - intros a Ha. simpl. by rewrite F, Fu.
Qed.

Lemma save_star_ok old (mem norpl : bool) m ar s :
  parse_message m = R_FINE -> check_contacts cfg old m = (R_FINE, true) ->
  extract_aor cfg (default None (m_to m)) = inr ar -> ul_ok (usr s) ->
  returns (save cfg now old mem norpl m s) (fun '(rc, s') =>
    rc <> 0 /\ ul_ok (usr s') /\ accepted s' = accepted s + 1 /\ rejected s' = rejected s /\
    (forall c, In c (contacts_at ar (usr s')) -> expires c = UL_EXPIRED_TIME) /\
    forall a, a <> ar -> ul_get_urecord a (usr s') = ul_get_urecord a (usr s)).
Proof.
  intros R1 R2 R3 OK. unfold save. cbv zeta. rewrite R1, R2. destruct (decide (R_FINE = R_FINE)); [|done].
  assert (Ef : (get_first_contact m).1 = []).
  { unfold check_contacts in R2. unfold get_first_contact. destruct (contact_hdrs m) as [|h hs]; [done|].
    destruct (RegMsg.star h); [|done]. destruct (get_expires_hf cfg old m >? 0); [done|].
    by destruct (hcontacts h). }
  destruct (get_first_contact m) as [cur after]. simpl in Ef. subst cur.
  destruct (decide (R_FINE = R_FINE)); [|done]. rewrite R3.
  eapply returns_bind; [by apply (star_ok (if mem then FL_MEM else 0) ar (with_path false s))|].
  intros [err s'] (-> & OK' & A1 & A2 & X & F).
  destruct (save_end norpl m R_FINE s') as (rc & s2 & E & Eu & Y). cbv zeta in E. rewrite E. apply returns_ret.
  rewrite Eu. destruct Y as [(_ & Y1 & Y2 & Y3)|(Y & _)]; [|done]. rewrite A1 in Y2. rewrite A2 in Y3. auto 10.
Qed.

(** *** Lookup *)

Section Look.
Context (method : Z) (path_dst : bytes -> option bytes).

Definition usable (c : ucontact) : bool := VALID_CONTACT c now && allowed_method cfg method c.

Lemma first_usable_spec l ret :
  match first_usable cfg now method l ret with
  | inr (c, rest) => List.filter usable l = c :: List.filter usable rest
  | inl rc => List.filter usable l = [] /\ rc = if existsb (fun c => VALID_CONTACT c now) l then -2 else ret
  end.
Proof.
  revert ret. induction l as [|c l IH]; intros ret; [done|]. simpl.
  change (usable c) with (VALID_CONTACT c now && allowed_method cfg method c).
  destruct (VALID_CONTACT c now) eqn:Ev; cbn [andb orb]; [|apply IH].
  destruct (allowed_method cfg method c) eqn:Ea; [done|].
  specialize (IH (-2)). destruct (first_usable _ _ _ l (-2)) as [rc|[d rest]]; [|done].
  destruct IH as [-> ->]. split; [done|]. by case_match.
Qed.

Lemma add_branches_fold l t :
  add_branches cfg now method path_dst l t =
  fold_left (fun t c => add_branch path_dst c t) (List.filter usable l) t.
Proof.
  revert t. induction l as [|c l IH]; intros t; [done|]. simpl. rewrite IH.
  change (usable c) with (VALID_CONTACT c now && allowed_method cfg method c).
  by destruct (VALID_CONTACT c now && allowed_method cfg method c).
Qed.

(** The destination of a contact: its path before the address it was received from. *)
Definition dst_of (c : ucontact) : bytes :=
  match path c ≫= non_empty with
  | Some p => match path_dst p with Some (x :: d) => x :: d | _ => default [] (received c) end
  | None => default [] (received c)
  end.

Definition branch_of (c : ucontact) : Dset.branch :=
  Dset.Branch (uri c) (dst_of c) (default [] (path c)) (qv c) (sock c) (cflags c).

(** A contact whose path parses and whose parts fit the buffers of a branch. *)
Record branchable (c : ucontact) : Prop := {
  ba_path : forall p, path c ≫= non_empty = Some p -> is_Some (path_dst p);
  ba_uri : uri c <> [];
  ba_ulen : zlen (uri c) < MAX_URI_SIZE;
  ba_dlen : zlen (dst_of c) < MAX_URI_SIZE;
  ba_plen : zlen (default [] (path c)) < MAX_PATH_SIZE
}.

Definition set_dset (ds : Dset.dset) (t : target) : target :=
  Target (t_uri t) (t_new_uri t) (t_dst t) (t_path t) (t_sock t) ds.
Definition add_one (b : Dset.branch) (ds : Dset.dset) : Dset.dset :=
  Dset.DSet (Dset.branches ds ++ [b]) (Dset.ruri_q ds) (Dset.ruri_bflags ds).

Lemma add_branch_ok c t :
  branchable c -> Dset.nr_branches (t_dset t) < Dset.MAX_BRANCHES - 1 ->
  add_branch path_dst c t = set_dset (add_one (branch_of c) (t_dset t)) t.
Proof.
  intros [Bp Bu Bl Bd Bq] Hn. unfold add_branch, branch_of.
  assert (A : forall p d, default [] (path c) = p -> dst_of c = d ->
    (Dset.append_branch (default (t_uri t) (t_new_uri t)) (uri c) d p (qv c) (cflags c) (sock c) (t_dset t)).2 =
    add_one (Dset.Branch (uri c) (dst_of c) (default [] (path c)) (qv c) (sock c) (cflags c)) (t_dset t)).
  { intros p d <- <-. unfold Dset.append_branch. rewrite (proj2 (Z.eqb_neq _ _)) by lia.
    destruct (uri c) as [|x xs]; [done|]. by rewrite !Z.gtb_ltb, !(proj2 (Z.ltb_ge _ _)) by lia. }
  assert (En : default [] (path c) = match path c ≫= non_empty with Some p => p | None => [] end)
    by (by destruct (path c) as [[|]|]). unfold dst_of in A at 1.
  destruct (path c ≫= non_empty) as [p|] eqn:E.
  - destruct (Bp p eq_refl) as [d Ed]. rewrite Ed in *. rewrite (A p); [done|done|by destruct d].
  - by rewrite (A []).
Qed.

Lemma add_branches_ok l t :
  Forall branchable l -> Dset.nr_branches (t_dset t) + zlen l <= Dset.MAX_BRANCHES - 1 ->
  fold_left (fun t c => add_branch path_dst c t) l t =
  set_dset (Dset.DSet (Dset.branches (t_dset t) ++ map branch_of l) (Dset.ruri_q (t_dset t)) (Dset.ruri_bflags (t_dset t))) t.
Proof.
  revert t. induction l as [|c l IH]; intros t F Hn.
  { simpl. rewrite app_nil_r. by destruct t as [? ? ? ? ? []]. }
  apply Forall_cons in F as [Fc F]. rewrite zlen_cons in Hn. pose proof (zlen_nonneg l). cbn [fold_left].
  rewrite add_branch_ok by (done || lia). rewrite IH; [|done|].
  - simpl. by rewrite <- app_assoc.
  - unfold Dset.nr_branches in *. simpl. rewrite zlen_app. unfold zlen in *. simpl. lia.
Qed.

(** Where the first contact sends the request. *)
Definition first_dst (c : ucontact) (t : target) : option bytes :=
  match path c ≫= non_empty, received c ≫= non_empty with
  | Some p, _ => path_dst p
  | None, Some r => Some r
  | None, None => t_dst t
  end.

Definition mem_all : lk_mem := LkMem true true true.

Lemma use_contact_ok c t :
  (forall p, path c ≫= non_empty = Some p -> is_Some (path_dst p)) ->
  let '(ok, t') := use_contact path_dst mem_all c t in
  ok = true /\ t_new_uri t' = Some (uri c) /\ t_dst t' = first_dst c t /\ t_uri t' = t_uri t /\
  t_path t' = match path c ≫= non_empty with Some p => Some p | None => t_path t end /\
  t_sock t' = (if sock c =? 0 then t_sock t else sock c) /\
  Dset.branches (t_dset t') = Dset.branches (t_dset t) /\ Dset.ruri_q (t_dset t') = qv c.
Proof.
  intros Hp. unfold use_contact, first_dst. cbn [negb ok_uri mem_all ok_path_vec ok_dst].
  destruct (path c ≫= non_empty) as [p|].
  - destruct (Hp p eq_refl) as [d Ed]. rewrite Ed. simpl. auto 10.
  - destruct (received c ≫= non_empty); simpl; auto 10.
Qed.

Lemma lookup_keeps mm puri t u a :
  ul_ok u -> contacts_at a (lookup cfg now method path_dst mm puri t u).2 = contacts_at a u.
Proof.
  intros OK. unfold lookup. destruct (extract_aor cfg puri) as [e|ar]; [done|].
  destruct (ul_get_urecord ar u) as [r|] eqn:G; [|done].
  destruct (match first_usable _ _ _ _ _ with inl _ => _ | inr _ => _ end) as [ret t']. simpl.
  destruct (law_get u ar r OK G) as [<- _]. destruct (law_release u r OK G) as (OK' & L1 & L2 & L3).
  destruct (decide (a = aor r)) as [->|Ne]; [|unfold contacts_at; by rewrite L3].
  unfold contacts_at. rewrite G. destruct (decide (contacts r = [])) as [E|E]; [|by rewrite L1].
  by destruct L2 as [-> | ->].
Qed.

Lemma lookup_none mm puri t u ar :
  extract_aor cfg puri = inr ar -> List.filter usable (contacts_at ar u) = [] ->
  (lookup cfg now method path_dst mm puri t u).1 =
    (if existsb (fun c => VALID_CONTACT c now) (contacts_at ar u) then -2 else -1, t).
Proof.
  intros Ea. unfold lookup, contacts_at. rewrite Ea. destruct (ul_get_urecord ar u) as [r|]; [|done]. intros F.
  pose proof (first_usable_spec (contacts r) (-1)) as X.
  destruct (first_usable _ _ _ _ _) as [rc|[c rest]]; [|by rewrite X in F]. by destruct X as [_ ->].
Qed.

Lemma lookup_some puri t u ar c rest :
  extract_aor cfg puri = inr ar -> List.filter usable (contacts_at ar u) = c :: rest ->
  (forall p, path c ≫= non_empty = Some p -> is_Some (path_dst p)) -> Forall branchable rest ->
  Dset.nr_branches (t_dset t) + zlen rest <= Dset.MAX_BRANCHES - 1 ->
  let '(rc, t', _) := lookup cfg now method path_dst mem_all puri t u in
  rc = 1 /\ t_new_uri t' = Some (uri c) /\ t_dst t' = first_dst c t /\
  t_path t' = match path c ≫= non_empty with Some p => Some p | None => t_path t end /\
  t_sock t' = (if sock c =? 0 then t_sock t else sock c) /\ Dset.ruri_q (t_dset t') = qv c /\
  Dset.branches (t_dset t') = Dset.branches (t_dset t) ++ (if append_branches cfg then map branch_of rest else []).
Proof.
  intros Ea Ef Hp Hb Hn. unfold lookup. rewrite Ea. unfold contacts_at in Ef.
  destruct (ul_get_urecord ar u) as [r|]; [|done]. pose proof (first_usable_spec (contacts r) (-1)) as X.
  destruct (first_usable _ _ _ _ _) as [rc|[c' rest']]; [by destruct X as [X _]; rewrite X in Ef|].
  rewrite X in Ef. injection Ef as -> Er. pose proof (use_contact_ok c t Hp) as U.
  destruct (use_contact path_dst mem_all c t) as [ok t1]. destruct U as (-> & U1 & U2 & U3 & U4 & U5 & U6 & U7).
  split; [done|]. destruct (append_branches cfg); [|rewrite app_nil_r; auto 10].
  rewrite add_branches_fold, Er, add_branches_ok; [simpl; rewrite U6; auto 10|done|].
  unfold Dset.nr_branches in *. by rewrite U6.
Qed.

Lemma add_branches_uri l t : t_new_uri (add_branches cfg now method path_dst l t) = t_new_uri t.
Proof.
  revert t. induction l as [|c l IH]; intros t; [done|]. simpl. rewrite IH. destruct (_ && _); [|done].
  unfold add_branch. destruct (path c ≫= non_empty) as [p|]; [|done]. by destruct (path_dst p).
Qed.

Lemma lookup_first puri t u ar c rest :
  extract_aor cfg puri = inr ar ->
  List.filter usable (contacts_at ar u) = c :: rest -> (forall p, is_Some (path_dst p)) ->
  let x := (lookup cfg now method path_dst mem_all puri t u).1 in x.1 = 1 /\ t_new_uri x.2 = Some (uri c).
Proof.
  intros Ea Ef Hp. unfold lookup. rewrite Ea. unfold contacts_at in Ef.
  destruct (ul_get_urecord ar u) as [r|]; [|done]. pose proof (first_usable_spec (contacts r) (-1)) as X.
  destruct (first_usable _ _ _ _ _) as [k|[c' rest']]; [by destruct X as [X _]; rewrite X in Ef|].
  rewrite X in Ef. injection Ef as -> _. pose proof (use_contact_ok c t (fun p _ => Hp p)) as U.
  destruct (use_contact path_dst mem_all c t) as [ok t1]. destruct U as (-> & U1 & _).
  destruct (append_branches cfg); simpl; by rewrite ?add_branches_uri.
Qed.

(** *** Registration, then lookup *)

Lemma calc_range m ep : - 2 ^ 31 <= calc_contact_expires cfg now m ep < 2 ^ 31.
Proof.
  unfold calc_contact_expires. cbv zeta.
  assert (H1 : forall (b : bool) x y, - 2 ^ 31 <= y < 2 ^ 31 -> - 2 ^ 31 <= (if b then s32 x else y) < 2 ^ 31)
    by (intros [] x y Hy; [apply s32_range|done]).
  apply H1, H1. assert (Hg : - 2 ^ 31 <= get_expires_hf cfg now m < 2 ^ 31).
  { unfold get_expires_hf. destruct (m_expires m ≫= parse_expires) as [[[] v]|]; try apply s32_range.
    apply H1. lia. }
  destruct ep as [[|x b]|]; [done| |done]. destruct (str2int (x :: b)) as [rc v].
  destruct (Z.eqb_spec (if rc <? 0 then default_expires cfg else s32 v) 0) as [->|Ne]; cbn [negb]; [lia|apply s32_range].
Qed.

Lemma carried_usable m cs c (l : list ucontact) :
  carried_out m cs c l -> now < calc_contact_expires cfg now m (c_expires c) -> method_filtering cfg = false ->
  List.filter usable l <> [].
Proof.
  unfold carried_out, UL_EXPIRED_TIME in *. cbv zeta. pose proof (calc_range m (c_expires c)) as R.
  set (e := calc_contact_expires cfg now m (c_expires c)) in *. intros X He Hm E.
  rewrite (proj2 (Z.eqb_neq e 0)) in X by lia. destruct X as (q0 & q & _ & d & Hd & _ & Ex & _).
  assert (Hf : In d (List.filter usable l)); [|by rewrite E in Hf].
  apply filter_In. split; [done|]. unfold usable, allowed_method, VALID_CONTACT.
  rewrite Hm, Ex, u32_small by lia. rewrite (proj2 (Z.ltb_lt now e)) by done. done.
Qed.

Lemma expired_unusable l :
  (forall d, In d l -> VALID_CONTACT d now = false) ->
  List.filter usable l = [] /\ existsb (fun c => VALID_CONTACT c now) l = false.
Proof.
  intros X. induction l as [|d l IH]; [done|]. simpl. unfold usable at 1.
  rewrite (X d) by (by left). apply IH. intros x Hx. apply X. by right.
Qed.

Lemma gone_expired m cs (l : list contact) (old new : list ucontact) :
  all_carried m cs l old new -> (forall d, In d old -> In (uri d) (map c_uri l)) ->
  (forall c, In c l -> calc_contact_expires cfg now m (c_expires c) = 0) ->
  forall d, In d new -> VALID_CONTACT d now = false.
Proof.
  intros [A1 A2] Hold H0' d Hd. destruct (in_dec (fun a b : bytes => decide (a = b)) (uri d) (map c_uri l)) as [Hi|Hi].
  - apply in_map_iff in Hi as (c & Eu & Hc). pose proof (A1 c Hc) as X. unfold carried_out in X. cbv zeta in X.
    rewrite (H0' c Hc) in X. by apply (X d).
  - apply (A2 d Hi) in Hd. by destruct (Hi (Hold d Hd)).
Qed.

Lemma star_expired l : (forall d : ucontact, In d l -> expires d = UL_EXPIRED_TIME) -> forall d, In d l -> VALID_CONTACT d now = false.
Proof.
  intros X d Hd. unfold VALID_CONTACT. rewrite (X d Hd). unfold UL_EXPIRED_TIME in *. apply orb_false_iff. split; [lia|done].
Qed.

End Look.

(** C14: a REGISTER request that passes the checks, has contacts with distinct URIs whose
    CSeq is new for each of them, and one Contact header unless there is no limit on the
    contacts ([later_headers_ignored]), handled against any implementation of the user
    location interface that keeps the laws: [save] returns, the records of other addresses of
    record are untouched, and either the request is counted as rejected and the result is 0,
    or it is counted as accepted, each of its contacts is bound with the expiry and q value
    computed for it and the CSeq of the request (or is no longer valid when it asked to be
    removed), and every other contact is as it was.  A well-formed request is accepted when
    there is no limit and no shortage of memory. *)
Theorem save_binds old (mem norpl : bool) m ar (s : reg_st St) :
  register_of old m ar -> max_contacts cfg = 0 \/ (length (contact_hdrs m) <= 1)%nat ->
  reg_ready m ar (msg_contacts m) (usr s) ->
  returns (save cfg now old mem norpl m s) (fun '(rc, s') =>
    ul_ok (usr s') /\ (forall a, a <> ar -> ul_get_urecord a (usr s') = ul_get_urecord a (usr s)) /\
    (rc <> 0 /\ accepted s' = accepted s + 1 /\ rejected s' = rejected s /\
       NoDup (uris (contacts_at ar (usr s'))) /\
       all_carried m (msg_cseq m) (msg_contacts m) (contacts_at ar (usr s)) (contacts_at ar (usr s')) \/
     rc = 0 /\ accepted s' = accepted s /\ rejected s' = rejected s + 1) /\
    (ul_mem -> max_contacts cfg = 0 -> well_formed m (msg_contacts m) -> rc <> 0)).
Proof.
  intros R Hl Hr. eapply returns_impl; [by apply (save_ok old mem norpl m ar s)|].
  intros [rc s'] (err & (OK & F & X & A) & Y). split; [done|]. split; [done|]. split.
  - destruct Y as [(E & Y)|(_ & Y)]; [left|by right]. destruct (X E) as [X1 X2]. tauto.
  - intros M Hx W. apply (well_formed_acceptable (if mem then FL_MEM else 0)) in W; [|done|done].
    destruct Y as [(_ & Y & _)|(E & _)]; [done|]. by destruct (E (A W)).
Qed.

(** C16: [lookup] of an address of record with a usable contact returns 1, makes its
    first usable contact the Request-URI with the contact's q value, and its path, or else
    the address it was received from, the destination; if [append_branches] is set, the other
    usable contacts follow as branches in their order, and otherwise no branch is added.
    This needs memory, a path of the first contact that parses if it has one, and other
    contacts whose parts fit a branch and of which there are no more than branches left.
    With no usable contact the message is left as it was and the result is -2 when some
    contact is valid and -1 otherwise.  User location is not changed. *)
Theorem lookup_finds method path_dst puri t (u : St) ar :
  extract_aor cfg puri = inr ar -> ul_ok u ->
  let '(rc, t', u') := lookup cfg now method path_dst mem_all puri t u in
  (forall a, contacts_at a u' = contacts_at a u) /\
  match List.filter (usable method) (contacts_at ar u) with
  | [] => rc = (if existsb (fun c => VALID_CONTACT c now) (contacts_at ar u) then -2 else -1) /\ t' = t
  | c :: rest =>
      (forall p, path c ≫= non_empty = Some p -> is_Some (path_dst p)) -> Forall (branchable path_dst) rest ->
      Dset.nr_branches (t_dset t) + zlen rest <= Dset.MAX_BRANCHES - 1 ->
      rc = 1 /\ t_new_uri t' = Some (uri c) /\ t_dst t' = first_dst path_dst c t /\
      t_path t' = match path c ≫= non_empty with Some p => Some p | None => t_path t end /\
      t_sock t' = (if sock c =? 0 then t_sock t else sock c) /\ Dset.ruri_q (t_dset t') = qv c /\
      Dset.branches (t_dset t') =
        Dset.branches (t_dset t) ++ (if append_branches cfg then map (branch_of path_dst) rest else [])
  end.
Proof.
  intros Ea OK. pose proof (fun a => lookup_keeps method path_dst mem_all puri t u a OK) as K.
  pose proof (lookup_none method path_dst mem_all puri t u ar Ea) as N.
  pose proof (fun c rest => lookup_some method path_dst puri t u ar c rest Ea) as S.
  destruct (lookup cfg now method path_dst mem_all puri t u) as [[rc t'] u']. split; [done|].
  destruct (List.filter (usable method) (contacts_at ar u)) as [|c rest]; [|by apply S].
  specialize (N eq_refl). simpl in N. injection N as -> ->. done.
Qed.

(** C15: a REGISTER request that was accepted and gave some contact an expiry beyond the
    present time makes the next lookup of its address of record, in the same second, succeed
    with the URI of a valid contact; one that removed every contact of the record, by URI or
    with a star, makes it return -1.  As for [save_binds] the request has one Contact header
    unless there is no limit on the contacts, and user location keeps its laws; contacts are
    not filtered by method, every path that is stored parses, and the lookup has memory. *)
Theorem register_then_lookup old (mem norpl : bool) m ar (s : reg_st St) method path_dst puri t :
  max_contacts cfg = 0 \/ (length (contact_hdrs m) <= 1)%nat -> method_filtering cfg = false ->
  (forall p, is_Some (path_dst p)) -> extract_aor cfg puri = inr ar ->
  let l := msg_contacts m in
  let found s' := (lookup cfg now method path_dst mem_all puri t (usr s')).1 in
  let e c := calc_contact_expires cfg now m (c_expires c) in
  (register_of old m ar -> reg_ready m ar l (usr s) ->
   returns (save cfg now old mem norpl m s) (fun '(rc, s') => rc <> 0 ->
     ((exists c, In c l /\ now < e c) -> exists d, In d (contacts_at ar (usr s')) /\ VALID_CONTACT d now = true /\
        (found s').1 = 1 /\ t_new_uri (found s').2 = Some (uri d)) /\
     ((forall d, In d (contacts_at ar (usr s)) -> In (uri d) (map c_uri l)) -> (forall c, In c l -> e c = 0) ->
        found s' = (-1, t)))) /\
  (parse_message m = R_FINE -> check_contacts cfg old m = (R_FINE, true) ->
   extract_aor cfg (default None (m_to m)) = inr ar -> ul_ok (usr s) ->
   returns (save cfg now old mem norpl m s) (fun '(rc, s') => found s' = (-1, t))).
Proof.
  intros Hl Hmf Hpd Ea l found e. split.
  - intros R Hr. eapply returns_impl; [by apply (save_ok old mem norpl m ar s)|].
    intros [rc s'] (err & (OK & F & X & A) & Y) Hrc. destruct Y as [(E & Y)|(_ & Y & _)]; [|done].
    destruct (X E) as [X1 X2]. split.
    + intros (c & Hc & He). pose proof (carried_usable method m _ c _ (proj1 X2 c Hc) He Hmf) as U.
      destruct (List.filter (usable method) (contacts_at ar (usr s'))) as [|d rest] eqn:Ef; [done|]. exists d.
      assert (Hd : In d (List.filter (usable method) (contacts_at ar (usr s')))) by (rewrite Ef; by left).
      apply filter_In in Hd as [Hd Hu]. split; [done|]. unfold usable in Hu. apply andb_true_iff in Hu as [Hv _].
      split; [done|]. by apply (lookup_first method path_dst puri t (usr s') ar d rest).
    + intros Hold H0'. destruct (expired_unusable method (contacts_at ar (usr s'))) as [N1 N2];
        [by apply (gone_expired m (msg_cseq m) l (contacts_at ar (usr s)))|].
      unfold found. rewrite (lookup_none method path_dst mem_all puri t (usr s') ar Ea N1). by rewrite N2.
  - intros R1 R2 R3 OK. eapply returns_impl; [by apply (save_star_ok old mem norpl m ar s)|].
    intros [rc s'] (_ & _ & _ & _ & X & _).
    destruct (expired_unusable method (contacts_at ar (usr s'))) as [N1 N2]; [by apply star_expired|].
    unfold found. rewrite (lookup_none method path_dst mem_all puri t (usr s') ar Ea N1). by rewrite N2.
Qed.

(** With a limit on the number of contacts, a request for an existing record has no
    effect beyond its first Contact header: the test for the limit leaves the position in
    the message at the last header, and the loop that follows starts from there.  The
    request is accepted all the same. *)
Theorem later_headers_ignored old (mem norpl : bool) m ar (s : reg_st St) :
  max_contacts cfg <> 0 -> register_of old m ar -> is_Some (ul_get_urecord ar (usr s)) ->
  let '(cur, after) := get_first_contact m in
  Forall (fun h => hcontacts h <> []) after -> reg_ready m ar cur (usr s) ->
  returns (save cfg now old mem norpl m s) (fun '(rc, s') => rc <> 0 ->
    all_carried m (msg_cseq m) cur (contacts_at ar (usr s)) (contacts_at ar (usr s'))).
Proof.
  intros Hx Ro Hr. pose proof (save_add old mem norpl m ar s) as S. pose proof (ro_contacts _ _ _ Ro) as Hc.
  destruct (get_first_contact m) as [cur after]. intros F R.
  assert (Eg : gone_through cur after = cur).
  { unfold gone_through. rewrite (visited_end cur after Hc F), (proj2 (Z.eqb_neq _ _) Hx). simpl. by destruct cur. }
  eapply returns_impl; [apply (S (reg_result (if mem then FL_MEM else 0) m ar cur (usr s))); [done|]|].
  - pose proof (add_existing_ok (if mem then FL_MEM else 0) m cur after ar (with_path false s) Hr) as X.
    cbv zeta in X. rewrite Eg in X. by apply X.
  - intros [rc s'] (err & (_ & _ & X & _) & Y) Hrc. destruct Y as [(E & _)|(_ & Y & _)]; [|done]. by apply X.
Qed.

End Spec.

(** ** On the domain *)

Definition demo_ul : ul_config := demo_cfg WRITE_BACK.
Definition demo_api : UsrlocApi world := domain_api demo_ul (fun _ => true) (fun _ => mem_ok) (fun _ => true).
#[local] Existing Instance demo_api.
#[local] Instance demo_laws : UsrlocLaws world.
Proof. by apply domain_laws. Defined.

Definition demo_world : world := World (new_udomain 4) empty_st 1.
Definition demo_reg_st (w : world) : reg_st world := RegSt w [] false 0 0 [] [].
Definition demo_ct (u e : bytes) : contact := Contact u None (Some e) None None 0 None.
Definition joe : bytes := B "joe@example.com".
Definition one_contact : reg_config :=
  RegConfig 3600 Q_UNSPECIFIED 60 7200 1 true false true [] false false 0 0 (B "received").

(** A request with the given CSeq and Contact headers. *)
Definition demo_request (cs : bytes) (hs : list (list contact)) : reg_msg :=
  RegMsg true (Some (Some (B "joe", B "Example.com"))) (Some (B "cid")) (Some cs) None
    (map (fun l => Some (CHdr false l)) hs) 1 None None None true None None 0 false None true.

Fixpoint saves (cfg : reg_config) (l : list (Z * reg_msg)) (s : reg_st world) : res (reg_st world) :=
  match l with
  | [] => Ret s
  | (now, m) :: l' => '(_, s) ← save cfg now now false false m s; saves cfg l' s
  end.

(** The limit on the contacts of a record can be exceeded: a contact that has expired
    but is still in memory does not count, yet removing it makes room for another.  Three
    requests are accepted with [max_contacts] 1, and two valid contacts are left. *)
Theorem limit_exceeded :
  max_contacts one_contact = 1 /\
  exists s, saves one_contact
      [(1000, demo_request (B "1") [[demo_ct (B "sip:e") (B "60")]]);
       (2000, demo_request (B "2") [[demo_ct (B "sip:a") (B "3600")]]);
       (2001, demo_request (B "3") [[demo_ct (B "sip:e") (B "0"); demo_ct (B "sip:b") (B "3600")]])]
      (demo_reg_st demo_world) = Ret s /\
    accepted s = 3 /\ rejected s = 0 /\
    map uri (List.filter (fun c => VALID_CONTACT c 2001) (contacts_at joe (usr s))) = [B "sip:a"; B "sip:b"].
Proof. split; [done|]. eexists. split; [by vm_compute|]. by vm_compute. Qed.

Lemma demo_world_ok : @ul_ok world demo_api demo_laws demo_world.
Proof. constructor; [apply new_inv; lia|]. intros r Hr. by vm_compute in Hr. Qed.

Lemma demo_ready m l :
  NoDup (map c_uri l) -> @reg_ready world demo_api demo_laws m joe l demo_world.
Proof.
  intros N. constructor; [apply demo_world_ok|eexists; by vm_compute|constructor|done|]. intros c Hc d Hd. by vm_compute in Hd.
Qed.

Definition two_contacts : list contact := [demo_ct (B "sip:a") (B "60"); demo_ct (B "sip:b") (B "0")].

Lemma demo_register cfg now hs :
  extract_aor cfg (Some (B "joe", B "Example.com")) = inr joe -> default [] (head hs) <> [] ->
  forallb (fun l => negb (existsb too_long l)) (tail hs) = true ->
  register_of cfg now (demo_request (B "1") hs) joe.
Proof.
  intros Ha Hh Ht. destruct hs as [|l hs]; [done|].
  assert (Eh : forall hs, contact_hdrs (demo_request (B "1") hs) = map (CHdr false) hs).
  { intros h. unfold contact_hdrs. simpl. induction h as [|x h IH]; simpl; [done|]. by f_equal. }
  constructor; [|..|].
  - unfold parse_message. simpl. assert (E : existsb absent (map (fun l => Some (CHdr false l)) hs) = false)
      by (clear; by induction hs). by rewrite E.
  - unfold check_contacts. rewrite Eh. simpl. f_equal. clear Eh Hh. simpl in Ht.
    induction hs as [|x hs IH]; [done|]. simpl in *. apply andb_true_iff in Ht as [Hx Ht].
    by rewrite (proj1 (negb_true_iff _) Hx), IH.
  - done.
  - unfold get_first_contact. by rewrite Eh.
Qed.

(** No limit, branches for the contacts after the first, and paths. *)
Definition open_registrar : reg_config :=
  RegConfig 3600 Q_UNSPECIFIED 60 7200 0 true false true [] false true 0 0 (B "received").

(** Two Contact headers, three contacts, and a path. *)
Definition path_request : reg_msg :=
  RegMsg true (Some (Some (B "joe", B "Example.com"))) (Some (B "cid")) (Some (B "1")) None
    [Some (CHdr false [demo_ct (B "sip:a") (B "60"); demo_ct (B "sip:b") (B "0")]);
     Some (CHdr false [demo_ct (B "sip:c") (B "90")])]
    1 None None (Some (B "<sip:edge;lr>", [])) true None None 0 false (Some true) true.

Lemma path_registers : register_of open_registrar 1000 path_request joe.
Proof. by constructor. Qed.

Lemma path_ready : @reg_ready world demo_api demo_laws path_request joe (msg_contacts path_request) demo_world.
Proof. apply demo_ready. apply (bool_decide_unpack _). by vm_compute. Qed.

Lemma path_well_formed : well_formed open_registrar path_request (msg_contacts path_request).
Proof.
  constructor; try done.
  - intros c q0 Hc. vm_compute in Hc. by destruct Hc as [<-|[<-|[<-|[]]]].
  - intros c Hc. vm_compute in Hc. by destruct Hc as [<-|[<-|[<-|[]]]].
Qed.

Lemma save_binds_witness :
  returns (save open_registrar 1000 1000 false false path_request (demo_reg_st demo_world))
    (fun '(rc, s) => rc <> 0 /\ accepted s = 1 /\
      exists d, In d (contacts_at joe (usr s)) /\ uri d = B "sip:c" /\ expires d = 1090 /\ cseq d = 1).
Proof.
  eapply returns_impl; [apply (save_binds open_registrar 1000 ltac:(done) 1000 false false _ joe)|].
  - apply path_registers.
  - by left.
  - apply path_ready.
  - intros [rc s] (_ & _ & X & W). assert (Hrc : rc <> 0).
    { apply W; [done|done|apply path_well_formed]. }
    destruct X as [(_ & A & _ & _ & C & _)|(E & _)]; [|done]. split; [done|]. split; [done|].
    specialize (C (demo_ct (B "sip:c") (B "90"))). destruct C as (q0 & q & _ & d & Hd & Eu & Ee & _ & Es & _);
      [vm_compute; tauto|]. by exists d.
Defined.

Definition demo_target : target := Target (B "sip:joe@example.com") None None None 0 (Dset.DSet [] Q_UNSPECIFIED 0).

(** The record that the request leaves. *)
Definition path_world : world :=
  match saves open_registrar [(1000, path_request)] (demo_reg_st demo_world) with
  | Ret s => usr s
  | Fault _ => demo_world
  end.

Lemma path_world_ok : @ul_ok world demo_api demo_laws path_world.
Proof.
  destruct (save_ok open_registrar 1000 ltac:(done) 1000 false false path_request joe
    (demo_reg_st demo_world)) as ([rc s] & E & err & (OK & _) & _).
  - apply path_registers.
  - by left.
  - apply path_ready.
  - unfold path_world. cbn [saves]. rewrite E. exact OK.
Qed.

Definition joe_uri : option (bytes * bytes) := Some (B "joe", B "example.com").

(** Two usable contacts with paths in the same second, and none an hour later. *)
Lemma lookup_finds_witness :
  (let '(rc, t, _) := lookup open_registrar 1000 1 Some mem_all joe_uri demo_target path_world in
   rc = 1 /\ t_new_uri t = Some (B "sip:a") /\ t_path t = Some (B "<sip:edge;lr>") /\
   map Dset.b_uri (Dset.branches (t_dset t)) = [B "sip:c"]) /\
  (lookup open_registrar 4600 1 Some mem_all joe_uri demo_target path_world).1 = (-1, demo_target).
Proof.
  split.
  - pose proof (lookup_finds open_registrar 1000 1 Some joe_uri demo_target path_world joe eq_refl path_world_ok) as X.
    destruct (lookup _ _ _ _ _ _ _ _) as [[rc t] u]. destruct X as [_ X].
    destruct (List.filter _ _) as [|c rest] eqn:Ef; [by vm_compute in Ef|]. vm_compute in Ef. injection Ef as <- <-.
    destruct X as (X1 & X2 & _ & X4 & _ & _ & X7).
    + intros p _. by eexists.
    + constructor; [|constructor]. constructor; [intros p _; by eexists|done|by vm_compute..].
    + by vm_compute.
    + rewrite X2, X4, X7. split_and!; [done|by vm_compute..].
  - pose proof (lookup_finds open_registrar 4600 1 Some joe_uri demo_target path_world joe eq_refl path_world_ok) as X.
    destruct (lookup _ _ _ _ _ _ _ _) as [[rc t] u]. destruct X as [_ X].
    destruct (List.filter _ _) as [|c rest] eqn:Ef; [|by vm_compute in Ef]. by destruct X as [-> ->].
Defined.

Definition demo_forward : reg_config :=
  RegConfig 3600 Q_UNSPECIFIED 60 7200 2 false false true [] false false 0 0 (B "received").

Lemma register_then_lookup_witness :
  returns (save demo_forward 1000 1000 false false (demo_request (B "1") [two_contacts]) (demo_reg_st demo_world))
    (fun '(rc, s) => rc <> 0 -> exists d, In d (contacts_at joe (usr s)) /\
      (lookup demo_forward 1000 1 Some mem_all (Some (B "joe", B "example.com")) demo_target (usr s)).1.1 = 1).
Proof.
  destruct (register_then_lookup demo_forward 1000 ltac:(done) 1000 false false (demo_request (B "1") [two_contacts])
    joe (demo_reg_st demo_world) 1 Some (Some (B "joe", B "example.com")) demo_target) as [X _].
  - right. by vm_compute.
  - done.
  - by eexists.
  - done.
  - eapply returns_impl; [apply X|].
    + by apply demo_register.
    + apply demo_ready. apply (bool_decide_unpack _). by vm_compute.
    + intros [rc s] Y Hrc. destruct (Y Hrc) as [Z _].
      destruct Z as (d & Hd & _ & Er & _); [|by exists d].
      exists (demo_ct (B "sip:a") (B "60")). split; [by left|by vm_compute].
Defined.

(** The record that the first of the requests above leaves. *)
Definition demo_world1 : world :=
  match saves demo_forward [(1000, demo_request (B "1") [two_contacts])] (demo_reg_st demo_world) with
  | Ret s => usr s
  | Fault _ => demo_world
  end.

Lemma demo_world1_ok : @ul_ok world demo_api demo_laws demo_world1.
Proof.
  destruct (save_ok demo_forward 1000 ltac:(done) 1000 false false (demo_request (B "1") [two_contacts]) joe
    (demo_reg_st demo_world)) as ([rc s] & E & err & (OK & _) & _).
  - by apply demo_register.
  - right. by vm_compute.
  - apply demo_ready. apply (bool_decide_unpack _). by vm_compute.
  - unfold demo_world1. cbn [saves]. rewrite E. exact OK.
Qed.

Lemma later_headers_ignored_witness :
  let m := demo_request (B "2") [[demo_ct (B "sip:a") (B "60")]; [demo_ct (B "sip:c") (B "60")]] in
  returns (save demo_forward 2000 2000 false false m (demo_reg_st demo_world1))
    (fun '(rc, s) => rc <> 0 -> forall d, uri d = B "sip:c" -> ~ In d (contacts_at joe (usr s))).
Proof.
  intros m. pose proof (later_headers_ignored demo_forward 2000 ltac:(done) 2000 false false m joe (demo_reg_st demo_world1)) as X.
  eapply returns_impl; [apply X|].
  - done.
  - constructor; [done|done|done|done].
  - eexists. by vm_compute.
  - by repeat constructor.
  - constructor; [apply demo_world1_ok|eexists; by vm_compute| | |].
    + apply (bool_decide_unpack _). by vm_compute.
    + apply (bool_decide_unpack _). by vm_compute.
    + intros c [<-|[]] d Hd. vm_compute in Hd. destruct Hd as [<-|[]]. intros _ _. by vm_compute.
  - intros [rc s] Y Hrc d Eu Hd. destruct (Y Hrc) as [_ Z]. apply (Z d) in Hd.
    + vm_compute in Hd. destruct Hd as [<-|[]]. by vm_compute in Eu.
    + rewrite Eu. intros Hin. vm_compute in Hin. by destruct Hin.
Defined.

End RegSpec.
