(* ===== verification/FMalloc.v ===== *)
(** * The memory allocator: [src/mem/f_malloc.c]

    The allocator of private and shared memory.  A block of memory is cut into fragments,
    each with a header of two words before its data: the size of the data, and the link of
    a free list.  The free fragments are in an array of lists: up to [F_MALLOC_OPTIMIZE]
    bytes one list for each size, above that one for each power of two, in order of size.
    Fragments are cut from larger ones and, but for [fm_realloc], never joined.

    [mem] maps an address to the header there; a pointer to a pointer is a [link].  The
    sizes are those of a 64 bit machine, with statistics and without debugging. *)

From Stdlib Require Import ZArith Lia List Bool Permutation Sorted.
From stdpp Require Import base tactics option list gmap.
From S2P Require Import Prelude.

Module FMalloc.

Definition ROUNDTO : Z := 8.
Definition MIN_FRAG_SIZE : Z := ROUNDTO.
Definition F_MALLOC_OPTIMIZE_FACTOR : Z := 14.
Definition F_MALLOC_OPTIMIZE : Z := Z.shiftl 1 F_MALLOC_OPTIMIZE_FACTOR.
Definition F_HASH_SIZE : Z := F_MALLOC_OPTIMIZE / ROUNDTO + (64 - F_MALLOC_OPTIMIZE_FACTOR) + 1.
Definition FRAG_OVERHEAD : Z := 16.
Definition ROUNDTO_MASK : Z := u64 (Z.lnot (ROUNDTO - 1)).
Definition ROUNDUP (s : Z) : Z := Z.land (u64 (s + (ROUNDTO - 1))) ROUNDTO_MASK.
Definition ROUNDDOWN (s : Z) : Z := Z.land s ROUNDTO_MASK.

(** [sizeof(struct fm_block)]. *)
Definition BLOCK_SIZE : Z := 6 * 8 + F_HASH_SIZE * 16.

(** Shifts [s] until its highest bit is set; 64 steps are enough unless it is zero. *)
Fixpoint big_hash_loop (fuel : nat) (s idx : Z) : Z :=
  match fuel with
  | O => idx
  | S fuel' => if Z.testbit s 63 then idx else big_hash_loop fuel' (u64 (Z.shiftl s 1)) (idx - 1)
  end.

Definition big_hash_idx (s : Z) : Z := big_hash_loop 64 s 63.

Definition GET_HASH (s : Z) : Z :=
  if s <=? F_MALLOC_OPTIMIZE then s / ROUNDTO
  else F_MALLOC_OPTIMIZE / ROUNDTO + big_hash_idx s - F_MALLOC_OPTIMIZE_FACTOR + 1.

Record frag : Type := Frag { fsize : Z; nxt_free : Z }.

(** Each entry of [free_hash] is the head of a list and the number of its elements; an
    entry that is not in the map is zero. *)
Record fm_block : Type := Block {
  qsize : Z;
  used : Z;
  real_used : Z;
  max_real_used : Z;
  first_frag : Z;
  last_frag : Z;
  free_hash : gmap Z (Z * Z)
}.

(** The headers of the fragments and the block.  [end_size] is the [size] of the header at
    [last_frag] as it is written by [fm_malloc_init].  That header lies in the last bytes of
    the last fragment, where a client's data may overwrite it; no code reads it, only its
    address is compared. *)
Record heap : Type := Heap { mem : gmap Z frag; qm : fm_block; end_size : Z }.

Definition set_mem (m : gmap Z frag) (h : heap) : heap := Heap m (qm h) (end_size h).
Definition set_hash (x : gmap Z (Z * Z)) (h : heap) : heap :=
  let q := qm h in
  Heap (mem h) (Block (qsize q) (used q) (real_used q) (max_real_used q) (first_frag q) (last_frag q) x) (end_size h).
Definition add_used (d : Z) (h : heap) : heap :=
  let q := qm h in
  Heap (mem h) (Block (qsize q) (u64 (used q + d)) (real_used q) (max_real_used q) (first_frag q) (last_frag q) (free_hash q)) (end_size h).
Definition add_real (d : Z) (h : heap) : heap :=
  let q := qm h in
  Heap (mem h) (Block (qsize q) (used q) (u64 (real_used q + d)) (max_real_used q) (first_frag q) (last_frag q) (free_hash q)) (end_size h).
Definition set_max (x : Z) (h : heap) : heap :=
  let q := qm h in
  Heap (mem h) (Block (qsize q) (used q) (real_used q) x (first_frag q) (last_frag q) (free_hash q)) (end_size h).

(** ** Memory *)

Definition get_frag (p : Z) (h : heap) : res frag :=
  match mem h !! p with Some f => Ret f | None => Fault OutOfBounds end.

Definition put_frag (p : Z) (f : frag) (h : heap) : heap := set_mem (<[p := f]> (mem h)) h.

Definition get_bucket (i : Z) (h : heap) : res (Z * Z) :=
  if (0 <=? i) && (i <? F_HASH_SIZE) then Ret (default (0, 0) (free_hash (qm h) !! i)) else Fault OutOfBounds.

Definition put_bucket (i : Z) (x : Z * Z) (h : heap) : heap := set_hash (<[i := x]> (free_hash (qm h))) h.

(** The pointers to a fragment: the head of a list, or the link of a fragment. *)
Inductive link : Set := Head (i : Z) | Nxt (p : Z).

Definition load (l : link) (h : heap) : res Z :=
  match l with
  | Head i => x ← get_bucket i h; Ret x.1
  | Nxt p => f ← get_frag p h; Ret (nxt_free f)
  end.

Definition store (l : link) (v : Z) (h : heap) : res heap :=
  match l with
  | Head i => x ← get_bucket i h; Ret (put_bucket i (v, x.2) h)
  | Nxt p => f ← get_frag p h; Ret (put_frag p (Frag (fsize f) v) h)
  end.

Definition add_no (i d : Z) (h : heap) : res heap :=
  x ← get_bucket i h; Ret (put_bucket i (x.1, u64 (x.2 + d)) h).

Definition FRAG_NEXT (p : Z) (f : frag) : Z := u64 (p + FRAG_OVERHEAD + fsize f).

(** Goes along a list to the first fragment with a property, or to the end. *)
Fixpoint walk (stop : Z -> frag -> bool) (fuel : nat) (l : link) (h : heap) : res link :=
  match fuel with
  | O => Fault OutOfFuel
  | S fuel' =>
      p ← load l h;
      if p =? 0 then Ret l
      else f ← get_frag p h; if stop p f then Ret l else walk stop fuel' (Nxt p) h
  end.

(** A list has at most as many elements as there are fragments. *)
Definition enough (h : heap) : nat := S (size (mem h)).

(** ** Operations *)

Definition fm_insert_free (p : Z) (h : heap) : res heap :=
  f ← get_frag p h;
  let hash := GET_HASH (fsize f) in
  l ← (if fsize f >? F_MALLOC_OPTIMIZE
       then walk (fun _ g => fsize f <=? fsize g) (enough h) (Head hash) h
       else Ret (Head hash));
  v ← load l h;
  h ← store l p (put_frag p (Frag (fsize f) v) h);
  add_no hash 1 h.

(** [size] is rounded up. *)
Definition fm_split_frag (p sz : Z) (h : heap) : res heap :=
  f ← get_frag p h;
  let rest := u64 (fsize f - sz) in
  if (rest >? FRAG_OVERHEAD + F_MALLOC_OPTIMIZE) || (rest >=? u64 (FRAG_OVERHEAD + sz)) then
    let f := Frag sz (nxt_free f) in
    let n := FRAG_NEXT p f in
    let h := put_frag n (Frag (u64 (rest - FRAG_OVERHEAD)) 0) (put_frag p f h) in
    fm_insert_free n (add_real FRAG_OVERHEAD h)
  else Ret h.

(** The block at [address]; [None] when it is too small. *)
Definition fm_malloc_init (address sz : Z) : res (option heap) :=
  let start := ROUNDUP address in
  if sz <? start - address then Ret None
  else
    let sz := sz - (start - address) in
    if sz <? MIN_FRAG_SIZE + FRAG_OVERHEAD then Ret None
    else
      let sz := ROUNDDOWN sz in
      let init_overhead := ROUNDUP BLOCK_SIZE + FRAG_OVERHEAD in
      if sz <? init_overhead then Ret None
      else
        let first := start + ROUNDUP BLOCK_SIZE in
        let last := start + sz - FRAG_OVERHEAD in
        let h := Heap {[first := Frag (sz - init_overhead) 0]}
                   (Block sz 0 init_overhead init_overhead first last ∅) 0 in
        h ← fm_insert_free first h;
        Ret (Some h).

(** The bucket and link of the first fragment that is large enough, from bucket [hash] on. *)
Fixpoint search (n : nat) (hash sz : Z) (h : heap) : res (option (Z * link)) :=
  match n with
  | O => Ret None
  | S n' =>
      l ← walk (fun _ f => fsize f >=? sz) (enough h) (Head hash) h;
      p ← load l h;
      if p =? 0 then search n' (hash + 1) sz h else Ret (Some (hash, l))
  end.

(** Takes the fragment that [l] points to off its list. *)
Definition detach (hash : Z) (l : link) (h : heap) : res (Z * heap) :=
  p ← load l h;
  f ← get_frag p h;
  h ← store l (nxt_free f) h;
  h ← add_no hash (-1) h;
  Ret (p, h).

Definition fm_malloc (sz : Z) (h : heap) : res (Z * heap) :=
  let sz := ROUNDUP sz in
  let hash := GET_HASH sz in
  o ← search (Z.to_nat (F_HASH_SIZE - hash)) hash sz h;
  match o with
  | None => Ret (0, h)
  | Some (hash, l) =>
      '(p, h) ← detach hash l h;
      f ← get_frag p h;
      h ← fm_split_frag p sz (put_frag p (Frag (fsize f) 0) h);
      f ← get_frag p h;
      let h := add_used (fsize f) (add_real (fsize f) h) in
      let h := if max_real_used (qm h) <? real_used (qm h) then set_max (real_used (qm h)) h else h in
      Ret (u64 (p + FRAG_OVERHEAD), h)
  end.

Definition fm_free (p : Z) (h : heap) : res heap :=
  if p =? 0 then Ret h
  else
    let a := u64 (p - FRAG_OVERHEAD) in
    f ← get_frag a h;
    fm_insert_free a (add_real (- fsize f) (add_used (- fsize f) h)).

(** Joins the free fragment [n] to the fragment [a] before it; its header becomes data. *)
Definition join (a n : Z) (h : heap) : res heap :=
  f ← get_frag a h;
  g ← get_frag n h;
  let hash := GET_HASH (fsize g) in
  l ← walk (fun q _ => q =? n) (enough h) (Head hash) h;
  q ← load l h;
  if q =? 0 then Fault Abort
  else
    '(_, h) ← detach hash l h;
    let h := set_mem (delete n (mem h)) h in
    Ret (add_real (- FRAG_OVERHEAD)
           (put_frag a (Frag (u64 (fsize f + fsize g + FRAG_OVERHEAD)) (nxt_free f)) h)).

Definition fm_realloc (p sz : Z) (h : heap) : res (Z * heap) :=
  if sz =? 0 then
    h ← (if p =? 0 then Ret h else fm_free p h); Ret (0, h)
  else if p =? 0 then fm_malloc sz h
  else
    let a := u64 (p - FRAG_OVERHEAD) in
    f ← get_frag a h;
    let sz := ROUNDUP sz in
    let orig := fsize f in
    if fsize f >? sz then
      h ← fm_split_frag a sz h;
      f ← get_frag a h;
      Ret (p, add_used (- (orig - fsize f)) (add_real (- (orig - fsize f - FRAG_OVERHEAD)) h))
    else if fsize f <? sz then
      let diff := sz - fsize f in
      let n := FRAG_NEXT a f in
      can ← (if n <? last_frag (qm h) then
               g ← get_frag n h;
               Ret (negb (nxt_free g =? 0) && (fsize g + FRAG_OVERHEAD >=? diff))
             else Ret false);
      if (can : bool) then
        h ← join a n h;
        f ← get_frag a h;
        h ← (if fsize f >? sz then fm_split_frag a sz h else Ret h);
        f ← get_frag a h;
        Ret (p, add_used (fsize f - orig) (add_real (fsize f - orig) h))
      else
        '(q, h) ← fm_malloc sz h;
        if q =? 0 then Ret (0, h)
        else h ← fm_free p h; Ret (q, h)
    else Ret (p, h).

(** What the statistics report as free. *)
Definition fm_get_free (h : heap) : Z := u64 (qsize (qm h) - real_used (qm h)).

(** ** Free lists *)

(** The list that starts at [p] is [l]. *)
Fixpoint chain (m : gmap Z frag) (p : Z) (l : list Z) : Prop :=
  match l with
  | [] => p = 0
  | a :: l' => p = a /\ a <> 0 /\ exists f, m !! a = Some f /\ chain m (nxt_free f) l'
  end.

(** The pointer to what follows [pre] in list [i]. *)
Definition at_link (i : Z) (pre : list Z) : link := match last pre with None => Head i | Some a => Nxt a end.

Definition fupd {A} (g : Z -> A) (i : Z) (x : A) : Z -> A := fun j => if decide (j = i) then x else g j.

Definition in_range (i : Z) : Prop := 0 <= i < F_HASH_SIZE.

Definition size_of (m : gmap Z frag) (a : Z) : Z := match m !! a with Some f => fsize f | None => 0 end.

(** The lists of the array. *)
Record lists_ok (h : heap) (fl : Z -> list Z) : Prop := {
  lo_bucket : forall i, in_range i -> exists p,
    default (0, 0) (free_hash (qm h) !! i) = (p, u64 (zlen (fl i))) /\ chain (mem h) p (fl i);
  lo_out : forall i, ~ in_range i -> fl i = [];
  lo_hash : forall i a, In a (fl i) -> GET_HASH (size_of (mem h) a) = i;
  lo_nodup : forall i, NoDup (fl i)
}.

Lemma fupd_same {A} (g : Z -> A) i x : fupd g i x i = x.
Proof. unfold fupd. by rewrite decide_True. Qed.

Lemma fupd_other {A} (g : Z -> A) i j x : j <> i -> fupd g i x j = g j.
Proof. intros N. unfold fupd. by rewrite decide_False. Qed.

Lemma free_chain_ext m m' p l : (forall b, In b l -> m' !! b = m !! b) -> chain m p l -> chain m' p l.
Proof.
  revert p. induction l as [|b l IH]; intros p E; [done|]. simpl in *. intros (-> & Nb & g & Hg & C).
  split; [done|]. split; [done|]. exists g. rewrite E by auto. split; [done|]. apply IH; auto.
Qed.

Lemma chain_frame m p l a f : ~ In a l -> chain m p l -> chain (<[a := f]> m) p l.
Proof. intros Ha. apply free_chain_ext. intros b Hb. apply lookup_insert_ne. by intros ->. Qed.

Lemma chain_in m p l a : chain m p l -> In a l -> a <> 0 /\ is_Some (m !! a).
Proof.
  revert p. induction l as [|b l IH]; intros p; [done|]. simpl. intros (-> & Nb & g & Hg & C) [<-|Hin]; eauto.
Qed.

(** Redirecting the link after [pre]. *)
Lemma chain_redirect m p pre b post post' v f :
  chain m p (pre ++ b :: post) -> NoDup (pre ++ [b]) -> m !! b = Some f ->
  chain (<[b := Frag (fsize f) v]> m) v post' ->
  chain (<[b := Frag (fsize f) v]> m) p (pre ++ b :: post').
Proof.
  revert p. induction pre as [|c pre IH]; intros p C N Hb C'.
  - simpl in *. destruct C as (-> & Nb & _). split; [done|]. split; [done|]. exists (Frag (fsize f) v).
    by rewrite lookup_insert_eq.
  - simpl in *. destruct C as (-> & Nc & g & Hg & C). apply NoDup_cons in N as [Nin N].
    split; [done|]. split; [done|]. exists g.
    rewrite lookup_insert_ne; [by split; [|apply IH]|]. intros ->. apply Nin, list_elem_of_In, in_or_app. right. by left.
Qed.

Lemma free_chain_app m p l1 l2 : chain m p (l1 ++ l2) -> exists q, chain m q l2.
Proof.
  revert p. induction l1 as [|a l1 IH]; intros p C; [by exists p|]. simpl in C. destruct C as (_ & _ & f & _ & C). by eapply IH.
Qed.

Lemma get_frag_some p h f : mem h !! p = Some f -> get_frag p h = Ret f.
Proof. unfold get_frag. by intros ->. Qed.

Lemma get_bucket_ok i h : in_range i -> get_bucket i h = Ret (default (0, 0) (free_hash (qm h) !! i)).
Proof. intros [R1 R2]. unfold get_bucket. by rewrite (proj2 (Z.leb_le _ _) R1), (proj2 (Z.ltb_lt _ _) R2). Qed.

(** What the pointer after [pre] points to. *)
Lemma load_link h i p n pre post :
  in_range i -> default (0, 0) (free_hash (qm h) !! i) = (p, n) -> chain (mem h) p (pre ++ post) ->
  returns (load (at_link i pre) h) (fun v => chain (mem h) v post).
Proof.
  intros R B C. unfold at_link. destruct (last pre) as [b|] eqn:E.
  - apply last_Some in E as [pre' ->]. simpl. rewrite <- app_assoc in C. simpl in C.
    apply free_chain_app in C as [q (-> & _ & f & Hf & C)]. rewrite (get_frag_some _ _ _ Hf). run. by apply returns_ret.
  - apply last_None in E as ->. simpl. rewrite get_bucket_ok, B by done. run. by apply returns_ret.
Qed.

(** Writing the pointer after [pre]. *)
Lemma store_link h i p n pre post post' v :
  in_range i -> default (0, 0) (free_hash (qm h) !! i) = (p, n) -> chain (mem h) p (pre ++ post) ->
  NoDup pre -> (forall a, In a pre -> ~ In a post') -> chain (mem h) v post' ->
  returns (store (at_link i pre) v h) (fun h' =>
    (exists p', default (0, 0) (free_hash (qm h') !! i) = (p', n) /\ chain (mem h') p' (pre ++ post')) /\
    (forall j, j <> i -> free_hash (qm h') !! j = free_hash (qm h) !! j) /\
    ((mem h' = mem h) \/ exists b f, In b pre /\ mem h !! b = Some f /\ mem h' = <[b := Frag (fsize f) v]> (mem h)) /\
    qm h' = qm (set_hash (free_hash (qm h')) h)).
Proof.
  intros R B C N D C'. unfold at_link. destruct (last pre) as [b|] eqn:E.
  - apply last_Some in E as [pre' ->]. simpl. rewrite <- app_assoc in C. simpl in C.
    destruct (free_chain_app _ _ _ _ C) as [q (-> & _ & f & Hf & _)]. rewrite (get_frag_some _ _ _ Hf). run. apply returns_ret.
    split; [|split; [done|split; [right; exists b, f; split; [apply in_or_app; right; by left|done]|by destruct h as [? []]]]].
    exists p. split; [done|]. simpl. rewrite <- app_assoc. simpl.
    apply (chain_redirect _ _ _ _ post); [done|done|done|]. apply chain_frame; [|done]. apply D, in_or_app. right. by left.
  - apply last_None in E as ->. simpl. rewrite get_bucket_ok, B by done. run. apply returns_ret.
    split; [exists v; simpl; by rewrite lookup_insert_eq|]. split; [intros j Hj; simpl; by rewrite lookup_insert_ne|].
    split; [by left|done].
Qed.

(** Two heaps with the same fragments, of the same sizes, and the same statistics. *)
Record same_frags (h h' : heap) : Prop := {
  sf_size : forall a, fsize <$> mem h' !! a = fsize <$> mem h !! a;
  sf_qm : qm h' = qm (set_hash (free_hash (qm h')) h)
}.

Lemma same_refl h : same_frags h h.
Proof. constructor; [done|]. by destruct h as [? []]. Qed.

Lemma same_trans h1 h2 h3 : same_frags h1 h2 -> same_frags h2 h3 -> same_frags h1 h3.
Proof. intros [A1 B1] [A2 B2]. constructor; [intros a; by rewrite A2, A1|].
  unfold set_hash in *. simpl in *. rewrite B2. simpl. by rewrite B1. Qed.

Lemma same_put h p f v : mem h !! p = Some f -> same_frags h (put_frag p (Frag (fsize f) v) h).
Proof.
  intros E. constructor; [|by destruct h as [? []]]. intros a. simpl. destruct (decide (a = p)) as [->|N].
  - by rewrite lookup_insert_eq, E.
  - by rewrite lookup_insert_ne.
Qed.

Lemma same_size_of h h' a : same_frags h h' -> size_of (mem h') a = size_of (mem h) a.
Proof. intros [S _]. specialize (S a). unfold size_of. destruct (mem h' !! a), (mem h !! a); by simplify_eq/=. Qed.

Lemma same_size (h h' : heap) : same_frags h h' -> size (mem h') = size (mem h).
Proof.
  intros [S _]. rewrite <- !size_dom. f_equal. apply set_eq. intros a. rewrite !elem_of_dom. specialize (S a).
  destruct (mem h' !! a), (mem h !! a); simplify_eq/=; split; by intros [? ?] || eauto.
Qed.

Lemma size_of_some m a f : m !! a = Some f -> size_of m a = fsize f.
Proof. unfold size_of. by intros ->. Qed.

(** The other lists of the array after a change in list [i]. *)
Lemma lists_change h h' fl i l :
  lists_ok h fl -> in_range i -> same_frags h h' ->
  (exists p, default (0, 0) (free_hash (qm h') !! i) = (p, u64 (zlen l)) /\ chain (mem h') p l) ->
  (forall j, j <> i -> free_hash (qm h') !! j = free_hash (qm h) !! j) ->
  (forall j p, j <> i -> chain (mem h) p (fl j) -> chain (mem h') p (fl j)) ->
  (forall a, In a l -> GET_HASH (size_of (mem h) a) = i) -> NoDup l ->
  lists_ok h' (fupd fl i l).
Proof.
  intros L R S Hi Ho Hc Hh N. constructor.
  - intros j Rj. destruct (decide (j = i)) as [->|Ne]; [by rewrite fupd_same|]. rewrite fupd_other, Ho by done.
    destruct (lo_bucket _ _ L j Rj) as (p & E & C). exists p. split; [done|]. by apply Hc.
  - intros j Rj. rewrite fupd_other; [by apply (lo_out _ _ L)|]. by intros ->.
  - intros j a. rewrite (same_size_of h h') by done. destruct (decide (j = i)) as [->|Ne].
    + rewrite fupd_same. apply Hh.
    + rewrite fupd_other by done. apply (lo_hash _ _ L).
  - intros j. destruct (decide (j = i)) as [->|Ne]; [by rewrite fupd_same|]. rewrite fupd_other by done. apply (lo_nodup _ _ L).
Qed.

(** A fragment is in one list at most. *)
Lemma lists_disjoint h fl i j a : lists_ok h fl -> In a (fl i) -> In a (fl j) -> i = j.
Proof. intros L Hi Hj. by rewrite <- (lo_hash _ _ L i a Hi), <- (lo_hash _ _ L j a Hj). Qed.

Lemma u64_add a b : u64 (u64 a + b) = u64 (a + b).
Proof. unfold u64. by rewrite Zplus_mod_idemp_l. Qed.

Lemma insert_at h fl i pre post a f :
  lists_ok h fl -> in_range i -> fl i = pre ++ post -> (forall j, ~ In a (fl j)) -> a <> 0 ->
  mem h !! a = Some f -> GET_HASH (fsize f) = i ->
  returns (v ← load (at_link i pre) h; h1 ← store (at_link i pre) a (put_frag a (Frag (fsize f) v) h); add_no i 1 h1)
    (fun h' => lists_ok h' (fupd fl i (pre ++ a :: post)) /\ same_frags h h' /\
       forall b, ~ In b (pre ++ a :: post) -> mem h' !! b = mem h !! b).
Proof.
  intros L R E Na Nz Ha Hi. destruct (lo_bucket _ _ L i R) as (p & B & C). rewrite E in B, C.
  pose proof (lo_nodup _ _ L i) as N. rewrite E in N. pose proof (Na i) as Nai. rewrite E in Nai.
  assert (Nal : forall l l', pre ++ post = l ++ l' -> ~ In a l /\ ~ In a l')
    by (intros l l' El; rewrite El in Nai; split; intros X; apply Nai, in_or_app; auto).
  destruct (Nal pre post eq_refl) as [Npre Npost]. apply NoDup_app in N as (N1 & N2 & N3).
  eapply returns_bind; [by eapply (load_link h i p _ pre post)|]. intros v Cv.
  set (h0 := put_frag a (Frag (fsize f) v) h).
  assert (Ca : chain (mem h0) a (a :: post)).
  { split; [done|]. split; [done|]. exists (Frag (fsize f) v). simpl. rewrite lookup_insert_eq. split; [done|].
    by apply chain_frame. }
  eapply returns_bind; [apply (store_link h0 i p _ pre post (a :: post) a R B); [by apply chain_frame|done| |done]|].
  { intros b Hb [<-|Hin]; [done|]. apply (N2 b); by apply list_elem_of_In. }
  intros h1 ((p' & B' & C') & F & M & Q). unfold add_no. rewrite get_bucket_ok, B' by done. run. apply returns_ret.
  assert (S1 : same_frags h0 h1).
  { constructor; [|done]. destruct M as [->|(b & g & _ & Hg & ->)]; [done|]. intros x.
    destruct (decide (x = b)) as [->|Nx]; [by rewrite lookup_insert_eq, Hg|by rewrite lookup_insert_ne]. }
  assert (S2 : same_frags h (put_bucket i ((p', u64 (zlen (pre ++ post))).1, u64 ((p', u64 (zlen (pre ++ post))).2 + 1)) h1)).
  { destruct (same_trans _ _ _ (same_put h a f v Ha) S1) as [X Y]. constructor; [done|]. simpl. rewrite Y. done. }
  assert (Mo : forall b, ~ In b (pre ++ a :: post) -> mem h1 !! b = mem h !! b).
  { intros b Nb. assert (b <> a) by (intros ->; apply Nb, in_or_app; right; by left).
    destruct M as [->|(c & g & Hc & _ & ->)]; [|rewrite lookup_insert_ne by (intros ->; apply Nb, in_or_app; by left)];
    simpl; by rewrite lookup_insert_ne. }
  split; [|by split]. apply (lists_change h); try done.
  - exists p'. simpl. rewrite lookup_insert_eq. simpl. split; [|done]. f_equal. rewrite u64_add. f_equal.
    rewrite !zlen_app, zlen_cons. lia.
  - intros j Hj. simpl. by rewrite lookup_insert_ne, F.
  - intros j q Hj Cq. assert (Da : forall x, In x (pre ++ a :: post) -> ~ In x (fl j)).
    { intros x Hx Hxj. apply in_app_or in Hx as [Hx|[<-|Hx]]; [| by apply (Na j)|];
      apply Hj; symmetry; apply (lists_disjoint h fl i j x L); try done; rewrite E; apply in_or_app; auto. }
    simpl. destruct M as [->|(c & g & Hc & _ & ->)]; simpl; [|apply chain_frame; [apply Da, in_or_app; by left|]];
      (apply chain_frame; [apply Da, in_or_app; right; by left|done]).
  - intros b Hb. apply in_app_or in Hb as [Hb|[<-|Hb]]; [| by rewrite (size_of_some _ _ _ Ha)|];
      apply (lo_hash _ _ L); rewrite E; apply in_or_app; auto.
  - apply NoDup_app. split; [done|]. split.
    + intros x Hx Hin. apply list_elem_of_In in Hx, Hin. destruct Hin as [<-|Hin]; [done|].
      apply (N2 x); by apply list_elem_of_In.
    + constructor; [by rewrite list_elem_of_In|done].
Qed.

Lemma detach_at h fl i pre a post :
  lists_ok h fl -> in_range i -> fl i = pre ++ a :: post ->
  returns (detach i (at_link i pre) h) (fun '(p, h') => p = a /\
    lists_ok h' (fupd fl i (pre ++ post)) /\ same_frags h h' /\
    forall b, ~ In b pre -> mem h' !! b = mem h !! b).
Proof.
  intros L R E. destruct (lo_bucket _ _ L i R) as (p & B & C). rewrite E in B, C.
  pose proof (lo_nodup _ _ L i) as N. rewrite E in N. apply NoDup_app in N as (N1 & N2 & N3).
  apply NoDup_cons in N3 as [N3 N4]. rewrite list_elem_of_In in N3. unfold detach.
  eapply returns_bind; [by eapply (load_link h i p _ pre (a :: post))|]. intros v (-> & Nz & f & Ha & Cp).
  rewrite (get_frag_some _ _ _ Ha). run.
  eapply returns_bind; [eapply (store_link h i p _ pre (a :: post) post (nxt_free f) R B); [done|done| |done]|].
  - intros b Hb Hin. apply (N2 b); [by apply list_elem_of_In|]. right. by apply list_elem_of_In.
  - intros h1 ((p' & B' & C') & F & M & Q).
    unfold add_no. rewrite get_bucket_ok, B' by done. run. apply returns_ret. cbn [fst snd]. split; [done|].
    assert (S : same_frags h (put_bucket i (p', u64 (u64 (zlen (pre ++ a :: post)) + -1)) h1)).
    { constructor; [|simpl; rewrite Q; done]. simpl. destruct M as [->|(b & g & _ & Hg & ->)]; [done|]. intros x.
      destruct (decide (x = b)) as [->|Nx]; [by rewrite lookup_insert_eq, Hg|by rewrite lookup_insert_ne]. }
    split; [|split; [done|]].
    + apply (lists_change h); try done.
      * exists p'. simpl. rewrite lookup_insert_eq. simpl. split; [|done]. f_equal. rewrite u64_add. f_equal.
        rewrite !zlen_app, zlen_cons. lia.
      * intros j Hj. simpl. by rewrite lookup_insert_ne, F.
      * intros j q Hj Cq. simpl. destruct M as [->|(c & g & Hc & _ & ->)]; [done|]. apply chain_frame; [|done].
        intros Hcj. apply Hj. symmetry. apply (lists_disjoint h fl i j c L); [|done]. rewrite E. apply in_or_app. by left.
      * intros b Hb. apply (lo_hash _ _ L). rewrite E. apply in_app_or in Hb as [Hb|Hb]; apply in_or_app; [by left|right; by right].
      * apply NoDup_app. split; [done|]. split; [|done]. intros x Hx Hin. apply (N2 x Hx). by right.
    + intros b Nb. simpl. destruct M as [->|(c & g & Hc & _ & ->)]; [done|]. rewrite lookup_insert_ne; [done|]. by intros ->.
Qed.

Lemma at_link_snoc i pre a : at_link i (pre ++ [a]) = Nxt a.
Proof. unfold at_link. by rewrite last_snoc. Qed.

Lemma walk_ok stop h fl i fuel pre post :
  lists_ok h fl -> in_range i -> fl i = pre ++ post -> (length post < fuel)%nat ->
  returns (walk stop fuel (at_link i pre) h) (fun l => exists mid rest,
    post = mid ++ rest /\ l = at_link i (pre ++ mid) /\
    (forall a, In a mid -> exists f, mem h !! a = Some f /\ stop a f = false) /\
    match rest with [] => True | a :: _ => exists f, mem h !! a = Some f /\ stop a f = true end).
Proof.
  intros L R. destruct (lo_bucket _ _ L i R) as (p & B & C). revert pre post.
  induction fuel as [|fuel IH]; intros pre post E Hf; [lia|]. cbn [walk]. pose proof C as C0. rewrite E in C0.
  eapply returns_bind; [by eapply (load_link h i p _ pre post)|]. intros v Cv. destruct post as [|a post].
  - simpl in Cv. subst v. apply returns_ret. exists [], []. rewrite !app_nil_r. split; [done|]. split; [done|]. split; [by intros a []|done].
  - destruct Cv as (-> & Nz & f & Ha & Cp). rewrite (proj2 (Z.eqb_neq a 0)) by done.
    rewrite (get_frag_some _ _ _ Ha). run. destruct (stop a f) eqn:Es.
    + apply returns_ret. exists [], (a :: post). rewrite app_nil_r. split; [done|]. split; [done|]. split; [by intros b []|eauto].
    + rewrite <- (at_link_snoc i pre a).
      eapply returns_impl; [apply (IH (pre ++ [a]) post); [by rewrite <- app_assoc|simpl in Hf; lia]|].
      intros l (mid & rest & -> & -> & H1 & H2). exists (a :: mid), rest. split; [done|].
      split; [by rewrite <- app_assoc|]. split; [|done]. intros b [<-|Hb]; eauto.
Qed.

(** The fuel is enough. *)
Lemma list_bound h fl i : lists_ok h fl -> in_range i -> (length (fl i) < enough h)%nat.
Proof.
  intros L R. unfold enough. destruct (lo_bucket _ _ L i R) as (p & _ & C).
  assert (Hs : list_to_set (fl i) ⊆ dom (mem h)).
  { intros a Ha. apply elem_of_list_to_set, list_elem_of_In in Ha. apply elem_of_dom. by destruct (chain_in _ _ _ _ C Ha). }
  apply subseteq_size in Hs. rewrite size_list_to_set, size_dom in Hs by apply (lo_nodup _ _ L). lia.
Qed.

(** ** Sizes and buckets *)

Lemma u64_small z : 0 <= z < 2 ^ 64 -> u64 z = z.
Proof. intros H. unfold u64. by apply Z.mod_small. Qed.

Lemma mask_ok x : 0 <= x < 2 ^ 64 -> Z.land x ROUNDTO_MASK = 8 * (x / 8).
Proof.
  intros Hx. change ROUNDTO_MASK with (Z.ldiff (Z.ones 64) (Z.ones 3)).
  replace (Z.land x (Z.ldiff (Z.ones 64) (Z.ones 3))) with (Z.ldiff (Z.land x (Z.ones 64)) (Z.ones 3)).
  - rewrite Z.land_ones, Z.mod_small, Z.ldiff_ones_r by lia. rewrite Z.shiftl_mul_pow2, Z.shiftr_div_pow2 by lia.
    change (2 ^ 3) with 8. lia.
  - apply Z.bits_inj'. intros n Hn. rewrite !Z.ldiff_spec, !Z.land_spec, !Z.ldiff_spec. by destruct (Z.testbit x n), (Z.testbit (Z.ones 64) n).
Qed.

Lemma ROUNDUP_ok s : 0 <= s -> s + 7 < 2 ^ 64 -> ROUNDUP s = 8 * ((s + 7) / 8).
Proof. intros H1 H2. unfold ROUNDUP, ROUNDTO. rewrite u64_small by lia. apply mask_ok. lia. Qed.

Lemma ROUNDUP_bounds s : 0 <= s -> s + 7 < 2 ^ 64 -> s <= ROUNDUP s < s + 8 /\ (8 | ROUNDUP s).
Proof.
  intros H1 H2. rewrite ROUNDUP_ok by lia. split; [|apply Z.divide_factor_l].
  pose proof (Z.div_mod (s + 7) 8). pose proof (Z.mod_pos_bound (s + 7) 8). lia.
Qed.

Lemma big_hash_loop_ok n s idx :
  0 < s < 2 ^ 64 -> 63 - Z.log2 s < Z.of_nat n -> big_hash_loop n s idx = idx - (63 - Z.log2 s).
Proof.
  revert s idx. induction n as [|n IH]; intros s idx Hs Hn.
  - pose proof (Z.log2_lt_pow2 s 64). lia.
  - cbn [big_hash_loop]. assert (Hl : Z.log2 s < 64) by (apply Z.log2_lt_pow2; lia).
    destruct (Z.testbit s 63) eqn:E.
    + assert (~ Z.log2 s < 63); [|lia]. intros H. by rewrite Z.bits_above_log2 in E by lia.
    + assert (Z.log2 s <> 63). { intros H. rewrite <- H in E. by rewrite Z.bit_log2 in E by lia. }
      assert (s < 2 ^ 63) by (apply Z.log2_lt_pow2; lia).
      rewrite Z.shiftl_mul_pow2, u64_small by lia. change (2 ^ 1) with 2. rewrite IH.
      * rewrite Z.mul_comm, Z.log2_double by lia. lia.
      * lia.
      * rewrite Z.mul_comm, Z.log2_double by lia. lia.
Qed.

Lemma big_hash_idx_ok s : 0 < s < 2 ^ 64 -> big_hash_idx s = Z.log2 s.
Proof.
  intros Hs. unfold big_hash_idx. rewrite big_hash_loop_ok; [lia|done|]. pose proof (Z.log2_nonneg s). lia.
Qed.

(** The bucket of a size, as a function of the logarithm. *)
Lemma GET_HASH_eq s : 0 <= s < 2 ^ 64 -> GET_HASH s = if s <=? 16384 then s / 8 else 2035 + Z.log2 s.
Proof.
  intros Hs. unfold GET_HASH. change F_MALLOC_OPTIMIZE with 16384. destruct (Z.leb_spec s 16384); [done|].
  rewrite big_hash_idx_ok by lia. change (16384 / ROUNDTO) with 2048. unfold F_MALLOC_OPTIMIZE_FACTOR. lia.
Qed.

Lemma log2_big s : 16384 < s < 2 ^ 64 -> 14 <= Z.log2 s <= 63.
Proof.
  intros Hs. split.
  - change 14 with (Z.log2 16384). apply Z.log2_le_mono. lia.
  - assert (Z.log2 s < 64); [|lia]. apply Z.log2_lt_pow2; lia.
Qed.

Lemma GET_HASH_range s : 0 <= s < 2 ^ 64 -> in_range (GET_HASH s).
Proof.
  intros Hs. rewrite GET_HASH_eq by done. unfold in_range. change F_HASH_SIZE with 2099.
  destruct (Z.leb_spec s 16384).
  - split; [apply Z.div_pos; lia|]. apply Z.div_lt_upper_bound; lia.
  - pose proof (log2_big s). lia.
Qed.

Lemma GET_HASH_mono s t : 0 <= s <= t -> t < 2 ^ 64 -> GET_HASH s <= GET_HASH t.
Proof.
  intros Hs Ht. rewrite !GET_HASH_eq by lia. destruct (Z.leb_spec s 16384), (Z.leb_spec t 16384); try lia.
  - apply Z.div_le_mono; lia.
  - assert (s / 8 <= 2048) by (change 2048 with (16384 / 8); apply Z.div_le_mono; lia). pose proof (log2_big t). lia.
  - assert (Z.log2 s <= Z.log2 t) by (apply Z.log2_le_mono; lia). lia.
Qed.

(** ** The tiling *)

(** The fragments, address and size, from [s] to [e]. *)
Fixpoint tiled (s : Z) (l : list (Z * Z)) (e : Z) : Prop :=
  match l with
  | [] => s = e
  | (a, sz) :: l' => a = s /\ 0 <= sz /\ (8 | sz) /\ tiled (s + FRAG_OVERHEAD + sz) l' e
  end.

Lemma tiled_le s l e : tiled s l e -> s <= e.
Proof.
  revert s. induction l as [|[a sz] l IH]; intros s; simpl; [lia|]. intros (-> & H1 & _ & T). apply IH in T.
  unfold FRAG_OVERHEAD in T. lia.
Qed.

Lemma tiled_app s l1 l2 e : tiled s (l1 ++ l2) e <-> exists m, tiled s l1 m /\ tiled m l2 e.
Proof.
  revert s. induction l1 as [|[a sz] l1 IH]; intros s; simpl.
  - split; [by exists s|]. by intros (m & -> & T).
  - rewrite IH. split.
    + intros (-> & H1 & H2 & m & T1 & T2). exists m. auto.
    + intros (m & (-> & H1 & H2 & T1) & T2). eauto 10.
Qed.

Lemma tiled_in s l e a sz : tiled s l e -> In (a, sz) l -> s <= a /\ a + FRAG_OVERHEAD + sz <= e /\ 0 <= sz /\ (8 | sz).
Proof.
  revert s. induction l as [|[b z] l IH]; intros s; [done|]. simpl. intros (-> & H1 & H2 & T) [[= -> ->]|Hin].
  - apply tiled_le in T. unfold FRAG_OVERHEAD in *. auto with lia.
  - destruct (IH _ T Hin) as (X1 & X2). unfold FRAG_OVERHEAD in *. split; [lia|done].
Qed.

(** Two fragments are the same or apart. *)
Lemma tiled_apart s l e a sz b z :
  tiled s l e -> In (a, sz) l -> In (b, z) l ->
  (a, sz) = (b, z) \/ a + FRAG_OVERHEAD + sz <= b \/ b + FRAG_OVERHEAD + z <= a.
Proof.
  revert s. induction l as [|[c y] l IH]; intros s; [done|]. simpl. intros (-> & H1 & H2 & T) [[= -> ->]|Ha] [[= -> ->]|Hb]; auto.
  - destruct (tiled_in _ _ _ _ _ T Hb). auto.
  - destruct (tiled_in _ _ _ _ _ T Ha). auto.
  - by apply (IH _ T).
Qed.

Lemma tiled_nodup s l e : tiled s l e -> NoDup (map fst l).
Proof.
  revert s. induction l as [|[a sz] l IH]; intros s; simpl; [constructor|]. intros (-> & H1 & H2 & T).
  constructor; [|by apply (IH _ T)]. rewrite list_elem_of_In. intros Hin. apply in_map_iff in Hin as ([b z] & E & Hin).
  simpl in E. subst b. destruct (tiled_in _ _ _ _ _ T Hin) as [X _]. unfold FRAG_OVERHEAD in X. lia.
Qed.

(** ** The heap *)

(** [lv] and [fv] are the fragments in use and the free ones, [fr] all of them in order of
    address, and [fl] the free lists. *)
Record heap_inv (h : heap) (fr : list (Z * Z)) (fl : Z -> list Z) (lv fv : list (Z * Z)) : Prop := {
  hk_lists : lists_ok h fl;
  hk_tiled : tiled (first_frag (qm h)) fr (last_frag (qm h) + FRAG_OVERHEAD);
  hk_split : Permutation fr (lv ++ fv);
  hk_mem : forall a sz, In (a, sz) fr <-> fsize <$> mem h !! a = Some sz;
  hk_free : forall a, In a (map fst fv) <-> exists i, In a (fl i);
  hk_live : forall a f, In a (map fst lv) -> mem h !! a = Some f -> nxt_free f = 0;
  hk_first : 0 < first_frag (qm h);
  hk_end : last_frag (qm h) + FRAG_OVERHEAD < 2 ^ 64;
  hk_sorted : forall i, 2048 < i -> Sorted Z.le (map (size_of (mem h)) (fl i))
}.

Section Inv.
Context {h : heap} {fr : list (Z * Z)} {fl : Z -> list Z} {lv fv : list (Z * Z)} (I : heap_inv h fr fl lv fv).

Lemma fr_nodup : NoDup (map fst fr).
Proof. eapply tiled_nodup, hk_tiled, I. Qed.

Lemma inv_nodup : NoDup (map fst (lv ++ fv)).
Proof. rewrite <- (Permutation_map fst (hk_split _ _ _ _ _ I)). apply fr_nodup. Qed.

Lemma live_not_free a : In a (map fst lv) -> forall i, ~ In a (fl i).
Proof.
  intros Ha i Hi. pose proof inv_nodup as N. rewrite map_app in N. apply NoDup_app in N as (_ & N & _).
  apply (N a); apply list_elem_of_In; [done|]. apply (hk_free _ _ _ _ _ I). by exists i.
Qed.

Lemma inv_frag a sz : In (a, sz) fr -> exists f, mem h !! a = Some f /\ fsize f = sz.
Proof.
  intros Hin. apply (hk_mem _ _ _ _ _ I) in Hin. destruct (mem h !! a) as [f|]; [|done]. injection Hin as <-. by exists f.
Qed.

Lemma inv_fr a sz : In (a, sz) lv \/ In (a, sz) fv -> In (a, sz) fr.
Proof. intros Hin. apply (Permutation_in _ (Permutation_sym (hk_split _ _ _ _ _ I))), in_or_app, Hin. Qed.

(** The bounds of a fragment. *)
Lemma inv_bounds a sz : In (a, sz) fr ->
  0 < a /\ 0 <= sz /\ (8 | sz) /\ a + FRAG_OVERHEAD + sz <= last_frag (qm h) + FRAG_OVERHEAD < 2 ^ 64.
Proof.
  intros Hin. destruct (tiled_in _ _ _ _ _ (hk_tiled _ _ _ _ _ I) Hin) as (B1 & B2 & B3 & B4).
  pose proof (hk_first _ _ _ _ _ I). pose proof (hk_end _ _ _ _ _ I). split; [lia|]. auto.
Qed.

Lemma inv_hash a sz : In (a, sz) fr -> in_range (GET_HASH sz).
Proof. intros Hin. apply inv_bounds in Hin. unfold FRAG_OVERHEAD in *. apply GET_HASH_range. lia. Qed.

End Inv.

Lemma sorted_insert (g : Z -> Z) pre a post :
  Sorted Z.le (map g (pre ++ post)) -> (forall b, In b pre -> g b <= g a) ->
  match post with [] => True | b :: _ => g a <= g b end -> Sorted Z.le (map g (pre ++ a :: post)).
Proof.
  induction pre as [|c pre IH]; simpl; intros S Hpre Hpost.
  - constructor; [done|]. destruct post; simpl; constructor. done.
  - inversion_clear S as [|? ? S' Hd]. constructor; [by apply IH; auto|].
    destruct pre as [|d pre]; simpl in *; [constructor; auto|]. by inversion_clear Hd; constructor.
Qed.

Lemma sorted_remove (g : Z -> Z) pre a post :
  Sorted Z.le (map g (pre ++ a :: post)) -> Sorted Z.le (map g (pre ++ post)).
Proof.
  intros S. apply Sorted_StronglySorted in S; [|intros ? ? ?; lia]. apply StronglySorted_Sorted.
  induction pre as [|c pre IH]; simpl in *; [by inversion S|]. inversion_clear S as [|? ? S' Hf].
  constructor; [by apply IH|]. rewrite map_app in *. simpl in Hf. apply Forall_app in Hf as [F1 F2].
  apply Forall_app. split; [done|]. by inversion F2.
Qed.

Lemma map_size_same h h' l : same_frags h h' -> map (size_of (mem h')) l = map (size_of (mem h)) l.
Proof. intros S. apply map_ext. intros a. by apply same_size_of. Qed.

Lemma same_qm h h' : same_frags h h' -> first_frag (qm h') = first_frag (qm h) /\ last_frag (qm h') = last_frag (qm h) /\
  used (qm h') = used (qm h) /\ real_used (qm h') = real_used (qm h) /\ qsize (qm h') = qsize (qm h) /\
  max_real_used (qm h') = max_real_used (qm h).
Proof. intros [_ ->]. done. Qed.

(** Membership in the lists after an insertion and a removal. *)
Lemma fupd_ins fl i pre post (a b : Z) :
  fl i = pre ++ post -> (exists j, In b (fupd fl i (pre ++ a :: post) j)) <-> a = b \/ exists j, In b (fl j).
Proof.
  intros E. split.
  - intros [j Hj]. destruct (decide (j = i)) as [->|Ne]; [|rewrite fupd_other in Hj by done; eauto].
    rewrite fupd_same in Hj. apply in_app_or in Hj as [Hj|[Hj|Hj]]; [right; exists i|by left|right; exists i]; rewrite E; apply in_or_app; auto.
  - intros [<-|[j Hj]]; [exists i; rewrite fupd_same; apply in_or_app; right; by left|].
    destruct (decide (j = i)) as [->|Ne]; [|exists j; by rewrite fupd_other]. exists i. rewrite fupd_same.
    rewrite E in Hj. apply in_app_or in Hj as [Hj|Hj]; apply in_or_app; [by left|right; by right].
Qed.

Lemma fupd_del fl i pre post (a b : Z) :
  fl i = pre ++ a :: post -> (forall j, ~ In a (fupd fl i (pre ++ post) j)) ->
  (exists j, In b (fupd fl i (pre ++ post) j)) <-> b <> a /\ exists j, In b (fl j).
Proof.
  intros E N. split.
  - intros [j Hj]. split; [intros ->; by apply (N j)|]. exists j. destruct (decide (j = i)) as [->|Ne]; [|by rewrite fupd_other in Hj].
    rewrite fupd_same in Hj. rewrite E. apply in_app_or in Hj as [Hj|Hj]; apply in_or_app; [by left|right; by right].
  - intros (Nb & j & Hj). exists j. destruct (decide (j = i)) as [->|Ne]; [|by rewrite fupd_other].
    rewrite fupd_same. rewrite E in Hj. apply in_app_or in Hj as [Hj|[<-|Hj]]; [apply in_or_app; by left|done|apply in_or_app; by right].
Qed.

(** A fragment becomes free. *)
Lemma insert_free_ok h fr fl lv fv a sz :
  heap_inv h fr fl ((a, sz) :: lv) fv ->
  returns (fm_insert_free a h) (fun h' =>
    same_frags h h' /\ exists fl', heap_inv h' fr fl' lv ((a, sz) :: fv)).
Proof.
  intros I. assert (Ha : In (a, sz) fr) by (apply (inv_fr I); left; by left).
  destruct (inv_frag I a sz Ha) as (f & Hf & Es). subst sz. set (sz := fsize f) in *. pose proof (hk_lists _ _ _ _ _ I) as L.
  assert (Na : forall i, ~ In a (fl i)) by (apply (live_not_free I); by left).
  destruct (inv_bounds I a sz Ha) as (Pa & _). pose proof (inv_hash I a sz Ha) as R.
  unfold fm_insert_free. rewrite (get_frag_some _ _ _ Hf). run. cbv zeta. fold sz. set (i := GET_HASH sz) in *.
  assert (W : returns (if sz >? F_MALLOC_OPTIMIZE then walk (fun _ g => sz <=? fsize g) (enough h) (Head i) h else Ret (Head i))
    (fun l => exists pre post, fl i = pre ++ post /\ l = at_link i pre /\
       (2048 < i -> (forall b, In b pre -> size_of (mem h) b <= sz) /\
          match post with [] => True | b :: _ => sz <= size_of (mem h) b end))).
  { destruct (sz >? F_MALLOC_OPTIMIZE) eqn:Eg.
    - eapply returns_impl; [apply (walk_ok _ h fl i (enough h) [] (fl i) L R eq_refl (list_bound h fl i L R))|].
      intros l (mid & rest & E & -> & H1 & H2). exists mid, rest. split; [done|]. split; [done|]. intros _. split.
      + intros b Hb. destruct (H1 b Hb) as (g & Hg & Hs). rewrite (size_of_some _ _ _ Hg). bool_to_prop. lia.
      + destruct rest as [|b rest]; [done|]. destruct H2 as (g & Hg & Hs). rewrite (size_of_some _ _ _ Hg). bool_to_prop. lia.
    - apply returns_ret. exists [], (fl i). split; [done|]. split; [done|]. intros Hi. exfalso.
      unfold i in Hi. rewrite GET_HASH_eq in Hi by (apply (inv_bounds I) in Ha; unfold FRAG_OVERHEAD in *; lia).
      change F_MALLOC_OPTIMIZE with 16384 in Eg. rewrite Z.gtb_ltb in Eg. bool_to_prop.
      rewrite (proj2 (Z.leb_le _ _)) in Hi by done.
      assert (sz / 8 <= 2048) by (change 2048 with (16384 / 8); apply Z.div_le_mono; lia). lia. }
  eapply returns_bind; [exact W|]. intros l (pre & post & E & -> & Hord).
  eapply returns_impl; [apply (insert_at h fl i pre post a f L R E Na); [lia|done|done]|].
  intros h' (L' & S & M). split; [done|]. exists (fupd fl i (pre ++ a :: post)).
  destruct (same_qm h h' S) as (Q1 & Q2 & _).
  constructor; rewrite ?Q1, ?Q2; try apply I; [done| | | | |].
  - rewrite (hk_split _ _ _ _ _ I). simpl. apply Permutation_middle.
  - intros b z. rewrite (sf_size _ _ S). apply (hk_mem _ _ _ _ _ I).
  - intros b. by rewrite (fupd_ins fl i pre post a b E), <- (hk_free _ _ _ _ _ I).
  - intros b g Hb Hg. assert (Nb : ~ In b (pre ++ a :: post)).
    { intros Hin. apply in_app_or in Hin as [Hin|[<-|Hin]].
      - apply (live_not_free I b ltac:(by right) i). rewrite E. apply in_or_app. by left.
      - pose proof (inv_nodup I) as N. simpl in N. apply NoDup_cons in N as [N _]. apply N, list_elem_of_In. rewrite map_app. apply in_or_app. by left.
      - apply (live_not_free I b ltac:(by right) i). rewrite E. apply in_or_app. by right. }
    rewrite (M b Nb) in Hg. apply (hk_live _ _ _ _ _ I b g); [by right|done].
  - intros j Hj. rewrite (map_size_same h h') by done. destruct (decide (j = i)) as [->|Ne].
    + rewrite fupd_same. destruct (Hord Hj) as [O1 O2]. assert (Ea : size_of (mem h) a = sz) by by rewrite (size_of_some _ _ _ Hf).
      apply sorted_insert; [rewrite <- E; by apply I|by rewrite Ea|by rewrite Ea].
    + rewrite fupd_other by done. by apply I.
Qed.

Lemma in_perm {A} (x : A) l : In x l -> exists l', Permutation l (x :: l').
Proof. intros H. apply in_split in H as (l1 & l2 & ->). exists (l1 ++ l2). by rewrite Permutation_middle. Qed.

(** A free fragment comes into use. *)
Lemma take_ok h fr fl lv fv i pre a post :
  heap_inv h fr fl lv fv -> in_range i -> fl i = pre ++ a :: post ->
  returns (detach i (at_link i pre) h) (fun '(p, h') => p = a /\ same_frags h h' /\
    exists f fl' fv', mem h' !! a = Some f /\ Permutation fv ((a, fsize f) :: fv') /\
      heap_inv (put_frag a (Frag (fsize f) 0) h') fr fl' ((a, fsize f) :: lv) fv').
Proof.
  intros I R E. pose proof (hk_lists _ _ _ _ _ I) as L.
  assert (Hin : In a (fl i)) by (rewrite E; apply in_or_app; right; by left).
  assert (Hfv : In a (map fst fv)) by (apply (hk_free _ _ _ _ _ I); by exists i).
  apply in_map_iff in Hfv as ([a' sz] & Ea & Hfv). simpl in Ea. subst a'. destruct (in_perm _ _ Hfv) as [fv' P].
  destruct (inv_frag I a sz) as (f0 & Hf0 & Es); [apply (inv_fr I); by right|].
  eapply returns_impl; [by apply (detach_at h fl i pre a post)|]. intros [p h'] (-> & L' & S & M).
  split; [done|]. split; [done|].
  pose proof (lo_nodup _ _ L i) as N. rewrite E in N. apply NoDup_app in N as (N1 & N2 & N3).
  apply NoDup_cons in N3 as [N3 N4]. rewrite list_elem_of_In in N3.
  assert (Npre : ~ In a pre) by (intros X; apply (N2 a); [by apply list_elem_of_In|by left]).
  assert (Nfl : forall j, ~ In a (fupd fl i (pre ++ post) j)).
  { intros j Hj. destruct (decide (j = i)) as [->|Ne].
    - rewrite fupd_same in Hj. apply in_app_or in Hj as [Hj|Hj]; done.
    - rewrite fupd_other in Hj by done. apply Ne. by apply (lists_disjoint h fl j i a L). }
  exists f0, (fupd fl i (pre ++ post)), fv'. rewrite (M a Npre), Es. split; [done|]. split; [done|].
  rewrite <- Es. assert (Hf' : mem h' !! a = Some f0) by by rewrite (M a Npre).
  pose proof (same_put h' a f0 0 Hf') as S2. pose proof (same_trans _ _ _ S S2) as S3.
  set (h2 := put_frag a (Frag (fsize f0) 0) h') in *. destruct (same_qm h h2 S3) as (Q1 & Q2 & _). rewrite Es in *.
  constructor; rewrite ?Q1, ?Q2; try apply I.
  - constructor; [|apply (lo_out _ _ L')| |apply (lo_nodup _ _ L')].
    + intros j Rj. destruct (lo_bucket _ _ L' j Rj) as (q & B & C). exists q. split; [done|]. by apply chain_frame.
    + intros j b Hb. rewrite (same_size_of h' h2) by done. by apply (lo_hash _ _ L').
  - rewrite (hk_split _ _ _ _ _ I), P. simpl. symmetry. apply Permutation_middle.
  - intros b z. rewrite (sf_size _ _ S3). apply (hk_mem _ _ _ _ _ I).
  - intros b. rewrite (fupd_del fl i pre post a b E Nfl), <- (hk_free _ _ _ _ _ I), (Permutation_map fst P). simpl.
    pose proof (inv_nodup I) as Nd. rewrite P, map_app in Nd. apply NoDup_app in Nd as (_ & _ & Nd).
    simpl in Nd. apply NoDup_cons in Nd as [Nd _]. rewrite list_elem_of_In in Nd. split.
    + intros Hb. split; [by intros ->|by right].
    + intros [Nb [Hb|Hb]]; [by destruct Nb|done].
  - intros b g Hb Hg. simpl in Hg. destruct (decide (b = a)) as [->|Ne]; [rewrite lookup_insert_eq in Hg; by injection Hg as <-|].
    rewrite lookup_insert_ne in Hg by done. destruct Hb as [Hb|Hb]; [done|]. rewrite M in Hg.
    + by apply (hk_live _ _ _ _ _ I b g).
    + intros X. apply (live_not_free I b Hb i). rewrite E. apply in_or_app. by left.
  - intros j Hj. rewrite (map_size_same h h2) by done. destruct (decide (j = i)) as [->|Ne].
    + rewrite fupd_same. apply (sorted_remove _ pre a). rewrite <- E. by apply I.
    + rewrite fupd_other by done. by apply I.
Qed.

(** A change of the fragments in use. *)
Lemma live_change h h' fr fr' fl lv lv' fv :
  heap_inv h fr fl lv fv -> free_hash (qm h') = free_hash (qm h) -> first_frag (qm h') = first_frag (qm h) ->
  last_frag (qm h') = last_frag (qm h) -> tiled (first_frag (qm h)) fr' (last_frag (qm h) + FRAG_OVERHEAD) ->
  Permutation fr' (lv' ++ fv) -> (forall a sz, In (a, sz) fr' <-> fsize <$> mem h' !! a = Some sz) ->
  (forall b i, In b (fl i) -> mem h' !! b = mem h !! b) ->
  (forall a f, In a (map fst lv') -> mem h' !! a = Some f -> nxt_free f = 0) ->
  heap_inv h' fr' fl lv' fv.
Proof.
  intros I Q1 Q2 Q3 T P M F Lv. pose proof (hk_lists _ _ _ _ _ I) as L.
  assert (Z : forall i a, In a (fl i) -> size_of (mem h') a = size_of (mem h) a) by (intros i a Hi; unfold size_of; by rewrite (F a i)).
  constructor; rewrite ?Q2, ?Q3; try done; try apply I.
  - constructor; [|apply L| |apply L].
    + intros i R. rewrite Q1. destruct (lo_bucket _ _ L i R) as (p & B & C). exists p. split; [done|].
      apply (free_chain_ext (mem h)); [|done]. intros b Hb. by apply (F b i).
    + intros i a Ha. rewrite (Z i) by done. by apply (lo_hash _ _ L).
  - intros i Hi. rewrite (map_ext_in _ (size_of (mem h))); [by apply I|]. intros a Ha. by apply (Z i).
Qed.

Lemma stats_inv h h' fr fl lv fv :
  heap_inv h fr fl lv fv -> mem h' = mem h -> free_hash (qm h') = free_hash (qm h) ->
  first_frag (qm h') = first_frag (qm h) -> last_frag (qm h') = last_frag (qm h) -> heap_inv h' fr fl lv fv.
Proof. intros I E Q1 Q2 Q3. apply (live_change h h' fr fr fl lv lv fv I Q1 Q2 Q3); rewrite ?E; done || apply I. Qed.

Lemma key_unique {A} (l : list (Z * A)) a x y : NoDup (map fst l) -> In (a, x) l -> In (a, y) l -> y = x.
Proof.
  intros N H1 H2. induction l as [|[b z] l IH]; [done|]. simpl in N. apply NoDup_cons in N as [Nb N].
  rewrite list_elem_of_In in Nb. destruct H1 as [E1|H1], H2 as [E2|H2]; simplify_eq; try done; [| |by apply IH].
  - by destruct Nb; apply (in_map fst) in H2.
  - by destruct Nb; apply (in_map fst) in H1.
Qed.

(** Replacing fragments in the middle. *)
Lemma in_middle {A} (x : A) l1 m m' l2 : ~ In x m -> ~ In x m' -> In x (l1 ++ m ++ l2) <-> In x (l1 ++ m' ++ l2).
Proof. intros N1 N2. rewrite !in_app_iff. tauto. Qed.

Lemma cut_inv h l1 a s l2 fl lv fv sz f :
  heap_inv h (l1 ++ (a, s) :: l2) fl ((a, s) :: lv) fv -> mem h !! a = Some f -> 0 <= sz -> (8 | sz) ->
  sz + FRAG_OVERHEAD <= s ->
  let n := a + FRAG_OVERHEAD + sz in let r := s - sz - FRAG_OVERHEAD in
  heap_inv (put_frag n (Frag r 0) (put_frag a (Frag sz (nxt_free f)) h))
    (l1 ++ (a, sz) :: (n, r) :: l2) fl ((n, r) :: (a, sz) :: lv) fv.
Proof.
  intros I Ha H0 H8 Hs n r. unfold FRAG_OVERHEAD in Hs.
  assert (Hin : In (a, s) (l1 ++ (a, s) :: l2)) by (apply in_or_app; right; by left).
  pose proof (inv_bounds I a s Hin) as (_ & _ & D8 & _). pose proof (hk_tiled _ _ _ _ _ I) as T.
  assert (T' : tiled (first_frag (qm h)) (l1 ++ (a, sz) :: (n, r) :: l2) (last_frag (qm h) + FRAG_OVERHEAD)).
  { apply tiled_app in T as (m & T1 & T2). apply tiled_app. exists m. split; [done|]. simpl in *.
    destruct T2 as (-> & _ & _ & T2). split; [done|]. split; [done|]. split; [done|]. split; [unfold n; lia|].
    split; [unfold r, FRAG_OVERHEAD; lia|]. split; [|replace (m + FRAG_OVERHEAD + sz + FRAG_OVERHEAD + r) with (m + FRAG_OVERHEAD + s) by (unfold r, FRAG_OVERHEAD; lia); done].
    unfold r. apply Z.divide_sub_r; [by apply Z.divide_sub_r|]. by exists 2. }
  assert (Nn : forall z, ~ In (n, z) (l1 ++ (a, s) :: l2)).
  { intros z Hz. destruct (tiled_apart _ _ _ _ _ _ _ T Hin Hz) as [[= E _]|X]; unfold n, FRAG_OVERHEAD in *; [lia|].
    pose proof (tiled_in _ _ _ _ _ T Hz). lia. }
  assert (Nan : a <> n) by (unfold n, FRAG_OVERHEAD; lia).
  pose proof (tiled_nodup _ _ _ T') as N'. pose proof (fr_nodup I) as N.
  assert (A1 : In (a, sz) (l1 ++ (a, sz) :: (n, r) :: l2)) by (apply in_or_app; right; by left).
  assert (A2 : In (n, r) (l1 ++ (a, sz) :: (n, r) :: l2)) by (apply in_or_app; right; right; by left).
  assert (Free : forall b i, In b (fl i) -> b <> a /\ b <> n).
  { intros b i Hb. split; [intros ->; apply (live_not_free I a ltac:(by left) i Hb)|]. intros ->.
    assert (Hf : In n (map fst fv)) by (apply (hk_free _ _ _ _ _ I); by exists i).
    apply in_map_iff in Hf as ([n' z] & En & Hf). simpl in En. subst n'. apply (Nn z), (inv_fr I). by right. }
  apply (live_change h _ (l1 ++ (a, s) :: l2) _ fl ((a, s) :: lv)); try done.
  - pose proof (hk_split _ _ _ _ _ I) as P. rewrite <- Permutation_middle in P. apply Permutation_cons_inv in P.
    rewrite <- !Permutation_middle, P. simpl. by rewrite Permutation_swap.
  - intros b z. simpl. destruct (decide (b = n)) as [->|N1].
    { rewrite lookup_insert_eq. simpl. split; [intros X; f_equal; symmetry; exact (key_unique _ n r z N' A2 X)|by intros [= <-]]. }
    rewrite lookup_insert_ne by done. destruct (decide (b = a)) as [->|N2].
    { rewrite lookup_insert_eq. simpl. split; [intros X; f_equal; symmetry; exact (key_unique _ a sz z N' A1 X)|by intros [= <-]]. }
    rewrite lookup_insert_ne, <- (hk_mem _ _ _ _ _ I) by done.
    apply (in_middle (b, z) l1 [(a, sz); (n, r)] [(a, s)] l2); simpl; [intros [[= ? ?]|[[= ? ?]|[]]]; congruence|intros [[= ? ?]|[]]; congruence].
  - intros b i Hb. simpl. destruct (Free b i Hb). by rewrite !lookup_insert_ne.
  - intros b g Hb Hg. simpl in Hg. destruct (decide (b = n)) as [->|N1]; [rewrite lookup_insert_eq in Hg; by injection Hg as <-|].
    rewrite lookup_insert_ne in Hg by done. destruct (decide (b = a)) as [->|N2].
    { rewrite lookup_insert_eq in Hg. injection Hg as <-. simpl. apply (hk_live _ _ _ _ _ I a f); [by left|done]. }
    rewrite lookup_insert_ne in Hg by done. apply (hk_live _ _ _ _ _ I b g); [|done]. destruct Hb as [Hb|Hb]; [by destruct N1|done].
Qed.

Lemma inv_perm h fr fl lv fv lv' fv' :
  heap_inv h fr fl lv fv -> Permutation lv lv' -> Permutation fv fv' -> heap_inv h fr fl lv' fv'.
Proof.
  intros I P1 P2. constructor; try apply I.
  - by rewrite <- P1, <- P2, (hk_split _ _ _ _ _ I).
  - intros a. by rewrite <- (hk_free _ _ _ _ _ I), P2.
  - intros a f Ha. apply (hk_live _ _ _ _ _ I). by rewrite P1.
Qed.

Lemma join_inv h l1 a s n t l2 fl lv fv f :
  heap_inv h (l1 ++ (a, s) :: (n, t) :: l2) fl ((a, s) :: (n, t) :: lv) fv -> mem h !! a = Some f ->
  let r := s + t + FRAG_OVERHEAD in
  heap_inv (put_frag a (Frag r (nxt_free f)) (set_mem (delete n (mem h)) h))
    (l1 ++ (a, r) :: l2) fl ((a, r) :: lv) fv.
Proof.
  intros I Ha r. assert (Hin : In (a, s) (l1 ++ (a, s) :: (n, t) :: l2)) by (apply in_or_app; right; by left).
  assert (Hn : In (n, t) (l1 ++ (a, s) :: (n, t) :: l2)) by (apply in_or_app; right; right; by left).
  pose proof (inv_bounds I a s Hin) as (_ & S0 & S8 & _). pose proof (inv_bounds I n t Hn) as (_ & T0 & T8 & _).
  pose proof (hk_tiled _ _ _ _ _ I) as T. pose proof (fr_nodup I) as N.
  assert (T' : tiled (first_frag (qm h)) (l1 ++ (a, r) :: l2) (last_frag (qm h) + FRAG_OVERHEAD)).
  { apply tiled_app in T as (m & T1 & T2). apply tiled_app. exists m. split; [done|]. simpl in *.
    destruct T2 as (-> & _ & _ & -> & _ & _ & T2). split; [done|]. split; [unfold r, FRAG_OVERHEAD; lia|].
    split; [apply Z.divide_add_r; [by apply Z.divide_add_r|by exists 2]|].
    replace (m + FRAG_OVERHEAD + r) with (m + FRAG_OVERHEAD + s + FRAG_OVERHEAD + t) by (unfold r; lia). done. }
  assert (Nan : a <> n).
  { rewrite map_app in N. apply NoDup_app in N as (_ & _ & N). simpl in N. apply NoDup_cons in N as [N _].
    intros ->. apply N. by left. }
  pose proof (tiled_nodup _ _ _ T') as N'.
  assert (A1 : In (a, r) (l1 ++ (a, r) :: l2)) by (apply in_or_app; right; by left).
  apply (live_change h _ (l1 ++ (a, s) :: (n, t) :: l2) _ fl ((a, s) :: (n, t) :: lv)); try done.
  - pose proof (hk_split _ _ _ _ _ I) as P. rewrite <- !Permutation_middle in P. simpl in P.
    apply Permutation_cons_inv in P. rewrite <- Permutation_middle. simpl. constructor. by apply Permutation_cons_inv in P.
  - intros b z. simpl. destruct (decide (b = a)) as [->|N1].
    { rewrite lookup_insert_eq. simpl. split; [intros X; f_equal; symmetry; exact (key_unique _ a r z N' A1 X)|by intros [= <-]]. }
    rewrite lookup_insert_ne by done. destruct (decide (b = n)) as [->|N2].
    { rewrite lookup_delete_eq. split; [|done]. intros X. exfalso. apply in_app_or in X as X'.
      rewrite map_app in N. apply NoDup_app in N as (_ & Nd & N). simpl in N. apply NoDup_cons in N as [_ N].
      apply NoDup_cons in N as [N _]. destruct X' as [X'|[[= ? ?]|X']]; [|done|].
      - apply (in_map fst) in X'. apply (Nd n); apply list_elem_of_In; [done|]. right. by left.
      - apply (in_map fst) in X'. by apply N, list_elem_of_In. }
    rewrite lookup_delete_ne, <- (hk_mem _ _ _ _ _ I) by done.
    apply (in_middle (b, z) l1 [(a, r)] [(a, s); (n, t)] l2); simpl; [intros [[= ? ?]|[]]; congruence|intros [[= ? ?]|[[= ? ?]|[]]]; congruence].
  - intros b i Hb. simpl. rewrite lookup_insert_ne, lookup_delete_ne; [done| |]; intros <-;
      [apply (live_not_free I n ltac:(right; by left) i Hb)|apply (live_not_free I a ltac:(by left) i Hb)].
  - intros b g Hb Hg. simpl in Hg. destruct (decide (b = a)) as [->|N1].
    { rewrite lookup_insert_eq in Hg. injection Hg as <-. simpl. apply (hk_live _ _ _ _ _ I a f); [by left|done]. }
    rewrite lookup_insert_ne in Hg by done. apply lookup_delete_Some in Hg as [_ Hg].
    apply (hk_live _ _ _ _ _ I b g); [|done]. destruct Hb as [Hb|Hb]; [by destruct N1|right; by right].
Qed.

(** ** Splitting *)

Lemma u64_idem z : u64 (u64 z) = u64 z.
Proof. unfold u64. by rewrite Zmod_mod. Qed.

(** The waste that is left in a fragment that is not split. *)
Definition little (sz s : Z) : Prop := s - sz <= FRAG_OVERHEAD + F_MALLOC_OPTIMIZE /\ s - sz < FRAG_OVERHEAD + sz.

Lemma split_ok h fr fl a s lv fv sz :
  heap_inv h fr fl ((a, s) :: lv) fv -> 0 <= sz <= s -> (8 | sz) ->
  returns (fm_split_frag a sz h) (fun h' => exists fr' fl' s' fv',
    heap_inv h' fr' fl' ((a, s') :: lv) fv' /\ used (qm h') = used (qm h) /\
    max_real_used (qm h') = max_real_used (qm h) /\ qsize (qm h') = qsize (qm h) /\
    u64 (real_used (qm h')) = u64 (real_used (qm h) + FRAG_OVERHEAD * (zlen fv' - zlen fv)) /\
    (s' = s /\ fv' = fv /\ little sz s \/
     s' = sz /\ fv' = (a + FRAG_OVERHEAD + sz, s - sz - FRAG_OVERHEAD) :: fv)).
Proof.
  intros I Hs H8. assert (Ha : In (a, s) fr) by (apply (inv_fr I); left; by left).
  destruct (inv_frag I a s Ha) as (f & Hf & Es). destruct (inv_bounds I a s Ha) as (B1 & B2 & B3 & B4).
  unfold fm_split_frag. rewrite (get_frag_some _ _ _ Hf). run. cbv zeta. rewrite Es. unfold FRAG_OVERHEAD in B4.
  rewrite !(u64_small (s - sz)), (u64_small (FRAG_OVERHEAD + sz)) by (unfold FRAG_OVERHEAD; lia).
  rewrite Z.gtb_ltb, Z.geb_leb. destruct (_ || _) eqn:Ec; cycle 1.
  { apply returns_ret. exists fr, fl, s, fv. split; [done|]. do 3 (split; [done|]).
    split; [f_equal; lia|]. left. split; [done|]. split; [done|]. unfold little. bool_to_prop. lia. }
  assert (Hr : sz + FRAG_OVERHEAD <= s).
  { apply orb_true_iff in Ec as [Ec|Ec]; bool_to_prop; change F_MALLOC_OPTIMIZE with 16384 in *; unfold FRAG_OVERHEAD in *; lia. }
  unfold FRAG_NEXT. cbn [fsize]. rewrite (u64_small (a + FRAG_OVERHEAD + sz)), (u64_small (s - sz - FRAG_OVERHEAD)) by (unfold FRAG_OVERHEAD in *; lia).
  apply in_split in Ha as (l1 & l2 & ->). pose proof (cut_inv h l1 a s l2 fl lv fv sz f I Hf ltac:(lia) H8 Hr) as I1.
  cbv zeta in I1. set (n := a + FRAG_OVERHEAD + sz) in *. set (r := s - sz - FRAG_OVERHEAD) in *.
  set (h1 := put_frag n _ _) in *. pose proof (stats_inv h1 (add_real FRAG_OVERHEAD h1) _ _ _ _ I1 eq_refl eq_refl eq_refl eq_refl) as I2.
  eapply returns_impl; [apply (insert_free_ok _ _ _ _ _ n r I2)|]. intros h' (S & fl' & I3).
  destruct (same_qm _ _ S) as (_ & _ & Q3 & Q4 & Q5 & Q6). exists (l1 ++ (a, sz) :: (n, r) :: l2), fl', sz, ((n, r) :: fv).
  split; [done|]. rewrite Q3, Q4, Q5, Q6. do 3 (split; [done|]). split; [|by right]. simpl. rewrite u64_idem, zlen_cons.
  f_equal. lia.
Qed.

(** ** Allocation *)

Lemma free_size {h fr fl lv fv} i a :
  heap_inv h fr fl lv fv -> In a (fl i) -> exists s, In (a, s) fv /\ size_of (mem h) a = s.
Proof.
  intros I Ha. assert (Hf : In a (map fst fv)) by (apply (hk_free _ _ _ _ _ I); by exists i).
  apply in_map_iff in Hf as ([a' s] & E & Hf). simpl in E. subst a'. exists s. split; [done|].
  destruct (inv_frag I a s) as (f & Hm & <-); [apply (inv_fr I); by right|]. by rewrite (size_of_some _ _ _ Hm).
Qed.

Lemma at_link_load h fl i pre post :
  lists_ok h fl -> in_range i -> fl i = pre ++ post ->
  returns (load (at_link i pre) h) (fun v => match post with [] => v = 0 | a :: _ => v = a /\ a <> 0 end).
Proof.
  intros L R E. destruct (lo_bucket _ _ L i R) as (p & B & C). rewrite E in C.
  eapply returns_impl; [by eapply (load_link h i p _ pre post)|]. intros v Cv. destruct post as [|a post]; [done|].
  by destruct Cv as (-> & Nz & _).
Qed.

Lemma search_ok h fr fl lv fv n hash sz :
  heap_inv h fr fl lv fv -> 0 <= hash -> hash + Z.of_nat n = F_HASH_SIZE ->
  (forall i a, i < hash -> In a (fl i) -> size_of (mem h) a < sz) ->
  returns (search n hash sz h) (fun o =>
    match o with
    | None => forall i a, In a (fl i) -> size_of (mem h) a < sz
    | Some (i, l) => exists pre a post, in_range i /\ fl i = pre ++ a :: post /\ l = at_link i pre /\ sz <= size_of (mem h) a
    end).
Proof.
  intros I. pose proof (hk_lists _ _ _ _ _ I) as L. revert hash. induction n as [|n IH]; intros hash H0 Hn Hb.
  - apply returns_ret. intros i a Ha. apply (Hb i a); [|done].
    destruct (decide (in_range i)) as [R|R]; [unfold in_range in R; lia|]. by rewrite (lo_out _ _ L i R) in Ha.
  - cbn [search]. assert (R : in_range hash) by (unfold in_range; lia).
    eapply returns_bind; [apply (walk_ok _ h fl hash (enough h) [] (fl hash) L R eq_refl (list_bound h fl hash L R))|].
    intros l (mid & rest & E & -> & H1 & H2). simpl app.
    eapply returns_bind; [by apply (at_link_load h fl hash mid rest)|]. intros v Hv. destruct rest as [|a rest].
    + subst v. simpl. apply IH; [lia|lia|]. intros i a Hi Ha. destruct (decide (i = hash)) as [->|Ne]; [|apply (Hb i a); [lia|done]].
      rewrite E, app_nil_r in Ha. destruct (H1 a Ha) as (f & Hf & Hs). rewrite (size_of_some _ _ _ Hf).
      rewrite Z.geb_leb in Hs. bool_to_prop. lia.
    + destruct Hv as [-> Nz]. rewrite (proj2 (Z.eqb_neq a 0)) by done. apply returns_ret. exists mid, a, rest.
      split; [done|]. split; [done|]. split; [done|]. destruct H2 as (f & Hf & Hs). rewrite (size_of_some _ _ _ Hf).
      rewrite Z.geb_leb in Hs. bool_to_prop. lia.
Qed.

(** [(a, s)] is cut from the free fragment [(a, s0)]. *)
Definition cut_from (sz a s0 s : Z) (fv fv' : list (Z * Z)) : Prop :=
  exists fv0, Permutation fv ((a, s0) :: fv0) /\
    (s = s0 /\ fv' = fv0 /\ little sz s0 \/
     s = sz /\ fv' = (a + FRAG_OVERHEAD + sz, s0 - sz - FRAG_OVERHEAD) :: fv0).

Lemma u64_add_eq a b c : u64 a = u64 b -> u64 (a + c) = u64 (b + c).
Proof. intros E. by rewrite <- (u64_add a), E, u64_add. Qed.

Lemma malloc_ok h fr fl lv fv sz :
  heap_inv h fr fl lv fv -> 0 <= sz -> sz + 7 < 2 ^ 64 ->
  returns (fm_malloc sz h) (fun '(p, h') =>
    p = 0 /\ h' = h /\ (forall a s, In (a, s) fv -> s < sz) \/
    exists a s0 s fr' fl' fv', p = a + FRAG_OVERHEAD /\ sz <= s <= s0 /\ cut_from (ROUNDUP sz) a s0 s fv fv' /\
      heap_inv h' fr' fl' ((a, s) :: lv) fv' /\ used (qm h') = u64 (used (qm h) + s) /\
      real_used (qm h') = u64 (real_used (qm h) + s + FRAG_OVERHEAD * (1 + zlen fv' - zlen fv)) /\ qsize (qm h') = qsize (qm h)).
Proof.
  intros I H0 H7. destruct (ROUNDUP_bounds sz H0 H7) as [Hr H8]. unfold fm_malloc. cbv zeta. set (rs := ROUNDUP sz) in *.
  assert (Hrs : 0 <= rs < 2 ^ 64) by (split; [lia|]; unfold rs; rewrite ROUNDUP_ok by lia; pose proof (Z.mul_div_le (sz + 7) 8); lia).
  pose proof (GET_HASH_range rs Hrs) as [R1 R2].
  eapply returns_bind; [apply (search_ok h fr fl lv fv _ (GET_HASH rs) rs I); [lia|lia|]|].
  { intros i a Hi Ha. assert (~ rs <= size_of (mem h) a); [|lia]. intros Hle.
    rewrite <- (lo_hash _ _ (hk_lists _ _ _ _ _ I) i a Ha) in Hi. destruct (free_size i a I Ha) as (s & Hs & Es).
    pose proof (inv_bounds I a s (inv_fr I a s (or_intror Hs))) as B. unfold FRAG_OVERHEAD in B.
    pose proof (GET_HASH_mono rs (size_of (mem h) a)). lia. }
  intros [[i l]|] X; cycle 1.
  { apply returns_ret. left. split; [done|]. split; [done|]. intros a s Hs.
    assert (Hf : In a (map fst fv)) by (by apply (in_map fst) in Hs). apply (hk_free _ _ _ _ _ I) in Hf as [i Hi].
    pose proof (X i a Hi) as Hlt. destruct (inv_frag I a s (inv_fr I a s (or_intror Hs))) as (f & Hf & Ef).
    rewrite (size_of_some _ _ _ Hf), Ef in Hlt. destruct (inv_bounds I a s (inv_fr I a s (or_intror Hs))) as (_ & B2 & [k B3] & _).
    destruct H8 as [m H8]. lia. }
  destruct X as (pre & a & post & R & E & -> & Hsz).
  eapply returns_bind; [by apply (take_ok h fr fl lv fv i pre a post)|].
  intros [p h1] (-> & S1 & f & fl1 & fv1 & Hf & P & I1). rewrite (get_frag_some _ _ _ Hf). run.
  assert (Ef : size_of (mem h) a = fsize f) by by rewrite <- (same_size_of h h1), (size_of_some _ _ _ Hf).
  rewrite Ef in Hsz. eapply returns_bind; [apply (split_ok _ _ _ _ _ _ _ rs I1); [lia|done]|].
  intros h2 (fr2 & fl2 & s2 & fv2 & I2 & U2 & M2 & Z2 & R2' & Cut).
  destruct (inv_frag I2 a s2) as (f2 & Hf2 & Ef2); [apply (inv_fr I2); left; by left|]. rewrite (get_frag_some _ _ _ Hf2). run.
  apply returns_ret. right. destruct (same_qm _ _ S1) as (_ & _ & Q3 & Q4 & Q5 & _). simpl in U2, R2', Z2.
  pose proof (inv_bounds I2 a s2 (inv_fr I2 a s2 (or_introl (or_introl eq_refl)))) as B2. unfold FRAG_OVERHEAD in B2.
  exists a, (fsize f), s2, fr2, fl2, fv2. split; [apply u64_small; unfold FRAG_OVERHEAD; lia|].
  split; [destruct Cut as [(-> & _)|(-> & _)]; lia|]. split; [exists fv1; by split|].
  set (h3 := if _ <? _ then _ else _).
  assert (E3 : qsize (qm h3) = qsize (qm h2) /\ used (qm h3) = u64 (used (qm h2) + s2) /\ real_used (qm h3) = u64 (real_used (qm h2) + s2) /\
    mem h3 = mem h2 /\ free_hash (qm h3) = free_hash (qm h2) /\ first_frag (qm h3) = first_frag (qm h2) /\ last_frag (qm h3) = last_frag (qm h2))
    by (unfold h3; rewrite Ef2; match goal with |- context [if ?b then _ else _] => destruct b end; repeat split).
  destruct E3 as (E31 & E32 & E33 & E34 & E35 & E36 & E37). split; [by apply (stats_inv h2)|].
  rewrite E32, E33, E31, U2, Q3, Z2, Q5. split; [done|]. split; [|done].
  rewrite (u64_add_eq _ _ _ R2'), Q4. f_equal. assert (zlen fv = 1 + zlen fv1) by (rewrite <- (zlen_cons (a, fsize f) fv1); unfold zlen; by rewrite P).
  lia.
Qed.

(** ** Release and resizing *)

Lemma ptr_back a : 0 < a -> a + FRAG_OVERHEAD < 2 ^ 64 ->
  (a + FRAG_OVERHEAD =? 0) = false /\ u64 (a + FRAG_OVERHEAD - FRAG_OVERHEAD) = a.
Proof. unfold FRAG_OVERHEAD. intros H1 H2. split; [lia|]. rewrite u64_small by lia. lia. Qed.

Lemma inv_ptr {h fr fl lv fv} a s :
  heap_inv h fr fl lv fv -> In (a, s) fr ->
  (a + FRAG_OVERHEAD =? 0) = false /\ u64 (a + FRAG_OVERHEAD - FRAG_OVERHEAD) = a /\
  exists f, get_frag a h = Ret f /\ mem h !! a = Some f /\ fsize f = s.
Proof.
  intros I Ha. destruct (inv_bounds I a s Ha) as (B1 & B2 & _ & B3). unfold FRAG_OVERHEAD in B3.
  destruct (ptr_back a) as [P1 P2]; [lia|unfold FRAG_OVERHEAD; lia|]. split; [done|]. split; [done|].
  destruct (inv_frag I a s Ha) as (f & Hf & Es). exists f. by rewrite (get_frag_some _ _ _ Hf).
Qed.

Lemma free_ok h fr fl a s lv fv :
  heap_inv h fr fl ((a, s) :: lv) fv ->
  returns (fm_free (a + FRAG_OVERHEAD) h) (fun h' => exists fl', heap_inv h' fr fl' lv ((a, s) :: fv) /\
    used (qm h') = u64 (used (qm h) - s) /\ real_used (qm h') = u64 (real_used (qm h) - s) /\ qsize (qm h') = qsize (qm h)).
Proof.
  intros I. destruct (inv_ptr a s I) as (P1 & P2 & f & Hg & _ & Es); [apply (inv_fr I); left; by left|].
  unfold fm_free. rewrite P1, P2. cbv zeta. rewrite Hg. run. rewrite Es.
  pose proof (stats_inv h (add_real (- s) (add_used (- s) h)) _ _ _ _ I eq_refl eq_refl eq_refl eq_refl) as I1.
  eapply returns_impl; [apply (insert_free_ok _ _ _ _ _ a s I1)|]. intros h' (S & fl' & I2).
  destruct (same_qm _ _ S) as (_ & _ & -> & -> & -> & _). by exists fl'.
Qed.

(** The fragment after one that does not reach the end. *)
Lemma next_frag h l1 a s l2 fl lv fv :
  heap_inv h (l1 ++ (a, s) :: l2) fl lv fv -> a + FRAG_OVERHEAD + s < last_frag (qm h) ->
  exists t l2', l2 = (a + FRAG_OVERHEAD + s, t) :: l2'.
Proof.
  intros I Hlt. pose proof (hk_tiled _ _ _ _ _ I) as T. apply tiled_app in T as (m & _ & T). simpl in T.
  destruct T as (-> & _ & _ & T). destruct l2 as [|[n t] l2]; simpl in T; [unfold FRAG_OVERHEAD in *; lia|].
  destruct T as (-> & _). eauto.
Qed.

(** A fragment whose link is set is free. *)
Lemma linked_free h fr fl lv fv n t g :
  heap_inv h fr fl lv fv -> In (n, t) fr -> mem h !! n = Some g -> nxt_free g <> 0 ->
  exists i pre post, in_range i /\ fl i = pre ++ n :: post /\ GET_HASH t = i.
Proof.
  intros I Hin Hg Hn. apply (Permutation_in _ (hk_split _ _ _ _ _ I)) in Hin as Hin'. apply in_app_or in Hin' as [Hl|Hf].
  - exfalso. apply Hn, (hk_live _ _ _ _ _ I n g); [|done]. by apply (in_map fst) in Hl.
  - apply (in_map fst) in Hf. simpl in Hf. apply (hk_free _ _ _ _ _ I) in Hf as [i Hi].
    pose proof (lo_hash _ _ (hk_lists _ _ _ _ _ I) i n Hi) as E.
    destruct (inv_frag I n t Hin) as (f & Hf & Es). rewrite (size_of_some _ _ _ Hf), Es in E.
    apply in_split in Hi as (pre & post & Ei). exists i, pre, post. split; [|done]. rewrite <- E. by apply (inv_hash I n).
Qed.

(** The walk of [fm_realloc] finds the fragment. *)
Lemma find_frag h fl i pre n post :
  lists_ok h fl -> in_range i -> fl i = pre ++ n :: post ->
  returns (walk (fun q _ => q =? n) (enough h) (Head i) h) (fun l => l = at_link i pre).
Proof.
  intros L R E. eapply returns_impl; [apply (walk_ok _ h fl i (enough h) [] (fl i) L R eq_refl (list_bound h fl i L R))|].
  intros l (mid & rest & E' & -> & H1 & H2). simpl. f_equal. rewrite E in E'.
  pose proof (lo_nodup _ _ L i) as N. rewrite E in N. apply NoDup_app in N as (_ & Nd & N). apply NoDup_cons in N as [N _].
  rewrite list_elem_of_In in N.
  assert (Nm : ~ In n mid) by (intros X; destruct (H1 n X) as (f & _ & X'); by rewrite Z.eqb_refl in X').
  destruct rest as [|b rest].
  { exfalso. apply Nm. rewrite app_nil_r in E'. rewrite <- E'. apply in_or_app. right. by left. }
  destruct H2 as (f & _ & H2). apply Z.eqb_eq in H2. subst b.
  assert (Npre : ~ In n pre) by (intros X; apply (Nd n); [by apply list_elem_of_In|by left]).
  clear - E' Nm Npre. revert pre E' Npre. induction mid as [|c mid IH]; intros [|d pre] E' Npre; simplify_eq/=; [done| | |].
  - by destruct Npre; left.
  - by destruct Nm; left.
  - f_equal. apply IH; tauto || done.
Qed.

Lemma join_ok h l1 a s n t l2 fl lv fv g :
  heap_inv h (l1 ++ (a, s) :: (n, t) :: l2) fl ((a, s) :: lv) fv -> mem h !! n = Some g -> nxt_free g <> 0 ->
  returns (join a n h) (fun h' => exists fl' fv', Permutation fv ((n, t) :: fv') /\
    heap_inv h' (l1 ++ (a, s + t + FRAG_OVERHEAD) :: l2) fl' ((a, s + t + FRAG_OVERHEAD) :: lv) fv' /\
    used (qm h') = used (qm h) /\ real_used (qm h') = u64 (real_used (qm h) - FRAG_OVERHEAD) /\
    qsize (qm h') = qsize (qm h) /\ last_frag (qm h') = last_frag (qm h)).
Proof.
  intros I Hg Hn. set (fr := l1 ++ (a, s) :: (n, t) :: l2) in *.
  assert (Ha : In (a, s) fr) by (apply in_or_app; right; by left).
  assert (Hnt : In (n, t) fr) by (apply in_or_app; right; right; by left).
  destruct (inv_frag I a s Ha) as (f & Hf & Es). destruct (inv_frag I n t Hnt) as (g' & Hg' & Et).
  rewrite Hg in Hg'. injection Hg' as <-. destruct (linked_free _ _ _ _ _ n t g I Hnt Hg Hn) as (i & pre & post & R & E & Ei).
  pose proof (inv_bounds I a s Ha) as (B0 & B1 & _ & B2). pose proof (inv_bounds I n t Hnt) as (_ & B3 & _ & B4).
  pose proof (hk_tiled _ _ _ _ _ I) as T. apply tiled_app in T as (m & _ & T). simpl in T. destruct T as (-> & _ & _ & En & _).
  unfold join. rewrite (get_frag_some _ _ _ Hf), (get_frag_some _ _ _ Hg). run. cbv zeta. rewrite Es, Et, Ei.
  eapply returns_bind; [by apply (find_frag h fl i pre n post); [apply I|..]|]. intros l ->.
  eapply returns_bind; [apply (at_link_load h fl i pre (n :: post)); [apply I|done|done]|]. intros q [-> Nz].
  rewrite (proj2 (Z.eqb_neq n 0)) by done.
  eapply returns_bind; [by apply (take_ok h fr fl ((m, s) :: lv) fv i pre n post)|].
  intros [q h1] (-> & S & g1 & fl1 & fv1 & Hg1 & P & I1). apply returns_ret.
  assert (Eg : fsize g1 = t). { rewrite <- Et. pose proof (sf_size _ _ S n) as X. rewrite Hg, Hg1 in X. by injection X. }
  rewrite Eg in *. exists fl1, fv1. split; [done|].
  assert (Nmn : m <> n) by (unfold FRAG_OVERHEAD in *; lia).
  assert (Hf1 : exists f1, mem h1 !! m = Some f1 /\ nxt_free f1 = nxt_free f).
  { pose proof (sf_size _ _ S m) as X. rewrite Hf in X. destruct (mem h1 !! m) as [f1|] eqn:E1; [|done]. exists f1. split; [done|].
    rewrite (hk_live _ _ _ _ _ I m f); [|by left|done]. apply (hk_live _ _ _ _ _ I1 m f1); [right; by left|].
    simpl. by rewrite lookup_insert_ne. }
  destruct Hf1 as (f1 & Hf1 & Enx).
  apply (inv_perm _ _ _ _ _ ((m, s) :: (n, t) :: lv) fv1) in I1; [|constructor|done].
  pose proof (join_inv _ l1 m s n t l2 fl1 lv fv1 f1 I1) as J. cbv zeta in J.
  destruct (same_qm _ _ S) as (_ & Q2 & Q3 & Q4 & Q5 & _).
  split; [|split; [simpl; by rewrite Q3|split; [simpl; by rewrite Q4|split; [simpl; by rewrite Q5|simpl; by rewrite Q2]]]].
  rewrite (u64_small (s + t + FRAG_OVERHEAD)) by (unfold FRAG_OVERHEAD in *; lia). rewrite <- Enx.
  apply (stats_inv (put_frag m (Frag (s + t + FRAG_OVERHEAD) (nxt_free f1)) (set_mem (delete n (mem h1)) h1))); [|done..].
  simpl in J. unfold put_frag, set_mem in *. simpl in *. rewrite delete_insert_eq in J. apply J. by rewrite lookup_insert_ne.
Qed.

Lemma ROUNDUP_idem r : 0 <= r < 2 ^ 64 -> (8 | r) -> ROUNDUP r = r /\ r + 7 < 2 ^ 64.
Proof.
  intros H [k E]. assert (r + 7 < 2 ^ 64) by (change (2 ^ 64) with (8 * 2 ^ 61) in *; lia). split; [|done].
  rewrite ROUNDUP_ok by lia. subst r. replace (k * 8 + 7) with (7 + k * 8) by lia. rewrite Z.div_add by lia.
  change (7 / 8) with 0. lia.
Qed.

(** A block [(a, s)] in use becomes [(b, t)]; [d] is what [real_used] gains beyond what it should. *)
Definition resized (h : heap) (lv fv : list (Z * Z)) (a s sz d p : Z) (h' : heap) : Prop :=
  exists b t fr' fl' fv', p = b + FRAG_OVERHEAD /\ sz <= t /\ (b = a \/ In (a, s) fv') /\
    heap_inv h' fr' fl' ((b, t) :: lv) fv' /\ used (qm h') = u64 (used (qm h) + (t - s)) /\
    real_used (qm h') = u64 (real_used (qm h) + (t - s) + FRAG_OVERHEAD * (zlen fv' - zlen fv) + d) /\
    qsize (qm h') = qsize (qm h).

Lemma shrink_ok h fr fl a s lv fv sz :
  heap_inv h fr fl ((a, s) :: lv) fv -> 0 <= sz < s -> (8 | sz) ->
  returns (h' ← fm_split_frag a sz h; f ← get_frag a h';
           Ret (a + FRAG_OVERHEAD, add_used (- (s - fsize f)) (add_real (- (s - fsize f - FRAG_OVERHEAD)) h')))
    (fun '(p, h') => resized h lv fv a s sz FRAG_OVERHEAD p h').
Proof.
  intros I Hs H8. eapply returns_bind; [apply (split_ok h fr fl a s lv fv sz I); [lia|done]|].
  intros h1 (fr1 & fl1 & s1 & fv1 & I1 & U1 & _ & Z1 & R1 & Cut).
  destruct (inv_ptr a s1 I1) as (_ & _ & f & -> & _ & Ef); [apply (inv_fr I1); left; by left|]. run. apply returns_ret.
  rewrite Ef. exists a, s1, fr1, fl1, fv1. split; [done|]. split; [destruct Cut as [(-> & _)|(-> & _)]; lia|].
  split; [by left|]. split; [by apply (stats_inv h1)|]. simpl. split; [rewrite U1; f_equal; lia|]. split; [|done].
  rewrite (u64_add_eq _ _ _ R1). f_equal. lia.
Qed.

(** Growing in place, from the point where the fragments are joined. *)
Lemma grow_ok h l1 a s n t l2 fl lv fv g sz :
  heap_inv h (l1 ++ (a, s) :: (n, t) :: l2) fl ((a, s) :: lv) fv -> mem h !! n = Some g -> nxt_free g <> 0 ->
  0 <= sz <= s + t + FRAG_OVERHEAD -> (8 | sz) ->
  returns (h ← join a n h; f ← get_frag a h;
           h ← (if fsize f >? sz then fm_split_frag a sz h else Ret h); f ← get_frag a h;
           Ret (a + FRAG_OVERHEAD, add_used (fsize f - s) (add_real (fsize f - s) h)))
    (fun '(p, h') => resized h lv fv a s sz 0 p h').
Proof.
  intros I Hg Hn Hs H8. eapply returns_bind; [by apply (join_ok h l1 a s n t l2 fl lv fv g)|].
  intros h1 (fl1 & fv1 & P & I1 & U1 & R1 & Z1 & _). set (s1 := s + t + FRAG_OVERHEAD) in *.
  destruct (inv_ptr a s1 I1) as (_ & _ & f1 & -> & _ & Ef1); [apply (inv_fr I1); left; by left|]. run. rewrite Ef1.
  assert (Zf : zlen fv = 1 + zlen fv1) by (rewrite <- (zlen_cons (n, t) fv1); unfold zlen; by rewrite P).
  eapply (returns_bind _ _ (fun h2 => exists fr2 fl2 s2 fv2, heap_inv h2 fr2 fl2 ((a, s2) :: lv) fv2 /\ sz <= s2 /\
    used (qm h2) = used (qm h) /\ qsize (qm h2) = qsize (qm h) /\
    u64 (real_used (qm h2)) = u64 (real_used (qm h) + FRAG_OVERHEAD * (zlen fv2 - zlen fv)))).
  - rewrite Z.gtb_ltb. destruct (Z.ltb_spec sz s1).
    + eapply returns_impl; [apply (split_ok h1 _ _ a s1 lv fv1 sz I1); [lia|done]|].
      intros h2 (fr2 & fl2 & s2 & fv2 & I2 & U2 & _ & Z2 & R2 & Cut). exists fr2, fl2, s2, fv2. split; [done|].
      split; [destruct Cut as [(-> & _)|(-> & _)]; lia|]. split; [congruence|]. split; [congruence|].
      rewrite R2, R1, u64_add. f_equal. lia.
    + apply returns_ret. exists (l1 ++ (a, s1) :: l2), fl1, s1, fv1. split; [done|]. split; [lia|]. split; [done|]. split; [done|].
      rewrite R1, u64_idem. f_equal. lia.
  - intros h2 (fr2 & fl2 & s2 & fv2 & I2 & Hs2 & U2 & Z2 & R2).
    destruct (inv_ptr a s2 I2) as (_ & _ & f2 & -> & _ & Ef2); [apply (inv_fr I2); left; by left|]. run. apply returns_ret.
    rewrite Ef2. exists a, s2, fr2, fl2, fv2. split; [done|]. split; [done|]. split; [by left|].
    split; [by apply (stats_inv h2)|]. simpl. split; [by rewrite U2|]. split; [|done]. rewrite (u64_add_eq _ _ _ R2). f_equal. lia.
Qed.

Lemma move_ok h fr fl a s lv fv sz :
  heap_inv h fr fl ((a, s) :: lv) fv -> 0 <= sz -> sz + 7 < 2 ^ 64 ->
  returns ('(q, h) ← fm_malloc sz h;
           if q =? 0 then Ret (0, h) else h ← fm_free (a + FRAG_OVERHEAD) h; Ret (q, h))
    (fun '(p, h') => p = 0 /\ h' = h /\ (forall b t, In (b, t) fv -> t < sz) \/ resized h lv fv a s sz 0 p h').
Proof.
  intros I H0 H7. eapply returns_bind; [by apply (malloc_ok h fr fl ((a, s) :: lv) fv sz I)|].
  intros [q h1] [(-> & -> & X)|(b & s0 & t & fr1 & fl1 & fv1 & -> & Ht & _ & I1 & U1 & R1 & Z1)].
  { apply returns_ret. by left. }
  destruct (inv_ptr b t I1) as (-> & _); [apply (inv_fr I1); left; by left|].
  apply (inv_perm _ _ _ _ _ ((a, s) :: (b, t) :: lv) fv1) in I1; [|constructor|done].
  eapply returns_bind; [apply (free_ok h1 fr1 fl1 a s ((b, t) :: lv) fv1 I1)|].
  intros h2 (fl2 & I2 & U2 & R2 & Z2). apply returns_ret. right. exists b, t, fr1, fl2, ((a, s) :: fv1).
  split; [done|]. split; [lia|]. split; [right; by left|]. split; [done|]. rewrite U2, R2, Z2, U1, R1, Z1.
  split; [unfold u64; rewrite Zminus_mod_idemp_l; f_equal; lia|].
  split; [|done]. rewrite zlen_cons. unfold u64. rewrite Zminus_mod_idemp_l. f_equal. lia.
Qed.

Lemma realloc_ok h fr fl a s lv fv sz :
  heap_inv h fr fl ((a, s) :: lv) fv -> 0 < sz -> sz + 7 < 2 ^ 64 ->
  returns (fm_realloc (a + FRAG_OVERHEAD) sz h) (fun '(p, h') =>
    p = 0 /\ h' = h /\ s < ROUNDUP sz /\ (forall b t, In (b, t) fv -> t < ROUNDUP sz) \/
    p = a + FRAG_OVERHEAD /\ h' = h /\ s = ROUNDUP sz \/
    s <> ROUNDUP sz /\ resized h lv fv a s (ROUNDUP sz) (if s >? ROUNDUP sz then FRAG_OVERHEAD else 0) p h').
Proof.
  intros I H0 H7. destruct (ROUNDUP_bounds sz ltac:(lia) H7) as [Hr H8]. assert (Ha : In (a, s) fr) by (apply (inv_fr I); left; by left).
  destruct (inv_ptr a s I Ha) as (P1 & P2 & f & Hg & Hf & Es). destruct (inv_bounds I a s Ha) as (B1 & B2 & B3 & B4).
  unfold fm_realloc. rewrite (proj2 (Z.eqb_neq sz 0)), P1, P2 by lia. cbv zeta. rewrite Hg. run. rewrite Es. set (rs := ROUNDUP sz) in *.
  assert (Hrs : 0 <= rs < 2 ^ 64) by (split; [lia|]; unfold rs; rewrite ROUNDUP_ok by lia; pose proof (Z.mul_div_le (sz + 7) 8); lia).
  destruct (ROUNDUP_idem rs Hrs H8) as [_ H7'].
  rewrite Z.gtb_ltb. destruct (Z.ltb_spec rs s).
  { eapply returns_impl; [apply (shrink_ok h fr fl a s lv fv rs I); [lia|done]|]. intros [p h'] X. right. right. split; [lia|done]. }
  destruct (Z.ltb_spec s rs) as [Hlt|Hge]; [|apply returns_ret; right; left; split; [done|split; [done|lia]]].
  unfold FRAG_NEXT. rewrite Es, u64_small by (unfold FRAG_OVERHEAD in *; lia). set (n := a + FRAG_OVERHEAD + s).
  apply in_split in Ha as (l1 & l2 & ->).
  assert (Mv : returns ('(q, h) ← fm_malloc rs h;
           if q =? 0 then Ret (0, h) else h ← fm_free (a + FRAG_OVERHEAD) h; Ret (q, h))
    (fun '(p, h') => p = 0 /\ h' = h /\ s < rs /\ (forall b t, In (b, t) fv -> t < rs) \/
       p = a + FRAG_OVERHEAD /\ h' = h /\ s = rs \/ s <> rs /\ resized h lv fv a s rs 0 p h')).
  { eapply returns_impl; [apply (move_ok h _ fl a s lv fv rs I); lia|]. intros [p h'] [(X1 & X2 & X3)|X]; [by left|].
    right. right. split; [lia|done]. }
  destruct (Z.ltb_spec n (last_frag (qm h))) as [Hn|Hn]; [|run; apply Mv].
  destruct (next_frag h l1 a s l2 fl _ fv I Hn) as (t & l2' & ->). fold n in I.
  destruct (inv_frag I n t) as (g & Hgn & Et); [apply in_or_app; right; right; by left|]. rewrite (get_frag_some _ _ _ Hgn). run.
  destruct (negb (nxt_free g =? 0) && _) eqn:Ec; [|apply Mv]. apply andb_true_iff in Ec as [Ec1 Ec2].
  rewrite Z.geb_leb in Ec2. bool_to_prop. rewrite Et in Ec2.
  eapply returns_impl; [apply (grow_ok h l1 a s n t l2' fl lv fv g rs I Hgn Ec1); [lia|done]|].
  intros [p h'] X. right. right. split; [lia|done].
Qed.

(** ** The allocator and its client *)

Definition total (l : list (Z * Z)) : Z := fold_right (fun x n => x.2 + n) 0 l.
Definition BASE : Z := ROUNDUP BLOCK_SIZE.

(** A heap with the blocks [lv] in use and [fv] free; [d] is the error of [real_used]. *)
Record heap_ok (h : heap) (lv fv : list (Z * Z)) (d : Z) : Prop := {
  ho_inv : exists fr fl, heap_inv h fr fl lv fv;
  ho_used : used (qm h) = u64 (total lv);
  ho_real : real_used (qm h) = u64 (BASE + FRAG_OVERHEAD * (zlen lv + zlen fv) + total lv + d);
  ho_size : qsize (qm h) = BASE + FRAG_OVERHEAD * (zlen lv + zlen fv) + total lv + total fv;
  ho_align : (8 | first_frag (qm h))
}.

Lemma total_perm l l' : Permutation l l' -> total l = total l'.
Proof. induction 1; simpl; lia. Qed.

Lemma zlen_perm {A} (l l' : list A) : Permutation l l' -> zlen l = zlen l'.
Proof. intros P. unfold zlen. by rewrite P. Qed.

Lemma total_app l l' : total (l ++ l') = total l + total l'.
Proof. induction l as [|x l IH]; simpl; [done|]. rewrite IH. lia. Qed.

Lemma heap_ok_perm h lv fv d lv' fv' :
  heap_ok h lv fv d -> Permutation lv lv' -> Permutation fv fv' -> heap_ok h lv' fv' d.
Proof.
  intros [(fr & fl & I) U R Q A] P1 P2. constructor; try done.
  - exists fr, fl. by apply (inv_perm h fr fl lv fv).
  - by rewrite <- (total_perm _ _ P1).
  - by rewrite <- (total_perm _ _ P1), <- (zlen_perm _ _ P1), <- (zlen_perm _ _ P2).
  - by rewrite <- (total_perm _ _ P1), <- (total_perm _ _ P2), <- (zlen_perm _ _ P1), <- (zlen_perm _ _ P2).
Qed.

(** The size of the whole follows from the tiling. *)
Lemma tiled_total s l e : tiled s l e -> e - s = FRAG_OVERHEAD * zlen l + total l.
Proof.
  revert s. induction l as [|[a sz] l IH]; intros s; simpl; [intros ->; unfold zlen, FRAG_OVERHEAD; simpl; lia|].
  intros (-> & _ & _ & T). apply IH in T. rewrite zlen_cons. lia.
Qed.

Lemma inv_total {h fr fl lv fv} : heap_inv h fr fl lv fv ->
  last_frag (qm h) + FRAG_OVERHEAD - first_frag (qm h) = FRAG_OVERHEAD * (zlen lv + zlen fv) + total lv + total fv.
Proof.
  intros I. rewrite (tiled_total _ _ _ (hk_tiled _ _ _ _ _ I)). pose proof (hk_split _ _ _ _ _ I) as P.
  rewrite (total_perm _ _ P), (zlen_perm _ _ P), total_app, zlen_app. lia.
Qed.

(** The fields that no operation changes. *)
Definition same_block (h h' : heap) : Prop :=
  qsize (qm h') = qsize (qm h) /\ first_frag (qm h') = first_frag (qm h) /\ last_frag (qm h') = last_frag (qm h).

Lemma heap_ok_next h lv fv d h' fr' fl' lv' fv' d' :
  heap_ok h lv fv d -> same_block h h' -> heap_inv h' fr' fl' lv' fv' ->
  used (qm h') = u64 (total lv') ->
  real_used (qm h') = u64 (BASE + FRAG_OVERHEAD * (zlen lv' + zlen fv') + total lv' + d') ->
  heap_ok h' lv' fv' d'.
Proof.
  intros [(fr & fl & I) U R Q A] (E1 & E2 & E3) I' U' R'. constructor; [by exists fr', fl'|done|done| |by rewrite E2].
  pose proof (inv_total I) as T. pose proof (inv_total I') as T'. rewrite E2, E3 in T'. rewrite E1. lia.
Qed.

(** *** No operation moves the block *)

Lemma may_any {A B} (m : res A) (g : A -> res B) R : (forall a, may_return (g a) R) -> may_return (m ≫= g) R.
Proof. intros Hg. apply (may_bind _ _ (fun _ => True)); [done|auto]. Qed.

Lemma same_block_trans h1 h2 h3 : same_block h1 h2 -> same_block h2 h3 -> same_block h1 h3.
Proof. intros (A & B & C) (D & E & F). repeat split; congruence. Qed.

Lemma store_block l v h : may_return (store l v h) (same_block h).
Proof. destruct l; apply may_any; intros x; by apply may_ret. Qed.

Lemma add_no_block i d h : may_return (add_no i d h) (same_block h).
Proof. apply may_any. intros x. by apply may_ret. Qed.

Lemma insert_free_block p h : may_return (fm_insert_free p h) (same_block h).
Proof.
  unfold fm_insert_free. apply may_any. intros f. cbv zeta. apply may_any. intros l. apply may_any. intros v.
  eapply may_bind; [apply store_block|]. intros h1 B1. eapply may_impl; [apply add_no_block|].
  intros h2. by apply same_block_trans.
Qed.

Lemma split_block p sz h : may_return (fm_split_frag p sz h) (same_block h).
Proof.
  unfold fm_split_frag. apply may_any. intros f. cbv zeta.
  match goal with |- may_return (if ?b then _ else _) _ => destruct b end; [|by apply may_ret].
  eapply may_impl; [apply insert_free_block|]. intros h' X. exact X.
Qed.

Lemma detach_block i l h : may_return (detach i l h) (fun x => same_block h x.2).
Proof.
  unfold detach. apply may_any. intros p. apply may_any. intros f. eapply may_bind; [apply store_block|]. intros h1 B1.
  eapply may_bind; [apply add_no_block|]. intros h2 B2. apply may_ret. by apply (same_block_trans _ h1).
Qed.

Lemma malloc_block sz h : may_return (fm_malloc sz h) (fun x => same_block h x.2).
Proof.
  unfold fm_malloc. cbv zeta. apply may_any. intros [[i l]|]; [|by apply may_ret].
  eapply may_bind; [apply detach_block|]. intros [p h1] B1. simpl in B1. apply may_any. intros f.
  eapply may_bind; [apply split_block|]. intros h2 B2. apply may_any. intros g.
  apply may_ret. cbn [snd]. eapply same_block_trans; [exact B1|].
  match goal with |- same_block _ (if ?b then _ else _) => destruct b end; exact B2.
Qed.

Lemma free_block p h : may_return (fm_free p h) (same_block h).
Proof.
  unfold fm_free. destruct (p =? 0); [by apply may_ret|]. cbv zeta. apply may_any. intros f.
  eapply may_impl; [apply insert_free_block|]. intros h' X. exact X.
Qed.

Lemma join_block a n h : may_return (join a n h) (same_block h).
Proof.
  unfold join. apply may_any. intros f. apply may_any. intros g. cbv zeta. apply may_any. intros l. apply may_any. intros q.
  destruct (q =? 0); [by intros ? [=]|]. eapply may_bind; [apply detach_block|]. intros [p h1] B1. by apply may_ret.
Qed.

Lemma realloc_block p sz h : may_return (fm_realloc p sz h) (fun x => same_block h x.2).
Proof.
  unfold fm_realloc. destruct (sz =? 0).
  { eapply (may_bind _ _ (same_block h)); [destruct (p =? 0); [by apply may_ret|apply free_block]|]. intros h1 B1. by apply may_ret. }
  destruct (p =? 0); [apply malloc_block|]. cbv zeta. apply may_any. intros f. destruct (fsize f >? ROUNDUP sz).
  { eapply may_bind; [apply split_block|]. intros h1 B1. apply may_any. intros g. by apply may_ret. }
  destruct (fsize f <? ROUNDUP sz); [|by apply may_ret]. apply may_any. intros [|].
  - eapply may_bind; [apply join_block|]. intros h1 B1. apply may_any. intros g.
    eapply (may_bind _ _ (same_block h)); [destruct (_ >? _); [|by apply may_ret]|].
    + eapply may_impl; [apply split_block|]. intros h2. by apply same_block_trans.
    + intros h2 B2. apply may_any. intros g2. by apply may_ret.
  - eapply may_bind; [apply malloc_block|]. intros [q h1] B1. simpl in B1. destruct (q =? 0); [by apply may_ret|].
    eapply may_bind; [apply free_block|]. intros h2 B2. apply may_ret. by apply (same_block_trans _ h1).
Qed.

Lemma returns_and {A} (m : res A) (Q R : A -> Prop) : returns m Q -> may_return m R -> returns m (fun a => Q a /\ R a).
Proof. intros (a & -> & Ha) M. exists a. auto. Qed.

(** *** The operations on the blocks *)

Lemma malloc_step h lv fv d sz :
  heap_ok h lv fv d -> 0 <= sz -> sz + 7 < 2 ^ 64 ->
  returns (fm_malloc sz h) (fun '(p, h') => same_block h h' /\
    (p = 0 /\ h' = h /\ (forall a s, In (a, s) fv -> s < sz) \/
     exists a s0 s fv', p = a + FRAG_OVERHEAD /\ sz <= s <= s0 /\ cut_from (ROUNDUP sz) a s0 s fv fv' /\
       heap_ok h' ((a, s) :: lv) fv' d)).
Proof.
  intros O H0 H7. destruct (ho_inv _ _ _ _ O) as (fr & fl & I).
  eapply returns_impl; [apply (returns_and _ _ _ (malloc_ok h fr fl lv fv sz I H0 H7) (malloc_block sz h))|].
  intros [p h'] [X B]. simpl in B. split; [done|]. destruct X as [X|X]; [by left|right].
  destruct X as (a & s0 & s & fr' & fl' & fv' & -> & Hs & Cut & I' & U & R & _). exists a, s0, s, fv'.
  split; [done|]. split; [done|]. split; [done|]. apply (heap_ok_next h lv fv d h' fr' fl'); try done.
  - rewrite U, (ho_used _ _ _ _ O), u64_add. f_equal. simpl. lia.
  - rewrite R, (ho_real _ _ _ _ O), <- Z.add_assoc, u64_add, zlen_cons. f_equal. simpl. lia.
Qed.

Lemma free_step h a s lv fv d :
  heap_ok h ((a, s) :: lv) fv d ->
  returns (fm_free (a + FRAG_OVERHEAD) h) (fun h' => same_block h h' /\ heap_ok h' lv ((a, s) :: fv) d).
Proof.
  intros O. destruct (ho_inv _ _ _ _ O) as (fr & fl & I).
  eapply returns_impl; [apply (returns_and _ _ _ (free_ok h fr fl a s lv fv I) (free_block _ h))|].
  intros h' [(fl' & I' & U & R & _) B]. split; [done|]. apply (heap_ok_next h ((a, s) :: lv) fv d h' fr fl'); try done.
  - rewrite U, (ho_used _ _ _ _ O), <- Z.add_opp_r, u64_add. f_equal. simpl. lia.
  - rewrite R, (ho_real _ _ _ _ O), <- Z.add_opp_r, u64_add, !zlen_cons. f_equal. simpl. lia.
Qed.

(** The error that [fm_realloc] adds to [real_used]. *)
Definition drift (s sz : Z) : Z := if s >? sz then FRAG_OVERHEAD else 0.

Lemma realloc_step h a s lv fv d sz :
  heap_ok h ((a, s) :: lv) fv d -> 0 < sz -> sz + 7 < 2 ^ 64 ->
  returns (fm_realloc (a + FRAG_OVERHEAD) sz h) (fun '(p, h') => same_block h h' /\
    (p = 0 /\ h' = h /\ s < ROUNDUP sz /\ (forall b t, In (b, t) fv -> t < ROUNDUP sz) \/
     exists b t fv', p = b + FRAG_OVERHEAD /\ sz <= t /\ (b = a \/ In (a, s) fv') /\
       heap_ok h' ((b, t) :: lv) fv' (d + drift s (ROUNDUP sz)))).
Proof.
  intros O H0 H7. destruct (ho_inv _ _ _ _ O) as (fr & fl & I). destruct (ROUNDUP_bounds sz ltac:(lia) H7) as [Hr _].
  eapply returns_impl; [apply (returns_and _ _ _ (realloc_ok h fr fl a s lv fv sz I H0 H7) (realloc_block _ sz h))|].
  intros [p h'] [X B]. simpl in B. split; [done|]. destruct X as [X|[(-> & -> & E)|(Ne & X)]]; [by left| |].
  - right. exists a, s, fv. split; [done|]. split; [lia|]. split; [by left|]. unfold drift. rewrite E, Z.gtb_ltb, Z.ltb_irrefl, Z.add_0_r. congruence.
  - right. destruct X as (b & t & fr' & fl' & fv' & -> & Ht & Hb & I' & U & R & _). exists b, t, fv'. split; [done|]. split; [lia|].
    split; [done|]. apply (heap_ok_next h ((a, s) :: lv) fv d h' fr' fl'); try done.
    + rewrite U, (ho_used _ _ _ _ O), u64_add. f_equal. simpl. lia.
    + rewrite R, (ho_real _ _ _ _ O), <- !Z.add_assoc, u64_add, !zlen_cons. f_equal. unfold drift. simpl. lia.
Qed.

(** *** Initialisation *)

Lemma BASE_value : BASE = 33632.
Proof. done. Qed.

Lemma init_step address sz :
  0 < address -> 0 <= sz -> address + sz + 8 < 2 ^ 64 ->
  returns (fm_malloc_init address sz) (fun o =>
    match o with
    | None => sz < BASE + FRAG_OVERHEAD + 16
    | Some h => exists a s, heap_ok h [] [(a, s)] 0 /\ first_frag (qm h) = a /\
        address + BASE <= a /\ a + FRAG_OVERHEAD + s <= address + sz /\ last_frag (qm h) = a + s
    end).
Proof.
  intros Ha H0 H64. unfold fm_malloc_init. cbv zeta. destruct (ROUNDUP_bounds address) as [Hs H8]; [lia|lia|].
  set (start := ROUNDUP address) in *. fold BASE. rewrite BASE_value.
  destruct (Z.ltb_spec sz (start - address)); [apply returns_ret; unfold FRAG_OVERHEAD; lia|].
  set (sz1 := sz - (start - address)). destruct (Z.ltb_spec sz1 (MIN_FRAG_SIZE + FRAG_OVERHEAD)).
  { apply returns_ret. unfold MIN_FRAG_SIZE, ROUNDTO, FRAG_OVERHEAD in *. lia. }
  assert (E2 : ROUNDDOWN sz1 = 8 * (sz1 / 8)) by (apply mask_ok; lia). rewrite E2.
  pose proof (Z.div_mod sz1 8). pose proof (Z.mod_pos_bound sz1 8). set (sz2 := 8 * (sz1 / 8)) in *.
  destruct (Z.ltb_spec sz2 (33632 + FRAG_OVERHEAD)); [apply returns_ret; unfold FRAG_OVERHEAD in *; lia|].
  set (first := start + 33632). set (size := sz2 - (33632 + FRAG_OVERHEAD)).
  set (h0 := Heap {[first := Frag size 0]} (Block sz2 0 (33632 + FRAG_OVERHEAD) (33632 + FRAG_OVERHEAD) first (start + sz2 - FRAG_OVERHEAD) ∅) 0).
  assert (D8 : (8 | size)) by (unfold size, FRAG_OVERHEAD; apply Z.divide_sub_r; [apply Z.divide_factor_l|by exists 4206]).
  assert (Dk : (8 | first)) by (apply Z.divide_add_r; [done|by exists 4204]).
  unfold FRAG_OVERHEAD in *. assert (I : heap_inv h0 [(first, size)] (fun _ => []) [(first, size)] []).
  { constructor; simpl; try done.
    - constructor; [|done|done|constructor]. intros i R. exists 0. simpl. by rewrite lookup_empty.
    - unfold size, first, FRAG_OVERHEAD in *. repeat split; [lia|done|lia].
    - intros a z. split.
      + intros [[= <- <-]|[]]. by rewrite lookup_singleton_eq.
      + intros E. destruct (decide (a = first)) as [->|N]; [|by rewrite lookup_singleton_ne in E].
        rewrite lookup_singleton_eq in E. injection E as <-. by left.
    - intros a. split; [done|]. by intros [i []].
    - intros a f [<-|[]]. rewrite lookup_singleton_eq. by intros [= <-].
    - unfold first. lia.
    - unfold FRAG_OVERHEAD. lia. }
  eapply returns_bind; [apply (returns_and _ _ _ (insert_free_ok h0 _ _ _ _ first size I) (insert_free_block first h0))|].
  intros h ((S & fl & I') & B). destruct (same_qm _ _ S) as (Q1 & Q2 & Q3 & Q4 & Q5 & _). apply returns_ret. exists first, size.
  split; [|rewrite Q1, Q2; simpl; unfold first, size, FRAG_OVERHEAD in *; lia].
  constructor; [by exists [(first, size)], fl|by rewrite Q3|rewrite Q4|rewrite Q5|by rewrite Q1].
  - simpl. rewrite u64_small; [done|]. vm_compute. done.
  - simpl. unfold zlen. simpl. rewrite BASE_value. unfold size, FRAG_OVERHEAD. lia.
Qed.

(** *** A client

    [bl] are the blocks the client has, pointer and size asked for.  It gives back or
    resizes only what it has; a request that fails leaves it what it had. *)
Inductive fm_reach (lo hi : Z) : heap -> list (Z * Z) -> Prop :=
| R_init address sz h :
    0 < address -> 0 <= sz -> address + sz + 8 < 2 ^ 64 -> lo = address -> hi = address + sz ->
    fm_malloc_init address sz = Ret (Some h) -> fm_reach lo hi h []
| R_malloc h bl sz p h' :
    fm_reach lo hi h bl -> 0 <= sz -> sz + 7 < 2 ^ 64 -> fm_malloc sz h = Ret (p, h') ->
    fm_reach lo hi h' (if p =? 0 then bl else (p, sz) :: bl)
| R_free h bl p sz bl' h' :
    fm_reach lo hi h bl -> Permutation bl ((p, sz) :: bl') -> fm_free p h = Ret h' -> fm_reach lo hi h' bl'
| R_realloc h bl p old bl' sz q h' :
    fm_reach lo hi h bl -> Permutation bl ((p, old) :: bl') -> 0 < sz -> sz + 7 < 2 ^ 64 ->
    fm_realloc p sz h = Ret (q, h') -> fm_reach lo hi h' (if q =? 0 then bl else (q, sz) :: bl').

Definition holds_block (x y : Z * Z) : Prop := x.1 = y.1 + FRAG_OVERHEAD /\ x.2 <= y.2.

Definition covers (bl lv : list (Z * Z)) : Prop :=
  exists lv', Permutation lv lv' /\ List.Forall2 holds_block bl lv'.

Lemma covers_pick bl lv p sz bl' :
  covers bl lv -> Permutation bl ((p, sz) :: bl') ->
  exists a s lv', Permutation lv ((a, s) :: lv') /\ p = a + FRAG_OVERHEAD /\ covers bl' lv'.
Proof.
  intros (lv1 & P1 & F) P. destruct (Permutation_Forall2 P F) as (lv2 & P2 & F2).
  inversion F2 as [|x [a s] l l' Hx Hl]; subst. exists a, s, l'. split; [by rewrite P1, P2|]. split; [apply Hx|]. by exists l'.
Qed.

Lemma covers_cons bl lv p sz a s : covers bl lv -> p = a + FRAG_OVERHEAD -> sz <= s -> covers ((p, sz) :: bl) ((a, s) :: lv).
Proof. intros (lv' & P & F) -> Hs. exists ((a, s) :: lv'). split; [by rewrite P|]. by constructor. Qed.

Lemma covers_perm bl bl' lv lv' : covers bl lv -> Permutation bl bl' -> Permutation lv lv' -> covers bl' lv'.
Proof.
  intros (l & P & F) P1 P2. destruct (Permutation_Forall2 P1 F) as (l2 & P3 & F2). exists l2. split; [|done]. by rewrite <- P2, P, P3.
Qed.

(** What holds whenever the client runs. *)
Record client_ok (lo hi : Z) (h : heap) (bl : list (Z * Z)) : Prop := {
  co_heap : exists lv fv d, heap_ok h lv fv d /\ covers bl lv;
  co_lo : lo <= first_frag (qm h);
  co_hi : last_frag (qm h) + FRAG_OVERHEAD <= hi
}.

Lemma client_next lo hi h bl h' bl' :
  client_ok lo hi h bl -> same_block h h' -> (exists lv fv d, heap_ok h' lv fv d /\ covers bl' lv) -> client_ok lo hi h' bl'.
Proof. intros [_ L H] (_ & E1 & E2) X. constructor; [done|by rewrite E1|by rewrite E2]. Qed.

Lemma frag_ptr h a s lv fv d : heap_ok h ((a, s) :: lv) fv d -> (a + FRAG_OVERHEAD =? 0) = false.
Proof. intros [(fr & fl & I) _ _ _ _]. apply (inv_ptr a s I), (inv_fr I). left. by left. Qed.

(** Each operation of the client returns, to such a state again. *)
Lemma client_malloc lo hi h bl sz :
  client_ok lo hi h bl -> 0 <= sz -> sz + 7 < 2 ^ 64 ->
  returns (fm_malloc sz h) (fun '(p, h') => client_ok lo hi h' (if p =? 0 then bl else (p, sz) :: bl)).
Proof.
  intros C H0 H7. destruct (co_heap _ _ _ _ C) as (lv & fv & d & O & Cv).
  eapply returns_impl; [by apply (malloc_step h lv fv d sz)|]. intros [p h'] (B & X). apply (client_next lo hi h bl); [done|done|].
  destruct X as [(-> & -> & _)|(a & s0 & s & fv' & -> & Hs & _ & O')]; [by exists lv, fv, d|].
  rewrite (frag_ptr _ _ _ _ _ _ O'). exists ((a, s) :: lv), fv', d. split; [done|]. apply covers_cons; [done|done|lia].
Qed.

Lemma client_free lo hi h bl p sz bl' :
  client_ok lo hi h bl -> Permutation bl ((p, sz) :: bl') -> returns (fm_free p h) (fun h' => client_ok lo hi h' bl').
Proof.
  intros C P. destruct (co_heap _ _ _ _ C) as (lv & fv & d & O & Cv).
  destruct (covers_pick _ _ _ _ _ Cv P) as (a & s & lv' & Pl & -> & Cv'). pose proof (heap_ok_perm _ _ _ _ _ fv O Pl (Permutation_refl fv)) as O1.
  eapply returns_impl; [by apply (free_step h a s lv' fv d)|]. intros h' (B & O'). apply (client_next lo hi h bl); [done|done|].
  by exists lv', ((a, s) :: fv), d.
Qed.

Lemma client_realloc lo hi h bl p old bl' sz :
  client_ok lo hi h bl -> Permutation bl ((p, old) :: bl') -> 0 < sz -> sz + 7 < 2 ^ 64 ->
  returns (fm_realloc p sz h) (fun '(q, h') => client_ok lo hi h' (if q =? 0 then bl else (q, sz) :: bl')).
Proof.
  intros C P H0 H7. destruct (co_heap _ _ _ _ C) as (lv & fv & d & O & Cv).
  destruct (covers_pick _ _ _ _ _ Cv P) as (a & s & lv' & Pl & -> & Cv'). pose proof (heap_ok_perm _ _ _ _ _ fv O Pl (Permutation_refl fv)) as O1.
  eapply returns_impl; [by apply (realloc_step h a s lv' fv d sz)|]. intros [q h'] (B & X). apply (client_next lo hi h bl); [done|done|].
  destruct X as [(-> & -> & _)|(b & t & fv' & -> & Ht & _ & O')]; [by exists lv, fv, d|].
  rewrite (frag_ptr _ _ _ _ _ _ O'). exists ((b, t) :: lv'), fv', (d + drift s (ROUNDUP sz)). split; [done|]. by apply covers_cons.
Qed.

Lemma reach_ok lo hi h bl : fm_reach lo hi h bl -> client_ok lo hi h bl.
Proof.
  induction 1 as [address sz h H1 H2 H3 -> -> E|h bl sz p h' _ IH H0 H7 E|h bl p sz bl' h' _ IH P E|h bl p old bl' sz q h' _ IH P H0 H7 E].
  - destruct (init_step address sz H1 H2 H3) as (o & E' & X). rewrite E in E'. injection E' as <-.
    destruct X as (a & s & O & F & L1 & L2 & L3). constructor; [|rewrite F; rewrite BASE_value in *; lia|rewrite L3; unfold FRAG_OVERHEAD in *; lia].
    exists [], [(a, s)], 0. split; [done|]. exists []. by split.
  - destruct (client_malloc lo hi h bl sz IH H0 H7) as (x & E' & X). rewrite E in E'. by injection E' as <-.
  - destruct (client_free lo hi h bl p sz bl' IH P) as (x & E' & X). rewrite E in E'. by injection E' as <-.
  - destruct (client_realloc lo hi h bl p old bl' sz IH P H0 H7) as (x & E' & X). rewrite E in E'. by injection E' as <-.
Qed.

Lemma tiled_align s l e a sz : tiled s l e -> (8 | s) -> In (a, sz) l -> (8 | a).
Proof.
  revert s. induction l as [|[b z] l IH]; intros s; [done|]. simpl. intros (-> & _ & H2 & T) H8 [[= -> ->]|Hin]; [done|].
  apply (IH _ T); [|done]. apply Z.divide_add_r; [apply Z.divide_add_r; [done|by exists 2]|done].
Qed.

(** The blocks of a heap: aligned, inside the memory and apart. *)
Lemma blocks_ok h lv fv d bl :
  heap_ok h lv fv d -> covers bl lv ->
  (forall i p sz, bl !! i = Some (p, sz) ->
     (8 | p) /\ first_frag (qm h) + FRAG_OVERHEAD <= p /\ p + sz <= last_frag (qm h) + FRAG_OVERHEAD) /\
  (forall i j p sz q tz, bl !! i = Some (p, sz) -> bl !! j = Some (q, tz) -> i <> j ->
     p + sz <= q - FRAG_OVERHEAD \/ q + tz <= p - FRAG_OVERHEAD) /\
  (forall i p sz a f, bl !! i = Some (p, sz) -> mem h !! a = Some f -> a + FRAG_OVERHEAD <= p \/ p + sz <= a).
Proof.
  intros [(fr & fl & I) _ _ _ A] (lv' & P & F).
  assert (X : forall i p sz, bl !! i = Some (p, sz) -> exists a s, lv' !! i = Some (a, s) /\ In (a, s) fr /\ p = a + FRAG_OVERHEAD /\ sz <= s).
  { intros i p sz Hi. destruct (Forall2_lookup_l holds_block bl lv' i (p, sz) F Hi) as ([a s] & Ha & [E1 E2]). simpl in *.
    exists a, s. split; [done|]. split; [|done]. apply (inv_fr I). left. rewrite P. apply list_elem_of_In. by eapply list_elem_of_lookup_2. }
  split; [|split].
  - intros i p sz Hi. destruct (X i p sz Hi) as (a & s & _ & Hin & -> & Hs).
    destruct (tiled_in _ _ _ _ _ (hk_tiled _ _ _ _ _ I) Hin) as (B1 & B2 & B3 & B4).
    split; [apply Z.divide_add_r; [by eapply (tiled_align _ _ _ a s (hk_tiled _ _ _ _ _ I))|by exists 2]|]. lia.
  - intros i j p sz q tz Hi Hj Hij. destruct (X i p sz Hi) as (a & s & La & Ha & -> & Hs). destruct (X j q tz Hj) as (b & t & Lb & Hb & -> & Ht).
    destruct (tiled_apart _ _ _ _ _ _ _ (hk_tiled _ _ _ _ _ I) Ha Hb) as [E|[E|E]]; [|unfold FRAG_OVERHEAD in *; lia|unfold FRAG_OVERHEAD in *; lia].
    exfalso. apply Hij. pose proof (inv_nodup I) as N. rewrite P, map_app in N. apply NoDup_app in N as (N & _).
    apply NoDup_fmap_1 in N. injection E as -> ->. by apply (NoDup_lookup lv' i j (b, t)).
  - intros i p sz b f Hi Hb. destruct (X i p sz Hi) as (a & s & La & Ha & -> & Hs).
    assert (Ht : In (b, fsize f) fr) by (apply (hk_mem _ _ _ _ _ I); by rewrite Hb).
    destruct (tiled_apart _ _ _ _ _ _ _ (hk_tiled _ _ _ _ _ I) Ha Ht) as [E|[E|E]]; [injection E as -> ->; by left|right; lia|left].
    destruct (tiled_in _ _ _ _ _ (hk_tiled _ _ _ _ _ I) Ht) as (B1 & B2 & B3 & B4). unfold FRAG_OVERHEAD in *. lia.
Qed.

(** C12: whatever a client does with the allocator - allocate, resize, give back what it
    has - in any order, with sizes that do not wrap when they are rounded up, the blocks it
    holds are aligned, lie inside the memory that was given to [fm_malloc_init] with at least
    the size asked for, and do not overlap each other, nor the header of any fragment, in use
    or free.  (The header at [last_frag], which no fragment starts at and no code reads, is
    the exception: the last fragment reaches over it.) *)
Theorem blocks_disjoint lo hi h bl :
  fm_reach lo hi h bl ->
  (forall i p sz, bl !! i = Some (p, sz) -> (8 | p) /\ lo + FRAG_OVERHEAD <= p /\ p + sz <= hi) /\
  (forall i j p sz q tz, bl !! i = Some (p, sz) -> bl !! j = Some (q, tz) -> i <> j ->
     p + sz <= q - FRAG_OVERHEAD \/ q + tz <= p - FRAG_OVERHEAD) /\
  (forall i p sz a f, bl !! i = Some (p, sz) -> mem h !! a = Some f -> a + FRAG_OVERHEAD <= p \/ p + sz <= a).
Proof.
  intros R. apply reach_ok in R as [(lv & fv & d & O & C) L H]. destruct (blocks_ok h lv fv d bl O C) as (X & Y & Z). split; [|done].
  intros i p sz Hi. destruct (X i p sz Hi) as (A & B1 & B2). split; [done|]. lia.
Qed.

(** C13: in every state a client reaches, each request returns: the walks along the free
    lists end, and no access leaves the headers of the fragments. *)
Theorem requests_return lo hi h bl :
  fm_reach lo hi h bl ->
  (forall sz, 0 <= sz -> sz + 7 < 2 ^ 64 -> exists p h', fm_malloc sz h = Ret (p, h')) /\
  (forall p sz, In (p, sz) bl ->
     (exists h', fm_free p h = Ret h') /\
     (forall n, 0 <= n -> n + 7 < 2 ^ 64 -> exists q h', fm_realloc p n h = Ret (q, h'))).
Proof.
  intros R. apply reach_ok in R as C. split.
  - intros sz H0 H7. destruct (client_malloc lo hi h bl sz C H0 H7) as ([p h'] & E & _). eauto.
  - intros p sz Hin. destruct (in_perm _ _ Hin) as [bl' P].
    destruct (client_free lo hi h bl p sz bl' C P) as (h1 & E1 & _). split; [eauto|]. intros n H0 H7.
    destruct (decide (n = 0)) as [->|Nz].
    + unfold fm_realloc. rewrite E1. simpl. destruct (p =? 0); simpl; eauto.
    + destruct (client_realloc lo hi h bl p sz bl' n C P ltac:(lia) H7) as ([q h'] & E & _). eauto.
Qed.

(** C11: [fm_malloc] implements an abstract allocator over the blocks in use and the free
    blocks.  A request takes a free block that is large enough, whole or, when the rest is
    worth it, cut, and changes no other; it fails only when no free block is large enough.
    [fm_free] makes the block free.  [fm_realloc] gives a block of the new size in place of
    the old one, which stays what it was when the request fails. *)
Theorem allocator_refines h lv fv d :
  heap_ok h lv fv d ->
  (forall sz, 0 <= sz -> sz + 7 < 2 ^ 64 -> returns (fm_malloc sz h) (fun '(p, h') =>
     p = 0 /\ h' = h /\ (forall a s, In (a, s) fv -> s < sz) \/
     exists a s0 s fv', p = a + FRAG_OVERHEAD /\ sz <= s <= s0 /\ cut_from (ROUNDUP sz) a s0 s fv fv' /\
       heap_ok h' ((a, s) :: lv) fv' d)) /\
  (forall a s lv', Permutation lv ((a, s) :: lv') ->
     returns (fm_free (a + FRAG_OVERHEAD) h) (fun h' => heap_ok h' lv' ((a, s) :: fv) d) /\
     forall sz, 0 < sz -> sz + 7 < 2 ^ 64 -> returns (fm_realloc (a + FRAG_OVERHEAD) sz h) (fun '(p, h') =>
       p = 0 /\ h' = h /\ s < ROUNDUP sz /\ (forall b t, In (b, t) fv -> t < ROUNDUP sz) \/
       exists b t fv', p = b + FRAG_OVERHEAD /\ sz <= t /\ (b = a \/ In (a, s) fv') /\
         heap_ok h' ((b, t) :: lv') fv' (d + drift s (ROUNDUP sz)))).
Proof.
  intros O. split.
  - intros sz H0 H7. eapply returns_impl; [by apply (malloc_step h lv fv d sz)|]. by intros [p h'] [_ X].
  - intros a s lv' P. pose proof (heap_ok_perm _ _ _ _ _ fv O P (Permutation_refl fv)) as O1. split.
    + eapply returns_impl; [by apply (free_step h a s lv' fv d)|]. by intros h' [_ X].
    + intros sz H0 H7. eapply returns_impl; [by apply (realloc_step h a s lv' fv d sz)|]. by intros [p h'] [_ X].
Qed.

(** The bucket computed for a size by shifting is that of its binary logarithm; it is
    inside the array, and larger sizes are in the same or in later buckets. *)
Theorem bucket_of_size s t :
  0 <= s <= t -> t < 2 ^ 64 ->
  GET_HASH s = (if s <=? 16384 then s / 8 else 2035 + Z.log2 s) /\
  0 <= GET_HASH s <= GET_HASH t /\ GET_HASH t < F_HASH_SIZE.
Proof.
  intros H1 H2. split; [apply GET_HASH_eq; lia|]. pose proof (GET_HASH_range s ltac:(lia)) as [R1 _].
  pose proof (GET_HASH_range t ltac:(lia)) as [_ R2]. pose proof (GET_HASH_mono s t H1 H2). lia.
Qed.

(** The memory reported as free is that of the free blocks, less an error that grows
    by the size of a header with every [fm_realloc] to a smaller size, whether the block is
    cut or not: the overhead is counted once more than [fm_split_frag] counted it. *)
Theorem shrink_drift h lv fv d a s lv' sz :
  heap_ok h lv fv d -> fm_get_free h = u64 (total fv - d) /\
  (Permutation lv ((a, s) :: lv') -> 0 < sz -> ROUNDUP sz < s -> sz + 7 < 2 ^ 64 ->
   returns (fm_realloc (a + FRAG_OVERHEAD) sz h) (fun '(_, h') =>
     exists lv'' fv', heap_ok h' lv'' fv' (d + 16) /\ fm_get_free h' = u64 (total fv' - d - 16))).
Proof.
  assert (G : forall h lv fv d, heap_ok h lv fv d -> fm_get_free h = u64 (total fv - d)).
  { clear. intros h lv fv d [_ _ R Q _]. unfold fm_get_free. rewrite R, Q. unfold u64. rewrite Zminus_mod_idemp_r. f_equal. lia. }
  intros O. split; [by apply (G h lv)|]. intros P H0 Hs H7.
  pose proof (heap_ok_perm _ _ _ _ _ fv O P (Permutation_refl fv)) as O1.
  eapply returns_impl; [by apply (realloc_step h a s lv' fv d sz)|].
  intros [p h'] (_ & [(_ & _ & X & _)|(b & t & fv' & _ & _ & _ & O')]); [lia|].
  unfold drift in O'. rewrite Z.gtb_ltb, (proj2 (Z.ltb_lt _ _) Hs) in O'. exists ((b, t) :: lv'), fv'. split; [done|].
  rewrite (G _ _ _ _ O'). f_equal. unfold FRAG_OVERHEAD. lia.
Qed.

(** A request for the seven largest sizes wraps to zero when it is rounded up, and is
    answered with a block, when there is a free one. *)
Theorem huge_request_wraps h lv fv d sz :
  heap_ok h lv fv d -> fv <> [] -> 2 ^ 64 - 7 <= sz < 2 ^ 64 ->
  returns (fm_malloc sz h) (fun '(p, h') => p <> 0 /\ exists a s, p = a + FRAG_OVERHEAD /\ s < sz /\ exists fv', heap_ok h' ((a, s) :: lv) fv' d).
Proof.
  intros O Hf Hs. assert (E : ROUNDUP sz = ROUNDUP 0).
  { unfold ROUNDUP, ROUNDTO, u64. replace (sz + (8 - 1)) with ((sz + 7 - 2 ^ 64) + 1 * 2 ^ 64) by lia.
    rewrite Z.mod_add, Z.mod_small by lia. change (Z.land ((0 + (8 - 1)) mod 2 ^ 64) ROUNDTO_MASK) with 0.
    rewrite mask_ok by lia. rewrite Z.div_small; lia. }
  assert (E' : fm_malloc sz h = fm_malloc 0 h) by (unfold fm_malloc; by rewrite E). rewrite E'.
  eapply returns_impl; [apply (malloc_step h lv fv d 0 O); lia|].
  intros [p h'] (_ & [(_ & _ & X)|(a & s0 & s & fv' & -> & _ & _ & O')]).
  - exfalso. destruct fv as [|[a s] fv]; [done|]. pose proof (X a s ltac:(by left)). destruct O as [(fr & fl & I) _ _ _ _].
    destruct (inv_bounds I a s) as (_ & B & _); [apply (inv_fr I); right; by left|]. lia.
  - split; [apply Z.eqb_neq; by apply (frag_ptr _ _ _ _ _ _ O')|]. exists a, s. split; [done|]. split; [|by exists fv'].
    destruct O' as [(fr & fl & I) _ _ _ _]. destruct (inv_bounds I a s) as (B1 & B2 & [k B3] & B4); [apply (inv_fr I); left; by left|].
    unfold FRAG_OVERHEAD in B4. lia.
Qed.

(** ** An example *)

Definition demo_heap : heap :=
  match fm_malloc_init 4096 200000 with Ret (Some h) => h | _ => Heap ∅ (Block 0 0 0 0 0 0 ∅) 0 end.

Lemma demo_init : fm_malloc_init 4096 200000 = Ret (Some demo_heap).
Proof. by vm_compute. Qed.

Lemma demo_heap_ok : heap_ok demo_heap [] [(37728, 166352)] 0.
Proof.
  destruct (init_step 4096 200000 ltac:(lia) ltac:(lia) ltac:(lia)) as (o & E & X). rewrite demo_init in E. injection E as <-.
  destruct X as (a & s & O & Ea & _ & _ & El).
  assert (E1 : first_frag (qm demo_heap) = 37728) by (by vm_compute).
  assert (E2 : last_frag (qm demo_heap) = 37728 + 166352) by (by vm_compute).
  replace 37728 with a by congruence. replace 166352 with s by lia. done.
Qed.

Lemma demo_reach : exists p h, fm_malloc 100 demo_heap = Ret (p, h) /\ p = 37744 /\ fm_reach 4096 204096 h [(p, 100)].
Proof.
  destruct (fm_malloc 100 demo_heap) as [[p h]|] eqn:E; [|by vm_compute in E]. exists p, h. split; [done|].
  assert (Ep : p = 37744).
  { assert (X : match fm_malloc 100 demo_heap with Ret (p, _) => p | _ => 0 end = 37744) by (by vm_compute). by rewrite E in X. }
  split; [done|]. subst p. apply (R_malloc 4096 204096 demo_heap [] 100 37744 h); [|lia|lia|done].
  by apply (R_init _ _ 4096 200000); [lia|lia|lia|done|done|apply demo_init].
Qed.

Lemma demo_reach_two : exists h, fm_reach 4096 204096 h [(37864, 50); (37744, 100)].
Proof.
  destruct demo_reach as (p & h & E & -> & R).
  destruct (fm_malloc 50 h) as [[q h2]|] eqn:E2.
  - assert (Eq : q = 37864).
    { assert (X : match fm_malloc 100 demo_heap with Ret (_, h) => match fm_malloc 50 h with Ret (q, _) => q | _ => 0 end | _ => 0 end = 37864) by (by vm_compute).
      by rewrite E, E2 in X. }
    subst q. exists h2. apply (R_malloc 4096 204096 h [(37744, 100)] 50 37864 h2); [done|lia|lia|done].
  - exfalso. assert (X : match fm_malloc 100 demo_heap with Ret (_, h) => match fm_malloc 50 h with Ret _ => true | _ => false end | _ => true end = true) by (by vm_compute).
    by rewrite E, E2 in X.
Qed.

Lemma blocks_disjoint_witness : exists h bl, fm_reach 4096 204096 h bl /\ bl = [(37864, 50); (37744, 100)] /\ (8 | 37864) /\
  (37864 + 50 <= 37744 - FRAG_OVERHEAD \/ 37744 + 100 <= 37864 - FRAG_OVERHEAD) /\
  forall a f, mem h !! a = Some f -> a + FRAG_OVERHEAD <= 37744 \/ 37744 + 100 <= a.
Proof.
  destruct demo_reach_two as [h R]. exists h, [(37864, 50); (37744, 100)]. split; [done|]. split; [done|].
  destruct (blocks_disjoint 4096 204096 h [(37864, 50); (37744, 100)] R) as (X & Y & Z).
  split; [by apply (X 0%nat 37864 50)|]. split; [by apply (Y 0%nat 1%nat)|]. intros a f Hf. by apply (Z 1%nat 37744 100 a f).
Defined.

Lemma requests_return_witness : exists h, fm_reach 4096 204096 h [(37744, 100)] /\ exists q h', fm_realloc 37744 50 h = Ret (q, h').
Proof.
  destruct demo_reach as (p & h & _ & -> & R). exists h. split; [done|].
  destruct (requests_return 4096 204096 h [(37744, 100)] R) as [_ X]. destruct (X 37744 100 (or_introl eq_refl)) as [_ Y]. apply Y; lia.
Defined.

Lemma allocator_refines_witness : returns (fm_malloc 100 demo_heap) (fun '(p, h') => exists lv fv, heap_ok h' lv fv 0).
Proof.
  destruct (allocator_refines demo_heap [] [(37728, 166352)] 0 demo_heap_ok) as [X _].
  eapply returns_impl; [apply (X 100); lia|]. intros [p h'] [(_ & -> & _)|(a & s0 & s & fv' & _ & _ & _ & O)].
  - exists [], [(37728, 166352)]. apply demo_heap_ok.
  - by exists [(a, s)], fv'.
Defined.

Lemma bucket_of_size_witness : GET_HASH 100000 = 2035 + 16.
Proof. destruct (bucket_of_size 100000 200000) as [E _]; [lia|lia|]. by rewrite E. Defined.

Lemma shrink_drift_witness : exists h a s,
  100 <= s /\ returns (fm_realloc (a + FRAG_OVERHEAD) 8 h) (fun '(_, h') => exists lv fv, heap_ok h' lv fv 16).
Proof.
  destruct (malloc_step demo_heap [] [(37728, 166352)] 0 100 demo_heap_ok ltac:(lia) ltac:(lia)) as ([p h] & _ & _ & X).
  destruct X as [(_ & _ & X)|(a & s0 & s & fv' & _ & Hs & _ & O)]; [pose proof (X 37728 166352 (or_introl eq_refl)); lia|].
  exists h, a, s. split; [lia|]. destruct (shrink_drift h [(a, s)] fv' 0 a s [] 8 O) as [_ Y].
  assert (E8 : ROUNDUP 8 = 8) by done.
  eapply returns_impl; [apply Y; [done|lia|rewrite E8; lia|lia]|]. intros [q h'] (lv'' & fv'' & O' & _). by exists lv'', fv''.
Defined.

Lemma huge_request_wraps_witness : returns (fm_malloc (2 ^ 64 - 1) demo_heap) (fun '(p, h') => p <> 0).
Proof.
  eapply returns_impl; [apply (huge_request_wraps demo_heap [] [(37728, 166352)] 0 (2 ^ 64 - 1)); [apply demo_heap_ok|done|lia]|].
  by intros [p h'] [X _].
Defined.

End FMalloc.
