(* ===== verification/TmReply.v ===== *)
(** * Transactions: replies ([src/modules/tm/t_reply.c])

    A transaction forwards a request along branches ([uac]) and decides which of their
    replies goes upstream ([uas]): every provisional one but 100, a 2xx at once, and of
    the negative ones the best when all branches are finished.  With it come the branches
    that forwarding adds ([t_fwd.c]), their cancellation ([t_cancel.c]) and the handlers
    of the retransmission and final response timers ([timer.c]).

    A message is its status code; whether memory can be allocated, messages built and
    requests sent is an argument, and so are the failure route and its callbacks.  The
    locks are not modelled: all this runs with the lock of the transaction held. *)

From Stdlib Require Import ZArith Lia List Bool.
From stdpp Require Import base tactics option list relations.
From S2P Require Import Prelude.

Module TmReply.

Definition MAX_BRANCHES : nat := 12.

(** A reply: received, with its code and whether it has a Retry-After header, or made up. *)
Inductive rmsg : Set := Real (code : Z) (retry_after : bool) | FAKED_REPLY.

Inductive cancel_buf : Set := CNone | BUSY_BUFFER | CBuilt.

#[export] Instance cancel_buf_eq_dec : EqDecision cancel_buf.
Proof. solve_decision. Defined.

(** A branch: whether it has a request, its stored reply, the timers it is on. *)
Record ua_client : Set := Uac {
  buffer : bool;
  proxy : bool;
  local_cancel : cancel_buf;
  reply : option rmsg;
  last_received : Z;
  u_flags : Z;
  retr_timer : bool;
  fr_timer : bool;
  c_retr : bool;
  c_fr : bool
}.

(** What leaves the transaction: replies upstream with the branch they come from (-2 is
    the proxy itself), requests to a branch, and reports to a local user. *)
Inductive event : Set :=
| Reply_out (code branch : Z)
| Ack_out (b : nat)
| Cancel_out (b : nat)
| Local_out (code : Z).

Record cell : Set := Cell {
  t_flags : Z;
  first_branch : nat;
  uac : list ua_client;
  relaied_reply_branch : Z;
  status : Z;
  request : bool;        (* [uas.request], none in a local transaction *)
  req_invite : bool;     (* its method *)
  req_cancel : bool;
  response : bool;       (* [uas.response] has a buffer *)
  r_retr : bool;
  r_fr : bool;
  wait : bool;           (* on the wait timer *)
  on_negative : Z;
  out : list event
}.

Definition T_IS_INVITE_FLAG : Z := 1.
Definition T_IS_LOCAL_FLAG : Z := 2.
Definition T_WAS_CANCELLED_FLAG : Z := 8.
Definition T_HOPBYHOP_CANCEL_FLAG : Z := 16.
Definition T_NO_AUTOACK_FLAG : Z := 32.
Definition T_NO_DNS_FAILOVER_FLAG : Z := 128.
Definition T_NO_NEW_BRANCHES_FLAG : Z := 256.
Definition T_UAC_TO_CANCEL_FLAG : Z := 1.
Definition T_UAC_HAS_RECV_REPLY : Z := 2.

Definition flag (f fl : Z) : bool := negb (Z.land f fl =? 0).
Definition is_invite (t : cell) : bool := flag (t_flags t) T_IS_INVITE_FLAG.
Definition is_local (t : cell) : bool := flag (t_flags t) T_IS_LOCAL_FLAG.
Definition was_cancelled (t : cell) : bool := flag (t_flags t) T_WAS_CANCELLED_FLAG.
Definition is_hopbyhop_cancel (t : cell) : bool := flag (t_flags t) T_HOPBYHOP_CANCEL_FLAG.
Definition no_new_branches (t : cell) : bool := flag (t_flags t) T_NO_NEW_BRANCHES_FLAG.
Definition nr_of_outgoings (t : cell) : nat := length (uac t).

(** Assignments. *)
Definition set_t_flags (x : Z) (t : cell) : cell :=
  Cell x (first_branch t) (uac t) (relaied_reply_branch t) (status t) (request t) (req_invite t) (req_cancel t)
    (response t) (r_retr t) (r_fr t) (wait t) (on_negative t) (out t).
Definition set_first (x : nat) (t : cell) : cell :=
  Cell (t_flags t) x (uac t) (relaied_reply_branch t) (status t) (request t) (req_invite t) (req_cancel t)
    (response t) (r_retr t) (r_fr t) (wait t) (on_negative t) (out t).
Definition set_uac (x : list ua_client) (t : cell) : cell :=
  Cell (t_flags t) (first_branch t) x (relaied_reply_branch t) (status t) (request t) (req_invite t) (req_cancel t)
    (response t) (r_retr t) (r_fr t) (wait t) (on_negative t) (out t).
Definition set_relaied (x : Z) (t : cell) : cell :=
  Cell (t_flags t) (first_branch t) (uac t) x (status t) (request t) (req_invite t) (req_cancel t)
    (response t) (r_retr t) (r_fr t) (wait t) (on_negative t) (out t).
Definition set_status (x : Z) (t : cell) : cell :=
  Cell (t_flags t) (first_branch t) (uac t) (relaied_reply_branch t) x (request t) (req_invite t) (req_cancel t)
    (response t) (r_retr t) (r_fr t) (wait t) (on_negative t) (out t).
Definition set_response (x : bool) (t : cell) : cell :=
  Cell (t_flags t) (first_branch t) (uac t) (relaied_reply_branch t) (status t) (request t) (req_invite t) (req_cancel t)
    x (r_retr t) (r_fr t) (wait t) (on_negative t) (out t).
Definition set_r_timers (retr fr : bool) (t : cell) : cell :=
  Cell (t_flags t) (first_branch t) (uac t) (relaied_reply_branch t) (status t) (request t) (req_invite t) (req_cancel t)
    (response t) retr fr (wait t) (on_negative t) (out t).
Definition put_on_wait (t : cell) : cell :=
  Cell (t_flags t) (first_branch t) (uac t) (relaied_reply_branch t) (status t) (request t) (req_invite t) (req_cancel t)
    (response t) (r_retr t) (r_fr t) true (on_negative t) (out t).
Definition set_on_negative (x : Z) (t : cell) : cell :=
  Cell (t_flags t) (first_branch t) (uac t) (relaied_reply_branch t) (status t) (request t) (req_invite t) (req_cancel t)
    (response t) (r_retr t) (r_fr t) (wait t) x (out t).
Definition emit (x : event) (t : cell) : cell :=
  Cell (t_flags t) (first_branch t) (uac t) (relaied_reply_branch t) (status t) (request t) (req_invite t) (req_cancel t)
    (response t) (r_retr t) (r_fr t) (wait t) (on_negative t) (out t ++ [x]).

Definition upd (f : ua_client -> ua_client) (b : nat) (t : cell) : cell := set_uac (alter f b (uac t)) t.

Definition set_reply (r : option rmsg) (u : ua_client) : ua_client :=
  Uac (buffer u) (proxy u) (local_cancel u) r (last_received u) (u_flags u) (retr_timer u) (fr_timer u) (c_retr u) (c_fr u).
Definition set_last (x : Z) (u : ua_client) : ua_client :=
  Uac (buffer u) (proxy u) (local_cancel u) (reply u) x (u_flags u) (retr_timer u) (fr_timer u) (c_retr u) (c_fr u).
Definition set_cancel (x : cancel_buf) (u : ua_client) : ua_client :=
  Uac (buffer u) (proxy u) x (reply u) (last_received u) (u_flags u) (retr_timer u) (fr_timer u) (c_retr u) (c_fr u).
Definition set_u_flags (x : Z) (u : ua_client) : ua_client :=
  Uac (buffer u) (proxy u) (local_cancel u) (reply u) (last_received u) x (retr_timer u) (fr_timer u) (c_retr u) (c_fr u).
Definition set_timers (retr fr : bool) (u : ua_client) : ua_client :=
  Uac (buffer u) (proxy u) (local_cancel u) (reply u) (last_received u) (u_flags u) retr fr (c_retr u) (c_fr u).
Definition set_c_timers (retr fr : bool) (u : ua_client) : ua_client :=
  Uac (buffer u) (proxy u) (local_cancel u) (reply u) (last_received u) (u_flags u) (retr_timer u) (fr_timer u) retr fr.

(** ** Cancellation *)

(** Marks a branch that is to be cancelled; a branch that has no reply yet is cancelled
    when its first one comes. *)
Definition should_cancel_branch (u : ua_client) : bool * ua_client :=
  if decide (local_cancel u = CNone) then
    if (100 <=? last_received u) && (last_received u <? 200) then (true, set_cancel BUSY_BUFFER u)
    else if last_received u =? 0 then (false, set_u_flags (Z.lor (u_flags u) T_UAC_TO_CANCEL_FLAG) u)
    else (false, u)
  else (false, u).

(** The branches from number [i] on, and the bitmap. *)
Fixpoint which_cancel_loop (first i : nat) (l : list ua_client) (bm : Z) : list ua_client * Z :=
  match l with
  | [] => ([], bm)
  | u :: l' =>
      if (i <? first)%nat then
        let '(l', bm) := which_cancel_loop first (S i) l' bm in (u :: l', bm)
      else
        let '(b, u) := should_cancel_branch u in
        let '(l', bm) := which_cancel_loop first (S i) l' (if (b : bool) then Z.lor bm (Z.shiftl 1 (Z.of_nat i)) else bm) in
        (u :: l', bm)
  end.

Definition which_cancel (bm : Z) (t : cell) : Z * cell :=
  let '(l, bm) := which_cancel_loop (first_branch t) 0 (uac t) bm in (bm, set_uac l t).

(** ** The environment *)

(** What can fail, and the handlers: [failure_cb] are the callbacks registered for
    failures, [failure_ro] tells whether there are some that only read, [failure_route] is
    the route of a number, [next_dns] the branches a DNS failover adds, if there is another
    destination: [None] is a branch that cannot be made, otherwise whether its request is
    sent.  [noisy_ctimer] forbids to drop the transaction silently, by configuration or
    because an AVP has set one of its timers.  [garbage] is what an uninitialised bitmap
    holds. *)
Record env : Type := Env {
  clone_ok : bool;
  build_ok : bool;
  shm_ok : bool;
  err_build_ok : bool;
  err_shm_ok : bool;
  cancel_ok : bool;
  fake_ok : bool;
  udp : bool;     (* of the branches *)
  up_udp : bool;  (* of the upstream side *)
  noisy_ctimer : bool;
  garbage : Z;
  failure_ro : bool;
  failure_cb : option (cell -> cell);
  failure_route : Z -> cell -> cell;
  next_dns : option (list (option bool))
}.

Section Env.
Context (e : env).

(** A CANCEL that cannot be built is not sent. *)
Definition cancel_branch (b : nat) (t : cell) : cell :=
  if cancel_ok e then emit (Cancel_out b) (upd (fun u => set_c_timers (udp e) true (set_cancel CBuilt u)) b t)
  else t.

Fixpoint cancel_loop (n i : nat) (bm : Z) (t : cell) : cell :=
  match n with
  | O => t
  | S n' => cancel_loop n' (S i) bm (if Z.testbit bm (Z.of_nat i) then cancel_branch i t else t)
  end.

Definition cancel_uacs (bm : Z) (t : cell) : cell := cancel_loop (nr_of_outgoings t) 0 bm t.

(** ** Forwarding *)

Definition new_uac (failover sent : bool) : ua_client :=
  Uac true failover CNone None 0 0 (sent && udp e) sent false false.

Fixpoint add_uacs (l : list (option bool)) (t : cell) : cell :=
  match l with
  | [] => t
  | Some sent :: l' =>
      add_uacs l' (if (nr_of_outgoings t <? MAX_BRANCHES)%nat
                   then set_uac (uac t ++ [new_uac (negb (flag (t_flags t) T_NO_DNS_FAILOVER_FLAG)) sent]) t else t)
  | None :: l' => add_uacs l' t
  end.

(** The return value is 1, or negative. *)
Definition t_forward_nonack (l : list (option bool)) (t : cell) : Z * cell :=
  if was_cancelled t || no_new_branches t then (-1, t)
  else
    let first := nr_of_outgoings t in
    let t := add_uacs l (set_first first t) in
    (if existsb fr_timer (drop first (uac t)) then 1 else -1, t).

(** ** Timers *)

Definition cleanup_uac_timers (t : cell) : cell :=
  set_uac (imap (fun i u => if (i <? first_branch t)%nat then u else set_timers false false u) (uac t)) t.

Definition set_final_timer (t : cell) : cell :=
  if negb (is_local t) && req_invite t then
    if 300 <=? status t then set_r_timers (up_udp e || r_retr t) true t
    else if (relaied_reply_branch t =? -2) && (200 <=? status t) then set_r_timers true true t
    else put_on_wait t
  else put_on_wait t.

(** ** Local replies *)

(** [_reply_light]: the clean-up of its error paths. *)
Definition reply_error (bm : Z) (t : cell) : Z * cell :=
  let t := cleanup_uac_timers t in
  (-1, put_on_wait (if is_invite t then cancel_uacs bm t else t)).

(** A reply of the proxy itself: [_reply] and [_reply_light]. *)
Definition t_reply_unsafe (code : Z) (t : cell) : Z * cell :=
  let '(bm, t) := if is_invite t then which_cancel (if err_build_ok e then 0 else garbage e) t else (0, t) in
  if negb (err_build_ok e) then reply_error bm t
  else if 200 <=? status t then reply_error bm t
  else
    let t := set_status code t in
    if negb (err_shm_ok e) then reply_error bm (set_response false t)
    else
      let t := set_relaied (-2) (set_response true t) in
      let t := if 200 <=? code then
                 let t := if is_local t then emit (Local_out code) t else t in
                 if is_hopbyhop_cancel t then t
                 else
                   let t := cleanup_uac_timers t in
                   set_final_timer (if is_invite t then cancel_uacs bm t else t)
               else t in
      (1, emit (Reply_out code (-2)) t).

(** ** Failures *)

Definition run_failure_handlers (t : cell) : cell :=
  if negb (request t) || req_cancel t then t
  else if negb (match failure_cb e with Some _ => true | None => false end) && (on_negative t =? 0) then t
  else if negb (fake_ok e) then t
  else
    let t := match failure_cb e with Some f => f t | None => t end in
    if negb (on_negative t =? 0) then failure_route e (on_negative t) (set_on_negative 0 t) else t.

Definition is_3263_failure (u : ua_client) : bool :=
  if last_received u =? 408 then negb (flag (u_flags u) T_UAC_HAS_RECV_REPLY)
  else if last_received u =? 503 then
    match reply u with Some (Real _ ra) => ra | _ => false end
  else false.

(** The return value is 0 or -1. *)
Definition do_dns_failover (t : cell) : Z * cell :=
  match next_dns e with
  | None => (-1, t)
  | Some l =>
      if negb (fake_ok e) then (-1, t)
      else let '(rc, t) := t_forward_nonack l t in (if rc =? 1 then 0 else -1, t)
  end.

(** ** Choosing a branch *)

(** From branch [i] on: the branch, -1 when there is none, -2 when one is not finished, and
    its code. *)
Fixpoint pick_loop (cancelled : bool) (first i : nat) (l : list ua_client) (lowest_b lowest_s : Z) : Z * Z :=
  match l with
  | [] => (lowest_b, lowest_s)
  | u :: l' =>
      if (i <? first)%nat || negb (buffer u) then pick_loop cancelled first (S i) l' lowest_b lowest_s
      else if last_received u <? 200 then (-2, lowest_s)
      else if (lowest_b =? -1) || (cancelled && (last_received u =? 487))
              || ((negb (lowest_s =? 487) || negb cancelled)
                  && ((lowest_s =? 503) || (negb (last_received u =? 503) && (last_received u <? lowest_s))))
      then pick_loop cancelled first (S i) l' (Z.of_nat i) (last_received u)
      else pick_loop cancelled first (S i) l' lowest_b lowest_s
  end.

Definition t_pick_branch (t : cell) : Z * Z := pick_loop (was_cancelled t) (first_branch t) 0 (uac t) (-1) 999.

(** ** What to do with a reply *)

Inductive rps : Set :=
| RPS_ERROR | RPS_PUSHED_AFTER_COMPLETION | RPS_DISCARDED | RPS_STORE | RPS_COMPLETED | RPS_PROVISIONAL.

#[export] Instance rps_eq_dec : EqDecision rps.
Proof. solve_decision. Defined.

(** What is decided: [should_store], [should_relay], the bitmap of the branches to cancel. *)
Record decision : Set := Dec { d_rps : rps; d_store : bool; d_relay : Z; d_bm : Z }.

(** The negative reply of branch [b] has been taken and branch [picked] chosen: failover,
    failure handlers, and what they lead to. *)
Definition after_pick (b : nat) (picked : Z) (bm : Z) (t : cell) : decision * cell :=
  let branch_cnt := nr_of_outgoings t in
  let '(branch_cnt, t) :=
    match uac t !! Z.to_nat picked with
    | Some u =>
        if negb (flag (t_flags t) T_NO_DNS_FAILOVER_FLAG) && proxy u && is_3263_failure u then
          let '(rc, t) := do_dns_failover t in
          (if rc =? 0 then branch_cnt else nr_of_outgoings t, t)
        else (branch_cnt, t)
    | None => (branch_cnt, t)
    end in
  let t := if (branch_cnt =? nr_of_outgoings t)%nat
              && (match failure_cb e with Some _ => true | None => false end || negb (on_negative t =? 0))
           then run_failure_handlers t else t in
  let t := upd (set_reply None) b t in
  if 200 <=? status t then (Dec RPS_COMPLETED false (-1) bm, t)
  else if (branch_cnt <? nr_of_outgoings t)%nat then (Dec RPS_STORE true (-1) bm, t)
  else (Dec RPS_COMPLETED false picked bm, t).

Definition t_should_relay_response (new_code : Z) (b : nat) (bm : Z) (msg : rmsg) (t : cell) : decision * cell :=
  let inv_through := (200 <=? new_code) && (new_code <? 300) && is_invite t in
  let last := match uac t !! b with Some u => last_received u | None => 0 end in
  if 200 <=? status t then
    if inv_through then (Dec RPS_PUSHED_AFTER_COMPLETION false (Z.of_nat b) bm, upd (set_last new_code) b t)
    else if is_hopbyhop_cancel t && (200 <=? new_code) then (Dec RPS_COMPLETED false (-1) bm, t)
    else (Dec RPS_DISCARDED false (-1) bm, t)
  else if (200 <=? last) && negb (inv_through && (last <? 300)) then (Dec RPS_DISCARDED false (-1) bm, t)
  else if 300 <=? new_code then
    let t := upd (fun u => set_reply (Some msg) (set_last new_code u)) b t in
    if 600 <=? new_code then
      let '(bm, t) := which_cancel bm t in
      after_pick b (Z.of_nat b) bm (set_t_flags (Z.lor (t_flags t) T_NO_NEW_BRANCHES_FLAG) t)
    else
      let '(picked, _) := t_pick_branch t in
      if picked =? -2 then (Dec RPS_STORE true (-1) bm, upd (set_reply None) b t)
      else if picked =? -1 then (Dec RPS_DISCARDED false (-1) bm, upd (set_reply None) b t)
      else after_pick b picked bm t
  else if 100 <=? new_code then
    let t := upd (set_last new_code) b t in
    let relay := if new_code =? 100 then -1 else Z.of_nat b in
    if 200 <=? new_code then
      let '(bm, t) := which_cancel bm t in (Dec RPS_COMPLETED false relay bm, t)
    else (Dec RPS_PROVISIONAL false relay bm, t)
  else (Dec RPS_DISCARDED false (-1) bm, t).

(** ** Acting on it *)

Definition store_reply (b : nat) (msg : rmsg) (t : cell) : bool * cell :=
  match msg with
  | FAKED_REPLY => (true, upd (set_reply (Some msg)) b t)
  | Real _ _ => if clone_ok e then (true, upd (set_reply (Some msg)) b t) else (false, t)
  end.

(** The message that goes upstream and its code. *)
Definition chosen (b : nat) (relay msg_status : Z) (msg : rmsg) (t : cell) : res Z :=
  if Z.of_nat b =? relay then
    Ret (match msg with FAKED_REPLY => msg_status | Real c _ => c end)
  else
    match uac t !! Z.to_nat relay with
    | None => Fault OutOfBounds
    | Some u =>
        match reply u with
        | None => Fault NullDeref
        | Some FAKED_REPLY => Ret (last_received u)
        | Some (Real c _) => Ret c
        end
    end.

(** The error path of [relay_reply]. *)
Definition relay_error (bm : Z) (t : cell) : rps * Z * cell :=
  let '(_, t) := t_reply_unsafe 500 t in
  (RPS_ERROR, bm, if is_invite t then cancel_uacs bm t else t).

(** Result, bitmap and transaction. *)
Definition relay_reply (msg : rmsg) (b : nat) (msg_status bm : Z) (t : cell) : res (rps * Z * cell) :=
  let '(d, t) := t_should_relay_response msg_status b bm msg t in
  let '(ok, t) := if d_store d then store_reply b msg t else (true, t) in
  if negb ok then Ret (relay_error (d_bm d) t)
  else
    let relay := d_relay d in
    if 0 <=? relay then
      code ← chosen b relay msg_status msg t;
      if negb (build_ok e && shm_ok e) then
        let t := if build_ok e then set_response false t else t in
        Ret (relay_error (d_bm d) (if d_store d then upd (set_reply None) b t else t))
      else
        let t := set_relaied relay (set_status code (set_response true t)) in
        let t := if decide (d_rps d = RPS_COMPLETED) then set_final_timer t else t in
        Ret (d_rps d, d_bm d, emit (Reply_out code relay) t)
    else
      Ret (d_rps d, d_bm d, if decide (d_rps d = RPS_COMPLETED) then set_final_timer t else t).

(** A transaction of a local user. *)
Definition local_reply (msg : rmsg) (b : nat) (msg_status : Z) (t : cell) : res (rps * Z * cell) :=
  let '(d, t) := t_should_relay_response msg_status b 0 msg t in
  let '(ok, t) := if d_store d then store_reply b msg t else (true, t) in
  if negb ok then
    let '(bm, t) := which_cancel (d_bm d) t in
    let t := cleanup_uac_timers t in
    Ret (RPS_ERROR, bm, put_on_wait (if is_invite t then cancel_uacs bm t else t))
  else
    let winner := d_relay d in
    if 0 <=? winner then
      code ← chosen b winner msg_status msg t;
      Ret (d_rps d, d_bm d, emit (Local_out code) (set_status code t))
    else Ret (d_rps d, d_bm d, t).

(** ** Entry points *)

(** A reply with code [code] for branch [b]; [of_cancel] tells that it answers a CANCEL,
    [drop] that the reply route drops it, [restart_fr] is a module parameter. *)
Definition reply_received (of_cancel drop restart_fr retry_after : bool) (b : nat) (code : Z) (t : cell) : res cell :=
  let last := match uac t !! b with Some u => last_received u | None => 0 end in
  if of_cancel && is_invite t then
    Ret (upd (fun u => set_c_timers false (if 200 <=? code then false else c_fr u) u) b t)
  else
    let t := upd (fun u => set_timers false (if 200 <=? code then false else fr_timer u) u) b t in
    let t := if is_invite t && ((300 <=? code) || (is_local t && negb (flag (t_flags t) T_NO_AUTOACK_FLAG) && (200 <=? code)))
             then emit (Ack_out b) t else t in
    if drop && (code <? 200) then Ret t
    else
      let to_cancel := match uac t !! b with Some u => flag (u_flags u) T_UAC_TO_CANCEL_FLAG | None => false end in
      let t := upd (fun u => set_u_flags (Z.lor (u_flags u) T_UAC_HAS_RECV_REPLY) u) b t in
      let t := if to_cancel then
                 let t := if code <? 200 then cancel_branch b t else t in
                 upd (fun u => set_u_flags (Z.land (u_flags u) (Z.lnot T_UAC_TO_CANCEL_FLAG)) u) b t
               else t in
      '(st, bm, t) ← (if is_local t then local_reply (Real code retry_after) b code t
                      else relay_reply (Real code retry_after) b code 0 t);
      let t := if decide (st = RPS_COMPLETED) then
                 let t := cleanup_uac_timers t in
                 let t := if is_invite t then cancel_uacs bm t else t in
                 if is_local t then put_on_wait t else t
               else t in
      if decide (st = RPS_PROVISIONAL) then
        Ret (if (code <? 200) && (restart_fr || ((last <? code) && ((180 <=? code) || (last =? 0)))) then
               upd (fun u => if is_invite t then set_timers (retr_timer u) true u
                             else set_timers true (fr_timer u) u) b t
             else t)
      else Ret t.

(** A reply made up for a branch. *)
Definition fake_reply (b : nat) (code : Z) (t : cell) : res cell :=
  let '(do_cancel, t) :=
    if is_invite t then
      match uac t !! b with
      | Some u => let '(c, u) := should_cancel_branch u in (c, upd (fun _ => u) b t)
      | None => (false, t)
      end
    else (false, t) in
  let bm := if do_cancel then Z.shiftl 1 (Z.of_nat b) else 0 in
  t ← (if is_local t then
         '(st, _, t) ← local_reply FAKED_REPLY b code t;
         Ret (if decide (st = RPS_COMPLETED) then put_on_wait t else t)
       else '(_, _, t) ← relay_reply FAKED_REPLY b code bm t; Ret t);
  Ret (if do_cancel then cancel_branch b t else t).

(** The final response timer of a request hits; it has been taken off its list. *)
Definition final_response_handler (b : nat) (t : cell) : res cell :=
  let t := upd (set_timers false false) b t in
  let last := match uac t !! b with Some u => last_received u | None => 0 end in
  if negb (is_local t) && is_invite t && (nr_of_outgoings t =? 1)%nat && (on_negative t =? 0)
     && negb (match failure_cb e with Some _ => true | None => false end || failure_ro e) && (0 <? last)
     && negb (noisy_ctimer e)
  then Ret (put_on_wait t)
  else fake_reply b 408 t.

(** The one of the response hits: no ACK came. *)
Definition response_timeout (t : cell) : cell := put_on_wait (set_r_timers false false t).

(** The retransmission timer of a request hits; [sent] tells whether it is sent again. *)
Definition retransmission_handler (sent : bool) (b : nat) (t : cell) : res cell :=
  if sent then Ret (upd (fun u => set_timers true (fr_timer u) u) b t)
  else fake_reply b 503 (upd (set_timers false false) b t).

(** The timers of the CANCEL of a branch. *)
Definition cancel_timeout (b : nat) (t : cell) : cell := upd (set_c_timers false false) b t.

Definition cancel_retransmission (sent : bool) (b : nat) (t : cell) : res cell :=
  if sent then Ret (upd (fun u => set_c_timers true (c_fr u) u) b t)
  else fake_reply b 503 (upd (set_c_timers false false) b t).

(** A CANCEL for the transaction, which is answered by its own: the branches without a reply get a 487.  [bm] is what
    the bitmap of [relay_reply], which is not initialised, holds. *)
Fixpoint cancel_silent (bm : Z) (bs : list nat) (t : cell) : res cell :=
  match bs with
  | [] => Ret t
  | b :: bs' =>
      let last := match uac t !! b with Some u => last_received u | None => -1 end in
      if last =? 0 then
        '(_, _, t) ← relay_reply FAKED_REPLY b 487 bm (upd (set_timers false false) b t);
        cancel_silent bm bs' t
      else cancel_silent bm bs' t
  end.

Definition cancel_invite (bm : Z) (t : cell) : res cell :=
  let t := set_t_flags (Z.lor (t_flags t) T_WAS_CANCELLED_FLAG) t in
  let '(c, t) := which_cancel 0 t in
  let t := cancel_uacs c t in
  cancel_silent bm (seq (first_branch t) (nr_of_outgoings t - first_branch t)) t.

End Env.

(** ** The best branch *)

(** The branches of the current fork that have a request, and their codes. *)
Fixpoint live_at (first i : nat) (l : list ua_client) : list (nat * Z) :=
  match l with
  | [] => []
  | u :: l' =>
      if (i <? first)%nat || negb (buffer u) then live_at first (S i) l'
      else (i, last_received u) :: live_at first (S i) l'
  end.

Definition live (t : cell) : list (nat * Z) := live_at (first_branch t) 0 (uac t).

(** The order of preference: the answer to a CANCEL first, 503 last, else the lower code. *)
Definition rank (cancelled : bool) (code : Z) : Z :=
  if cancelled && (code =? 487) then 0 else if code =? 503 then 1000 else code.

Definition unfinished (l : list (nat * Z)) : bool := existsb (fun x => x.2 <? 200) l.

Lemma live_at_lookup first l : forall i n c, In (n, c) (live_at first i l) ->
  (first <= n)%nat /\ (i <= n)%nat /\ exists u, l !! (n - i)%nat = Some u /\ buffer u = true /\ last_received u = c.
Proof.
  induction l as [|u l IH]; intros i n c; [done|]. simpl.
  destruct ((i <? first)%nat || negb (buffer u)) eqn:E.
  - intros Hin. destruct (IH (S i) n c Hin) as (H1 & H2 & v & Hv & X). split; [done|]. split; [lia|]. exists v.
    replace (n - i)%nat with (S (n - S i)) by lia. done.
  - apply orb_false_iff in E as [E1 E2]. apply Nat.ltb_ge in E1. apply negb_false_iff in E2.
    intros [[= <- <-]|Hin].
    + split; [done|]. split; [lia|]. exists u. by rewrite Nat.sub_diag.
    + destruct (IH (S i) n c Hin) as (H1 & H2 & v & Hv & X). split; [done|]. split; [lia|]. exists v.
      replace (n - i)%nat with (S (n - S i)) by lia. done.
Qed.

Lemma live_at_in first l : forall i n u, l !! n = Some u -> (first <= i + n)%nat -> buffer u = true ->
  In ((i + n)%nat, last_received u) (live_at first i l).
Proof.
  induction l as [|v l IH]; intros i n u; [by destruct n|]. destruct n as [|n]; simpl.
  - intros [= ->] Hf Hb. rewrite Nat.add_0_r in *. rewrite (proj2 (Nat.ltb_ge i first)) by lia. rewrite Hb. by left.
  - intros Hn Hf Hb. specialize (IH (S i) n u Hn ltac:(lia) Hb). replace (i + S n)%nat with (S i + n)%nat by lia.
    destruct (_ || _); [done|by right].
Qed.

(** The choice among codes below 1000, starting from [(b, s)] when [b] is not -1. *)
Lemma pick_loop_ok c first l : forall i b s,
  Forall (fun x => x.2 < 1000) (live_at first i l) -> (b <> -1 -> 200 <= s < 1000) ->
  let r := pick_loop c first i l b s in
  if unfinished (live_at first i l) then r.1 = -2
  else
    (b = -1 -> live_at first i l = [] -> r = (-1, s)) /\
    (b <> -1 \/ live_at first i l <> [] ->
       (r = (b, s) /\ b <> -1 \/ exists n, r.1 = Z.of_nat n /\ In (n, r.2) (live_at first i l)) /\
       (b <> -1 -> rank c r.2 <= rank c s) /\
       (forall n k, In (n, k) (live_at first i l) -> rank c r.2 <= rank c k)).
Proof.
  induction l as [|u l IH]; intros i b s F Hs; cbn [pick_loop live_at unfinished existsb] in *.
  { split; [by intros -> _|]. intros [Hb|Hb]; [|done]. split; [by left|]. split; [done|]. by intros n k []. }
  destruct ((i <? first)%nat || negb (buffer u)) eqn:E; [by apply IH|].
  apply Forall_cons in F as [Fu F]. simpl in Fu. cbn [unfinished existsb snd]. destruct (last_received u <? 200) eqn:Eu; [done|]. cbn [orb].
  fold (unfinished (live_at first (S i) l)).
  apply Z.ltb_ge in Eu. set (code := last_received u) in *.
  set (better := (b =? -1) || (c && (code =? 487)) || _).
  assert (Hrank : if better then b <> -1 -> rank c code <= rank c s else b <> -1 /\ rank c s <= rank c code).
  { unfold better, rank. destruct (Z.eqb_spec b (-1)) as [->|Nb]; [cbn [orb]; by intros []|]. specialize (Hs Nb). cbn [orb].
    destruct c; cbn [andb orb negb].
    - destruct (Z.eqb_spec code 487), (Z.eqb_spec s 487), (Z.eqb_spec s 503), (Z.eqb_spec code 503), (Z.ltb_spec code s); cbn [orb andb negb]; try split; try exact Nb; lia.
    - rewrite orb_true_r. cbn [andb]. destruct (Z.eqb_spec s 503), (Z.eqb_spec code 503), (Z.ltb_spec code s); cbn [orb andb negb]; try split; try exact Nb; lia. }
  destruct better.
  - specialize (IH (S i) (Z.of_nat i) code F ltac:(lia)). cbv zeta in IH. set (r := pick_loop _ _ _ _ _ _) in *.
    destruct (unfinished (live_at first (S i) l)); [done|]. destruct IH as [_ IH]. destruct IH as (R1 & R2 & R3); [left; lia|].
    split; [by intros _ [=]|]. intros _. split; [|split].
    + right. destruct R1 as [(-> & _)|(n & Hn & Hin)]; [exists i; split; [done|by left]|exists n; split; [done|by right]].
    + intros Hb. specialize (Hrank Hb). specialize (R2 ltac:(lia)). lia.
    + intros n k [[= <- <-]|Hin]; [apply R2; lia|by apply (R3 n)].
  - destruct Hrank as [Hb Hrank]. specialize (IH (S i) b s F Hs). cbv zeta in IH. set (r := pick_loop _ _ _ _ _ _) in *.
    destruct (unfinished (live_at first (S i) l)); [done|]. destruct IH as [_ IH]. destruct IH as (R1 & R2 & R3); [by left|].
    split; [by intros _ [=]|]. intros _. split; [|split].
    + destruct R1 as [R1|(n & Hn & Hin)]; [by left|right; exists n; split; [done|by right]].
    + done.
    + intros n k [[= <- <-]|Hin]; [specialize (R2 Hb); lia|by apply (R3 n)].
Qed.

(** C32: [t_pick_branch] returns -2 while some branch of the fork has no final reply, and
    otherwise a branch whose reply is best in the order of preference: after a CANCEL 487
    first, 503 last, else the lowest code. *)
Theorem pick_is_best t :
  Forall (fun x => x.2 < 1000) (live t) ->
  let '(b, s) := t_pick_branch t in
  if unfinished (live t) then b = -2
  else if decide (live t = []) then b = -1
  else exists n, b = Z.of_nat n /\ In (n, s) (live t) /\
       forall m k, In (m, k) (live t) -> rank (was_cancelled t) s <= rank (was_cancelled t) k.
Proof.
  intros F. unfold t_pick_branch, live in *.
  pose proof (pick_loop_ok (was_cancelled t) (first_branch t) (uac t) 0 (-1) 999 F ltac:(done)) as X. cbv zeta in X.
  destruct (pick_loop _ _ _ _ _ _) as [b s]. destruct (unfinished _); [done|]. destruct X as [X1 X2].
  case_decide as D; [by injection (X1 eq_refl D)|]. destruct (X2 (or_intror D)) as ([(_ & N)|(n & Hn & Hin)] & _ & R3); [done|].
  by exists n.
Qed.

(** Two finished branches, 503 and 480: the second. *)
Definition uac_of (last : Z) (r : option rmsg) (fr : bool) : ua_client :=
  Uac true false CNone r last 0 false fr false false.
Definition cell_of (l : list ua_client) : cell :=
  Cell T_IS_INVITE_FLAG 0 l 0 0 true true false false false false false 0 [].

Lemma pick_is_best_witness :
  let t := cell_of [uac_of 503 (Some FAKED_REPLY) false; uac_of 480 (Some FAKED_REPLY) false] in
  t_pick_branch t = (1, 480) /\ In (1%nat, 480) (live t).
Proof.
  split; [reflexivity|].
  pose proof (pick_is_best (cell_of [uac_of 503 (Some FAKED_REPLY) false; uac_of 480 (Some FAKED_REPLY) false])) as X.
  destruct X as (n & Hn & Hin & _); [apply (bool_decide_unpack _); by vm_compute|].
  assert (n = 1%nat) as -> by (change (1 = Z.of_nat n) in Hn; lia). exact Hin.
Defined.

End TmReply.
