(* ===== verification/TmSafety.v ===== *)
(** * Transactions: what goes upstream

    The runs of a transaction: replies, timers, CANCELs and what the script does.  In all
    of them [relay_reply] finds the stored reply it relays, and at most one final reply
    goes upstream, except for the 2xx of an INVITE, which are all passed on. *)

From Stdlib Require Import ZArith Lia List Bool.
From stdpp Require Import base tactics option list relations.
From S2P Require Import Prelude TmReply.

Module TmSafety.
Import TmReply.

(** ** What the invariant speaks of *)

Definition core (u : ua_client) : bool * option rmsg * Z := (buffer u, reply u, last_received u).

(** The final replies sent upstream. *)
Fixpoint finals (l : list event) : list Z :=
  match l with
  | [] => []
  | Reply_out c _ :: l' => if 200 <=? c then c :: finals l' else finals l'
  | _ :: l' => finals l'
  end.

Record view : Set := View {
  v_status : Z;
  v_first : nat;
  v_core : list (bool * option rmsg * Z);
  v_finals : list Z;
  v_invite : bool;
  v_local : bool
}.

Definition view_of (t : cell) : view :=
  View (status t) (first_branch t) (core <$> uac t) (finals (out t)) (is_invite t) (is_local t).

Lemma finals_app l1 l2 : finals (l1 ++ l2) = finals l1 ++ finals l2.
Proof.
  induction l1 as [|ev l1 IH]; [done|]. destruct ev; simpl; [|done..]. destruct (200 <=? _); [|done]. simpl. by rewrite IH.
Qed.

Lemma flag_lor f x y : flag (Z.lor f x) y = flag f y || flag x y.
Proof.
  unfold flag. rewrite Z.land_lor_distr_l. destruct (Z.eqb_spec (Z.lor (Z.land f y) (Z.land x y)) 0) as [E|E].
  - apply Z.lor_eq_0_iff in E as [-> ->]. done.
  - destruct (Z.eqb_spec (Z.land f y) 0) as [E1|]; [|done]. destruct (Z.eqb_spec (Z.land x y) 0) as [E2|]; [|done].
    by rewrite E1, E2 in E.
Qed.

Lemma view_flags t x : flag x T_IS_INVITE_FLAG = false -> flag x T_IS_LOCAL_FLAG = false ->
  view_of (set_t_flags (Z.lor (t_flags t) x) t) = view_of t.
Proof. intros H1 H2. unfold view_of, is_invite, is_local. simpl. by rewrite !flag_lor, H1, H2, !orb_false_r. Qed.

Lemma core_alter (f : ua_client -> ua_client) (b : nat) (l : list ua_client) : (forall u, core (f u) = core u) -> core <$> alter f b l = core <$> l.
Proof.
  intros Hf. apply list_eq. intros i. rewrite !list_lookup_fmap.
  destruct (decide (i = b)) as [->|N]; [rewrite list_lookup_alter_eq|by rewrite list_lookup_alter_ne].
  destruct (l !! b); [|done]. simpl. by rewrite Hf.
Qed.

Lemma view_upd f b t : (forall u, core (f u) = core u) -> view_of (upd f b t) = view_of t.
Proof. intros Hf. unfold view_of, upd. simpl. by rewrite core_alter. Qed.

Definition v_emit (x : event) (v : view) : view :=
  View (v_status v) (v_first v) (v_core v) (v_finals v ++ finals [x]) (v_invite v) (v_local v).

Lemma view_emit_eq x t : view_of (emit x t) = v_emit x (view_of t).
Proof. unfold view_of, v_emit. cbn [v_status v_first v_core v_finals v_invite v_local]. by rewrite <- finals_app. Qed.

Lemma view_emit x t : finals [x] = [] -> view_of (emit x t) = view_of t.
Proof. intros H. rewrite view_emit_eq. unfold v_emit. rewrite H, app_nil_r. by destruct (view_of t). Qed.

(** ** Steps that leave it *)

Lemma core_should_cancel u : core (should_cancel_branch u).2 = core u.
Proof. unfold should_cancel_branch. repeat case_match; done. Qed.

Lemma view_which_loop first l : forall i bm, core <$> (which_cancel_loop first i l bm).1 = core <$> l.
Proof.
  induction l as [|u l IH]; intros i bm; [done|]. cbn [which_cancel_loop].
  destruct (i <? first)%nat.
  - specialize (IH (S i) bm). destruct (which_cancel_loop _ _ _ _). csimpl in *. by rewrite IH.
  - pose proof (core_should_cancel u) as Hu.
    destruct (should_cancel_branch u) as [b u']. simpl in Hu.
    match goal with |- context [which_cancel_loop _ _ _ ?x] => specialize (IH (S i) x) end.
    destruct (which_cancel_loop _ _ _ _). csimpl in *. by rewrite IH, Hu.
Qed.

Lemma view_which bm t : view_of (which_cancel bm t).2 = view_of t.
Proof.
  unfold which_cancel. pose proof (view_which_loop (first_branch t) (uac t) 0 bm) as E.
  destruct (which_cancel_loop _ _ _ _). simpl in E. unfold view_of. simpl. by rewrite E.
Qed.

Section Ops.
Context (e : env).

Lemma view_cancel_branch b t : view_of (cancel_branch e b t) = view_of t.
Proof. unfold cancel_branch. case_match; [|done]. rewrite view_emit by done. by rewrite view_upd. Qed.

Lemma view_cancel_loop bm n : forall i t, view_of (cancel_loop e n i bm t) = view_of t.
Proof.
  induction n as [|n IH]; intros i t; [done|]. cbn [cancel_loop]. rewrite IH. case_match; [apply view_cancel_branch|done].
Qed.

Lemma view_cancel_uacs bm t : view_of (cancel_uacs e bm t) = view_of t.
Proof. apply view_cancel_loop. Qed.

Lemma view_if_cancel (c : bool) bm t : view_of (if c then cancel_uacs e bm t else t) = view_of t.
Proof. destruct c; [apply view_cancel_uacs|done]. Qed.

Lemma view_cleanup t : view_of (cleanup_uac_timers t) = view_of t.
Proof.
  unfold cleanup_uac_timers, view_of. simpl. f_equal. apply list_eq. intros i. rewrite !list_lookup_fmap, list_lookup_imap.
  destruct (uac t !! i); [|done]. simpl. by case_match.
Qed.

Lemma view_final_timer t : view_of (set_final_timer e t) = view_of t.
Proof. unfold set_final_timer. repeat case_match; done. Qed.

Lemma view_put_on_wait t : view_of (put_on_wait t) = view_of t.
Proof. done. Qed.

Lemma view_error bm t : view_of (reply_error e bm t).2 = view_of t.
Proof.
  unfold reply_error. cbn [snd]. rewrite view_put_on_wait, view_if_cancel. apply view_cleanup.
Qed.

(** ** Steps that change it *)

Definition v_reply (code : Z) (v : view) : view :=
  if 200 <=? v_status v then v
  else View code (v_first v) (v_core v) (if 200 <=? code then v_finals v ++ [code] else v_finals v) (v_invite v) (v_local v).

Lemma view_reply code t : err_build_ok e = true -> err_shm_ok e = true ->
  view_of (t_reply_unsafe e code t).2 = v_reply code (view_of t).
Proof.
  intros Hb Hs. unfold t_reply_unsafe.
  assert (E : view_of (if is_invite t then which_cancel (if err_build_ok e then 0 else garbage e) t else (0, t)).2 = view_of t)
    by (destruct (is_invite t); [apply view_which|done]).
  destruct (if is_invite t then _ else _) as [bm t1]. simpl in E. rewrite Hb, Hs. cbn [negb]. rewrite <- E. clear t E.
  unfold v_reply. change (v_status (view_of t1)) with (status t1). destruct (200 <=? status t1); [apply view_error|].
  cbn [snd]. set (t2 := set_relaied (-2) _).
  assert (E : view_of (emit (Reply_out code (-2)) t2) = View code (v_first (view_of t1)) (v_core (view_of t1))
     (if 200 <=? code then v_finals (view_of t1) ++ [code] else v_finals (view_of t1)) (v_invite (view_of t1)) (v_local (view_of t1))).
  { unfold view_of. simpl. rewrite finals_app. simpl. destruct (200 <=? code); [done|by rewrite app_nil_r]. }
  rewrite <- E. clear E. destruct (200 <=? code); [|done].
  rewrite !view_emit_eq. f_equal.
  assert (E : view_of (if is_local t2 then emit (Local_out code) t2 else t2) = view_of t2)
    by (destruct (is_local t2); [by apply view_emit|done]).
  set (t3 := if is_local t2 then _ else _) in *. rewrite <- E. destruct (is_hopbyhop_cancel t3); [done|].
  by rewrite view_final_timer, view_if_cancel, view_cleanup.
Qed.

Definition fresh : bool * option rmsg * Z := (true, None, 0).

Lemma view_add l : forall t, exists k,
  view_of (add_uacs e l t) = View (status t) (first_branch t) ((core <$> uac t) ++ replicate k fresh) (finals (out t)) (is_invite t) (is_local t).
Proof.
  induction l as [|[s|] l IH]; intros t; cbn [add_uacs].
  - exists 0%nat. by rewrite app_nil_r.
  - destruct (nr_of_outgoings t <? MAX_BRANCHES)%nat; [|apply IH].
    match goal with |- context [add_uacs e l ?x] => destruct (IH x) as (k & ->) end.
    exists (S k). f_equal. simpl. by rewrite fmap_app, <- app_assoc.
  - apply IH.
Qed.

Lemma view_forward l t :
  view_of (t_forward_nonack e l t).2 = view_of t \/
  exists k, view_of (t_forward_nonack e l t).2 =
    View (status t) (length (v_core (view_of t))) (v_core (view_of t) ++ replicate k fresh) (finals (out t)) (is_invite t) (is_local t).
Proof.
  unfold t_forward_nonack. destruct (_ || _); [by left|]. right. cbn [snd].
  destruct (view_add l (set_first (nr_of_outgoings t) t)) as (k & E). exists k. rewrite E. simpl.
  by rewrite length_fmap.
Qed.

End Ops.

(** ** The invariant *)

(** The code a stored reply is relayed with. *)
Definition stored_code (x : bool * option rmsg * Z) : option Z :=
  match x.1.2 with None => None | Some FAKED_REPLY => Some x.2 | Some (Real c _) => Some c end.

(** While there is no final status, the finished branches of the current fork have their
    reply stored, except maybe branch [ex]. *)
Definition stored (ex : option nat) (v : view) : Prop :=
  v_status v < 200 -> forall n x, v_core v !! n = Some x -> (v_first v <= n)%nat -> ex <> Some n ->
  x.1.1 = true -> 200 <= x.2 -> stored_code x = Some x.2.

(** At most one final reply, then the 2xx of an INVITE. *)
Definition one_final (invite : bool) (l : list Z) : Prop :=
  match l with
  | [] => True
  | _ :: r => Forall (fun c => 200 <= c < 300) r /\ (r <> [] -> invite = true)
  end.

Definition inv (ex : option nat) (v : view) : Prop :=
  stored ex v /\ (v_status v < 200 -> v_finals v = []) /\ one_final (v_invite v) (v_finals v).

Lemma inv_weaken ex v : inv None v -> inv ex v.
Proof. intros [H X]. split; [|done]. intros Hs n x Hn Hf _. by apply (H Hs n x Hn Hf). Qed.

Lemma inv_done ex ex' v : 200 <= v_status v -> inv ex v -> inv ex' v.
Proof. intros Hs [_ X]. split; [|done]. intros Hs'. lia. Qed.

Lemma inv_reply ex code v : inv ex v -> inv ex (v_reply code v).
Proof.
  intros (H1 & H2 & H3). unfold v_reply. destruct (200 <=? v_status v) eqn:E; [done|]. bool_to_prop.
  rewrite (H2 E). split; [|split]; simpl.
  - intros _. apply H1. done.
  - destruct (Z.leb_spec 200 code); [lia|done].
  - destruct (200 <=? code); [|done]. simpl. by split.
Qed.

(** What the script and the callbacks do to a transaction. *)
Inductive hstep (e : env) (t : cell) : cell -> Prop :=
| h_reply code : hstep e t (t_reply_unsafe e code t).2
| h_forward l : hstep e t (t_forward_nonack e l t).2
| h_on_negative n : hstep e t (set_on_negative n t).

(** A reply of the proxy can be built, replies to a local transaction can be copied, and
    the failure route and the callbacks do nothing but that. *)
Record env_ok (e : env) (loc : bool) : Prop := {
  ok_build : err_build_ok e = true;
  ok_shm : err_shm_ok e = true;
  ok_clone : loc = true -> clone_ok e = true;
  ok_cb : forall f t, failure_cb e = Some f -> rtc (hstep e) t (f t);
  ok_route : forall n t, rtc (hstep e) t (failure_route e n t)
}.

(** What handlers leave alone: the branches there are. *)
Definition grows (v v' : view) : Prop :=
  v_core v `prefix_of` v_core v' /\ v_invite v' = v_invite v /\ v_local v' = v_local v.

Lemma grows_refl v : grows v v.
Proof. by split. Qed.

Lemma grows_trans v1 v2 v3 : grows v1 v2 -> grows v2 v3 -> grows v1 v3.
Proof. intros (P1 & I1 & L1) (P2 & I2 & L2). split; [by etrans|]. split; congruence. Qed.

Section Step.
Context (e : env) (loc : bool) (OK : env_ok e loc).

Lemma hstep_inv t t' : hstep e t t' -> inv None (view_of t) -> inv None (view_of t') /\ grows (view_of t) (view_of t').
Proof.
  intros [code|l|n] I.
  - rewrite view_reply by apply OK. split; [by apply inv_reply|]. unfold v_reply. destruct (200 <=? _); by split.
  - destruct (view_forward e l t) as [->|(k & ->)]; [by split|]. split; [|split; [by eexists|done]].
    destruct I as (_ & H2 & H3). split; [|done]. intros _ n x Hn Hf _ _ H200. exfalso. simpl in Hn, Hf.
    rewrite lookup_app_r in Hn by done. apply lookup_replicate in Hn as [-> _]. simpl in H200. lia.
  - by split.
Qed.

Lemma hsteps_inv t t' : rtc (hstep e) t t' -> inv None (view_of t) -> inv None (view_of t') /\ grows (view_of t) (view_of t').
Proof.
  induction 1 as [t|t t1 t2 H1 _ IH]; intros I; [by split|]. apply hstep_inv in H1 as [I1 G1]; [|done].
  destruct (IH I1) as [I2 G2]. split; [done|]. by eapply grows_trans.
Qed.

Lemma failure_handlers_steps t : rtc (hstep e) t (run_failure_handlers e t).
Proof.
  unfold run_failure_handlers. destruct (negb (request t) || req_cancel t); [done|].
  match goal with |- context [if ?b then t else _] => destruct b; [done|] end. destruct (negb (fake_ok e)); [done|].
  set (t1 := match failure_cb e with Some f => f t | None => t end).
  assert (H : rtc (hstep e) t t1) by (unfold t1; destruct (failure_cb e) eqn:E; [by apply (ok_cb _ _ OK)|done]).
  match goal with |- context [if ?b then _ else t1] => destruct b; [|done] end.
  etrans; [exact H|]. eapply rtc_l; [apply h_on_negative|apply (ok_route _ _ OK)].
Qed.

Lemma dns_failover_steps t : rtc (hstep e) t (do_dns_failover e t).2.
Proof.
  unfold do_dns_failover. destruct (next_dns e) as [l|]; [|done]. destruct (negb _); [done|].
  pose proof (h_forward e t l) as H. destruct (t_forward_nonack e l t). by apply rtc_once.
Qed.

End Step.

(** ** Branches that change *)

Definition v_alter (g : bool * option rmsg * Z -> bool * option rmsg * Z) (b : nat) (v : view) : view :=
  View (v_status v) (v_first v) (alter g b (v_core v)) (v_finals v) (v_invite v) (v_local v).

Lemma view_alter g f b t : (forall u, core (f u) = g (core u)) -> view_of (upd f b t) = v_alter g b (view_of t).
Proof.
  intros Hf. unfold view_of, v_alter. simpl. f_equal. apply list_eq. intros i. rewrite list_lookup_fmap.
  destruct (decide (i = b)) as [->|N].
  - rewrite !list_lookup_alter_eq, list_lookup_fmap. destruct (uac t !! b); simpl; [by rewrite Hf|done].
  - by rewrite !list_lookup_alter_ne, list_lookup_fmap.
Qed.

Lemma inv_alter g b v : inv (Some b) v -> inv (Some b) (v_alter g b v).
Proof.
  intros [H X]. split; [|done]. intros Hs n x Hn Hf Hb. apply (H Hs n x); [|done..].
  simpl in Hn. rewrite list_lookup_alter_ne in Hn by congruence. done.
Qed.

Lemma inv_restore g b v : inv (Some b) v ->
  (v_status v < 200 -> forall x, v_core v !! b = Some x -> 200 <= (g x).2 -> stored_code (g x) = Some (g x).2) ->
  inv None (v_alter g b v).
Proof.
  intros [H X] Hg. split; [|done]. intros Hs n x Hn Hf _ Hx H2. simpl in Hn.
  destruct (decide (n = b)) as [->|N].
  - rewrite list_lookup_alter_eq in Hn. destruct (v_core v !! b) as [y|] eqn:E; [|done].
    injection Hn as <-. by apply Hg.
  - rewrite list_lookup_alter_ne in Hn by congruence. apply (H Hs n x); try done. congruence.
Qed.

(** The reply of branch [b] and its code. *)
Definition put_reply (r : option rmsg) (x : bool * option rmsg * Z) : bool * option rmsg * Z := (x.1.1, r, x.2).
Definition put_code (c : Z) (x : bool * option rmsg * Z) : bool * option rmsg * Z := (x.1.1, x.1.2, c).

(** ** The decision *)

Lemma pick_loop_cases c first l : forall i b s,
  let r := pick_loop c first i l b s in
  r.1 = -2 \/ r.1 = b /\ (b <> -1 \/ live_at first i l = []) \/
  exists n k, r.1 = Z.of_nat n /\ In (n, k) (live_at first i l) /\ 200 <= k.
Proof.
  induction l as [|u l IH]; intros i b s; cbn [pick_loop live_at]; [right; left; auto|].
  destruct ((i <? first)%nat || negb (buffer u)); [apply IH|].
  destruct (last_received u <? 200) eqn:Eu; [by left|]. bool_to_prop.
  assert (Hi : In (i, last_received u) ((i, last_received u) :: live_at first (S i) l)) by (by left).
  match goal with |- context [if ?x then _ else _] => destruct x eqn:Ex end.
  - destruct (IH (S i) (Z.of_nat i) (last_received u)) as [R|[(R & _)|(n & k & R & Hin & Hk)]]; [by left| |].
    + right. right. by exists i, (last_received u).
    + right. right. exists n, k. split; [done|]. split; [by right|done].
  - bool_to_prop. destruct (IH (S i) b s) as [R|[(R & _)|(n & k & R & Hin & Hk)]]; [by left| |].
    + right. left. split; [done|]. by left.
    + right. right. exists n, k. split; [done|]. split; [by right|done].
Qed.

(** What [t_should_relay_response] may decide about a reply [code] of branch [b]. *)
Inductive decided (b : nat) (code : Z) (d : decision) (v : view) : Prop :=
| D_nothing : d_relay d < 0 -> d_store d = false -> inv None v -> decided b code d v
| D_store : d_relay d < 0 -> d_store d = true -> inv (Some b) v ->
    (forall x, v_core v !! b = Some x -> x.2 = code) -> decided b code d v
| D_provisional : d_relay d = Z.of_nat b -> d_store d = false -> code < 200 -> v_status v < 200 ->
    inv None v -> decided b code d v
| D_final c : 0 <= d_relay d -> d_store d = false -> v_status v < 200 -> inv (Some b) v -> 200 <= c ->
    (d_relay d = Z.of_nat b /\ c = code \/
     d_relay d <> Z.of_nat b /\ exists x, v_core v !! Z.to_nat (d_relay d) = Some x /\ stored_code x = Some c) ->
    decided b code d v
| D_pushed : d_relay d = Z.of_nat b -> d_store d = false -> 200 <= v_status v -> 200 <= code < 300 ->
    v_invite v = true -> inv None v -> decided b code d v.

Section Relay.
Context (e : env) (loc : bool) (OK : env_ok e loc).

(** A message is what its code says. *)
Definition msg_ok (msg : rmsg) (code : Z) : Prop := match msg with Real c _ => c = code | FAKED_REPLY => True end.

Lemma put_reply_ok msg code x : msg_ok msg code -> stored_code (put_reply (Some msg) (put_code code x)) = Some code.
Proof. destruct msg; [by intros ->|done]. Qed.

Lemma grows_lookup v v' n x : grows v v' -> v_core v !! n = Some x -> v_core v' !! n = Some x.
Proof. intros [[k ->] _] H. by apply lookup_app_l_Some. Qed.

(** Failover and failure handlers: the branches there were stay as they are. *)
Lemma after_handlers b t cnt (p : Z) :
  inv None (view_of t) -> cnt = nr_of_outgoings t ->
  forall cnt' t', (match uac t !! Z.to_nat p with
    | Some u =>
        if negb (flag (t_flags t) T_NO_DNS_FAILOVER_FLAG) && proxy u && is_3263_failure u then
          let '(rc, t) := do_dns_failover e t in
          (if rc =? 0 then cnt else nr_of_outgoings t, t)
        else (cnt, t)
    | None => (cnt, t)
    end) = (cnt', t') ->
  let t2 := if (cnt' =? nr_of_outgoings t')%nat && b then run_failure_handlers e t' else t' in
  inv None (view_of t2) /\ grows (view_of t) (view_of t2).
Proof.
  intros I Hc cnt' t' E t2.
  assert (S1 : rtc (hstep e) t t').
  { destruct (uac t !! Z.to_nat p) as [u|]; [|by injection E as <- <-].
    destruct (_ && _ && _); [|by injection E as <- <-].
    pose proof (dns_failover_steps e t) as H. destruct (do_dns_failover e t). by injection E as <- <-. }
  assert (S2 : rtc (hstep e) t t2).
  { unfold t2. destruct (_ && b); [|done]. etrans; [exact S1|]. apply (failure_handlers_steps e loc OK). }
  by apply (hsteps_inv e loc OK) in S2.
Qed.

Lemma after_pick_decided b p bm t code c :
  inv None (view_of t) -> (exists x, v_core (view_of t) !! b = Some x /\ x.2 = code) -> 0 <= p -> 200 <= c ->
  (p = Z.of_nat b /\ c = code \/ p <> Z.of_nat b /\ exists x, v_core (view_of t) !! Z.to_nat p = Some x /\ stored_code x = Some c) ->
  let r := after_pick e b p bm t in decided b code r.1 (view_of r.2) /\ is_local r.2 = is_local t.
Proof.
  intros I (xb & Hb & Hcode) Hp Hc Hx. unfold after_pick. cbv zeta.
  match goal with |- context [let '(_, _) := ?m in _] => destruct m as [cnt t1] eqn:E end.
  match goal with |- context [(cnt =? nr_of_outgoings t1)%nat && ?f] => pose proof (after_handlers f t _ p I eq_refl _ _ E) as [I2 G2] end.
  match type of I2 with inv None (view_of ?x) => set (t2 := x) in * end.
  clearbody t2. clear E.
  assert (I3 : inv (Some b) (v_alter (put_reply None) b (view_of t2))) by (apply inv_alter; by apply inv_weaken).
  assert (L : is_local t2 = is_local t) by apply G2.
  set (t3 := upd _ b t2). assert (V : view_of t3 = v_alter (put_reply None) b (view_of t2)) by (by apply view_alter).
  rewrite <- V in I3. change (is_local t2) with (is_local t3) in L. change (status t2) with (status t3).
  destruct (200 <=? status t3) eqn:Es; [|destruct (cnt <? nr_of_outgoings t3)%nat]; bool_to_prop; split; try exact L; cbn [fst snd].
  - apply D_nothing; [done..|]. by apply (inv_done (Some b)).
  - apply D_store; [done..|]. intros x Hx3. rewrite V in Hx3. simpl in Hx3. rewrite list_lookup_alter_eq in Hx3.
    pose proof (grows_lookup _ _ _ _ G2 Hb) as Hb2. simpl in Hb2. rewrite Hb2 in Hx3. by injection Hx3 as <-.
  - apply (D_final _ _ _ _ c); [done..|]. destruct Hx as [Hx|(N & x & Hx & Hxc)]; [by left|right].
    split; [done|]. exists x. split; [|done]. rewrite V. simpl. rewrite list_lookup_alter_ne by (simpl in N; lia).
    by apply (grows_lookup _ _ _ _ G2).
Qed.

Lemma live_empty t n x : live t = [] -> v_core (view_of t) !! n = Some x -> (first_branch t <= n)%nat -> x.1.1 = true -> False.
Proof.
  intros L Hn Hf Hx. simpl in Hn. rewrite list_lookup_fmap in Hn. destruct (uac t !! n) as [u|] eqn:E; [|done].
  injection Hn as <-. apply (live_at_in (first_branch t) (uac t) 0 n u E Hf) in Hx. unfold live in L. by rewrite L in Hx.
Qed.

Lemma pick_stored t : inv None (view_of t) -> status t < 200 ->
  let p := (t_pick_branch t).1 in
  p = -2 \/ p = -1 /\ live t = [] \/
  exists n x, p = Z.of_nat n /\ v_core (view_of t) !! n = Some x /\ stored_code x = Some x.2 /\ 200 <= x.2.
Proof.
  intros I Hs. cbv zeta. unfold t_pick_branch.
  destruct (pick_loop_cases (was_cancelled t) (first_branch t) (uac t) 0 (-1) 999) as [R|[(R & [N|L])|(n & k & R & Hin & Hk)]];
    [by left|done|by right; left|right; right].
  destruct (live_at_lookup _ _ _ _ _ Hin) as (Hf & _ & u & Hu & Hb & Hk'). rewrite Nat.sub_0_r in Hu.
  assert (Hv : v_core (view_of t) !! n = Some (core u)) by (simpl; by rewrite list_lookup_fmap, Hu).
  exists n, (core u). split; [done|]. split; [done|]. simpl. rewrite Hk'. split; [|done]. rewrite <- Hk'.
  destruct I as [St _]. apply (St Hs n (core u) Hv Hf); [done|done|simpl; lia].
Qed.

(** A negative reply below 600, and one from 600 on. *)
Lemma negative_decided b code bm msg t :
  msg_ok msg code -> inv None (view_of t) -> is_Some (uac t !! b) -> status t < 200 -> 300 <= code ->
  let t1 := upd (fun u => set_reply (Some msg) (set_last code u)) b t in
  let r := if 600 <=? code then
      let '(bm, t) := which_cancel bm t1 in
      after_pick e b (Z.of_nat b) bm (set_t_flags (Z.lor (t_flags t) T_NO_NEW_BRANCHES_FLAG) t)
    else
      let '(picked, _) := t_pick_branch t1 in
      if picked =? -2 then (Dec RPS_STORE true (-1) bm, upd (set_reply None) b t1)
      else if picked =? -1 then (Dec RPS_DISCARDED false (-1) bm, upd (set_reply None) b t1)
      else after_pick e b picked bm t1 in
  decided b code r.1 (view_of r.2) /\ is_local r.2 = is_local t.
Proof.
  intros Hm I [u Hu] Hs Hc t1 r.
  assert (V : view_of t1 = v_alter (fun x => put_reply (Some msg) (put_code code x)) b (view_of t)) by (by apply view_alter).
  assert (I1 : inv None (view_of t1)).
  { rewrite V. apply inv_restore; [by apply inv_weaken|]. intros _ x _ _. by apply put_reply_ok. }
  assert (Hb : exists x, v_core (view_of t1) !! b = Some x /\ x.2 = code).
  { rewrite V. simpl. rewrite list_lookup_alter_eq, list_lookup_fmap, Hu. by eexists. }
  unfold r. clear r. destruct (600 <=? code).
  - pose proof (view_which bm t1) as W. destruct (which_cancel bm t1) as [bm' t2]. simpl in W.
    set (t3 := set_t_flags _ t2). assert (W3 : view_of t3 = view_of t1) by (unfold t3; by rewrite view_flags).
    destruct (after_pick_decided b (Z.of_nat b) bm' t3 code code) as [D L]; rewrite ?W3; auto; try lia.
    split; [done|]. rewrite L. change (v_local (view_of t3) = v_local (view_of t)). by rewrite W3, V.
  - pose proof (pick_stored t1 I1 Hs) as P. destruct (t_pick_branch t1) as [p s]. simpl in P.
    assert (L1 : is_local t1 = is_local t) by done.
    destruct P as [->|[(-> & Hl)|(n & x & -> & Hn & Hx & H2)]]; cbn [Z.eqb Pos.eqb fst snd]; [| |].
    + split; [|done]. rewrite (view_alter (put_reply None)) by done.
      apply D_store; [done..| |]; [by apply inv_alter, inv_weaken|].
      intros y. simpl. rewrite list_lookup_alter_eq. destruct Hb as (x & Hx & Hxc). simpl in Hx. rewrite Hx. by intros [= <-].
    + split; [|done]. rewrite (view_alter (put_reply None)) by done. apply D_nothing; [done..|].
      split; [|apply I1]. intros _ n y Hn Hf _ Hy. exfalso. cbn [v_core v_first v_alter] in Hn, Hf.
      rewrite list_lookup_alter in Hn. destruct (decide (b = n)) as [->|N]; [|by apply (live_empty t1 n y)].
      destruct (v_core (view_of t1) !! n) as [x|] eqn:Ex; [|done]. injection Hn as <-. by apply (live_empty t1 n x).
    + rewrite (proj2 (Z.eqb_neq (Z.of_nat n) (-2))), (proj2 (Z.eqb_neq (Z.of_nat n) (-1))) by lia. rewrite <- L1.
      destruct (decide (n = b)) as [->|N].
      * apply (after_pick_decided b _ bm t1 code code); auto; lia.
      * apply (after_pick_decided b _ bm t1 code x.2); auto; try lia. right. split; [lia|]. exists x. by rewrite Nat2Z.id.
Qed.

Lemma nothing_decided b code st bm v : inv None v -> decided b code (Dec st false (-1) bm) v.
Proof. intros I. by apply D_nothing. Qed.

Lemma should_relay_decided b code bm msg t :
  msg_ok msg code -> inv None (view_of t) -> is_Some (uac t !! b) ->
  let r := t_should_relay_response e code b bm msg t in
  decided b code r.1 (view_of r.2) /\ is_local r.2 = is_local t.
Proof.
  intros Hm I Hu. unfold t_should_relay_response. cbv zeta. set (inv_through := _ && _ && is_invite t).
  assert (V : view_of (upd (set_last code) b t) = v_alter (put_code code) b (view_of t)) by (by apply view_alter).
  destruct (200 <=? status t) eqn:Es; bool_to_prop.
  { destruct inv_through eqn:Ei.
    - split; [|done]. unfold inv_through in Ei. bool_to_prop. apply D_pushed; [done|done|exact Es|lia|assumption|].
      cbn [snd]. rewrite V. apply inv_restore; [by apply inv_weaken|]. intros Hlt. simpl in Hlt. lia.
    - destruct (is_hopbyhop_cancel t && (200 <=? code)); (split; [by apply nothing_decided|done]). }
  match goal with |- context [if ?x then (Dec RPS_DISCARDED false (-1) bm, t) else _] => destruct x end;
    [split; [by apply nothing_decided|done]|].
  destruct (300 <=? code) eqn:E3; bool_to_prop; [by apply negative_decided|].
  destruct (100 <=? code) eqn:E1; bool_to_prop; [|split; [by apply nothing_decided|done]].
  destruct (200 <=? code) eqn:E2; bool_to_prop.
  - pose proof (view_which bm (upd (set_last code) b t)) as W. destruct (which_cancel _ _) as [bm' t2]. simpl in W.
    rewrite (proj2 (Z.eqb_neq code 100)) by lia. cbn [fst snd]. rewrite W, V.
    split; [|change (v_local (view_of t2) = v_local (view_of t)); by rewrite W].
    apply (D_final _ _ _ _ code); [simpl; lia|done|done| |done|by left]. by apply inv_alter, inv_weaken.
  - split; [|done]. cbn [fst snd]. rewrite V.
    assert (I' : inv None (v_alter (put_code code) b (view_of t))).
    { apply inv_restore; [by apply inv_weaken|]. simpl. lia. }
    destruct (code =? 100); [by apply nothing_decided|by apply D_provisional].
Qed.

(** The error path ends the transaction. *)
Lemma relay_error_ok b bm t : inv (Some b) (view_of t) ->
  let r := relay_error e bm t in inv None (view_of r.2) /\ is_local r.2 = is_local t.
Proof.
  intros I. unfold relay_error. pose proof (view_reply e 500 t (ok_build _ _ OK) (ok_shm _ _ OK)) as V.
  destruct (t_reply_unsafe e 500 t) as [z t1]. cbn [snd] in *. rewrite view_if_cancel, V. split.
  - apply (inv_done (Some b)); [|by apply inv_reply]. unfold v_reply. destruct (Z.leb_spec 200 (v_status (view_of t))); [done|simpl; lia].
  - change (v_local (view_of (if is_invite t1 then cancel_uacs e bm t1 else t1)) = v_local (view_of t)).
    rewrite view_if_cancel, V. unfold v_reply. by destruct (200 <=? _).
Qed.

Lemma chosen_ok b relay code msg t : msg_ok msg code -> relay = Z.of_nat b -> chosen b relay code msg t = Ret code.
Proof. intros Hm ->. unfold chosen. rewrite Z.eqb_refl. by destruct msg; [simpl in Hm; subst|]. Qed.

Lemma chosen_stored b relay code msg t x c : relay <> Z.of_nat b ->
  v_core (view_of t) !! Z.to_nat relay = Some x -> stored_code x = Some c -> chosen b relay code msg t = Ret c.
Proof.
  intros N Hx Hc. unfold chosen. rewrite (proj2 (Z.eqb_neq (Z.of_nat b) relay)) by lia. simpl in Hx.
  rewrite list_lookup_fmap in Hx. destruct (uac t !! Z.to_nat relay) as [u|]; [|done]. injection Hx as <-.
  unfold stored_code, core in Hc. simpl in Hc. destruct (reply u) as [[c' ra|]|]; by simplify_eq/=.
Qed.

(** A reply goes upstream. *)
Definition v_relay (code : Z) (v : view) : view :=
  View code (v_first v) (v_core v) (if 200 <=? code then v_finals v ++ [code] else v_finals v) (v_invite v) (v_local v).

Lemma view_relay code relay (fin : bool) t :
  view_of (emit (Reply_out code relay)
     (let t := set_relaied relay (set_status code (set_response true t)) in if fin then set_final_timer e t else t)) = v_relay code (view_of t).
Proof.
  cbv zeta. rewrite view_emit_eq. set (t1 := set_relaied _ _).
  assert (E : view_of (if fin then set_final_timer e t1 else t1) = view_of t1) by (destruct fin; [apply view_final_timer|done]).
  rewrite E. unfold v_emit, v_relay, view_of. simpl. destruct (200 <=? code); [done|]. by rewrite app_nil_r.
Qed.

Lemma inv_relay ex c v : inv ex v ->
  (v_status v < 200 /\ 200 <= c \/ v_status v < 200 /\ c < 200 /\ ex = None \/
   200 <= v_status v /\ 200 <= c < 300 /\ v_invite v = true) ->
  inv None (v_relay c v).
Proof.
  intros (H1 & H2 & H3) Hc. unfold v_relay. destruct (Z.leb_spec 200 c) as [L|L].
  - split; [|split]; simpl; [intros ?; simpl in *; lia|lia|].
    destruct Hc as [(Hs & _)|[(_ & Hlt & _)|(_ & Hr & Hi)]]; [by rewrite H2|lia|].
    unfold one_final in *. destruct (v_finals v) as [|f r]; simpl; [done|]. destruct H3 as [H3 _]. split; [|done].
    apply Forall_app. split; [done|]. by constructor.
  - destruct Hc as [(_ & ?)|[(Hs & _ & ->)|(_ & ? & _)]]; [lia| |lia]. split; [|split]; simpl; [|by intros _; apply H2|done].
    intros _. apply H1. done.
Qed.

Lemma store_reply_ok b msg code t ok t' :
  msg_ok msg code -> inv (Some b) (view_of t) -> (forall x, v_core (view_of t) !! b = Some x -> x.2 = code) ->
  store_reply e b msg t = (ok, t') ->
  is_local t' = is_local t /\ (if ok then inv None (view_of t') else t' = t).
Proof.
  intros Hm I Hx E.
  assert (R : inv None (view_of (upd (set_reply (Some msg)) b t))).
  { rewrite (view_alter (put_reply (Some msg))) by done. apply inv_restore; [done|]. intros _ x Hb _.
    rewrite <- (Hx x Hb) in Hm. simpl. by destruct msg; simpl in *; subst. }
  unfold store_reply in E. destruct msg; [destruct (clone_ok e)|]; injection E as <- <-; done.
Qed.

Lemma relay_out d b code msg t c :
  chosen b (d_relay d) code msg t = Ret c -> inv (Some b) (view_of t) -> inv None (v_relay c (view_of t)) ->
  returns (code ← chosen b (d_relay d) code msg t;
      if negb (build_ok e && shm_ok e) then
        Ret (relay_error e (d_bm d) (if build_ok e then set_response false t else t))
      else
        let t := set_relaied (d_relay d) (set_status code (set_response true t)) in
        let t := if decide (d_rps d = RPS_COMPLETED) then set_final_timer e t else t in
        Ret (d_rps d, d_bm d, emit (Reply_out code (d_relay d)) t))
    (fun r => inv None (view_of r.2) /\ is_local r.2 = is_local t).
Proof.
  intros -> I R. run. destruct (negb _); apply returns_ret; [by destruct (build_ok e); [apply (relay_error_ok b _ (set_response false t))|apply (relay_error_ok b)]|]. cbn [snd].
  pose proof (view_relay c (d_relay d) (bool_decide (d_rps d = RPS_COMPLETED)) t) as V. cbv zeta in V.
  match goal with |- inv None (view_of ?x) /\ _ => assert (E : view_of x = v_relay c (view_of t)) end.
  { rewrite <- V. by case_decide; [rewrite bool_decide_true|rewrite bool_decide_false]. }
  rewrite E. split; [done|].
  match goal with |- is_local ?x = _ => change (v_local (view_of x) = v_local (view_of t)) end. by rewrite E.
Qed.

Lemma relay_reply_ok b code bm msg t :
  msg_ok msg code -> inv None (view_of t) -> is_Some (uac t !! b) ->
  returns (relay_reply e msg b code bm t) (fun r => inv None (view_of r.2) /\ is_local r.2 = is_local t).
Proof.
  intros Hm I Hu. unfold relay_reply.
  destruct (should_relay_decided b code bm msg t Hm I Hu) as [D L]. destruct (t_should_relay_response _ _ _ _ _ _) as [d t1].
  cbn [fst snd] in D, L. rewrite <- L.
  destruct D as [Hr Hst I1|Hr Hst I1 Hx|Hr Hst Hc Hs I1|c Hr Hst Hs I1 Hc Hx|Hr Hst Hs Hc Hi I1]; rewrite Hst; cbn [negb].
  - rewrite (proj2 (Z.leb_gt 0 (d_relay d))) by done. apply returns_ret. cbn [snd].
    case_decide; [|done]. split; [by rewrite view_final_timer|].
    change (v_local (view_of (set_final_timer e t1)) = v_local (view_of t1)). by rewrite view_final_timer.
  - destruct (store_reply e b msg t1) as [ok t2] eqn:Es. destruct (store_reply_ok b msg code t1 ok t2 Hm I1 Hx Es) as [L2 X].
    rewrite <- L2. destruct ok; cbn [negb]; [|subst; apply returns_ret; by apply (relay_error_ok b)].
    rewrite (proj2 (Z.leb_gt 0 (d_relay d))) by done. apply returns_ret. cbn [snd].
    case_decide; [|done]. split; [by rewrite view_final_timer|].
    change (v_local (view_of (set_final_timer e t2)) = v_local (view_of t2)). by rewrite view_final_timer.
  - rewrite (proj2 (Z.leb_le 0 (d_relay d))) by lia. apply (relay_out d b code msg t1 code); [by apply chosen_ok|by apply inv_weaken|].
    apply (inv_relay None); [done|]. right. by left.
  - rewrite (proj2 (Z.leb_le 0 (d_relay d))) by lia. apply (relay_out d b code msg t1 c); [|done|apply (inv_relay (Some b)); auto].
    destruct Hx as [(Hb & ->)|(N & x & Hx & Hxc)]; [by apply chosen_ok|by apply (chosen_stored _ _ _ _ _ x)].
  - rewrite (proj2 (Z.leb_le 0 (d_relay d))) by lia. apply (relay_out d b code msg t1 code); [by apply chosen_ok|by apply inv_weaken|].
    apply (inv_relay None); auto.
Qed.

(** A local transaction: nothing goes upstream. *)
Lemma local_reply_ok b code msg t :
  loc = true -> msg_ok msg code -> inv None (view_of t) -> is_Some (uac t !! b) ->
  returns (local_reply e msg b code t) (fun r => inv None (view_of r.2) /\ is_local r.2 = is_local t).
Proof.
  intros Hl Hm I Hu. unfold local_reply.
  destruct (should_relay_decided b code 0 msg t Hm I Hu) as [D L]. destruct (t_should_relay_response _ _ _ _ _ _) as [d t1].
  cbn [fst snd] in D, L. rewrite <- L.
  assert (Out : forall c, inv (Some b) (view_of t1) -> 200 <= c \/ inv None (view_of t1) /\ v_status (view_of t1) < 200 ->
     inv None (view_of (emit (Local_out c) (set_status c t1)))).
  { intros c I1 Hc. rewrite view_emit by done. destruct I1 as (H1 & H2 & H3). split; [|split]; simpl; [|intros ?|done].
    - intros Hlt. simpl in Hlt. destruct Hc as [?|[[St _] Hs]]; [lia|]. by apply St.
    - apply H2. destruct Hc as [?|[_ Hs]]; [lia|done]. }
  destruct D as [Hr Hst I1|Hr Hst I1 Hx|Hr Hst Hc Hs I1|c Hr Hst Hs I1 Hc Hx|Hr Hst Hs Hc Hi I1]; rewrite Hst; cbn [negb].
  - rewrite (proj2 (Z.leb_gt 0 (d_relay d))) by done. by apply returns_ret.
  - destruct (store_reply e b msg t1) as [ok t2] eqn:Es. destruct (store_reply_ok b msg code t1 ok t2 Hm I1 Hx Es) as [L2 X].
    rewrite <- L2. assert (ok = true) as -> by (unfold store_reply in Es; rewrite (ok_clone _ _ OK Hl) in Es; by destruct msg; injection Es as <- _).
    cbn [negb]. rewrite (proj2 (Z.leb_gt 0 (d_relay d))) by done. by apply returns_ret.
  - rewrite (proj2 (Z.leb_le 0 (d_relay d))) by lia. rewrite (chosen_ok _ _ code) by done. run. apply returns_ret. split; [|done].
    apply Out; [by apply inv_weaken|by right].
  - rewrite (proj2 (Z.leb_le 0 (d_relay d))) by lia. apply (returns_bind _ _ (fun k => k = c)); [|intros ? ->; apply returns_ret; split; [by apply Out; [|left]|done]].
    exists c. split; [|done]. destruct Hx as [(Hb & ->)|(N & x & Hx & Hxc)]; [by apply chosen_ok|by apply (chosen_stored _ _ _ _ _ x)].
  - rewrite (proj2 (Z.leb_le 0 (d_relay d))) by lia. rewrite (chosen_ok _ _ code) by done. run. apply returns_ret. split; [|done].
    apply Out; [by apply inv_weaken|left; lia].
Qed.

(** ** Entry points *)

Lemma inv_local_same t t' : view_of t' = view_of t -> inv None (view_of t) ->
  inv None (view_of t') /\ is_local t' = is_local t.
Proof. intros E I. split; [by rewrite E|]. change (v_local (view_of t') = v_local (view_of t)). by rewrite E. Qed.

Lemma lookup_same t t' b : view_of t' = view_of t -> is_Some (uac t !! b) -> is_Some (uac t' !! b).
Proof.
  intros E. assert (core <$> uac t' = core <$> uac t) as El by (by injection E).
  assert (Hl : length (uac t') = length (uac t)) by (by rewrite <- (length_fmap core), El, length_fmap).
  rewrite !lookup_lt_is_Some. lia.
Qed.

(** The reply of either kind of transaction. *)
Lemma either_reply_ok b code bm msg t :
  loc = is_local t -> msg_ok msg code -> inv None (view_of t) -> is_Some (uac t !! b) ->
  returns (if is_local t then local_reply e msg b code t else relay_reply e msg b code bm t)
    (fun r => inv None (view_of r.2) /\ is_local r.2 = is_local t).
Proof.
  intros Hl Hm I Hu. destruct (is_local t) eqn:El; rewrite <- El; [by apply local_reply_ok|by apply relay_reply_ok].
Qed.

Lemma reply_received_ok oc dr rs ra b code t :
  loc = is_local t -> inv None (view_of t) -> is_Some (uac t !! b) ->
  returns (reply_received e oc dr rs ra b code t) (fun t' => inv None (view_of t') /\ is_local t' = is_local t).
Proof.
  intros Hl I Hu. unfold reply_received. destruct (oc && is_invite t).
  { apply returns_ret, inv_local_same; [by apply view_upd|done]. }
  cbv zeta. set (t1 := upd _ b t). assert (V1 : view_of t1 = view_of t) by (by apply view_upd).
  set (t2 := if is_invite t1 && _ then _ else t1).
  assert (V2 : view_of t2 = view_of t) by (unfold t2; destruct (is_invite t1 && _); [by rewrite view_emit|done]).
  destruct (dr && (code <? 200)); [by apply returns_ret, inv_local_same|].
  set (t3 := upd _ b t2). assert (V3 : view_of t3 = view_of t) by (unfold t3; by rewrite view_upd).
  match goal with |- context [if ?c then upd ?f b ?x else t3] => set (to_cancel := c); set (t4 := if to_cancel then upd f b x else t3) end.
  assert (V4 : view_of t4 = view_of t).
  { unfold t4. destruct to_cancel; [|done]. rewrite view_upd by done. destruct (code <? 200); [by rewrite view_cancel_branch|done]. }
  destruct (inv_local_same t t4 V4 I) as [I4 L4].
  eapply returns_bind; [apply either_reply_ok; [congruence|done|done|by apply (lookup_same t)]|].
  intros [[st bm] t5] [I5 L5]. cbn [snd] in I5, L5. rewrite L4 in L5. clear - I5 L5.
  set (t6 := if decide (st = RPS_COMPLETED) then _ else t5).
  assert (V6 : view_of t6 = view_of t5).
  { unfold t6. case_decide; [|done].
    match goal with |- view_of (if ?b then put_on_wait ?x else ?x) = _ => transitivity (view_of x); [by destruct b|] end.
    by rewrite view_if_cancel, view_cleanup. }
  destruct (inv_local_same t5 t6 V6 I5) as [I6 L6]. rewrite L5 in L6.
  case_decide; apply returns_ret; [|done]. match goal with |- context [if ?c then upd _ _ _ else _] => destruct c; [|done] end.
  match goal with |- inv None (view_of (upd ?f b t6)) /\ _ =>
    destruct (inv_local_same t6 (upd f b t6)) as [I7 L7]; [apply view_upd; intros ?; by destruct (is_invite t6)|done|] end.
  by rewrite L7.
Qed.

Lemma fake_reply_ok b code t :
  loc = is_local t -> inv None (view_of t) -> is_Some (uac t !! b) ->
  returns (fake_reply e b code t) (fun t' => inv None (view_of t') /\ is_local t' = is_local t).
Proof.
  intros Hl I [u Hu]. unfold fake_reply. rewrite Hu.
  match goal with |- context [let '(_, _) := ?m in _] =>
    assert (V : view_of m.2 = view_of t); [|destruct m as [c t1]] end.
  { destruct (is_invite t); [|done]. pose proof (core_should_cancel u) as Hc. destruct (should_cancel_branch u) as [c u'].
    cbn [snd] in *. unfold view_of, upd. simpl. f_equal. apply list_eq. intros i. rewrite !list_lookup_fmap.
    destruct (decide (i = b)) as [->|N]; [rewrite list_lookup_alter_eq, Hu; simpl; by rewrite Hc|by rewrite list_lookup_alter_ne]. }
  cbn [snd] in V. destruct (inv_local_same t t1 V I) as [I1 L1].
  assert (Hu1 : is_Some (uac t1 !! b)) by (by apply (lookup_same t)).
  apply (returns_bind _ _ (fun t' => inv None (view_of t') /\ is_local t' = is_local t)).
  - destruct (is_local t1) eqn:El.
    + eapply returns_bind; [apply local_reply_ok; [congruence|done|done|done]|]. intros [[st bm] t2] [I2 L2]. cbn [snd] in *.
      apply returns_ret. rewrite <- L1, <- El, <- L2. by case_decide.
    + eapply returns_bind; [by apply relay_reply_ok|]. intros [[st bm] t2] [I2 L2]. apply returns_ret. cbn [snd] in *.
      by rewrite <- L1, <- El, <- L2.
  - intros t2 [I2 L2]. apply returns_ret. destruct c; [|done]. rewrite <- L2. apply inv_local_same; [apply view_cancel_branch|done].
Qed.

Lemma cancel_silent_ok bm bs : forall t, loc = is_local t -> inv None (view_of t) ->
  returns (cancel_silent e bm bs t) (fun t' => inv None (view_of t') /\ is_local t' = is_local t).
Proof.
  induction bs as [|b bs IH]; intros t Hl I; cbn [cancel_silent]; [by apply returns_ret|].
  destruct (uac t !! b) as [u|] eqn:Hu; cbv zeta; [|by apply IH]. destruct (last_received u =? 0); [|by apply IH].
  set (t1 := upd _ b t). assert (V : view_of t1 = view_of t) by (by apply view_upd).
  destruct (inv_local_same t t1 V I) as [I1 L1].
  eapply returns_bind; [apply relay_reply_ok; [done|done|by apply (lookup_same t)]|].
  intros [[st bm'] t2] [I2 L2]. cbn [snd] in I2, L2. rewrite L1 in L2. rewrite <- L2. apply IH; [congruence|done].
Qed.

Lemma cancel_invite_ok bm t : loc = is_local t -> inv None (view_of t) ->
  returns (cancel_invite e bm t) (fun t' => inv None (view_of t') /\ is_local t' = is_local t).
Proof.
  intros Hl I. unfold cancel_invite. cbv zeta. set (t1 := set_t_flags _ t).
  assert (V1 : view_of t1 = view_of t) by (by apply view_flags).
  pose proof (view_which 0 t1) as V2. destruct (which_cancel 0 t1) as [c t2]. cbn [snd] in V2.
  assert (V3 : view_of (cancel_uacs e c t2) = view_of t) by (by rewrite view_cancel_uacs, V2).
  destruct (inv_local_same _ _ V3 I) as [I3 L3]. rewrite <- L3. apply cancel_silent_ok; [congruence|done].
Qed.

End Relay.

(** ** Runs *)

(** What happens to a transaction. *)
Inductive action : Type :=
| A_reply (of_cancel drop restart_fr retry_after : bool) (b : nat) (code : Z)
| A_final (b : nat)
| A_retransmission (sent : bool) (b : nat)
| A_cancel_final (b : nat)
| A_cancel_retransmission (sent : bool) (b : nat)
| A_no_ack
| A_cancel (bm : Z)
| A_send_reply (code : Z)
| A_forward (l : list (option bool))
| A_on_negative (n : Z).

Definition perform (e : env) (a : action) (t : cell) : res cell :=
  match a with
  | A_reply oc dr rs ra b code => reply_received e oc dr rs ra b code t
  | A_final b => final_response_handler e b t
  | A_retransmission sent b => retransmission_handler e sent b t
  | A_cancel_final b => Ret (cancel_timeout b t)
  | A_cancel_retransmission sent b => cancel_retransmission e sent b t
  | A_no_ack => Ret (response_timeout t)
  | A_cancel bm => cancel_invite e bm t
  | A_send_reply code => Ret (t_reply_unsafe e code t).2
  | A_forward l => Ret (t_forward_nonack e l t).2
  | A_on_negative n => Ret (set_on_negative n t)
  end.

(** Replies are matched to a branch there is, timers fire when they run. *)
Definition enabled (a : action) (t : cell) : bool :=
  match a with
  | A_reply _ _ _ _ b _ => (b <? nr_of_outgoings t)%nat
  | A_final b => match uac t !! b with Some u => fr_timer u | None => false end
  | A_retransmission _ b => match uac t !! b with Some u => retr_timer u | None => false end
  | A_cancel_final b => match uac t !! b with Some u => c_fr u | None => false end
  | A_cancel_retransmission _ b => match uac t !! b with Some u => c_retr u | None => false end
  | A_no_ack => r_fr t
  | _ => true
  end.

Definition started (t : cell) : Prop := uac t = [] /\ status t = 0 /\ out t = [].

Inductive reach : cell -> Prop :=
| r_start t : started t -> reach t
| r_step e a t t' : reach t -> env_ok e (is_local t) -> enabled a t = true -> perform e a t = Ret t' -> reach t'.

Lemma enabled_timer b (f : ua_client -> bool) t :
  match uac t !! b with Some u => f u | None => false end = true -> is_Some (uac t !! b).
Proof. destruct (uac t !! b); [by eexists|done]. Qed.

Lemma perform_ok e a t : env_ok e (is_local t) -> inv None (view_of t) -> enabled a t = true ->
  returns (perform e a t) (fun t' => inv None (view_of t')).
Proof.
  intros OK I En.
  assert (Fake : forall f b code, (forall u, core (f u) = core u) -> is_Some (uac t !! b) ->
    returns (fake_reply e b code (upd f b t)) (fun t' => inv None (view_of t'))).
  { intros f b code Hf Hu. assert (V : view_of (upd f b t) = view_of t) by (by apply view_upd).
    eapply returns_impl; [apply (fake_reply_ok e (is_local t) OK); [done|by rewrite V|by apply (lookup_same t)]|]. by intros ? [? _]. }
  destruct a as [oc dr rs ra b code|b|sent b|b|sent b| |bm|code|l|n]; cbn [perform enabled] in *.
  - apply Nat.ltb_lt, lookup_lt_is_Some in En. eapply returns_impl; [by apply (reply_received_ok e (is_local t) OK)|]. by intros ? [? _].
  - unfold final_response_handler. cbv zeta. apply enabled_timer in En.
    match goal with |- context [if ?c then _ else _] => destruct c end; [|by apply Fake].
    apply returns_ret. by rewrite view_put_on_wait, view_upd.
  - apply enabled_timer in En. unfold retransmission_handler. destruct sent; [|by apply Fake]. apply returns_ret. by rewrite view_upd.
  - apply returns_ret. unfold cancel_timeout. by rewrite view_upd.
  - apply enabled_timer in En. unfold cancel_retransmission. destruct sent; [|by apply Fake]. apply returns_ret. by rewrite view_upd.
  - by apply returns_ret.
  - eapply returns_impl; [by apply (cancel_invite_ok e (is_local t) OK)|]. by intros ? [? _].
  - apply returns_ret. by destruct (hstep_inv e _ OK t _ (h_reply e t code) I).
  - apply returns_ret. by destruct (hstep_inv e _ OK t _ (h_forward e t l) I).
  - by apply returns_ret.
Qed.

Lemma reach_inv t : reach t -> inv None (view_of t).
Proof.
  induction 1 as [t (Hu & Hs & Ho)|e a t t' _ IH OK En E].
  - unfold view_of. rewrite Hu, Ho. split; [|by split]. intros _ n x Hn. done.
  - destruct (perform_ok e a t OK IH En) as (t2 & E2 & I2). congruence.
Qed.

(** C9: Whatever replies, timers and CANCELs come for a transaction and whatever the script
    and its failure routes do, the code returns: [relay_reply] never takes the reply of a branch
    that has none stored. This is for runs in which an error reply can be built and has memory,
    and replies to a local transaction can be copied ([env_ok]); received replies and relayed
    ones may fail to be copied and built. Where error replies cannot be made either,
    [no_memory_null_reply] shows a null pointer used. *)
Theorem relay_finds_reply e a t :
  reach t -> env_ok e (is_local t) -> enabled a t = true -> exists t', perform e a t = Ret t'.
Proof. intros R OK En. destruct (perform_ok e a t OK (reach_inv t R) En) as (t' & E & _). by exists t'. Qed.

(** C10: A transaction with a provisional status has sent no final reply upstream, and one
    that has sent a final reply sends no other, except for the 2xx of an INVITE. *)
Theorem one_final_upstream t : reach t ->
  (status t < 200 -> finals (out t) = []) /\
  forall c r, finals (out t) = c :: r -> Forall (fun c' => 200 <= c' < 300) r /\ (r <> [] -> is_invite t = true).
Proof.
  intros R. destruct (reach_inv t R) as (_ & H2 & H3). split; [exact H2|]. intros c r E. simpl in H3. by rewrite E in H3.
Qed.

(** ** Concrete runs *)

(** Everything works, there is no failure route, and requests go over UDP. *)
Definition plain : env :=
  Env true true true true true true true true true false 0 false None (fun _ t => t) None.

Lemma plain_ok loc : env_ok plain loc.
Proof. by constructor. Qed.

(** Memory is short: neither a copy of the reply nor an error reply can be made. *)
Definition starved : env :=
  Env false true true false true true true true true false 0 false None (fun _ t => t) None.

Definition invite_cell : cell := cell_of [].

Fixpoint performs (l : list (env * action)) (t : cell) : res cell :=
  match l with
  | [] => Ret t
  | (e, a) :: l' => t ← perform e a t; performs l' t
  end.

Definition reply_to (b : nat) (code : Z) : action := A_reply false false false false b code.

(** A run whose actions are enabled, in an environment where all works. *)
Fixpoint runs (l : list action) (t : cell) : bool :=
  match l with
  | [] => true
  | a :: l' => enabled a t && match perform plain a t with Ret t' => runs l' t' | Fault _ => false end
  end.

Lemma runs_reach l : forall t, reach t -> runs l t = true -> exists t', performs (pair plain <$> l) t = Ret t' /\ reach t'.
Proof.
  induction l as [|a l IH]; intros t R H; [by exists t|]. cbn [runs] in H. apply andb_true_iff in H as [En H].
  csimpl. destruct (perform plain a t) as [t1|] eqn:E; [|done]. run. apply IH; [|done].
  by apply (r_step plain a t); [|apply plain_ok| |].
Qed.

(** Two branches, one answers 486, the other 404. *)
Definition busy_run : list action := [A_forward [Some true; Some true]; reply_to 0 486; reply_to 1 404].

Lemma relay_finds_reply_witness :
  exists t', performs (pair plain <$> busy_run) invite_cell = Ret t' /\ enabled (reply_to 0 200) t' = true /\
  exists t'', perform plain (reply_to 0 200) t' = Ret t''.
Proof.
  destruct (runs_reach busy_run invite_cell) as (t' & E & R); [by apply r_start|by vm_compute|].
  exists t'. split; [done|]. assert (En : enabled (reply_to 0 200) t' = true) by (vm_compute in E; by injection E as <-).
  split; [done|]. apply (relay_finds_reply plain (reply_to 0 200) t'); [done|apply plain_ok|done].
Defined.

(** 404 goes upstream, then a late 200 of the other branch. *)
Definition late_run : list action :=
  [A_forward [Some true; Some true]; reply_to 0 180; reply_to 0 486; reply_to 1 404; reply_to 1 200; reply_to 0 200].

Lemma one_final_upstream_witness :
  exists t', performs (pair plain <$> late_run) invite_cell = Ret t' /\ finals (out t') = [404; 200; 200] /\
  Forall (fun c => 200 <= c < 300) [200; 200] /\ is_invite t' = true.
Proof.
  destruct (runs_reach late_run invite_cell) as (t' & E & R); [by apply r_start|by vm_compute|].
  exists t'. split; [done|]. assert (F : finals (out t') = [404; 200; 200]) by (vm_compute in E; by injection E as <-).
  split; [done|]. destruct (one_final_upstream t' R) as [_ H]. destruct (H _ _ F) as [H1 H2]. split; [done|]. by apply H2.
Defined.

(** When memory is so short that neither the reply of a branch can be copied nor an
    error reply built, the branch is left finished without a stored reply; a later worse
    reply of another branch then makes [relay_reply] use the missing one. *)
Theorem no_memory_null_reply :
  performs [(plain, A_forward [Some true; Some true]); (starved, reply_to 0 486); (plain, reply_to 1 500)] invite_cell
    = Fault NullDeref.
Proof. by vm_compute. Qed.

(** *** A branch that was never sent *)

(** A branch of the fork that waits for a reply and has no timer, in a transaction that has
    sent no final reply. *)
Record stuck (j : nat) (t : cell) : Prop := {
  sk_local : is_local t = false;
  sk_status : status t < 200;
  sk_wait : wait t = false;
  sk_fr : r_fr t = false;
  sk_first : (first_branch t <= j)%nat;
  sk_branch : exists u, uac t !! j = Some u /\ buffer u = true /\ last_received u < 200 /\
    fr_timer u = false /\ retr_timer u = false /\ c_fr u = false /\ c_retr u = false
}.

(** What changes while it waits: other branches, provisional replies, ACKs and CANCELs. *)
Record kept (j : nat) (t t' : cell) : Prop := {
  kp_flags : t_flags t' = t_flags t;
  kp_status : status t < 200 -> status t' < 200;
  kp_wait : wait t' = wait t;
  kp_fr : r_fr t' = r_fr t;
  kp_first : first_branch t' = first_branch t;
  kp_branch : uac t' !! j = uac t !! j;
  kp_finals : finals (out t') = finals (out t)
}.

#[local] Instance kept_preorder j : PreOrder (kept j).
Proof.
  split; [by constructor|]. intros t1 t2 t3 [] []. constructor; [congruence|auto|congruence..].
Qed.

Lemma stuck_kept j t t' : stuck j t -> kept j t t' -> stuck j t'.
Proof.
  intros [S1 S2 S3 S4 S5 S6] [K1 K2 K3 K4 K5 K6 _].
  constructor; [unfold is_local in *; by rewrite K1|by apply K2|congruence|congruence|by rewrite K5|by rewrite K6].
Qed.

Lemma kept_upd j g b t : b <> j -> kept j t (upd g b t).
Proof. intros Hb. constructor; try done. simpl. by apply list_lookup_alter_ne. Qed.

Lemma kept_emit j x t : finals [x] = [] -> kept j t (emit x t).
Proof. intros Hx. constructor; try done. simpl. by rewrite finals_app, Hx, app_nil_r. Qed.

Lemma kept_cancel e j b t : b <> j -> kept j t (cancel_branch e b t).
Proof.
  intros Hb. unfold cancel_branch. case_match; [|done]. etrans; [|by apply kept_emit]. by apply kept_upd.
Qed.

Lemma kept_if j (c : bool) t t' : kept j t t' -> kept j t (if c then t' else t).
Proof. by destruct c. Qed.

Lemma pick_loop_waits c first l : forall i j u b s,
  l !! j = Some u -> (first <= i + j)%nat -> buffer u = true -> last_received u < 200 ->
  (pick_loop c first i l b s).1 = -2.
Proof.
  induction l as [|v l IH]; intros i j u b s Hj Hf Hb Hr; [done|]. cbn [pick_loop]. destruct j as [|j].
  - injection Hj as ->. rewrite Hb, (proj2 (Nat.ltb_ge i first)) by lia. simpl.
    by rewrite (proj2 (Z.ltb_lt _ _) Hr).
  - assert (H : forall b s, (pick_loop c first (S i) l b s).1 = -2) by (intros; by apply (IH (S i) j u); [|lia|..]).
    repeat case_match; done || apply H.
Qed.

Lemma stuck_pick j t : stuck j t -> (t_pick_branch t).1 = -2.
Proof. intros [_ _ _ _ Hf (u & Hu & Hb & Hr & _)]. by apply (pick_loop_waits _ _ _ 0 j u). Qed.

(** Replies can be copied and built. *)
Definition replies_ok (e : env) : Prop := clone_ok e = true /\ build_ok e = true /\ shm_ok e = true.

Lemma relay_stuck e j msg b code bm t :
  replies_ok e -> stuck j t -> b <> j -> 100 <= code < 200 \/ 300 <= code < 600 ->
  (forall c ra, msg = Real c ra -> c = code) ->
  exists st bm' t', relay_reply e msg b code bm t = Ret (st, bm', t') /\ kept j t t' /\ st <> RPS_COMPLETED.
Proof.
  intros (E1 & E2 & E3) S Hb Hc Hm. unfold relay_reply, t_should_relay_response. cbv zeta.
  rewrite (proj2 (Z.leb_gt 200 (status t)) (sk_status _ _ S)).
  match goal with |- context [(200 <=? ?l) && negb ?c] => destruct ((200 <=? l) && negb c) end; [by do 3 eexists|]. destruct (Z.leb_spec 300 code) as [H3|H3].
  - rewrite (proj2 (Z.leb_gt 600 code)) by lia. set (t1 := upd _ b t).
    assert (K : kept j t t1) by (by apply kept_upd). pose proof (stuck_pick j t1 (stuck_kept j t t1 S K)) as P.
    destruct (t_pick_branch t1) as [p lo]. simpl in P. subst p. simpl. unfold store_reply.
    assert (Kr : kept j t (upd (set_reply (Some msg)) b (upd (set_reply None) b t1)))
      by (do 2 (etrans; [|by apply kept_upd]); done).
    destruct msg; rewrite ?E1; simpl; do 3 eexists; (split; [done|]); by split.
  - rewrite (proj2 (Z.leb_le 100 code)), (proj2 (Z.leb_gt 200 code)) by lia. simpl. rewrite E2, E3. unfold chosen.
    set (t1 := upd (set_last code) b t). assert (K : kept j t t1) by (by apply kept_upd).
    destruct (code =? 100); simpl; [do 3 eexists; split; [done|]; by split|].
    rewrite (proj2 (Z.leb_le 0 (Z.of_nat b))), Z.eqb_refl by lia. run.
    set (c := match msg with Real c _ => c | FAKED_REPLY => code end).
    assert (Ec : c = code) by (unfold c; destruct msg; [by eapply Hm|done]). rewrite Ec.
    do 3 eexists. split; [done|]. split; [|done]. etrans; [exact K|]. constructor; try done; [simpl; lia|].
    simpl. rewrite finals_app. simpl. rewrite (proj2 (Z.leb_gt 200 code)) by lia. by rewrite app_nil_r.
Qed.

Lemma reply_stuck e j oc dr rs ra b code t :
  replies_ok e -> stuck j t -> b <> j -> 100 <= code < 200 \/ 300 <= code < 600 ->
  exists t', reply_received e oc dr rs ra b code t = Ret t' /\ kept j t t'.
Proof.
  intros OK S Hb Hc. unfold reply_received. cbv zeta. destruct (oc && is_invite t).
  { eexists. split; [done|]. by apply kept_upd. }
  set (t1 := upd _ b t). assert (K1 : kept j t t1) by (by apply kept_upd).
  match goal with |- context [if ?c then emit (Ack_out b) t1 else t1] => set (t2 := if c then emit (Ack_out b) t1 else t1) end.
  assert (K2 : kept j t t2) by (etrans; [exact K1|]; apply kept_if; by apply kept_emit).
  destruct (dr && (code <? 200)); [by exists t2|].
  match goal with |- context [upd (fun u => set_u_flags (Z.lor _ _) u) b t2] => set (t3 := upd (fun u => set_u_flags (Z.lor _ _) u) b t2) end.
  assert (K3 : kept j t t3) by (etrans; [exact K2|]; by apply kept_upd).
  match goal with |- context [is_local ?x] => lazymatch x with context [cancel_branch] => set (t4 := x) end end.
  assert (K4 : kept j t t4).
  { etrans; [exact K3|]. apply kept_if. etrans; [|by apply kept_upd]. apply kept_if. by apply kept_cancel. }
  clearbody t4. pose proof (stuck_kept j t t4 S K4) as S4. rewrite (sk_local _ _ S4).
  destruct (relay_stuck e j (Real code ra) b code 0 t4 OK S4 Hb Hc) as (st & bm & t5 & -> & K5 & N); [by intros ? ? [= -> _]|].
  run. destruct (decide (st = RPS_COMPLETED)); [done|]. assert (K : kept j t t5) by (by etrans).
  case_match; eexists; (split; [done|]); [|done]. etrans; [exact K|]. apply kept_if. by apply kept_upd.
Qed.

Lemma fake_stuck e j b code t :
  replies_ok e -> stuck j t -> b <> j -> 300 <= code < 600 ->
  exists t', fake_reply e b code t = Ret t' /\ kept j t t'.
Proof.
  intros OK S Hb Hc. unfold fake_reply.
  match goal with |- context [let '(_, _) := ?m in _] => assert (K : kept j t m.2); [|destruct m as [c t1]] end.
  { destruct (is_invite t); [|done]. destruct (uac t !! b) as [u|]; [|done]. destruct (should_cancel_branch u) as [c u'].
    by apply kept_upd. }
  simpl in K. pose proof (stuck_kept j t t1 S K) as S1. rewrite (sk_local _ _ S1).
  destruct (relay_stuck e j FAKED_REPLY b code (if c then Z.shiftl 1 (Z.of_nat b) else 0) t1 OK S1 Hb)
    as (st & bm & t2 & -> & K2 & _); [by right|done|].
  run. eexists. split; [done|]. etrans; [exact K|]. etrans; [exact K2|]. apply kept_if. by apply kept_cancel.
Qed.

(** What may happen while the branch waits: provisional and negative replies of other
    branches below 600, and timers. *)
Definition leaves (j : nat) (a : action) : Prop :=
  match a with
  | A_reply _ _ _ _ b code => b <> j /\ (100 <= code < 200 \/ 300 <= code < 600)
  | A_cancel _ | A_send_reply _ | A_forward _ => False
  | _ => True
  end.

Lemma stuck_timer j b (f : ua_client -> bool) t :
  match uac t !! b with Some u => f u | None => false end = true ->
  (forall u, uac t !! j = Some u -> f u = false) -> b <> j.
Proof. intros En Hf ->. destruct (uac t !! j) as [u|]; [|done]. by rewrite (Hf u eq_refl) in En. Qed.

Lemma perform_stuck e j a t :
  replies_ok e -> stuck j t -> enabled a t = true -> leaves j a -> exists t', perform e a t = Ret t' /\ kept j t t'.
Proof.
  intros OK S En L. pose proof (sk_branch _ _ S) as (u & Hu & _ & _ & U1 & U2 & U3 & U4).
  assert (Hj : forall b (f : ua_client -> bool), match uac t !! b with Some u => f u | None => false end = true -> f u = false -> b <> j).
  { intros b f E Ef. apply (stuck_timer j b f t E). intros v Hv. congruence. }
  assert (Off : forall b g code, b <> j -> 300 <= code < 600 -> exists t', fake_reply e b code (upd g b t) = Ret t' /\ kept j t t').
  { intros b g code Hb Hc. pose proof (kept_upd j g b t Hb) as K.
    destruct (fake_stuck e j b code _ OK (stuck_kept _ _ _ S K) Hb Hc) as (t' & E & K'). exists t'. split; [done|by etrans]. }
  destruct a as [oc dr rs ra b code|b|sent b|b|sent b| |bm|code|l|n]; cbn [perform enabled leaves] in *; try done.
  - destruct L as [Hb Hc]. by apply reply_stuck.
  - specialize (Hj b _ En U1). unfold final_response_handler. cbv zeta.
    assert (Hn : (nr_of_outgoings (upd (set_timers false false) b t) =? 1)%nat = false).
    { apply Nat.eqb_neq. unfold nr_of_outgoings. simpl. rewrite length_alter. destruct (uac t !! b) as [v|] eqn:Hb; [|done].
      apply lookup_lt_Some in Hb, Hu. lia. }
    rewrite Hn, andb_false_r. simpl. apply Off; [done|lia].
  - specialize (Hj b _ En U2). unfold retransmission_handler. destruct sent; [|apply Off; [done|lia]].
    eexists. split; [done|by apply kept_upd].
  - specialize (Hj b _ En U3). eexists. split; [done|by apply kept_upd].
  - specialize (Hj b _ En U4). unfold cancel_retransmission. destruct sent; [|apply Off; [done|lia]].
    eexists. split; [done|by apply kept_upd].
  - by rewrite (sk_fr _ _ S) in En.
  - eexists. split; [done|]. by constructor.
Qed.

(** Any number of them. *)
Inductive waits (j : nat) : cell -> cell -> Prop :=
| waits_none t : waits j t t
| waits_step e a t t1 t2 : replies_ok e -> enabled a t = true -> leaves j a -> perform e a t = Ret t1 ->
    waits j t1 t2 -> waits j t t2.

Lemma waits_kept j t t' : waits j t t' -> stuck j t -> kept j t t'.
Proof.
  induction 1 as [|e a t t1 t2 OK En L E _ IH]; [done|]. intros S.
  destruct (perform_stuck e j a t OK S En L) as (t1' & E' & K). rewrite E in E'. injection E' as <-.
  etrans; [exact K|]. apply IH. by apply (stuck_kept j t).
Qed.

(** The branches that are made for a list of destinations. *)
Definition made (l : list (option bool)) : nat := length (List.filter (fun x => bool_decide (is_Some x)) l).

Lemma add_uacs_app e l1 l2 t : add_uacs e (l1 ++ l2) t = add_uacs e l2 (add_uacs e l1 t).
Proof. revert t. induction l1 as [|[s|] l1 IH]; intros t; [done|apply IH|apply IH]. Qed.

Lemma add_uacs_kept e l j : forall t, is_Some (uac t !! j) -> kept j t (add_uacs e l t).
Proof.
  induction l as [|[s|] l IH]; intros t Hj; [done| |by apply IH]. cbn [add_uacs]. case_match; [|by apply IH].
  match goal with |- kept _ _ (add_uacs _ _ ?x) => assert (K : kept j t x) end.
  { constructor; try done. simpl. by rewrite lookup_app_l by (by apply lookup_lt_is_Some). }
  etrans; [exact K|]. apply IH. by rewrite (kp_branch _ _ _ K).
Qed.

Lemma add_uacs_length e l : forall t, (nr_of_outgoings t + made l <= MAX_BRANCHES)%nat ->
  let t' := add_uacs e l t in
  nr_of_outgoings t' = (nr_of_outgoings t + made l)%nat /\ t_flags t' = t_flags t /\ status t' = status t /\
  wait t' = wait t /\ r_fr t' = r_fr t /\ first_branch t' = first_branch t.
Proof.
  induction l as [|[s|] l IH]; intros t Hn; [by rewrite Nat.add_0_r| |by apply IH]. unfold made in Hn. simpl in Hn. fold (made l) in Hn.
  cbn [add_uacs]. rewrite (proj2 (Nat.ltb_lt _ _)) by lia. cbv zeta.
  set (u := set_uac _ t). assert (Hu : nr_of_outgoings u = S (nr_of_outgoings t))
    by (unfold nr_of_outgoings; simpl; rewrite length_app; simpl; lia).
  destruct (IH u) as (-> & -> & -> & -> & -> & ->); [lia|]. split; [|done]. rewrite Hu. unfold made. simpl. lia.
Qed.

Lemma forward_stuck e l1 l2 t :
  started t -> is_local t = false -> wait t = false -> r_fr t = false ->
  was_cancelled t || no_new_branches t = false -> (made l1 < MAX_BRANCHES)%nat ->
  stuck (made l1) (t_forward_nonack e (l1 ++ Some false :: l2) t).2.
Proof.
  intros (Hu & Hs & Ho) Hl Hw Hr Hc Hn. unfold t_forward_nonack. rewrite Hc, add_uacs_app. cbn [snd add_uacs].
  assert (E0 : nr_of_outgoings t = 0%nat) by (unfold nr_of_outgoings; by rewrite Hu).
  destruct (add_uacs_length e l1 (set_first (nr_of_outgoings t) t)) as (A1 & A2 & A3 & A4 & A5 & A6).
  { change (nr_of_outgoings (set_first (nr_of_outgoings t) t)) with (nr_of_outgoings t). lia. }
  set (t1 := add_uacs e l1 _) in *. change (nr_of_outgoings (set_first (nr_of_outgoings t) t)) with (nr_of_outgoings t) in A1.
  rewrite E0 in *. simpl in A1, A2, A3, A4, A5, A6. rewrite A1, (proj2 (Nat.ltb_lt _ _)) by lia.
  match goal with |- stuck _ (add_uacs e l2 ?x) => set (t2 := x) end.
  assert (L : uac t2 !! made l1 = Some (new_uac e (negb (flag (t_flags t1) T_NO_DNS_FAILOVER_FLAG)) false)).
  { simpl. rewrite lookup_app_r by (unfold nr_of_outgoings in A1; lia). unfold nr_of_outgoings in A1. by rewrite A1, Nat.sub_diag. }
  apply (stuck_kept _ t2); [|apply add_uacs_kept; by eexists].
  constructor; [unfold is_local in *; simpl; by rewrite A2|simpl; lia|simpl; congruence|simpl; congruence|simpl; lia|].
  eexists. split; [exact L|]. done.
Qed.

(** C40: A branch of a forked request whose first send fails stays in the fork without a
    timer, and keeps the transaction from ending: whatever provisional and negative replies
    below 600 the other branches get and whichever timers hit, in any number, each is
    handled, no final reply goes upstream, the transaction is not put on the wait timer and
    the branch has no timer.  (What ends it: a 2xx or 6xx of another branch, a reply of the
    branch itself, a CANCEL, or the script.  Replies can be copied and built.) *)
Theorem failed_send_hangs e l1 l2 t :
  started t -> is_local t = false -> wait t = false -> r_fr t = false ->
  was_cancelled t || no_new_branches t = false -> (made l1 < MAX_BRANCHES)%nat ->
  forall t', waits (made l1) (t_forward_nonack e (l1 ++ Some false :: l2) t).2 t' ->
    stuck (made l1) t' /\ finals (out t') = [] /\
    forall e' a, replies_ok e' -> enabled a t' = true -> leaves (made l1) a -> exists t'', perform e' a t' = Ret t''.
Proof.
  intros Hst Hl Hw Hr Hc Hn t' W. pose proof (forward_stuck e l1 l2 t Hst Hl Hw Hr Hc Hn) as S.
  pose proof (waits_kept _ _ _ W S) as K. pose proof (stuck_kept _ _ _ S K) as S'. split; [done|]. split.
  - rewrite (kp_finals _ _ _ K). destruct Hst as (_ & _ & Ho). unfold t_forward_nonack. rewrite Hc. cbn [snd].
    enough (out (add_uacs e (l1 ++ Some false :: l2) (set_first (nr_of_outgoings t) t)) = out t) as -> by (by rewrite Ho).
    generalize (l1 ++ Some false :: l2). intros l. change (out t) with (out (set_first (nr_of_outgoings t) t)).
    generalize (set_first (nr_of_outgoings t) t). induction l as [|[b|] l IH]; intros x; [done| |by apply IH].
    cbn [add_uacs]. rewrite IH. by case_match.
  - intros e' a OK En L. destruct (perform_stuck e' _ a t' OK S' En L) as (t'' & E & _). by exists t''.
Qed.

(** Two branches, the second not sent: the first one rings and is busy.  No timer is left. *)
Lemma failed_send_hangs_witness :
  exists t, performs (pair plain <$> [A_forward [Some true; Some false]; reply_to 0 180; reply_to 0 486]) invite_cell = Ret t /\
  finals (out t) = [] /\ wait t = false /\ r_fr t = false /\
  existsb (fun u => fr_timer u || retr_timer u || c_fr u || c_retr u) (uac t) = false.
Proof.
  eexists. split; [by vm_compute|].
  match goal with |- finals (out ?x) = _ /\ _ => destruct (failed_send_hangs plain [Some true] [] invite_cell) with (t' := x) as (S & F & _) end;
    [done|done|done|done|done|vm_compute; lia| |].
  - eapply (waits_step _ plain (reply_to 0 180)); [done|by vm_compute|split; [done|by left]|by vm_compute|].
    eapply (waits_step _ plain (reply_to 0 486)); [done|by vm_compute|split; [done|by right]|by vm_compute|]. apply waits_none.
  - split; [done|]. split; [apply S|]. split; [apply S|by vm_compute].
Defined.

End TmSafety.
