(* ===== verification/TmLive.v ===== *)
(** * Transactions: they end

    A proxied transaction whose requests could be sent always has a timer running that
    will end it: a branch without a final reply has its final response timer, and once a
    final reply has gone upstream the timer for the ACK or the wait timer runs.  When
    nothing comes any more, the timers fire finitely often and leave the transaction on
    the wait timer, which deletes it. *)

From Stdlib Require Import ZArith Lia List Bool.
From stdpp Require Import base tactics option list relations.
From S2P Require Import Prelude TmReply TmSafety.

Module TmLive.
Import TmReply TmSafety.

(** ** What time can change *)

Fixpoint running (l : list ua_client) : nat :=
  match l with
  | [] => 0
  | u :: l' => (if fr_timer u then 1 else 0) + running l'
  end.

(** What is left to wait for: branches that may still be added, timers of branches. *)
Definition budget (t : cell) : nat := 3 * (MAX_BRANCHES - nr_of_outgoings t) + 2 * running (uac t).

(** On the wait timer, or waiting for the ACK. *)
Definition closing (t : cell) : bool := wait t || r_fr t.

(** Nothing reopens a transaction, and what it adds it has the budget for. *)
Record later (t t' : cell) : Prop := Later {
  later_closing : closing t = true -> closing t' = true;
  later_local : is_local t' = is_local t;
  later_hbh : is_hopbyhop_cancel t' = is_hopbyhop_cancel t;
  later_nr : (nr_of_outgoings t <= nr_of_outgoings t')%nat;
  later_budget : (budget t' <= budget t)%nat
}.

#[export] Instance later_refl : Reflexive later.
Proof. intros t. by constructor. Qed.

#[export] Instance later_trans : Transitive later.
Proof. intros t1 t2 t3 [] []. constructor; [auto|congruence|congruence|lia|lia]. Qed.

Lemma running_app l1 l2 : running (l1 ++ l2) = (running l1 + running l2)%nat.
Proof. induction l1; simpl; lia. Qed.

(** Changes of the branches that start no timer. *)
Lemma later_uac l t : length l = length (uac t) ->
  (forall i u', l !! i = Some u' -> fr_timer u' = true -> exists u, uac t !! i = Some u /\ fr_timer u = true) ->
  later t (set_uac l t).
Proof.
  intros Hl Hf. constructor; try done; unfold budget, nr_of_outgoings; simpl; [lia|].
  rewrite Hl. enough (running l <= running (uac t))%nat by lia. clear - Hl Hf. revert Hl Hf. generalize (uac t). clear t.
  induction l as [|u' l IH]; intros [|u l0] Hl Hf; simpl in *; [lia|lia|lia|].
  assert (running l <= running l0)%nat by (apply IH; [lia|intros i x Hi; by apply (Hf (S i) x)]).
  destruct (fr_timer u') eqn:E; [|lia]. destruct (Hf 0%nat u' eq_refl E) as (x & [= ->] & ->). lia.
Qed.

Lemma later_upd f b t : (forall u, fr_timer (f u) = true -> fr_timer u = true) -> later t (upd f b t).
Proof.
  intros Hf. apply later_uac; [apply length_alter|]. intros i u'. destruct (decide (i = b)) as [->|N].
  - rewrite list_lookup_alter_eq. destruct (uac t !! b) as [u|]; [|done]. intros [= <-] H. exists u. auto.
  - rewrite list_lookup_alter_ne by done. intros Hu H. by exists u'.
Qed.

Lemma later_emit x t : later t (emit x t).
Proof. by constructor. Qed.

Lemma later_flags x t : flag x T_IS_LOCAL_FLAG = false -> flag x T_HOPBYHOP_CANCEL_FLAG = false ->
  later t (set_t_flags (Z.lor (t_flags t) x) t).
Proof.
  intros H1 H2. constructor; try done; unfold is_local, is_hopbyhop_cancel; simpl; by rewrite flag_lor, ?H1, ?H2, orb_false_r.
Qed.

Lemma later_on_negative n t : later t (set_on_negative n t).
Proof. by constructor. Qed.

Lemma later_put_on_wait t : later t (put_on_wait t).
Proof. by constructor. Qed.

Lemma fr_should_cancel u : fr_timer (should_cancel_branch u).2 = fr_timer u.
Proof. unfold should_cancel_branch. repeat case_match; done. Qed.

Lemma which_loop_fr first l : forall i bm, fr_timer <$> (which_cancel_loop first i l bm).1 = fr_timer <$> l.
Proof.
  induction l as [|u l IH]; intros i bm; [done|]. cbn [which_cancel_loop]. destruct (i <? first)%nat.
  - specialize (IH (S i) bm). destruct (which_cancel_loop _ _ _ _). csimpl in *. by rewrite IH.
  - pose proof (fr_should_cancel u) as Hu. destruct (should_cancel_branch u) as [b u'].
    match goal with |- context [which_cancel_loop _ _ _ ?x] => specialize (IH (S i) x) end.
    destruct (which_cancel_loop _ _ _ _). csimpl in *. by rewrite IH, Hu.
Qed.

Lemma later_which bm t : later t (which_cancel bm t).2.
Proof.
  unfold which_cancel. pose proof (which_loop_fr (first_branch t) (uac t) 0 bm) as E.
  destruct (which_cancel_loop _ _ _ _) as [l bm']. cbn [fst snd] in *. apply later_uac.
  - by rewrite <- (length_fmap fr_timer l), E, length_fmap.
  - intros i u' Hi H. assert (Hx : (fr_timer <$> l) !! i = Some true) by (by rewrite list_lookup_fmap, Hi; simpl; rewrite H).
    rewrite E, list_lookup_fmap in Hx. destruct (uac t !! i) as [u|]; [|done]. injection Hx as Hx. by exists u.
Qed.

Section Later.
Context (e : env).

Lemma later_cancel_branch b t : later t (cancel_branch e b t).
Proof. unfold cancel_branch. case_match; [|done]. etrans; [|apply later_emit]. by apply later_upd. Qed.

Lemma later_cancel_loop bm n : forall i t, later t (cancel_loop e n i bm t).
Proof.
  induction n as [|n IH]; intros i t; [done|]. cbn [cancel_loop]. etrans; [|apply IH]. case_match; [apply later_cancel_branch|done].
Qed.

Lemma later_if_cancel (c : bool) bm t : later t (if c then cancel_uacs e bm t else t).
Proof. destruct c; [apply later_cancel_loop|done]. Qed.

Lemma later_cleanup t : later t (cleanup_uac_timers t).
Proof.
  apply later_uac; [apply length_imap|]. intros i u'. rewrite list_lookup_imap. destruct (uac t !! i) as [u|]; [|done].
  intros [= <-]. destruct (i <? first_branch t)%nat; [|done]. intros H. by exists u.
Qed.

Lemma final_timer_closes t : closing (set_final_timer e t) = true.
Proof. unfold set_final_timer, closing. repeat case_match; simpl; auto using orb_true_r. Qed.

Lemma later_final_timer t : later t (set_final_timer e t).
Proof. constructor; [by rewrite final_timer_closes|..]; unfold set_final_timer; by repeat case_match. Qed.

Lemma later_error bm t : later t (reply_error e bm t).2.
Proof.
  unfold reply_error. cbn [snd]. etrans; [apply later_cleanup|]. etrans; [apply later_if_cancel|]. apply later_put_on_wait.
Qed.

Lemma later_set_status code t : later t (set_status code t).
Proof. by constructor. Qed.

(** A final reply of the proxy closes the transaction; a provisional one changes its status. *)
Lemma reply_closes code t : is_hopbyhop_cancel t = false -> 200 <= status t \/ 200 <= code ->
  closing (t_reply_unsafe e code t).2 = true.
Proof.
  intros Hh Hc. unfold t_reply_unsafe.
  assert (L : later t (if is_invite t then which_cancel (if err_build_ok e then 0 else garbage e) t else (0, t)).2)
    by (destruct (is_invite t); [apply later_which|done]).
  assert (V : status (if is_invite t then which_cancel (if err_build_ok e then 0 else garbage e) t else (0, t)).2 = status t)
    by (destruct (is_invite t); [apply (f_equal v_status (view_which _ t))|done]).
  destruct (if is_invite t then _ else _) as [bm t1]. cbn [snd] in *. apply later_hbh in L. rewrite Hh in L.
  destruct (negb _); [done|]. destruct (Z.leb_spec 200 (status t1)); [done|]. destruct (negb _); [done|].
  rewrite (proj2 (Z.leb_le 200 code)) by lia. set (t2 := if is_local _ then _ else _).
  assert (is_hopbyhop_cancel t2 = false) as -> by (unfold t2; by case_match).
  cbn [snd]. apply (later_closing _ _ (later_emit _ _)), final_timer_closes.
Qed.

Lemma later_reply code t : later t (t_reply_unsafe e code t).2.
Proof.
  unfold t_reply_unsafe.
  assert (L : later t (if is_invite t then which_cancel (if err_build_ok e then 0 else garbage e) t else (0, t)).2)
    by (destruct (is_invite t); [apply later_which|done]).
  destruct (if is_invite t then _ else _) as [bm t1]. cbn [snd] in *. etrans; [exact L|]. clear.
  destruct (negb _); [apply later_error|]. destruct (200 <=? _); [apply later_error|].
  etrans; [apply (later_set_status code)|].
  destruct (negb _); [transitivity (set_response false (set_status code t1)); [by constructor|apply later_error]|].
  cbn [snd]. etrans; [|apply later_emit]. set (t2 := set_relaied _ _). assert (L : later (set_status code t1) t2) by (by constructor).
  etrans; [exact L|]. destruct (200 <=? code); [|done].
  assert (L3 : later t2 (if is_local t2 then emit (Local_out code) t2 else t2)) by (case_match; [apply later_emit|done]).
  etrans; [exact L3|]. destruct (is_hopbyhop_cancel _); [done|].
  etrans; [apply later_cleanup|]. etrans; [apply later_if_cancel|]. apply later_final_timer.
Qed.

Lemma later_add l : forall t, later t (add_uacs e l t).
Proof.
  induction l as [|[s|] l IH]; intros t; cbn [add_uacs]; [done| |apply IH].
  etrans; [|apply IH]. destruct (Nat.ltb_spec (nr_of_outgoings t) MAX_BRANCHES) as [Hn|Hn]; [|done].
  constructor; try done; unfold budget, nr_of_outgoings in *; simpl; rewrite length_app; simpl; [lia|].
  rewrite running_app. simpl. destruct s; lia.
Qed.

Lemma later_forward l t : later t (t_forward_nonack e l t).2.
Proof.
  unfold t_forward_nonack. destruct (_ || _); [done|]. cbn [snd].
  assert (L : later t (set_first (nr_of_outgoings t) t)) by (by constructor). etrans; [exact L|]. apply later_add.
Qed.

Lemma later_hstep t t' : rtc (hstep e) t t' -> later t t'.
Proof.
  induction 1 as [|t t1 t2 H _ IH]; [done|]. etrans; [|exact IH].
  destruct H; [apply later_reply|apply later_forward|apply later_on_negative].
Qed.

Context (loc : bool) (OK : env_ok e loc).

Lemma later_after_pick b p bm t : later t (after_pick e b p bm t).2.
Proof.
  unfold after_pick.
  match goal with |- context [let '(_, _) := ?m in _] => assert (L : later t m.2); [|destruct m as [cnt t1]] end.
  { destruct (uac t !! Z.to_nat p) as [u|]; [|done]. destruct (_ && _ && _); [|done].
    pose proof (later_hstep _ _ (dns_failover_steps e t)) as H. by destruct (do_dns_failover e t). }
  cbn [snd] in L. etrans; [exact L|]. set (t2 := if (cnt =? _)%nat && _ then _ else _).
  assert (L2 : later t1 t2).
  { unfold t2. destruct (_ && _); [|done]. apply later_hstep, (failure_handlers_steps e loc OK). }
  etrans; [exact L2|]. transitivity (upd (set_reply None) b t2); [by apply later_upd|]. by repeat case_match.
Qed.

Lemma later_should_relay code b bm msg t : later t (t_should_relay_response e code b bm msg t).2.
Proof.
  unfold t_should_relay_response. cbv zeta.
  assert (Up : forall c, later t (upd (set_last c) b t)) by (intros; by apply later_upd).
  assert (Un : forall t1, later t1 (upd (set_reply None) b t1)) by (intros; by apply later_upd).
  destruct (200 <=? status t); [repeat match goal with |- context [if ?c then _ else _] => destruct c end; first [done|apply Up]|].
  match goal with |- context [if ?c then (_, t) else _] => destruct c; [done|] end.
  destruct (300 <=? code).
  - etrans; [apply (later_upd (fun u => set_reply (Some msg) (set_last code u)) b); done|]. set (t1 := upd _ b t).
    destruct (600 <=? code).
    + pose proof (later_which bm t1) as L. destruct (which_cancel bm t1) as [bm' t2]. etrans; [exact L|].
      etrans; [|apply later_after_pick]. by apply later_flags.
    + destruct (t_pick_branch t1) as [p s]. destruct (p =? -2); [apply Un|]. destruct (p =? -1); [apply Un|]. apply later_after_pick.
  - destruct (100 <=? code); [|done]. etrans; [apply (Up code)|]. destruct (200 <=? code); [|by case_match].
    pose proof (later_which bm (upd (set_last code) b t)) as L. by destruct (which_cancel _ _).
Qed.

Lemma later_store b msg t : later t (store_reply e b msg t).2.
Proof. unfold store_reply. destruct msg; [case_match; [|done]|]; by apply later_upd. Qed.

Lemma later_relay_error bm t : later t (relay_error e bm t).2.
Proof.
  unfold relay_error. pose proof (later_reply 500 t) as L. destruct (t_reply_unsafe e 500 t) as [z t1]. cbn [snd] in *.
  etrans; [exact L|]. apply later_if_cancel.
Qed.

Lemma later_relay_reply msg b code bm t : may_return (relay_reply e msg b code bm t) (fun r => later t r.2).
Proof.
  unfold relay_reply. pose proof (later_should_relay code b bm msg t) as L1.
  destruct (t_should_relay_response _ _ _ _ _ _) as [d t1]. cbn [snd] in L1.
  assert (L2 : later t1 (if d_store d then store_reply e b msg t1 else (true, t1)).2) by (destruct (d_store d); [apply later_store|done]).
  destruct (if d_store d then _ else _) as [ok t2]. cbn [snd] in L2. assert (L : later t t2) by (by etrans).
  destruct (negb ok); [apply may_ret; etrans; [exact L|apply later_relay_error]|]. cbv zeta.
  destruct (0 <=? d_relay d); [|apply may_ret; cbn [snd]; case_decide; [etrans; [exact L|apply later_final_timer]|done]].
  eapply may_bind; [by intros ? _; exact I|]. intros c _. destruct (negb _); apply may_ret.
  - etrans; [exact L|]. etrans; [|apply later_relay_error]. set (t3 := if build_ok e then _ else t2).
    transitivity t3; [unfold t3; by destruct (build_ok e); constructor|]. destruct (d_store d); [by apply later_upd|done].
  - etrans; [exact L|]. cbn [snd]. etrans; [|apply later_emit]. set (t3 := set_relaied _ _).
    assert (L3 : later t2 t3) by (by constructor). etrans; [exact L3|]. case_decide; [apply later_final_timer|done].
Qed.

End Later.

(** ** Branches that are waited for *)

(** A branch of the current fork without a final reply. *)
Definition awaited (t : cell) (b : nat) : Prop :=
  exists u, uac t !! b = Some u /\ (first_branch t <= b)%nat /\ buffer u = true /\ last_received u < 200.

(** Such branches have their timer, except maybe branch [ex]. *)
Definition timed (ex : option nat) (t : cell) : Prop :=
  forall b u, uac t !! b = Some u -> (first_branch t <= b)%nat -> buffer u = true -> last_received u < 200 ->
  ex <> Some b -> fr_timer u = true.

Definition lcore (u : ua_client) : bool * Z * bool := (buffer u, last_received u, fr_timer u).

(** Transactions that do not differ in this. *)
Definition alike (t t' : cell) : Prop :=
  first_branch t' = first_branch t /\ status t' = status t /\ lcore <$> uac t' = lcore <$> uac t.

#[export] Instance alike_refl : Reflexive alike.
Proof. by intros t. Qed.

#[export] Instance alike_trans : Transitive alike.
Proof. intros t1 t2 t3 (A1 & A2 & A3) (B1 & B2 & B3). repeat split; congruence. Qed.

#[export] Instance alike_sym : Symmetric alike.
Proof. intros t1 t2 (A1 & A2 & A3). by repeat split. Qed.

Lemma lcore_lookup (l l' : list ua_client) (b : nat) u : lcore <$> l' = lcore <$> l -> l !! b = Some u -> exists u', l' !! b = Some u' /\ lcore u' = lcore u.
Proof.
  intros E Hu. assert (H : (lcore <$> l') !! b = Some (lcore u)) by (by rewrite E, list_lookup_fmap, Hu).
  rewrite list_lookup_fmap in H. destruct (l' !! b) as [u'|]; [|done]. injection H as Hb Hl Hf. exists u'. split; [done|].
  unfold lcore. congruence.
Qed.

Lemma awaited_alike t t' b : alike t t' -> awaited t b -> awaited t' b.
Proof.
  intros (Hf & _ & E) (u & Hu & H1 & H2 & H3). destruct (lcore_lookup _ _ _ _ E Hu) as (u' & Hu' & [= Eb El Ef]).
  exists u'. rewrite Hf, Eb, El. done.
Qed.

Lemma timed_alike ex t t' : alike t t' -> timed ex t -> timed ex t'.
Proof.
  intros (Hf & _ & E) T b u Hu H1 H2 H3 Hx. destruct (lcore_lookup _ _ _ _ (eq_sym E) Hu) as (u' & Hu' & [= Eb El Ef]).
  rewrite <- Ef. apply (T b u'); congruence.
Qed.

Lemma alike_upd f b t : (forall u, lcore (f u) = lcore u) -> alike t (upd f b t).
Proof.
  intros Hf. repeat split. simpl. apply list_eq. intros i. rewrite !list_lookup_fmap.
  destruct (decide (i = b)) as [->|N]; [rewrite list_lookup_alter_eq|by rewrite list_lookup_alter_ne].
  destruct (uac t !! b); [|done]. simpl. by rewrite Hf.
Qed.

Lemma lcore_should_cancel u : lcore (should_cancel_branch u).2 = lcore u.
Proof. unfold should_cancel_branch. repeat case_match; done. Qed.

Lemma which_loop_lcore first l : forall i bm, lcore <$> (which_cancel_loop first i l bm).1 = lcore <$> l.
Proof.
  induction l as [|u l IH]; intros i bm; [done|]. cbn [which_cancel_loop]. destruct (i <? first)%nat.
  - specialize (IH (S i) bm). destruct (which_cancel_loop _ _ _ _). csimpl in *. by rewrite IH.
  - pose proof (lcore_should_cancel u) as Hu. destruct (should_cancel_branch u) as [b u'].
    match goal with |- context [which_cancel_loop _ _ _ ?x] => specialize (IH (S i) x) end.
    destruct (which_cancel_loop _ _ _ _). csimpl in *. by rewrite IH, Hu.
Qed.

Lemma alike_which bm t : alike t (which_cancel bm t).2.
Proof.
  unfold which_cancel. pose proof (which_loop_lcore (first_branch t) (uac t) 0 bm) as E.
  by destruct (which_cancel_loop _ _ _ _).
Qed.

Lemma alike_cancel_branch e b t : alike t (cancel_branch e b t).
Proof. unfold cancel_branch. case_match; [|done]. transitivity (upd (fun u => set_c_timers (udp e) true (set_cancel CBuilt u)) b t); [by apply alike_upd|done]. Qed.

Lemma alike_cancel_uacs e bm t : alike t (cancel_uacs e bm t).
Proof.
  unfold cancel_uacs. generalize (nr_of_outgoings t) as n, 0%nat as i. intros n. revert t.
  induction n as [|n IH]; intros t i; [done|]. cbn [cancel_loop]. etrans; [|apply IH]. case_match; [apply alike_cancel_branch|done].
Qed.

(** ** Open transactions *)

(** Nothing final went upstream; the awaited branches have their timer and there is one. *)
Definition opened (ex : option nat) (t : cell) : Prop :=
  status t < 200 /\ timed ex t /\ exists b, awaited t b.

Lemma opened_alike ex t t' : alike t t' -> opened ex t -> opened ex t'.
Proof.
  intros A (H1 & H2 & b & H3). split; [by destruct A as (_ & -> & _)|]. split; [by apply (timed_alike ex t)|].
  exists b. by apply (awaited_alike t).
Qed.

Definition nothing_awaited (t : cell) : Prop := forall b, ~ awaited t b.

(** The requests of a fork could be sent. *)
Definition sendable (l : list (option bool)) : Prop := Forall (fun x => x <> Some false) l.

(** What a failure route may do: a forward that adds no branch does not come after one
    that did. *)
Inductive lstep (e : env) (t : cell) : cell -> Prop :=
| l_reply code : lstep e t (t_reply_unsafe e code t).2
| l_forward l : sendable l ->
    (nr_of_outgoings t < nr_of_outgoings (t_forward_nonack e l t).2)%nat \/ nothing_awaited t ->
    lstep e t (t_forward_nonack e l t).2
| l_on_negative n : lstep e t (set_on_negative n t).

Record live_ok (e : env) : Prop := {
  live_env : env_ok e false;
  live_cb : forall f t, failure_cb e = Some f -> rtc (lstep e) t (f t);
  live_route : forall n t, rtc (lstep e) t (failure_route e n t);
  live_dns : forall l, next_dns e = Some l -> sendable l
}.

Section Open.
Context (e : env) (OK : live_ok e).

(** The branches a forward adds have their timers. *)
Lemma add_shape l : sendable l -> forall t, exists k,
  status (add_uacs e l t) = status t /\ first_branch (add_uacs e l t) = first_branch t /\
  lcore <$> uac (add_uacs e l t) = (lcore <$> uac t) ++ replicate k (true, 0, true).
Proof.
  induction 1 as [|x l Hx _ IH]; intros t; cbn [add_uacs]; [exists 0%nat; by rewrite app_nil_r|].
  destruct x as [[|]|]; [|done|apply IH]. destruct (nr_of_outgoings t <? MAX_BRANCHES)%nat; [|apply IH].
  match goal with |- context [add_uacs e l ?x] => destruct (IH x) as (k & -> & -> & ->) end.
  exists (S k). repeat split. simpl. by rewrite fmap_app, <- app_assoc.
Qed.

Lemma forward_shape l t : sendable l -> was_cancelled t || no_new_branches t = false ->
  let t' := (t_forward_nonack e l t).2 in
  status t' = status t /\ timed None t' /\
  ((nr_of_outgoings t < nr_of_outgoings t')%nat /\ (exists b, awaited t' b) /\ (t_forward_nonack e l t).1 = 1 \/
   nr_of_outgoings t' = nr_of_outgoings t /\ nothing_awaited t').
Proof.
  intros Hl Hc. unfold t_forward_nonack. rewrite Hc. cbv zeta. cbn [fst snd].
  destruct (add_shape l Hl (set_first (nr_of_outgoings t) t)) as (k & Es & Ef & El).
  set (t' := add_uacs e l _) in *. clearbody t'. cbn [status set_first first_branch uac] in Es, Ef, El.
  assert (New : forall b u, uac t' !! b = Some u -> (first_branch t' <= b)%nat -> lcore u = (true, 0, true)).
  { intros b u Hu Hb. assert (H : (lcore <$> uac t') !! b = Some (lcore u)) by (by rewrite list_lookup_fmap, Hu).
    rewrite El, lookup_app_r in H; [by apply lookup_replicate in H as [-> _]|]. rewrite length_fmap. unfold nr_of_outgoings in *. lia. }
  assert (Hn : nr_of_outgoings t' = (nr_of_outgoings t + k)%nat).
  { unfold nr_of_outgoings. rewrite <- (length_fmap lcore), El, length_app, length_fmap, length_replicate. done. }
  split; [done|]. split; [intros b u Hu Hb _ _ _; by injection (New b u Hu Hb)|].
  destruct k as [|k]; [right; split; [lia|]|left; split; [lia|]].
  - intros b (u & Hu & Hb & _). apply lookup_lt_Some in Hu. unfold nr_of_outgoings in *. lia.
  - destruct (lookup_lt_is_Some_2 (uac t') (nr_of_outgoings t)) as [u Hu]; [unfold nr_of_outgoings in *; lia|].
    pose proof (New _ u Hu ltac:(lia)) as [= Eb Elast Efr]. split.
    + exists (nr_of_outgoings t), u. split; [exact Hu|]. by rewrite Ef, Eb, Elast.
    + rewrite (proj2 (existsb_exists fr_timer _)); [done|]. exists u. split; [|done]. apply list_elem_of_In, list_elem_of_lookup.
      exists 0%nat. by rewrite lookup_drop, Nat.add_0_r.
Qed.

(** While failover and failure handlers run after [cnt] branches have failed. *)
Definition handling (cnt : nat) (t : cell) : Prop :=
  200 <= status t \/
  timed None t /\ (nr_of_outgoings t = cnt /\ (nothing_awaited t \/ no_new_branches t = true) \/ exists b, awaited t b).

(** A provisional reply of the proxy leaves the branches alone. *)
Lemma reply_provisional code t : status t < 200 -> code < 200 ->
  let t' := (t_reply_unsafe e code t).2 in
  status t' = code /\ first_branch t' = first_branch t /\ lcore <$> uac t' = lcore <$> uac t /\ t_flags t' = t_flags t.
Proof.
  intros Hs Hc. unfold t_reply_unsafe.
  assert (A : alike t (if is_invite t then which_cancel (if err_build_ok e then 0 else garbage e) t else (0, t)).2) by (destruct (is_invite t); [apply alike_which|done]).
  assert (F : t_flags (if is_invite t then which_cancel (if err_build_ok e then 0 else garbage e) t else (0, t)).2 = t_flags t)
    by (destruct (is_invite t); [unfold which_cancel; by destruct (which_cancel_loop _ _ _ _)|done]).
  destruct (if is_invite t then _ else _) as [bm t1]. cbn [snd] in *. destruct A as (A1 & A2 & A3).
  rewrite (ok_build _ _ (live_env _ OK)), (ok_shm _ _ (live_env _ OK)). cbn [negb].
  rewrite A2, (proj2 (Z.leb_gt 200 (status t))), (proj2 (Z.leb_gt 200 code)) by lia. done.
Qed.

Lemma lstep_handling cnt t t' : lstep e t t' -> handling cnt t -> handling cnt t'.
Proof.
  intros [code|l Hl Hg|n] H; [| |exact H].
  - destruct (Z.leb_spec 200 (status t)) as [Hs|Hs].
    { left. change (200 <= v_status (view_of (t_reply_unsafe e code t).2)).
      rewrite view_reply by apply (live_env _ OK). unfold v_reply. by rewrite (proj2 (Z.leb_le 200 (v_status (view_of t)))). }
    destruct (Z.leb_spec 200 code) as [Hc|Hc].
    { left. change (200 <= v_status (view_of (t_reply_unsafe e code t).2)).
      rewrite view_reply by apply (live_env _ OK). unfold v_reply. by rewrite (proj2 (Z.leb_gt 200 (v_status (view_of t)))). }
    destruct H as [?|[T H]]; [lia|]. destruct (reply_provisional code t Hs Hc) as (Es & Ef & El & Eg). right.
    set (t2 := (t_reply_unsafe e code t).2) in *. clearbody t2.
    assert (A : alike (set_status code t) t2) by done.
    split; [by apply (timed_alike None (set_status code t))|].
    destruct H as [[Hn Hw]|[b Hb]]; [left|right; exists b; by apply (awaited_alike (set_status code t))].
    split; [unfold nr_of_outgoings; by rewrite <- (length_fmap lcore), El, length_fmap|].
    destruct Hw as [Hw|Hw]; [left|right; unfold no_new_branches; by rewrite Eg].
    intros b Hb. apply (Hw b). change (awaited (set_status code t) b). by apply (awaited_alike t2).
  - destruct (was_cancelled t || no_new_branches t) eqn:Ec.
    { unfold t_forward_nonack. by rewrite Ec. }
    destruct (forward_shape l t Hl Ec) as (Es & T & [(Hn & Hb & _)|(Hn & Hb)]); [right; split; [done|by right]|].
    destruct H as [?|[_ H]]; [left; by rewrite Es|]. right. split; [done|]. left.
    destruct Hg as [?|Hg]; [lia|]. destruct H as [[Hc _]|[b Hw]]; [split; [lia|by left]|by destruct (Hg b)].
Qed.

Lemma lsteps_handling cnt t t' : rtc (lstep e) t t' -> handling cnt t -> handling cnt t'.
Proof. induction 1; eauto using lstep_handling. Qed.

Lemma handlers_lsteps t : rtc (lstep e) t (run_failure_handlers e t).
Proof.
  unfold run_failure_handlers. destruct (negb (request t) || req_cancel t); [done|].
  match goal with |- context [if ?b then t else _] => destruct b; [done|] end. destruct (negb (fake_ok e)); [done|].
  set (t1 := match failure_cb e with Some f => f t | None => t end).
  assert (H : rtc (lstep e) t t1) by (unfold t1; destruct (failure_cb e) eqn:E; [by apply (live_cb _ OK)|done]).
  match goal with |- context [if ?b then _ else t1] => destruct b; [|done] end.
  etrans; [exact H|]. eapply rtc_l; [apply l_on_negative|apply (live_route _ OK)].
Qed.

Lemma failover_handling t rc t' : timed None t -> nothing_awaited t \/ no_new_branches t = true ->
  do_dns_failover e t = (rc, t') ->
  handling (if rc =? 0 then nr_of_outgoings t else nr_of_outgoings t') t'.
Proof.
  intros T Hw E. unfold do_dns_failover in E.
  assert (Same : handling (nr_of_outgoings t) t) by (right; split; [done|]; by left).
  destruct (next_dns e) as [l|] eqn:Ed; [|by injection E as <- <-]. destruct (negb _); [by injection E as <- <-|].
  destruct (was_cancelled t || no_new_branches t) eqn:Ec.
  { unfold t_forward_nonack in E. rewrite Ec in E. by injection E as <- <-. }
  destruct (forward_shape l t (live_dns _ OK l Ed) Ec) as (Es & T' & X).
  destruct (t_forward_nonack e l t) as [r t1]. cbn [fst snd] in *. injection E as <- <-. right. split; [done|].
  destruct X as [(Hn & Hb & ->)|(Hn & Hb)]; [by right|left]. split; [rewrite Hn; by case_match|by left].
Qed.

(** After a negative reply of branch [b] that is the last one, or ends all. *)
Lemma after_pick_opened b p bm t : timed None t -> nothing_awaited t \/ no_new_branches t = true ->
  let r := after_pick e b p bm t in
  d_rps r.1 = RPS_COMPLETED \/ r.1 = Dec RPS_STORE true (-1) bm /\ opened None r.2.
Proof.
  intros T Hw. unfold after_pick. cbv zeta.
  match goal with |- context [let '(_, _) := ?m in _] => assert (H : handling m.1 m.2); [|destruct m as [cnt t1]] end.
  { assert (Same : handling (nr_of_outgoings t) t) by (right; split; [done|]; by left).
    destruct (uac t !! Z.to_nat p) as [u|]; [|done]. destruct (_ && _ && _); [|done].
    destruct (do_dns_failover e t) as [rc t'] eqn:E. by apply failover_handling in E. }
  cbn [fst snd] in H. set (t2 := if (cnt =? _)%nat && _ then _ else _).
  assert (H2 : handling cnt t2).
  { unfold t2. destruct (_ && _); [|done]. apply (lsteps_handling cnt t1); [apply handlers_lsteps|done]. }
  clearbody t2. assert (A : alike t2 (upd (set_reply None) b t2)) by (by apply alike_upd).
  change (status (upd (set_reply None) b t2)) with (status t2).
  assert (En : nr_of_outgoings (upd (set_reply None) b t2) = nr_of_outgoings t2) by apply length_alter. rewrite En.
  destruct (Z.leb_spec 200 (status t2)) as [Hs|Hs]; [by left|].
  destruct (Nat.ltb_spec cnt (nr_of_outgoings t2)) as [Hn|Hn]; [|by left]. right. split; [done|].
  apply (opened_alike None t2); [done|]. destruct H2 as [?|[T2 H2]]; [lia|]. split; [done|]. split; [done|].
  destruct H2 as [[? _]|Hb]; [lia|done].
Qed.

(** ** Decisions on a reply *)

Lemma pick_unfinished c first l : forall i b s, -1 <= b ->
  (pick_loop c first i l b s).1 = -2 <-> unfinished (live_at first i l) = true.
Proof.
  induction l as [|u l IH]; intros i b s Hb; cbn [pick_loop live_at]; [split; [simpl; lia|done]|].
  destruct ((i <? first)%nat || negb (buffer u)); [by apply IH|]. cbn [unfinished existsb snd].
  destruct (last_received u <? 200); [done|]. cbn [orb].
  match goal with |- context [if ?x then _ else _] => destruct x end; apply IH; lia.
Qed.

Lemma unfinished_awaited t : unfinished (live t) = true <-> exists b, awaited t b.
Proof.
  unfold unfinished. rewrite existsb_exists. split.
  - intros ([n c] & Hin & Hc). apply Z.ltb_lt in Hc. destruct (live_at_lookup _ _ _ _ _ Hin) as (Hf & _ & u & Hu & Hb & El).
    rewrite Nat.sub_0_r in Hu. exists n, u. simpl in *. subst. done.
  - intros (b & u & Hu & Hf & Hb & Hl). exists (b, last_received u). split; [|by apply Z.ltb_lt].
    apply (live_at_in (first_branch t) (uac t) 0 b u); done.
Qed.

Lemma timed_finish f b t ex : timed ex t -> (ex = None \/ ex = Some b) ->
  (forall u, uac t !! b = Some u -> 200 <= last_received (f u)) -> timed None (upd f b t).
Proof.
  intros T Hx Hf n u Hu H1 H2 H3 _. simpl in Hu. destruct (decide (n = b)) as [->|N].
  - rewrite list_lookup_alter_eq in Hu. destruct (uac t !! b) as [v|] eqn:E; [|done]. injection Hu as <-.
    specialize (Hf v eq_refl). lia.
  - rewrite list_lookup_alter_ne in Hu by congruence. apply (T n u); try done. destruct Hx; congruence.
Qed.

Lemma negative_opened b code bm msg t :
  opened (Some b) t -> 300 <= code ->
  let t1 := upd (fun u => set_reply (Some msg) (set_last code u)) b t in
  let r := if 600 <=? code then
      let '(bm, t) := which_cancel bm t1 in
      after_pick e b (Z.of_nat b) bm (set_t_flags (Z.lor (t_flags t) T_NO_NEW_BRANCHES_FLAG) t)
    else
      let '(picked, _) := t_pick_branch t1 in
      if picked =? -2 then (Dec RPS_STORE true (-1) bm, upd (set_reply None) b t1)
      else if picked =? -1 then (Dec RPS_DISCARDED false (-1) bm, upd (set_reply None) b t1)
      else after_pick e b picked bm t1 in
  d_rps r.1 = RPS_COMPLETED \/ d_rps r.1 <> RPS_COMPLETED /\ d_relay r.1 < 0 /\ opened None r.2.
Proof.
  intros (Hs & T & b' & Hb') Hc t1 r.
  assert (T1 : timed None t1) by (apply (timed_finish _ _ _ (Some b)); [done|by right|simpl; lia]).
  assert (Pick : forall p bm0 t0, timed None t0 -> nothing_awaited t0 \/ no_new_branches t0 = true ->
     let r := after_pick e b p bm0 t0 in
     d_rps r.1 = RPS_COMPLETED \/ d_rps r.1 <> RPS_COMPLETED /\ d_relay r.1 < 0 /\ opened None r.2).
  { intros p bm0 t0 T0 H0. destruct (after_pick_opened b p bm0 t0 T0 H0) as [?|(E & O)]; [by left|]. right. by rewrite E. }
  unfold r. clear r. destruct (600 <=? code).
  - pose proof (alike_which bm t1) as A. destruct (which_cancel bm t1) as [bm' t2]. apply Pick.
    + apply (timed_alike None t2); [done|]. by apply (timed_alike None t1).
    + right. unfold no_new_branches. simpl. rewrite flag_lor. apply orb_true_r.
  - pose proof (pick_unfinished (was_cancelled t1) (first_branch t1) (uac t1) 0 (-1) 999 ltac:(lia)) as U.
    fold (t_pick_branch t1) in U. fold (live t1) in U. rewrite unfinished_awaited in U.
    destruct (t_pick_branch t1) as [p s] eqn:Ep. cbn [fst] in U. destruct (Z.eqb_spec p (-2)) as [->|N2].
    + right. split; [done|]. split; [done|]. apply (opened_alike None t1); [by apply alike_upd|]. split; [done|]. split; [done|]. by apply U.
    + destruct (Z.eqb_spec p (-1)) as [->|N1].
      * exfalso. pose proof (pick_loop_cases (was_cancelled t1) (first_branch t1) (uac t1) 0 (-1) 999) as C.
        fold (t_pick_branch t1) in C. rewrite Ep in C. cbn [fst] in C.
        destruct C as [?|[(_ & [?|L])|(n & k & ? & _)]]; [done|done| |lia].
        destruct Hb' as (u & Hu & Hf & Hbu & _).
        assert (exists v, uac t1 !! b' = Some v /\ buffer v = true) as (v & Hv & Hbv).
        { simpl. rewrite list_lookup_alter. destruct (decide (b = b')) as [->|]; [rewrite Hu; by eexists|by exists u]. }
        apply (live_at_in (first_branch t1) (uac t1) 0 b' v) in Hbv; [|done|done]. by rewrite L in Hbv.
      * apply Pick; [done|]. left. intros n Hn. apply N2, U. by exists n.
Qed.

Lemma should_relay_final b code bm msg t : opened (Some b) t -> 200 <= code ->
  let r := t_should_relay_response e code b bm msg t in
  d_rps r.1 = RPS_COMPLETED \/ d_rps r.1 <> RPS_COMPLETED /\ d_relay r.1 < 0 /\ opened None r.2.
Proof.
  intros O Hc. pose proof O as (Hs & T & Hb). unfold t_should_relay_response. cbv zeta.
  rewrite (proj2 (Z.leb_gt 200 (status t))) by done.
  match goal with |- context [if ?c then (_, t) else _] => destruct c eqn:E end.
  - right. split; [done|]. split; [done|]. cbn [snd]. split; [done|]. split; [|done].
    intros n u Hu H1 H2 H3 _. apply (T n u); try done. intros [= ->]. rewrite Hu in E. bool_to_prop. lia.
  - destruct (300 <=? code) eqn:E3; bool_to_prop; [by apply negative_opened|].
    rewrite (proj2 (Z.leb_le 100 code)), (proj2 (Z.leb_le 200 code)) by lia. destruct (which_cancel _ _). by left.
Qed.

Lemma should_relay_provisional b code bm msg t : opened None t -> code < 200 ->
  let r := t_should_relay_response e code b bm msg t in
  d_rps r.1 <> RPS_COMPLETED /\ (d_relay r.1 < 0 \/ d_relay r.1 = Z.of_nat b) /\ opened None r.2.
Proof.
  intros O Hc. pose proof O as (Hs & T & n & Hn). unfold t_should_relay_response. cbv zeta.
  rewrite (proj2 (Z.leb_gt 200 (status t))) by done.
  match goal with |- context [if ?c then (_, t) else _] => destruct c eqn:E end; [split; [done|]; by split; [left|]|].
  rewrite (proj2 (Z.leb_gt 300 code)) by lia. destruct (100 <=? code); [|split; [done|]; by split; [left|]].
  rewrite (proj2 (Z.leb_gt 200 code)) by lia. split; [done|]. split; [simpl; destruct (code =? 100); auto; by left|].
  cbn [snd]. split; [done|]. split.
  - intros i u Hu H1 H2 H3 _. simpl in Hu. rewrite list_lookup_alter in Hu. destruct (decide (b = i)) as [->|N]; [|by apply (T i u)].
    destruct (uac t !! i) as [v|] eqn:Ev; [|done]. injection Hu as <-. simpl. apply (T i v); try done.
    destruct (Z.leb_spec 200 (last_received v)); [|done]. simpl in E.
    by rewrite (proj2 (Z.leb_gt 200 code)) in E by lia.
  - exists n. destruct Hn as (u & Hu & H1 & H2 & H3). unfold awaited. simpl. rewrite list_lookup_alter, Hu.
    destruct (decide (b = n)) as [->|N]; [rewrite Hu; simpl; by eexists|by exists u].
Qed.

(** ** What is done with it *)

Lemma relay_error_closes bm t : is_hopbyhop_cancel t = false -> closing (relay_error e bm t).2 = true.
Proof.
  intros Hh. unfold relay_error. pose proof (reply_closes e 500 t Hh ltac:(lia)) as C.
  destruct (t_reply_unsafe e 500 t) as [z t1]. by apply (later_closing _ _ (later_if_cancel e (is_invite t1) bm t1)).
Qed.

(** The transaction closes, or goes on with its timers. *)
Definition goes_on (r : rps * Z * cell) : Prop :=
  closing r.2 = true \/ r.1.1 <> RPS_COMPLETED /\ opened None r.2.

Lemma relay_reply_goes msg b code bm t :
  is_hopbyhop_cancel t = false -> msg_ok msg code ->
  (let r := t_should_relay_response e code b bm msg t in
   d_rps r.1 = RPS_COMPLETED \/
   d_rps r.1 <> RPS_COMPLETED /\ (d_relay r.1 < 0 \/ d_relay r.1 = Z.of_nat b /\ code < 200) /\ opened None r.2) ->
  may_return (relay_reply e msg b code bm t) goes_on.
Proof.
  intros Hh Hm D. unfold relay_reply. pose proof (later_hbh _ _ (later_should_relay e _ (live_env _ OK) code b bm msg t)) as H1.
  destruct (t_should_relay_response _ _ _ _ _ _) as [d t1]. cbn [fst snd] in D, H1.
  assert (S2 : later t1 (if d_store d then store_reply e b msg t1 else (true, t1)).2) by (destruct (d_store d); [apply later_store|done]).
  assert (A2 : alike t1 (if d_store d then store_reply e b msg t1 else (true, t1)).2).
  { unfold store_reply. destruct (d_store d); [|done]. destruct msg; [destruct (clone_ok e); [|done]|]; by apply alike_upd. }
  destruct (if d_store d then _ else _) as [ok t2]. cbn [snd] in S2, A2. apply later_hbh in S2.
  assert (Hh2 : is_hopbyhop_cancel t2 = false) by congruence.
  destruct (negb ok); [apply may_ret; left; by apply relay_error_closes|]. cbv zeta. destruct D as [Ed|(Nd & Hr & O)].
  - destruct (0 <=? d_relay d); [|apply may_ret; left; cbn [snd]; by rewrite decide_True, final_timer_closes].
    eapply may_bind; [by intros ? _; exact I|]. intros c _. destruct (negb _); apply may_ret; left.
    + apply relay_error_closes. by destruct (d_store d), (build_ok e).
    + cbn [snd]. rewrite decide_True by done. apply (later_closing _ _ (later_emit _ _)), final_timer_closes.
  - apply (opened_alike None _ t2) in O; [|done]. destruct (Z.leb_spec 0 (d_relay d)) as [Hp|Hp].
    + destruct Hr as [?|[Hb Hc]]; [lia|]. rewrite (chosen_ok b (d_relay d) code) by done. run. destruct (negb _); apply may_ret.
      * left. apply relay_error_closes. by destruct (d_store d), (build_ok e).
      * right. split; [done|]. cbn [snd]. rewrite decide_False by done. destruct O as (_ & T & n & Hn). split; [done|]. split; [exact T|by exists n].
    + apply may_ret. right. split; [done|]. cbn [snd]. by rewrite decide_False.
Qed.

(** Final replies close branch [b]. *)
Lemma relay_final msg b code bm t : is_hopbyhop_cancel t = false -> msg_ok msg code -> 200 <= code ->
  closing t = true \/ opened (Some b) t -> may_return (relay_reply e msg b code bm t) goes_on.
Proof.
  intros Hh Hm Hc [C|O].
  - eapply may_impl; [apply (later_relay_reply e _ (live_env _ OK))|]. intros r L. left. by apply (later_closing _ _ L).
  - apply relay_reply_goes; [done|done|]. destruct (should_relay_final b code bm msg t O Hc) as [?|(? & ? & ?)]; auto.
Qed.

Lemma relay_provisional msg b code bm t : is_hopbyhop_cancel t = false -> msg_ok msg code -> code < 200 ->
  closing t = true \/ opened None t -> may_return (relay_reply e msg b code bm t) goes_on.
Proof.
  intros Hh Hm Hc [C|O].
  - eapply may_impl; [apply (later_relay_reply e _ (live_env _ OK))|]. intros r L. left. by apply (later_closing _ _ L).
  - apply relay_reply_goes; [done|done|]. right. destruct (should_relay_provisional b code bm msg t O Hc) as (? & [?|?] & ?); auto.
Qed.

(** ** Entry points *)

(** A proxied transaction that has a timer. *)
Definition ticking (t : cell) : Prop := closing t = true \/ opened None t.

Definition proxied (t : cell) : Prop := is_local t = false /\ is_hopbyhop_cancel t = false.

Lemma later_proxied t t' : later t t' -> proxied t -> proxied t'.
Proof. intros L [P1 P2]. split; [by rewrite (later_local _ _ L)|by rewrite (later_hbh _ _ L)]. Qed.

Lemma opened_stop b f t : (forall u, buffer (f u) = buffer u /\ last_received (f u) = last_received u) ->
  opened None t -> opened (Some b) (upd f b t).
Proof.
  intros Hf (Hs & T & n & u & Hu & H1 & H2 & H3). split; [done|]. split.
  - intros i v Hv Hi Hb Hl Hx. simpl in Hv. rewrite list_lookup_alter_ne in Hv by congruence. by apply (T i v).
  - exists n. destruct (Hf u) as [F1 F2]. unfold awaited. simpl. rewrite list_lookup_alter. destruct (decide (b = n)) as [->|N].
    + rewrite Hu. exists (f u). rewrite F1, F2. done.
    + by exists u.
Qed.

Lemma relay_final_later msg b code bm t : proxied t -> msg_ok msg code -> 200 <= code ->
  closing t = true \/ opened (Some b) t -> may_return (relay_reply e msg b code bm t) (fun r => goes_on r /\ later t r.2).
Proof.
  intros [_ P] Hm Hc K r E. split; [by apply (relay_final _ _ _ _ _ P Hm Hc K r E)|].
  by apply (later_relay_reply e _ (live_env _ OK) _ _ _ _ _ _ E).
Qed.

Lemma fake_reply_ticks f b code t : (forall u, buffer (f u) = buffer u /\ last_received (f u) = last_received u) ->
  proxied t -> 200 <= code -> ticking t ->
  may_return (fake_reply e b code (upd f b t)) (fun t' => proxied t' /\ ticking t').
Proof.
  intros Hf P Hc K. unfold fake_reply. set (t0 := upd _ b t).
  assert (K0 : closing t0 = true \/ opened (Some b) t0) by (destruct K as [?|O]; [by left|right; by apply opened_stop]).
  change (proxied t0) in P. clearbody t0.
  match goal with |- context [let '(_, _) := ?m in _] =>
    assert (A : alike t0 m.2 /\ later t0 m.2); [|destruct m as [c t1]] end.
  { destruct (is_invite t0); [|done]. destruct (uac t0 !! b) as [u|] eqn:Hu; [|done].
    pose proof (lcore_should_cancel u) as Hk. destruct (should_cancel_branch u) as [c u']. cbn [snd] in *. split.
    - repeat split. simpl. apply list_eq. intros i. rewrite !list_lookup_fmap.
      destruct (decide (i = b)) as [->|N]; [rewrite list_lookup_alter_eq, Hu; simpl; by rewrite Hk|by rewrite list_lookup_alter_ne].
    - apply later_uac; [apply length_alter|]. intros i v. rewrite list_lookup_alter.
      destruct (decide (b = i)) as [<-|N]; [rewrite Hu|by exists v]. intros [= <-] Hv. exists u. split; [done|]. by injection Hk as _ _ <-. }
  cbn [snd] in A. destruct A as [A L]. assert (K1 : closing t1 = true \/ opened (Some b) t1).
  { destruct K0 as [C|O]; [left; by apply (later_closing _ _ L)|right; by apply (opened_alike (Some b) t0)]. }
  apply (later_proxied _ _ L) in P. rewrite (proj1 P).
  apply (may_bind _ _ (fun t' => proxied t' /\ ticking t')).
  - eapply may_bind; [apply (relay_final_later _ b code _ t1); done|].
    intros [[st bm] t2] [[C|[_ O]] L2]; apply may_ret; (split; [by apply (later_proxied t1)|]); [by left|by right].
  - intros t2 [P2 K2]. apply may_ret. destruct c; [|done].
    pose proof (later_cancel_branch e b t2) as Lc. split; [by apply (later_proxied t2)|].
    destruct K2 as [C|O]; [left; by apply (later_closing _ _ Lc)|right].
    apply (opened_alike None t2); [apply alike_cancel_branch|done].
Qed.

(** Steps that touch neither. *)
Lemma closing_or_opened ex t t' : later t t' -> alike t t' -> closing t = true \/ opened ex t -> closing t' = true \/ opened ex t'.
Proof. intros L A [C|O]; [left; by apply (later_closing _ _ L)|right; by apply (opened_alike ex t)]. Qed.

Lemma restart_ticks b (inv : bool) t :
  ticking t -> ticking (upd (fun u => if inv then set_timers (retr_timer u) true u else set_timers true (fr_timer u) u) b t).
Proof.
  intros [C|(Hs & T & n & u & Hu & H1 & H2 & H3)]; [by left|]. right. split; [done|]. split.
  - intros i v Hv Hi Hb Hl _. simpl in Hv. rewrite list_lookup_alter in Hv. destruct (decide (b = i)) as [->|N]; [|by apply (T i v)].
    destruct (uac t !! i) as [w|] eqn:Ew; [|done]. injection Hv as <-. destruct inv; [done|]. by apply (T i w).
  - exists n. unfold awaited. simpl. rewrite list_lookup_alter. destruct (decide (b = n)) as [->|N]; [|by exists u].
    rewrite Hu. simpl. eexists. split; [done|]. by destruct inv.
Qed.

Lemma reply_received_ticks oc dr rs ra b code t :
  proxied t -> ticking t -> may_return (reply_received e oc dr rs ra b code t) (fun t' => proxied t' /\ ticking t').
Proof.
  intros P K. unfold reply_received. destruct (oc && is_invite t).
  { apply may_ret. split; [done|]. apply (closing_or_opened None t); [by apply later_upd|by apply alike_upd|done]. }
  cbv zeta. set (t1 := upd _ b t).
  assert (L1 : later t t1) by (apply later_upd; intros u; by destruct (200 <=? code)).
  assert (K1 : closing t1 = true \/ opened (if 200 <=? code then Some b else None) t1).
  { destruct K as [C|O]; [by left|right]. unfold t1. destruct (200 <=? code); [by apply opened_stop|].
    apply (opened_alike None t); [by apply alike_upd|done]. }
  clearbody t1. set (t2 := if is_invite t1 && _ then _ else t1).
  assert (later t1 t2 /\ alike t1 t2) as [L2 A2] by (unfold t2; destruct (is_invite t1 && _); [by split; [apply later_emit|]|done]).
  clearbody t2. destruct (dr && (code <? 200)) eqn:Ed.
  { apply may_ret. split; [apply (later_proxied t); [by etrans|done]|]. apply (closing_or_opened None t1); [done|done|]. bool_to_prop. by rewrite (proj2 (Z.leb_gt 200 code)) in K1. }
  set (t3 := upd _ b t2). assert (later t2 t3 /\ alike t2 t3) as [L3 A3] by (split; [by apply later_upd|by apply alike_upd]).
  match goal with |- context [if ?c then upd ?f b ?x else t3] => set (to_cancel := c); set (t4 := if to_cancel then upd f b x else t3) end.
  assert (later t3 t4 /\ alike t3 t4) as [L4 A4].
  { unfold t4. destruct to_cancel; [|done].
    split; (etrans; [|first [by apply later_upd|by apply alike_upd]]); (destruct (code <? 200); [|done]);
      [apply later_cancel_branch|apply alike_cancel_branch]. }
  clearbody t3 t4. assert (L : later t t4) by (do 3 (etrans; [eassumption|]); done).
  assert (K4 : closing t4 = true \/ opened (if 200 <=? code then Some b else None) t4).
  { apply (closing_or_opened _ t1); [do 2 (etrans; [eassumption|]); done|do 2 (etrans; [eassumption|]); done|done]. }
  apply (later_proxied _ _ L) in P. rewrite (proj1 P). clear - OK P K4.
  apply (may_bind _ _ (fun r => goes_on r /\ proxied r.2)).
  { intros r E. pose proof (later_relay_reply e _ (live_env _ OK) _ _ _ _ _ _ E) as L5. split; [|by apply (later_proxied t4)].
    revert r E L5. destruct P as [_ P]. intros r E _. revert r E.
    destruct (Z.leb_spec 200 code); [by apply relay_final|by apply relay_provisional]. }
  clear. intros [[st bm] t5] [G P5]. cbn [snd] in P5. set (t6 := if decide (st = RPS_COMPLETED) then _ else t5).
  assert (K6 : proxied t6 /\ ticking t6).
  { unfold t6, goes_on in *. cbn [fst snd] in G. case_decide; [|split; [done|]; destruct G as [C|[_ O]]; [by left|by right]].
    pose proof (later_cleanup t5) as L1. pose proof (later_if_cancel e (is_invite (cleanup_uac_timers t5)) bm (cleanup_uac_timers t5)) as L2.
    apply (later_proxied _ _ L1), (later_proxied _ _ L2) in P5. destruct G as [C|[? _]]; [|done].
    apply (later_closing _ _ L1), (later_closing _ _ L2) in C.
    match goal with |- context [if ?b then put_on_wait ?x else ?x] => destruct b end; (split; [exact P5|by left]). }
  case_decide; [|by apply may_ret]. apply may_ret. destruct K6 as [P6 K6].
  match goal with |- context [if ?c then upd _ _ _ else _] => destruct c; [|done] end. split; [done|]. by apply restart_ticks.
Qed.

Lemma cancel_silent_ticks bm bs : forall t, proxied t -> ticking t ->
  may_return (cancel_silent e bm bs t) (fun t' => proxied t' /\ ticking t').
Proof.
  induction bs as [|b bs IH]; intros t P K; cbn [cancel_silent]; [by apply may_ret|]. cbv zeta.
  match goal with |- context [if ?c then _ else _] => destruct c; [|by apply IH] end.
  set (t1 := upd _ b t). assert (K1 : closing t1 = true \/ opened (Some b) t1) by (destruct K as [?|O]; [by left|right; by apply opened_stop]).
  eapply may_bind; [by apply (relay_final_later _ b 487 _ t1)|].
  intros [[st bm'] t2] [G L]. apply IH; [by apply (later_proxied t1)|]. destruct G as [C|[_ O]]; [by left|by right].
Qed.

Lemma cancel_invite_ticks bm t : proxied t -> ticking t -> may_return (cancel_invite e bm t) (fun t' => proxied t' /\ ticking t').
Proof.
  intros P K. unfold cancel_invite. cbv zeta. set (t1 := set_t_flags _ t).
  assert (L1 : later t t1) by (by apply later_flags). assert (A1 : alike t t1) by done.
  pose proof (later_which 0 t1) as L2. pose proof (alike_which 0 t1) as A2. destruct (which_cancel 0 t1) as [c t2].
  cbn [snd] in *. assert (L : later t (cancel_uacs e c t2)) by (etrans; [exact L1|]; etrans; [exact L2|]; apply later_cancel_loop).
  apply cancel_silent_ticks; [by apply (later_proxied t)|].
  apply (closing_or_opened None t); [done| |done]. etrans; [exact A1|]. etrans; [exact A2|]. apply alike_cancel_uacs.
Qed.

End Open.

(** ** Runs *)

(** The script has not forwarded the request yet. *)
Definition idle (t : cell) : Prop := uac t = [] /\ status t < 200.

(** The script forwards once, to destinations it can send to. *)
Definition proper (a : action) (t : cell) : Prop :=
  match a with A_forward l => uac t = [] /\ sendable l | _ => True end.

Lemma idle_not_enabled t a b : idle t -> enabled a t = true ->
  match a with A_reply _ _ _ _ b' _ | A_final b' | A_retransmission _ b' | A_cancel_final b' | A_cancel_retransmission _ b' => b' = b | _ => False end -> False.
Proof. intros [Hu _] En Hb. destruct a; try done; simpl in En; unfold nr_of_outgoings in En; by rewrite Hu in En. Qed.

Lemma send_reply_ticks e code t : live_ok e -> proxied t -> ticking t \/ idle t ->
  let t' := (t_reply_unsafe e code t).2 in ticking t' \/ idle t'.
Proof.
  intros OK [_ Hh] K t'. destruct (Z.leb_spec 200 (status t)) as [Hs|Hs]; [left; left; apply reply_closes; auto|].
  destruct (Z.leb_spec 200 code) as [Hc|Hc]; [left; left; apply reply_closes; auto|].
  destruct (reply_provisional e OK code t Hs Hc) as (Es & Ef & El & _). fold t' in Es, Ef, El.
  destruct K as [[C|(_ & T & n & Hn)]|[Hu _]].
  - left. left. by apply (later_closing _ _ (later_reply e code t)).
  - left. right. assert (A : alike (set_status code t) t') by done. split; [lia|].
    split; [by apply (timed_alike None (set_status code t))|]. exists n. by apply (awaited_alike (set_status code t)).
  - right. split; [|lia]. rewrite Hu in El. by apply fmap_nil_inv in El.
Qed.

Lemma forward_ticks e l t : uac t = [] -> sendable l -> ticking t \/ idle t ->
  let t' := (t_forward_nonack e l t).2 in ticking t' \/ idle t'.
Proof.
  intros Hu Hl K t'. destruct K as [[C|(_ & _ & n & u & Hn & _)]|[_ Hs]].
  - left. left. by apply (later_closing _ _ (later_forward e l t)).
  - by rewrite Hu in Hn.
  - destruct (was_cancelled t || no_new_branches t) eqn:Ec.
    { unfold t', t_forward_nonack. rewrite Ec. by right. }
    destruct (forward_shape e l t Hl Ec) as (Es & T & [(Hn & Hb & _)|(Hn & _)]); fold t' in Es, T, Hn.
    + left. right. split; [lia|]. by split.
    + right. unfold nr_of_outgoings in Hn. rewrite Hu in Hn. split; [by apply length_zero_iff_nil|lia].
Qed.

Lemma perform_ticks e a t : live_ok e -> proxied t -> ticking t \/ idle t -> enabled a t = true -> proper a t ->
  may_return (perform e a t) (fun t' => proxied t' /\ (ticking t' \/ idle t')).
Proof.
  intros OK P K En Pr.
  assert (K' : forall b, match a with A_reply _ _ _ _ b' _ | A_final b' | A_retransmission _ b' | A_cancel_final b' | A_cancel_retransmission _ b' => b' = b | _ => False end -> ticking t).
  { intros b Hb. destruct K as [?|Hi]; [done|]. destruct (idle_not_enabled t a b Hi En Hb). }
  assert (Ok : forall t', proxied t' /\ ticking t' -> proxied t' /\ (ticking t' \/ idle t')) by tauto.
  destruct a as [oc dr rs ra b code|b|sent b|b|sent b| |bm|code|l|n]; cbn [perform proper] in *.
  - eapply may_impl; [apply (reply_received_ticks e OK); [done|by apply (K' b)]|done].
  - unfold final_response_handler. cbv zeta. match goal with |- context [if ?c then _ else _] => destruct c end.
    + apply may_ret, Ok. split; [done|by left].
    + eapply may_impl; [apply (fake_reply_ticks e OK); [done|done|done|by apply (K' b)]|done].
  - unfold retransmission_handler. specialize (K' b eq_refl). destruct sent.
    + apply may_ret, Ok. split; [done|]. by apply (restart_ticks b false t).
    + eapply may_impl; [by apply (fake_reply_ticks e OK)|done].
  - specialize (K' b eq_refl). apply may_ret, Ok. split; [done|].
    apply (closing_or_opened None t); [by apply later_upd|by apply alike_upd|done].
  - unfold cancel_retransmission. specialize (K' b eq_refl). destruct sent.
    + apply may_ret, Ok. split; [done|]. apply (closing_or_opened None t); [by apply later_upd|by apply alike_upd|done].
    + eapply may_impl; [by apply (fake_reply_ticks e OK)|done].
  - apply may_ret, Ok. split; [done|by left].
  - destruct K as [K|[Hu Hs]]; [eapply may_impl; [by apply (cancel_invite_ticks e OK)|done]|].
    intros t' E. unfold cancel_invite, which_cancel, cancel_uacs, nr_of_outgoings in E. simpl in E. rewrite Hu in E. simpl in E.
    injection E as <-. pose proof (later_proxied _ _ (later_flags T_WAS_CANCELLED_FLAG t eq_refl eq_refl) P) as P'.
    split; [exact P'|by right].
  - apply may_ret. split; [by apply (later_proxied t); [apply later_reply|]|by apply send_reply_ticks].
  - destruct Pr as [Hu Hl]. apply may_ret. split; [by apply (later_proxied t); [apply later_forward|]|by apply forward_ticks].
  - by apply may_ret.
Qed.

(** The runs of a proxied transaction. *)
Inductive lreach : cell -> Prop :=
| lr_start t : started t -> proxied t -> lreach t
| lr_step e a t t' : lreach t -> live_ok e -> enabled a t = true -> proper a t -> perform e a t = Ret t' -> lreach t'.

Lemma lreach_inv t : lreach t -> proxied t /\ (ticking t \/ idle t).
Proof.
  induction 1 as [t (Hu & Hs & _) P|e a t t' _ [P K] OK En Pr E]; [split; [done|right; split; [done|lia]]|].
  by apply (perform_ticks e a t OK P K En Pr).
Qed.


Lemma timer_runs t : lreach t -> uac t <> [] ->
  wait t = true \/ r_fr t = true \/ exists b u, uac t !! b = Some u /\ fr_timer u = true.
Proof.
  intros R Hu. destruct (lreach_inv t R) as [_ [[C|(_ & T & b & u & Hb & H1 & H2 & H3)]|[? _]]]; [| |done].
  - apply orb_true_iff in C as [?|?]; auto.
  - right. right. exists b, u. split; [done|]. by apply (T b u).
Qed.

(** Once a proxied request has been sent to some branch, a timer runs until the
    transaction is on the wait timer: the one for the ACK, or the final response timer of a
    branch. *)
Theorem always_a_timer t : lreach t -> uac t <> [] ->
  wait t = true \/ r_fr t = true \/ exists b u, uac t !! b = Some u /\ fr_timer u = true.
Proof. apply timer_runs. Qed.








Lemma plain_live : live_ok plain.
Proof. constructor; [apply plain_ok|done|done|done]. Qed.










(** ** A run *)

Lemma runs_lreach l : forall t, lreach t -> Forall (fun a => match a with A_forward _ => False | _ => True end) l ->
  runs l t = true -> exists t', performs (pair plain <$> l) t = Ret t' /\ lreach t'.
Proof.
  induction l as [|a l IH]; intros t R F H; [by exists t|]. cbn [runs] in H. apply andb_true_iff in H as [En H].
  apply Forall_cons in F as [Fa F]. csimpl. destruct (perform plain a t) as [t1|] eqn:E; [|done]. run. apply IH; [|done|done].
  apply (lr_step plain a t); [done|apply plain_live|done|by destruct a|done].
Qed.

Definition forked : cell := (t_forward_nonack plain [Some true; Some true] invite_cell).2.

Lemma forked_lreach : lreach forked.
Proof.
  apply (lr_step plain (A_forward [Some true; Some true]) invite_cell);
    [by apply lr_start|apply plain_live|done|split; [done|by repeat constructor]|done].
Qed.

Definition busy : cell := match performs (pair plain <$> [reply_to 0 180; reply_to 0 486]) forked with Ret t => t | Fault _ => forked end.

Lemma busy_lreach : lreach busy.
Proof.
  destruct (runs_lreach [reply_to 0 180; reply_to 0 486] forked forked_lreach) as (t' & E & R); [by repeat constructor|by vm_compute|].
  unfold busy. by rewrite E.
Qed.

(** One branch is busy: the timer of the other is left. *)
Lemma always_a_timer_witness :
  wait busy = false /\ r_fr busy = false /\ exists b u, uac busy !! b = Some u /\ fr_timer u = true.
Proof.
  split; [done|]. split; [done|].
  destruct (always_a_timer busy busy_lreach) as [H|[H|H]]; [by vm_compute|by vm_compute in H|by vm_compute in H|exact H].
Defined.


End TmLive.
