(* ===== verification/TmTable.v ===== *)
(** * Transactions: the table ([src/modules/tm/h_table.c], [t_lookup.c])

    Transactions are kept in a hash table by Call-ID and CSeq number; the synonyms of an
    entry are a list, numbered by their labels.  Requests are matched to a transaction by
    the branch parameter of their Via, or field by field when it has no magic cookie;
    replies by the branch parameter that was put into the request sent out
    ([branch_builder] of [src/msg_translator.c]).

    A message is the record of what the parsers found.  A transaction is named by [t_id];
    here it is what matching looks at.  The locks are held around each function. *)

From Stdlib Require Import ZArith Lia List String Ascii Bool Sorted.
From stdpp Require Import base tactics option list sorting gmap.
From S2P Require Import Prelude Ut HashFunc.

Module TmTable.
Import Ut HashFunc.

Definition MCOOKIE : bytes := Eval vm_compute in B "z9hG4bK".
Definition MCOOKIE_LEN : nat := 7.
Definition BRANCH_SEPARATOR : Z := §".".
Definition MD5_LEN : nat := 32.
Definition MAX_BRANCH_PARAM_LEN : nat := MCOOKIE_LEN + 8 + 1 + MD5_LEN + 1 + 8 + 1.
Definition MAX_BRANCHES : Z := 12.
Definition TM_TABLE_ENTRIES : Z := 65536.

Definition METHOD_INVITE : Z := 1.
Definition METHOD_CANCEL : Z := 2.
Definition METHOD_ACK : Z := 4.
Definition METHOD_OTHER : Z := 16384.

(** ** Messages *)

(** The topmost Via: its branch, if any, host, port, transport and whole text. *)
Record via_body : Type := Via {
  v_branch : option bytes;
  v_host : bytes;
  v_port : Z;
  v_transport : bytes;
  v_text : bytes
}.

(** A request.  [complete]: From, To, Call-ID and CSeq are there; [from_ok]: From parses;
    [uri_ok]: so does the Request-URI. *)
Record sip_req : Type := Req {
  complete : bool;
  from_ok : bool;
  uri_ok : bool;
  method : Z;
  method_name : bytes;
  callid : bytes;
  cseq : bytes;
  cseq_no : bytes;
  from : bytes;
  from_tag : bytes;
  to : bytes;
  to_uri : bytes;
  to_tag : bytes;
  ruri : bytes;
  via1 : option via_body
}.

(** A reply: branch of its topmost Via, method of its CSeq. *)
Record sip_reply : Type := Reply { r_branch : option bytes; r_method_id : Z; r_method : bytes }.

Definition has_cookie (v : via_body) : bool :=
  match v_branch v with
  | Some b => (MCOOKIE_LEN <? length b)%nat && bool_decide (take MCOOKIE_LEN b = MCOOKIE)
  | None => false
  end.

(** [tid], set when the request is looked up. *)
Definition tid (v : via_body) : bytes :=
  match v_branch v with Some b => if has_cookie v then drop MCOOKIE_LEN b else [] | None => [] end.

(** ** Transactions *)

Record tcell : Type := TCell {
  t_id : Z;
  hash_index : Z;
  label : Z;
  md5 : bytes;
  request : option sip_req;
  status : Z;
  relaied_reply_branch : Z;
  local_totag : bytes;
  nr_of_outgoings : Z;
  invite : bool;
  t_method : bytes;
  cancels : list bool;   (* the branches with a CANCEL *)
  ref_count : Z
}.

Definition set_place (h l : Z) (c : tcell) : tcell :=
  TCell (t_id c) h l (md5 c) (request c) (status c) (relaied_reply_branch c) (local_totag c) (nr_of_outgoings c)
    (invite c) (t_method c) (cancels c) (ref_count c).
Definition set_ref (n : Z) (c : tcell) : tcell :=
  TCell (t_id c) (hash_index c) (label c) (md5 c) (request c) (status c) (relaied_reply_branch c) (local_totag c)
    (nr_of_outgoings c) (invite c) (t_method c) (cancels c) n.

Record entry : Type := Entry { cells : list tcell; next_label : Z; cur_entries : Z; acc_entries : Z }.

(** An entry that was never used is the initial one, with a random label. *)
Record s_table : Type := Table { entrys : gmap Z entry; labels : Z -> Z }.

Definition init_hash_table (rand : Z -> Z) : s_table := Table ∅ rand.

Definition get_entry (h : Z) (tb : s_table) : entry :=
  match entrys tb !! h with Some x => x | None => Entry [] (labels tb h) 0 0 end.
Definition put_entry (h : Z) (x : entry) (tb : s_table) : s_table := Table (<[h := x]> (entrys tb)) (labels tb).

Definition insert_into_hash_table_unsafe (c : tcell) (h : Z) (tb : s_table) : s_table :=
  let x := get_entry h tb in
  put_entry h (Entry (cells x ++ [set_place h (next_label x) c]) (u32 (next_label x + 1))
                (u64 (cur_entries x + 1)) (u64 (acc_entries x + 1))) tb.

Definition remove_from_hash_table_unsafe (c : tcell) (tb : s_table) : s_table :=
  let x := get_entry (hash_index c) tb in
  put_entry (hash_index c) (Entry (base.filter (fun d => t_id d <> t_id c) (cells x)) (next_label x)
                (u64 (cur_entries x - 1)) (acc_entries x)) tb.

(** A transaction of an entry changes. *)
Definition change (f : tcell -> tcell) (i h : Z) (tb : s_table) : s_table :=
  let x := get_entry h tb in
  put_entry h (Entry ((fun c => if t_id c =? i then f c else c) <$> cells x) (next_label x) (cur_entries x) (acc_entries x)) tb.

(** [REF_UNSAFE] and [UNREF]. *)
Definition add_ref (n i h : Z) (tb : s_table) : s_table :=
  change (fun c => set_ref (u32 (ref_count c + n)) c) i h tb.

(** ** The branch parameter *)

(** What is left of the buffer, 0 for an error, and the bytes. *)
Definition branch_builder (hash_index label : Z) (char_v : option bytes) (branch : Z) : Z * bytes :=
  let '(w1, size, rc) := int2reverse_hex (MAX_BRANCH_PARAM_LEN - MCOOKIE_LEN) (s32 hash_index) in
  if rc =? -1 then (0, [])
  else if (size =? 0)%nat then (0, [])
  else
    let size := (size - 1)%nat in
    let '(w2, size, rc) := match char_v with
                           | Some v => (v, (size - MD5_LEN)%nat, 1)
                           | None => int2reverse_hex size (s32 label)
                           end in
    if rc =? -1 then (0, [])
    else if (size =? 0)%nat then (0, [])
    else
      let size := (size - 1)%nat in
      let '(w3, size, rc) := int2reverse_hex size branch in
      if rc =? -1 then (0, [])
      else (Z.of_nat size, MCOOKIE ++ w1 ++ [BRANCH_SEPARATOR] ++ w2 ++ [BRANCH_SEPARATOR] ++ w3).

Definition t_calc_branch (syn_branch : bool) (c : tcell) (b : Z) : Z * bytes :=
  if syn_branch then branch_builder (hash_index c) (label c) None b
  else branch_builder (hash_index c) 0 (Some (md5 c)) b.

(** The length of the token at the start of a string. *)
Fixpoint eat_token_end (p : bytes) : nat :=
  match p with
  | [] => 0
  | c :: p' => if (c =? §" ") || (c =? 9) || (c =? 10) || (c =? 13) then 0 else S (eat_token_end p')
  end.

Fixpoint eat_token2_end (delim : Z) (p : bytes) : nat :=
  match p with
  | [] => 0
  | c :: p' => if (c =? delim) || (c =? 10) || (c =? 13) then 0 else S (eat_token2_end delim p')
  end.

(** A token and what follows its separator. *)
Definition token (p : bytes) : option (bytes * bytes) :=
  let n := eat_token2_end BRANCH_SEPARATOR p in
  let scan_space := (length p - n)%nat in
  if (n =? 0)%nat || (scan_space <? 2)%nat || negb (bool_decide (p !! n = Some BRANCH_SEPARATOR)) then None
  else Some (take n p, drop (S n) p).

(** The parts of a branch parameter: entry, label or checksum, branch. *)
Definition split_branch (b : bytes) : option (bytes * bytes * bytes) :=
  if (length b <=? MCOOKIE_LEN)%nat || negb (bool_decide (take MCOOKIE_LEN b = MCOOKIE)) then None
  else
    match token (drop MCOOKIE_LEN b) with
    | None => None
    | Some (hashi, p) =>
        match token p with
        | None => None
        | Some (syni, p) =>
            let n := eat_token_end p in
            if (n =? 0)%nat then None else Some (hashi, syni, take n p)
        end
    end.

Definition reply_matches (syn_branch : bool) (entry_label : Z) (loopi : bytes) (branch_id : Z) (r : sip_reply) (c : tcell) : bool :=
  (if syn_branch then label c =? u32 entry_label else bool_decide (md5 c = loopi))
  && negb (nr_of_outgoings c <=? branch_id)
  && ((r_method_id r =? METHOD_CANCEL) && invite c && nth (Z.to_nat branch_id) (cancels c) false
      || match request c with
         | Some q => if negb (r_method_id r =? METHOD_OTHER) then r_method_id r =? method q
                     else bool_decide (r_method r = t_method c)
         | None => bool_decide (r_method r = t_method c)
         end).

(** The transaction, if any, with one more reference, and the branch; -1 for none. *)
Definition t_reply_matching (syn_branch : bool) (r : sip_reply) (tb : s_table) : option tcell * Z * s_table :=
  let nomatch := (None, -1, tb) in
  match r_branch r with
  | None => nomatch
  | Some b =>
      match split_branch b with
      | None => nomatch
      | Some (hashi, syni, branchi) =>
          let hash_index := reverse_hex2int hashi in
          let branch_id := reverse_hex2int branchi in
          let entry_label := reverse_hex2int syni in
          if (hash_index <? 0) || (TM_TABLE_ENTRIES <=? hash_index) || (branch_id <? 0) || (MAX_BRANCHES <=? branch_id)
             || (if syn_branch then entry_label <? 0 else negb (length syni =? MD5_LEN)%nat)
          then nomatch
          else
            match List.find (reply_matches syn_branch entry_label syni branch_id r) (cells (get_entry hash_index tb)) with
            | None => nomatch
            | Some c => (Some c, branch_id, add_ref 1 (t_id c) hash_index tb)
            end
      end
  end.

(** ** Matching requests *)

(** The transactions of the process: the current one, the one being cancelled, the one
    whose end-to-end ACK is handled. *)
Inductive tptr : Set := T_UNDEFINED | T_NULL | T_AT (id h : Z).

#[export] Instance tptr_eq_dec : EqDecision tptr.
Proof. solve_decision. Defined.

Record proc : Set := Proc { cur_T : tptr; cancelled_T : tptr; e2eack_T : tptr }.

Definition set_t (x : tptr) (pr : proc) : proc := Proc x (cancelled_T pr) (e2eack_T pr).
Definition set_cancelled (x : tptr) (pr : proc) : proc := Proc (cur_T pr) x (e2eack_T pr).
Definition set_e2eack (x : tptr) (pr : proc) : proc := Proc (cur_T pr) (cancelled_T pr) x.
Definition ptr (c : tcell) : tptr := T_AT (t_id c) (hash_index c).

(** Module parameters. *)
Record match_cfg : Set := MCfg { ruri_matching : bool; via1_matching : bool }.

Definition via_matching (inv_via ack_via : via_body) : bool :=
  bool_decide (tid inv_via = tid ack_via) && bool_decide (v_host inv_via = v_host ack_via)
  && (v_port inv_via =? v_port ack_via) && bool_decide (v_transport inv_via = v_transport ack_via).

Definition partial_dlg_matching (t p : sip_req) : bool :=
  bool_decide (callid t = callid p) && bool_decide (cseq_no t = cseq_no p) && from_ok t
  && bool_decide (from_tag t = from_tag p).

Definition dlg_matching (c : tcell) (ack : sip_req) : bool := bool_decide (to_tag ack = local_totag c).

Definition ack_matching (c : tcell) (t p : sip_req) : Z :=
  if negb (partial_dlg_matching t p) then 0
  else if negb (relaied_reply_branch c =? -2) then 2
  else if dlg_matching c p then 1
  else 0.

Definition parse_dlg (p : sip_req) : bool := complete p && from_ok p.

(** 1 and the transaction, 2 and the one whose end-to-end ACK it is, or 0. *)
Fixpoint match_loop (p : sip_req) (via : via_body) (skip_method : Z) (l : list tcell) (e2e : option tcell) (ret : Z)
  : Z * option tcell :=
  match l with
  | [] => match e2e with Some c => (ret, Some c) | None => (0, None) end
  | c :: l' =>
      match request c with
      | None => match_loop p via skip_method l' e2e ret
      | Some t =>
          if negb (Z.land skip_method (method t) =? 0) then match_loop p via skip_method l' e2e ret
          else if (method p =? METHOD_ACK) && absent e2e && (200 <=? status c) && (status c <? 300) then
            if negb (parse_dlg p) then (0, None)
            else
              let ret := ack_matching c t p in
              match_loop p via skip_method l' (if 0 <? ret then Some c else None) ret
          else if match via1 t with Some v => via_matching v via | None => false end then (1, Some c)
          else match_loop p via skip_method l' e2e ret
      end
  end.

Definition matching_3261 (p : sip_req) (via : via_body) (skip_method : Z) (x : entry) : Z * option tcell :=
  match_loop p via skip_method (cells x) None 0.

(** Comparison of header fields. *)
Definition via_text (q : sip_req) : bytes := match via1 q with Some v => v_text v | None => [] end.

Definition same_target (cfg : match_cfg) (t p : sip_req) : bool :=
  (negb (ruri_matching cfg) || bool_decide (ruri t = ruri p))
  && (negb (via1_matching cfg) || bool_decide (via_text t = via_text p)).

Definition same_request (cfg : match_cfg) (t p : sip_req) : bool :=
  bool_decide (callid t = callid p) && bool_decide (cseq t = cseq p) && bool_decide (from t = from p)
  && bool_decide (to t = to p) && same_target cfg t p.

(** An ACK or a CANCEL against the request it belongs to. *)
Definition same_call (t p : sip_req) : bool :=
  bool_decide (callid t = callid p) && bool_decide (cseq_no t = cseq_no p) && bool_decide (from t = from p)
  && bool_decide (to_uri t = to_uri p).

Fixpoint old_loop (cfg : match_cfg) (p : sip_req) (l : list tcell) (e2e : option tcell) : Z * option tcell :=
  match l with
  | [] => match e2e with Some c => (2, Some c) | None => (0, None) end
  | c :: l' =>
      match request c with
      | None => old_loop cfg p l' e2e
      | Some t =>
          if negb (method p =? METHOD_ACK) then
            if same_request cfg t p then (1, Some c) else old_loop cfg p l' e2e
          else if negb (method t =? METHOD_INVITE) || negb (same_call t p) then old_loop cfg p l' e2e
          else if status c <? 300 then
            if absent e2e then
              if negb (relaied_reply_branch c =? -2) then old_loop cfg p l' (Some c)
              else if dlg_matching c p then (1, Some c)
              else old_loop cfg p l' e2e
            else old_loop cfg p l' e2e
          else if same_target cfg t p then (1, Some c)
          else old_loop cfg p l' e2e
      end
  end.

Definition tm_hash (p : sip_req) : Z := core_hash (callid p) (Some (cseq_no p)) TM_TABLE_ENTRIES.

(** 1: found, -1: not found, -2: an end-to-end ACK, 0: error. *)
Definition t_lookup_request (cfg : match_cfg) (p : sip_req) (pr : proc) (tb : s_table) : Z * proc * s_table :=
  let isACK := method p =? METHOD_ACK in
  if isACK && bool_decide (e2eack_T pr = T_NULL) then (-1, pr, tb)
  else if isACK && negb (bool_decide (e2eack_T pr = T_UNDEFINED)) then (-2, pr, tb)
  else if negb (complete p) then (0, set_t T_NULL pr, tb)
  else
    let h := tm_hash p in
    match via1 p with
    | None => (0, set_t T_NULL pr, tb)
    | Some v =>
        let '(m, o) :=
          if has_cookie v then
            matching_3261 p v (if isACK then Z.lnot METHOD_INVITE else Z.lnot (method p)) (get_entry h tb)
          else old_loop cfg p (cells (get_entry h tb)) None in
        match o with
        | Some c =>
            if m =? 1 then (1, set_t (ptr c) pr, add_ref 1 (t_id c) h tb)
            else (-2, set_t T_NULL (set_e2eack (ptr c) pr), add_ref 1 (t_id c) h tb)
        | None => (-1, set_e2eack T_NULL (set_t T_NULL pr), tb)
        end
    end.

(** The transaction a CANCEL is for. *)
Definition cancel_matches (cfg : match_cfg) (p : sip_req) (c : tcell) : bool :=
  match request c with
  | None => false
  | Some t => negb (method t =? METHOD_CANCEL) && same_call t p && same_target cfg t p
  end.

Definition t_lookupOriginalT (cfg : match_cfg) (p : sip_req) (pr : proc) (tb : s_table) : tptr * proc * s_table :=
  if negb (bool_decide (cancelled_T pr = T_UNDEFINED)) then (cancelled_T pr, pr, tb)
  else
    let h := tm_hash p in
    match via1 p with
    | None => (T_NULL, set_cancelled T_NULL pr, tb)
    | Some v =>
        let o := if has_cookie v then
                   let '(m, o) := matching_3261 p v METHOD_CANCEL (get_entry h tb) in if m =? 1 then o else None
                 else List.find (cancel_matches cfg p) (cells (get_entry h tb)) in
        match o with
        | Some c => (ptr c, set_cancelled (ptr c) pr, add_ref 1 (t_id c) h tb)
        | None => (T_NULL, set_cancelled T_NULL pr, tb)
        end
    end.

(** By entry and label. *)
Definition t_lookup_ident (h l : Z) (pr : proc) (tb : s_table) : Z * proc * s_table :=
  if TM_TABLE_ENTRIES <=? h then (-1, pr, tb)
  else
    match List.find (fun c => label c =? l) (cells (get_entry h tb)) with
    | Some c => (1, set_t (ptr c) pr, add_ref 1 (t_id c) h tb)
    | None => (-1, set_t T_NULL pr, tb)
    end.

(** ** New transactions *)

(** What can fail, the address of a new cell and the checksum of a request. *)
Record new_env : Type := NewEnv {
  headers_ok : bool;
  mem_ok : bool;
  via_ok : bool;
  new_id : Z;
  char_msg_val : sip_req -> bytes
}.

Definition build_cell (e : new_env) (p : sip_req) : tcell :=
  TCell (new_id e) 0 0 (char_msg_val e p) (Some p) 0 (-1) [] 0 (method p =? METHOD_INVITE) (method_name p)
    (replicate 12 false) 1.

Definition E_BAD_REQ : Z := -400.
Definition E_OUT_OF_MEM : Z := -2.
Definition E_BAD_TUPEL : Z := -9.
Definition E_BAD_VIA : Z := -8.
Definition E_SCRIPT : Z := -10.

(** The error, or 1. *)
Definition new_t (e : new_env) (p : sip_req) (pr : proc) (tb : s_table) : Z * proc * s_table :=
  if (method p =? METHOD_INVITE) && negb (from_ok p) then (E_BAD_REQ, pr, tb)
  else if negb (uri_ok p) then (E_BAD_REQ, pr, tb)
  else if negb (mem_ok e) then (E_OUT_OF_MEM, pr, tb)
  else
    let h := tm_hash p in
    let c := build_cell e p in
    (1, set_t (T_AT (t_id c) h) pr, insert_into_hash_table_unsafe c h tb).

(** What is done to the transaction that was found. *)
Inductive absorbed : Set := Nothing | Released (i : tptr) | Retransmitted (i : tptr).

Definition t_newtran (cfg : match_cfg) (e : new_env) (p : sip_req) (pr : proc) (tb : s_table)
  : Z * absorbed * proc * s_table :=
  if negb (bool_decide (cur_T pr = T_UNDEFINED \/ cur_T pr = T_NULL)) then (E_SCRIPT, Nothing, pr, tb)
  else
    let pr := set_t T_UNDEFINED pr in
    if negb (headers_ok e) then (E_BAD_REQ, Nothing, pr, tb)
    else
      let '(lret, pr, tb) := t_lookup_request cfg p pr tb in
      if lret =? 0 then (E_BAD_TUPEL, Nothing, pr, tb)
      else if 0 <? lret then
        (0, if method p =? METHOD_ACK then Released (cur_T pr) else Retransmitted (cur_T pr), pr, tb)
      else if lret =? -2 then (1, Nothing, pr, tb)
      else if method p =? METHOD_ACK then (1, Nothing, pr, tb)
      else
        let '(rc, pr, tb) := new_t e p pr tb in
        if rc <? 0 then (rc, Nothing, pr, tb)
        else if negb (via_ok e) then
          (E_BAD_VIA, Released (cur_T pr), set_t T_UNDEFINED pr, add_ref (-1) (new_id e) (tm_hash p) tb)
        else (1, Nothing, pr, tb).

(** ** The branch parameter is read back *)

(** The characters of the parts: no separator, no white space. *)
Definition plain_char (c : Z) : bool :=
  negb ((c =? BRANCH_SEPARATOR) || (c =? §" ") || (c =? 9) || (c =? 10) || (c =? 13)).

Lemma hex_char_plain c : is_hex_char c = true -> plain_char c = true.
Proof.
  unfold is_hex_char, hex_digit, plain_char, BRANCH_SEPARATOR. intros H. apply negb_true_iff. rewrite !orb_false_iff, !Z.eqb_neq.
  destruct (c between 48 and 57) eqn:E1; [zbool|]. destruct (c between 97 and 102) eqn:E2; [zbool|].
  destruct (c between 65 and 70) eqn:E3; [zbool|done].
Qed.

Lemma hex_plain w : forallb is_hex_char w = true -> forallb plain_char w = true.
Proof. rewrite !forallb_forall. intros H x Hx. by apply hex_char_plain, H. Qed.

Lemma eat_token2_plain w c p : forallb plain_char w = true -> c = BRANCH_SEPARATOR ->
  eat_token2_end BRANCH_SEPARATOR (w ++ c :: p) = length w.
Proof.
  intros H ->. induction w as [|x w IH]; [done|]. simpl in H. apply andb_true_iff in H as [Hx H]. simpl.
  unfold plain_char in Hx. apply negb_true_iff in Hx. rewrite !orb_false_iff in Hx. destruct Hx as ((((H1 & H2) & H3) & H4) & H5).
  rewrite H1, H4, H5. simpl. by rewrite IH.
Qed.

Lemma eat_token_plain w : forallb plain_char w = true -> eat_token_end w = length w.
Proof.
  induction w as [|x w IH]; intros H; [done|]. simpl in H. apply andb_true_iff in H as [Hx H]. simpl.
  unfold plain_char in Hx. apply negb_true_iff in Hx. rewrite !orb_false_iff in Hx. destruct Hx as ((((H1 & H2) & H3) & H4) & H5).
  rewrite H2, H3, H4, H5. simpl. by rewrite IH.
Qed.

Lemma token_plain w p : forallb plain_char w = true -> w <> [] -> p <> [] -> token (w ++ [BRANCH_SEPARATOR] ++ p) = Some (w, p).
Proof.
  intros Hw Nw Np. unfold token. change (w ++ [BRANCH_SEPARATOR] ++ p) with (w ++ BRANCH_SEPARATOR :: p).
  rewrite eat_token2_plain by done. rewrite length_app. simpl.
  destruct (Nat.eqb_spec (length w) 0) as [E|_]; [by destruct w|].
  destruct (Nat.ltb_spec (length w + S (length p) - length w) 2) as [E|_]; [destruct p; [done|simpl in E; lia]|].
  rewrite bool_decide_true by (by apply list_lookup_middle). simpl. f_equal. f_equal.
  - by rewrite take_app_length.
  - by rewrite (cons_middle BRANCH_SEPARATOR), app_assoc, drop_app_length'; [|rewrite length_app; simpl; lia].
Qed.

Lemma split_plain w1 w2 w3 :
  forallb plain_char w1 = true -> forallb plain_char w2 = true -> forallb plain_char w3 = true ->
  w1 <> [] -> w2 <> [] -> w3 <> [] ->
  split_branch (MCOOKIE ++ w1 ++ [BRANCH_SEPARATOR] ++ w2 ++ [BRANCH_SEPARATOR] ++ w3) = Some (w1, w2, w3).
Proof.
  intros H1 H2 H3 N1 N2 N3. unfold split_branch.
  destruct (Nat.leb_spec (length (MCOOKIE ++ w1 ++ [BRANCH_SEPARATOR] ++ w2 ++ [BRANCH_SEPARATOR] ++ w3)) MCOOKIE_LEN) as [L|_].
  { rewrite length_app in L. destruct w1; [done|simpl in L; unfold MCOOKIE_LEN in L; lia]. }
  rewrite (take_app_length' MCOOKIE), (drop_app_length' MCOOKIE) by done. rewrite bool_decide_true by done. cbn [negb orb].
  rewrite token_plain; [|done|done|by destruct w2]. rewrite token_plain by done. rewrite eat_token_plain by done.
  destruct (Nat.eqb_spec (length w3) 0) as [E|_]; [by destruct w3|]. by rewrite firstn_all.
Qed.

(** A number in the parameter. *)
Lemma hex_part size n : 0 <= n < 2 ^ 31 -> (8 <= size)%nat ->
  exists w sz, int2reverse_hex size n = (w, sz, 1) /\ reverse_hex2int w = n /\ (sz + length w = size)%nat /\
    (length w <= 8)%nat /\ forallb plain_char w = true /\ w <> [].
Proof.
  intros Hn Hs. destruct (reverse_hex_roundtrip size n Hn Hs) as (w & sz & E & R & L).
  destruct (int2reverse_hex_text size n Hn) as [T1 T2]. rewrite E in T1, T2. simpl in T1, T2. exists w, sz.
  split; [done|]. split; [done|]. split; [done|]. split; [done|]. split; [by apply hex_plain|].
  intros ->. unfold int2reverse_hex in E. destruct size as [|size]; [lia|]. destruct (Z.eqb_spec n 0) as [->|N]; [done|].
  simpl negb in E. cbn [andb] in E. cbn [int2reverse_hex_loop] in E. rewrite (proj2 (Z.eqb_neq n 0)) in E by done.
  by destruct (int2reverse_hex_loop size (Z.shiftr n 4)) as [[? ?] ?].
Qed.

(** The middle part: a label or a checksum. *)
Definition middle_ok (syn : bool) (c : tcell) : Prop :=
  if syn then 0 <= label c < 2 ^ 31 else length (md5 c) = MD5_LEN /\ forallb plain_char (md5 c) = true.

Lemma calc_branch_text syn c b : 0 <= hash_index c < TM_TABLE_ENTRIES -> middle_ok syn c -> 0 <= b < 2 ^ 31 ->
  exists size w1 w2 w3,
    t_calc_branch syn c b = (size, MCOOKIE ++ w1 ++ [BRANCH_SEPARATOR] ++ w2 ++ [BRANCH_SEPARATOR] ++ w3) /\ 0 < size /\
    split_branch (MCOOKIE ++ w1 ++ [BRANCH_SEPARATOR] ++ w2 ++ [BRANCH_SEPARATOR] ++ w3) = Some (w1, w2, w3) /\
    reverse_hex2int w1 = hash_index c /\ (if syn then reverse_hex2int w2 = label c else w2 = md5 c) /\ reverse_hex2int w3 = b.
Proof.
  intros Hh Hm Hb. unfold TM_TABLE_ENTRIES in Hh.
  destruct (hex_part (MAX_BRANCH_PARAM_LEN - MCOOKIE_LEN) (hash_index c)) as (w1 & s1 & E1 & R1 & L1 & B1 & P1 & N1);
    [lia|vm_compute; lia|].
  assert (Hs1 : (43 <= s1)%nat) by (change (MAX_BRANCH_PARAM_LEN - MCOOKIE_LEN)%nat with 51%nat in L1; lia).
  assert (exists w2 s2, (if syn then int2reverse_hex (s1 - 1) (s32 (label c)) else (md5 c, (s1 - 1 - MD5_LEN)%nat, 1)) = (w2, s2, 1) /\
    (10 <= s2)%nat /\ forallb plain_char w2 = true /\ w2 <> [] /\ (if syn then reverse_hex2int w2 = label c else w2 = md5 c))
    as (w2 & s2 & E2 & Hs2 & P2 & N2 & R2).
  { destruct syn.
    - destruct (hex_part (s1 - 1) (label c)) as (w2 & s2 & E2 & R2 & L2 & B2 & P2 & N2); [done|lia|].
      exists w2, s2. rewrite s32_small by (simpl in Hm; lia). repeat split; try done. lia.
    - destruct Hm as [Hl Hp]. exists (md5 c), (s1 - 1 - MD5_LEN)%nat. split; [done|]. unfold MD5_LEN in *.
      split; [lia|]. split; [done|]. split; [by intros E; rewrite E in Hl|done]. }
  destruct (hex_part (s2 - 1) b) as (w3 & s3 & E3 & R3 & L3 & B3 & P3 & N3); [done|lia|].
  exists (Z.of_nat s3), w1, w2, w3. split; [|split; [lia|split; [by apply split_plain|done]]].
  unfold t_calc_branch, branch_builder. destruct syn; rewrite s32_small, E1 by lia; simpl (1 =? -1); cbn iota;
    rewrite (proj2 (Nat.eqb_neq s1 0)) by lia.
  - rewrite E2. simpl (1 =? -1). cbn iota. rewrite (proj2 (Nat.eqb_neq s2 0)) by lia. by rewrite E3.
  - injection E2 as <- <-. simpl (1 =? -1). cbn iota. rewrite (proj2 (Nat.eqb_neq _ 0)) by lia. by rewrite E3.
Qed.

(** ** The table *)

(** An entry into which [m] transactions were put: their labels count up from the first
    one, they know their place, and they are counted. *)
Record entry_ok (h l0 m : Z) (x : entry) : Prop := {
  eo_next : next_label x = u32 (l0 + m);
  eo_labels : exists ks, Forall2 (fun c k => label c = u32 (l0 + k)) (cells x) ks /\ StronglySorted Z.lt ks /\ Forall (fun k => 0 <= k < m) ks;
  eo_place : Forall (fun c => hash_index c = h) (cells x);
  eo_ids : NoDup (t_id <$> cells x);
  eo_cur : cur_entries x = u64 (zlen (cells x))
}.

(** The states of the table, with the number of transactions put into it. *)
Inductive treach : Z -> s_table -> Prop :=
| tr_init rand : (forall h, 0 <= rand h < 2 ^ 31) -> treach 0 (init_hash_table rand)
| tr_insert n tb c h : treach n tb -> 0 <= h < TM_TABLE_ENTRIES -> t_id c ∉ (t_id <$> cells (get_entry h tb)) ->
    treach (n + 1) (insert_into_hash_table_unsafe c h tb)
| tr_remove n tb c : treach n tb -> In c (cells (get_entry (hash_index c) tb)) -> treach n (remove_from_hash_table_unsafe c tb)
| tr_change n tb f i h : treach n tb -> (forall c, t_id (f c) = t_id c /\ hash_index (f c) = hash_index c /\ label (f c) = label c) ->
    treach n (change f i h tb).

Lemma get_put_eq h x tb : get_entry h (put_entry h x tb) = x.
Proof. unfold get_entry, put_entry. simpl. by rewrite lookup_insert_eq. Qed.

Lemma get_put_ne h k x tb : h <> k -> get_entry k (put_entry h x tb) = get_entry k tb.
Proof. intros N. unfold get_entry, put_entry. simpl. by rewrite lookup_insert_ne. Qed.

Lemma u32_succ a : u32 (u32 a + 1) = u32 (a + 1).
Proof. unfold u32. by rewrite Zplus_mod_idemp_l. Qed.

Lemma u64_plus a d : u64 (u64 a + d) = u64 (a + d).
Proof. unfold u64. by rewrite Zplus_mod_idemp_l. Qed.

Lemma insert_entry_ok h l0 m x c : 0 <= m -> entry_ok h l0 m x -> t_id c ∉ (t_id <$> cells x) ->
  entry_ok h l0 (m + 1) (Entry (cells x ++ [set_place h (next_label x) c]) (u32 (next_label x + 1)) (u64 (cur_entries x + 1)) (u64 (acc_entries x + 1))).
Proof.
  intros Hm [Hn (ks & L1 & L2 & L3) Hp Hi Hc] Nin. constructor; simpl.
  - rewrite Hn, u32_succ. f_equal. lia.
  - exists (ks ++ [m]). split; [|split].
    + apply Forall2_app; [done|]. by constructor.
    + apply StronglySorted_app_2; [|done|by repeat constructor]. intros a b Ha Hb. apply list_elem_of_singleton in Hb as ->.
      rewrite Forall_forall in L3. specialize (L3 a Ha). lia.
    + apply Forall_app. split; [eapply Forall_impl; [exact L3|simpl; lia]|]. constructor; [lia|done].
  - apply Forall_app. split; [done|]. by constructor.
  - rewrite fmap_app. apply NoDup_app. split; [done|]. split; [|apply NoDup_singleton].
    intros a Ha Hb. apply list_elem_of_singleton in Hb as ->. by apply Nin.
  - rewrite Hc, u64_plus, zlen_app. done.
Qed.

Lemma sublist_labels l0 ks l (P : tcell -> Prop) `{forall c, Decision (P c)} :
  Forall2 (fun c k => label c = u32 (l0 + k)) l ks -> StronglySorted Z.lt ks ->
  exists ks', Forall2 (fun c k => label c = u32 (l0 + k)) (base.filter P l) ks' /\ StronglySorted Z.lt ks' /\ ks' ⊆ ks.
Proof.
  induction 1 as [|c k l ks Hc F IH]; intros S; [by exists []|]. apply StronglySorted_inv in S as [S Hk].
  destruct (IH S) as (ks' & F' & S' & Sub). rewrite filter_cons. destruct (decide (P c)).
  - exists (k :: ks'). split; [by constructor|]. split.
    + constructor; [done|]. rewrite Forall_forall in Hk |- *. intros z Hz. by apply Hk, Sub.
    + intros z Hz. apply elem_of_cons in Hz as [->|Hz]; apply elem_of_cons; [by left|right; by apply Sub].
  - exists ks'. split; [done|]. split; [done|]. intros z Hz. apply elem_of_cons. right. by apply Sub.
Qed.

Lemma filter_keep (P : tcell -> Prop) `{forall c, Decision (P c)} l : Forall P l -> base.filter P l = l.
Proof. induction 1 as [|c l Hc _ IH]; [done|]. rewrite filter_cons, decide_True by done. by rewrite IH. Qed.

Lemma filter_id_length l c : NoDup (t_id <$> l) -> In c l -> zlen (base.filter (fun d => t_id d <> t_id c) l) = zlen l - 1.
Proof.
  induction l as [|d l IH]; intros N Hc; [done|]. csimpl in N. apply NoDup_cons in N as [Nd N]. rewrite filter_cons.
  destruct Hc as [->|Hc].
  - rewrite decide_False by tauto. rewrite zlen_cons. rewrite filter_keep; [lia|]. apply Forall_forall. intros x Hx E. apply Nd. rewrite <- E.
    by apply list_elem_of_fmap_2.
  - rewrite decide_True. { rewrite !zlen_cons, IH by done. lia. }
    intros E. apply Nd. rewrite E. by apply list_elem_of_fmap_2, list_elem_of_In.
Qed.

Lemma remove_entry_ok h l0 m x c : entry_ok h l0 m x -> In c (cells x) ->
  entry_ok h l0 m (Entry (base.filter (fun d => t_id d <> t_id c) (cells x)) (next_label x) (u64 (cur_entries x - 1)) (acc_entries x)).
Proof.
  intros [Hn (ks & L1 & L2 & L3) Hp Hi Hc] Hin. constructor; simpl; [done| | | |].
  - destruct (sublist_labels l0 ks (cells x) (fun d => t_id d <> t_id c) L1 L2) as (ks' & F & S & Sub).
    exists ks'. split; [done|]. split; [done|]. rewrite Forall_forall in L3 |- *. intros k Hk. by apply L3, Sub.
  - rewrite Forall_forall in Hp |- *. intros d Hd. apply list_elem_of_filter in Hd as [_ Hd]. by apply Hp.
  - eapply sublist_NoDup; [exact Hi|]. apply fmap_sublist, sublist_filter.
  - rewrite Hc, filter_id_length by done. change (zlen (cells x) - 1) with (zlen (cells x) + -1). by rewrite <- u64_plus.
Qed.

Lemma change_entry_ok h l0 m x f i : (forall c, t_id (f c) = t_id c /\ hash_index (f c) = hash_index c /\ label (f c) = label c) ->
  entry_ok h l0 m x ->
  entry_ok h l0 m (Entry ((fun c => if t_id c =? i then f c else c) <$> cells x) (next_label x) (cur_entries x) (acc_entries x)).
Proof.
  intros Hf [Hn (ks & L1 & L2 & L3) Hp Hi Hc]. set (g := fun c => if t_id c =? i then f c else c).
  assert (G : forall c, t_id (g c) = t_id c /\ hash_index (g c) = hash_index c /\ label (g c) = label c)
    by (intros c; unfold g; destruct (t_id c =? i); [apply Hf|done]).
  constructor; simpl; [done| | | |].
  - exists ks. split; [|done]. apply Forall2_fmap_l. eapply Forall2_impl; [exact L1|]. intros c k Hk. simpl. destruct (G c) as (_ & _ & ->). done.
  - apply Forall_fmap. eapply Forall_impl; [exact Hp|]. intros c Hk. simpl. by destruct (G c) as (_ & -> & _).
  - rewrite <- list_fmap_compose. erewrite list_fmap_ext; [exact Hi|]. intros k c _. simpl. by destruct (G c).
  - rewrite Hc. unfold zlen. by rewrite length_fmap.
Qed.

Lemma treach_ok n tb : treach n tb ->
  0 <= n /\ (forall h, 0 <= labels tb h < 2 ^ 31) /\ forall h, exists m, 0 <= m <= n /\ entry_ok h (labels tb h) m (get_entry h tb).
Proof.
  induction 1 as [rand Hr|n tb c h _ (Hn & Hl & IH) Hh Nin|n tb c _ (Hn & Hl & IH) Hin|n tb f i h _ (Hn & Hl & IH) Hf].
  - split; [lia|]. split; [exact Hr|]. intros h. exists 0. split; [lia|]. constructor; simpl; [|exists []; split; [constructor|split; constructor]|constructor|constructor|done].
    unfold u32. rewrite Z.add_0_r, Z.mod_small; [done|]. specialize (Hr h). lia.
  - split; [lia|]. split; [exact Hl|]. intros k. destruct (IH k) as (m & Hm & E). destruct (decide (h = k)) as [->|N].
    + exists (m + 1). split; [lia|]. unfold insert_into_hash_table_unsafe. rewrite get_put_eq. apply insert_entry_ok; [lia|done|done].
    + exists m. split; [lia|]. unfold insert_into_hash_table_unsafe. by rewrite get_put_ne.
  - split; [lia|]. split; [exact Hl|]. intros k. destruct (IH k) as (m & Hm & E). exists m. split; [lia|].
    unfold remove_from_hash_table_unsafe. destruct (decide (hash_index c = k)) as [<-|N]; [|by rewrite get_put_ne].
    rewrite get_put_eq. by apply remove_entry_ok.
  - split; [lia|]. split; [exact Hl|]. intros k. destruct (IH k) as (m & Hm & E). exists m. split; [lia|].
    unfold change. destruct (decide (h = k)) as [->|N]; [rewrite get_put_eq; by apply change_entry_ok|by rewrite get_put_ne].
Qed.

Lemma sorted_lookup ks : StronglySorted Z.lt ks -> forall i j a b, ks !! i = Some a -> ks !! j = Some b -> (i < j)%nat -> a < b.
Proof.
  induction 1 as [|k ks S IH F]; intros i j a b Hi Hj L; [done|]. destruct j as [|j]; [lia|]. destruct i as [|i]; simpl in *.
  - injection Hi as <-. rewrite Forall_lookup in F. by apply (F j).
  - apply (IH i j); try done. lia.
Qed.

(** Labels do not repeat within an entry before [2 ^ 32] transactions. *)
Lemma label_inj h l0 m x c d : m <= 2 ^ 32 -> entry_ok h l0 m x -> In c (cells x) -> In d (cells x) -> label c = label d -> c = d.
Proof.
  intros Hm [_ (ks & L1 & L2 & L3) _ _ _] Hc Hd E.
  apply list_elem_of_In, list_elem_of_lookup in Hc as (i & Hi). apply list_elem_of_In, list_elem_of_lookup in Hd as (j & Hj).
  destruct (Forall2_lookup_l _ _ _ _ _ L1 Hi) as (a & Ha & Ea). destruct (Forall2_lookup_l _ _ _ _ _ L1 Hj) as (b & Hb & Eb).
  rewrite Forall_lookup in L3. pose proof (L3 i a Ha). pose proof (L3 j b Hb).
  assert (a = b) as ->.
  { rewrite Ea, Eb in E. unfold u32 in E. apply (f_equal (fun z => (z - l0) mod 2 ^ 32)) in E.
    rewrite !Zminus_mod_idemp_l in E. replace (l0 + a - l0) with a in E by lia. replace (l0 + b - l0) with b in E by lia.
    rewrite !Z.mod_small in E by lia. done. }
  destruct (Nat.lt_trichotomy i j) as [L|[->|L]].
  - pose proof (sorted_lookup ks L2 i j b b Ha Hb L). lia.
  - rewrite Hi in Hj. by injection Hj.
  - pose proof (sorted_lookup ks L2 j i b b Hb Ha L). lia.
Qed.

(** The method of a reply fits the transaction: that of its request, or the CANCEL of the branch. *)
Definition method_fits (r : sip_reply) (c : tcell) (b : Z) : Prop :=
  (r_method_id r = METHOD_CANCEL /\ invite c = true /\ nth (Z.to_nat b) (cancels c) false = true) \/
  (exists q, request c = Some q /\ r_method_id r <> METHOD_OTHER /\ r_method_id r = method q) \/
  ((request c = None \/ r_method_id r = METHOD_OTHER) /\ r_method r = t_method c).

Lemma method_fits_ok r c b : method_fits r c b ->
  (r_method_id r =? METHOD_CANCEL) && invite c && nth (Z.to_nat b) (cancels c) false
      || match request c with
         | Some q => if negb (r_method_id r =? METHOD_OTHER) then r_method_id r =? method q
                     else bool_decide (r_method r = t_method c)
         | None => bool_decide (r_method r = t_method c)
         end = true.
Proof.
  intros [(-> & -> & ->)|[(q & -> & N & Eq)|([->| ->] & E)]]; [done| | |].
  - apply orb_true_iff. right. rewrite (proj2 (Z.eqb_neq _ METHOD_OTHER) N). simpl. by apply Z.eqb_eq.
  - apply orb_true_iff. right. by apply bool_decide_eq_true.
  - apply orb_true_iff. right. rewrite Z.eqb_refl. simpl. destruct (request c); by apply bool_decide_eq_true.
Qed.

Lemma find_only {A} (f : A -> bool) l c : In c l -> f c = true -> (forall d, In d l -> f d = true -> d = c) -> List.find f l = Some c.
Proof.
  intros Hc Hf U. destruct (List.find f l) as [d|] eqn:E.
  - apply find_some in E as [Hd Ed]. f_equal. by apply U.
  - by rewrite (find_none _ _ E c Hc) in Hf.
Qed.

(** C17: In every state of the table reached by inserting at most [2 ^ 32] transactions,
    removing and changing them, the branch parameter built for a branch of a transaction fits
    its buffer, and a reply that carries it and has a fitting method is matched to just that
    transaction and branch. This is for branch parameters built from the label (syn_branch, not
    from a digest of the request) and a transaction whose label is below [2 ^ 31]; from there on
    [labels_run_out]. *)
Theorem reply_finds_branch n tb c b r :
  treach n tb -> n <= 2 ^ 32 -> 0 <= hash_index c < TM_TABLE_ENTRIES -> In c (cells (get_entry (hash_index c) tb)) -> label c < 2 ^ 31 ->
  0 <= b < nr_of_outgoings c -> nr_of_outgoings c <= MAX_BRANCHES ->
  r_branch r = Some (t_calc_branch true c b).2 -> method_fits r c b ->
  0 < (t_calc_branch true c b).1 /\
  t_reply_matching true r tb = (Some c, b, add_ref 1 (t_id c) (hash_index c) tb).
Proof.
  intros R Hn Hh Hin Hl Hb Hm Hr Hf. apply treach_ok in R as (_ & _ & R). destruct (R (hash_index c)) as (m & Hmn & E).
  assert (Hl0 : 0 <= label c).
  { destruct E as [_ (ks & L1 & _ & _) _ _ _]. apply list_elem_of_In, list_elem_of_lookup in Hin as (i & Hi).
    destruct (Forall2_lookup_l _ _ _ _ _ L1 Hi) as (k & _ & ->). apply Z.mod_pos_bound. lia. }
  unfold MAX_BRANCHES in Hm. destruct (calc_branch_text true c b Hh (conj Hl0 Hl) ltac:(lia)) as (size & w1 & w2 & w3 & Ec & Hs & Sp & R1 & R2 & R3).
  rewrite Ec in Hr |- *. cbn [fst snd] in *. split; [done|]. unfold t_reply_matching. rewrite Hr, Sp, R1, R2, R3. unfold TM_TABLE_ENTRIES in *.
  rewrite (proj2 (Z.ltb_ge (hash_index c) 0)), (proj2 (Z.leb_gt 65536 (hash_index c))), (proj2 (Z.ltb_ge b 0)),
    (proj2 (Z.leb_gt MAX_BRANCHES b)), (proj2 (Z.ltb_ge (label c) 0)) by (unfold MAX_BRANCHES; lia). cbn [orb].
  rewrite (find_only _ _ c); [done|done| |].
  - unfold reply_matches. rewrite u32_small, Z.eqb_refl, (proj2 (Z.leb_gt (nr_of_outgoings c) b)) by lia. cbn [negb andb].
    by apply method_fits_ok.
  - intros d Hd Md. unfold reply_matches in Md. bool_to_prop. rewrite u32_small in * by lia.
    apply (label_inj (hash_index c) (labels tb (hash_index c)) m (get_entry (hash_index c) tb)); [lia|done|done|done|done].
Qed.

(** For a transaction whose label has passed [2 ^ 31] no branch parameter can be
    built, so its request cannot be forwarded: [int2reverse_hex] takes the label for a
    negative number. *)
Theorem labels_run_out c b : 0 <= hash_index c < TM_TABLE_ENTRIES -> 2 ^ 31 <= label c < 2 ^ 32 -> t_calc_branch true c b = (0, []).
Proof.
  intros Hh Hl. unfold TM_TABLE_ENTRIES in Hh. unfold t_calc_branch, branch_builder.
  destruct (hex_part (MAX_BRANCH_PARAM_LEN - MCOOKIE_LEN) (hash_index c)) as (w1 & s1 & E1 & _ & L1 & B1 & _); [lia|vm_compute; lia|].
  rewrite s32_small, E1 by lia. simpl (1 =? -1). cbn iota.
  rewrite (proj2 (Nat.eqb_neq s1 0)) by (change (MAX_BRANCH_PARAM_LEN - MCOOKIE_LEN)%nat with 51%nat in L1; lia).
  assert (Hneg : s32 (label c) < 0).
  { unfold s32. replace (label c + 2 ^ 31) with ((label c - 2 ^ 31) + 1 * 2 ^ 32) by lia. rewrite Z.mod_add by lia. rewrite Z.mod_small; lia. }
  pose proof (int2reverse_hex_negative (s1 - 1) _ Hneg) as E2. destruct (int2reverse_hex (s1 - 1) (s32 (label c))) as [[w2 s2] rc].
  simpl in E2. by rewrite E2.
Qed.

(** ** Retransmissions *)

Definition tid_matches (skip_method : Z) (via : via_body) (c : tcell) : bool :=
  match request c with
  | Some t => (Z.land skip_method (method t) =? 0) && match via1 t with Some v => via_matching v via | None => false end
  | None => false
  end.

(** The transactions a request other than an ACK belongs to. *)
Definition req_matches (cfg : match_cfg) (p : sip_req) (c : tcell) : bool :=
  match via1 p with
  | Some v => if has_cookie v then tid_matches (Z.lnot (method p)) v c
              else match request c with Some t => same_request cfg t p | None => false end
  | None => false
  end.

Lemma match_loop_find p v skip l : forall ret, method p <> METHOD_ACK ->
  match_loop p v skip l None ret = match List.find (tid_matches skip v) l with Some c => (1, Some c) | None => (0, None) end.
Proof.
  intros ret Np. revert ret. induction l as [|c l IH]; intros ret; [done|]. cbn [match_loop List.find]. unfold tid_matches at 1.
  destruct (request c) as [t|]; [|apply IH]. destruct (Z.land skip (method t) =? 0); cbn [negb andb]; [|apply IH].
  rewrite (proj2 (Z.eqb_neq (method p) METHOD_ACK) Np). cbn [andb].
  destruct (match via1 t with Some v0 => via_matching v0 v | None => false end); [done|apply IH].
Qed.

Lemma old_loop_find cfg p l : method p <> METHOD_ACK ->
  old_loop cfg p l None =
  match List.find (fun c => match request c with Some t => same_request cfg t p | None => false end) l with
  | Some c => (1, Some c) | None => (0, None) end.
Proof.
  intros Np. induction l as [|c l IH]; [done|]. cbn [old_loop List.find]. destruct (request c) as [t|]; [|apply IH].
  rewrite (proj2 (Z.eqb_neq (method p) METHOD_ACK) Np). cbn [negb]. destruct (same_request cfg t p); [done|apply IH].
Qed.

(** Looking up a request other than an ACK finds the first transaction it belongs to. *)
Lemma lookup_request_find cfg p pr tb : method p <> METHOD_ACK ->
  t_lookup_request cfg p pr tb =
  if negb (complete p) || absent (via1 p) then (0, set_t T_NULL pr, tb)
  else match List.find (req_matches cfg p) (cells (get_entry (tm_hash p) tb)) with
       | Some c => (1, set_t (ptr c) pr, add_ref 1 (t_id c) (tm_hash p) tb)
       | None => (-1, set_e2eack T_NULL (set_t T_NULL pr), tb)
       end.
Proof.
  intros Np. unfold t_lookup_request, req_matches. rewrite (proj2 (Z.eqb_neq (method p) METHOD_ACK) Np). cbn [andb].
  destruct (complete p); [|done]. cbn [negb orb]. destruct (via1 p) as [v|]; [|done]. cbn [absent].
  destruct (has_cookie v).
  - unfold matching_3261. rewrite match_loop_find by done. by destruct (List.find _ _).
  - rewrite old_loop_find by done. by destruct (List.find _ _).
Qed.

Lemma req_matches_self cfg p c : request c = Some p -> is_Some (via1 p) -> req_matches cfg p c = true.
Proof.
  intros Hc [v Hv]. unfold req_matches, tid_matches. rewrite Hv, Hc. destruct (has_cookie v).
  - rewrite Z.land_comm, Z.land_lnot_diag, Hv. simpl. unfold via_matching. by rewrite !bool_decide_true, Z.eqb_refl.
  - unfold same_request, same_target. rewrite !bool_decide_true by done. by rewrite !orb_true_r.
Qed.

Lemma find_map {A} (f : A -> bool) (g : A -> A) l : (forall x, f (g x) = f x) -> List.find f (g <$> l) = g <$> List.find f l.
Proof. intros H. induction l as [|x l IH]; [done|]. csimpl. rewrite H. by destruct (f x). Qed.

Lemma req_matches_ext cfg p c d : request c = request d -> req_matches cfg p c = req_matches cfg p d.
Proof. intros E. unfold req_matches, tid_matches. by rewrite E. Qed.

(** A new transaction was made: there was none before, and it is the last one of its entry. *)
Lemma newtran_made cfg e p pr tb pr' tb' : method p <> METHOD_ACK ->
  t_newtran cfg e p pr tb = (1, Nothing, pr', tb') ->
  complete p = true /\ is_Some (via1 p) /\ List.find (req_matches cfg p) (cells (get_entry (tm_hash p) tb)) = None /\
  tb' = insert_into_hash_table_unsafe (build_cell e p) (tm_hash p) tb.
Proof.
  intros Np E. unfold t_newtran in E. destruct (negb _); [done|]. destruct (negb (headers_ok e)); [done|].
  rewrite lookup_request_find in E by done. destruct (negb (complete p) || absent (via1 p)) eqn:Ec; [done|].
  apply orb_false_iff in Ec as [Ec Ev]. apply negb_false_iff in Ec. split; [done|].
  split; [destruct (via1 p); [by eexists|done]|].
  destruct (List.find (req_matches cfg p) _) as [c|]; [done|]. split; [done|].
  change (-1 =? 0) with false in E. change (0 <? -1) with false in E. change (-1 =? -2) with false in E. cbn iota in E.
  rewrite (proj2 (Z.eqb_neq (method p) METHOD_ACK) Np) in E. unfold new_t in E.
  destruct (_ && negb (from_ok p)); [done|]. destruct (negb (uri_ok p)); [done|]. destruct (negb (mem_ok e)); [done|].
  change (1 <? 0) with false in E. cbn iota in E. destruct (negb (via_ok e)); [done|]. by injection E as _ <-.
Qed.

(** What may happen to the table while the transaction with id [i] of entry [h] is kept:
    transactions are added, other ones removed, and any change but for their request. *)
Inductive goes_on (h i : Z) : s_table -> s_table -> Prop :=
| go_insert tb c k : goes_on h i tb (insert_into_hash_table_unsafe c k tb)
| go_remove tb c : hash_index c <> h \/ t_id c <> i -> goes_on h i tb (remove_from_hash_table_unsafe c tb)
| go_change tb f k j : (forall c, t_id (f c) = t_id c /\ hash_index (f c) = hash_index c /\ request (f c) = request c) ->
    goes_on h i tb (change f j k tb).

(** The transaction of the request is the first of its entry that matches it. *)
Definition first_match (cfg : match_cfg) (p : sip_req) (h i : Z) (tb : s_table) : Prop :=
  exists l1 c l2, cells (get_entry h tb) = l1 ++ c :: l2 /\ List.find (req_matches cfg p) l1 = None /\
    t_id c = i /\ hash_index c = h /\ request c = Some p.

Lemma find_filter {A} (f : A -> bool) (P : A -> Prop) `{!forall x, Decision (P x)} l :
  List.find f l = None -> List.find f (base.filter P l) = None.
Proof.
  induction l as [|x l IH]; [done|]. simpl. destruct (f x) eqn:E; [done|]. intros Hl. rewrite filter_cons.
  destruct (decide (P x)); [simpl; rewrite E|]; by apply IH.
Qed.

Lemma goes_on_first cfg p h i tb tb' : goes_on h i tb tb' -> first_match cfg p h i tb -> first_match cfg p h i tb'.
Proof.
  intros G (l1 & c & l2 & E & F & Hi & Hh & Hr). unfold first_match. destruct G as [tb d k|tb d Hd|tb g k j Hg].
  - unfold insert_into_hash_table_unsafe. destruct (decide (k = h)) as [->|N]; [|rewrite get_put_ne by done; by exists l1, c, l2].
    rewrite get_put_eq. simpl. rewrite E, <- app_assoc. simpl. by exists l1, c, (l2 ++ [set_place h (next_label (get_entry h tb)) d]).
  - unfold remove_from_hash_table_unsafe.
    destruct (decide (hash_index d = h)) as [Ed|N]; [|rewrite get_put_ne by done; by exists l1, c, l2].
    rewrite Ed, get_put_eq. simpl. rewrite E, filter_app, filter_cons, decide_True by (destruct Hd; congruence).
    eexists _, c, _. split; [done|]. split; [by apply find_filter|done].
  - unfold change. destruct (decide (k = h)) as [->|N]; [|rewrite get_put_ne by done; by exists l1, c, l2].
    rewrite get_put_eq. simpl. rewrite E, fmap_app. csimpl. set (g' := fun x => if t_id x =? j then g x else x).
    assert (Hg' : forall x, t_id (g' x) = t_id x /\ hash_index (g' x) = hash_index x /\ request (g' x) = request x)
      by (intros x; unfold g'; by destruct (t_id x =? j)).
    exists (g' <$> l1), (g' c), (g' <$> l2). destruct (Hg' c) as (-> & -> & ->). split; [done|]. split; [|done].
    rewrite find_map by (intros x; apply req_matches_ext, Hg'). by rewrite F.
Qed.

Lemma goes_on_firsts cfg p h i tb tb' : rtc (goes_on h i) tb tb' -> first_match cfg p h i tb -> first_match cfg p h i tb'.
Proof. induction 1 as [|tb tb1 tb2 G _ IH]; [done|]. intros H. by apply IH, (goes_on_first cfg p h i tb). Qed.

Lemma find_first {A} (f : A -> bool) l1 c l2 : List.find f l1 = None -> f c = true -> List.find f (l1 ++ c :: l2) = Some c.
Proof. intros N H. induction l1 as [|y l1 IH]; simpl in *; [by rewrite H|]. destruct (f y); [done|by apply IH]. Qed.

(** C18: When a request other than an ACK has made a transaction, its retransmissions are
    absorbed as long as that transaction is in the table, whatever transactions have been
    added, removed and changed since: [t_newtran] finds just that transaction, makes no other
    and sends its last reply again.  (The process is not handling a transaction and the
    headers of the retransmission parse, as they did before.) *)
Theorem retransmission_absorbed cfg e p pr tb pr' tb' tb2 e2 pr2 :
  method p <> METHOD_ACK -> t_newtran cfg e p pr tb = (1, Nothing, pr', tb') ->
  rtc (goes_on (tm_hash p) (new_id e)) tb' tb2 -> cur_T pr2 = T_UNDEFINED -> headers_ok e2 = true ->
  let T := T_AT (new_id e) (tm_hash p) in
  t_newtran cfg e2 p pr2 tb2 = (0, Retransmitted T, set_t T pr2, add_ref 1 (new_id e) (tm_hash p) tb2).
Proof.
  intros Np E G HT Hh T. destruct (newtran_made cfg e p pr tb pr' tb' Np E) as (Hcm & Hv & F & ->). clear E.
  apply (goes_on_firsts cfg p) in G as (l1 & c & l2 & Ec & F1 & Hi & Hx & Hr).
  - unfold t_newtran. rewrite HT, bool_decide_true by auto. cbn [negb]. rewrite Hh. cbn [negb].
    rewrite lookup_request_find by done. pose proof Hv as [v Ev]. rewrite Hcm, Ev. cbn [negb orb absent].
    rewrite Ec, (find_first _ _ _ _ F1) by (by apply req_matches_self). unfold ptr. rewrite Hi, Hx.
    change (0 <? 1) with true. cbn iota. rewrite (proj2 (Z.eqb_neq (method p) METHOD_ACK) Np). destruct pr2. simpl in HT. subst. done.
  - unfold first_match, insert_into_hash_table_unsafe. rewrite get_put_eq. eexists _, _, []. by split.
Qed.

(** ** Examples *)

Definition demo_req : sip_req :=
  Req true true true METHOD_INVITE (B "INVITE") (B "c1@host") (B "1 INVITE") (B "1") (B "<sip:a@x>;tag=1") (B "1")
    (B "<sip:b@y>") (B "sip:b@y") [] (B "sip:b@y")
    (Some (Via (Some (B "z9hG4bK776")) (B "10.0.0.1") 5060 (B "UDP") (B "SIP/2.0/UDP 10.0.0.1;branch=z9hG4bK776"))).

Definition demo_cell (id : Z) : tcell :=
  TCell id 0 0 [] (Some demo_req) 0 (-1) [] 2 true (B "INVITE") (replicate 12 false) 1.

Definition demo_table (first : Z) : s_table :=
  insert_into_hash_table_unsafe (demo_cell 200) 777
    (insert_into_hash_table_unsafe (demo_cell 100) 777 (init_hash_table (fun _ => first))).

Lemma demo_treach first : 0 <= first < 2 ^ 31 -> treach 2 (demo_table first).
Proof.
  intros H. apply (tr_insert 1); [apply (tr_insert 0); [by apply tr_init|done|apply not_elem_of_nil]|done|].
  unfold insert_into_hash_table_unsafe. rewrite get_put_eq. apply (bool_decide_unpack _). by vm_compute.
Qed.

(** The second transaction of an entry, branch 1. *)
Lemma reply_finds_branch_witness :
  let c := set_place 777 43 (demo_cell 200) in
  t_calc_branch true c 1 = (43, B "z9hG4bK903.b2.1") /\
  exists tb, t_reply_matching true (Reply (Some (B "z9hG4bK903.b2.1")) METHOD_INVITE (B "INVITE")) (demo_table 42) = (Some c, 1, tb).
Proof.
  intros c. split; [by vm_compute|]. eexists.
  apply (reply_finds_branch 2 (demo_table 42) c 1); [apply demo_treach; lia|lia|done| |done|done|done|by vm_compute|].
  - right. by left.
  - right. left. exists demo_req. by repeat split.
Defined.

(** An entry that starts at the largest label: its second transaction. *)
Lemma labels_run_out_witness :
  let c := set_place 777 (2 ^ 31) (demo_cell 200) in
  treach 2 (demo_table (2 ^ 31 - 1)) /\ In c (cells (get_entry 777 (demo_table (2 ^ 31 - 1)))) /\ t_calc_branch true c 0 = (0, []).
Proof.
  intros c. split; [apply demo_treach; lia|]. split; [right; by left|]. apply (labels_run_out c 0); [done|]. simpl. lia.
Defined.

Definition demo_env (id : Z) : new_env := NewEnv true true true id (fun _ => []).
Definition demo_cfg : match_cfg := MCfg true true.
Definition demo_proc : proc := Proc T_UNDEFINED T_UNDEFINED T_UNDEFINED.

(** The retransmission comes after a 180 has been sent and another transaction was made. *)
Lemma retransmission_absorbed_witness :
  let g c := TCell (t_id c) (hash_index c) (label c) (md5 c) (request c) 180 0 (local_totag c) 1 (invite c) (t_method c) (cancels c) (ref_count c) in
  let h := tm_hash demo_req in
  let '(rc, _, _, tb) := t_newtran demo_cfg (demo_env 300) demo_req demo_proc (init_hash_table (fun _ => 42)) in
  rc = 1 /\
  exists tb2 T, t_newtran demo_cfg (demo_env 400) demo_req demo_proc (insert_into_hash_table_unsafe (demo_cell 350) h (change g 300 h tb))
    = (0, Retransmitted T, set_t T demo_proc, tb2).
Proof.
  intros g h. destruct (t_newtran demo_cfg (demo_env 300) demo_req demo_proc (init_hash_table (fun _ => 42))) as [[[rc a] pr'] tb'] eqn:E.
  assert (rc = 1 /\ a = Nothing) as [-> ->].
  { apply (f_equal (fun r => (r.1.1.1, r.1.1.2))) in E. vm_compute in E. by injection E as <- <-. }
  split; [done|]. eexists. eexists.
  eapply (retransmission_absorbed demo_cfg (demo_env 300) demo_req demo_proc _ pr' tb' _ (demo_env 400) demo_proc); [done|exact E| |done|done].
  eapply rtc_l; [by apply (go_change _ _ _ g h 300)|]. eapply rtc_l; [apply go_insert|]. reflexivity.
Defined.

End TmTable.
