(* ===== verification/Lumps.v ===== *)
(** * Lumps ([src/data_lump.c], [src/lump_struct.h], [src/msg_translator.c])

    Changes to a message are not made in its buffer but kept as lumps: zones to delete,
    anchors, and texts to insert before or after them.  [lumps_len] computes by how much
    the message grows and repairs zones that overlap; [process_lumps] then copies the
    message into a buffer of that size, leaving out and inserting.

    A lump is a node with three pointers, so a list of lumps is a tree; [NULL] is the null
    pointer, and lumps are named by their address.  The buffer that is written has a
    capacity, and a write past it is a fault. *)

From Stdlib Require Import ZArith Lia List String Ascii Bool Sorted.
From stdpp Require Import base tactics option list list_numbers sorting.
From S2P Require Import Prelude.

Module Lumps.

(** ** Data *)

(** Address families and transports ([ip_addr.h]). *)
Definition AF_INET : Z := 2.
Definition AF_INET6 : Z := 10.
Definition PROTO_NONE : Z := 0.
Definition PROTO_UDP : Z := 1.
Definition PROTO_TCP : Z := 2.
Definition PROTO_TLS : Z := 3.
Definition PROTO_SCTP : Z := 4.
Definition SIP_PORT : Z := 5060.
Definition TRANSPORT_PARAM : bytes := Eval vm_compute in B ";transport=".
Definition RAND_MAX : Z := 2147483647.

Record ip_addr : Type := Ip { af : Z; addr : bytes }.

Record socket_info : Type := Sock {
  name : bytes;
  address : ip_addr;
  address_str : bytes;
  port_no : Z;
  port_no_str : bytes;
  proto : Z
}.

Record receive_info : Type := Rcv {
  src_ip : ip_addr;
  dst_ip : ip_addr;
  src_port : Z;
  dst_port : Z;
  rcv_proto : Z;
  proto_reserved1 : Z;
  bind_address : option socket_info
}.

Inductive lump_subst : Set :=
| SUBST_NOP
| SUBST_RCV_IP | SUBST_SND_IP
| SUBST_RCV_PORT | SUBST_SND_PORT
| SUBST_RCV_PROTO | SUBST_SND_PROTO
| SUBST_RCV_ALL | SUBST_SND_ALL.

Inductive lump_conditions : Set :=
| COND_FALSE | COND_TRUE
| COND_IF_DIFF_REALMS | COND_IF_DIFF_AF | COND_IF_DIFF_PROTO | COND_IF_DIFF_PORT | COND_IF_DIFF_IP
| COND_IF_RAND.

(** The operation with its member of the union [u] and the length. *)
Inductive lump_op : Type :=
| LUMP_NOP (offset len : Z)
| LUMP_DEL (offset len : Z)
| LUMP_ADD (value : bytes)
| LUMP_ADD_SUBST (subst : lump_subst)
| LUMP_ADD_OPT (cond : lump_conditions).

Definition LUMPFLAG_DUPED : Z := 1.
Definition LUMPFLAG_SHMEM : Z := 2.
Definition LUMPFLAG_BRANCH : Z := 4.
Definition LUMPFLAG_COND_TRUE : Z := 8.

(** A lump without its pointers, [l_id] being its address. *)
Record ldata : Type := Ld { l_id : Z; l_type : Z; l_op : lump_op; l_flags : Z }.

Inductive lump : Type :=
| NULL
| Lump (d : ldata) (before after next : lump).

(** The part of a message the lumps are about. *)
Record lmsg : Type := Lm { buf : bytes; eoh : option Z; add_rm : lump; body_lumps : lump }.

Definition set_add_rm (l : lump) (m : lmsg) : lmsg := Lm (buf m) (eoh m) l (body_lumps m).
Definition set_body_lumps (l : lump) (m : lmsg) : lmsg := Lm (buf m) (eoh m) (add_rm m) l.

(** ** Adding lumps *)

(** [mem] is what [pkg_malloc] returns, [flags] is [init_lump_flags]. *)
Definition new_lump (a type flags : Z) (op : lump_op) : ldata := Ld a type op flags.

Fixpoint append (x l : lump) : lump :=
  match l with
  | NULL => x
  | Lump d b a n => Lump d b a (append x n)
  end.

Definition append_new_lump (mem : option Z) (flags : Z) (l : lump) (new_hdr : bytes) (type : Z)
  : option Z * lump :=
  match mem with
  | None => (None, l)
  | Some p => (Some p, append (Lump (new_lump p type flags (LUMP_ADD new_hdr)) NULL NULL NULL) l)
  end.

Definition insert_new_lump (mem : option Z) (flags : Z) (l : lump) (new_hdr : bytes) (type : Z)
  : option Z * lump :=
  match mem with
  | None => (None, l)
  | Some p => (Some p, Lump (new_lump p type flags (LUMP_ADD new_hdr)) NULL NULL l)
  end.

(** Is there a lump at this address, and the change of the lump there. *)
Fixpoint has (p : Z) (l : lump) : bool :=
  match l with
  | NULL => false
  | Lump d b a n => (l_id d =? p) || has p b || has p a || has p n
  end.

Fixpoint alter_at (f : ldata -> lump -> lump -> lump -> lump) (p : Z) (l : lump) : lump :=
  match l with
  | NULL => NULL
  | Lump d b a n =>
      if l_id d =? p then f d b a n
      else Lump d (alter_at f p b) (alter_at f p a) (alter_at f p n)
  end.

Definition at_lump (p : Z) (l : lump) (f : ldata -> lump -> lump -> lump -> lump) : res lump :=
  if has p l then Ret (alter_at f p l) else Fault UseAfterFree.

Definition put_after (x : ldata) (d : ldata) (b a n : lump) : lump := Lump d b (Lump x NULL a NULL) n.
Definition put_before (x : ldata) (d : ldata) (b a n : lump) : lump := Lump d (Lump x b NULL NULL) a n.

(** A new lump immediately after (before) the lump at [p]. *)
Definition link_after (mem : option Z) (flags p : Z) (op : lump_op) (type : Z) (l : lump)
  : res (option Z * lump) :=
  match mem with
  | None => Ret (None, l)
  | Some q => l ← at_lump p l (put_after (new_lump q type flags op)); Ret (Some q, l)
  end.

Definition link_before (mem : option Z) (flags p : Z) (op : lump_op) (type : Z) (l : lump)
  : res (option Z * lump) :=
  match mem with
  | None => Ret (None, l)
  | Some q => l ← at_lump p l (put_before (new_lump q type flags op)); Ret (Some q, l)
  end.

Definition insert_new_lump_after (mem : option Z) (flags after : Z) (new_hdr : bytes) (type : Z) (l : lump)
  : res (option Z * lump) := link_after mem flags after (LUMP_ADD new_hdr) type l.

Definition insert_new_lump_before (mem : option Z) (flags before : Z) (new_hdr : bytes) (type : Z) (l : lump)
  : res (option Z * lump) := link_before mem flags before (LUMP_ADD new_hdr) type l.

Definition insert_subst_lump_after (mem : option Z) (flags after : Z) (subst : lump_subst) (type : Z) (l : lump)
  : res (option Z * lump) := link_after mem flags after (LUMP_ADD_SUBST subst) type l.

Definition insert_subst_lump_before (mem : option Z) (flags before : Z) (subst : lump_subst) (type : Z) (l : lump)
  : res (option Z * lump) := link_before mem flags before (LUMP_ADD_SUBST subst) type l.

Definition insert_cond_lump_after (mem : option Z) (flags after : Z) (c : lump_conditions) (type : Z) (l : lump)
  : res (option Z * lump) := link_after mem flags after (LUMP_ADD_OPT c) type l.

Definition insert_cond_lump_before (mem : option Z) (flags before : Z) (c : lump_conditions) (type : Z) (l : lump)
  : res (option Z * lump) := link_before mem flags before (LUMP_ADD_OPT c) type l.

(** Where a zone or an anchor starts. *)
Definition op_offset (op : lump_op) : option Z :=
  match op with
  | LUMP_NOP o _ | LUMP_DEL o _ => Some o
  | _ => None
  end.

(** In front of the first zone or anchor that starts later. *)
Fixpoint insert_sorted (x : ldata) (offset : Z) (l : lump) : lump :=
  match l with
  | NULL => Lump x NULL NULL NULL
  | Lump d b a n =>
      match op_offset (l_op d) with
      | Some o => if o >? offset then Lump x NULL NULL l else Lump d b a (insert_sorted x offset n)
      | None => Lump d b a (insert_sorted x offset n)
      end
  end.

Definition in_body (m : lmsg) (offset : Z) : bool :=
  match eoh m with Some e => offset >? e | None => false end.

Definition add_sorted (m : lmsg) (x : ldata) (offset : Z) : lmsg :=
  if in_body m offset then set_body_lumps (insert_sorted x offset (body_lumps m)) m
  else set_add_rm (insert_sorted x offset (add_rm m)) m.

Definition del_lump (mem : option Z) (flags : Z) (m : lmsg) (offset len type : Z) : res (option Z * lmsg) :=
  if offset >? zlen (buf m) then Fault Abort
  else if u32 (offset + len) >? zlen (buf m) then Fault Abort
  else match mem with
       | None => Ret (None, m)
       | Some p => Ret (Some p, add_sorted m (new_lump p type flags (LUMP_DEL offset len)) offset)
       end.

Definition anchor_lump (mem : option Z) (flags : Z) (m : lmsg) (offset len type : Z) : res (option Z * lmsg) :=
  if offset >? zlen (buf m) then Fault Abort
  else match mem with
       | None => Ret (None, m)
       | Some p => Ret (Some p, add_sorted m (new_lump p type flags (LUMP_NOP offset len)) offset)
       end.

(** ** Freeing and copying *)

(** The text of a lump that was copied, or lies in shared memory, must not be freed. *)
Definition free_lump (d : ldata) : res () :=
  match l_op d with
  | LUMP_ADD _ =>
      if Z.land (l_flags d) (Z.lor LUMPFLAG_DUPED LUMPFLAG_SHMEM) =? 0 then Ret () else Fault Abort
  | _ => Ret ()
  end.

Inductive lump_dir : Set := LD_BEFORE | LD_AFTER.

(** The freed addresses of a chain, each lump first given to [free]. *)
Fixpoint free_chain (free : ldata -> res ()) (dir : lump_dir) (r : lump) : res (list Z) :=
  match r with
  | NULL => Ret []
  | Lump d b a _ =>
      _ ← free d;
      l ← free_chain free dir (match dir with LD_BEFORE => b | LD_AFTER => a end);
      Ret (l_id d :: l)
  end.

Fixpoint free_list (free : ldata -> res ()) (t : lump) : res (list Z) :=
  match t with
  | NULL => Ret []
  | Lump d b a n =>
      lb ← free_chain free LD_BEFORE b;
      la ← free_chain free LD_AFTER a;
      _ ← free d;
      ln ← free_list free n;
      Ret (lb ++ la ++ l_id d :: ln)
  end.

Definition free_lump_list (l : lump) : res (list Z) := free_list free_lump l.

(** A copied lump leaves its text to the original. *)
Definition free_unless_duped (d : ldata) : res () :=
  if l_flags d =? LUMPFLAG_DUPED then Ret () else free_lump d.

Definition free_duped_lump_list (l : lump) : res (list Z) := free_list free_unless_duped l.

(** The lumps of a chain that are not to go, and the freed addresses. *)
Fixpoint del_chain (gone : Z -> bool) (dir : lump_dir) (r : lump) : res (lump * list Z) :=
  match r with
  | NULL => Ret (NULL, [])
  | Lump d b a n =>
      if gone (l_flags d) then
        _ ← free_lump d;
        '(r', l) ← del_chain gone dir (match dir with LD_BEFORE => b | LD_AFTER => a end);
        Ret (r', l_id d :: l)
      else
        '(r', l) ← del_chain gone dir (match dir with LD_BEFORE => b | LD_AFTER => a end);
        Ret (match dir with LD_BEFORE => Lump d r' a n | LD_AFTER => Lump d b r' n end, l)
  end.

Fixpoint del_lumps (gone : Z -> bool) (crt : lump) : res (lump * list Z) :=
  match crt with
  | NULL => Ret (NULL, [])
  | Lump d b a n =>
      if gone (l_flags d) then
        l ← free_lump_list (Lump d b a NULL);
        '(n', ln) ← del_lumps gone n;
        Ret (n', l ++ ln)
      else
        '(a', la) ← del_chain gone LD_AFTER a;
        '(b', lb) ← del_chain gone LD_BEFORE b;
        '(n', ln) ← del_lumps gone n;
        Ret (Lump d b' a' n', la ++ lb ++ ln)
  end.

Definition del_flaged_lumps (l : lump) (flags : Z) : res (lump * list Z) :=
  del_lumps (fun f => negb (Z.land f flags =? 0)) l.

Definition del_notflaged_lumps (l : lump) (not_flags : Z) : res (lump * list Z) :=
  del_lumps (fun f => negb (Z.land (Z.lnot f) not_flags =? 0)) l.

(** Copies, taking their addresses from [mem]; [None] when it has run out (the lumps copied
    so far are freed, the addresses are used up). *)
Fixpoint dup_chain (flags : Z) (dir : lump_dir) (l : lump) (mem : list Z) : option lump * list Z :=
  match l with
  | NULL => (Some NULL, mem)
  | Lump d b a _ =>
      match mem with
      | [] => (None, [])
      | p :: mem =>
          let d' := Ld p (l_type d) (l_op d) (Z.lor flags LUMPFLAG_DUPED) in
          match dir with
          | LD_BEFORE => let '(b', mem) := dup_chain flags dir b mem in
                         ((λ b', Lump d' b' NULL NULL) <$> b', mem)
          | LD_AFTER => let '(a', mem) := dup_chain flags dir a mem in
                        ((λ a', Lump d' NULL a' NULL) <$> a', mem)
          end
      end
  end.

Fixpoint dup_lump_list_r (flags : Z) (l : lump) (mem : list Z) : option lump * list Z :=
  match l with
  | NULL => (Some NULL, mem)
  | Lump d b a n =>
      match mem with
      | [] => (None, [])
      | p :: mem =>
          let d' := Ld p (l_type d) (l_op d) (Z.lor flags LUMPFLAG_DUPED) in
          let '(b', mem) := dup_chain flags LD_BEFORE b mem in
          match b' with
          | None => (None, mem)
          | Some b' =>
              let '(a', mem) := dup_chain flags LD_AFTER a mem in
              match a' with
              | None => (None, mem)
              | Some a' =>
                  let '(n', mem) := dup_lump_list_r flags n mem in
                  ((λ n', Lump d' b' a' n') <$> n', mem)
              end
          end
      end
  end.

(** A null pointer for an empty list and for an error. *)
Definition dup_lump_list (flags : Z) (l : lump) (mem : list Z) : lump :=
  match (dup_lump_list_r flags l mem).1 with Some l' => l' | None => NULL end.

(** ** Conditions and substitutions *)

(** What the texts of lumps depend on besides the lumps: how the message was received,
    where it is sent from, the advertised address and port, and the numbers [rand] gives. *)
Record lenv : Type := Le {
  rcv : receive_info;
  send_sock : option socket_info;
  set_global_address : bytes;
  set_global_port : bytes;
  rand : nat -> Z
}.

Definition ip_addr_cmp (a b : ip_addr) : bool := (af a =? af b) && bool_decide (addr a = addr b).

(** Address, port and protocol the message was received on. *)
Definition get_ip_port_proto (r : receive_info) : ip_addr * Z * Z :=
  match bind_address r with
  | Some s => (address s, port_no s, proto s)
  | None => (dst_ip r, dst_port r, rcv_proto r)
  end.

Definition cond_true (d : ldata) : ldata :=
  Ld (l_id d) (l_type d) (l_op d) (Z.lor (l_flags d) LUMPFLAG_COND_TRUE).

(** The result, the lump with its flag, and the numbers of [rand] used so far. *)
Definition lump_check_opt (e : lenv) (c : lump_conditions) (d : ldata) (k : nat) : bool * ldata * nat :=
  let '(ip, port, pr) := get_ip_port_proto (rcv e) in
  let unless (same : socket_info -> bool) :=
    match send_sock e with
    | None => (true, d, k)
    | Some s => if same s then (false, d, k) else (true, cond_true d, k)
    end in
  match c with
  | COND_FALSE => (false, d, k)
  | COND_TRUE => (true, cond_true d, k)
  | COND_IF_DIFF_REALMS =>
      unless (fun s => (port =? port_no s) && (pr =? proto s) && ip_addr_cmp ip (address s))
  | COND_IF_DIFF_AF => unless (fun s => af ip =? af (address s))
  | COND_IF_DIFF_PROTO => unless (fun s => pr =? proto s)
  | COND_IF_DIFF_PORT => unless (fun s => port =? port_no s)
  | COND_IF_DIFF_IP => unless (fun s => ip_addr_cmp ip (address s))
  | COND_IF_RAND => (rand e k >=? RAND_MAX / 2, d, S k)
  end.

(** Is the socket's own address (port) used, not an advertised one. *)
Definition own_address (e : lenv) : bool := zlen (set_global_address e) =? 0.
Definition own_port (e : lenv) : bool := zlen (set_global_port e) =? 0.

Definition send_address_str (e : lenv) (s : socket_info) : bytes :=
  if own_address e then address_str s else set_global_address e.
Definition send_port_str (e : lenv) (s : socket_info) : bytes :=
  if own_port e then port_no_str s else set_global_port e.

Definition proto_name_len (p : Z) : Z :=
  if (p =? PROTO_NONE) || (p =? PROTO_UDP) || (p =? PROTO_TCP) || (p =? PROTO_TLS) then 3
  else if p =? PROTO_SCTP then 4 else 0.

Definition transport_len (p : Z) : Z :=
  if (p =? PROTO_NONE) || (p =? PROTO_UDP) then 0
  else if (p =? PROTO_TCP) || (p =? PROTO_TLS) then zlen TRANSPORT_PARAM + 3
  else if p =? PROTO_SCTP then zlen TRANSPORT_PARAM + 4 else 0.

(** What [SUBST_LUMP_LEN] adds to [new_len]. *)
Definition SUBST_LUMP_LEN (e : lenv) (s : lump_subst) : Z :=
  let bracket (b : bool) := if b then 2 else 0 in
  let v6 (si : socket_info) := negb (af (address si) =? AF_INET) in
  match s, bind_address (rcv e), send_sock e with
  | SUBST_RCV_IP, Some si, _ => zlen (address_str si) + bracket (v6 si)
  | SUBST_RCV_PORT, Some si, _ => zlen (port_no_str si)
  | SUBST_RCV_PROTO, Some si, _ => proto_name_len (proto si)
  | SUBST_RCV_ALL, Some si, _ =>
      zlen (address_str si) + bracket (v6 si)
      + (if negb (port_no si =? SIP_PORT) then 1 + zlen (port_no_str si) else 0)
      + transport_len (proto si)
  | SUBST_SND_IP, _, Some si => zlen (send_address_str e si) + bracket (v6 si && own_address e)
  | SUBST_SND_PORT, _, Some si => zlen (send_port_str e si)
  | SUBST_SND_PROTO, _, Some si => proto_name_len (proto si)
  | SUBST_SND_ALL, _, Some si =>
      zlen (send_address_str e si) + bracket (v6 si && own_address e)
      + (if negb (port_no si =? SIP_PORT) || negb (own_port e) then 1 + zlen (send_port_str e si) else 0)
      + transport_len (proto si)
  | _, _, _ => 0
  end.

Definition proto_name (p : Z) : bytes :=
  if (p =? PROTO_NONE) || (p =? PROTO_UDP) then B "udp"
  else if p =? PROTO_TCP then B "tcp"
  else if p =? PROTO_TLS then B "tls"
  else if p =? PROTO_SCTP then B "sctp" else [].

Definition transport (p : Z) : bytes :=
  if (p =? PROTO_NONE) || (p =? PROTO_UDP) then []
  else if p =? PROTO_TCP then TRANSPORT_PARAM ++ B "tcp"
  else if p =? PROTO_TLS then TRANSPORT_PARAM ++ B "tls"
  else if p =? PROTO_SCTP then TRANSPORT_PARAM ++ B "sctp" else [].

(** What [SUBST_LUMP] writes. *)
Definition SUBST_LUMP (e : lenv) (s : lump_subst) : bytes :=
  let host (b : bool) (h : bytes) := if b then [§"["] ++ h ++ [§"]"] else h in
  let v6 (si : socket_info) := negb (af (address si) =? AF_INET) in
  match s, bind_address (rcv e), send_sock e with
  | SUBST_RCV_IP, Some si, _ => host (v6 si) (address_str si)
  | SUBST_RCV_PORT, Some si, _ => port_no_str si
  | SUBST_RCV_ALL, Some si, _ =>
      host (v6 si) (address_str si)
      ++ (if negb (port_no si =? SIP_PORT) then [§":"] ++ port_no_str si else [])
      ++ transport (proto si)
  | SUBST_SND_IP, _, Some si => host (v6 si && own_address e) (send_address_str e si)
  | SUBST_SND_PORT, _, Some si => send_port_str e si
  | SUBST_SND_ALL, _, Some si =>
      host (v6 si && own_address e) (send_address_str e si)
      ++ (if negb (port_no si =? SIP_PORT) || negb (own_port e) then [§":"] ++ send_port_str e si else [])
      ++ transport (proto si)
  | SUBST_RCV_PROTO, Some si, _ => proto_name (proto si)
  | SUBST_SND_PROTO, _, Some si => proto_name (proto si)
  | _, _, _ => []
  end.

(** ** The length *)

(** The loop along [before] or [after]: the new length, the chain with the flags of its
    conditions, the random numbers used.  A false condition ends the loop. *)
Fixpoint chain_len (e : lenv) (dir : lump_dir) (r : lump) (new_len : Z) (k : nat) : Z * lump * nat :=
  match r with
  | NULL => (new_len, NULL, k)
  | Lump d b a n =>
      let go d' new_len k :=
        match dir with
        | LD_BEFORE => let '(len, b', k) := chain_len e dir b new_len k in (len, Lump d' b' a n, k)
        | LD_AFTER => let '(len, a', k) := chain_len e dir a new_len k in (len, Lump d' b a' n, k)
        end in
      match l_op d with
      | LUMP_ADD v => go d (u32 (new_len + zlen v)) k
      | LUMP_ADD_SUBST s => go d (u32 (new_len + SUBST_LUMP_LEN e s)) k
      | LUMP_ADD_OPT c =>
          let '(t, d', k) := lump_check_opt e c d k in
          if t then go d' new_len k else (new_len, Lump d' b a n, k)
      | _ => go d new_len k
      end
  end.

Definition with_op (d : ldata) (op : lump_op) : ldata := Ld (l_id d) (l_type d) op (l_flags d).

(** The lump itself: the length, the offset reached, the lump with its zone repaired. *)
Definition main_len (e : lenv) (d : ldata) (new_len s_offset : Z) : Z * Z * ldata :=
  match l_op d with
  | LUMP_ADD v => (u32 (new_len + zlen v), s_offset, d)
  | LUMP_ADD_SUBST s => (u32 (new_len + SUBST_LUMP_LEN e s), s_offset, d)
  | LUMP_ADD_OPT _ => (new_len, s_offset, d)
  | LUMP_DEL o len =>
      let '(o, len) :=
        if o <? s_offset then (s_offset, if len >? s_offset - o then len - (s_offset - o) else 0)
        else (o, len) in
      (u32 (new_len - len), u32 (o + len), with_op d (LUMP_DEL o len))
  | LUMP_NOP o len =>
      if o <? s_offset then (new_len, s_offset, with_op d (LUMP_NOP s_offset len))
      else (new_len, o, d)
  end.

Fixpoint lumps_len_loop (e : lenv) (t : lump) (new_len s_offset : Z) (k : nat) : Z * lump * nat :=
  match t with
  | NULL => (new_len, NULL, k)
  | Lump d b a n =>
      let '(ok, d, k) := match l_op d with
                         | LUMP_ADD_OPT c => lump_check_opt e c d k
                         | _ => (true, d, k)
                         end in
      if ok : bool then
        let '(new_len, b, k) := chain_len e LD_BEFORE b new_len k in
        let '(new_len, s_offset, d) := main_len e d new_len s_offset in
        let '(new_len, a, k) := chain_len e LD_AFTER a new_len k in
        let '(new_len, n, k) := lumps_len_loop e n new_len s_offset k in
        (new_len, Lump d b a n, k)
      else
        let '(new_len, n, k) := lumps_len_loop e n new_len s_offset k in
        (new_len, Lump d b a n, k)
  end.

Definition lumps_len (e : lenv) (lumps : lump) (k : nat) : Z * lump * nat := lumps_len_loop e lumps 0 0 k.

(** ** The copy *)

(** A write at the end of what has been written into a buffer of [cap] bytes. *)
Definition memcpy (cap : Z) (out src : bytes) : res bytes :=
  if zlen out + zlen src <=? cap then Ret (out ++ src) else Fault OutOfBounds.

(** [size] bytes of the message from [s] on. *)
Definition orig_at (orig : bytes) (s size : Z) : res bytes :=
  if (0 <=? size) && (s + size <=? zlen orig) then Ret (take (Z.to_nat size) (drop (Z.to_nat s) orig))
  else Fault OutOfBounds.

Fixpoint process_chain (e : lenv) (cap : Z) (dir : lump_dir) (r : lump) (out : bytes) (k : nat)
  : res (bytes * lump * nat) :=
  match r with
  | NULL => Ret (out, NULL, k)
  | Lump d b a n =>
      let go d' out k :=
        match dir with
        | LD_BEFORE => '(out, b', k) ← process_chain e cap dir b out k; Ret (out, Lump d' b' a n, k)
        | LD_AFTER => '(out, a', k) ← process_chain e cap dir a out k; Ret (out, Lump d' b a' n, k)
        end in
      match l_op d with
      | LUMP_ADD v => out ← memcpy cap out v; go d out k
      | LUMP_ADD_SUBST s => out ← memcpy cap out (SUBST_LUMP e s); go d out k
      | LUMP_ADD_OPT c =>
          let '(t, d', k) := lump_check_opt e c d k in
          if t then go d' out k else Ret (out, Lump d' b a n, k)
      | _ => go d out k
      end
  end.

(** The main part of an insertion. *)
Definition process_main (e : lenv) (cap : Z) (d : ldata) (out : bytes) : res bytes :=
  match l_op d with
  | LUMP_ADD v => memcpy cap out v
  | LUMP_ADD_SUBST s => memcpy cap out (SUBST_LUMP e s)
  | _ => Ret out
  end.

Definition del_size (op : lump_op) : Z := match op with LUMP_DEL _ len => len | _ => 0 end.

(** What was written, the offset reached in the message, the lumps, the random numbers. *)
Fixpoint process_lumps (e : lenv) (orig : bytes) (cap : Z) (t : lump) (out : bytes) (s_offset : Z) (k : nat)
  : res (bytes * Z * lump * nat) :=
  match t with
  | NULL => Ret (out, s_offset, NULL, k)
  | Lump d b a n =>
      match op_offset (l_op d) with
      | None =>
          let '(ok, d, k) := match l_op d with
                             | LUMP_ADD_OPT c => lump_check_opt e c d k
                             | _ => (true, d, k)
                             end in
          if ok : bool then
            '(out, b, k) ← process_chain e cap LD_BEFORE b out k;
            out ← process_main e cap d out;
            '(out, a, k) ← process_chain e cap LD_AFTER a out k;
            '(out, s, n, k) ← process_lumps e orig cap n out s_offset k;
            Ret (out, s, Lump d b a n, k)
          else
            '(out, s, n, k) ← process_lumps e orig cap n out s_offset k;
            Ret (out, s, Lump d b a n, k)
      | Some o =>
          if s_offset >? o then
            '(out, s, n, k) ← process_lumps e orig cap n out s_offset k;
            Ret (out, s, Lump d b a n, k)
          else
            src ← orig_at orig s_offset (o - s_offset);
            out ← memcpy cap out src;
            '(out, b, k) ← process_chain e cap LD_BEFORE b out k;
            '(out, a, k) ← process_chain e cap LD_AFTER a out k;
            '(out, s, n, k) ← process_lumps e orig cap n out (u32 (o + del_size (l_op d))) k;
            Ret (out, s, Lump d b a n, k)
      end
  end.

(** ** The edits lumps stand for *)

(** Without random conditions the texts are determined. *)
Definition cond_holds (e : lenv) (c : lump_conditions) : bool :=
  (lump_check_opt e c (Ld 0 0 (LUMP_ADD_OPT c) 0) 0).1.1.

Fixpoint no_rand (l : lump) : bool :=
  match l with
  | NULL => true
  | Lump d b a n =>
      match l_op d with LUMP_ADD_OPT COND_IF_RAND => false | _ => true end
      && no_rand b && no_rand a && no_rand n
  end.

Fixpoint chain_text (e : lenv) (dir : lump_dir) (r : lump) : bytes :=
  match r with
  | NULL => []
  | Lump d b a _ =>
      let rest := chain_text e dir (match dir with LD_BEFORE => b | LD_AFTER => a end) in
      match l_op d with
      | LUMP_ADD v => v ++ rest
      | LUMP_ADD_SUBST s => SUBST_LUMP e s ++ rest
      | LUMP_ADD_OPT c => if cond_holds e c then rest else []
      | _ => rest
      end
  end.

(** A zone (an anchor is an empty one), or nothing for an insertion where the copy stands,
    with the texts in front of it and behind. *)
Record edit : Type := Edit { e_zone : option (Z * Z); e_pre : bytes; e_post : bytes }.

Definition edit_of (e : lenv) (d : ldata) (pre post : bytes) : list edit :=
  match l_op d with
  | LUMP_ADD v => [Edit None (pre ++ v) post]
  | LUMP_ADD_SUBST s => [Edit None (pre ++ SUBST_LUMP e s) post]
  | LUMP_ADD_OPT c => if cond_holds e c then [Edit None pre post] else []
  | LUMP_NOP o _ => [Edit (Some (o, 0)) pre post]
  | LUMP_DEL o len => [Edit (Some (o, len)) pre post]
  end.

Fixpoint edits (e : lenv) (t : lump) : list edit :=
  match t with
  | NULL => []
  | Lump d b a n => edit_of e d (chain_text e LD_BEFORE b) (chain_text e LD_AFTER a) ++ edits e n
  end.

(** *** The reference: byte by byte

    The texts at a position go in front of its byte, which is left out when a zone covers
    it.  A text stands where its zone starts or ends, or at the end of the zones before it
    if they reach further. *)

Fixpoint points (s : Z) (es : list edit) : list (Z * bytes) :=
  match es with
  | [] => []
  | Edit None p q :: es => (s, p ++ q) :: points s es
  | Edit (Some (o, len)) p q :: es =>
      let s1 := Z.max s o in
      let s2 := Z.max s1 (o + len) in
      (s1, p) :: (s2, q) :: points s2 es
  end.

Definition covered (es : list edit) (i : Z) : bool :=
  existsb (fun x => match e_zone x with
                    | Some (o, len) => (o <=? i) && (i <? o + len)
                    | None => false
                    end) es.

Definition text_at (ps : list (Z * bytes)) (i : Z) : bytes :=
  concat (map (fun p : Z * bytes => if p.1 =? i then p.2 else []) ps).

Definition byte_at (orig : bytes) (i : Z) : bytes :=
  match orig !! Z.to_nat i with Some c => [c] | None => [] end.

(** The message from position [s] on. *)
Definition edited_from (orig : bytes) (s : Z) (es : list edit) : bytes :=
  flat_map (fun i => text_at (points s es) i ++ if covered es i then [] else byte_at orig i)
    (seqZ s (zlen orig - s + 1)).

Definition edited (orig : bytes) (es : list edit) : bytes := edited_from orig 0 es.

(** Zones lie in the message, and are sorted by where they start. *)
Definition zone_in (n : Z) (x : edit) : Prop :=
  match e_zone x with Some (o, len) => 0 <= o /\ 0 <= len /\ o + len <= n | None => True end.

Definition starts (es : list edit) : list Z :=
  omap (fun x => match e_zone x with Some (o, _) => Some o | None => None end) es.

Definition edits_ok (n : Z) (es : list edit) : Prop :=
  Forall (zone_in n) es /\ StronglySorted Z.le (starts es).

(** ** The copy in one pass *)

Definition slice (orig : bytes) (s o : Z) : bytes := take (Z.to_nat (o - s)) (drop (Z.to_nat s) orig).

(** The text written for edits that do not overlap, and the offset reached. *)
Fixpoint written (orig : bytes) (s : Z) (es : list edit) : bytes :=
  match es with
  | [] => []
  | Edit None p q :: es => p ++ q ++ written orig s es
  | Edit (Some (o, len)) p q :: es => slice orig s o ++ p ++ q ++ written orig (o + len) es
  end.

Fixpoint reached (s : Z) (es : list edit) : Z :=
  match es with
  | [] => s
  | Edit None _ _ :: es => reached s es
  | Edit (Some (o, len)) _ _ :: es => reached (o + len) es
  end.

Fixpoint apart (n s : Z) (es : list edit) : Prop :=
  match es with
  | [] => s <= n
  | Edit None _ _ :: es => apart n s es
  | Edit (Some (o, len)) _ _ :: es => s <= o /\ 0 <= len /\ apart n (o + len) es
  end.

(** The repair of overlapping zones. *)
Definition fix_zone (s o len : Z) : Z * Z :=
  if o <? s then (s, if len >? s - o then len - (s - o) else 0) else (o, len).

Fixpoint fix_edits (s : Z) (es : list edit) : list edit :=
  match es with
  | [] => []
  | Edit None p q :: es => Edit None p q :: fix_edits s es
  | Edit (Some (o, len)) p q :: es =>
      let z := fix_zone s o len in Edit (Some z) p q :: fix_edits (z.1 + z.2) es
  end.

(** By how much the message grows. *)
Fixpoint growth (es : list edit) : Z :=
  match es with
  | [] => 0
  | Edit z p q :: es => zlen p + zlen q - (match z with Some (_, len) => len | None => 0 end) + growth es
  end.

(** ** Lemmas: conditions and substitutions *)

Lemma zlen_nil {A} : zlen (@nil A) = 0.
Proof. done. Qed.

Lemma proto_name_length p : zlen (proto_name p) = proto_name_len p.
Proof. unfold proto_name, proto_name_len. cases; done. Qed.

Lemma transport_length p : zlen (transport p) = transport_len p.
Proof. unfold transport, transport_len. cases; done. Qed.

(** The two macros agree. *)
Lemma subst_length e s : zlen (SUBST_LUMP e s) = SUBST_LUMP_LEN e s.
Proof.
  unfold SUBST_LUMP, SUBST_LUMP_LEN.
  destruct s, (bind_address (rcv e)) as [si|], (send_sock e) as [so|]; try done;
    rewrite ?zlen_app, ?transport_length, ?proto_name_length; try done; cases;
    rewrite ?zlen_cons, ?zlen_app, ?zlen_cons, ?zlen_nil; lia.
Qed.

Definition is_opt (d : ldata) (c : lump_conditions) : Prop := l_op d = LUMP_ADD_OPT c.

(** A condition that is not random changes nothing but a flag. *)
Lemma check_opt_holds e c d k : c <> COND_IF_RAND ->
  exists d', lump_check_opt e c d k = (cond_holds e c, d', k) /\ l_op d' = l_op d.
Proof.
  intros Hc. unfold cond_holds, lump_check_opt.
  destruct (get_ip_port_proto (rcv e)) as [[ip port] pr].
  destruct c, (send_sock e) as [s|]; try done; cases; eauto.
Qed.

Lemma no_rand_lump d b a n : no_rand (Lump d b a n) = true ->
  l_op d <> LUMP_ADD_OPT COND_IF_RAND /\ no_rand b = true /\ no_rand a = true /\ no_rand n = true.
Proof.
  simpl. intros H. bool_to_prop. split; [|done]. intros E. by rewrite E in *.
Qed.

Lemma no_rand_intro d b a n : l_op d <> LUMP_ADD_OPT COND_IF_RAND ->
  no_rand b = true -> no_rand a = true -> no_rand n = true -> no_rand (Lump d b a n) = true.
Proof.
  intros H Hb Ha Hn. simpl. rewrite Hb, Ha, Hn, !andb_true_r.
  destruct (l_op d) as [| | | |c]; try done. by destruct c.
Qed.

Lemma u32_add_l x y : u32 (u32 x + y) = u32 (x + y).
Proof. unfold u32. apply Zplus_mod_idemp_l. Qed.

Lemma u32_sub_l x y : u32 (u32 x - y) = u32 (x - y).
Proof. unfold u32. apply Zminus_mod_idemp_l. Qed.

(** ** Lemmas: the loops over a chain *)

(** The chain after the loops: other flags, the same text. *)
Definition same_text (e : lenv) (dir : lump_dir) (r r' : lump) : Prop :=
  no_rand r' = true /\ chain_text e dir r' = chain_text e dir r.

Lemma same_text_step e dir d d' b a n r' :
  l_op d' = l_op d -> no_rand (Lump d b a n) = true ->
  same_text e dir (match dir with LD_BEFORE => b | LD_AFTER => a end) r' ->
  same_text e dir (Lump d b a n)
    (match dir with LD_BEFORE => Lump d' r' a n | LD_AFTER => Lump d' b r' n end).
Proof.
  intros Ed Hr [H1 H2]. apply no_rand_lump in Hr as (Ho & Hb & Ha & Hn). rewrite <- Ed in Ho.
  destruct dir; (split; [by apply no_rand_intro | simpl; rewrite Ed, H2; done]).
Qed.

Lemma chain_len_spec e dir r L k : no_rand r = true ->
  exists r', chain_len e dir r (u32 L) k = (u32 (L + zlen (chain_text e dir r)), r', k) /\ same_text e dir r r'.
Proof.
  revert L. induction r as [|d b IHb a IHa n _]; intros L Hr.
  { exists NULL. simpl. by rewrite zlen_nil, Z.add_0_r. }
  pose proof (no_rand_lump _ _ _ _ Hr) as (Ho & Hb & Ha & Hn).
  assert (Hgo : forall d' L', l_op d' = l_op d ->
    exists r', (match dir with
      | LD_BEFORE => let '(len, b', k) := chain_len e dir b (u32 L') k in (len, Lump d' b' a n, k)
      | LD_AFTER => let '(len, a', k) := chain_len e dir a (u32 L') k in (len, Lump d' b a' n, k)
      end) = (u32 (L' + zlen (chain_text e dir (match dir with LD_BEFORE => b | LD_AFTER => a end))), r', k)
      /\ same_text e dir (Lump d b a n) r').
  { intros d' L' Ed. destruct dir.
    - destruct (IHb L' Hb) as (r' & -> & Hs). exists (Lump d' r' a n).
      split; [done|]. exact (same_text_step e LD_BEFORE d d' b a n r' Ed Hr Hs).
    - destruct (IHa L' Ha) as (r' & -> & Hs). exists (Lump d' b r' n).
      split; [done|]. exact (same_text_step e LD_AFTER d d' b a n r' Ed Hr Hs). }
  cbn [chain_len chain_text].
  destruct (l_op d) as [o l|o l|v|s|c] eqn:Eo; rewrite ?u32_add_l, ?zlen_app, ?subst_length, ?Z.add_assoc;
    try (apply Hgo; done).
  destruct (check_opt_holds e c d k) as (d' & -> & Ed); [congruence|].
  destruct (cond_holds e c) eqn:Ec; [apply Hgo; congruence|].
  exists (Lump d' b a n). rewrite zlen_nil, Z.add_0_r. split; [done|].
  split; [apply no_rand_intro; congruence | simpl; rewrite Ed, Eo, Ec; done].
Qed.

Lemma memcpy_ok cap out src : zlen out + zlen src <= cap -> memcpy cap out src = Ret (out ++ src).
Proof. intros H. unfold memcpy. by rewrite (proj2 (Z.leb_le _ _) H). Qed.

Lemma process_chain_spec e cap dir r out k : no_rand r = true ->
  zlen out + zlen (chain_text e dir r) <= cap ->
  exists r', process_chain e cap dir r out k = Ret (out ++ chain_text e dir r, r', k) /\ same_text e dir r r'.
Proof.
  revert out. induction r as [|d b IHb a IHa n _]; intros out Hr Hcap.
  { exists NULL. simpl. by rewrite app_nil_r. }
  pose proof (no_rand_lump _ _ _ _ Hr) as (Ho & Hb & Ha & Hn).
  assert (Hgo : forall d' out', l_op d' = l_op d ->
    zlen out' + zlen (chain_text e dir (match dir with LD_BEFORE => b | LD_AFTER => a end)) <= cap ->
    exists r', (match dir with
      | LD_BEFORE => '(out, b', k) ← process_chain e cap dir b out' k; Ret (out, Lump d' b' a n, k)
      | LD_AFTER => '(out, a', k) ← process_chain e cap dir a out' k; Ret (out, Lump d' b a' n, k)
      end) = Ret (out' ++ chain_text e dir (match dir with LD_BEFORE => b | LD_AFTER => a end), r', k)
      /\ same_text e dir (Lump d b a n) r').
  { intros d' out' Ed Hc. destruct dir.
    - destruct (IHb out' Hb Hc) as (r' & -> & Hs). exists (Lump d' r' a n).
      split; [done|]. exact (same_text_step e LD_BEFORE d d' b a n r' Ed Hr Hs).
    - destruct (IHa out' Ha Hc) as (r' & -> & Hs). exists (Lump d' b r' n).
      split; [done|]. exact (same_text_step e LD_AFTER d d' b a n r' Ed Hr Hs). }
  cbn [process_chain chain_text] in *.
  destruct (l_op d) as [o l|o l|v|s|c] eqn:Eo; rewrite ?zlen_app in Hcap; rewrite ?app_assoc;
    try (rewrite memcpy_ok by (pose proof (zlen_nonneg (chain_text e dir (match dir with LD_BEFORE => b | LD_AFTER => a end))); lia); run);
    try (apply Hgo; rewrite ?zlen_app; done || lia).
  destruct (check_opt_holds e c d k) as (d' & -> & Ed); [congruence|].
  destruct (cond_holds e c) eqn:Ec; [apply Hgo; congruence|].
  exists (Lump d' b a n). rewrite app_nil_r. split; [done|].
  split; [apply no_rand_intro; congruence | simpl; rewrite Ed, Eo, Ec; done].
Qed.

(** ** Lemmas: the loops over the lumps *)

Lemma edit_of_same e d d' pre post : l_op d' = l_op d -> edit_of e d' pre post = edit_of e d pre post.
Proof. intros E. unfold edit_of. by rewrite E. Qed.

Definition live (e : lenv) (op : lump_op) : bool :=
  match op with LUMP_ADD_OPT c => cond_holds e c | _ => true end.

(** The test both loops make of a lump. *)
Lemma guard_spec e d k : l_op d <> LUMP_ADD_OPT COND_IF_RAND ->
  exists d', match l_op d with LUMP_ADD_OPT c => lump_check_opt e c d k | _ => (true, d, k) end
    = (live e (l_op d), d', k) /\ l_op d' = l_op d.
Proof.
  intros H. unfold live. destruct (l_op d) as [| | | |c] eqn:Eo; eauto.
  destruct (check_opt_holds e c d k) as (d' & E & Ed); [congruence|]. exists d'. by rewrite E, Ed.
Qed.

Lemma edit_of_dead e d pre post : live e (l_op d) = false -> edit_of e d pre post = [].
Proof. unfold live, edit_of. destruct (l_op d) as [| | | |c]; try done. by intros ->. Qed.

Lemma growth_app es fs : growth (es ++ fs) = growth es + growth fs.
Proof. induction es as [|[z p q] es IH]; simpl; [done|]. rewrite IH. lia. Qed.

(** The lump itself, in terms of its edit. *)
Lemma main_len_spec e n d L s pre post : 0 <= s <= n -> n < 2 ^ 32 ->
  Forall (zone_in n) (edit_of e d pre post) ->
  l_op d <> LUMP_ADD_OPT COND_IF_RAND -> live e (l_op d) = true ->
  exists m s' d', main_len e d (u32 L) s = (u32 (L + m), s', d') /\ 0 <= s' <= n
    /\ l_op d' <> LUMP_ADD_OPT COND_IF_RAND
    /\ (forall es, fix_edits s (edit_of e d pre post ++ es) = edit_of e d' pre post ++ fix_edits s' es)
    /\ growth (edit_of e d' pre post) = zlen pre + m + zlen post.
Proof.
  intros Hs Hn Hz Hr Ht. unfold main_len, edit_of in *.
  destruct (l_op d) as [o l|o l|v|sb|c] eqn:Eo.
  - apply Forall_cons in Hz as [Hz _]. cbv [zone_in e_zone] in Hz. destruct (Z.ltb_spec o s).
    + exists 0, s, (with_op d (LUMP_NOP s l)). rewrite Z.add_0_r. repeat split; try lia; [done| |simpl; lia].
      intros es. cbn. unfold fix_zone. rewrite (proj2 (Z.ltb_lt o s)) by done.
      destruct (Z.gtb_spec 0 (s - o)); [lia|]. simpl. by rewrite Z.add_0_r.
    + exists 0, o, d. rewrite Eo, Z.add_0_r. repeat split; try lia; [done| |simpl; lia].
      intros es. cbn. unfold fix_zone. rewrite (proj2 (Z.ltb_ge o s)) by done. simpl. by rewrite Z.add_0_r.
  - apply Forall_cons in Hz as [Hz _]. cbv [zone_in e_zone] in Hz.
    fold (fix_zone s o l). pose (z := fix_zone s o l).
    assert (0 <= z.1 /\ 0 <= z.2 /\ z.1 + z.2 <= n) as Hf.
    { unfold z, fix_zone. destruct (Z.ltb_spec o s); simpl; [|lia]. cases; zbool. }
    exists (- z.2), (z.1 + z.2), (with_op d (LUMP_DEL z.1 z.2)). fold z. destruct z as [o' l'] eqn:Ez.
    simpl in Hf. rewrite u32_sub_l, (u32_small (o' + l')) by lia. cbn [fst snd].
    repeat split; try lia; [done| |simpl; lia].
    intros es. cbn. fold z. by rewrite Ez.
  - exists (zlen v), s, d. rewrite u32_add_l, Eo. repeat split; try lia; [done|].
    simpl. rewrite zlen_app. lia.
  - exists (zlen (SUBST_LUMP e sb)), s, d. rewrite u32_add_l, Eo, <- subst_length. repeat split; try lia; [done|].
    simpl. rewrite zlen_app. lia.
  - simpl in Ht. exists 0, s, d. rewrite Eo, Ht, Z.add_0_r. repeat split; try lia; [done|]. simpl. lia.
Qed.

Lemma lumps_len_spec e n t L s k : n < 2 ^ 32 -> 0 <= s <= n -> no_rand t = true ->
  Forall (zone_in n) (edits e t) ->
  exists t', lumps_len_loop e t (u32 L) s k = (u32 (L + growth (fix_edits s (edits e t))), t', k)
    /\ no_rand t' = true /\ edits e t' = fix_edits s (edits e t).
Proof.
  intros Hn. revert L s k. induction t as [|d b _ a _ n' IH]; intros L s k Hs Hr Hz.
  { exists NULL. simpl. by rewrite Z.add_0_r. }
  apply no_rand_lump in Hr as (Ho & Hb & Ha & Hr). cbn [lumps_len_loop edits] in *.
  apply Forall_app in Hz as [Hd Hz].
  destruct (guard_spec e d k Ho) as (d1 & -> & E1).
  rewrite <- (edit_of_same e d d1) in * by done. rewrite <- E1 in *.
  destruct (live e (l_op d1)) eqn:Hl.
  - destruct (chain_len_spec e LD_BEFORE b L k Hb) as (b' & -> & Nb & Tb).
    destruct (main_len_spec e n d1 (L + zlen (chain_text e LD_BEFORE b)) s _ _ Hs Hn Hd Ho Hl)
      as (m & s' & d' & -> & Hs' & No & Hf & Hg).
    destruct (chain_len_spec e LD_AFTER a (L + zlen (chain_text e LD_BEFORE b) + m) k Ha) as (a' & -> & Na & Ta).
    destruct (IH (L + zlen (chain_text e LD_BEFORE b) + m + zlen (chain_text e LD_AFTER a)) s' k Hs' Hr Hz)
      as (t' & -> & Nt & Et).
    exists (Lump d' b' a' t'). rewrite Hf, growth_app, Hg. repeat split.
    + do 2 f_equal. f_equal. lia.
    + by apply no_rand_intro.
    + cbn [edits]. by rewrite Tb, Ta, Et.
  - destruct (IH L s k Hs Hr Hz) as (t' & -> & Nt & Et).
    exists (Lump d1 b a t'). rewrite edit_of_dead by done. split; [done|]. split; [by apply no_rand_intro|].
    cbn [edits]. by rewrite edit_of_dead, Et.
Qed.

Lemma apart_le n s es : apart n s es -> s <= n.
Proof.
  revert s; induction es as [|[[[o l]|] p q] es IH]; intros s; simpl; [done| |apply IH].
  intros (H1 & H2 & H3). apply IH in H3. lia.
Qed.

Lemma orig_at_ok orig s o : 0 <= s <= o -> o <= zlen orig -> orig_at orig s (o - s) = Ret (slice orig s o).
Proof.
  intros Hs Ho. unfold orig_at.
  rewrite (proj2 (Z.leb_le _ _)), (proj2 (Z.leb_le _ _)) by lia. done.
Qed.

Lemma process_main_ok e cap d out pre post : live e (l_op d) = true -> op_offset (l_op d) = None ->
  exists p, edit_of e d pre post = [Edit None (pre ++ p) post]
    /\ (zlen out + zlen p <= cap -> process_main e cap d out = Ret (out ++ p)).
Proof.
  intros Hc Ho. unfold edit_of, process_main. destruct (l_op d) as [| |v|sb|c]; try done.
  - exists v. split; [done|]. apply memcpy_ok.
  - exists (SUBST_LUMP e sb). split; [done|]. apply memcpy_ok.
  - exists []. simpl in Hc. by rewrite Hc, !app_nil_r.
Qed.

Lemma edit_of_zone e d o pre post : op_offset (l_op d) = Some o ->
  edit_of e d pre post = [Edit (Some (o, del_size (l_op d))) pre post].
Proof. unfold edit_of. destruct (l_op d); intros [= ->]; done. Qed.

(** The copy writes what the edits say, if there is room. *)
Definition copies (e : lenv) (orig : bytes) (cap : Z) (t : lump) : Prop := forall out s k,
  0 <= s -> apart (zlen orig) s (edits e t) -> zlen out + zlen (written orig s (edits e t)) <= cap ->
  exists t', process_lumps e orig cap t out s k
    = Ret (out ++ written orig s (edits e t), reached s (edits e t), t', k)
    /\ no_rand t' = true /\ edits e t' = edits e t.

Lemma copies_zone e orig cap d o b a n : zlen orig < 2 ^ 32 -> op_offset (l_op d) = Some o ->
  no_rand (Lump d b a n) = true -> copies e orig cap n -> copies e orig cap (Lump d b a n).
Proof.
  intros HN Eoff Hr IH out s k Hs Hap Hcap.
  apply no_rand_lump in Hr as (Ho & Hb & Ha & Hr). cbn [process_lumps edits] in *.
  rewrite (edit_of_zone _ _ _ _ _ Eoff) in *. rewrite Eoff. cbn [app apart written reached] in *.
  destruct Hap as (H1 & H2 & H3). pose proof (apart_le _ _ _ H3).
  rewrite !zlen_app in Hcap.
  pose proof (zlen_nonneg (written orig (o + del_size (l_op d)) (edits e n))).
  pose proof (zlen_nonneg (chain_text e LD_BEFORE b)). pose proof (zlen_nonneg (chain_text e LD_AFTER a)).
  destruct (Z.gtb_spec s o); [lia|]. rewrite orig_at_ok by lia. run. rewrite memcpy_ok by lia. run.
  destruct (process_chain_spec e cap LD_BEFORE b (out ++ slice orig s o) k Hb) as (b' & -> & Nb & Tb);
    [rewrite zlen_app; lia|]. run.
  destruct (process_chain_spec e cap LD_AFTER a ((out ++ slice orig s o) ++ chain_text e LD_BEFORE b) k Ha)
    as (a' & -> & Na & Ta); [rewrite !zlen_app; lia|]. run. rewrite u32_small by lia.
  destruct (IH (((out ++ slice orig s o) ++ chain_text e LD_BEFORE b) ++ chain_text e LD_AFTER a)
              (o + del_size (l_op d)) k) as (n' & -> & Nn & En); [lia|done|rewrite !zlen_app; lia|]. run.
  exists (Lump d b' a' n'). rewrite <- !app_assoc. split; [done|]. split; [by apply no_rand_intro|].
  cbn [edits]. by rewrite Tb, Ta, En, (edit_of_zone _ _ _ _ _ Eoff).
Qed.

Lemma copies_insert e orig cap d b a n : op_offset (l_op d) = None ->
  no_rand (Lump d b a n) = true -> copies e orig cap n -> copies e orig cap (Lump d b a n).
Proof.
  intros Eoff Hr IH out s k Hs Hap Hcap.
  apply no_rand_lump in Hr as (Ho & Hb & Ha & Hr). cbn [process_lumps edits] in *. rewrite Eoff.
  destruct (guard_spec e d k Ho) as (d1 & -> & E1).
  rewrite <- (edit_of_same e d d1) in * by done. rewrite <- E1 in *.
  destruct (live e (l_op d1)) eqn:Hl.
  - destruct (process_main_ok e cap d1 (out ++ chain_text e LD_BEFORE b)
      (chain_text e LD_BEFORE b) (chain_text e LD_AFTER a) Hl Eoff) as (p & Ep & Hp).
    rewrite Ep in *. cbn [app apart written reached] in *. repeat rewrite zlen_app in Hcap. rewrite zlen_app in Hp.
    pose proof (zlen_nonneg (written orig s (edits e n))). pose proof (zlen_nonneg p).
    pose proof (zlen_nonneg (chain_text e LD_BEFORE b)). pose proof (zlen_nonneg (chain_text e LD_AFTER a)).
    destruct (process_chain_spec e cap LD_BEFORE b out k Hb) as (b' & -> & Nb & Tb); [lia|]. run.
    rewrite Hp by lia. run.
    destruct (process_chain_spec e cap LD_AFTER a ((out ++ chain_text e LD_BEFORE b) ++ p) k Ha)
      as (a' & -> & Na & Ta); [rewrite !zlen_app; lia|]. run.
    destruct (IH (((out ++ chain_text e LD_BEFORE b) ++ p) ++ chain_text e LD_AFTER a) s k)
      as (n' & -> & Nn & En); [lia|done|rewrite !zlen_app; lia|]. run.
    exists (Lump d1 b' a' n'). rewrite <- !app_assoc. split; [done|]. split; [by apply no_rand_intro|].
    cbn [edits]. by rewrite Tb, Ta, En, Ep.
  - rewrite edit_of_dead in * by done. destruct (IH out s k) as (n' & -> & Nn & En); [done..|]. run.
    exists (Lump d1 b a n'). split; [done|]. split; [by apply no_rand_intro|].
    cbn [edits]. by rewrite edit_of_dead, En.
Qed.

Lemma process_spec e orig cap t : zlen orig < 2 ^ 32 -> no_rand t = true -> copies e orig cap t.
Proof.
  intros HN. induction t as [|d b _ a _ n IH]; intros Hr.
  { intros out s k _ _ _. exists NULL. simpl. by rewrite app_nil_r. }
  pose proof (no_rand_lump _ _ _ _ Hr) as (_ & _ & _ & Hn).
  destruct (op_offset (l_op d)) as [o|] eqn:E; [by eapply copies_zone, IH | by apply copies_insert, IH].
Qed.

(** ** Lemmas: the reference *)

Lemma fix_zone_spec s o len : 0 <= len ->
  (fix_zone s o len).1 = Z.max s o /\
  (fix_zone s o len).1 + (fix_zone s o len).2 = Z.max (Z.max s o) (o + len) /\
  0 <= (fix_zone s o len).2.
Proof. intros. unfold fix_zone. destruct (Z.ltb_spec o s); simpl; [cases; zbool | lia]. Qed.

Lemma fix_apart n s es : 0 <= s <= n -> Forall (zone_in n) es -> apart n s (fix_edits s es).
Proof.
  revert s; induction es as [|[[[o l]|] p q] es IH]; intros s Hs Hz; simpl; [lia| |];
    apply Forall_cons in Hz as [Hz Hes]; [|by apply IH].
  cbv [zone_in e_zone] in Hz. pose proof (fix_zone_spec s o l) as (F1 & F2 & F3); [lia|].
  destruct (fix_zone s o l) as [o' l']; simpl in *. repeat split; try lia. apply IH; [lia|done].
Qed.

Lemma slice_length orig s o : 0 <= s <= o -> o <= zlen orig -> zlen (slice orig s o) = o - s.
Proof. intros. unfold slice, zlen in *. rewrite length_take, length_drop. lia. Qed.

Lemma reached_le n s es : apart n s es -> s <= reached s es <= n.
Proof.
  revert s; induction es as [|[[[o l]|] p q] es IH]; intros s; simpl; [lia| |apply IH].
  intros (H1 & H2 & H3). apply IH in H3. lia.
Qed.

(** The size of the copy: what is kept of the message and what is inserted. *)
Lemma written_length orig s es : 0 <= s -> apart (zlen orig) s es ->
  zlen (written orig s es) = reached s es - s + growth es.
Proof.
  revert s; induction es as [|[[[o l]|] p q] es IH]; intros s Hs Hap; simpl in *.
  { rewrite zlen_nil. lia. }
  - destruct Hap as (H1 & H2 & H3). pose proof (apart_le _ _ _ H3).
    rewrite !zlen_app, slice_length, IH by (lia || done). lia.
  - rewrite !zlen_app, IH by done. lia.
Qed.

Lemma flat_map_ext_in {A C} (f g : A -> list C) l : (forall x, In x l -> f x = g x) -> flat_map f l = flat_map g l.
Proof. induction l as [|x l IH]; simpl; intros H; [done|]. rewrite H, IH by auto. done. Qed.

Lemma in_seqZ s m i : In i (seqZ s m) <-> s <= i < s + m.
Proof. rewrite <- list_elem_of_In, elem_of_seqZ. lia. Qed.

Lemma bytes_range orig s m : 0 <= s -> 0 <= m ->
  flat_map (byte_at orig) (seqZ s m) = take (Z.to_nat m) (drop (Z.to_nat s) orig).
Proof.
  intros Hs Hm. revert s Hs. pattern m. apply natlike_ind; [done| |done]. clear m Hm.
  intros m Hm IH s Hs. rewrite seqZ_cons by lia. cbn [flat_map]. rewrite Z.pred_succ, IH by lia.
  rewrite !Z2Nat.inj_succ by lia. unfold byte_at.
  destruct (orig !! Z.to_nat s) as [c|] eqn:E.
  - by rewrite (drop_S orig c (Z.to_nat s) E).
  - apply lookup_ge_None in E. rewrite !drop_ge by lia. by rewrite !take_nil.
Qed.

(** Points below which nothing is inserted. *)
Lemma points_ge s es : Forall (fun p => s <= p.1) (points s es).
Proof.
  revert s; induction es as [|[[[o l]|] p q] es IH]; intros s; simpl; [done| |by constructor; [simpl; lia|]].
  repeat (constructor; [simpl; lia|]). eapply Forall_impl; [apply IH|]. simpl. intros; lia.
Qed.

Lemma text_at_below ps s i : Forall (fun p : Z * bytes => s <= p.1) ps -> i < s -> text_at ps i = [].
Proof.
  intros H Hi. unfold text_at. induction H as [|[x t] ps Hx _ IH]; simpl in *; [done|].
  by rewrite (proj2 (Z.eqb_neq x i)) by lia.
Qed.

Lemma text_push s t ps (g : Z -> bytes) m : 0 < m ->
  flat_map (fun i => text_at ((s, t) :: ps) i ++ g i) (seqZ s m) = t ++ flat_map (fun i => text_at ps i ++ g i) (seqZ s m).
Proof.
  intros Hm. rewrite seqZ_cons by done. cbn [flat_map]. unfold text_at at 1. simpl. rewrite Z.eqb_refl.
  rewrite <- !app_assoc. do 3 f_equal. apply flat_map_ext_in. intros i Hi. apply in_seqZ in Hi.
  unfold text_at at 1. simpl. by rewrite (proj2 (Z.eqb_neq s i)) by lia.
Qed.

Lemma covered_below es i o : StronglySorted Z.le (o :: starts es) -> i < o -> covered es i = false.
Proof.
  intros Hs Hi. apply StronglySorted_inv in Hs as [_ Hs]. unfold covered. apply not_true_is_false.
  intros H. apply existsb_exists in H as ([[[o' l]|] p q] & Hx & Hb); [|done]. simpl in Hb. bool_to_prop.
  assert (In o' (starts es)) as Ho.
  { apply list_elem_of_In, list_elem_of_omap. exists (Edit (Some (o', l)) p q). split; [by apply list_elem_of_In|done]. }
  pose proof (proj1 (List.Forall_forall _ _) Hs o' Ho). simpl in *. lia.
Qed.

Lemma flat_map_nil {A C} (f : A -> list C) l : (forall x, In x l -> f x = []) -> flat_map f l = [].
Proof. induction l as [|x l IH]; simpl; intros H; [done|]. rewrite H, IH by auto. done. Qed.

(** Copying with repaired zones gives the reference. *)
Lemma written_edited orig s es : 0 <= s <= zlen orig -> edits_ok (zlen orig) es ->
  edited_from orig s es
  = written orig s (fix_edits s es) ++ drop (Z.to_nat (reached s (fix_edits s es))) orig.
Proof.
  set (n := zlen orig). revert s; induction es as [|[[[o l]|] p q] es IH]; intros s Hs [Hz Hst].
  - simpl. unfold edited_from. cbn. rewrite flat_map_ext_in with (g := byte_at orig) by done.
    rewrite bytes_range by lia. apply take_ge. rewrite length_drop. unfold n, zlen in *. lia.
  - apply Forall_cons in Hz as [Hz Hes]. cbv [zone_in e_zone] in Hz. simpl in Hst.
    destruct (fix_zone_spec s o l) as (F1 & F2 & F3); [lia|].
    unfold edited_from. cbn [fix_edits written reached points].
    set (s1 := Z.max s o) in *. set (s2 := Z.max s1 (o + l)) in *. fold n.
    destruct (fix_zone s o l) as [o' l']; cbn [fst snd] in *. rewrite F2. subst o'.
    replace (n - s + 1) with ((s1 - s) + (n - s1 + 1)) by lia.
    rewrite seqZ_app by lia. replace (s + (s1 - s)) with s1 by lia. rewrite flat_map_app, <- app_assoc. f_equal.
    + unfold slice. rewrite <- bytes_range by lia. apply flat_map_ext_in. intros i Hi. apply in_seqZ in Hi.
      rewrite (text_at_below _ s1) by (lia || (repeat (constructor; [simpl; lia|]); eapply Forall_impl; [apply points_ge|]; simpl; intros; lia)).
      replace (covered _ i) with false; [done|]. symmetry. unfold covered. simpl.
      rewrite (proj2 (Z.leb_gt o i)) by lia. simpl. apply (covered_below es i o); [done|lia].
    + rewrite text_push by lia. rewrite <- app_assoc. f_equal.
      replace (n - s1 + 1) with ((s2 - s1) + (n - s2 + 1)) by lia.
      rewrite seqZ_app by lia. replace (s1 + (s2 - s1)) with s2 by lia. rewrite flat_map_app.
      rewrite flat_map_nil; cbn [app].
      2:{ intros i Hi. apply in_seqZ in Hi.
          rewrite (text_at_below _ s2) by (lia || (constructor; [simpl; lia|apply points_ge])).
          unfold covered. simpl. by rewrite (proj2 (Z.leb_le o i)), (proj2 (Z.ltb_lt i (o + l))) by lia. }
      rewrite text_push by lia. rewrite <- app_assoc. f_equal. rewrite <- IH; [|lia|].
      2:{ split; [done|]. by apply StronglySorted_inv in Hst as [? _]. }
      apply flat_map_ext_in. intros i Hi. apply in_seqZ in Hi. unfold covered at 1. simpl.
      rewrite (proj2 (Z.ltb_ge i (o + l))) by lia. by rewrite andb_false_r.
  - apply Forall_cons in Hz as [_ Hes]. simpl in Hst. cbn [fix_edits written reached].
    rewrite <- !app_assoc, <- IH by (lia || done). unfold edited_from. cbn [points].
    rewrite text_push by (fold n; lia). by rewrite <- app_assoc.
Qed.

(** ** The invariant of the lists *)

Definition zone_of (op : lump_op) : option (Z * Z) :=
  match op with
  | LUMP_NOP o _ => Some (o, 0)
  | LUMP_DEL o len => Some (o, len)
  | _ => None
  end.

Fixpoint ops (t : lump) : list lump_op :=
  match t with
  | NULL => []
  | Lump d _ _ n => l_op d :: ops n
  end.

Definition zones (t : lump) : list (Z * Z) := omap zone_of (ops t).

(** Zones lie in a message of [n] bytes and are sorted by where they start. *)
Definition zones_ok (n : Z) (zs : list (Z * Z)) : Prop :=
  Forall (fun z => 0 <= z.1 /\ 0 <= z.2 /\ z.1 + z.2 <= n) zs /\ StronglySorted Z.le zs.*1.

Definition lumps_ok (n : Z) (t : lump) : Prop := zones_ok n (zones t).

Lemma edits_zones e t : omap e_zone (edits e t) = zones t.
Proof.
  unfold zones. induction t as [|d b _ a _ n IH]; [done|]. cbn [edits ops]. rewrite omap_app, IH.
  unfold edit_of. destruct (l_op d) as [| | | |c]; try done. by destruct (cond_holds e c).
Qed.

Lemma lumps_edits_ok e n t : lumps_ok n t -> edits_ok n (edits e t).
Proof.
  unfold lumps_ok, zones_ok, edits_ok. rewrite <- (edits_zones e t). generalize (edits e t) as es.
  intros es [Hz Hs]. split.
  - clear Hs. induction es as [|[[[o l]|] p q] es IH]; simpl in *; [done| |].
    + apply Forall_cons in Hz as [Hz Hes]. constructor; [done|auto].
    + constructor; [done|auto].
  - clear Hz. assert (starts es = (omap e_zone es).*1) as ->; [|done]. unfold starts.
    clear Hs. induction es as [|[[[o l]|] p q] es IH]; simpl; [done| |done]. f_equal. exact IH.
Qed.

Lemma ops_append x t : ops (append x t) = ops t ++ ops x.
Proof. induction t as [|d b _ a _ n IH]; [done|]. simpl. by rewrite IH. Qed.

(** Changing a lump's chains leaves the zones of the list alone. *)
Lemma ops_alter f p t : (forall d b a n, ops (f d b a n) = l_op d :: ops n) -> ops (alter_at f p t) = ops t.
Proof.
  intros Hf. induction t as [|d b _ a _ n IH]; [done|]. simpl. case_test; simpl; [apply Hf | by rewrite IH].
Qed.

Lemma zones_ok_cons n z zs : zones_ok n (z :: zs) <->
  (0 <= z.1 /\ 0 <= z.2 /\ z.1 + z.2 <= n) /\ Forall (fun y => z.1 <= y.1) zs /\ zones_ok n zs.
Proof.
  unfold zones_ok. rewrite fmap_cons, Forall_cons. split.
  - intros [[Hz Hzs] Hs]. apply StronglySorted_inv in Hs as [Hs Hle]. rewrite Forall_fmap in Hle. done.
  - intros (Hz & Hle & Hzs & Hs). split; [done|]. constructor; [done|]. by rewrite Forall_fmap.
Qed.

Fixpoint zinsert (z : Z * Z) (ops : list lump_op) : list (Z * Z) :=
  match ops with
  | [] => [z]
  | op :: l => match zone_of op with
               | Some y => if y.1 >? z.1 then z :: omap zone_of (op :: l) else y :: zinsert z l
               | None => zinsert z l
               end
  end.

Lemma zones_insert x o z t : zone_of (l_op x) = Some z -> z.1 = o ->
  zones (insert_sorted x o t) = zinsert z (ops t).
Proof.
  intros Hx <-. unfold zones. induction t as [|d b _ a _ n IH]; simpl; [by rewrite Hx|].
  destruct (l_op d) as [o' l'|o' l'|v|s|c] eqn:Ed; simpl; rewrite ?Ed; simpl; rewrite ?IH; try done.
  all: case_test; simpl; rewrite ?Hx, ?Ed; simpl; [done|]; f_equal; exact IH.
Qed.

Lemma zinsert_ok n z l : 0 <= z.1 -> 0 <= z.2 -> z.1 + z.2 <= n ->
  zones_ok n (omap zone_of l) -> zones_ok n (zinsert z l) /\
  forall x, Forall (fun y => x <= y.1) (omap zone_of l) -> x <= z.1 -> Forall (fun y => x <= y.1) (zinsert z l).
Proof.
  intros H1 H2 H3. induction l as [|op l IH]; intros Hok.
  { split; [apply zones_ok_cons; split_and!; [done..|constructor|by split; constructor]|].
    intros x _ Hx. by constructor. }
  simpl in *. destruct (zone_of op) as [y|] eqn:Ey; [|by apply IH].
  pose proof (proj1 (zones_ok_cons _ _ _) Hok) as (Hy & Hle & Hl).
  destruct (IH Hl) as [IH1 IH2]. destruct (Z.gtb_spec y.1 z.1).
  - split; [|by intros x Hx Hz; constructor]. apply zones_ok_cons. split; [done|]. split; [|done].
    constructor; [lia|]. eapply Forall_impl; [exact Hle|]. simpl. intros; lia.
  - split.
    + apply zones_ok_cons. split; [done|]. split; [apply IH2; [done|lia] | done].
    + intros x Hx Hz. apply Forall_cons in Hx as [Hx Hx']. constructor; auto.
Qed.

Lemma insert_sorted_ok n x o z t : zone_of (l_op x) = Some z -> z.1 = o ->
  0 <= z.1 -> 0 <= z.2 -> z.1 + z.2 <= n -> lumps_ok n t -> lumps_ok n (insert_sorted x o t).
Proof.
  intros Hx Ho H1 H2 H3 Ht. unfold lumps_ok. rewrite (zones_insert _ _ z) by done. by apply zinsert_ok.
Qed.

(** The repair keeps the order. *)
Fixpoint zfix (s : Z) (zs : list (Z * Z)) : list (Z * Z) :=
  match zs with
  | [] => []
  | z :: zs => let y := fix_zone s z.1 z.2 in y :: zfix (y.1 + y.2) zs
  end.

Lemma fix_edits_zones s es : omap e_zone (fix_edits s es) = zfix s (omap e_zone es).
Proof.
  revert s; induction es as [|[[[o l]|] p q] es IH]; intros s; simpl; [done| |apply IH].
  by rewrite IH.
Qed.

Lemma zfix_ok n s zs : 0 <= s <= n -> zones_ok n zs ->
  zones_ok n (zfix s zs) /\ Forall (fun y => s <= y.1) (zfix s zs).
Proof.
  revert s; induction zs as [|[o l] zs IH]; intros s Hs Hok; [by split; [split; constructor|]|].
  apply zones_ok_cons in Hok as (Hz & _ & Hzs). simpl in Hz. cbn [zfix fst snd].
  destruct (fix_zone_spec s o l) as (F1 & F2 & F3); [lia|]. destruct (fix_zone s o l) as [o' l']; simpl in *.
  destruct (IH (o' + l')) as [IH1 IH2]; [lia|done|]. split.
  - apply zones_ok_cons. split; [simpl; lia|]. split; [|done]. eapply Forall_impl; [exact IH2|]. simpl. intros; lia.
  - constructor; [simpl; lia|]. eapply Forall_impl; [exact IH2|]. simpl. intros; lia.
Qed.

Lemma zones_ok_sublist n xs ys : xs `sublist_of` ys -> zones_ok n ys -> zones_ok n xs.
Proof.
  induction 1 as [|z xs ys H IH|z xs ys H IH]; [done| |].
  - intros Hok. apply zones_ok_cons in Hok as (Hz & Hle & Hok). apply zones_ok_cons. split; [done|].
    split; [|auto]. rewrite List.Forall_forall in *. intros y Hy. apply Hle.
    apply list_elem_of_In. eapply elem_of_sublist; [by apply list_elem_of_In|done].
  - intros Hok. apply zones_ok_cons in Hok as (_ & _ & Hok). auto.
Qed.

Lemma del_lumps_sublist gone t t' l : del_lumps gone t = Ret (t', l) -> ops t' `sublist_of` ops t.
Proof.
  revert t' l; induction t as [|d b _ a _ n IH]; intros t' l; cbn [del_lumps]; [by intros [= <- _]|].
  destruct (gone (l_flags d)).
  - destruct (free_lump_list _) as [l1|]; [|done]. run. destruct (del_lumps gone n) as [[n' ln]|]; [|done].
    run. intros [= <- _]. apply sublist_cons. by eapply IH.
  - destruct (del_chain gone LD_AFTER a) as [[a' la]|]; [|done]. run.
    destruct (del_chain gone LD_BEFORE b) as [[b' lb]|]; [|done]. run.
    destruct (del_lumps gone n) as [[n' ln]|]; [|done]. run. intros [= <- _]. apply sublist_skip. by eapply IH.
Qed.

Lemma del_lumps_ok n gone t t' l : del_lumps gone t = Ret (t', l) -> lumps_ok n t -> lumps_ok n t'.
Proof.
  intros H. apply zones_ok_sublist. apply del_lumps_sublist in H. unfold zones.
  induction H as [|x xs ys H IH|x xs ys H IH]; simpl; [done| |]; destruct (zone_of x); eauto using sublist.
Qed.

(** *** Runs

    What the rest of the code does with the lumps of a list: adding texts, substitutions
    and conditions, computing the length, copying, and removing lumps by their flags. *)

Inductive list_step (n : Z) : lump -> lump -> Prop :=
| ls_append mem fl t h ty : list_step n t (append_new_lump mem fl t h ty).2
| ls_insert mem fl t h ty : list_step n t (insert_new_lump mem fl t h ty).2
| ls_after mem fl p h ty t q t' : insert_new_lump_after mem fl p h ty t = Ret (q, t') -> list_step n t t'
| ls_before mem fl p h ty t q t' : insert_new_lump_before mem fl p h ty t = Ret (q, t') -> list_step n t t'
| ls_subst_after mem fl p s ty t q t' : insert_subst_lump_after mem fl p s ty t = Ret (q, t') -> list_step n t t'
| ls_subst_before mem fl p s ty t q t' : insert_subst_lump_before mem fl p s ty t = Ret (q, t') -> list_step n t t'
| ls_cond_after mem fl p c ty t q t' : insert_cond_lump_after mem fl p c ty t = Ret (q, t') -> list_step n t t'
| ls_cond_before mem fl p c ty t q t' : insert_cond_lump_before mem fl p c ty t = Ret (q, t') -> list_step n t t'
| ls_len e t k : list_step n t (lumps_len e t k).1.2
| ls_process e orig cap t out s k out' s' t' k' :
    process_lumps e orig cap t out s k = Ret (out', s', t', k') -> list_step n t t'
| ls_flaged t f t' l : del_flaged_lumps t f = Ret (t', l) -> list_step n t t'
| ls_notflaged t f t' l : del_notflaged_lumps t f = Ret (t', l) -> list_step n t t'.

(** The zones of a message that lumps are made for fit its length as machine integers. *)
Inductive msg_step : lmsg -> lmsg -> Prop :=
| ms_head m t : list_step (zlen (buf m)) (add_rm m) t -> msg_step m (set_add_rm t m)
| ms_body m t : list_step (zlen (buf m)) (body_lumps m) t -> msg_step m (set_body_lumps t m)
| ms_del mem fl m o len ty q m' : 0 <= o -> 0 <= len -> o + len < 2 ^ 32 ->
    del_lump mem fl m o len ty = Ret (q, m') -> msg_step m m'
| ms_anchor mem fl m o len ty q m' : 0 <= o ->
    anchor_lump mem fl m o len ty = Ret (q, m') -> msg_step m m'.

Inductive reaches : lmsg -> lmsg -> Prop :=
| r_start m : reaches m m
| r_step m m1 m2 : reaches m m1 -> msg_step m1 m2 -> reaches m m2.

Definition msg_ok (m : lmsg) : Prop := lumps_ok (zlen (buf m)) (add_rm m) /\ lumps_ok (zlen (buf m)) (body_lumps m).

(** *** The invariant holds *)

Lemma check_opt_op e c d k : l_op (lump_check_opt e c d k).1.2 = l_op d.
Proof.
  unfold lump_check_opt. destruct (get_ip_port_proto (rcv e)) as [[ip port] pr].
  destruct c, (send_sock e) as [s|]; cases; done.
Qed.

(** What both loops do to a condition leaves the operation of the lump. *)
Lemma guard_op e d k ok d' k' :
  match l_op d with LUMP_ADD_OPT c => lump_check_opt e c d k | _ => (true, d, k) end = (ok, d', k') ->
  l_op d' = l_op d /\ (ok = false -> zone_of (l_op d) = None).
Proof.
  intros E. destruct (l_op d) as [| | | |c] eqn:Eo; try (by injection E as <- <- <-).
  pose proof (check_opt_op e c d k) as Ho. rewrite E in Ho. simpl in Ho. split; [congruence|done].
Qed.

Lemma lumps_len_zones e n t L s k : n < 2 ^ 32 -> 0 <= s <= n -> zones_ok n (zones t) ->
  zones (lumps_len_loop e t L s k).1.2 = zfix s (zones t).
Proof.
  intros Hn. revert L s k; induction t as [|d b _ a _ n' IH]; intros L s k Hs Hok; [done|].
  cbn [lumps_len_loop].
  destruct (match l_op d with LUMP_ADD_OPT c => _ | _ => _ end) as [[ok d1] k1] eqn:E.
  apply guard_op in E as [E Ed]. unfold zones in *. simpl in Hok |- *. rewrite <- E in *.
  destruct ok.
  - destruct (chain_len e LD_BEFORE b L k1) as [[L1 b'] k2].
    destruct (main_len e d1 L1 s) as [[L2 s2] d2] eqn:Em.
    destruct (chain_len e LD_AFTER a L2 k2) as [[L3 a'] k3].
    destruct (lumps_len_loop e n' L3 s2 k3) as [[L4 n2] k4] eqn:El.
    specialize (IH L3 s2 k3). rewrite El in IH. simpl in IH |- *. unfold main_len in Em.
    destruct (l_op d1) as [o l|o l|v|sb|c] eqn:Eo; simpl in *.
    1-2: apply zones_ok_cons in Hok as (Hz & _ & Hok); simpl in Hz.
    + destruct (fix_zone_spec s o 0) as (F1 & F2 & _); [lia|]. unfold fix_zone in *.
      destruct (Z.ltb_spec o s); injection Em as <- <- <-; simpl in *; rewrite ?Eo in *; simpl;
        try (destruct (Z.gtb_spec 0 (s - o)); [lia|]); simpl in *; f_equal.
      * rewrite Z.add_0_r. by apply IH.
      * rewrite Z.add_0_r. apply IH; [lia|done].
    + fold (fix_zone s o l) in Em. destruct (fix_zone_spec s o l) as (F1 & F2 & F3); [lia|].
      destruct (fix_zone s o l) as [o' l']. injection Em as <- <- <-. simpl in *. f_equal.
      rewrite u32_small in IH by lia. apply IH; [lia|done].
    + injection Em as <- <- <-. rewrite Eo. simpl. by apply IH.
    + injection Em as <- <- <-. rewrite Eo. simpl. by apply IH.
    + injection Em as <- <- <-. rewrite Eo. simpl. by apply IH.
  - specialize (Ed eq_refl). destruct (lumps_len_loop e n' L s k1) as [[L4 n2] k4] eqn:El.
    specialize (IH L s k1). rewrite El in IH. simpl in IH |- *. rewrite Ed in *. by apply IH.
Qed.

Lemma process_ops e orig cap t out s k out' s' t' k' :
  process_lumps e orig cap t out s k = Ret (out', s', t', k') -> ops t' = ops t.
Proof.
  revert out s k out' s' t' k'; induction t as [|d b _ a _ n IH]; intros out s k out' s' t' k';
    cbn [process_lumps]; [by intros [= _ _ <- _]|].
  destruct (op_offset (l_op d)) as [o|].
  - destruct (s >? o).
    + destruct (process_lumps _ _ _ n _ _ _) as [[[[? ?] n'] ?]|] eqn:E; [|done]. run. intros [= _ _ <- _].
      simpl. f_equal. by eapply IH.
    + destruct (orig_at _ _ _); [|done]. run. destruct (memcpy _ _ _); [|done]. run.
      destruct (process_chain _ _ _ b _ _) as [[[? b'] ?]|]; [|done]. run.
      destruct (process_chain _ _ _ a _ _) as [[[? a'] ?]|]; [|done]. run.
      destruct (process_lumps _ _ _ n _ _ _) as [[[[? ?] n'] ?]|] eqn:E; [|done]. run. intros [= _ _ <- _].
      simpl. f_equal. by eapply IH.
  - destruct (match l_op d with LUMP_ADD_OPT c => _ | _ => _ end) as [[ok d1] k1] eqn:Eg.
    apply guard_op in Eg as [Ed _]. destruct ok.
    + destruct (process_chain _ _ _ b _ _) as [[[? b'] ?]|]; [|done]. run.
      destruct (process_main _ _ _ _); [|done]. run.
      destruct (process_chain _ _ _ a _ _) as [[[? a'] ?]|]; [|done]. run.
      destruct (process_lumps _ _ _ n _ _ _) as [[[[? ?] n'] ?]|] eqn:E; [|done]. run. intros [= _ _ <- _].
      simpl. rewrite Ed. f_equal. by eapply IH.
    + destruct (process_lumps _ _ _ n _ _ _) as [[[[? ?] n'] ?]|] eqn:E; [|done]. run. intros [= _ _ <- _].
      simpl. rewrite Ed. f_equal. by eapply IH.
Qed.

Lemma at_lump_ops p t f t' : (forall d b a n, ops (f d b a n) = l_op d :: ops n) ->
  at_lump p t f = Ret t' -> ops t' = ops t.
Proof. intros Hf. unfold at_lump. case_test; [|done]. intros [= <-]. by apply ops_alter. Qed.

Lemma link_after_ops mem fl p op ty t q t' : link_after mem fl p op ty t = Ret (q, t') -> ops t' = ops t.
Proof.
  unfold link_after. destruct mem as [a|]; [|by intros [= _ <-]].
  destruct (at_lump _ _ _) as [l|] eqn:E; [|done]. run. intros [= _ <-]. by eapply at_lump_ops; [|exact E].
Qed.

Lemma link_before_ops mem fl p op ty t q t' : link_before mem fl p op ty t = Ret (q, t') -> ops t' = ops t.
Proof.
  unfold link_before. destruct mem as [a|]; [|by intros [= _ <-]].
  destruct (at_lump _ _ _) as [l|] eqn:E; [|done]. run. intros [= _ <-]. by eapply at_lump_ops; [|exact E].
Qed.

Lemma zones_ops t t' : ops t' = ops t -> zones t' = zones t.
Proof. unfold zones. by intros ->. Qed.

Lemma list_step_ok n t t' : 0 <= n < 2 ^ 32 -> list_step n t t' -> lumps_ok n t -> lumps_ok n t'.
Proof.
  intros Hn [mem fl t1 h ty|mem fl t1 h ty| | | | | | |e t1 k|e orig cap t1 out s k out' s' t1' k' H| |];
    intros Hok.
  3-8: unfold lumps_ok in *; erewrite zones_ops; [exact Hok | eauto using link_after_ops, link_before_ops].
  - destruct mem; [|done]. simpl. unfold lumps_ok, zones in *. rewrite ops_append. simpl.
    rewrite omap_app. simpl. by rewrite app_nil_r.
  - by destruct mem.
  - unfold lumps_ok, lumps_len in *. rewrite (lumps_len_zones e n) by (lia || done). apply zfix_ok; [lia|done].
  - unfold lumps_ok in *. erewrite zones_ops; [exact Hok|]. by eapply process_ops.
  - by eapply del_lumps_ok.
  - by eapply del_lumps_ok.
Qed.

Lemma add_sorted_ok m x o z : zone_of (l_op x) = Some z -> z.1 = o ->
  0 <= z.1 -> 0 <= z.2 -> z.1 + z.2 <= zlen (buf m) -> msg_ok m -> msg_ok (add_sorted m x o).
Proof.
  intros Hx Ho H1 H2 H3 [Hh Hb]. unfold add_sorted. destruct (in_body m o); (split; [|]); simpl;
    try done; by eapply insert_sorted_ok.
Qed.

Lemma msg_step_ok m m' : zlen (buf m) < 2 ^ 32 -> msg_step m m' -> msg_ok m -> msg_ok m' /\ buf m' = buf m.
Proof.
  intros Hn H. pose proof (zlen_nonneg (buf m)).
  destruct H as [m t H|m t H|mem fl m o len ty q m' Ho Hl Hs H|mem fl m o len ty q m' Ho H]; intros Hok.
  - split; [|done]. destruct Hok as [Hh Hb]. split; [|done]. by eapply list_step_ok.
  - split; [|done]. destruct Hok as [Hh Hb]. split; [done|]. by eapply list_step_ok.
  - unfold del_lump in H. destruct (Z.gtb_spec o (zlen (buf m))); [done|].
    rewrite u32_small in H by lia. destruct (Z.gtb_spec (o + len) (zlen (buf m))); [done|].
    destruct mem as [p|]; injection H as <- <-; [|done].
    split; [eapply add_sorted_ok; [reflexivity|simpl..|done]; lia|]. unfold add_sorted. by case_test.
  - unfold anchor_lump in H. destruct (Z.gtb_spec o (zlen (buf m))); [done|].
    destruct mem as [p|]; injection H as <- <-; [|done].
    split; [eapply add_sorted_ok; [reflexivity|simpl..|done]; lia|]. unfold add_sorted. by case_test.
Qed.

Lemma reaches_ok m m' : zlen (buf m) < 2 ^ 32 -> msg_ok m -> reaches m m' -> msg_ok m' /\ buf m' = buf m.
Proof.
  intros Hn Hok. induction 1 as [|m m1 m2 H IH Hs]; [done|].
  destruct (IH Hn Hok) as [Hok1 E]. rewrite <- E in Hn. destruct (msg_step_ok m1 m2 Hn Hs Hok1) as [? E2].
  split; [done|congruence].
Qed.

End Lumps.
