(* ===== verification/MsgBuild.v ===== *)
(** * Messages to send ([src/msg_translator.c])

    The request that is forwarded, the reply that is relayed and the reply that is made
    here are built from the message received: the start line, the headers the proxy adds
    (Via, its received and rport parameters, Content-Length, a Route for the path), and
    the lumps ([Lumps]).  The size is computed first and the buffer filled afterwards.

    The message is the record the parsers leave, with pointers into its buffer as offsets.
    Every [pkg_malloc] may fail; [goto error] is the result [None]. *)

From Stdlib Require Import ZArith Lia List String Ascii Bool Sorted.
From stdpp Require Import base tactics option list list_numbers sorting.
From S2P Require Import Prelude Ut Lumps.

Module MsgBuild.
Import Ut Lumps.

Definition CRLF : bytes := [13; 10].
Definition CONTENT_LENGTH : bytes := Eval vm_compute in B "Content-Length: ".
Definition ROUTE_STR : bytes := Eval vm_compute in B "Route: ".
Definition MY_VIA : bytes := Eval vm_compute in B "Via: SIP/2.0/UDP ".
Definition MY_BRANCH : bytes := Eval vm_compute in B ";branch=".
Definition RECEIVED : bytes := Eval vm_compute in B ";received=".
Definition RPORT : bytes := Eval vm_compute in B ";rport=".
Definition ID_PARAM : bytes := Eval vm_compute in B ";i=".
Definition SIP_VERSION : bytes := Eval vm_compute in B "SIP/2.0".
Definition TOTAG_TOKEN : bytes := Eval vm_compute in B ";tag=".
Definition MAX_RECEIVED_SIZE : Z := 57.

Definition FL_FORCE_RPORT : Z := 1.
Definition FL_FORCE_LOCAL_RPORT : Z := 4.

Definition HDR_VIA_T : Z := 1.
Definition HDR_TO_T : Z := 3.
Definition HDR_FROM_T : Z := 4.
Definition HDR_CSEQ_T : Z := 5.
Definition HDR_CALLID_T : Z := 6.
Definition HDR_ROUTE_T : Z := 9.
Definition HDR_RECORDROUTE_T : Z := 10.
Definition HDR_CONTENTLENGTH_T : Z := 13.

(** ** The message *)

(** A header: offsets of its name and body, length of the body and of the whole, and for a
    To its tag, offset and length. *)
Record hdr_field : Type := Hdr {
  h_type : Z; h_name : Z; h_body : Z; h_body_len : Z; h_len : Z; h_tag : option (Z * Z)
}.

(** The topmost Via; [received] and [rport] are parameters, start and size. *)
Record via_body : Type := Via {
  via_hdr : Z;
  via_params : option Z;
  via_host : Z;
  via_host_len : Z;
  via_port : Z;
  via_port_len : Z;
  via_maddr : option bytes;
  via_received : option (Z * Z);
  via_rport : option (Z * Z);
  via_bsize : Z;
  via_next : bool
}.

Record sip_msg : Type := Msg {
  uri_s : Z;
  uri_len : Z;
  new_uri : option bytes;
  path_vec : bytes;
  msg_flags : Z;
  via1 : via_body;
  h_via1 : hdr_field;
  via2_proto : option Z;
  headers : list hdr_field;
  content_length : option hdr_field;
  unparsed : Z;
  parse_ok : bool;
  add_to_branch : bytes
}.

(** What is outside: memory, printed addresses, DNS, the defaults of the configuration. *)
Record benv : Type := Be {
  le : lenv;
  mem : nat -> option Z;
  init_lump_flags : Z;
  src_ip_str : option bytes;
  received_dns : Z;
  dns_slots : list bytes;
  rev_names : list bytes;
  default_global_address : bytes;
  default_global_port : bytes
}.

(** ** Building with failures *)

Record bst : Type := Bst { lm : lmsg; rnd : nat; mal : nat }.

Definition M (A : Type) : Type := bst -> res (option A * bst).

#[export] Instance m_ret : MRet M := fun A a st => Ret (Some a, st).
#[export] Instance m_bind : MBind M := fun A B f m st =>
  match m st with
  | Ret (Some a, st) => f a st
  | Ret (None, st) => Ret (None, st)
  | Fault x => Fault x
  end.

Definition fail {A} : M A := fun st => Ret (None, st).
Definition bad {A} (f : fault) : M A := fun _ => Fault f.
Definition lift {A} (r : res A) : M A := fun st => match r with Ret a => Ret (Some a, st) | Fault x => Fault x end.

Section Build.
Context (e : benv).

Definition pkg_malloc : M Z := fun st =>
  Ret (mem e (mal st), Bst (lm st) (rnd st) (S (mal st))).

(** The calls of [data_lump.c]; a null result goes to the error. *)
Definition on_msg (f : option Z -> lmsg -> res (option Z * lmsg)) : M Z := fun st =>
  match f (mem e (mal st)) (lm st) with
  | Ret (r, l) => Ret (r, Bst l (rnd st) (S (mal st)))
  | Fault x => Fault x
  end.

(** The lump at [a], in whichever list it is. *)
Definition on_lump (a : Z) (f : option Z -> lump -> res (option Z * lump)) : M Z :=
  on_msg (fun p m =>
    if has a (add_rm m) then
      match f p (add_rm m) with Ret (r, t) => Ret (r, set_add_rm t m) | Fault x => Fault x end
    else
      match f p (body_lumps m) with Ret (r, t) => Ret (r, set_body_lumps t m) | Fault x => Fault x end).

Definition anchor (offset type : Z) : M Z :=
  on_msg (fun p m => anchor_lump p (init_lump_flags e) m offset 0 type).
Definition delete (offset len type : Z) : M Z :=
  on_msg (fun p m => del_lump p (init_lump_flags e) m offset len type).
Definition insert_after (a : Z) (text : bytes) (type : Z) : M Z :=
  on_lump a (fun p t => insert_new_lump_after p (init_lump_flags e) a text type t).
Definition insert_before (a : Z) (text : bytes) (type : Z) : M Z :=
  on_lump a (fun p t => insert_new_lump_before p (init_lump_flags e) a text type t).

(** [lumps_len] of one of the lists, which it repairs. *)
Definition lumps_len_head : M Z := fun st =>
  let '(n, t, k) := lumps_len (le e) (add_rm (lm st)) (rnd st) in
  Ret (Some n, Bst (set_add_rm t (lm st)) k (mal st)).

Definition lumps_len_body : M Z := fun st =>
  let '(n, t, k) := lumps_len (le e) (body_lumps (lm st)) (rnd st) in
  Ret (Some n, Bst (set_body_lumps t (lm st)) k (mal st)).

Definition process_head (cap : Z) (out : bytes) (s : Z) : M (bytes * Z) := fun st =>
  match process_lumps (le e) (buf (lm st)) cap (add_rm (lm st)) out s (rnd st) with
  | Ret (out, s, t, k) => Ret (Some (out, s), Bst (set_add_rm t (lm st)) k (mal st))
  | Fault x => Fault x
  end.

Definition process_body (cap : Z) (out : bytes) (s : Z) : M (bytes * Z) := fun st =>
  match process_lumps (le e) (buf (lm st)) cap (body_lumps (lm st)) out s (rnd st) with
  | Ret (out, s, t, k) => Ret (Some (out, s), Bst (set_body_lumps t (lm st)) k (mal st))
  | Fault x => Fault x
  end.

Definition get_buf : M bytes := fun st => Ret (Some (buf (lm st)), st).

(** ** Pieces *)

(** The source address is the name in the Via, or so says DNS: 0 if they agree.  The
    entries of the resolver are the bytes that are compared: those of the slots. *)
Definition DO_DNS : Z := 1.
Definition DO_REV_DNS : Z := 2.

(** [strncmp (a, b, len) == 0] for the [len] bytes of [a] and a terminated string [b]. *)
Fixpoint strncmp_eq (a b : bytes) : bool :=
  match a with
  | [] => true
  | x :: a' => let y := match b with [] => 0 | y :: _ => y end in
               if x =? y then (if x =? 0 then true else strncmp_eq a' (tl b)) else false
  end.

Definition check_via_address (nm : bytes) : Z :=
  let ip := src_ip (rcv (le e)) in
  match src_ip_str e with
  | None => -1
  | Some s =>
      let inner := take (length nm - 2) (drop 1 nm) in
      if (af ip =? AF_INET6)
         && (bool_decide (map tolower nm = map tolower s)
             || ((zlen s =? zlen nm - 2) && bool_decide (nm !! 0%nat = Some §"[")
                 && bool_decide (last nm = Some §"]") && bool_decide (map tolower inner = map tolower s)))
      then 0
      else if strncmp_eq nm s then 0
      else if negb (Z.land (received_dns e) DO_DNS =? 0)
              && existsb (fun slot => bool_decide (take (length (addr ip)) slot = addr ip)) (dns_slots e) then 0
      else if negb (Z.land (received_dns e) DO_REV_DNS =? 0) && existsb (strncmp_eq nm) (rev_names e) then 0
      else -1
  end.

Definition via_name (m : sip_msg) (orig : bytes) : bytes :=
  match via_maddr (via1 m) with
  | Some a => a
  | None => slice orig (via_host (via1 m)) (via_host (via1 m) + via_host_len (via1 m))
  end.

Definition received_test (m : sip_msg) (orig : bytes) : Z :=
  match via_received (via1 m) with
  | Some _ => 1
  | None => check_via_address (via_name m orig)
  end.

(** A failing [ip_addr2a] leaks the buffer; the address fits [MAX_RECEIVED_SIZE]. *)
Definition received_builder : M bytes :=
  _ ← pkg_malloc;
  match src_ip_str e with
  | None => fail
  | Some tmp =>
      if zlen RECEIVED + zlen tmp <? MAX_RECEIVED_SIZE then mret (RECEIVED ++ tmp) else bad OutOfBounds
  end.

Definition rport_builder : M bytes :=
  _ ← pkg_malloc; mret (RPORT ++ int2str (src_port (rcv (le e)))).

Definition id_builder : M bytes :=
  let '(revhex, _, rc) := int2reverse_hex 8 (proto_reserved1 (rcv (le e))) in
  if rc =? -1 then fail else _ ← pkg_malloc; mret (ID_PARAM ++ revhex).

(** The offset of the body. *)
Definition get_body (m : sip_msg) (orig : bytes) : option Z :=
  if negb (parse_ok m) then None
  else
    let len := unparsed m in
    if (len + 2 <=? zlen orig) && bool_decide (slice orig len (len + 2) = CRLF) then Some (len + 2)
    else if (len + 1 <=? zlen orig)
            && (bool_decide (orig !! Z.to_nat len = Some 10) || bool_decide (orig !! Z.to_nat len = Some 13))
    then Some (len + 1)
    else None.

Definition clen_builder (m : sip_msg) (diff : Z) : M bytes :=
  orig ← get_buf;
  match get_body m orig with
  | None => fail
  | Some body =>
      let value := s32 (s32 (zlen orig - body) + s32 diff) in
      _ ← pkg_malloc; mret (CONTENT_LENGTH ++ int2str (u64 value) ++ CRLF)
  end.

Definition adjust_clen (m : sip_msg) (body_delta proto : Z) : M () :=
  let add_anchor := anchor (unparsed m) HDR_CONTENTLENGTH_T in
  let tcp := (proto =? PROTO_TCP) || (proto =? PROTO_TLS) in
  if tcp && negb (parse_ok m) then fail
  else
    at_ ← (if tcp && absent (content_length m) then (a ← add_anchor; mret (Some a)) else mret None);
    at_ ← (match at_ with
              | Some a => mret (Some a)
              | None =>
                  if body_delta =? 0 then mret None
                  else if negb (parse_ok m) then fail
                  else match content_length m with
                       | None =>
                           if negb (proto =? PROTO_UDP) then (a ← add_anchor; mret (Some a)) else mret None
                       | Some h =>
                           a ← delete (h_name h) (h_len h) HDR_CONTENTLENGTH_T;
                           mret (Some a)
                       end
              end);
    match at_ with
    | None => mret ()
    | Some a =>
        clen ← clen_builder m body_delta;
        _ ← insert_after a clen HDR_CONTENTLENGTH_T;
        mret ()
    end.

(** The first Route header, and the last Via in front of it with the header that follows. *)
Fixpoint route_or_via (hs : list hdr_field) (last_via : option (option hdr_field))
  : hdr_field + option (option hdr_field) :=
  match hs with
  | [] => inr last_via
  | h :: hs' =>
      if h_type h =? HDR_ROUTE_T then inl h
      else if h_type h =? HDR_VIA_T then route_or_via hs' (Some (head hs'))
      else route_or_via hs' last_via
  end.

Definition insert_path_as_route (m : sip_msg) : M () :=
  let anchor_at o := anchor o 0 in
  at_ ← (match route_or_via (headers m) None with
            | inl h => anchor_at (h_name h)
            | inr (Some (Some nx)) => anchor_at (h_name nx)
            | inr (Some None) => anchor_at (unparsed m)
            | inr None => match headers m with
                          | h :: _ => anchor_at (h_name h)
                          | [] => bad NullDeref
                          end
            end);
  _ ← pkg_malloc;
  _ ← insert_before at_ (ROUTE_STR ++ path_vec m ++ CRLF) 0;
  mret ().

(** The Via of this proxy.  The prefix is overwritten from its fourth byte from the end. *)
Definition via_proto (proto : Z) : option bytes :=
  let keep := take (length MY_VIA - 4) MY_VIA in
  if proto =? PROTO_UDP then Some MY_VIA
  else if proto =? PROTO_TCP then Some (keep ++ B "TCP ")
  else if proto =? PROTO_TLS then Some (keep ++ B "TLS ")
  else if proto =? PROTO_SCTP then Some (keep ++ B "SCTP ")
  else None.

Record hostport : Type := Hp { hp_host : bytes; hp_port : bytes }.

Definition set_hostport : hostport :=
  Hp (if zlen (set_global_address (le e)) =? 0 then default_global_address e else set_global_address (le e))
     (if zlen (set_global_port (le e)) =? 0 then default_global_port e else set_global_port (le e)).

(** The address and the port printed, and whether they are those of the socket. *)
Definition via_address (s : socket_info) (hp : hostport) : bytes * bool :=
  if zlen (hp_host hp) =? 0 then (address_str s, true) else (hp_host hp, false).
Definition via_portno (s : socket_info) (hp : hostport) : bytes * bool :=
  if zlen (hp_port hp) =? 0 then (port_no_str s, true) else (hp_port hp, false).

Definition opt_len (pre : bytes) (o : option bytes) : Z :=
  match o with Some x => zlen pre + zlen x | None => 0 end.

Definition via_max_len (s : socket_info) (branch extra : option bytes) (hp : hostport) : Z :=
  zlen MY_VIA + zlen (via_address s hp).1 + 2 + 1 + zlen (via_portno s hp).1
  + opt_len MY_BRANCH branch + opt_len [] extra + zlen CRLF + 1.

Definition via_text (s : socket_info) (branch extra : option bytes) (prefix : bytes) (hp : hostport) : bytes :=
  let '(address_str, own) := via_address s hp in
  let '(port_str, own_port) := via_portno s hp in
  prefix
  ++ (if (af (address s) =? AF_INET6) && own then [§"["] ++ address_str ++ [§"]"] else address_str)
  ++ (if negb (port_no s =? SIP_PORT) || negb own_port then [§":"] ++ port_str else [])
  ++ match branch with Some b => MY_BRANCH ++ b | None => [] end
  ++ match extra with Some x => x | None => [] end
  ++ CRLF.

Definition via_builder (s : socket_info) (branch extra : option bytes) (proto : Z) (hp : hostport) : M bytes :=
  _ ← pkg_malloc;
  match via_proto proto with
  | None => fail
  | Some prefix =>
      let line := via_text s branch extra prefix hp in
      if zlen line + 1 <=? via_max_len s branch extra hp then mret line else bad OutOfBounds
  end.

(** ** A request to forward *)

Definition flag (m : sip_msg) (f : Z) : bool := negb (Z.land (msg_flags m) f =? 0).

(** The parameters added to the Via: the connection, a request for the port. *)
Definition extra_params (m : sip_msg) : M bytes :=
  let tcp := (rcv_proto (rcv (le e)) =? PROTO_TCP) || (rcv_proto (rcv (le e)) =? PROTO_TLS) in
  id ← (if tcp then id_builder else mret []);
  _ ← (if zlen (path_vec m) =? 0 then mret () else insert_path_as_route m);
  if flag m FL_FORCE_LOCAL_RPORT then _ ← pkg_malloc; mret (id ++ take (length RPORT - 1) RPORT)
  else mret id.

(** From the start of the Via header to the place of its first parameter. *)
Definition via_param_offset (v : via_body) : Z :=
  match via_params v with
  | Some p => p - via_hdr v - 1
  | None => via_host v - via_hdr v + via_host_len v + (if via_port v =? 0 then 0 else via_port_len v + 1)
  end.

(** A Via parameter: in place of the old one, or after the lump given, or after the host.
    The result is the lump it was put after. *)
Definition insert_via_param (v : via_body) (old : option (Z * Z)) (at_ : option Z) (text : bytes) : M Z :=
  a ← (match old with
       | Some (start, size) => delete (start - 1) (size + 1) HDR_VIA_T
       | None => match at_ with
                 | Some a => mret a
                 | None => anchor (via_hdr v + via_param_offset v) HDR_VIA_T
                 end
       end);
  _ ← insert_after a text HDR_VIA_T;
  mret a.

(** All the lumps of a forwarded request: the change of the length of the body. *)
Definition add_req_lumps (m : sip_msg) (proto : Z) : M Z :=
  orig ← get_buf;
  extra ← extra_params m;
  body_delta ← lumps_len_body;
  _ ← adjust_clen m body_delta proto;
  line ← (match send_sock (le e) with
          | Some sock => via_builder sock (Some (add_to_branch m)) (if zlen extra =? 0 then None else Some extra)
                           proto set_hostport
          | None => bad NullDeref
          end);
  received ← (if received_test m orig =? 0 then mret None else (r ← received_builder; mret (Some r)));
  rport ← (if flag m FL_FORCE_RPORT || negb (absent (via_rport (via1 m)))
           then (r ← rport_builder; mret (Some r)) else mret None);
  a ← anchor (via_hdr (via1 m)) HDR_VIA_T;
  _ ← insert_before a line HDR_VIA_T;
  at_ ← (match received with
         | Some r => a ← insert_via_param (via1 m) (via_received (via1 m)) None r; mret (Some a)
         | None => mret None
         end);
  _ ← (match rport with
       | Some r => a ← insert_via_param (via1 m) (via_rport (via1 m)) at_ r; mret (Some a)
       | None => mret None
       end);
  mret body_delta.

(** A write, and a copy from the message, as computations here. *)
Definition put (cap : Z) (out src : bytes) : M bytes := lift (memcpy cap out src).
Definition from_orig (s size : Z) : M bytes := orig ← get_buf; lift (orig_at orig s size).

(** The buffer: up to the URI and the new URI, the lumps, the rest.  It has one byte more
    than the message. *)
Definition fill (new_len s : Z) (out : bytes) : M bytes :=
  orig ← get_buf;
  '(out, s) ← process_head (new_len + 1) out s;
  '(out, s) ← process_body (new_len + 1) out s;
  rest ← from_orig s (zlen orig - s);
  put (new_len + 1) out rest.

(** The length of the new message. *)
Definition req_new_len (m : sip_msg) (len body_delta head_delta : Z) : Z :=
  let new_len := u32 (len + body_delta + head_delta) in
  match new_uri m with Some u => u32 (new_len - uri_len m + zlen u) | None => new_len end.

Definition build_req_buf_from_sip_req (m : sip_msg) (proto : Z) : M (bytes * Z) :=
  body_delta ← add_req_lumps m proto;
  head_delta ← lumps_len_head;
  orig ← get_buf;
  let new_len := req_new_len m (zlen orig) body_delta head_delta in
  _ ← pkg_malloc;
  '(out, s) ← (match new_uri m with
               | Some u =>
                   start ← from_orig 0 (uri_s m);
                   out ← put (new_len + 1) [] start;
                   out ← put (new_len + 1) out u;
                   mret (out, uri_s m + uri_len m)
               | None => mret ([], 0)
               end);
  out ← fill new_len s out;
  mret (out, new_len).

End Build.

(** ** A reply to relay *)

(** The socket the reply will leave from is not known. *)
Definition no_sock (e : benv) : benv :=
  Be (Le (rcv (le e)) None (set_global_address (le e)) (set_global_port (le e)) (rand (le e)))
     (mem e) (init_lump_flags e) (src_ip_str e) (received_dns e) (dns_slots e) (rev_names e)
     (default_global_address e) (default_global_port e).

(** [code] and the offset of the code come from the status line.  503 is relayed as 500. *)
Definition build_res_buf_from_sip_res (e0 : benv) (m : sip_msg) (code status_s : Z) : M (bytes * Z) :=
  let e := no_sock e0 in
  let '(via_len, via_offset) :=
    if via_next (via1 m) then (via_bsize (via1 m), h_body (h_via1 m)) else (h_len (h_via1 m), h_name (h_via1 m)) in
  body_delta ← lumps_len_body e;
  _ ← adjust_clen e m body_delta (match via2_proto m with Some p => p | None => PROTO_UDP end);
  _ ← delete e via_offset via_len HDR_VIA_T;
  head_delta ← lumps_len_head e;
  orig ← get_buf;
  let new_len := u32 (zlen orig + body_delta + head_delta) in
  _ ← pkg_malloc e;
  out ← fill e new_len 0 [];
  let out := if code =? 503 then <[Z.to_nat (status_s + 2) := §"0"]> out else out in
  mret (out, new_len).
(** ** A reply to a request *)

Definition LUMP_RPL_HDR : Z := 2.
Definition LUMP_RPL_BODY : Z := 4.
Definition LUMP_RPL_NODUP : Z := 8.
Definition LUMP_RPL_SHMEM : Z := 32.
Definition MAX_WARNING_LEN : Z := 256.
Definition WARNING : bytes := Eval vm_compute in B "Warning: 392 ".
Definition WARNING_PHRASE : bytes :=
  Eval vm_compute in B " " ++ [34] ++ B "Noisy feedback tells: ".

(** *** The texts added to a reply ([data_lump_rpl.c]) *)

Record lump_rpl : Type := Rl { r_id : Z; r_text : bytes; r_flags : Z }.

Definition rl_flag (f x : Z) : bool := negb (Z.land f x =? 0).

Definition add_lump_rpl (mem : option Z) (l : list lump_rpl) (s : option bytes) (flags : Z)
  : option Z * list lump_rpl :=
  let kind := Z.land flags (Z.lor LUMP_RPL_HDR LUMP_RPL_BODY) in
  if (kind =? Z.lor LUMP_RPL_HDR LUMP_RPL_BODY) || (kind =? 0) || rl_flag flags LUMP_RPL_SHMEM then (None, l)
  else match s with
       | None | Some [] => (None, l)
       | Some s =>
           match mem with
           | None => (None, l)
           | Some p =>
               if rl_flag flags LUMP_RPL_BODY && existsb (fun x => rl_flag (r_flags x) LUMP_RPL_BODY) l
               then (None, l)
               else (Some p, l ++ [Rl p s flags])
           end
       end.

Fixpoint unlink_lump_rpl (p : Z) (l : list lump_rpl) : list lump_rpl :=
  match l with
  | [] => []
  | x :: l' => if r_id x =? p then l' else x :: unlink_lump_rpl p l'
  end.

Definition del_nonshm_lump_rpl (l : list lump_rpl) : list lump_rpl :=
  filter (fun x => rl_flag (r_flags x) LUMP_RPL_SHMEM = true) l.

(** *** The Warning header *)

(** The values it shows. *)
Record warning_env : Type := We {
  pid : Z;
  via_cnt : Z;
  all_parsed : bool
}.

Definition str_print (clen : option bytes) (x : bytes) : option bytes :=
  match clen with
  | Some b => if zlen b + zlen x >? MAX_WARNING_LEN then None else Some (b ++ x)
  | None => None
  end.

Definition warning_builder (e : benv) (m : sip_msg) (w : warning_env) (orig : bytes) : res (option bytes) :=
  match bind_address (rcv (le e)), src_ip_str e with
  | Some si, Some ip =>
      let uri := slice orig (uri_s m) (uri_s m + uri_len m) in
      let foo := match new_uri m with Some u => u | None => uri end in
      let text := fold_left str_print
        [WARNING; name si; B ":"; port_no_str si; WARNING_PHRASE; B " pid="; int2str (pid w);
         B " req_src_ip="; ip; B " req_src_port="; int2str (src_port (rcv (le e)));
         B " in_uri="; uri; B " out_uri="; foo; B " via_cnt"; if all_parsed w then B "=" else B ">";
         B "="; int2str (via_cnt w)] (Some []) in
      Ret (match text with
           | Some b => if zlen b <? MAX_WARNING_LEN then Some (b ++ [34]) else None
           | None => None
           end)
  | _, _ => Fault NullDeref
  end.

(** *** The reply *)

(** What the reply is made of besides the request: code and reason, a tag for the To, the
    texts added, the Server header, the Warning header, and the parameters for the Via. *)
Record reply_in : Type := Ri {
  code : Z;
  text : bytes;
  new_tag : bytes;
  reply_lump : list lump_rpl;
  server_header : option bytes;
  warning : option bytes;
  received_buf : bytes;
  rport_buf : option bytes
}.

Definition digits3 (c : Z) : bytes :=
  let d x := u8 (§"0" + (x - x / 10 * 10)) in [d (c / 10 / 10); d (c / 10); d c].

Definition status_line (i : reply_in) : bytes :=
  SIP_VERSION ++ [§" "] ++ digits3 (code i) ++ [§" "] ++ text i ++ CRLF.

(** The first To header that was parsed, and the length of its tag. *)
Definition get_to_tag (m : sip_msg) : option (Z * Z) :=
  match filter (fun h => h_type h = HDR_TO_T) (headers m) with
  | h :: _ => h_tag h
  | [] => None
  end.

Definition tag_len (t : option (Z * Z)) : Z := match t with Some (_, l) => l | None => 0 end.

Definition has_new_tag (i : reply_in) : bool := negb (zlen (new_tag i) =? 0).

Definition with_rr (i : reply_in) : bool := negb ((code i <? 180) || (300 <=? code i)).

(** Is this the topmost Via ([hdr == msg->h_via1]). *)
Definition is_via1 (m : sip_msg) (h : hdr_field) : bool := h_name h =? h_name (h_via1 m).

Definition rport_len (i : reply_in) : Z := match rport_buf i with Some r => zlen r | None => 0 end.

(** *** Its length *)

Definition hdr_len (m : sip_msg) (i : reply_in) (h : hdr_field) : Z :=
  if h_type h =? HDR_TO_T then
    h_len h + (if has_new_tag i then
                 if negb (tag_len (get_to_tag m) =? 0) then zlen (new_tag i) - tag_len (get_to_tag m)
                 else zlen (new_tag i) + zlen TOTAG_TOKEN
               else 0)
  else if h_type h =? HDR_VIA_T then
    h_body h + h_body_len h - h_name h + zlen CRLF
    + (if is_via1 m h then zlen (received_buf i) + rport_len i else 0)
  else if h_type h =? HDR_RECORDROUTE_T then (if with_rr i then h_len h else 0)
  else if (h_type h =? HDR_FROM_T) || (h_type h =? HDR_CALLID_T) || (h_type h =? HDR_CSEQ_T) then h_len h
  else 0.

(** The last text that is a body. *)
Definition reply_body (i : reply_in) : option bytes :=
  last (map r_text (filter (fun x => rl_flag (r_flags x) LUMP_RPL_BODY = true) (reply_lump i))).

Definition clen_value (i : reply_in) : bytes :=
  match reply_body i with Some b => int2str (zlen b) | None => B "0" end.

Definition sum_len (l : list bytes) : Z := fold_right (fun x n => zlen x + n) 0 l.

Definition reply_size (m : sip_msg) (i : reply_in) : Z :=
  (match rport_buf i, via_rport (via1 m) with Some _, Some (_, size) => - (size + 1) | _, _ => 0 end)
    + (zlen SIP_VERSION + 1 + 3 + 1 + zlen (text i) + zlen CRLF)
    + fold_right (fun h n => hdr_len m i h + n) 0 (headers m)
    + sum_len (map r_text (reply_lump i))
    + (match server_header i with Some s => zlen s + zlen CRLF | None => 0 end)
    + (match warning i with Some w => zlen w + zlen CRLF | None => 0 end)
    + (zlen CONTENT_LENGTH + zlen (clen_value i) + zlen CRLF)
    + zlen CRLF.

(** An unsigned int. *)
Definition reply_len (m : sip_msg) (i : reply_in) : Z := u32 (reply_size m i).

(** *** Its text *)

(** [append_str] of a text, and of a part of the request, to what is written so far with
    the place of the tag in it. *)
Definition append_str (cap : Z) (x : bytes) (o : bytes * option (Z * Z)) : res (bytes * option (Z * Z)) :=
  out ← memcpy cap o.1 x; Ret (out, o.2).

Definition append_orig (cap : Z) (orig : bytes) (s size : Z) (o : bytes * option (Z * Z))
  : res (bytes * option (Z * Z)) :=
  x ← orig_at orig s size; append_str cap x o.

Definition bookmark (len : Z) (o : bytes * option (Z * Z)) : bytes * option (Z * Z) :=
  (o.1, Some (zlen o.1, len)).

Definition write_via (cap : Z) (orig : bytes) (m : sip_msg) (i : reply_in) (h : hdr_field)
    (o : bytes * option (Z * Z)) : res (bytes * option (Z * Z)) :=
  let end_ := h_body h + h_body_len h in
  o ← (if is_via1 m h then
         o ← (match rport_buf i with
              | Some r =>
                  match via_rport (via1 m) with
                  | Some (start, size) =>
                      o ← append_orig cap orig (h_name h) (start - h_name h - 1) o;
                      o ← append_str cap r o;
                      append_orig cap orig (start + size) (end_ - start - size) o
                  | None =>
                      o ← append_orig cap orig (h_name h) (end_ - h_name h) o;
                      append_str cap r o
                  end
              | None => append_orig cap orig (h_name h) (end_ - h_name h) o
              end);
         append_str cap (received_buf i) o
       else append_orig cap orig (h_name h) (end_ - h_name h) o);
  append_str cap CRLF o.

Definition write_to (cap : Z) (orig : bytes) (m : sip_msg) (i : reply_in) (h : hdr_field)
    (o : bytes * option (Z * Z)) : res (bytes * option (Z * Z)) :=
  if has_new_tag i then
    match get_to_tag m with
    | Some (tag_s, Zpos _ as tlen) =>
        o ← append_orig cap orig (h_name h) (tag_s - h_name h) o;
        let o := bookmark (zlen (new_tag i)) o in
        o ← append_str cap (new_tag i) o;
        append_orig cap orig (tag_s + tlen) (h_name h + h_len h - (tag_s + tlen)) o
    | _ =>
        let after_body := h_body h + h_body_len h in
        o ← append_orig cap orig (h_name h) (after_body - h_name h) o;
        o ← append_str cap TOTAG_TOKEN o;
        let o := bookmark (zlen (new_tag i)) o in
        o ← append_str cap (new_tag i) o;
        append_orig cap orig after_body (h_name h + h_len h - after_body) o
    end
  else
    let o := match h_tag h with
             | Some (tag_s, tlen) => (o.1, Some (zlen o.1 + (tag_s - h_name h), tlen))
             | None => (o.1, None)
             end in
    append_orig cap orig (h_name h) (h_len h) o.

Definition write_hdr (cap : Z) (orig : bytes) (m : sip_msg) (i : reply_in) (h : hdr_field)
    (o : bytes * option (Z * Z)) : res (bytes * option (Z * Z)) :=
  if h_type h =? HDR_VIA_T then write_via cap orig m i h o
  else if h_type h =? HDR_RECORDROUTE_T then
    (if with_rr i then append_orig cap orig (h_name h) (h_len h) o else Ret o)
  else if h_type h =? HDR_TO_T then write_to cap orig m i h o
  else if (h_type h =? HDR_FROM_T) || (h_type h =? HDR_CALLID_T) || (h_type h =? HDR_CSEQ_T) then
    append_orig cap orig (h_name h) (h_len h) o
  else Ret o.

Fixpoint write_hdrs (cap : Z) (orig : bytes) (m : sip_msg) (i : reply_in) (hs : list hdr_field)
    (o : bytes * option (Z * Z)) : res (bytes * option (Z * Z)) :=
  match hs with
  | [] => Ret o
  | h :: hs => o ← write_hdr cap orig m i h o; write_hdrs cap orig m i hs o
  end.

Fixpoint append_all (cap : Z) (l : list bytes) (o : bytes * option (Z * Z)) : res (bytes * option (Z * Z)) :=
  match l with
  | [] => Ret o
  | x :: l => o ← append_str cap x o; append_all cap l o
  end.

(** What follows the headers of the request. *)
Definition reply_tail (i : reply_in) : list bytes :=
  map r_text (filter (fun x => rl_flag (r_flags x) LUMP_RPL_HDR = true) (reply_lump i))
  ++ (match server_header i with Some s => [s; CRLF] | None => [] end)
  ++ [CONTENT_LENGTH; clen_value i; CRLF]
  ++ (match warning i with Some w => [w; CRLF] | None => [] end)
  ++ [CRLF] ++ (match reply_body i with Some b => [b] | None => [] end).

(** The buffer filled: what was written, the length computed, the place of the tag. *)
Definition render_reply (orig : bytes) (m : sip_msg) (i : reply_in) : res (bytes * Z * option (Z * Z)) :=
  let len := reply_len m i in
  o ← append_str (len + 1) (status_line i) ([], None);
  o ← write_hdrs (len + 1) orig m i (headers m) o;
  '(out, bm) ← append_all (len + 1) (reply_tail i) o;
  Ret (out, len, bm).

Definition build_res_buf_from_sip_req (e : benv) (m : sip_msg) (code : Z) (text new_tag : bytes)
    (lumps : list lump_rpl) (server : option bytes) (sip_warning : option warning_env)
  : M (bytes * Z * option (Z * Z)) :=
  if negb (parse_ok m) then fail
  else
    orig ← get_buf;
    received ← (if received_test e m orig =? 0 then mret [] else received_builder e);
    rport ← (if flag m FL_FORCE_RPORT || negb (absent (via_rport (via1 m)))
             then (r ← rport_builder e; mret (Some r)) else mret None);
    warning ← lift (match sip_warning with Some w => warning_builder e m w orig | None => Ret None end);
    _ ← pkg_malloc e;
    lift (render_reply orig m (Ri code text new_tag lumps server warning received rport)).

End MsgBuild.
