(* ===== verification/MsgSpec.v ===== *)
(** * Messages to send: theorems

    The request built for forwarding is the one received with its edits applied: those of
    the lumps and those of the proxy itself, at the byte positions where they belong.  The
    reference is [Lumps.edited_from]. *)

From Stdlib Require Import ZArith Lia List String Ascii Bool Sorted.
From stdpp Require Import base tactics option list list_numbers sorting.
From S2P Require Import Prelude Ut Lumps MsgBuild.

Module MsgSpec.
Import Ut Lumps MsgBuild.

(** ** Inserting an edit *)

Definition zone_start (x : edit) : Z := match e_zone x with Some (o, _) => o | None => 0 end.

(** In front of the first zone that starts later. *)
Fixpoint einsert (x : edit) (es : list edit) : list edit :=
  match es with
  | [] => [x]
  | y :: es' => match e_zone y with
                | Some (o, _) => if o >? zone_start x then x :: es else y :: einsert x es'
                | None => y :: einsert x es'
                end
  end.

Lemma einsert_sorted x z es : e_zone x = Some z -> StronglySorted Z.le (starts es) ->
  StronglySorted Z.le (starts (einsert x es))
  /\ forall o, Forall (Z.le o) (starts es) -> o <= z.1 -> Forall (Z.le o) (starts (einsert x es)).
Proof.
  intros Hx. assert (zone_start x = z.1) as Hs by (unfold zone_start; rewrite Hx; by destruct z).
  assert (forall es, starts (x :: es) = z.1 :: starts es) as Hc.
  { intros es'. unfold starts. simpl. rewrite Hx. by destruct z. }
  induction es as [|[[[o l]|] p q] es IH]; cbn [einsert e_zone]; intros Hso.
  { rewrite Hc. split; [by repeat constructor|]. intros o _ Ho. by constructor. }
  - rewrite Hs. apply StronglySorted_inv in Hso as [Hso Hle]. destruct (IH Hso) as [IH1 IH2].
    destruct (Z.gtb_spec o z.1).
    + rewrite Hc. split.
      * constructor; [by constructor|]. constructor; [lia|]. eapply Forall_impl; [exact Hle|]. simpl. lia.
      * intros y Hy Hz. by constructor.
    + split; [constructor; [exact IH1|apply IH2; [done|lia]]|].
      intros y Hy Hz. apply Forall_cons in Hy as [Hy Hy']. constructor; [done|by apply IH2].
  - by apply IH.
Qed.

Lemma einsert_in n x es : zone_in n x -> Forall (zone_in n) es -> Forall (zone_in n) (einsert x es).
Proof.
  intros Hx. induction 1 as [|y es Hy Hes IH]; simpl; [by constructor|].
  destruct (e_zone y) as [[o l]|]; [case_test|]; repeat constructor; done.
Qed.

(** [insert_sorted] for a lump that has its chains already. *)
Fixpoint insert_at (x : ldata) (b a : lump) (o : Z) (l : lump) : lump :=
  match l with
  | NULL => Lump x b a NULL
  | Lump d db da n =>
      match op_offset (l_op d) with
      | Some o' => if o' >? o then Lump x b a l else Lump d db da (insert_at x b a o n)
      | None => Lump d db da (insert_at x b a o n)
      end
  end.

Lemma insert_sorted_at x o l : insert_sorted x o l = insert_at x NULL NULL o l.
Proof. induction l as [|d b _ a _ n IH]; [done|]. simpl. destruct (op_offset (l_op d)); [|by rewrite IH]. case_test; [done|by rewrite IH]. Qed.

Lemma has_insert_at p x b a o l :
  has p (insert_at x b a o l) = (l_id x =? p) || has p b || has p a || has p l.
Proof.
  induction l as [|d db _ da _ n IH]; simpl; [done|].
  destruct (op_offset (l_op d)) as [o'|]; [case_test|]; simpl; rewrite ?IH;
    by destruct (l_id x =? p), (has p b), (has p a), (l_id d =? p), (has p db), (has p da), (has p n).
Qed.

Lemma alter_none f p l : has p l = false -> alter_at f p l = l.
Proof.
  induction l as [|d b IHb a IHa n IHn]; simpl; [done|]. intros H. bool_to_prop.
  rewrite (proj2 (Z.eqb_neq _ _)) by done. by rewrite IHb, IHa, IHn.
Qed.

(** The lump just inserted is the one that is found. *)
Lemma alter_insert_at (f : ldata -> lump -> lump -> lump -> lump) b' a' x b a o l :
  (forall n, f x b a n = Lump x b' a' n) -> has (l_id x) l = false ->
  alter_at f (l_id x) (insert_at x b a o l) = insert_at x b' a' o l.
Proof.
  intros Hf. induction l as [|d db _ da _ n IH]; simpl; [by rewrite Z.eqb_refl, Hf|].
  intros H. bool_to_prop. destruct (op_offset (l_op d)) as [o'|]; [case_test; simpl|simpl].
  - by rewrite Z.eqb_refl, Hf.
  - rewrite (proj2 (Z.eqb_neq _ _)) by done. rewrite IH, !alter_none by done. done.
  - rewrite (proj2 (Z.eqb_neq _ _)) by done. rewrite IH, !alter_none by done. done.
Qed.

Lemma edits_insert_at e x b a z l : zone_of (l_op x) = Some z ->
  edits e (insert_at x b a z.1 l)
  = einsert (Edit (Some z) (chain_text e LD_BEFORE b) (chain_text e LD_AFTER a)) (edits e l).
Proof.
  intros Hz. assert (Hx : forall p q, edit_of e x p q = [Edit (Some z) p q]).
  { intros p q. unfold edit_of. destruct (l_op x); simplify_eq/=; done. }
  destruct z as [o l']. cbn [fst]. induction l as [|d db _ da _ n IH]; simpl; [by rewrite Hx|].
  destruct (op_offset (l_op d)) as [o'|] eqn:Eo.
  - rewrite (edit_of_zone _ _ _ _ _ Eo). simpl. unfold zone_start. simpl. case_test; simpl.
    + by rewrite Hx, (edit_of_zone _ _ _ _ _ Eo).
    + by rewrite (edit_of_zone _ _ _ _ _ Eo), IH.
  - simpl. rewrite IH. unfold edit_of. destruct (l_op d) as [| |v|s|c]; try done. by destruct (cond_holds e c).
Qed.

Lemma no_rand_insert_at x b a o l : l_op x <> LUMP_ADD_OPT COND_IF_RAND -> no_rand b = true -> no_rand a = true ->
  no_rand l = true -> no_rand (insert_at x b a o l) = true.
Proof.
  intros Hx Hb Ha. induction l as [|d db _ da _ n IH]; intros Hl; [by apply no_rand_intro|].
  pose proof (no_rand_lump _ _ _ _ Hl) as (? & ? & ? & ?). simpl insert_at.
  destruct (op_offset (l_op d)); [case_test|]; apply no_rand_intro; auto.
Qed.

Lemma zones_insert_at x b a o l : zones (insert_at x b a o l) = zones (insert_sorted x o l).
Proof.
  rewrite insert_sorted_at. unfold zones. f_equal. induction l as [|d db _ da _ n IH]; simpl; [done|].
  destruct (op_offset (l_op d)); [case_test|]; simpl; by rewrite ?IH.
Qed.

(** ** Headers and body together *)

Definition starts_from (s : Z) (es : list edit) : Prop := Forall (fun o => s <= o) (starts es).

(** Every zone ends before [y]. *)
Definition ends_by (y : Z) (es : list edit) : Prop :=
  Forall (fun x => match e_zone x with Some (o, len) => o + len <= y | None => True end) es.

Definition separated (eh eb : list edit) : Prop := Forall (fun y => ends_by y eh) (starts eb).

Lemma fix_app s a b : fix_edits s (a ++ b) = fix_edits s a ++ fix_edits (reached s (fix_edits s a)) b.
Proof.
  revert s; induction a as [|[[[o l]|] p q] a IH]; intros s; simpl; [done| |by rewrite IH].
  destruct (fix_zone s o l). by rewrite IH.
Qed.

Lemma reached_app s a b : reached s (a ++ b) = reached (reached s a) b.
Proof. revert s; induction a as [|[[[o l]|] p q] a IH]; intros s; simpl; [done|..]; by rewrite IH. Qed.

Lemma written_app orig s a b : written orig s (a ++ b) = written orig s a ++ written orig (reached s a) b.
Proof. revert s; induction a as [|[[[o l]|] p q] a IH]; intros s; simpl; [done|..]; by rewrite IH, ?app_assoc. Qed.

Lemma fix_from s s' es : s <= s' -> starts_from s' es -> fix_edits s es = fix_edits s' es.
Proof.
  revert s s'; induction es as [|[[[o l]|] p q] es IH]; intros s s' Hs H; simpl; [done| |].
  - apply Forall_cons in H as [H Hr]. unfold fix_zone. destruct (Z.ltb_spec o s), (Z.ltb_spec o s'); try lia. done.
  - by rewrite (IH s s').
Qed.

Lemma reached_fix n s es y : Forall (zone_in n) es -> s <= y -> ends_by y es -> reached s (fix_edits s es) <= y.
Proof.
  revert s; induction es as [|[[[o l]|] p q] es IH]; intros s Hz Hs He; simpl; [done| |];
    apply Forall_cons in Hz as [Hz Hes]; apply Forall_cons in He as [He Her]; [|by apply IH].
  cbv [zone_in e_zone] in *. destruct (fix_zone_spec s o l) as (F1 & F2 & F3); [lia|].
  destruct (fix_zone s o l) as [o' l']. simpl in *. rewrite F2.
  apply IH; [done|lia|done].
Qed.

Lemma separated_from n s eh eb : Forall (zone_in n) eh -> starts_from s eb -> separated eh eb ->
  starts_from (reached s (fix_edits s eh)) eb.
Proof.
  unfold starts_from, separated. rewrite !List.Forall_forall. intros Hz Hs Hsep y Hy.
  apply (reached_fix n); [by apply List.Forall_forall|by apply Hs|by apply Hsep].
Qed.

Lemma starts_app a b : starts (a ++ b) = starts a ++ starts b.
Proof. apply omap_app. Qed.

Lemma StronglySorted_app_intro {A} (R : A -> A -> Prop) a b :
  StronglySorted R a -> StronglySorted R b -> Forall (fun x => Forall (R x) b) a -> StronglySorted R (a ++ b).
Proof.
  induction a as [|x a IH]; simpl; [done|]. intros Ha Hb H. apply StronglySorted_inv in Ha as [Ha Hx].
  apply Forall_cons in H as [H Hr]. constructor; [by apply IH|]. by apply Forall_app.
Qed.

Lemma separated_ok n eh eb : edits_ok n eh -> edits_ok n eb -> separated eh eb -> edits_ok n (eh ++ eb).
Proof.
  intros [H1 H2] [H3 H4] Hs. split; [by apply Forall_app|]. rewrite starts_app. apply StronglySorted_app_intro; [done..|].
  clear H2 H4 H3. induction eh as [|[[[o l]|] p q] eh IH]; simpl; [done| |].
  - apply Forall_cons in H1 as [H1 H1']. constructor; [|apply IH; [done|]].
    + eapply Forall_impl; [exact Hs|]. intros y Hy. apply Forall_cons in Hy as [Hy _]. simpl in Hy.
      cbv [zone_in e_zone] in H1. lia.
    + eapply Forall_impl; [exact Hs|]. intros y Hy. by apply Forall_cons in Hy as [_ ?].
  - apply Forall_cons in H1 as [_ H1]. apply IH; [done|]. eapply Forall_impl; [exact Hs|].
    intros y Hy. by apply Forall_cons in Hy as [_ ?].
Qed.

(** ** What the proxy changes in a request *)

Definition is_tcp (p : Z) : bool := (p =? PROTO_TCP) || (p =? PROTO_TLS).

(** The path becomes a Route, in front of the first Route or after the last Via. *)
Definition path_place (m : sip_msg) : Z :=
  match route_or_via (headers m) None with
  | inl h | inr (Some (Some h)) => h_name h
  | inr (Some None) => unparsed m
  | inr None => match headers m with h :: _ => h_name h | [] => 0 end
  end.

Definition path_edits (m : sip_msg) : list edit :=
  if zlen (path_vec m) =? 0 then [] else [Edit (Some (path_place m, 0)) (ROUTE_STR ++ path_vec m ++ CRLF) []].

(** Content-Length is added over TCP where it is missing, and replaced when the body
    changes its size. *)
Definition clen_zone (m : sip_msg) (delta proto : Z) : option (Z * Z) :=
  if is_tcp proto && absent (content_length m) then Some (unparsed m, 0)
  else if delta =? 0 then None
  else match content_length m with
       | None => if proto =? PROTO_UDP then None else Some (unparsed m, 0)
       | Some h => Some (h_name h, h_len h)
       end.

Definition clen_text (body : Z) (orig : bytes) (delta : Z) : bytes :=
  CONTENT_LENGTH ++ int2str (u64 (s32 (s32 (zlen orig - body) + s32 delta))) ++ CRLF.

Definition clen_edits (m : sip_msg) (body : Z) (orig : bytes) (delta proto : Z) : list edit :=
  match clen_zone m delta proto with Some z => [Edit (Some z) [] (clen_text body orig delta)] | None => [] end.

(** The Via of the proxy, in front of the first one. *)
Definition extra_text (e : benv) (m : sip_msg) : bytes :=
  (if is_tcp (rcv_proto (rcv (le e))) then ID_PARAM ++ (int2reverse_hex 8 (proto_reserved1 (rcv (le e)))).1.1 else [])
  ++ (if flag m FL_FORCE_LOCAL_RPORT then take (length RPORT - 1) RPORT else []).

Definition via_line (e : benv) (m : sip_msg) (sock : socket_info) (prefix : bytes) : bytes :=
  via_text sock (Some (add_to_branch m))
    (if zlen (extra_text e m) =? 0 then None else Some (extra_text e m)) prefix (set_hostport e).

Definition via_edits (e : benv) (m : sip_msg) (sock : socket_info) (prefix : bytes) : list edit :=
  [Edit (Some (via_hdr (via1 m), 0)) (via_line e m sock prefix) []].

(** received and rport, in place of old values or after the host. *)
Definition param_zone (v : via_body) (old : option (Z * Z)) : Z * Z :=
  match old with Some (s, z) => (s - 1, z + 1) | None => (via_hdr v + via_param_offset v, 0) end.

Definition received_text (e : benv) (ip : bytes) (m : sip_msg) (orig : bytes) : option bytes :=
  if received_test e m orig =? 0 then None else Some (RECEIVED ++ ip).

Definition rport_text (e : benv) (m : sip_msg) : option bytes :=
  if flag m FL_FORCE_RPORT || negb (absent (via_rport (via1 m)))
  then Some (RPORT ++ int2str (src_port (rcv (le e)))) else None.

Definition param_edits (v : via_body) (received rport : option bytes) : list edit :=
  match received, rport with
  | None, None => []
  | Some r, None => [Edit (Some (param_zone v (via_received v))) [] r]
  | None, Some q => [Edit (Some (param_zone v (via_rport v))) [] q]
  | Some r, Some q =>
      if absent (via_rport v) then [Edit (Some (param_zone v (via_received v))) [] (q ++ r)]
      else [Edit (Some (param_zone v (via_received v))) [] r; Edit (Some (param_zone v (via_rport v))) [] q]
  end.

Definition einserts (xs es : list edit) : list edit := fold_left (fun es x => einsert x es) xs es.

Lemma einserts_ok n xs es : Forall (fun x => e_zone x <> None /\ zone_in n x) xs ->
  edits_ok n es -> edits_ok n (einserts xs es).
Proof.
  revert es; induction xs as [|x xs IH]; intros es Hx Hes; [done|]. apply Forall_cons in Hx as [[Hz Hx] Hxs].
  apply IH; [done|]. destruct (e_zone x) as [z|] eqn:E; [|done]. destruct Hes as [H1 H2].
  split; [by apply einsert_in|]. by eapply einsert_sorted.
Qed.

(** ** Running the builder *)

Section Run.
Context (e : benv) (orig : bytes) (eo : option Z) (tb : lump).

Definition St (t : lump) (k n : nat) : bst := Bst (Lm orig eo t tb) k n.

(** [pkg_malloc] gives addresses no lump has, and each once. *)
Definition fresh (t : lump) (n : nat) : Prop := forall k p, (n <= k)%nat -> mem e k = Some p ->
  has p t = false /\ (forall k', (n <= k')%nat -> mem e k' = Some p -> k' = k).

Definition oom : Prop := exists k, mem e k = None.

(** The computation returns, and with a value unless memory ran out. *)
Definition runs {A} (m : M A) (st : bst) (Q : A -> bst -> Prop) : Prop :=
  exists r st', m st = Ret (r, st') /\ match r with Some a => Q a st' | None => oom end.

Lemma runs_ret {A} (a : A) st (Q : A -> bst -> Prop) : Q a st -> runs (mret a) st Q.
Proof. intros H. by exists (Some a), st. Qed.

Lemma runs_bind {A C} (m : M A) (f : A -> M C) st Q :
  runs m st (fun a st' => runs (f a) st' Q) -> runs (m ≫= f) st Q.
Proof.
  intros (r & st' & E & H). unfold mbind, m_bind. unfold runs. rewrite E. destruct r as [a|]; [done|].
  by exists None, st'.
Qed.

Lemma runs_impl {A} (m : M A) st (Q R : A -> bst -> Prop) :
  runs m st Q -> (forall a st', Q a st' -> R a st') -> runs m st R.
Proof. intros (r & st' & E & H) HR. exists r, st'. split; [done|]. destruct r; auto. Qed.

Lemma runs_malloc t k n : runs (pkg_malloc e) (St t k n) (fun _ st => st = St t k (S n)).
Proof.
  exists (mem e n), (St t k (S n)). split; [done|]. destruct (mem e n) eqn:E; [done|]. by exists n.
Qed.

Lemma fresh_later t n n' : (n <= n')%nat -> fresh t n -> fresh t n'.
Proof.
  intros Hn H k p Hk E. destruct (H k p) as [H1 H2]; [lia|done|]. split; [done|]. intros k' Hk' E'. apply H2; [lia|done].
Qed.

(** What a new address differs from. *)
Lemma fresh_insert t n p x b a o : fresh t n -> mem e n = Some p ->
  (forall q, has q (insert_at x b a o t) = true -> q = p \/ has q t = true) -> fresh (insert_at x b a o t) (S n).
Proof.
  intros H E Hx k q Hk Ek. destruct (H k q) as [H1 H2]; [lia|done|]. split.
  - apply not_true_is_false. intros Hh. destruct (Hx q Hh) as [->|Ht]; [|congruence].
    assert (n = k); [|lia]. by apply (H2 n).
  - intros k' Hk'. apply H2. lia.
Qed.

(** A list that stands for edits. *)
Definition built (t : lump) (es : list edit) : Prop :=
  edits (le e) t = es /\ no_rand t = true /\ lumps_ok (zlen orig) t.

(** A zone of the headers. *)
Definition place_ok (z : Z * Z) : Prop :=
  0 <= z.1 /\ 0 <= z.2 /\ z.1 + z.2 <= zlen orig /\ match eo with Some x => z.1 <= x | None => True end.

Lemma place_not_body z t : place_ok z -> in_body (Lm orig eo t tb) z.1 = false.
Proof. intros (_ & _ & _ & H). unfold in_body. simpl. destruct eo as [x|]; [|done]. destruct (Z.gtb_spec z.1 x); [lia|done]. Qed.

Lemma built_insert t es x b a z : built t es -> zone_of (l_op x) = Some z -> place_ok z ->
  no_rand b = true -> no_rand a = true ->
  built (insert_at x b a z.1 t) (einsert (Edit (Some z) (chain_text (le e) LD_BEFORE b) (chain_text (le e) LD_AFTER a)) es).
Proof.
  intros (E & Nr & Ok) Hx Hz Hb Ha. split; [|split].
  - by rewrite edits_insert_at, E.
  - apply no_rand_insert_at; try done. intros E'. by rewrite E' in Hx.
  - unfold lumps_ok. rewrite zones_insert_at. destruct Hz as (? & ? & ? & _). by eapply insert_sorted_ok.
Qed.

(** A new zone or anchor. *)
Definition placed (t : lump) (z : Z * Z) (k n : nat) (p : Z) (st : bst) : Prop :=
  exists x, l_id x = p /\ zone_of (l_op x) = Some z /\ has p t = false
    /\ st = St (insert_at x NULL NULL z.1 t) k n /\ fresh (insert_at x NULL NULL z.1 t) n.

Lemma place_runs (op : lump_op) ty t k n z : fresh t n -> zone_of op = Some z -> place_ok z ->
  runs (on_msg e (fun p m => match p with
                             | None => Ret (None, m)
                             | Some p => Ret (Some p, add_sorted m (new_lump p ty (init_lump_flags e) op) z.1)
                             end))
       (St t k n) (placed t z k (S n)).
Proof.
  intros Hf Hop Hz. unfold on_msg, runs. simpl. destruct (mem e n) as [p|] eqn:E; simpl.
  - eexists (Some p), _. split; [done|]. exists (new_lump p ty (init_lump_flags e) op).
    destruct (Hf n p) as [Hp _]; [lia|done|]. unfold add_sorted. rewrite place_not_body by done.
    rewrite insert_sorted_at. split_and!; try done. eapply fresh_insert; [done|done|].
    intros q Hq. rewrite has_insert_at in Hq. simpl in Hq. rewrite !orb_false_r in Hq. bool_to_prop.
    destruct Hq; [left|by right]. bool_to_prop. done.
  - eexists None, _. split; [done|]. by exists n.
Qed.

Lemma anchor_runs o ty t k n : fresh t n -> place_ok (o, 0) ->
  runs (anchor e o ty) (St t k n) (placed t (o, 0) k (S n)).
Proof.
  intros Hf Hz. pose proof (place_runs (LUMP_NOP o 0) ty t k n (o, 0) Hf eq_refl Hz) as H.
  destruct H as (r & st' & E & H). exists r, st'. split; [|done]. rewrite <- E. unfold anchor, on_msg, anchor_lump.
  destruct Hz as (_ & _ & Hz & _). simpl in *. by destruct (Z.gtb_spec o (zlen orig)); [lia|].
Qed.

Lemma delete_runs o len ty t k n : fresh t n -> place_ok (o, len) -> zlen orig < 2 ^ 32 ->
  runs (delete e o len ty) (St t k n) (placed t (o, len) k (S n)).
Proof.
  intros Hf Hz HN. pose proof (place_runs (LUMP_DEL o len) ty t k n (o, len) Hf eq_refl Hz) as H.
  destruct H as (r & st' & E & H). exists r, st'. split; [|done]. rewrite <- E. unfold delete, on_msg, del_lump.
  destruct Hz as (? & ? & ? & _). simpl in *. rewrite u32_small by lia.
  destruct (Z.gtb_spec o (zlen orig)); [lia|]. by destruct (Z.gtb_spec (o + len) (zlen orig)); [lia|].
Qed.

(** A text put before or after the lump just placed. *)
Lemma link_fresh t n p x b a b' a' o : fresh (insert_at x b a o t) n -> mem e n = Some p ->
  (forall q, has q b' || has q a' = true -> q = p \/ has q b || has q a = true) ->
  fresh (insert_at x b' a' o t) (S n).
Proof.
  intros Hf E Hq k q Hk Ek. destruct (Hf k q) as [H1 H2]; [lia|done|]. split.
  - rewrite has_insert_at in *. rewrite !orb_false_iff in H1. apply not_true_is_false.
    rewrite !orb_true_iff. intros Hh.
    assert (has q b' || has q a' = true) as Hc by (rewrite orb_true_iff; destruct H1 as [[[? ?] ?] ?]; intuition congruence).
    destruct (Hq q Hc) as [->|Hc']; [|rewrite orb_true_iff in Hc'; intuition congruence].
    assert (n = k); [|lia]. by apply (H2 n).
  - intros k' Hk'. apply H2. lia.
Qed.

Lemma before_runs x b a o t k n text ty : has (l_id x) t = false -> fresh (insert_at x b a o t) n ->
  runs (insert_before e (l_id x) text ty) (St (insert_at x b a o t) k n) (fun _ st =>
    exists y, l_op y = LUMP_ADD text /\ st = St (insert_at x (Lump y b NULL NULL) a o t) k (S n)
      /\ fresh (insert_at x (Lump y b NULL NULL) a o t) (S n)).
Proof.
  intros Hx Hf. unfold insert_before, on_lump, on_msg, insert_new_lump_before, link_before, at_lump, runs. simpl.
  rewrite has_insert_at, Z.eqb_refl. simpl. destruct (mem e n) as [p|] eqn:E; simpl.
  - eexists (Some p), _. split; [done|]. exists (new_lump p ty (init_lump_flags e) (LUMP_ADD text)).
    split_and!; [done| |].
    + unfold St. by erewrite alter_insert_at.
    + eapply link_fresh; [done|done|]. intros q Hq. simpl in Hq.
      rewrite !orb_true_iff, Z.eqb_eq in *. intuition congruence.
  - eexists None, _. split; [done|]. by exists n.
Qed.

Lemma after_runs x b a o t k n text ty : has (l_id x) t = false -> fresh (insert_at x b a o t) n ->
  runs (insert_after e (l_id x) text ty) (St (insert_at x b a o t) k n) (fun _ st =>
    exists y, l_op y = LUMP_ADD text /\ st = St (insert_at x b (Lump y NULL a NULL) o t) k (S n)
      /\ fresh (insert_at x b (Lump y NULL a NULL) o t) (S n)).
Proof.
  intros Hx Hf. unfold insert_after, on_lump, on_msg, insert_new_lump_after, link_after, at_lump, runs. simpl.
  rewrite has_insert_at, Z.eqb_refl. simpl. destruct (mem e n) as [p|] eqn:E; simpl.
  - eexists (Some p), _. split; [done|]. exists (new_lump p ty (init_lump_flags e) (LUMP_ADD text)).
    split_and!; [done| |].
    + unfold St. by erewrite alter_insert_at.
    + eapply link_fresh; [done|done|]. intros q Hq. simpl in Hq.
      rewrite !orb_true_iff, Z.eqb_eq in *. intuition congruence.
  - eexists None, _. split; [done|]. by exists n.
Qed.

Lemma runs_step {A C} (m : M A) (f : A -> M C) st R Q :
  runs m st R -> (forall a st', R a st' -> runs (f a) st' Q) -> runs (m ≫= f) st Q.
Proof. intros Hm Hf. apply runs_bind. eapply runs_impl; [exact Hm|exact Hf]. Qed.

(** The state of the headers after more edits. *)
Definition extends {A} (es : list edit) (xs : list edit) (k : nat) (P : A -> Prop) (a : A) (st : bst) : Prop :=
  P a /\ exists t n, st = St t k n /\ built t (einserts xs es) /\ fresh t n.

Lemma single_before {A} t k n es z text x ty (f : M A) (P : A -> Prop) :
  built t es -> place_ok z -> zone_of (l_op x) = Some z -> has (l_id x) t = false ->
  fresh (insert_at x NULL NULL z.1 t) n ->
  (forall t' n', built t' (einsert (Edit (Some z) text []) es) -> fresh t' n' ->
     runs f (St t' k n') (extends (einsert (Edit (Some z) text []) es) [] k P)) ->
  runs (_ ← insert_before e (l_id x) text ty; f) (St (insert_at x NULL NULL z.1 t) k n)
    (extends es [Edit (Some z) text []] k P).
Proof.
  intros Hb Hz Hx Hp Hf H. eapply runs_step; [by apply before_runs|]. intros _ st' (y & Hy & -> & Hf').
  eapply runs_impl; [apply H; [|done]|].
  - pose proof (built_insert t es x (Lump y NULL NULL NULL) NULL z Hb Hx Hz) as H1. simpl in H1. rewrite Hy in H1.
    rewrite app_nil_r in H1. by apply H1.
  - done.
Qed.

Lemma path_runs m t k n es : built t es -> fresh t n -> headers m <> [] -> place_ok (path_place m, 0) ->
  runs (insert_path_as_route e m) (St t k n)
    (extends es [Edit (Some (path_place m, 0)) (ROUTE_STR ++ path_vec m ++ CRLF) []] k (fun _ => True)).
Proof.
  intros Hb Hf Hh Hz. unfold insert_path_as_route. eapply runs_step.
  { assert (forall m' : M Z, m' = anchor e (path_place m) 0 ->
      runs m' (St t k n) (placed t (path_place m, 0) k (S n))) as Ha by (intros ? ->; by apply anchor_runs).
    apply Ha. unfold path_place. destruct (route_or_via (headers m) None) as [h|[[h|]|]]; try done.
    by destruct (headers m). }
  intros p st' (x & <- & Hx & Hp & -> & Hf'). eapply runs_step; [apply runs_malloc|]. intros ? ? ->.
  apply (single_before t k _ es (path_place m, 0)); try done; [by eapply fresh_later; [|exact Hf']; lia|].
  intros t' n' Hb' Hf''. apply runs_ret. split; [done|]. by exists t', n'.
Qed.

(** A piece that only allocates. *)
Definition gives {A} (m : M A) (a : A) : Prop := forall t k n, fresh t n ->
  runs m (St t k n) (fun x st => x = a /\ exists n', st = St t k n' /\ fresh t n').

Lemma gives_ret {A} (a : A) : gives (mret a) a.
Proof. intros t k n Hf. apply runs_ret. split; [done|]. by exists n. Qed.

Lemma gives_malloc {A} (m : M A) a : gives m a -> gives (_ ← pkg_malloc e; m) a.
Proof.
  intros H t k n Hf. eapply runs_step; [apply runs_malloc|]. intros _ ? ->. apply H.
  eapply fresh_later; [|exact Hf]. lia.
Qed.

Lemma gives_bind {A C} (m : M A) a (f : A -> M C) c : gives m a -> gives (f a) c -> gives (m ≫= f) c.
Proof. intros Hm H t k n Hf. eapply runs_step; [by apply Hm|]. intros ? ? (-> & n' & -> & Hf'). by apply H. Qed.

Lemma gives_step {A C} (m : M A) a (f : A -> M C) t k n Q : gives m a -> fresh t n ->
  (forall n', fresh t n' -> runs (f a) (St t k n') Q) -> runs (m ≫= f) (St t k n) Q.
Proof. intros Hm Hf H. eapply runs_step; [by apply Hm|]. intros ? ? (-> & n' & -> & Hf'). by apply H. Qed.

Lemma id_gives : 0 <= proto_reserved1 (rcv (le e)) < 2 ^ 31 ->
  gives (id_builder e) (ID_PARAM ++ (int2reverse_hex 8 (proto_reserved1 (rcv (le e)))).1.1).
Proof.
  intros Hr. unfold id_builder.
  destruct (reverse_hex_roundtrip 8 (proto_reserved1 (rcv (le e))) Hr) as (w & sz & -> & _); [lia|].
  apply gives_malloc, gives_ret.
Qed.

Lemma received_gives ip : src_ip_str e = Some ip -> zlen ip < 47 -> gives (received_builder e) (RECEIVED ++ ip).
Proof.
  intros Hi Hl. apply gives_malloc. rewrite Hi. rewrite (proj2 (Z.ltb_lt _ _)); [apply gives_ret|].
  change (10 + zlen ip < 57). lia.
Qed.

Lemma rport_gives : gives (rport_builder e) (RPORT ++ int2str (src_port (rcv (le e)))).
Proof. apply gives_malloc, gives_ret. Qed.

(** The line of the Via fits, except over SCTP with an address in brackets. *)
Lemma via_fits sock branch extra proto prefix hp : via_proto proto = Some prefix ->
  proto <> PROTO_SCTP \/ af (address sock) <> AF_INET6 \/ zlen (hp_host hp) <> 0 ->
  zlen (via_text sock branch extra prefix hp) + 1 <= via_max_len sock branch extra hp.
Proof.
  intros Hp Hs. unfold via_text, via_max_len, opt_len, via_address, via_portno in *.
  assert (zlen prefix = 17 /\ proto <> PROTO_SCTP \/ zlen prefix = 18 /\ proto = PROTO_SCTP) as Hl.
  { unfold via_proto in Hp. repeat case_test; simplify_eq; bool_to_prop; [left|left|left|right]; split; try done;
      subst; done. }
  change (zlen MY_VIA) with 17. change (zlen CRLF) with 2. change (zlen MY_BRANCH) with 8.
  pose proof (zlen_nonneg (port_no_str sock)). pose proof (zlen_nonneg (hp_port hp)).
  repeat case_test; destruct branch, extra; cbn [fst snd] in *;
    repeat rewrite zlen_app; repeat rewrite zlen_cons; repeat rewrite zlen_app;
    change (zlen CRLF) with 2; change (zlen MY_BRANCH) with 8; change (zlen (@nil Z)) with 0;
    try change (zlen [§"]"]) with 1; bool_to_prop; try (destruct Hl as [[? ?]|[? ?]]; lia).
Qed.

Lemma via_gives sock branch extra proto prefix hp : via_proto proto = Some prefix ->
  proto <> PROTO_SCTP \/ af (address sock) <> AF_INET6 \/ zlen (hp_host hp) <> 0 ->
  gives (via_builder e sock branch extra proto hp) (via_text sock branch extra prefix hp).
Proof.
  intros Hp Hs. apply gives_malloc. rewrite Hp. cbv zeta.
  rewrite (proj2 (Z.leb_le _ _)) by (by eapply via_fits). apply gives_ret.
Qed.

Lemma get_buf_gives : gives get_buf orig.
Proof. intros t k n Hf. exists (Some orig), (St t k n). split; [done|]. split; [done|]. by exists n. Qed.

Lemma clen_gives m body delta : get_body m orig = Some body ->
  gives (clen_builder e m delta) (clen_text body orig delta).
Proof.
  intros Hb. eapply gives_bind; [apply get_buf_gives|]. rewrite Hb. apply gives_malloc, gives_ret.
Qed.

Lemma extends_refl {A} t n es k (P : A -> Prop) a : P a -> built t es -> fresh t n -> extends es [] k P a (St t k n).
Proof. intros HP Hb Hf. split; [done|]. by exists t, n. Qed.

Lemma extra_runs m t k n es : built t es -> fresh t n -> headers m <> [] ->
  (zlen (path_vec m) <> 0 -> place_ok (path_place m, 0)) -> 0 <= proto_reserved1 (rcv (le e)) < 2 ^ 31 ->
  runs (extra_params e m) (St t k n) (extends es (path_edits m) k (fun x => x = extra_text e m)).
Proof.
  intros Hb Hf Hh Hz Hr. unfold extra_params, extra_text, path_edits.
  fold (is_tcp (rcv_proto (rcv (le e)))).
  eapply (gives_step _ (if is_tcp (rcv_proto (rcv (le e)))
      then ID_PARAM ++ (int2reverse_hex 8 (proto_reserved1 (rcv (le e)))).1.1 else [])); [|done|].
  { destruct (is_tcp _); [by apply id_gives|apply gives_ret]. }
  intros n1 Hf1. set (id := if is_tcp _ then _ else _). eapply runs_step.
  { instantiate (1 := extends es (path_edits m) k (fun _ => True)). unfold path_edits.
    destruct (Z.eqb_spec (zlen (path_vec m)) 0) as [E|E].
    - apply runs_ret. by apply extends_refl.
    - by apply path_runs, Hz. }
  intros _ st' (_ & t' & n' & -> & Hb' & Hf'). fold (path_edits m).
  assert (gives (if flag m FL_FORCE_LOCAL_RPORT then _ ← pkg_malloc e; mret (id ++ take (length RPORT - 1) RPORT)
                 else mret id)
            (id ++ if flag m FL_FORCE_LOCAL_RPORT then take (length RPORT - 1) RPORT else [])) as Hg.
  { destruct (flag m FL_FORCE_LOCAL_RPORT); [apply gives_malloc, gives_ret|].
    rewrite app_nil_r. apply gives_ret. }
  eapply runs_impl; [by apply Hg|]. intros x ? (-> & n2 & -> & Hf2). split; [done|]. by exists t', n2.
Qed.

(** A text after the lump just placed. *)
Lemma put_after_runs x t k n es z text ty : built t es -> place_ok z -> zone_of (l_op x) = Some z ->
  has (l_id x) t = false -> fresh (insert_at x NULL NULL z.1 t) n ->
  runs (insert_after e (l_id x) text ty) (St (insert_at x NULL NULL z.1 t) k n) (fun _ st =>
    exists y, l_op y = LUMP_ADD text /\ st = St (insert_at x NULL (Lump y NULL NULL NULL) z.1 t) k (S n)
      /\ fresh (insert_at x NULL (Lump y NULL NULL NULL) z.1 t) (S n)
      /\ built (insert_at x NULL (Lump y NULL NULL NULL) z.1 t) (einsert (Edit (Some z) [] text) es)).
Proof.
  intros Hb Hz Hx Hp Hf. eapply runs_impl; [by apply after_runs|]. intros _ st (y & Hy & -> & Hf').
  exists y. split_and!; try done.
  pose proof (built_insert t es x NULL (Lump y NULL NULL NULL) z Hb Hx Hz) as H1. simpl in H1. rewrite Hy in H1.
  rewrite app_nil_r in H1. by apply H1.
Qed.

Lemma clen_runs m body delta proto t k n es : built t es -> fresh t n -> zlen orig < 2 ^ 32 ->
  parse_ok m = true -> get_body m orig = Some body ->
  (forall z, clen_zone m delta proto = Some z -> place_ok z) ->
  runs (adjust_clen e m delta proto) (St t k n) (extends es (clen_edits m body orig delta proto) k (fun _ => True)).
Proof.
  intros Hb Hf HN Hp Hbody Hz. unfold adjust_clen. fold (is_tcp proto). rewrite Hp, andb_false_r.
  eapply runs_step.
  { instantiate (1 := fun at_ st => if is_tcp proto && absent (content_length m)
      then exists p, at_ = Some p /\ placed t (unparsed m, 0) k (S n) p st else at_ = None /\ st = St t k n).
    destruct (is_tcp proto && absent (content_length m)) eqn:Et; [|by apply runs_ret].
    eapply runs_step; [apply anchor_runs; [done|apply Hz; unfold clen_zone; by rewrite Et]|].
    intros p st' H. apply runs_ret. by exists p. }
  intros at1 st1 H1. eapply runs_step.
  { instantiate (1 := fun at_ st => match clen_zone m delta proto with
      | Some z => exists p, at_ = Some p /\ placed t z k (S n) p st
      | None => at_ = None /\ st = St t k n end).
    unfold clen_zone in *. destruct (is_tcp proto && absent (content_length m)) eqn:Et.
    { destruct H1 as (p & -> & H1). apply runs_ret. by exists p. }
    destruct H1 as [-> ->]. destruct (Z.eqb_spec delta 0); [by apply runs_ret|]. simpl.
    destruct (content_length m) as [h|].
    - eapply runs_step; [apply delete_runs; [done|by apply Hz|done]|]. intros p st' H. apply runs_ret. by exists p.
    - destruct (proto =? PROTO_UDP); simpl; [by apply runs_ret|].
      eapply runs_step; [apply anchor_runs; [done|by apply Hz]|]. intros p st' H. apply runs_ret. by exists p. }
  intros at2 st2 H2. unfold clen_edits. destruct (clen_zone m delta proto) as [z|] eqn:Ez.
  - destruct H2 as (p & -> & x & <- & Hx & Hpx & -> & Hf').
    eapply gives_step; [by apply clen_gives|done|]. intros n' Hf2.
    eapply runs_step; [apply (put_after_runs x t k n' es); auto|].
    intros _ st' (y & Hy & -> & Hf3 & Hb3). apply runs_ret. split; [done|]. eexists _, _. split; [done|]. done.
  - destruct H2 as [-> ->]. apply runs_ret. by apply extends_refl.
Qed.

Definition edit_place_ok (x : edit) : Prop := match e_zone x with Some z => place_ok z | None => False end.

(** A parameter where there is none to share a lump with. *)
Lemma via_param_runs v old t k n es text : built t es -> fresh t n -> zlen orig < 2 ^ 32 ->
  place_ok (param_zone v old) ->
  runs (insert_via_param e v old None text) (St t k n) (fun a st =>
    exists x y n', a = l_id x /\ zone_of (l_op x) = Some (param_zone v old) /\ l_op y = LUMP_ADD text
      /\ has (l_id x) t = false
      /\ st = St (insert_at x NULL (Lump y NULL NULL NULL) (param_zone v old).1 t) k n'
      /\ fresh (insert_at x NULL (Lump y NULL NULL NULL) (param_zone v old).1 t) n'
      /\ built (insert_at x NULL (Lump y NULL NULL NULL) (param_zone v old).1 t)
           (einsert (Edit (Some (param_zone v old)) [] text) es)).
Proof.
  intros Hb Hf HN Hz. unfold insert_via_param. eapply runs_step.
  { instantiate (1 := placed t (param_zone v old) k (S n)).
    unfold param_zone in *. destruct old as [[s z]|]; [by apply delete_runs|by apply anchor_runs]. }
  intros p st' (x & <- & Hx & Hp & -> & Hf').
  eapply runs_step; [by apply (put_after_runs x t k (S n) es)|]. intros _ st' (y & Hy & -> & Hf2 & Hb2).
  apply runs_ret. by exists x, y, (S (S n)).
Qed.

Definition params_code (v : via_body) (received rport : option bytes) (delta : Z) : M Z :=
  at_ ← (match received with
         | Some r => a ← insert_via_param e v (via_received v) None r; mret (Some a)
         | None => mret None
         end);
  _ ← (match rport with
       | Some r => a ← insert_via_param e v (via_rport v) at_ r; mret (Some a)
       | None => mret None
       end);
  mret delta.

Lemma params_runs v received rport delta t k n es : built t es -> fresh t n -> zlen orig < 2 ^ 32 ->
  Forall edit_place_ok (param_edits v received rport) ->
  runs (params_code v received rport delta) (St t k n) (extends es (param_edits v received rport) k (eq delta)).
Proof.
  intros Hb Hf HN Hz. unfold params_code, param_edits in *.
  destruct received as [r|]; simpl.
  - eapply runs_step.
    { eapply runs_step; [apply (via_param_runs v (via_received v) t k n es r)|intros a st' H; apply runs_ret;
        instantiate (1 := fun o st' => exists a, o = Some a /\ _ a st'); exists a; split; [done|exact H]];
        try done. destruct rport; [destruct (absent (via_rport v))|]; by apply Forall_cons in Hz as [? _]. }
    intros ? ? (a & -> & x & y & n' & -> & Hx & Hy & Hp & -> & Hf2 & Hb2).
    destruct rport as [q|].
    + destruct (via_rport v) as [[s0 z0]|] eqn:Er; simpl in *.
      * apply Forall_cons in Hz as [Hz1 Hz]. apply Forall_cons in Hz as [Hz2 _].
        eapply runs_step.
        { eapply runs_step; [apply (via_param_runs v (Some (s0, z0)) _ k n' _ q Hb2 Hf2 HN Hz2)|].
          intros a st' H. apply runs_ret. instantiate (1 := fun _ st' => exists a, _ a st'). exists a. exact H. }
        intros ? ? (a & x' & y' & n2 & _ & _ & _ & _ & -> & Hf3 & Hb3). apply runs_ret. split; [done|].
        eexists _, _. split; [done|]. done.
      * apply Forall_cons in Hz as [Hz _]. eapply runs_step.
        { unfold insert_via_param. apply runs_bind, runs_bind, runs_ret, runs_bind.
          eapply runs_impl; [by apply after_runs|]. intros ? st' H. apply runs_ret, runs_ret.
          instantiate (1 := fun _ st' => _ st'). exact H. }
        intros _ ? (y' & Hy' & -> & Hf3). apply runs_ret. split; [done|]. eexists _, _. split; [done|]. split; [|done].
        pose proof (built_insert t es x NULL (Lump y' NULL (Lump y NULL NULL NULL) NULL) _ Hb Hx Hz) as H1.
        simpl in H1. rewrite Hy, Hy' in H1. rewrite app_nil_r in H1. by apply H1.
    + apply runs_bind, runs_ret, runs_ret. split; [done|]. eexists _, _. done.
  - apply runs_bind, runs_ret. destruct rport as [q|]; [|apply runs_bind, runs_ret, runs_ret; by apply extends_refl].
    apply Forall_cons in Hz as [Hz _]. eapply runs_step.
    { eapply runs_step; [apply (via_param_runs v (via_rport v) t k n es q Hb Hf HN Hz)|].
      intros a st' H. apply runs_ret. instantiate (1 := fun _ st' => exists a, _ a st'). exists a. exact H. }
    intros ? ? (a & x' & y' & n2 & _ & _ & _ & _ & -> & Hf3 & Hb3). apply runs_ret. split; [done|].
    eexists _, _. split; [done|]. done.
Qed.

End Run.

Definition req_edits (e : benv) (m : sip_msg) (sock : socket_info) (prefix ip : bytes) (body : Z) (orig : bytes)
    (delta proto : Z) : list edit :=
  path_edits m ++ clen_edits m body orig delta proto ++ via_edits e m sock prefix
  ++ param_edits (via1 m) (received_text e ip m orig) (rport_text e m).

(** A request as the parsers leave it, and the pieces the proxy adds. *)
Record req_ok (e : benv) (m : sip_msg) (sock : socket_info) (prefix ip : bytes) (body : Z) (orig : bytes)
    (proto : Z) : Prop := {
  ok_len : zlen orig < 2 ^ 31;
  ok_headers : headers m <> [];
  ok_parse : parse_ok m = true;
  ok_body : get_body m orig = Some body;
  ok_id : 0 <= proto_reserved1 (rcv (le e)) < 2 ^ 31;
  ok_sock : send_sock (le e) = Some sock;
  ok_proto : via_proto proto = Some prefix;
  ok_sctp : proto <> PROTO_SCTP \/ af (address sock) <> AF_INET6;
  ok_ip : src_ip_str e = Some ip;
  ok_ip_len : zlen ip < 47
}.

Section Request.
Context (e : benv) (m : sip_msg) (sock : socket_info) (prefix ip : bytes) (body : Z) (orig : bytes) (proto : Z).
Context (eo : option Z).
Hypothesis OK : req_ok e m sock prefix ip body orig proto.

Abbreviation places xs := (Forall (edit_place_ok orig eo) xs).

Lemma einserts_app xs ys es : einserts (xs ++ ys) es = einserts ys (einserts xs es).
Proof. apply fold_left_app. Qed.

Lemma body_len_runs tb t k n : no_rand tb = true -> lumps_ok (zlen orig) tb ->
  runs e (lumps_len_body e) (St orig eo tb t k n) (fun delta st =>
    delta = u32 (growth (fix_edits 0 (edits (le e) tb))) /\
    exists tb', st = St orig eo tb' t k n /\ no_rand tb' = true
      /\ edits (le e) tb' = fix_edits 0 (edits (le e) tb)).
Proof.
  intros Hr Hok. destruct OK. pose proof (zlen_nonneg orig).
  destruct (lumps_len_spec (le e) (zlen orig) tb 0 0 k) as (tb' & E & Hr' & He); [lia|lia|done| |].
  { by apply (lumps_edits_ok (le e)) in Hok as [? _]. }
  unfold lumps_len_body, lumps_len, runs. simpl. change (u32 0) with 0 in E. rewrite E.
  eexists (Some _), _. split; [done|]. split; [done|]. by exists tb'.
Qed.

Lemma add_req_runs tb t k n es : let delta := u32 (growth (fix_edits 0 (edits (le e) tb))) in
  built e orig t es -> fresh e t n -> no_rand tb = true -> lumps_ok (zlen orig) tb ->
  places (req_edits e m sock prefix ip body orig delta proto) ->
  runs e (add_req_lumps e m proto) (St orig eo tb t k n) (fun d st => d = delta /\ exists t' n' tb',
    st = St orig eo tb' t' k n' /\ built e orig t' (einserts (req_edits e m sock prefix ip body orig delta proto) es)
    /\ no_rand tb' = true /\ edits (le e) tb' = fix_edits 0 (edits (le e) tb)).
Proof.
  intros delta Hb Hf Hr Hok Hp. pose proof OK as []. unfold req_edits in *.
  apply Forall_app in Hp as [Hp1 Hp]. apply Forall_app in Hp as [Hp2 Hp]. apply Forall_app in Hp as [Hp3 Hp4].
  unfold add_req_lumps. eapply gives_step; [apply get_buf_gives|done|]. intros n1 Hf1.
  eapply runs_step.
  { apply (extra_runs e orig eo tb m t k n1 es); try done. intros Hpl. unfold path_edits in Hp1.
    destruct (Z.eqb_spec (zlen (path_vec m)) 0); [done|]. by apply Forall_cons in Hp1 as [? _]. }
  intros ? ? (-> & t1 & n2 & -> & Hb1 & Hf2).
  eapply runs_step; [by apply body_len_runs|]. intros ? ? (-> & tb' & -> & Hr' & He'). fold delta.
  eapply runs_step.
  { apply (clen_runs e orig eo tb' m body delta proto t1 k n2 _ Hb1 Hf2); try done; [lia|].
    intros z Hz. unfold clen_edits in Hp2. rewrite Hz in Hp2. by apply Forall_cons in Hp2 as [? _]. }
  intros [] ? (_ & t2 & n3 & -> & Hb2 & Hf3). rewrite ok_sock0.
  eapply gives_step; [apply via_gives; [done|tauto]|done|]. intros n4 Hf4. fold (via_line e m sock prefix).
  eapply (gives_step _ _ _ _ _ (received_text e ip m orig)); [|done|].
  { unfold received_text. destruct (received_test e m orig =? 0); [apply gives_ret|].
    eapply gives_bind; [by apply received_gives|apply gives_ret]. }
  intros n5 Hf5. eapply (gives_step _ _ _ _ _ (rport_text e m)); [|done|].
  { unfold rport_text. destruct (_ || _); [|apply gives_ret]. eapply gives_bind; [apply rport_gives|apply gives_ret]. }
  intros n6 Hf6. apply Forall_cons in Hp3 as [Hp3 _].
  eapply runs_step; [by apply anchor_runs|]. intros ? ? (x & <- & Hx & Hpx & -> & Hf7).
  eapply runs_step; [by apply before_runs|]. intros ? ? (y & Hy & -> & Hf8).
  change (runs e (params_code e (via1 m) (received_text e ip m orig) (rport_text e m) delta)
    (St orig eo tb' (insert_at x (Lump y NULL NULL NULL) NULL (via_hdr (via1 m), 0).1 t2) k (S (S n6)))
    (fun d st => d = delta /\ exists t' n' tb',
    st = St orig eo tb' t' k n' /\ built e orig t' (einserts (path_edits m ++
       clen_edits m body orig delta proto ++
       via_edits e m sock prefix ++
       param_edits (via1 m) (received_text e ip m orig) (rport_text e m)) es)
    /\ no_rand tb' = true /\ edits (le e) tb' = fix_edits 0 (edits (le e) tb))).
  eapply runs_impl; [eapply params_runs; [|done|lia|done]|].
  - apply (built_insert _ _ _ _ _ _ _ _ _ Hb2 Hx Hp3); simpl; [|done]. by rewrite Hy.
  - intros d st (<- & t3 & n7 & -> & Hb3 & Hf9). split; [done|]. exists t3, n7, tb'. split_and!; try done.
    rewrite !einserts_app. simpl in Hb3. rewrite Hy, app_nil_r in Hb3. exact Hb3.
Qed.

(** The buffer filled from lists that were repaired. *)
Lemma fill_runs t tb k n out s new_len eh eb : zlen orig < 2 ^ 32 -> 0 <= s <= zlen orig ->
  edits_ok (zlen orig) eh -> edits_ok (zlen orig) eb ->
  starts_from s eh -> starts_from s eb -> separated eh eb ->
  no_rand t = true -> edits (le e) t = fix_edits 0 eh ->
  no_rand tb = true -> edits (le e) tb = fix_edits 0 eb ->
  zlen out + zlen (edited_from orig s (eh ++ eb)) <= new_len + 1 ->
  runs e (fill e new_len s out) (St orig eo tb t k n) (fun x _ => x = out ++ edited_from orig s (eh ++ eb)).
Proof.
  intros HN Hs Hh Hb Hsh Hsb Hsep Nt Et Nb Eb Hcap.
  set (s1 := reached s (fix_edits s eh)).
  assert (starts_from s1 eb) as Hsb1 by (by apply (separated_from (zlen orig)); [destruct Hh| |]).
  rewrite (fix_from 0 s) in Et by (lia || done).
  pose proof (fix_apart (zlen orig) s eh Hs (proj1 Hh)) as Ap1. pose proof (reached_le _ _ _ Ap1) as Hr1. fold s1 in Hr1.
  rewrite (fix_from 0 s1) in Eb by (lia || done).
  pose proof (fix_apart (zlen orig) s1 eb) as Ap2. specialize (Ap2 ltac:(lia) (proj1 Hb)).
  pose proof (reached_le _ _ _ Ap2) as Hr2. set (s2 := reached s1 (fix_edits s1 eb)) in *.
  rewrite (written_edited orig s (eh ++ eb)), fix_app, written_app, reached_app in * by (done || by apply separated_ok).
  fold s1 s2 in Hcap |- *. rewrite !zlen_app in Hcap.
  set (w1 := written orig s (fix_edits s eh)) in *. set (w2 := written orig s1 (fix_edits s1 eb)) in *.
  pose proof (zlen_nonneg w2). pose proof (zlen_nonneg (drop (Z.to_nat s2) orig)).
  unfold fill. apply runs_bind. eexists (Some orig), _. split; [done|]. apply runs_bind.
  destruct (process_spec (le e) orig (new_len + 1) t HN Nt out s k) as (t1 & E1 & _); [lia|by rewrite Et|rewrite Et; fold w1; lia|].
  unfold process_head, runs at 1. simpl. rewrite E1. eexists (Some _), _. split; [done|]. cbv beta iota.
  rewrite Et. fold w1 s1. apply runs_bind.
  destruct (process_spec (le e) orig (new_len + 1) tb HN Nb (out ++ w1) s1 k) as (t2 & E2 & _);
    [lia|by rewrite Eb|rewrite Eb, zlen_app; fold w2; lia|].
  unfold process_body, runs at 1. simpl. rewrite E2. eexists (Some _), _. split; [done|]. cbv beta iota.
  rewrite Eb. fold w2 s2. apply runs_bind. unfold from_orig, runs at 1. unfold mbind, m_bind, get_buf, lift. simpl.
  rewrite orig_at_ok by lia. eexists (Some _), _. split; [done|]. cbv beta iota.
  assert (slice orig s2 (zlen orig) = drop (Z.to_nat s2) orig) as ->.
  { unfold slice. apply take_ge. rewrite length_drop. unfold zlen in *. lia. }
  unfold put, lift, runs. rewrite memcpy_ok by (rewrite !zlen_app; lia).
  eexists (Some _), _. split; [done|]. cbv beta iota. by rewrite <- !app_assoc.
Qed.

(** The start of the message up to where the lumps begin. *)
Definition req_start : bytes := match new_uri m with Some u => take (Z.to_nat (uri_s m)) orig ++ u | None => [] end.
Definition req_from : Z := match new_uri m with Some _ => uri_s m + uri_len m | None => 0 end.

Definition uri_ok : Prop := 0 <= uri_s m /\ 0 <= uri_len m /\ uri_s m + uri_len m <= zlen orig.

Lemma start_runs cap st : buf (lm st) = orig -> uri_ok -> zlen req_start <= cap ->
  runs e (match new_uri m with
          | Some u =>
              start ← from_orig 0 (uri_s m);
              out ← put cap [] start;
              out ← put cap out u;
              mret (out, uri_s m + uri_len m)
          | None => mret ([], 0)
          end) st (fun x st' => x = (req_start, req_from) /\ st' = st).
Proof.
  intros Hb (H1 & H2 & H3) Hc. unfold req_start, req_from in *.
  destruct (new_uri m) as [u|]; [|by apply runs_ret]. rewrite zlen_app in Hc.
  pose proof (zlen_nonneg u). unfold from_orig, put, mbind, m_bind, get_buf, lift, runs. rewrite Hb.
  replace (orig_at orig 0 (uri_s m)) with (Ret (take (Z.to_nat (uri_s m)) orig)).
  2:{ pose proof (orig_at_ok orig 0 (uri_s m)) as E. rewrite Z.sub_0_r in E. rewrite E by lia.
      unfold slice. by rewrite Z.sub_0_r. }
  rewrite memcpy_ok by (rewrite zlen_nil; lia). rewrite memcpy_ok by (simpl; lia).
  eexists (Some _), st. by split.
Qed.

Lemma head_len_runs tb t k n eh : no_rand t = true -> edits (le e) t = eh -> Forall (zone_in (zlen orig)) eh ->
  runs e (lumps_len_head e) (St orig eo tb t k n) (fun delta st =>
    delta = u32 (growth (fix_edits 0 eh)) /\
    exists t', st = St orig eo tb t' k n /\ no_rand t' = true /\ edits (le e) t' = fix_edits 0 eh).
Proof.
  intros Hr <- Hok. destruct OK. pose proof (zlen_nonneg orig).
  destruct (lumps_len_spec (le e) (zlen orig) t 0 0 k) as (t' & E & Hr' & He); [lia|lia|done|done|].
  unfold lumps_len_head, lumps_len, runs. simpl. change (u32 0) with 0 in E. rewrite E.
  eexists (Some _), _. split; [done|]. split; [done|]. by exists t'.
Qed.

Lemma edited_length s es : 0 <= s <= zlen orig -> edits_ok (zlen orig) es ->
  zlen (edited_from orig s es) = zlen orig - s + growth (fix_edits s es).
Proof.
  intros Hs Ho. rewrite written_edited by done.
  pose proof (fix_apart (zlen orig) s es Hs (proj1 Ho)) as Ap. pose proof (reached_le _ _ _ Ap).
  rewrite zlen_app, written_length by (lia || done). unfold zlen at 1. rewrite length_drop. unfold zlen in *. lia.
Qed.

End Request.

(** The edits of a forwarded request: those of the lumps and those of the proxy. *)
Definition request_edits (e : benv) (m : sip_msg) (sock : socket_info) (prefix ip : bytes) (body : Z)
    (orig : bytes) (proto : Z) (t tb : lump) : list edit :=
  einserts (req_edits e m sock prefix ip body orig (u32 (growth (fix_edits 0 (edits (le e) tb)))) proto)
    (edits (le e) t).

Lemma u32_add3 a b c : u32 (a + u32 b + u32 c) = u32 (a + b + c).
Proof.
  unfold u32. rewrite Zplus_mod_idemp_r. replace (a + b mod 2 ^ 32 + c) with (a + c + b mod 2 ^ 32) by lia.
  rewrite Zplus_mod_idemp_r. f_equal. lia.
Qed.

(** Lists of lumps as any code can have made them, with what matters to the copy. *)
Record lumps_made (e : benv) (orig : bytes) (eo : option Z) (t tb : lump) (n : nat) : Prop := {
  made_reaches : reaches (Lm orig eo NULL NULL) (Lm orig eo t tb);
  made_head : no_rand t = true;
  made_body : no_rand tb = true;
  made_fresh : fresh e t n
}.

(** The edits of the proxy are in the headers, all edits after the URI if it is replaced,
    and no zone of the headers reaches into one of the body. *)
Record edits_apart (e : benv) (m : sip_msg) (sock : socket_info) (prefix ip : bytes) (body : Z) (orig : bytes)
    (proto : Z) (eo : option Z) (t tb : lump) : Prop := {
  apart_places : Forall (edit_place_ok orig eo)
    (req_edits e m sock prefix ip body orig (u32 (growth (fix_edits 0 (edits (le e) tb)))) proto);
  apart_uri : uri_ok m orig;
  apart_starts : starts_from (req_from m)
    (request_edits e m sock prefix ip body orig proto t tb ++ edits (le e) tb);
  apart_separated : separated (request_edits e m sock prefix ip body orig proto t tb) (edits (le e) tb)
}.

(** The request the edits describe. *)
Definition request_text (e : benv) (m : sip_msg) (sock : socket_info) (prefix ip : bytes) (body : Z) (orig : bytes)
    (proto : Z) (t tb : lump) : bytes :=
  req_start m orig
  ++ edited_from orig (req_from m)
       (request_edits e m sock prefix ip body orig proto t tb ++ edits (le e) tb).

(** The length computed is that of the text. *)
Lemma new_len_text m orig eh eb : edits_ok (zlen orig) eh -> edits_ok (zlen orig) eb ->
  starts_from (req_from m) eh -> starts_from (req_from m) eb -> separated eh eb -> uri_ok m orig ->
  zlen (req_start m orig ++ edited_from orig (req_from m) (eh ++ eb)) < 2 ^ 32 ->
  req_new_len m (zlen orig) (u32 (growth (fix_edits 0 eb))) (u32 (growth (fix_edits 0 eh)))
  = zlen (req_start m orig ++ edited_from orig (req_from m) (eh ++ eb)).
Proof.
  intros Oh Ob Hsh Hsb Hsep Hu Hlen. set (result := _ ++ _) in *.
  assert (0 <= req_from m <= zlen orig) as Hfrom.
  { unfold req_from. pose proof (zlen_nonneg orig). destruct Hu as (? & ? & ?). destruct (new_uri m); lia. }
  pose proof (zlen_nonneg result). rewrite <- (u32_small (zlen result)) by lia.
  unfold result. rewrite zlen_app, edited_length by (done || by apply separated_ok).
  rewrite fix_app, growth_app.
  pose proof (separated_from _ (req_from m) eh eb (proj1 Oh) Hsb Hsep) as Hsb1.
  pose proof (reached_le _ _ _ (fix_apart _ _ _ Hfrom (proj1 Oh))) as Hr1.
  rewrite <- (fix_from 0 (reached (req_from m) (fix_edits (req_from m) eh)) eb) by (done || lia).
  rewrite <- (fix_from 0 (req_from m) eh) by (done || lia).
  unfold req_new_len, req_start, req_from. destruct (new_uri m) as [u|]; rewrite u32_add3.
  - rewrite zlen_app. unfold zlen at 3. rewrite length_take. destruct Hu as (? & ? & ?).
    replace (Z.of_nat (Z.to_nat (uri_s m) `min` length orig)) with (uri_s m) by (unfold zlen in *; lia).
    rewrite <- Z.add_sub_swap, <- Z.add_sub_assoc, u32_add_l. f_equal. lia.
  - f_equal. change (zlen (@nil Z)) with 0. lia.
Qed.

Lemma request_runs e m sock prefix ip body orig proto eo t tb k n :
  let result := request_text e m sock prefix ip body orig proto t tb in
  req_ok e m sock prefix ip body orig proto -> lumps_made e orig eo t tb n ->
  edits_apart e m sock prefix ip body orig proto eo t tb -> zlen result < 2 ^ 32 ->
  edits_ok (zlen orig) (request_edits e m sock prefix ip body orig proto t tb)
    /\ edits_ok (zlen orig) (edits (le e) tb)
    /\ runs e (build_req_buf_from_sip_req e m proto) (St orig eo tb t k n)
         (fun r _ => r = (result, zlen result)).
Proof.
  intros result OK [Hre Nt Nb Hf] [Hp Hu Hst Hsep] Hlen.
  set (eh := request_edits e m sock prefix ip body orig proto t tb) in *. set (eb := edits (le e) tb) in *.
  assert (zlen orig < 2 ^ 31) as HN by apply OK. pose proof (zlen_nonneg orig) as HN0.
  destruct (reaches_ok (Lm orig eo NULL NULL) (Lm orig eo t tb) ltac:(simpl; lia)
    ltac:(split; split; constructor) Hre) as [[Ht Htb] _]. simpl in Ht, Htb.
  pose proof (lumps_edits_ok (le e) _ _ Htb) as Ob. fold eb in Ob.
  unfold starts_from in Hst. rewrite starts_app in Hst. apply Forall_app in Hst as [Hsh Hsb].
  assert (edits_ok (zlen orig) eh) as Oh.
  { apply einserts_ok; [|by apply lumps_edits_ok]. eapply Forall_impl; [exact Hp|].
    intros [[[o l]|] p q]; [|done]. intros (? & ? & ? & _). done. }
  split; [done|]. split; [done|]. unfold build_req_buf_from_sip_req.
  eapply runs_step; [by apply (add_req_runs e m sock prefix ip body orig proto eo OK tb t k n (edits (le e) t))|].
  intros ? ? (-> & t1 & n1 & tb1 & -> & (Et & Nt1 & Ht1) & Nb1 & Eb1). fold eb in Eb1 |- *.
  fold (request_edits e m sock prefix ip body orig proto t tb) in Et. fold eh in Et.
  eapply runs_step; [apply (head_len_runs e m sock prefix ip body orig proto eo OK tb1 t1 k n1 eh Nt1 Et (proj1 Oh))|].
  intros ? ? (-> & t2 & -> & Nt2 & Et2).
  apply runs_bind. eexists (Some orig), _. split; [done|]. cbv beta iota zeta. fold eh.
  rewrite new_len_text by done. change (req_start m orig ++ edited_from orig (req_from m) (eh ++ eb)) with result.
  eapply runs_step; [apply runs_malloc|]. intros ? ? ->.
  pose proof (zlen_nonneg (edited_from orig (req_from m) (eh ++ eb))).
  assert (zlen result = zlen (req_start m orig) + zlen (edited_from orig (req_from m) (eh ++ eb))) as Hl
    by (unfold result, request_text; by rewrite zlen_app).
  eapply runs_step; [apply (start_runs e m orig); [done|done|lia]|].
  intros ? ? [-> ->]. eapply runs_step.
  { apply (fill_runs e orig eo t2 tb1 _ _ _ _ _ eh eb); try done; [lia| |lia].
    unfold req_from. destruct Hu as (? & ? & ?). destruct (new_uri m); lia. }
  intros ? ? ->. by apply runs_ret.
Qed.

(** ** The body on its own *)

(** The first edit of the body says where it goes. *)
Definition zone_first (es : list edit) : Prop := match es with x :: _ => e_zone x <> None | [] => True end.

Lemma slice_split orig s b o : 0 <= s <= b -> b <= o -> slice orig s o = slice orig s b ++ slice orig b o.
Proof.
  intros Hs Hb. unfold slice. replace (Z.to_nat (o - s)) with (Z.to_nat (b - s) + Z.to_nat (o - b))%nat by lia.
  rewrite <- take_take_drop, drop_drop. do 3 f_equal. lia.
Qed.

Lemma drop_split orig s b : 0 <= s <= b -> drop (Z.to_nat s) orig = slice orig s b ++ drop (Z.to_nat b) orig.
Proof.
  intros Hs. unfold slice. rewrite <- (take_drop (Z.to_nat (b - s)) (drop (Z.to_nat s) orig)) at 1.
  rewrite drop_drop. do 2 f_equal. lia.
Qed.

(** The copy of the body starts where the body starts. *)
Lemma body_apart orig s b es : 0 <= s <= b -> zone_first es -> starts_from b es -> Forall (zone_in (zlen orig)) es ->
  written orig s (fix_edits s es) ++ drop (Z.to_nat (reached s (fix_edits s es))) orig
  = slice orig s b ++ written orig b (fix_edits b es) ++ drop (Z.to_nat (reached b (fix_edits b es))) orig.
Proof.
  intros Hs Hz Hst Hin. rewrite <- (fix_from s b es) by (lia || done).
  destruct es as [|[[[o l]|] p q] es]; [by apply drop_split| |done].
  apply Forall_cons in Hst as [Ho _]. cbn [fix_edits]. unfold fix_zone.
  destruct (Z.ltb_spec o s); [lia|]. cbn [written reached fst snd]. rewrite (slice_split orig s b o) by lia.
  by rewrite <- !app_assoc.
Qed.

Lemma edited_split orig s b eh eb : 0 <= s <= b -> b <= zlen orig ->
  edits_ok (zlen orig) eh -> edits_ok (zlen orig) eb -> separated eh eb ->
  ends_by b eh -> starts_from b eb -> zone_first eb ->
  edited_from orig s (eh ++ eb)
  = written orig s (fix_edits s eh) ++ slice orig (reached s (fix_edits s eh)) b ++ edited_from orig b eb.
Proof.
  intros Hs Hb Oh Ob Hsep He Hst Hz. rewrite !written_edited by (lia || done || by apply separated_ok).
  rewrite fix_app, written_app, reached_app, <- app_assoc. f_equal.
  pose proof (reached_le _ _ _ (fix_apart (zlen orig) s eh ltac:(lia) (proj1 Oh))).
  apply body_apart; [|done|done|apply Ob].
  pose proof (reached_fix (zlen orig) s eh b (proj1 Oh) ltac:(lia) He). lia.
Qed.

Lemma written_infix orig s es x : In x es ->
  exists a c, written orig s (fix_edits s es) = a ++ e_pre x ++ e_post x ++ c.
Proof.
  revert s; induction es as [|[[[o l]|] p q] es IH]; intros s; simpl; [done|intros [<-|H]..].
  - destruct (fix_zone s o l) as [o' l']. simpl. by eexists _, _.
  - destruct (fix_zone s o l) as [o' l']. simpl. destruct (IH (o' + l') H) as (a & c & ->).
    exists (slice orig s o' ++ p ++ q ++ a), c. by rewrite <- !app_assoc.
  - by eexists [], _.
  - destruct (IH s H) as (a & c & ->). exists (p ++ q ++ a), c. by rewrite <- !app_assoc.
Qed.

Lemma in_einsert x y es : x = y \/ In x es -> In x (einsert y es).
Proof.
  induction es as [|z es IH]; simpl; [intros [->|[]]; by left|]. intros H.
  destruct (e_zone z) as [[o l]|]; [case_test|]; simpl; destruct H as [->|[->|H]]; auto.
Qed.

Lemma in_einserts x xs es : In x xs \/ In x es -> In x (einserts xs es).
Proof.
  revert es; induction xs as [|y xs IH]; intros es; simpl; [by intros [[]|]|]. intros H. apply IH.
  destruct H as [[->|H]|H]; auto using in_einsert.
Qed.

(** The number printed is the size of the new body. *)
Lemma clen_value_ok orig body eb : 0 <= body <= zlen orig -> zlen orig < 2 ^ 31 -> edits_ok (zlen orig) eb ->
  starts_from body eb -> zlen (edited_from orig body eb) < 2 ^ 31 ->
  s32 (s32 (zlen orig - body) + s32 (u32 (growth (fix_edits 0 eb)))) = zlen (edited_from orig body eb).
Proof.
  intros Hb HN Ob Hst Hl. pose proof (edited_length orig body eb Hb Ob) as E.
  rewrite <- (fix_from 0 body) in E by (lia || done). pose proof (zlen_nonneg (edited_from orig body eb)).
  rewrite (s32_small (zlen orig - body)) by lia. rewrite <- (s32_small (zlen (edited_from orig body eb))) by lia.
  rewrite E. unfold s32 at 1 2 3, u32.
  set (g := growth _). replace (zlen orig - body + ((g mod 2 ^ 32 + 2 ^ 31) mod 2 ^ 32 - 2 ^ 31) + 2 ^ 31)
    with (zlen orig - body + (g mod 2 ^ 32 + 2 ^ 31) mod 2 ^ 32) by lia.
  rewrite Zplus_mod_idemp_l, Zplus_mod_idemp_r. f_equal. f_equal. lia.
Qed.

Lemma get_body_range m orig body : 0 <= unparsed m -> get_body m orig = Some body -> 0 <= body <= zlen orig.
Proof. intros Hu. unfold get_body. repeat case_test; intros; simplify_eq; bool_to_prop; lia. Qed.

(** C19: The request that is forwarded is the one received with its edits applied byte by
    byte: those of the lumps, made by any sequence of the operations on lumps, and those of
    the proxy (Via, received, rport, Content-Length, Route).  The buffer is filled exactly;
    only a failing allocation keeps the request from being built.  The conditions: the
    message and the socket are as the parsers leave them and it does not go by SCTP over
    IPv6 ([req_ok]; [sctp_via_overflows]), no lump has a random condition ([lumps_made];
    [random_condition_overflows]), the edits come after the URI if it is replaced and no
    zone of the headers reaches into one of the body ([edits_apart];
    [crossing_zone_overflows]), and the result has less than [2 ^ 32] bytes. *)
Theorem request_rewritten e m sock prefix ip body orig proto eo t tb k n :
  let result := request_text e m sock prefix ip body orig proto t tb in
  req_ok e m sock prefix ip body orig proto -> lumps_made e orig eo t tb n ->
  edits_apart e m sock prefix ip body orig proto eo t tb -> zlen result < 2 ^ 32 ->
  exists r st, build_req_buf_from_sip_req e m proto (Bst (Lm orig eo t tb) k n) = Ret (r, st)
    /\ match r with Some (out, len) => out = result /\ len = zlen result | None => exists i, mem e i = None end.
Proof.
  intros result OK Hm Ha Hl. destruct (request_runs e m sock prefix ip body orig proto eo t tb k n OK Hm Ha Hl)
    as (_ & _ & r & st & E & H). exists r, st. split; [exact E|]. destruct r as [[out len]|]; [|done].
  by injection H as -> ->.
Qed.

Lemma clen_none m delta proto : clen_zone m delta proto = None ->
  delta = 0 \/ content_length m = None /\ proto = PROTO_UDP.
Proof.
  unfold clen_zone. destruct (_ && _); [done|]. destruct (Z.eqb_spec delta 0); [by left|].
  destruct (content_length m); [done|]. destruct (Z.eqb_spec proto PROTO_UDP); [by right|done].
Qed.

(** C34: Where the proxy sets Content-Length, because there is none and the message goes over
    TCP, or because the lumps change the size of the body (but not where there is none and the
    message goes over UDP), the number it prints is the length of the body that is sent. Where
    it leaves the header alone, the body that is sent is as long as the one received, unless
    there is no Content-Length and the message goes over UDP. The conditions are those of
    [request_rewritten], with a result of less than [2 ^ 31] bytes, edits of the proxy in front
    of the body and body lumps in it. *)
Theorem content_length_true e m sock prefix ip body orig proto eo t tb k n out len st :
  let eh := request_edits e m sock prefix ip body orig proto t tb in
  let eb := edits (le e) tb in
  let new_body := edited_from orig body eb in
  req_ok e m sock prefix ip body orig proto -> lumps_made e orig eo t tb n ->
  edits_apart e m sock prefix ip body orig proto eo t tb ->
  zlen (request_text e m sock prefix ip body orig proto t tb) < 2 ^ 31 ->
  0 <= unparsed m -> req_from m <= body -> ends_by body eh -> starts_from body eb -> zone_first eb ->
  build_req_buf_from_sip_req e m proto (Bst (Lm orig eo t tb) k n) = Ret (Some (out, len), st) ->
  match clen_zone m (u32 (growth (fix_edits 0 eb))) proto with
  | Some _ => exists a c, out = a ++ (CONTENT_LENGTH ++ int2str (zlen new_body) ++ CRLF) ++ c ++ new_body
  | None =>
      (exists a, out = a ++ new_body) /\
      (zlen new_body = zlen orig - body \/ content_length m = None /\ proto = PROTO_UDP)
  end.
Proof.
  intros eh eb nb OK Hm Ha Hl Hu Hfrom He Hst Hzf E.
  destruct (request_runs e m sock prefix ip body orig proto eo t tb k n OK Hm Ha) as (Oh & Ob & r & st' & E' & H); [lia|].
  unfold St in E'. rewrite E in E'. injection E' as <- <-. injection H as -> ->.
  assert (zlen orig < 2 ^ 31) as HN by apply OK.
  pose proof (get_body_range m orig body Hu (ok_body _ _ _ _ _ _ _ _ OK)) as Hb.
  assert (0 <= req_from m) as Hf0.
  { unfold req_from. destruct Ha as [_ (? & ? & ?) _ _]. destruct (new_uri m); lia. }
  unfold request_text in *. rewrite (edited_split orig (req_from m) body) in * by (lia || done || apply Ha).
  repeat rewrite zlen_app in Hl. fold eb in Hl |- *. fold nb in Hl |- *. pose proof (zlen_nonneg (req_start m orig)).
  set (w := written orig _ _) in *. set (sl := slice orig _ body) in *. pose proof (zlen_nonneg w). pose proof (zlen_nonneg sl).
  pose proof (clen_value_ok orig body eb Hb HN Ob Hst) as Hv. fold nb in Hv. specialize (Hv ltac:(lia)).
  destruct (clen_zone m _ proto) as [z|] eqn:Hz; [|split; [by exists (req_start m orig ++ w ++ sl); rewrite <- !app_assoc|]].
  2: { destruct (clen_none m _ proto Hz) as [E0|?]; [left|by right]. rewrite E0 in Hv. change (s32 0) with 0 in Hv.
       rewrite Z.add_0_r, !s32_small in Hv by (rewrite ?s32_small; lia). by rewrite <- Hv. }
  destruct (written_infix orig (req_from m) eh (Edit (Some z) [] (clen_text body orig (u32 (growth (fix_edits 0 eb))))))
    as (a & c & Ew).
  { apply in_einserts. left. unfold req_edits, clen_edits. fold eb. rewrite Hz, !in_app_iff. right. left. by left. }
  fold eh in Ew. unfold w at 1. fold eh. rewrite Ew. cbn [e_pre e_post]. rewrite app_nil_l. unfold clen_text.
  rewrite Hv.
  assert (u64 (zlen nb) = zlen nb) as ->.
  { apply Z.mod_small. pose proof (zlen_nonneg nb). lia. }
  exists (req_start m orig ++ a), (c ++ sl). by rewrite <- !app_assoc.
Qed.

(** ** An example: a header removed, a letter added to the body, sent over TCP *)

Definition ex_orig : bytes :=
  B "INVITE sip:b@h SIP/2.0" ++ CRLF ++ B "Via: SIP/2.0/UDP 10.0.0.9" ++ CRLF ++ B "X: y" ++ CRLF ++ CRLF ++ B "abc".

Definition ex_sock : socket_info := Sock (B "p") (Ip AF_INET [10; 0; 0; 1]) (B "10.0.0.1") SIP_PORT (B "5060") PROTO_TCP.

Definition ex_rcv : receive_info :=
  Rcv (Ip AF_INET [10; 0; 0; 9]) (Ip AF_INET [10; 0; 0; 1]) 5060 5060 PROTO_UDP 0 (Some ex_sock).

Definition ex_env : benv :=
  Be (Le ex_rcv (Some ex_sock) [] [] (fun _ => 0)) (fun k => Some (Z.of_nat k + 100)) 0
     (Some (B "10.0.0.9")) 0 [] [] [] [].

Definition ex_via : via_body := Via 24 None 41 8 0 0 None None None 27 false.

Definition ex_hdrs : list hdr_field := [Hdr HDR_VIA_T 24 29 20 27 None; Hdr 0 51 54 1 6 None].

Definition ex_msg : sip_msg :=
  Msg 7 7 (Some (B "sip:c@k")) [] 0 ex_via (Hdr HDR_VIA_T 24 29 20 27 None) None ex_hdrs None 57 true (B "z9hG4bK1.2.0").

Definition ex_head : lump := Lump (Ld 1 0 (LUMP_DEL 51 6) 0) NULL NULL NULL.
Definition ex_body : lump := Lump (Ld 2 0 (LUMP_NOP 62 0) 0) NULL (Lump (Ld 3 0 (LUMP_ADD (B "d")) 0) NULL NULL NULL) NULL.

Definition ex_prefix : bytes := B "Via: SIP/2.0/TCP ".

Lemma ex_ok : req_ok ex_env ex_msg ex_sock ex_prefix (B "10.0.0.9") 59 ex_orig PROTO_TCP.
Proof. split; try done; try (vm_compute; split; congruence). left. done. Qed.

Lemma ex_reaches : reaches (Lm ex_orig (Some 57) NULL NULL) (Lm ex_orig (Some 57) ex_head ex_body).
Proof.
  eapply r_step; [eapply r_step; [eapply r_step; [apply r_start|]|]|].
  - apply (ms_del (Some 1) 0 _ 51 6 0 (Some 1)); [lia..|reflexivity].
  - apply (ms_anchor (Some 2) 0 _ 62 0 0 (Some 2)); [lia|reflexivity].
  - apply (ms_body (Lm ex_orig (Some 57) ex_head (Lump (Ld 2 0 (LUMP_NOP 62 0) 0) NULL NULL NULL)) ex_body).
    apply (ls_after _ (Some 3) 0 2 (B "d") 0 _ (Some 3)). reflexivity.
Qed.

Lemma ex_made : lumps_made ex_env ex_orig (Some 57) ex_head ex_body 0.
Proof.
  split; [apply ex_reaches|done|done|]. intros k p _ E. simpl in E. injection E as <-. split.
  - unfold ex_head. cbn [has l_id]. rewrite !orb_false_r. apply Z.eqb_neq. lia.
  - intros k' _ E. simpl in E. injection E as E. lia.
Qed.

Lemma ex_apart : edits_apart ex_env ex_msg ex_sock ex_prefix (B "10.0.0.9") 59 ex_orig PROTO_TCP (Some 57) ex_head ex_body.
Proof.
  split; vm_compute; repeat match goal with |- Forall _ _ => constructor | |- _ /\ _ => split end;
    congruence || done.
Qed.

Lemma request_rewritten_witness : exists st,
  build_req_buf_from_sip_req ex_env ex_msg PROTO_TCP (Bst (Lm ex_orig (Some 57) ex_head ex_body) 0 0)
  = Ret (Some (request_text ex_env ex_msg ex_sock ex_prefix (B "10.0.0.9") 59 ex_orig PROTO_TCP ex_head ex_body,
               123), st).
Proof.
  destruct (request_rewritten ex_env ex_msg ex_sock ex_prefix (B "10.0.0.9") 59 ex_orig PROTO_TCP (Some 57)
    ex_head ex_body 0 0 ex_ok ex_made ex_apart) as (r & st & E & H); [by vm_compute|].
  exists st. rewrite E. destruct r as [[out len]|]; [destruct H as [-> ->]|by destruct H as [i [=]]].
  assert (zlen (request_text ex_env ex_msg ex_sock ex_prefix (B "10.0.0.9") 59 ex_orig PROTO_TCP ex_head ex_body) = 123)
    as -> by (vm_compute; reflexivity). reflexivity.
Defined.

Lemma content_length_true_witness : exists out len st a c,
  build_req_buf_from_sip_req ex_env ex_msg PROTO_TCP (Bst (Lm ex_orig (Some 57) ex_head ex_body) 0 0)
  = Ret (Some (out, len), st) /\ out = a ++ (CONTENT_LENGTH ++ int2str 4 ++ CRLF) ++ c ++ B "abcd".
Proof.
  destruct (build_req_buf_from_sip_req ex_env ex_msg PROTO_TCP (Bst (Lm ex_orig (Some 57) ex_head ex_body) 0 0))
    as [[[[out len]|] st]|] eqn:E; [|vm_compute in E; discriminate E..].
  destruct (content_length_true ex_env ex_msg ex_sock ex_prefix (B "10.0.0.9") 59 ex_orig PROTO_TCP (Some 57)
    ex_head ex_body 0 0 out len st ex_ok ex_made ex_apart) as (a & c & H).
  - by vm_compute.
  - by vm_compute.
  - by vm_compute.
  - vm_compute. repeat constructor; congruence.
  - vm_compute. repeat constructor; congruence.
  - by vm_compute.
  - exact E.
  - exists out, len, st, a, c. split; [done|]. exact H.
Defined.

(** ** What goes wrong *)

(** A deletion in the headers that reaches past the start of a deletion in the body
    makes the builder write past its buffer: the length counts both zones, but the copy
    ignores the second. *)
Theorem crossing_zone_overflows : exists t tb,
  reaches (Lm ex_orig (Some 57) NULL NULL) (Lm ex_orig (Some 57) t tb) /\
  no_rand t = true /\ no_rand tb = true /\
  build_req_buf_from_sip_req ex_env ex_msg PROTO_UDP (Bst (Lm ex_orig (Some 57) t tb) 0 0) = Fault OutOfBounds.
Proof.
  exists (Lump (Ld 1 0 (LUMP_DEL 51 9) 0) NULL NULL NULL), (Lump (Ld 2 0 (LUMP_DEL 59 3) 0) NULL NULL NULL).
  split; [|by vm_compute].
  eapply r_step; [eapply r_step; [apply r_start|]|].
  - apply (ms_del (Some 1) 0 _ 51 9 0 (Some 1)); [lia..|reflexivity].
  - apply (ms_del (Some 2) 0 _ 59 3 0 (Some 2)); [lia..|reflexivity].
Qed.

Definition unlucky : benv :=
  Be (Le ex_rcv (Some ex_sock) [] [] (fun k => if (k =? 0)%nat then 0 else RAND_MAX)) (mem ex_env) 0
     (src_ip_str ex_env) 0 [] [] [] [].

(** A random condition is drawn anew for the length and for the copy: when it fails
    first and holds then, the text it guards is written past the buffer. *)
Theorem random_condition_overflows : exists t,
  reaches (Lm ex_orig (Some 57) NULL NULL) (Lm ex_orig (Some 57) t NULL) /\
  build_req_buf_from_sip_req unlucky ex_msg PROTO_UDP (Bst (Lm ex_orig (Some 57) t NULL) 0 0) = Fault OutOfBounds.
Proof.
  eexists (Lump (Ld 1 0 (LUMP_NOP 51 0) 0) NULL
    (Lump (Ld 2 0 (LUMP_ADD_OPT COND_IF_RAND) 0) NULL (Lump (Ld 3 0 (LUMP_ADD (B "Y: z")) 0) NULL NULL NULL) NULL) NULL).
  split; [|by vm_compute].
  eapply r_step; [eapply r_step; [eapply r_step; [apply r_start|]|]|].
  - apply (ms_anchor (Some 1) 0 _ 51 0 0 (Some 1)); [lia|reflexivity].
  - eapply (ms_head (Lm ex_orig (Some 57) _ NULL)). eapply (ls_cond_after _ (Some 2) 0 1 COND_IF_RAND 0). reflexivity.
  - eapply (ms_head (Lm ex_orig (Some 57) _ NULL)). eapply (ls_after _ (Some 3) 0 2 (B "Y: z") 0). reflexivity.
Qed.



(** The buffer for the Via is a byte too small when the request leaves over SCTP from
    an IPv6 address: the builder writes past it whatever the branch and the parameters. *)
Theorem sctp_via_overflows e sock branch extra hp st p :
  af (address sock) = AF_INET6 -> zlen (hp_host hp) = 0 -> port_no sock <> SIP_PORT -> mem e (mal st) = Some p ->
  via_builder e sock branch extra PROTO_SCTP hp st = Fault OutOfBounds.
Proof.
  intros Ha Hh Hp Hm. unfold via_builder, mbind, m_bind, pkg_malloc. rewrite Hm.
  change (via_proto PROTO_SCTP) with (Some (take (length MY_VIA - 4) MY_VIA ++ B "SCTP ")). cbv iota.
  rewrite (proj2 (Z.leb_gt _ _)); [done|].
  unfold via_text, via_max_len, opt_len, via_address, via_portno. rewrite Hh, Ha. simpl (0 =? 0). cbv iota.
  rewrite (proj2 (Z.eqb_neq (port_no sock) SIP_PORT)) by done. cbn [negb orb fst snd andb].
  change ((AF_INET6 =? AF_INET6) && true) with true. cbv iota.
  destruct (zlen (hp_port hp) =? 0), branch, extra; cbn [fst snd];
    repeat first [rewrite zlen_app | rewrite zlen_cons]; change (zlen CRLF) with 2; change (zlen MY_BRANCH) with 8;
    change (zlen (@nil Z)) with 0; change (zlen MY_VIA) with 17;
    change (zlen (take (length MY_VIA - 4) MY_VIA)) with 13; change (zlen (B "SCTP ")) with 5; lia.
Qed.

Lemma sctp_via_overflows_witness :
  via_builder ex_env (Sock (B "p") (Ip AF_INET6 []) (B "::1") 5070 (B "5070") PROTO_SCTP) None None PROTO_SCTP
    (Hp [] []) (Bst (Lm [] None NULL NULL) 0 0) = Fault OutOfBounds.
Proof. by apply (sctp_via_overflows _ _ _ _ _ _ 100). Defined.

(** The source address is compared with the host of the Via up to the length of the
    host: for a host that is only the beginning of the address, no received parameter is
    added, and the reply goes to that host. *)
Theorem received_missing e m orig host rest :
  via_received (via1 m) = None -> via_name m orig = host -> ~ In 0 host -> src_ip_str e = Some (host ++ rest) ->
  received_test e m orig = 0.
Proof.
  intros Hr Hn Hz Hs. unfold received_test, check_via_address. rewrite Hr, Hn, Hs.
  assert (strncmp_eq host (host ++ rest) = true) as ->.
  { clear -Hz. induction host as [|x h IH]; simpl in *; [done|]. rewrite Z.eqb_refl.
    destruct (Z.eqb_spec x 0); [done|]. apply IH. tauto. }
  by case_test.
Qed.

Lemma received_missing_witness :
  let e := Be (Le ex_rcv None [] [] (fun _ => 0)) (mem ex_env) 0 (Some (B "10.0.0.97")) 0 [] [] [] [] in
  via_name ex_msg ex_orig = B "10.0.0.9" /\ received_test e ex_msg ex_orig = 0.
Proof.
  split; [done|]. apply (received_missing _ _ _ (B "10.0.0.9") (B "7")); try done.
  simpl. intuition discriminate.
Defined.

End MsgSpec.
