(* ===== verification/ReplySpec.v ===== *)
(** * Replies made here: theorems

    The length of a reply is computed before its buffer is filled, by a first pass over
    the headers of the request.  The two passes agree, and the bookmark the transaction
    keeps is the tag of the To header in the reply. *)

From Stdlib Require Import ZArith Lia List String Ascii Bool.
From stdpp Require Import base tactics option list list_numbers.
From S2P Require Import Prelude Ut Lumps MsgBuild.

Module ReplySpec.
Import Ut Lumps MsgBuild.

(** ** The request *)

Definition hdr_ok (n : Z) (h : hdr_field) : Prop :=
  0 <= h_name h /\ h_name h <= h_body h /\ 0 <= h_body_len h
  /\ h_body h + h_body_len h <= h_name h + h_len h /\ h_name h + h_len h <= n.

(** The tag the reply has. *)
Definition reply_tag (orig : bytes) (m : sip_msg) (i : reply_in) : bytes :=
  if has_new_tag i then new_tag i
  else match get_to_tag m with Some (s, l) => slice orig s (s + l) | None => [] end.

Definition tag_in (m : sip_msg) (h : hdr_field) : Prop :=
  h_type h = HDR_TO_T -> get_to_tag m = h_tag h
    /\ match h_tag h with Some (s, l) => h_name h <= s /\ 0 <= l /\ s + l <= h_name h + h_len h | None => True end.

Definition topmost (m : sip_msg) (h : hdr_field) : bool := (h_type h =? HDR_VIA_T) && is_via1 m h.

(** The old rport parameter lies in the body of the topmost Via, after a semicolon. *)
Definition rport_in (m : sip_msg) (h : hdr_field) : Prop :=
  match via_rport (via1 m) with
  | Some (s, l) => h_name h < s /\ 0 <= l /\ s + l <= h_body h + h_body_len h
  | None => True
  end.

(** A text is a header or the body, not both, and there is one body at most. *)
Definition one_kind (x : lump_rpl) : Prop :=
  rl_flag (r_flags x) LUMP_RPL_HDR = negb (rl_flag (r_flags x) LUMP_RPL_BODY).

Definition rpl_ok (l : list lump_rpl) : Prop :=
  Forall one_kind l /\ (length (filter (fun x => rl_flag (r_flags x) LUMP_RPL_BODY = true) l) <= 1)%nat.

Record reply_ok (orig : bytes) (m : sip_msg) (i : reply_in) : Prop := {
  rk_hdrs : Forall (hdr_ok (zlen orig)) (headers m);
  rk_tag : Forall (tag_in m) (headers m);
  rk_via : exists pre h post, headers m = pre ++ h :: post /\ topmost m h = true /\ rport_in m h
             /\ Forall (fun x => topmost m x = false) (pre ++ post);
  rk_lumps : rpl_ok (reply_lump i);
  rk_size : reply_size m i < 2 ^ 32
}.

(** ** Writing *)

(** The bookmark delimits the tag in what is written. *)
Definition marked (tag : bytes) (o : bytes * option (Z * Z)) : Prop :=
  match o.2 with
  | Some (p, l) => 0 <= p /\ 0 <= l /\ p + l <= zlen o.1 /\ slice o.1 p (p + l) = tag
  | None => True
  end.

Lemma slice_app out x p l : 0 <= p -> 0 <= l -> p + l <= zlen out -> slice (out ++ x) p (p + l) = slice out p (p + l).
Proof.
  intros Hp Hl H. unfold slice, zlen in *. rewrite drop_app_le by lia. apply take_app_le.
  rewrite length_drop. lia.
Qed.

Lemma marked_app tag out bm x : marked tag (out, bm) -> marked tag (out ++ x, bm).
Proof.
  unfold marked. simpl. destruct bm as [[p l]|]; [|done]. intros (H1 & H2 & H3 & H4). rewrite zlen_app.
  pose proof (zlen_nonneg x). split_and!; try lia. by rewrite slice_app.
Qed.

Lemma slice_zlen orig s o : 0 <= s <= o -> o <= zlen orig -> zlen (slice orig s o) = o - s.
Proof. apply slice_length. Qed.

(** A computation that appends [n] bytes, keeping the bookmark right. *)
Definition appends (tag : bytes) (f : bytes * option (Z * Z) -> res (bytes * option (Z * Z))) (n cap : Z) : Prop :=
  forall o, zlen o.1 + n <= cap -> marked tag o ->
  exists x bm, f o = Ret (o.1 ++ x, bm) /\ zlen x = n /\ marked tag (o.1 ++ x, bm)
    /\ (tag <> [] -> o.2 <> None -> bm <> None).

Lemma append_str_ok tag cap x : appends tag (append_str cap x) (zlen x) cap.
Proof.
  intros [out bm] Hc Hm. simpl in *. unfold append_str. rewrite memcpy_ok by done. run.
  exists x, bm. split_and!; [done|done|by apply marked_app|done].
Qed.

Lemma append_orig_ok tag cap orig s size : 0 <= s -> 0 <= size -> s + size <= zlen orig ->
  appends tag (append_orig cap orig s size) size cap.
Proof.
  intros Hs Hz Hn o Hc Hm. unfold append_orig.
  replace (orig_at orig s size) with (Ret (slice orig s (s + size))).
  2:{ rewrite <- (orig_at_ok orig s (s + size)) by lia. f_equal. lia. }
  run. pose proof (slice_zlen orig s (s + size) ltac:(lia) Hn) as El.
  destruct (append_str_ok tag cap (slice orig s (s + size)) o) as (x & bm & E & Hx & H); [lia|done|].
  exists x, bm. split; [done|]. split; [lia|done].
Qed.

Lemma appends_seq tag f g n1 n2 n cap : appends tag f n1 cap -> appends tag g n2 cap -> 0 <= n2 -> n = n1 + n2 ->
  appends tag (fun o => o ← f o; g o) n cap.
Proof.
  intros Hf Hg Hn -> o Hc Hm. destruct (Hf o) as (x & bm & -> & Hx & Hm' & Hb); [lia|done|]. run.
  destruct (Hg (o.1 ++ x, bm)) as (y & bm' & -> & Hy & Hm2 & Hb2); [simpl; rewrite zlen_app; lia|done|].
  exists (x ++ y), bm'. simpl in *. rewrite app_assoc, zlen_app. split_and!; try done; [lia|auto].
Qed.

Lemma appends_ret tag cap : appends tag (fun o => Ret o) 0 cap.
Proof. intros [out bm] _ Hm. exists [], bm. simpl. rewrite app_nil_r. done. Qed.

(** The tag itself is appended under the bookmark. *)
Lemma append_tag_ok tag cap : appends tag (fun o => append_str cap tag (bookmark (zlen tag) o)) (zlen tag) cap.
Proof.
  intros [out bm] Hc Hm. simpl in *. unfold append_str, bookmark. simpl. rewrite memcpy_ok by done. run.
  exists tag, (Some (zlen out, zlen tag)). split_and!; try done. unfold marked. simpl. rewrite zlen_app.
  pose proof (zlen_nonneg out). pose proof (zlen_nonneg tag). split_and!; try lia.
  unfold slice, zlen. rewrite drop_app_length' by lia. apply take_ge. lia.
Qed.

(** The whole To header is copied under the bookmark of its own tag. *)
Lemma append_to_ok orig cap h s l : hdr_ok (zlen orig) h -> h_name h <= s -> 0 <= l -> s + l <= h_name h + h_len h ->
  appends (slice orig s (s + l))
    (fun o => append_orig cap orig (h_name h) (h_len h) (o.1, Some (zlen o.1 + (s - h_name h), l))) (h_len h) cap.
Proof.
  intros (H1 & H2 & H3 & H4 & H5) Hs Hl He [out bm] Hc Hm. simpl in *. unfold append_orig, append_str.
  replace (orig_at orig (h_name h) (h_len h)) with (Ret (slice orig (h_name h) (h_name h + h_len h))).
  2:{ rewrite <- (orig_at_ok orig (h_name h) (h_name h + h_len h)) by lia. f_equal. lia. }
  run. pose proof (slice_zlen orig (h_name h) (h_name h + h_len h) ltac:(lia) H5) as El. simpl.
  rewrite memcpy_ok by lia. run. eexists _, _. split; [done|]. split; [lia|]. split; [|done].
  unfold marked. simpl. rewrite zlen_app. pose proof (zlen_nonneg out). split_and!; try lia.
  unfold slice, zlen in *. rewrite drop_app_ge by lia.
  replace (Z.to_nat (Z.of_nat (length out) + (s - h_name h)) - length out)%nat with (Z.to_nat (s - h_name h)) by lia.
  rewrite skipn_firstn_comm, drop_drop, take_take.
  replace (Z.to_nat (h_name h) + Z.to_nat (s - h_name h))%nat with (Z.to_nat s) by lia.
  f_equal. lia.
Qed.

Lemma write_to_ok orig cap m i h : hdr_ok (zlen orig) h -> h_type h = HDR_TO_T -> tag_in m h ->
  appends (reply_tag orig m i) (write_to cap orig m i h) (hdr_len m i h) cap.
Proof.
  intros Hh Ht Hi. destruct (Hi Ht) as [Eg Hg]. pose proof Hh as (H1 & H2 & H3 & H4 & H5).
  unfold write_to, hdr_len, reply_tag. rewrite Ht. simpl (HDR_TO_T =? HDR_TO_T). cbv iota.
  pose proof (zlen_nonneg (new_tag i)). pose proof (zlen_nonneg TOTAG_TOKEN).
  destruct (has_new_tag i).
  - assert (Hadd : appends (new_tag i) (fun o =>
      o ← append_orig cap orig (h_name h) (h_body h + h_body_len h - h_name h) o;
      o ← append_str cap TOTAG_TOKEN o;
      o ← append_str cap (new_tag i) (bookmark (zlen (new_tag i)) o);
      append_orig cap orig (h_body h + h_body_len h) (h_name h + h_len h - (h_body h + h_body_len h)) o)
      (h_len h + (zlen (new_tag i) + zlen TOTAG_TOKEN)) cap).
    { eapply appends_seq; [apply append_orig_ok; lia| | |].
      { eapply appends_seq; [apply append_str_ok| | |].
        { eapply appends_seq; [apply append_tag_ok|apply append_orig_ok; lia|lia|reflexivity]. }
        { lia. }
        { reflexivity. } }
      { lia. }
      { lia. } }
    rewrite Eg in *. destruct (h_tag h) as [[s [|l|l]]|]; try exact Hadd; [|lia].
    simpl. destruct Hg as (? & ? & ?).
    eapply appends_seq; [apply append_orig_ok; lia| | |].
    { eapply appends_seq; [apply append_tag_ok|apply append_orig_ok; lia|lia|reflexivity]. }
    { lia. }
    { lia. }
  - rewrite Z.add_0_r, Eg. destruct (h_tag h) as [[s l]|].
    + destruct Hg as (? & ? & ?). by apply append_to_ok.
    + intros [out bm] Hc Hm. simpl in *.
      destruct (append_orig_ok [] cap orig (h_name h) (h_len h) H1 ltac:(lia) H5 (out, None) Hc)
        as (x & bm' & E & Hx & Hm' & _); [done|]. by exists x, bm'.
Qed.

Lemma append_str_bm cap x o r : append_str cap x o = Ret r -> r.2 = o.2.
Proof. unfold append_str. destruct (memcpy cap o.1 x); [|done]. by intros [= <-]. Qed.

Lemma append_orig_bm cap orig s n o r : append_orig cap orig s n o = Ret r -> r.2 = o.2.
Proof. unfold append_orig. destruct (orig_at orig s n); [|done]. apply append_str_bm. Qed.

Lemma bind_ret {A C} (m : res A) (f : A -> res C) c : m ≫= f = Ret c -> exists a, m = Ret a /\ f a = Ret c.
Proof. destruct m as [a|]; [|done]. intros H. by exists a. Qed.

Lemma write_to_marks orig cap m i h o r : h_type h = HDR_TO_T -> tag_in m h -> reply_tag orig m i <> [] ->
  write_to cap orig m i h o = Ret r -> r.2 <> None.
Proof.
  intros Ht Hi Hn. destruct (Hi Ht) as [Eg _]. unfold reply_tag, write_to in *. rewrite Eg in *.
  destruct (has_new_tag i).
  - destruct (h_tag h) as [[s [|l|l]]|]; intros H; apply bind_ret in H as (o1 & _ & H);
      apply bind_ret in H as (o2 & Hb & H); try (apply bind_ret in H as (o3 & Hc & H); apply append_str_bm in Hc; simpl in Hc);
      apply append_orig_bm in H; apply append_str_bm in Hb; simpl in Hb; congruence.
  - destruct (h_tag h) as [[s l]|]; [|done]. intros H. apply append_orig_bm in H. by rewrite H.
Qed.

(** The part of the topmost Via that is left out. *)
Definition via_del (m : sip_msg) (i : reply_in) (h : hdr_field) : Z :=
  if topmost m h then
    match rport_buf i, via_rport (via1 m) with Some _, Some (_, size) => size + 1 | _, _ => 0 end
  else 0.

Lemma write_via_ok tag orig cap m i h : hdr_ok (zlen orig) h -> h_type h = HDR_VIA_T ->
  (is_via1 m h = true -> rport_in m h) ->
  appends tag (write_via cap orig m i h) (hdr_len m i h - via_del m i h) cap.
Proof.
  intros (H1 & H2 & H3 & H4 & H5) Ht Hr. unfold write_via, hdr_len, via_del, topmost. rewrite Ht.
  simpl (HDR_VIA_T =? _). cbn [andb]. cbv iota. unfold rport_in, rport_len in *.
  pose proof (zlen_nonneg (received_buf i)). change (zlen CRLF) with 2.
  destruct (is_via1 m h).
  2:{ eapply appends_seq; [apply append_orig_ok; lia|apply append_str_ok|done|change (zlen CRLF) with 2; lia]. }
  specialize (Hr eq_refl).
  assert (forall f n n', appends tag f n cap -> n + zlen (received_buf i) + 2 = n' ->
    appends tag (fun o => o ← (o ← f o; append_str cap (received_buf i) o); append_str cap CRLF o) n' cap) as Hall.
  { intros f n n' Hf En. eapply appends_seq; [eapply appends_seq; [exact Hf|apply append_str_ok|lia|reflexivity]
      |apply append_str_ok|done|]. change (zlen CRLF) with 2. rewrite <- En. lia. }
  destruct (rport_buf i) as [r|]; [pose proof (zlen_nonneg r); destruct (via_rport (via1 m)) as [[s l]|]|].
  - destruct Hr as (? & ? & ?).
    eapply (Hall (fun o => o ← append_orig cap orig (h_name h) (s - h_name h - 1) o;
                      o ← append_str cap r o;
                      append_orig cap orig (s + l) (h_body h + h_body_len h - s - l) o)).
    { eapply appends_seq; [apply append_orig_ok; lia| | |].
      { eapply appends_seq; [apply append_str_ok|apply append_orig_ok; lia|lia|reflexivity]. }
      { lia. }
      { reflexivity. } }
    { lia. }
  - eapply (Hall (fun o => o ← append_orig cap orig (h_name h) (h_body h + h_body_len h - h_name h) o;
                      append_str cap r o)); [|].
    { eapply appends_seq; [apply append_orig_ok; lia|apply append_str_ok|lia|reflexivity]. }
    { lia. }
  - eapply (Hall (append_orig cap orig (h_name h) (h_body h + h_body_len h - h_name h)));
      [apply append_orig_ok; lia|lia].
Qed.

Lemma write_hdr_ok orig cap m i h : hdr_ok (zlen orig) h -> tag_in m h -> (topmost m h = true -> rport_in m h) ->
  appends (reply_tag orig m i) (write_hdr cap orig m i h) (hdr_len m i h - via_del m i h) cap.
Proof.
  intros Hh Hi Hr. pose proof Hh as (H1 & H2 & H3 & H4 & H5). unfold write_hdr.
  destruct (Z.eqb_spec (h_type h) HDR_VIA_T) as [Ev|Ev].
  { apply write_via_ok; try done. intros Hv. apply Hr. unfold topmost. by rewrite Ev, Hv. }
  assert (via_del m i h = 0) as Ed.
  { unfold via_del, topmost. by rewrite (proj2 (Z.eqb_neq _ _) Ev). }
  rewrite Ed, Z.sub_0_r. destruct (Z.eqb_spec (h_type h) HDR_RECORDROUTE_T) as [Er|Er].
  { unfold hdr_len. rewrite Er. simpl. destruct (with_rr i); [apply append_orig_ok; lia|apply appends_ret]. }
  destruct (Z.eqb_spec (h_type h) HDR_TO_T) as [Et|Et]; [by apply write_to_ok|].
  unfold hdr_len. rewrite (proj2 (Z.eqb_neq _ _) Et), (proj2 (Z.eqb_neq _ _) Ev), (proj2 (Z.eqb_neq _ _) Er).
  destruct (_ || _); [apply append_orig_ok; lia|apply appends_ret].
Qed.

Definition total (f : hdr_field -> Z) (hs : list hdr_field) : Z := fold_right (fun h n => f h + n) 0 hs.

Lemma reply_total_app f a b : total f (a ++ b) = total f a + total f b.
Proof. induction a as [|x a IH]; simpl; [done|]. unfold total in *. simpl. rewrite IH. lia. Qed.

Lemma total_zero f hs : Forall (fun h => f h = 0) hs -> total f hs = 0.
Proof. unfold total. induction 1 as [|h hs Hh _ IH]; simpl; [done|]. lia. Qed.

Lemma write_size (orig : bytes) m i h : hdr_ok (zlen orig) h -> tag_in m h -> (topmost m h = true -> rport_in m h) ->
  0 <= hdr_len m i h - via_del m i h.
Proof.
  intros Hh Hi Hr.
  destruct (write_hdr_ok orig (hdr_len m i h - via_del m i h) m i h Hh Hi Hr ([], None)) as (x & _ & _ & <- & _);
    [done|done|apply zlen_nonneg].
Qed.

Lemma write_hdrs_ok orig cap m i hs : Forall (hdr_ok (zlen orig)) hs -> Forall (tag_in m) hs ->
  Forall (fun h => topmost m h = true -> rport_in m h) hs ->
  0 <= total (fun h => hdr_len m i h - via_del m i h) hs /\
  appends (reply_tag orig m i) (write_hdrs cap orig m i hs) (total (fun h => hdr_len m i h - via_del m i h) hs) cap.
Proof.
  induction hs as [|h hs IH]; intros H1 H2 H3; [split; [done|apply appends_ret]|].
  apply Forall_cons in H1 as [H1 H1']. apply Forall_cons in H2 as [H2 H2']. apply Forall_cons in H3 as [H3 H3'].
  destruct (IH H1' H2' H3') as [Hp IH']. pose proof (write_size orig m i h H1 H2 H3).
  split; [simpl; unfold total in *; lia|].
  eapply (appends_seq _ (write_hdr cap orig m i h) (write_hdrs cap orig m i hs)); [by apply write_hdr_ok|exact IH'|done|done].
Qed.

Lemma write_hdrs_marks orig cap m i hs o r : Forall (tag_in m) hs -> reply_tag orig m i <> [] ->
  Forall (hdr_ok (zlen orig)) hs -> Forall (fun h => topmost m h = true -> rport_in m h) hs ->
  zlen o.1 + total (fun h => hdr_len m i h - via_del m i h) hs <= cap -> marked (reply_tag orig m i) o ->
  write_hdrs cap orig m i hs o = Ret r -> o.2 <> None \/ Exists (fun h => h_type h = HDR_TO_T) hs -> r.2 <> None.
Proof.
  revert o; induction hs as [|h hs IH]; intros o H2 Hn H1 H3 Hc Hm H Hs.
  { injection H as <-. destruct Hs as [Hs|Hs]; [done|by inversion Hs]. }
  apply Forall_cons in H1 as [H1 H1']. apply Forall_cons in H2 as [H2 H2']. apply Forall_cons in H3 as [H3 H3'].
  destruct (write_hdrs_ok orig cap m i hs H1' H2' H3') as [Hp _]. cbn [total fold_right] in Hc. fold (total (fun h => hdr_len m i h - via_del m i h) hs) in Hc.
  cbn [write_hdrs] in H. apply bind_ret in H as (o1 & E & H).
  destruct (write_hdr_ok orig cap m i h H1 H2 H3 o) as (x & bm & E' & Hx & Hm' & Hk); [lia|done|].
  rewrite E in E'. injection E' as ->. eapply IH; try done.
  - simpl. rewrite zlen_app. lia.
  - simpl. destruct Hs as [Hs|Hs]; [left; auto|]. inversion Hs as [? ? Ht|? ? Ht]; subst; [|by right]. left.
    unfold write_hdr in E. rewrite Ht in E. simpl in E. by apply write_to_marks in E.
Qed.

(** ** The rest of the reply *)

Lemma append_all_ok tag cap l : appends tag (append_all cap l) (sum_len l) cap.
Proof.
  induction l as [|x l IH]; [apply appends_ret|].
  assert (0 <= sum_len l) by (clear; induction l as [|y l IH]; simpl; [done|]; pose proof (zlen_nonneg y); lia).
  eapply (appends_seq _ (append_str cap x) (append_all cap l)); [apply append_str_ok|exact IH|done|done].
Qed.

Lemma append_all_bm cap l o r : append_all cap l o = Ret r -> r.2 = o.2.
Proof.
  revert o; induction l as [|x l IH]; intros o; simpl; [by intros [= <-]|]. intros H.
  apply bind_ret in H as (o1 & E & H). rewrite (IH _ H). by eapply append_str_bm.
Qed.

Lemma reply_sum_app a b : sum_len (a ++ b) = sum_len a + sum_len b.
Proof. induction a as [|x a IH]; simpl; [done|]. rewrite IH. lia. Qed.

(** Header texts and the body are all the texts. *)
Lemma kinds_split l : rpl_ok l ->
  sum_len (map r_text l)
  = sum_len (map r_text (filter (fun x => rl_flag (r_flags x) LUMP_RPL_HDR = true) l))
    + match last (map r_text (filter (fun x => rl_flag (r_flags x) LUMP_RPL_BODY = true) l)) with
      | Some b => zlen b
      | None => 0
      end.
Proof.
  intros [H1 H2].
  transitivity (sum_len (map r_text (filter (fun x => rl_flag (r_flags x) LUMP_RPL_HDR = true) l))
    + sum_len (map r_text (filter (fun x => rl_flag (r_flags x) LUMP_RPL_BODY = true) l))).
  - clear H2. induction H1 as [|x l Hx _ IH]; [done|]. unfold one_kind in Hx. rewrite !filter_cons.
    destruct (rl_flag (r_flags x) LUMP_RPL_BODY); rewrite Hx; simpl; cbn [map sum_len fold_right]; unfold sum_len in *; simpl; lia.
  - f_equal. destruct (filter _ l) as [|x [|y r]]; simpl in *; [done|lia|lia].
Qed.

Lemma tail_size i : rpl_ok (reply_lump i) ->
  sum_len (reply_tail i) = sum_len (map r_text (reply_lump i))
    + (match server_header i with Some s => zlen s + zlen CRLF | None => 0 end)
    + (match warning i with Some w => zlen w + zlen CRLF | None => 0 end)
    + (zlen CONTENT_LENGTH + zlen (clen_value i) + zlen CRLF) + zlen CRLF.
Proof.
  intros Hr. rewrite (kinds_split _ Hr). fold (reply_body i). unfold reply_tail. rewrite !reply_sum_app.
  destruct (server_header i), (warning i), (reply_body i); unfold sum_len; simpl; lia.
Qed.

Lemma status_size i : zlen (status_line i) = zlen SIP_VERSION + 1 + 3 + 1 + zlen (text i) + zlen CRLF.
Proof. unfold status_line. rewrite !zlen_app. change (zlen (digits3 (code i))) with 3. change (zlen [32]) with 1. lia. Qed.

Lemma total_sub f g hs : total (fun h => f h - g h) hs = total f hs - total g hs.
Proof. unfold total. induction hs as [|h hs IH]; simpl; [done|]. lia. Qed.

Lemma via_del_total m i pre h post : headers m = pre ++ h :: post -> topmost m h = true ->
  Forall (fun x => topmost m x = false) (pre ++ post) ->
  total (via_del m i) (headers m)
  = match rport_buf i, via_rport (via1 m) with Some _, Some (_, size) => size + 1 | _, _ => 0 end.
Proof.
  intros -> Ht Hf. apply Forall_app in Hf as [Hf1 Hf2]. rewrite reply_total_app. cbn [total fold_right].
  fold (total (via_del m i) post). rewrite !total_zero.
  - unfold via_del. rewrite Ht. lia.
  - eapply Forall_impl; [exact Hf2|]. intros x Hx. unfold via_del. by rewrite Hx.
  - eapply Forall_impl; [exact Hf1|]. intros x Hx. unfold via_del. by rewrite Hx.
Qed.

Lemma rport_all m pre h post : headers m = pre ++ h :: post -> rport_in m h ->
  Forall (fun x => topmost m x = false) (pre ++ post) ->
  Forall (fun x => topmost m x = true -> rport_in m x) (headers m).
Proof.
  intros -> Hr Hf. apply Forall_app in Hf as [Hf1 Hf2]. apply Forall_app.
  split; [|constructor; [done|]]; (eapply Forall_impl; [eassumption|]); simpl; congruence.
Qed.

(** The sum the first pass computes. *)
Lemma size_split orig m i : reply_ok orig m i ->
  reply_size m i = zlen (status_line i) + (total (fun h => hdr_len m i h - via_del m i h) (headers m)
                   + sum_len (reply_tail i)).
Proof.
  intros [_ _ (pre & h & post & E & Ht & _ & Hf) Hl _]. rewrite total_sub, (via_del_total m i pre h post) by done.
  rewrite tail_size, status_size by done. unfold reply_size, total.
  destruct (rport_buf i) as [r|], (via_rport (via1 m)) as [[s l]|]; lia.
Qed.

(** C35: The buffer of a reply made here is filled exactly to the length computed before,
    and the bookmark delimits the tag of the To header in it.  The conditions ([reply_ok]):
    the headers lie in the message, every To header has the tag of the first one (with two
    it has not: [second_to_faults]), exactly one header is the topmost Via and its rport
    parameter lies in it, each text added is a header or the body and at most one is the
    body (as [add_lump_rpl] keeps them), and the reply has less than [2 ^ 32] bytes. *)
Theorem reply_fits_buffer orig m i : reply_ok orig m i ->
  exists out bm, render_reply orig m i = Ret (out, zlen out, bm)
    /\ zlen out = reply_size m i
    /\ match bm with
       | Some (p, l) => 0 <= p /\ 0 <= l /\ p + l <= zlen out /\ slice out p (p + l) = reply_tag orig m i
       | None => reply_tag orig m i = [] \/ Forall (fun h => h_type h <> HDR_TO_T) (headers m)
       end.
Proof.
  intros OK. pose proof (size_split orig m i OK) as Es.
  destruct OK as [Hh Ht (pre & h & post & E & _ & Hr & Hf) Hl Hs].
  pose proof (rport_all m pre h post E Hr Hf) as Hra.
  set (tag := reply_tag orig m i). set (len := reply_size m i) in *.
  destruct (write_hdrs_ok orig (len + 1) m i (headers m) Hh Ht Hra) as [Hp Hw].
  assert (0 <= sum_len (reply_tail i)) as Hq
    by (clear; induction (reply_tail i) as [|y l IH]; simpl; [done|]; pose proof (zlen_nonneg y); lia).
  pose proof (zlen_nonneg (status_line i)).
  assert (reply_len m i = len) as El by (apply u32_small; fold len; lia).
  unfold render_reply. rewrite El.
  unfold append_str at 1. rewrite memcpy_ok by (cbn [fst]; change (zlen (@nil Z)) with 0; lia).
  run. cbn [app fst snd].
  destruct (Hw (status_line i, None)) as (x & bm & Ew & Hx & Hm & _); [simpl; lia|done|]. rewrite Ew. run.
  cbn [fst] in *. destruct (append_all_ok tag (len + 1) (reply_tail i) (status_line i ++ x, bm)) as (y & bm' & Ea & Hy & Hm' & _);
    [cbn [fst]; rewrite zlen_app; lia|done|]. rewrite Ea. run.
  exists ((status_line i ++ x) ++ y), bm'. cbn [fst] in *.
  assert (zlen ((status_line i ++ x) ++ y) = len) as Hz by (rewrite !zlen_app; lia). rewrite Hz.
  split; [done|]. split; [done|]. unfold marked in Hm'. cbn [fst snd] in Hm'. rewrite Hz in Hm'.
  apply append_all_bm in Ea. cbn [snd] in Ea. subst bm'. destruct bm as [[p l]|]; [done|].
  destruct (decide (tag = [])) as [|Hn]; [by left|]. right. apply not_Exists_Forall; [intros h'; apply _|].
  intros Hex. eapply (write_hdrs_marks orig (len + 1) m i (headers m) (status_line i, None)); try done; [simpl; lia|by right].
Qed.

Lemma land_pow2 x n : 0 <= n -> Z.land x (2 ^ n) = 0 \/ Z.land x (2 ^ n) = 2 ^ n.
Proof.
  intros Hn. destruct (Z.testbit x n) eqn:E; [right|left]; apply Z.bits_inj'; intros k Hk;
    rewrite Z.land_spec, ?Z.bits_0, Z.pow2_bits_eqb by done; destruct (Z.eqb_spec n k); subst; rewrite ?E; auto using andb_false_r.
Qed.

(** The texts of a reply keep their shape. *)
Lemma add_lump_rpl_ok mem l s flags : rpl_ok l -> rpl_ok (add_lump_rpl mem l s flags).2.
Proof.
  intros [H1 H2]. unfold add_lump_rpl. rewrite Z.land_lor_distr_r.
  destruct (_ || _ || _) eqn:Ek; [by split|]. destruct s as [[|c s]|]; [by split| |by split].
  destruct mem as [p|]; [|by split]. destruct (_ && _) eqn:Eb; [by split|]. simpl. split.
  - apply Forall_app. split; [done|]. constructor; [|done]. unfold one_kind, rl_flag. simpl.
    destruct (land_pow2 flags 1 ltac:(lia)) as [E1|E1], (land_pow2 flags 2 ltac:(lia)) as [E2|E2];
      change (2 ^ 1) with LUMP_RPL_HDR in E1; change (2 ^ 2) with LUMP_RPL_BODY in E2;
      rewrite ?E1, ?E2 in *; done.
  - rewrite filter_app, length_app. rewrite filter_cons. simpl.
    destruct (rl_flag flags LUMP_RPL_BODY) eqn:Ef; simpl in *; [|lia].
    assert (filter (fun x => rl_flag (r_flags x) LUMP_RPL_BODY = true) l = []) as ->; [|simpl; lia].
    clear -Eb. induction l as [|x l IH]; [done|]. simpl in Eb. bool_to_prop. rewrite filter_cons, H. simpl. auto.
Qed.

(** A second To header behind the tag of the first one: when the reply gets a new tag, the
    bytes between its name and the tag of the first are to be copied, a negative number of
    them.  The reply is never built. *)
Theorem second_to_faults orig m i h s l :
  In h (headers m) -> h_type h = HDR_TO_T -> has_new_tag i = true -> get_to_tag m = Some (s, l) -> 0 < l ->
  s < h_name h -> exists f, render_reply orig m i = Fault f.
Proof.
  intros Hin Hty Hnew Htag Hl Hs. unfold render_reply. destruct (append_str _ (status_line i) _) as [o|f]; [|by exists f]. run.
  assert (W : forall cap o, exists f, write_hdrs cap orig m i (headers m) o = Fault f).
  { intros cap. revert Hin. generalize (headers m). induction l0 as [|x hs IH]; [done|]. intros Hin o'. cbn [write_hdrs].
    destruct (write_hdr cap orig m i x o') as [o1|f] eqn:E; [|by exists f]. run. destruct Hin as [->|Hin]; [|by apply IH].
    exfalso. revert E. unfold write_hdr. rewrite Hty. cbn [HDR_TO_T HDR_VIA_T HDR_RECORDROUTE_T Z.eqb Pos.eqb].
    unfold write_to. rewrite Hnew, Htag. destruct l as [|l|l]; [done| |done]. unfold append_orig, orig_at.
    by rewrite (proj2 (Z.leb_gt 0 (s - h_name h))) by lia. }
  destruct (W (reply_len m i + 1) o) as [f ->]. by exists f.
Qed.

(** ** An example *)

Definition rx_orig : bytes :=
  B "INVITE sip:b@h SIP/2.0" ++ CRLF ++ B "Via: SIP/2.0/UDP h;rport" ++ CRLF ++ B "To: <sip:b>" ++ CRLF
  ++ B "CSeq: 1 INVITE" ++ CRLF ++ CRLF.

Definition rx_via : hdr_field := Hdr HDR_VIA_T 24 29 19 26 None.

Definition rx_msg : sip_msg :=
  Msg 7 7 None [] 0 (Via 24 (Some 43) 41 1 0 0 None None (Some (43, 5)) 19 false) rx_via None
    [rx_via; Hdr HDR_TO_T 50 54 7 13 None; Hdr HDR_CSEQ_T 63 69 8 16 None] None 79 true [].

Definition rx_in : reply_in :=
  Ri 200 (B "OK") (B "t1") [Rl 1 (B "Contact: <sip:x>" ++ CRLF) LUMP_RPL_HDR; Rl 2 (B "body") LUMP_RPL_BODY]
     (Some (B "Server: s")) None [] (Some (RPORT ++ B "5070")).

Lemma reply_fits_buffer_witness : exists out,
  render_reply rx_orig rx_msg rx_in = Ret (out, 137, Some (63, 2)) /\ slice out 63 65 = B "t1".
Proof.
  destruct (reply_fits_buffer rx_orig rx_msg rx_in) as (out & bm & E & _ & H).
  - split.
    + vm_compute. repeat (constructor; [repeat split; congruence|]). constructor.
    + repeat (constructor; [intros Ht; vm_compute in Ht |- *; try discriminate Ht; done|]). constructor.
    + exists [], rx_via, (tl (headers rx_msg)). split_and!; try done. repeat constructor.
    + split; [repeat constructor|]. vm_compute. lia.
    + by vm_compute.
  - exists out. vm_compute in E. injection E as <- _ <-. split; [by vm_compute|]. vm_compute. done.
Defined.

(** The request of the example with the To header twice, tagged. *)
Lemma second_to_faults_witness :
  let to n := Hdr HDR_TO_T n (n + 4) 13 19 (Some (n + 15, 2)) in
  exists f, render_reply (rx_orig ++ B "To: <sip:b>;tag=t0" ++ CRLF ++ B "To: <sip:b>;tag=t0" ++ CRLF)
    (Msg 7 7 None [] 0 (via1 rx_msg) rx_via None [rx_via; to 81; to 101] None 121 true []) rx_in = Fault f.
Proof.
  intros to. apply (second_to_faults _ _ _ (to 101) 96 2); [by right; right; left|done|done|by vm_compute|lia|by vm_compute].
Defined.

End ReplySpec.
