(* ===== verification/ParseUri.v ===== *)
(** * URIs ([src/parser/parse_uri.c])

    [parse_uri] is one loop over the bytes of a URI with a state machine: it does not know
    until it sees an ['@'] whether what it reads is the user or already the host, its port,
    its parameters or headers, and starts again at the host when it finds out.

    A [str] of the result is its offset and length in the URI, [None] when its pointer is
    null. *)

From Stdlib Require Import ZArith Lia List String Ascii Bool.
From stdpp Require Import base tactics option list.
From S2P Require Import Prelude Ut.

Module ParseUri.
Import Ut.

(** ** Data *)

Inductive uri_type : Set := ERROR_URI_T | SIP_URI_T | SIPS_URI_T | TEL_URI_T | TELS_URI_T.

(** The parameters that are recognised. *)
Inductive pid : Set := TRANSPORT | TTL | USER_PARAM | MADDR | METHOD | LR | R2.

#[export] Instance pid_eq_dec : EqDecision pid.
Proof. solve_decision. Defined.

Definition span : Type := option (Z * Z).

Record sip_uri : Type := Uri {
  user : span;
  passwd : span;
  host : span;
  port : span;
  params : span;
  headers : span;
  port_no : Z;
  proto : Z;
  type : uri_type;
  par : pid -> span;
  val : pid -> span
}.

Definition empty_uri (t : uri_type) : sip_uri :=
  Uri None None None None None None 0 0 t (fun _ => None) (fun _ => None).

Definition set_user x u := Uri x (passwd u) (host u) (port u) (params u) (headers u) (port_no u) (proto u) (type u) (par u) (val u).
Definition set_passwd x u := Uri (user u) x (host u) (port u) (params u) (headers u) (port_no u) (proto u) (type u) (par u) (val u).
Definition set_host x u := Uri (user u) (passwd u) x (port u) (params u) (headers u) (port_no u) (proto u) (type u) (par u) (val u).
Definition set_port x n u := Uri (user u) (passwd u) (host u) x (params u) (headers u) n (proto u) (type u) (par u) (val u).
Definition set_params x u := Uri (user u) (passwd u) (host u) (port u) x (headers u) (port_no u) (proto u) (type u) (par u) (val u).
Definition set_headers x u := Uri (user u) (passwd u) (host u) (port u) (params u) x (port_no u) (proto u) (type u) (par u) (val u).
Definition set_proto x u := Uri (user u) (passwd u) (host u) (port u) (params u) (headers u) (port_no u) x (type u) (par u) (val u).
Definition set_type x u := Uri (user u) (passwd u) (host u) (port u) (params u) (headers u) (port_no u) (proto u) x (par u) (val u).
Definition set_par (i : pid) (x : span) u := Uri (user u) (passwd u) (host u) (port u) (params u) (headers u) (port_no u) (proto u) (type u)
  (fun j => if decide (i = j) then x else par u j) (val u).
Definition set_val (i : pid) (x : span) u := Uri (user u) (passwd u) (host u) (port u) (params u) (headers u) (port_no u) (proto u) (type u)
  (par u) (fun j => if decide (i = j) then x else val u j).

Inductive states : Set :=
| URI_INIT | URI_USER | URI_PASSWORD | URI_PASSWORD_ALPHA
| URI_HOST | URI_HOST_P | URI_HOST6_P | URI_HOST6_END | URI_PORT
| URI_PARAM | URI_PARAM_P | URI_VAL_P | URI_HEADERS
| PT_T | PT_R | PT_A | PT_N | PT_S | PT_P | PT_O | PT_R2 | PT_T2 | PT_eq
| PTTL_T2 | PTTL_L | PTTL_eq
| PU_U | PU_S | PU_E | PU_R | PU_eq
| PM_M | PM_E | PM_T | PM_H | PM_O | PM_D | PM_eq
| PMA_A | PMA_D | PMA_D2 | PMA_R | PMA_eq
| PLR_L | PLR_R_FIN | PLR_eq
| PR2_R | PR2_2_FIN | PR2_eq
| VU_U | VU_D | VU_P_FIN
| VT_T | VT_C | VT_P_FIN
| VTLS_L | VTLS_S_FIN
| VS_S | VS_C | VS_T | VS_P_FIN.

(** The ways to fail. *)
Inductive uri_error : Set :=
| error_too_short | error_bad_char | error_bad_host | error_bad_port | error_bad_uri | error_headers | error_bug.

(** The local variables: [s] the start of the current part, [b] and [v] of a parameter and
    its value, [param] what [param] and [param_val] point to. *)
Record st : Type := St {
  state : states;
  s : Z;
  b : Z;
  v : Z;
  param : option pid;
  pass : option Z;
  found_user : bool;
  err_headers : bool;
  pno : Z;
  uri : sip_uri
}.

Definition goto q x := St q (s x) (b x) (v x) (param x) (pass x) (found_user x) (err_headers x) (pno x) (uri x).
Definition at_s n x := St (state x) n (b x) (v x) (param x) (pass x) (found_user x) (err_headers x) (pno x) (uri x).
Definition at_b n x := St (state x) (s x) n (v x) (param x) (pass x) (found_user x) (err_headers x) (pno x) (uri x).
Definition at_v n x := St (state x) (s x) (b x) n (param x) (pass x) (found_user x) (err_headers x) (pno x) (uri x).
Definition for_param i x := St (state x) (s x) (b x) (v x) (Some i) (pass x) (found_user x) (err_headers x) (pno x) (uri x).
Definition set_pass q x := St (state x) (s x) (b x) (v x) (param x) q (found_user x) (err_headers x) (pno x) (uri x).
Definition found x := St (state x) (s x) (b x) (v x) (param x) (pass x) true (err_headers x) (pno x) (uri x).
Definition set_err q x := St (state x) (s x) (b x) (v x) (param x) (pass x) (found_user x) q (pno x) (uri x).
Definition set_pno n x := St (state x) (s x) (b x) (v x) (param x) (pass x) (found_user x) (err_headers x) n (uri x).
Definition on_uri (f : sip_uri -> sip_uri) x := St (state x) (s x) (b x) (v x) (param x) (pass x) (found_user x) (err_headers x) (pno x) (f (uri x)).

Definition outcome : Type := uri_error + st.

(** ** The macros *)

Definition is_ch (c : Z) (l : list Z) : bool := existsb (Z.eqb c) l.

(** Everything so far was the user, perhaps with a password; the rest is forgotten. *)
Definition still_at_user (p : Z) (x : st) : outcome :=
  if found_user x then inl error_bad_char
  else
    let us := match host (uri x) with Some (h, _) => h | None => 0 end in
    let u := empty_uri (type (uri x)) in
    let u := match pass x with
             | Some q => set_passwd (Some (q + 1, p - (q + 1))) (set_user (Some (us, q - us)) u)
             | None => set_user (Some (us, p - us)) u
             end in
    inr (goto URI_HOST (set_err false (found (at_s (p + 1) (on_uri (fun _ => u) x))))).

(** The host ends here and another part begins. *)
Definition end_host (q : states) (p : Z) (x : st) : st :=
  at_s (p + 1) (goto q (on_uri (set_host (Some (s x, p - s x))) x)).

Definition check_host_end (p c : Z) (x : st) (default : outcome) : outcome :=
  if c =? §":" then inr (end_host URI_PORT p x)
  else if c =? §";" then inr (end_host URI_PARAM p x)
  else if c =? §"?" then inr (end_host URI_HEADERS p x)
  else if is_ch c [§"&"; §"@"] then inl error_bad_char
  else default.

(** The parameter and its value end here. *)
Definition param_set (p : Z) (x : st) : res st :=
  match param x with
  | None => Fault NullDeref
  | Some i => Ret (on_uri (fun u => set_val i (Some (v x, p - v x)) (set_par i (Some (b x, p - b x)) u)) x)
  end.

(** A password cannot contain [;] or [?]. *)
Definition no_pass (x : st) : st := match pass x with Some _ => set_pass None (found x) | None => x end.

Definition semicolon_case (x : st) : st := goto URI_PARAM (no_pass x).

Definition question_case (p : Z) (x : st) : st :=
  no_pass (at_s (p + 1) (goto URI_HEADERS (on_uri (set_params (Some (s x, p - s x))) x))).

(** A first colon may start a password. *)
Definition colon_pass (p : Z) (x : st) : st :=
  if found_user x then x
  else match pass x with Some _ => set_pass None (found x) | None => set_pass (Some p) x end.

Definition colon_case (p : Z) (x : st) : st := goto URI_PARAM_P (colon_pass p x).

Definition param_common_cases (p c : Z) (x : st) (default : outcome) : outcome :=
  if c =? §"@" then still_at_user p x
  else if c =? §";" then inr (semicolon_case x)
  else if c =? §"?" then inr (question_case p x)
  else if c =? §":" then inr (colon_case p x)
  else default.

(** In a value; its transport, if it is one that is known, is [pr]. *)
Definition value_cases (pr : option Z) (p c : Z) (x : st) (default : outcome) : res outcome :=
  let fin x := match pr with Some n => on_uri (set_proto n) x | None => x end in
  if c =? §"@" then Ret (still_at_user p x)
  else if c =? §";" then x ← param_set p (semicolon_case x); Ret (inr (fin x))
  else if c =? §"?" then x ← param_set p (question_case p x); Ret (inr (fin x))
  else if c =? §":" then Ret (inr (goto URI_VAL_P (colon_case p x)))
  else Ret default.

Definition param_switch (l : list (list Z * states)) (p c : Z) (x : st) : outcome :=
  match find (fun y => is_ch c y.1) l with
  | Some y => inr (goto y.2 x)
  | None => param_common_cases p c x (inr (goto URI_PARAM_P x))
  end.

Definition value_switch (l : list (list Z * states)) (p c : Z) (x : st) : res outcome :=
  match find (fun y => is_ch c y.1) l with
  | Some y => Ret (inr (goto y.2 x))
  | None => value_cases None p c x (inr (goto URI_VAL_P x))
  end.

Definition transport_fin (pr : Z) (p c : Z) (x : st) : res outcome :=
  value_cases (Some pr) p c x (inr (goto URI_VAL_P x)).

(** After the equals sign of a parameter. *)
Definition value_start (i : pid) (p c : Z) (x : st) : outcome :=
  let x := for_param i x in
  param_common_cases p c x (inr (goto URI_VAL_P (at_v p x))).

(** The end of [lr] and [r2], which need no value. *)
Definition flag_fin (i : pid) (eq : states) (p c : Z) (x : st) : outcome :=
  let mark x := on_uri (set_par i (Some (b x, p - b x))) x in
  if c =? §"@" then still_at_user p x
  else if c =? §"=" then inr (goto eq x)
  else if c =? §";" then inr (mark (semicolon_case x))
  else if c =? §"?" then inr (mark (question_case p x))
  else if c =? §":" then inr (colon_case p x)
  else inr (goto URI_PARAM_P x).

(** A digit of a port. *)
Definition case_port (c : Z) (x : st) : st := set_pno (s32 (pno x * 10 + c - §"0")) x.

(** The part that starts at [s] is the port. *)
Definition end_port (p : Z) (x : st) : st := on_uri (set_port (Some (s x, p - s x)) (u16 (pno x))) x.

(** What looked like the user is the host. *)
Definition user_is_host (x : st) : st := on_uri (fun u => set_user None (set_host (user u) u)) x.

Definition PROTO_UDP : Z := 1.
Definition PROTO_TCP : Z := 2.
Definition PROTO_TLS : Z := 3.
Definition PROTO_SCTP : Z := 4.

(** ** The loop *)

Definition step (p c : Z) (x : st) : res outcome :=
  let ok y := Ret (inr y) in
  let err e := Ret (inl e) in
  match state x with
  | URI_INIT =>
      if c =? §"[" then ok (goto URI_HOST6_P (at_s p x))
      else if is_ch c [§"]"; §":"] then err error_bad_char
      else ok (goto URI_USER x)
  | URI_USER =>
      if c =? §"@" then
        ok (at_s (p + 1) (found (goto URI_HOST (on_uri (set_user (Some (s x, p - s x))) x))))
      else if c =? §":" then ok (at_s (p + 1) (goto URI_PASSWORD (on_uri (set_user (Some (s x, p - s x))) x)))
      else if c =? §";" then ok (end_host URI_PARAM p x)
      else if c =? §"?" then ok (end_host URI_HEADERS p x)
      else if is_ch c [§"["; §"]"] then err error_bad_char
      else ok x
  | URI_PASSWORD =>
      if c =? §"@" then
        ok (at_s (p + 1) (found (goto URI_HOST (set_pno 0 (on_uri (set_passwd (Some (s x, p - s x))) x)))))
      else if c =? §";" then ok (at_s (p + 1) (found (goto URI_PARAM (user_is_host (end_port p x)))))
      else if c =? §"?" then ok (at_s (p + 1) (found (goto URI_HEADERS (user_is_host (end_port p x)))))
      else if is_digit c then ok (case_port c x)
      else if is_ch c [§"["; §"]"; §":"] then err error_bad_char
      else ok (goto URI_PASSWORD_ALPHA (set_pno 0 x))
  | URI_PASSWORD_ALPHA =>
      if c =? §"@" then
        ok (at_s (p + 1) (found (goto URI_HOST (on_uri (set_passwd (Some (s x, p - s x))) x))))
      else if is_ch c [§";"; §"?"] then err error_bad_port
      else if is_ch c [§"["; §"]"; §":"] then err error_bad_char
      else ok x
  | URI_HOST =>
      if c =? §"[" then ok (goto URI_HOST6_P x)
      else if is_ch c [§":"; §";"; §"?"; §"&"; §"@"] then err error_bad_host
      else ok (goto URI_HOST_P x)
  | URI_HOST_P => Ret (check_host_end p c x (inr x))
  | URI_HOST6_END => Ret (check_host_end p c x (inl error_bad_host))
  | URI_HOST6_P =>
      if c =? §"]" then ok (goto URI_HOST6_END x)
      else if is_ch c [§"["; §"&"; §"@"; §";"; §"?"] then err error_bad_host
      else ok x
  | URI_PORT =>
      if c =? §";" then ok (at_s (p + 1) (goto URI_PARAM (end_port p x)))
      else if c =? §"?" then ok (at_s (p + 1) (goto URI_HEADERS (end_port p x)))
      else if is_digit c then ok (case_port c x)
      else err error_bad_port
  | URI_PARAM =>
      Ret (param_common_cases p c x
        (if is_ch c [§"t"; §"T"] then inr (goto PT_T (at_b p x))
         else if is_ch c [§"u"; §"U"] then inr (goto PU_U (at_b p x))
         else if is_ch c [§"m"; §"M"] then inr (goto PM_M (at_b p x))
         else if is_ch c [§"l"; §"L"] then inr (goto PLR_L (at_b p x))
         else if is_ch c [§"r"; §"R"] then inr (goto URI_PARAM_P (goto PR2_R (at_b p x)))
         else inr (goto URI_PARAM_P x)))
  | URI_PARAM_P => Ret (param_common_cases p c x (inr x))
  | PT_T => Ret (param_switch [([§"r"; §"R"], PT_R); ([§"t"; §"T"], PTTL_T2)] p c x)
  | PT_R => Ret (param_switch [([§"a"; §"A"], PT_A)] p c x)
  | PT_A => Ret (param_switch [([§"n"; §"N"], PT_N)] p c x)
  | PT_N => Ret (param_switch [([§"s"; §"S"], PT_S)] p c x)
  | PT_S => Ret (param_switch [([§"p"; §"P"], PT_P)] p c x)
  | PT_P => Ret (param_switch [([§"o"; §"O"], PT_O)] p c x)
  | PT_O => Ret (param_switch [([§"r"; §"R"], PT_R2)] p c x)
  | PT_R2 => Ret (param_switch [([§"t"; §"T"], PT_T2)] p c x)
  | PT_T2 => Ret (param_switch [([§"="], PT_eq)] p c x)
  | PT_eq =>
      let x := for_param TRANSPORT x in
      Ret (param_common_cases p c x
        (if is_ch c [§"u"; §"U"] then inr (goto VU_U (at_v p x))
         else if is_ch c [§"t"; §"T"] then inr (goto VT_T (at_v p x))
         else if is_ch c [§"s"; §"S"] then inr (goto VS_S (at_v p x))
         else inr (goto URI_VAL_P (at_v p x))))
  | URI_VAL_P => value_cases None p c x (inr x)
  | VU_U => value_switch [([§"d"; §"D"], VU_D)] p c x
  | VU_D => value_switch [([§"p"; §"P"], VU_P_FIN)] p c x
  | VU_P_FIN => transport_fin PROTO_UDP p c x
  | VT_T => value_switch [([§"c"; §"C"], VT_C); ([§"l"; §"L"], VTLS_L)] p c x
  | VT_C => value_switch [([§"p"; §"P"], VT_P_FIN)] p c x
  | VT_P_FIN => transport_fin PROTO_TCP p c x
  | VTLS_L => value_switch [([§"s"; §"S"], VTLS_S_FIN)] p c x
  | VTLS_S_FIN => transport_fin PROTO_TLS p c x
  | VS_S => value_switch [([§"c"; §"C"], VS_C)] p c x
  | VS_C => value_switch [([§"t"; §"T"], VS_T)] p c x
  | VS_T => value_switch [([§"p"; §"P"], VS_P_FIN)] p c x
  | VS_P_FIN => transport_fin PROTO_SCTP p c x
  | PTTL_T2 => Ret (param_switch [([§"l"; §"L"], PTTL_L)] p c x)
  | PTTL_L => Ret (param_switch [([§"="], PTTL_eq)] p c x)
  | PTTL_eq => Ret (value_start TTL p c x)
  | PU_U => Ret (param_switch [([§"s"; §"S"], PU_S)] p c x)
  | PU_S => Ret (param_switch [([§"e"; §"E"], PU_E)] p c x)
  | PU_E => Ret (param_switch [([§"r"; §"R"], PU_R)] p c x)
  | PU_R => Ret (param_switch [([§"="], PU_eq)] p c x)
  | PU_eq => Ret (value_start USER_PARAM p c x)
  | PM_M => Ret (param_switch [([§"e"; §"E"], PM_E); ([§"a"; §"A"], PMA_A)] p c x)
  | PM_E => Ret (param_switch [([§"t"; §"T"], PM_T)] p c x)
  | PM_T => Ret (param_switch [([§"h"; §"H"], PM_H)] p c x)
  | PM_H => Ret (param_switch [([§"o"; §"O"], PM_O)] p c x)
  | PM_O => Ret (param_switch [([§"d"; §"D"], PM_D)] p c x)
  | PM_D => Ret (param_switch [([§"="], PM_eq)] p c x)
  | PM_eq => Ret (value_start METHOD p c x)
  | PMA_A => Ret (param_switch [([§"d"; §"D"], PMA_D)] p c x)
  | PMA_D => Ret (param_switch [([§"d"; §"D"], PMA_D2)] p c x)
  | PMA_D2 => Ret (param_switch [([§"r"; §"R"], PMA_R)] p c x)
  | PMA_R => Ret (param_switch [([§"="], PMA_eq)] p c x)
  | PMA_eq => Ret (value_start MADDR p c x)
  | PLR_L => Ret (param_switch [([§"r"; §"R"], PLR_R_FIN)] p c x)
  | PLR_R_FIN => Ret (flag_fin LR PLR_eq p c x)
  | PLR_eq => Ret (value_start LR p c x)
  | PR2_R => Ret (param_switch [([§"2"], PR2_2_FIN)] p c x)
  | PR2_2_FIN => Ret (flag_fin R2 PR2_eq p c x)
  | PR2_eq => Ret (value_start R2 p c x)
  | URI_HEADERS =>
      if c =? §"@" then Ret (still_at_user p x)
      else if c =? §";" then
        (if found_user x then err error_bad_char
         else if absent (pass x) then ok (set_err true x) else err error_headers)
      else if c =? §":" then ok (colon_pass p x)
      else if c =? §"?" then ok (no_pass x)
      else ok x
  end.

(** A failure is found at an offset, [p - buf] in the code. *)
Definition failure : Type := uri_error * Z.

Fixpoint loop (p : Z) (buf : bytes) (x : st) : res (failure + st) :=
  match buf with
  | [] => Ret (inr x)
  | c :: buf' =>
      o ← step p c x;
      match o with
      | inl e => Ret (inl (e, p))
      | inr x => loop (p + 1) buf' x
      end
  end.

(** ** The end of the URI *)

Definition end_params (p : Z) (x : st) : st := on_uri (set_params (Some (s x, p - s x))) x.
Definition end_flag (i : pid) (p : Z) (x : st) : st := on_uri (set_par i (Some (b x, p - b x))) (end_params p x).

Definition finish (p : Z) (x : st) : res outcome :=
  let ok y := Ret (inr y) in
  let err e := Ret (inl e) in
  let value (pr : option Z) :=
    x ← param_set p (end_params p x);
    ok (match pr with Some n => on_uri (set_proto n) x | None => x end) in
  match state x with
  | URI_INIT => err error_too_short
  | URI_USER =>
      if found_user x then err error_bad_uri
      else ok (goto URI_HOST (on_uri (set_host (Some (s x, p - s x))) x))
  | URI_PASSWORD => if found_user x then err error_bad_port else ok (user_is_host (end_port p x))
  | URI_PASSWORD_ALPHA => err error_bad_port
  | URI_HOST_P | URI_HOST6_END => ok (on_uri (set_host (Some (s x, p - s x))) x)
  | URI_HOST | URI_HOST6_P => err error_bad_host
  | URI_PORT => ok (end_port p x)
  | URI_PARAM | URI_PARAM_P
  | PT_T | PT_R | PT_A | PT_N | PT_S | PT_P | PT_O | PT_R2 | PT_T2 | PT_eq
  | PTTL_T2 | PTTL_L | PTTL_eq | PU_U | PU_S | PU_E | PU_R | PU_eq
  | PM_M | PM_E | PM_T | PM_H | PM_O | PM_D | PM_eq | PLR_L | PR2_R => ok (end_params p x)
  | PLR_R_FIN | PLR_eq => ok (end_flag LR p x)
  | PR2_2_FIN | PR2_eq => ok (end_flag R2 p x)
  | URI_VAL_P | VU_U | VU_D | VT_T | VT_C | VTLS_L | VS_S | VS_C | VS_T => value None
  | VU_P_FIN => value (Some PROTO_UDP)
  | VT_P_FIN => value (Some PROTO_TCP)
  | VTLS_S_FIN => value (Some PROTO_TLS)
  | VS_P_FIN => value (Some PROTO_SCTP)
  | URI_HEADERS =>
      let x := on_uri (set_headers (Some (s x, p - s x))) x in
      if err_headers x then err error_headers else ok x
  | PMA_A | PMA_D | PMA_D2 | PMA_R | PMA_eq => err error_bug
  end.

(** The bytes of a [str]. *)
Definition text (buf : bytes) (x : span) : bytes :=
  match x with Some (o, l) => take (Z.to_nat l) (drop (Z.to_nat o) buf) | None => [] end.

(** A URI with user=phone: the parameters of the user become those of the URI. *)
Definition phone (t : uri_type) (buf : bytes) (u : sip_uri) : sip_uri :=
  if bool_decide (text buf (val u USER_PARAM) = B "phone") then
    let u := set_type t u in
    match user u with
    | Some (o, l) =>
        match q_memchr (text buf (user u)) §";" with
        | Some i => let i := Z.of_nat i in
                    set_user (Some (o, i)) (set_params (Some (o + i + 1, l - i - 1)) u)
        | None => u
        end
    | None => u
    end
  else u.

Definition fix_type (buf : bytes) (u : sip_uri) : sip_uri :=
  match type u with
  | SIP_URI_T => phone TEL_URI_T buf u
  | SIPS_URI_T => phone TELS_URI_T buf u
  | TEL_URI_T | TELS_URI_T => set_host (Some (0, 0)) (set_user (host u) u)
  | ERROR_URI_T => u
  end.

(** ** The scheme *)

Definition SIP_SCH : Z := 980445555.
Definition SIPS_SCH : Z := 1936746867.
Definition TEL_SCH : Z := 980182388.

(** Four bytes as a little-endian number, with the bit of lower case set in each; a
    [char] is signed. *)
Definition scheme (buf : bytes) : Z :=
  match buf with
  | c0 :: c1 :: c2 :: c3 :: _ =>
      Z.lor (u32 (s8 c0 + Z.shiftl (s8 c1) 8 + Z.shiftl (s8 c2) 16 + Z.shiftl (s8 c3) 24)) 538976288
  | _ => 0
  end.

Definition init (p : Z) (t : uri_type) : st := St URI_INIT p 0 0 None None false false 0 (empty_uri t).

Definition parse_body (p : Z) (t : uri_type) (buf : bytes) : res (failure + sip_uri) :=
  o ← loop p (drop (Z.to_nat p) buf) (init p t);
  match o with
  | inl e => Ret (inl e)
  | inr x =>
      o ← finish (zlen buf) x;
      Ret (match o with
           | inl e => inl (e, zlen buf)
           | inr x => match type (uri x) with
                      | ERROR_URI_T => inl (error_bad_uri, zlen buf)
                      | _ => inr (fix_type buf (uri x))
                      end
           end)
  end.

Definition parse_uri (buf : bytes) : res (failure + sip_uri) :=
  if zlen buf <? 5 then Ret (inl (error_too_short, 4))
  else
    let sch := scheme buf in
    if sch =? SIP_SCH then parse_body 4 SIP_URI_T buf
    else if sch =? SIPS_SCH then
      (if bool_decide (buf !! 4%nat = Some §":") then parse_body 5 SIPS_URI_T buf else Ret (inl (error_bad_uri, 4)))
    else if sch =? TEL_SCH then parse_body 4 TEL_URI_T buf
    else Ret (inl (error_bad_uri, 4)).

(** The offset of the byte that is read to be printed by the exits for a bad character, a
    bad host and a bad port. *)
Definition printed_char (f : failure) : option Z :=
  match f.1 with
  | error_bad_char | error_bad_host | error_bad_port => Some f.2
  | _ => None
  end.

(** *** The URI of a request *)

(** What is cached in the message: the parsed URI, if it was parsed. *)
Definition parse_sip_msg_uri (parsed : option sip_uri) (new_uri : option bytes) (uri : bytes)
  : res (Z * option sip_uri) :=
  match parsed with
  | Some u => Ret (1, Some u)
  | None =>
      r ← parse_uri (match new_uri with Some u => u | None => uri end);
      Ret (match r with inl _ => (-1, None) | inr u => (0, Some u) end)
  end.

Definition parse_orig_ruri (parsed : option sip_uri) (uri : bytes) : res (Z * option sip_uri) :=
  match parsed with
  | Some u => Ret (1, Some u)
  | None => r ← parse_uri uri; Ret (match r with inl _ => (-1, None) | inr u => (0, Some u) end)
  end.

End ParseUri.
