(* ===== verification/UriSpec.v ===== *)
(** * What [parse_uri] returns

    The loop of [ParseUri] keeps an invariant on offsets: the parts found so far follow
    each other in the URI with their separators between them, and the part being read
    starts where the last one ended.  From it: no null pointer is written through, every
    field lies inside the URI, the parts and their separators are the URI again, and the
    host begins after the last ['@']. *)

From Stdlib Require Import ZArith Lia List String Ascii Bool.
From stdpp Require Import base tactics option list.
From S2P Require Import Prelude Ut ParseUri.

Module UriSpec.
Import Ut ParseUri.

(** The byte at an offset. *)
Definition byte (buf : bytes) (i : Z) : Z := nth (Z.to_nat i) buf (-1).

(** A span inside the first [n] bytes. *)
Definition span_in (n : Z) (x : span) : Prop :=
  match x with Some (o, l) => 0 <= o /\ 0 <= l /\ o + l <= n | None => True end.

(** All fields of a URI lie inside it. *)
Record uri_in (n : Z) (u : sip_uri) : Prop := UriIn {
  in_user : span_in n (user u);
  in_passwd : span_in n (passwd u);
  in_host : span_in n (host u);
  in_port : span_in n (port u);
  in_params : span_in n (params u);
  in_headers : span_in n (headers u);
  in_par : forall i, span_in n (par u i);
  in_val : forall i, span_in n (val u i)
}.

Lemma span_in_mono n m x : n <= m -> span_in n x -> span_in m x.
Proof. destruct x as [[o l]|]; simpl; [lia|done]. Qed.

(** The states by what they read. *)
Inductive class : Set := KInit | KUser | KPass | KHost | KName | KHost6 | KEnd6 | KPort | KParam | KValue | KHeaders.

Definition class_of (q : states) : class :=
  match q with
  | URI_INIT => KInit
  | URI_USER => KUser
  | URI_PASSWORD | URI_PASSWORD_ALPHA => KPass
  | URI_HOST => KHost
  | URI_HOST_P => KName
  | URI_HOST6_P => KHost6
  | URI_HOST6_END => KEnd6
  | URI_PORT => KPort
  | URI_VAL_P | VU_U | VU_D | VU_P_FIN | VT_T | VT_C | VT_P_FIN
  | VTLS_L | VTLS_S_FIN | VS_S | VS_C | VS_T | VS_P_FIN => KValue
  | URI_HEADERS => KHeaders
  | _ => KParam
  end.

Section Layout.
Context (buf : bytes) (p0 : Z).

Abbreviation at_ i := (byte buf i).

(** None of the bytes [l] occurs between [i] and [j]; the byte after the scheme, which the
    loop does not look at, may be any. *)
Definition none (l : list Z) (i j : Z) : Prop := forall k, i <= k < j -> k <> p0 -> ~ In (at_ k) l.

(** The user and password end, with their ['@'], before [h]. *)
Definition auth (h : Z) (u : sip_uri) : Prop :=
  match user u, passwd u with
  | None, None => h = p0
  | Some (us, ul), None => us = p0 /\ 0 <= ul /\ at_ (us + ul) = §"@" /\ h = us + ul + 1
  | Some (us, ul), Some (ws, wl) =>
      us = p0 /\ 0 <= ul /\ at_ (us + ul) = §":" /\ ws = us + ul + 1 /\ 0 <= wl /\
      at_ (ws + wl) = §"@" /\ h = ws + wl + 1
  | None, Some _ => False
  end.

(** A host from [h] to [e]: a name without a colon, or an address in brackets. *)
Definition host_text (h e : Z) : Prop :=
  none [§"@"; §";"; §"?"] h e /\ (none [§":"] h e \/ at_ h = §"[" /\ at_ (e - 1) = §"]" /\ h < e).

(** The host from [h], with its port, ends at [e]. *)
Definition hosted (h e : Z) (u : sip_uri) : Prop :=
  match host u with
  | Some (hs, hl) =>
      hs = h /\ 0 <= hl /\ host_text h (h + hl) /\
      match port u with
      | None => e = h + hl
      | Some (ps, pl) =>
          at_ (h + hl) = §":" /\ ps = h + hl + 1 /\ 0 <= pl /\ e = ps + pl /\
          forall k, ps <= k < e -> is_digit (at_ k) = true
      end
  | None => False
  end.

(** The parameters, if any, end at [f]. *)
Definition with_params (e f : Z) (u : sip_uri) : Prop :=
  match params u with
  | None => f = e
  | Some (ss, sl) => at_ e = §";" /\ ss = e + 1 /\ 0 <= sl /\ f = ss + sl /\ none [§"?"] ss f
  end.

Definition with_headers (f n : Z) (u : sip_uri) : Prop :=
  match headers u with
  | None => n = f
  | Some (hs, hl) => at_ f = §"?" /\ hs = f + 1 /\ 0 <= hl /\ n = hs + hl
  end.

(** The whole: [h] is where the host begins. *)
Definition layout (n : Z) (u : sip_uri) : Prop :=
  exists h e f, auth h u /\ hosted h e u /\ with_params e f u /\ with_headers f n u /\
    p0 <= h /\ none [§"@"] h n.

(** *** The invariant of the loop *)

(** What holds in every state, before the byte at [p]. *)
Record base (p : Z) (x : st) : Prop := Base {
  base_s : p0 <= s x <= p;
  base_b : 0 <= b x <= p;
  base_v : 0 <= v x <= p;
  base_par : forall i, span_in p (par (uri x) i);
  base_val : forall i, span_in p (val (uri x) i);
  base_user : found_user x = false -> class_of (state x) <> KPass -> user (uri x) = None /\ passwd (uri x) = None;
  base_pass : forall q, found_user x = false -> pass x = Some q -> p0 <= q < p /\ at_ q = §":"
}.

Definition no_tail (u : sip_uri) : Prop := params u = None /\ headers u = None.
Definition no_host (u : sip_uri) : Prop := host u = None /\ port u = None /\ no_tail u.

(** Reading the host, from [s]. *)
Definition reads_host (p : Z) (x : st) (P : Prop) : Prop :=
  auth (s x) (uri x) /\ no_host (uri x) /\ none [§"@"; §";"; §"?"] (s x) p /\ P.

Definition reads_params (p : Z) (x : st) : Prop :=
  exists h e, auth h (uri x) /\ hosted h e (uri x) /\ at_ e = §";" /\ s x = e + 1 /\
    no_tail (uri x) /\ none [§"?"] (s x) p /\ p0 <= h /\ none [§"@"] h p.

Definition reads_headers (p : Z) (x : st) : Prop :=
  exists h e f, auth h (uri x) /\ hosted h e (uri x) /\ with_params e f (uri x) /\
    at_ f = §"?" /\ s x = f + 1 /\ headers (uri x) = None /\ p0 <= h /\ none [§"@"] h p.

Definition reads (p : Z) (x : st) : Prop :=
  match class_of (state x) with
  | KInit => s x = p /\ p = p0 /\ found_user x = false /\ no_host (uri x)
  | KUser => s x = p0 /\ found_user x = false /\ no_host (uri x) /\
             none [§"@"; §";"; §"?"; §":"] p0 p
  | KPass => exists l, user (uri x) = Some (p0, l) /\ 0 <= l /\ at_ (p0 + l) = §":" /\ s x = p0 + l + 1 /\
             passwd (uri x) = None /\ no_host (uri x) /\ found_user x = false /\ none [§"@"] p0 p /\
             none [§";"; §"?"; §":"] p0 (p0 + l) /\
             (state x = URI_PASSWORD -> forall k, s x <= k < p -> is_digit (at_ k) = true)
  | KHost => reads_host p x (p = s x)
  | KName => reads_host p x (none [§":"] (s x) p)
  | KHost6 => reads_host p x (at_ (s x) = §"[" /\ s x < p)
  | KEnd6 => reads_host p x (at_ (s x) = §"[" /\ at_ (p - 1) = §"]" /\ s x < p)
  | KPort => exists h l, auth h (uri x) /\ host (uri x) = Some (h, l) /\ 0 <= l /\
             host_text h (h + l) /\ at_ (h + l) = §":" /\ s x = h + l + 1 /\ port (uri x) = None /\
             no_tail (uri x) /\ (forall k, s x <= k < p -> is_digit (at_ k) = true) /\
             p0 <= h /\ none [§"@"] h p
  | KParam => reads_params p x
  | KValue => reads_params p x /\ param x <> None
  | KHeaders => reads_headers p x
  end.

Definition inv (p : Z) (x : st) : Prop := base p x /\ reads p x.

Definition good (p : Z) (o : outcome) : Prop := match o with inl _ => True | inr x => inv p x end.

Lemma none_nil l i : none l i i.
Proof. intros k ?. lia. Qed.

Lemma none_snoc l i p : none l i p -> ~ In (at_ p) l -> none l i (p + 1).
Proof. intros H N k ?. destruct (decide (k = p)) as [->|]; [done|]. apply H. lia. Qed.

Lemma none_first l : none l p0 (p0 + 1).
Proof. intros k ?. lia. Qed.

Lemma none_sub l l' i j i' j' : none l i j -> i <= i' -> j' <= j -> incl l' l -> none l' i' j'.
Proof. intros H ? ? I k ? ? A. apply (H k); [lia|done|]. by apply I. Qed.

Lemma none_join l i j k : none l i j -> none l j k -> none l i k.
Proof. intros H1 H2 m ?. destruct (decide (m < j)); [apply H1|apply H2]; lia. Qed.

Lemma digits_none i j :
  (forall k, i <= k < j -> is_digit (at_ k) = true) -> none [§"@"; §";"; §"?"; §":"] i j.
Proof.
  intros H k Hk _. specialize (H k Hk). unfold is_digit in H. bool_to_prop. simpl.
  intros A. repeat destruct A as [A|A]; lia.
Qed.

Lemma digits_snoc i p :
  (forall k, i <= k < p -> is_digit (at_ k) = true) -> is_digit (at_ p) = true ->
  forall k, i <= k < p + 1 -> is_digit (at_ k) = true.
Proof. intros H D k ?. destruct (decide (k = p)) as [->|]; [done|]. apply H. lia. Qed.

Context (N0 : 0 <= p0).

Lemma base_mono p p' x : base p x -> p <= p' -> base p' x.
Proof.
  intros [? ? ? Hp Hv Hu Hq] ?. constructor; try lia; try done.
  - intros i. by eapply span_in_mono, Hp.
  - intros i. by eapply span_in_mono, Hv.
  - intros q F E. destruct (Hq q F E). split; [lia|done].
Qed.

(** A state that differs only in its place and its state. *)
Lemma base_goto p x q :
  base p x -> class_of (state x) <> KPass -> base p (goto q x).
Proof. intros [? ? ? Hp Hv Hu Hq] ?. constructor; simpl; auto. Qed.

Lemma reads_params_next p x :
  reads_params p x -> at_ p <> §"@" -> at_ p <> §"?" -> reads_params (p + 1) x.
Proof.
  intros (h & e & A & Hh & E & S & T & Q & L & M) ? ?. exists h, e.
  repeat split; try done; try apply T; apply none_snoc; simpl; intuition.
Qed.

Lemma reads_headers_next p x : reads_headers p x -> at_ p <> §"@" -> reads_headers (p + 1) x.
Proof.
  intros (h & e & f & A & Hh & P & E & S & T & L & M) ?. exists h, e, f.
  repeat split; try done. apply none_snoc; simpl; intuition.
Qed.

(** An ['@'] after the host: it was the user. *)
Lemma still_at_user_ok p x h l :
  base p x -> class_of (state x) <> KPass -> host (uri x) = Some (h, l) -> p0 <= p ->
  (found_user x = false -> h = p0) -> at_ p = §"@" -> good (p + 1) (still_at_user p x).
Proof.
  intros [? ? ? Hp Hv Hu Hq] C Eh ? Hh A. unfold still_at_user. rewrite Eh.
  destruct (found_user x) eqn:F; [done|]. specialize (Hh eq_refl). subst h. simpl. split.
  - constructor; simpl; try done; try lia; by destruct (pass x).
  - unfold reads, reads_host. simpl. destruct (pass x) as [q|] eqn:E; simpl.
    + destruct (Hq q eq_refl eq_refl). unfold auth, no_host, no_tail. simpl.
      replace (p0 + (q - p0)) with q by lia. replace (q + 1 + (p - (q + 1))) with p by lia.
      repeat split; try done; try lia. apply none_nil.
    + unfold auth, no_host, no_tail. simpl. replace (p0 + (p - p0)) with p by lia.
      repeat split; try done; try lia. apply none_nil.
Qed.

Lemma no_pass_base p x : base p x -> base p (no_pass x).
Proof.
  intros H. unfold no_pass. destruct (pass x) eqn:E; [|done].
  destruct H as [? ? ? Hp Hv Hu Hq]. constructor; simpl; auto; done.
Qed.

Lemma colon_pass_base p x :
  base p x -> p0 <= p -> at_ p = §":" -> base (p + 1) (colon_pass p x).
Proof.
  intros H ? ?. apply (base_mono p (p + 1)) in H as Hm; [|lia]. unfold colon_pass.
  destruct (found_user x) eqn:F; [done|]. destruct Hm as [? ? ? Hp Hv Hu Hq].
  destruct (pass x) as [r|] eqn:E; constructor; simpl; auto; try done.
  intros q _ [= <-]. split; [lia|done].
Qed.

(** The invariant of parameters and headers does not depend on what was recognised. *)
Definition same_parts (x y : st) : Prop :=
  s y = s x /\ user (uri y) = user (uri x) /\ passwd (uri y) = passwd (uri x) /\
  host (uri y) = host (uri x) /\ port (uri y) = port (uri x) /\ params (uri y) = params (uri x) /\
  headers (uri y) = headers (uri x).

Lemma reads_params_same p x y : same_parts x y -> reads_params p x -> reads_params p y.
Proof.
  intros (Es & E1 & E2 & E3 & E4 & E5 & E6) (h & e & H). exists h, e.
  unfold auth, hosted, no_tail in *. by rewrite Es, E1, E2, E3, E4, E5, E6.
Qed.

Lemma reads_headers_same p x y : same_parts x y -> reads_headers p x -> reads_headers p y.
Proof.
  intros (Es & E1 & E2 & E3 & E4 & E5 & E6) (h & e & f & H). exists h, e, f.
  unfold auth, hosted, with_params in *. by rewrite Es, E1, E2, E3, E4, E5, E6.
Qed.

Lemma no_pass_same x : same_parts x (no_pass x) /\ state (no_pass x) = state x /\ param (no_pass x) = param x.
Proof. unfold no_pass. by destruct (pass x). Qed.

Lemma colon_pass_same p x :
  same_parts x (colon_pass p x) /\ state (colon_pass p x) = state x /\ param (colon_pass p x) = param x.
Proof. unfold colon_pass. destruct (found_user x); [done|]. by destruct (pass x). Qed.

(** In the parameters, before a byte that leaves them in or ends them. *)
Record in_pars (p : Z) (x : st) : Prop := InParams {
  ip_base : base p x;
  ip_class : class_of (state x) <> KPass;
  ip_reads : reads_params p x
}.

Lemma pars_host p x : in_pars p x ->
  p0 <= p /\ exists h l, host (uri x) = Some (h, l) /\ (found_user x = false -> h = p0).
Proof.
  intros [B C (h & e & A & Hh & _ & _ & _ & _ & L & _)]. split; [destruct B; lia|].
  unfold hosted in Hh. destruct (host (uri x)) as [[hs hl]|]; [|done]. destruct Hh as (-> & _).
  exists h, hl. split; [done|]. intros F. destruct (base_user _ _ B F C) as [U W].
  unfold auth in A. by rewrite U, W in A.
Qed.

Lemma params_at_user p x : in_pars p x -> at_ p = §"@" -> good (p + 1) (still_at_user p x).
Proof.
  intros H ?. destruct (pars_host p x H) as (? & h & l & Eh & Hh).
  destruct H. by eapply still_at_user_ok.
Qed.

Lemma params_semicolon p x : in_pars p x -> at_ p = §";" -> inv (p + 1) (semicolon_case x).
Proof.
  intros [Hb C R] E. unfold semicolon_case. split.
  - apply base_goto; [|by rewrite (proj1 (proj2 (no_pass_same x)))]. apply no_pass_base, base_mono with p; [done|lia].
  - unfold reads. simpl. eapply (reads_params_same _ (no_pass x)); [done|].
    eapply reads_params_same; [apply no_pass_same|]. apply reads_params_next; rewrite ?E; done.
Qed.

Lemma params_question p x : in_pars p x -> at_ p = §"?" -> inv (p + 1) (question_case p x).
Proof.
  intros [Hb C (h & e & A & Hh & E & S & (T1 & T2) & Q & L & M)] E'. unfold question_case.
  pose proof (base_s _ _ Hb) as Hs. split.
  - apply no_pass_base. apply (base_mono p (p + 1)) in Hb as [? ? ? Hp Hv Hu Hq]; [|lia].
    constructor; simpl; auto. lia.
  - unfold reads. rewrite (proj1 (proj2 (no_pass_same _))). simpl.
    eapply reads_headers_same; [apply no_pass_same|]. exists h, e, p.
    unfold auth, hosted, with_params in *. simpl. rewrite S in *. repeat split; try done; try lia.
    apply none_snoc; [done|]. simpl. rewrite E'. intuition done.
Qed.

Lemma params_colon p x q : in_pars p x -> at_ p = §":" ->
  class_of q = KParam \/ class_of q = KValue /\ param x <> None ->
  inv (p + 1) (goto q (colon_pass p x)).
Proof.
  intros [Hb C R] E Hq. pose proof (base_s _ _ Hb). destruct (colon_pass_same p x) as (Sx & Sq & Sp). split.
  - apply base_goto; [|by rewrite Sq]. apply colon_pass_base; [done|lia|done].
  - assert (R' : reads_params (p + 1) (goto q (colon_pass p x))).
    { eapply (reads_params_same _ x); [done|]. apply reads_params_next; rewrite ?E; done. }
    unfold reads. simpl. destruct Hq as [->|[-> Hp]]; [done|]. by rewrite Sp.
Qed.

Lemma param_common_ok p x d : in_pars p x ->
  (at_ p <> §"@" -> at_ p <> §"?" -> good (p + 1) d) ->
  good (p + 1) (param_common_cases p (at_ p) x d).
Proof.
  intros H Hd. unfold param_common_cases. repeat case_test; bool_to_prop.
  - by apply params_at_user.
  - by apply params_semicolon.
  - by apply params_question.
  - apply params_colon; auto.
  - auto.
Qed.

Lemma param_set_ok n p x : inv n x -> param x <> None -> b x <= p <= n -> v x <= p ->
  class_of (state x) = KParam \/ class_of (state x) = KHeaders ->
  returns (param_set p x) (fun y => inv n y /\ class_of (state y) = class_of (state x)).
Proof.
  intros [[? Hb1 Hb2 Hp Hv Hu Hq] R] Hn ? ? K. unfold param_set. destruct (param x) as [i|]; [|done].
  apply returns_ret. split; [|done]. split.
  - constructor; simpl; auto; intros j; (case_decide; simpl; [lia|auto]).
  - unfold reads in *. simpl. destruct K as [K|K]; rewrite K in *.
    + by eapply reads_params_same; [|exact R].
    + by eapply reads_headers_same; [|exact R].
Qed.

Lemma set_proto_ok n x pr :
  class_of (state x) = KParam \/ class_of (state x) = KHeaders -> inv n x ->
  inv n (match pr with Some k => on_uri (set_proto k) x | None => x end).
Proof.
  intros K [[] R]. destruct pr; [|by split]. split; [by constructor|]. unfold reads in *. simpl.
  destruct K as [K|K]; rewrite K in *;
    [by eapply reads_params_same; [|exact R]|by eapply reads_headers_same; [|exact R]].
Qed.

Lemma value_end n p x pr : inv n x -> param x <> None -> b x <= p <= n -> v x <= p ->
  class_of (state x) = KParam \/ class_of (state x) = KHeaders ->
  returns (y ← param_set p x; Ret (inr (match pr with Some k => on_uri (set_proto k) y | None => y end)))
    (good n).
Proof.
  intros. eapply returns_bind; [by apply param_set_ok|]. intros y [Hy K].
  apply returns_ret, set_proto_ok; [by rewrite K|done].
Qed.

Lemma value_cases_ok pr p x d : in_pars p x -> param x <> None ->
  (at_ p <> §"@" -> at_ p <> §"?" -> good (p + 1) d) ->
  returns (value_cases pr p (at_ p) x d) (good (p + 1)).
Proof.
  intros H Hn Hd. pose proof (ip_base _ _ H) as [_ ? ? _ _ _ _]. unfold value_cases.
  repeat case_test; bool_to_prop; try apply returns_ret; auto.
  - by apply params_at_user.
  - destruct (no_pass_same x) as (_ & _ & Ep).
    apply value_end; [by apply params_semicolon| | | |by left]; unfold semicolon_case, no_pass in *;
      destruct (pass x); simpl in *; by try lia.
  - apply value_end; [by apply params_question| | | |right]; unfold question_case, no_pass; simpl;
      destruct (pass x); simpl in *; by try lia.
  - apply params_colon; auto.
Qed.

(** A byte that only moves the machine inside the parameters. *)
Lemma params_stay p x y : in_pars p x -> at_ p <> §"@" -> at_ p <> §"?" ->
  uri y = uri x -> s y = s x -> found_user y = found_user x -> pass y = pass x ->
  0 <= b y <= p + 1 -> 0 <= v y <= p + 1 ->
  class_of (state y) = KParam \/ class_of (state y) = KValue /\ param y <> None ->
  inv (p + 1) y.
Proof.
  intros [Hb C R] ? ? Eu Es Ef Ep ? ? K. apply (base_mono p (p + 1)) in Hb as [? ? ? Hp Hv Hu Hq]; [|lia]. split.
  - constructor; rewrite ?Es, ?Eu, ?Ef, ?Ep; auto.
  - assert (reads_params (p + 1) y).
    { eapply reads_params_same; [|by apply reads_params_next]. unfold same_parts. by rewrite Eu. }
    unfold reads. by destruct K as [->|[-> ?]].
Qed.

Lemma in_pars_bounds p x : in_pars p x -> 0 <= p /\ 0 <= b x <= p /\ 0 <= v x <= p.
Proof. intros [[]]. lia. Qed.

Definition plain_chars (K : class) (l : list (list Z * states)) : Prop :=
  Forall (fun y => class_of y.2 = K /\ ~ In §"@" y.1 /\ ~ In §"?" y.1) l.

Lemma find_plain K l c y : plain_chars K l -> find (fun y => is_ch c y.1) l = Some y ->
  class_of y.2 = K /\ c <> §"@" /\ c <> §"?".
Proof.
  intros Hl Hf. apply find_some in Hf as [Hi Hc]. unfold plain_chars in Hl. rewrite List.Forall_forall in Hl.
  destruct (Hl y Hi) as (? & N1 & N2). apply existsb_exists in Hc as (a & Ha & E). apply Z.eqb_eq in E. subst a.
  repeat split; [done| |]; intros ->; auto.
Qed.

Lemma param_switch_ok p x l : in_pars p x -> plain_chars KParam l ->
  good (p + 1) (param_switch l p (at_ p) x).
Proof.
  intros H Hl. destruct (in_pars_bounds p x H) as (? & ? & ?). unfold param_switch.
  destruct (find _ l) as [y|] eqn:E.
  - destruct (find_plain _ _ _ _ Hl E) as (K & ? & ?). apply (params_stay p x); simpl; auto; lia.
  - apply param_common_ok; [done|]. intros. apply (params_stay p x); simpl; auto; lia.
Qed.

Lemma value_switch_ok p x l : in_pars p x -> param x <> None -> plain_chars KValue l ->
  returns (value_switch l p (at_ p) x) (good (p + 1)).
Proof.
  intros H Hn Hl. destruct (in_pars_bounds p x H) as (? & ? & ?). unfold value_switch.
  destruct (find _ l) as [y|] eqn:E.
  - destruct (find_plain _ _ _ _ Hl E) as (K & ? & ?).
    apply returns_ret, (params_stay p x); simpl; auto; lia.
  - apply value_cases_ok; [done..|]. intros. apply (params_stay p x); simpl; auto; lia.
Qed.

Lemma transport_fin_ok pr p x : in_pars p x -> param x <> None ->
  returns (transport_fin pr p (at_ p) x) (good (p + 1)).
Proof.
  intros H Hn. destruct (in_pars_bounds p x H) as (? & ? & ?). apply value_cases_ok; [done..|].
  intros. apply (params_stay p x); simpl; auto; lia.
Qed.

Lemma for_param_in p x i : in_pars p x -> in_pars p (for_param i x).
Proof. intros [[] C R]. split; [by constructor|done|]. by eapply reads_params_same; [|exact R]. Qed.

Lemma value_start_ok i p x : in_pars p x -> good (p + 1) (value_start i p (at_ p) x).
Proof.
  intros H. destruct (in_pars_bounds p x H) as (? & ? & ?). unfold value_start.
  apply param_common_ok; [by apply for_param_in|].
  intros. apply (params_stay p x); simpl; auto; lia.
Qed.

(** Recording a parameter that ends at [p]. *)
Lemma set_par_ok n p i x : inv n x -> b x <= p <= n ->
  class_of (state x) = KParam \/ class_of (state x) = KHeaders ->
  inv n (on_uri (set_par i (Some (b x, p - b x))) x).
Proof.
  intros [[? ? ? Hp Hv Hu Hq] R] ? K. split.
  - constructor; simpl; auto. intros j. case_decide; simpl; [lia|auto].
  - unfold reads in *. simpl. destruct K as [K|K]; rewrite K in *;
      [by eapply reads_params_same; [|exact R]|by eapply reads_headers_same; [|exact R]].
Qed.

Lemma flag_fin_ok i q p x : in_pars p x -> class_of q = KParam ->
  good (p + 1) (flag_fin i q p (at_ p) x).
Proof.
  intros H Kq. destruct (in_pars_bounds p x H) as (? & ? & ?). unfold flag_fin.
  repeat case_test; bool_to_prop.
  - by apply params_at_user.
  - apply (params_stay p x); simpl; rewrite ?Heqb1; auto; lia.
  - apply set_par_ok; [by apply params_semicolon| |by left].
    unfold semicolon_case, no_pass. destruct (pass x); simpl; lia.
  - apply set_par_ok; [by apply params_question| |right]; unfold question_case, no_pass; simpl;
      destruct (pass x); simpl; by try lia.
  - apply params_colon; auto.
  - apply (params_stay p x); simpl; auto; lia.
Qed.

(** *** The other states *)

Lemma is_ch_false c l : is_ch c l = false -> ~ In c l.
Proof.
  intros H I. apply Bool.not_true_iff_false in H. apply H. apply existsb_exists. exists c.
  split; [done|apply Z.eqb_refl].
Qed.

Lemma none_text h p : none [§"@"; §";"; §"?"] h p -> none [§"@"] h p.
Proof. intros H. eapply none_sub; [exact H|lia|lia|]. intros c. simpl. intuition. Qed.

(** The host is over. *)
Definition ends_with (q : states) (c : Z) : Prop :=
  q = URI_PORT /\ c = §":" \/ q = URI_PARAM /\ c = §";" \/ q = URI_HEADERS /\ c = §"?".

Lemma end_host_ok p x q : base p x -> class_of (state x) <> KPass ->
  auth (s x) (uri x) -> no_host (uri x) -> host_text (s x) p -> ends_with q (at_ p) ->
  inv (p + 1) (end_host q p x).
Proof.
  intros Hb C A (Eh & Ep & Es & Et) T K. pose proof (base_s _ _ Hb).
  assert (M : none [§"@"] (s x) (p + 1)).
  { apply none_snoc; [apply none_text, T|]. simpl. unfold ends_with in K. intuition congruence. }
  assert (Hh : hosted (s x) p (set_host (Some (s x, p - s x)) (uri x))).
  { unfold hosted. simpl. rewrite Ep. replace (s x + (p - s x)) with p by lia. repeat split; try lia; apply T. }
  split.
  - apply (base_mono p (p + 1)) in Hb as [? ? ? Hp Hv Hu Hq]; [|lia]. constructor; simpl; auto. lia.
  - unfold ends_with in K. destruct K as [(-> & K)|[(-> & K)|(-> & K)]]; unfold reads; simpl.
    + exists (s x), (p - s x). replace (s x + (p - s x)) with p by lia.
      repeat split; auto; try lia; apply T.
    + exists (s x), p. split_and!; auto; try lia; [done|apply none_nil].
    + exists (s x), p, p. unfold with_params. simpl. rewrite Es. split_and!; auto; lia.
Qed.

(** The port is over. *)
Lemma end_port_ok p x y h l q : base p x -> auth h (uri y) -> p0 <= h -> 0 <= l ->
  host (uri y) = Some (h, l) -> host_text h (h + l) -> at_ (h + l) = §":" -> s x = h + l + 1 ->
  port (uri y) = Some (s x, p - s x) -> no_tail (uri y) ->
  (forall k, s x <= k < p -> is_digit (at_ k) = true) -> none [§"@"] h p ->
  b y = b x -> v y = v x -> par (uri y) = par (uri x) -> val (uri y) = val (uri x) ->
  (found_user y = false -> user (uri y) = None /\ passwd (uri y) = None) ->
  (found_user y = false -> found_user x = false) -> pass y = pass x ->
  s y = p + 1 -> state y = q -> ends_with q (at_ p) -> q <> URI_PORT -> inv (p + 1) y.
Proof.
  intros Hb A ? ? Eh T Ec Es Ep [E1 E2] D M Eb Ev Epa Eva F1 F2 Epass Ey Eq K NP. pose proof (base_s _ _ Hb).
  assert (Hh : hosted h p (uri y)).
  { unfold hosted. rewrite Eh, Ep. split_and!; auto; lia. }
  assert (M' : none [§"@"] h (p + 1)).
  { apply none_snoc; [done|]. simpl. unfold ends_with in K. intuition congruence. }
  split.
  - apply (base_mono p (p + 1)) in Hb as [? ? ? Hp Hv Hu Hq]; [|lia].
    constructor; rewrite ?Eb, ?Ev, ?Epa, ?Eva, ?Ey, ?Epass; auto. lia.
  - unfold reads. rewrite Eq. unfold ends_with in K. destruct K as [(-> & K)|[(-> & K)|(-> & K)]]; [done|..]; simpl.
    + exists h, p. rewrite Ey. split_and!; auto; [done|apply none_nil].
    + exists h, p, p. unfold with_params. rewrite Ey, E1. split_and!; auto.
Qed.

Lemma init_ok p x : inv p x -> state x = URI_INIT ->
  returns (step p (at_ p) x) (good (p + 1)).
Proof.
  intros [Hb R] Q. unfold reads in R. unfold step. rewrite Q in *. simpl in R.
  destruct R as (S & -> & F & (Eh & Ep & Es & Et)). pose proof (base_user _ _ Hb F) as U. rewrite Q in U.
  destruct U as [U W]; [done|]. pose proof (base_mono _ (p0 + 1) _ Hb ltac:(lia)) as [? ? ? Hp Hv Hu Hq].
  repeat case_test; apply returns_ret; try done; bool_to_prop; split; try (constructor; simpl; auto; lia);
    unfold reads; simpl.
  - unfold reads_host, auth, no_host, no_tail. simpl. rewrite U, W. split_and!; auto using none_first; lia.
  - split_and!; auto using none_first. done.
Qed.

Ltac inspect := repeat case_test; apply returns_ret; try done;
  repeat match goal with H : is_ch _ _ = false |- _ => apply is_ch_false in H; simpl in H end; bool_to_prop.
Ltac not_in := simpl in *; intuition congruence.

Lemma user_ok p x : inv p x -> state x = URI_USER -> returns (step p (at_ p) x) (good (p + 1)).
Proof.
  intros [Hb R] Q. unfold reads in R. unfold step. rewrite Q in *. simpl in R.
  destruct R as (S & F & NH & M). pose proof NH as (Eh & Ep & Es & Et). pose proof (base_s _ _ Hb).
  destruct (base_user _ _ Hb F) as [U W]; [by rewrite Q|].
  assert (A : auth (s x) (uri x)) by (unfold auth; by rewrite U, W).
  assert (T : host_text (s x) p).
  { rewrite S. split; [|left]; (eapply none_sub; [exact M|lia|lia|]; intros c; simpl; intuition). }
  pose proof (base_mono _ (p + 1) _ Hb ltac:(lia)) as [? ? ? Hp Hv Hu Hq].
  inspect.
  - split; [constructor; simpl; auto; lia|]. unfold reads, reads_host, auth, no_host, no_tail. simpl.
    rewrite W, S. replace (p0 + (p - p0)) with p by lia. split_and!; auto; try lia. apply none_nil.
  - split; [constructor; simpl; auto; try lia; done|]. unfold reads, no_host, no_tail. simpl.
    exists (p - p0). rewrite S. replace (p0 + (p - p0)) with p by lia. split_and!; auto; try lia.
    + apply none_snoc; [|not_in]. eapply none_sub; [exact M|lia|lia|]. intros c; simpl; intuition.
    + eapply none_sub; [exact M|lia|lia|]. intros c; simpl; intuition.
  - apply end_host_ok; auto; [by rewrite Q|unfold ends_with; auto].
  - apply end_host_ok; auto; [by rewrite Q|unfold ends_with; auto].
  - split; [done|]. unfold reads. rewrite Q. simpl. split_and!; auto. apply none_snoc; [done|not_in].
Qed.

Lemma pass_done p x y l : base p x -> user (uri x) = Some (p0, l) -> 0 <= l -> at_ (p0 + l) = §":" ->
  s x = p0 + l + 1 -> no_host (uri x) -> at_ p = §"@" ->
  uri y = set_passwd (Some (s x, p - s x)) (uri x) -> s y = p + 1 -> state y = URI_HOST ->
  found_user y = true -> b y = b x -> v y = v x -> inv (p + 1) y.
Proof.
  intros Hb U ? Ec Es (Eh & Ep & E1 & E2) E Eu Ey Eq Ef Eb Ev. pose proof (base_s _ _ Hb).
  apply (base_mono p (p + 1)) in Hb as [? ? ? Hp Hv Hu Hq]; [|lia]. split.
  - constructor; rewrite ?Ey, ?Eb, ?Ev, ?Eu, ?Ef; simpl; auto; try lia; done.
  - unfold reads. rewrite Eq. simpl. unfold reads_host, auth, no_host, no_tail. rewrite Eu, Ey. simpl.
    rewrite U. replace (s x + (p - s x)) with p by lia. split_and!; auto; try lia. apply none_nil.
Qed.

Lemma password_ok p x : inv p x -> state x = URI_PASSWORD -> returns (step p (at_ p) x) (good (p + 1)).
Proof.
  intros [Hb R] Q. unfold reads in R. unfold step. rewrite Q in *. simpl in R.
  destruct R as (l & U & ? & Ec & S & W & NH & F & M & T & D). specialize (D eq_refl).
  pose proof NH as (Eh & Ep & Es & Et). pose proof (base_s _ _ Hb).
  assert (HT : host_text p0 (p0 + l)).
  { split; [|left; eapply none_sub; [exact T|lia|lia|]; intros c; simpl; intuition].
    intros k ? ? I. simpl in I. destruct I as [I|I]; [apply (M k); [lia|done|simpl; auto]|].
    apply (T k); [lia|done|simpl; intuition]. }
  pose proof (base_mono _ (p + 1) _ Hb ltac:(lia)) as [? ? ? Hp Hv Hu Hq].
  inspect.
  - by apply (pass_done p x _ l).
  - eapply (end_port_ok p x _ p0 l URI_PARAM); simpl; rewrite ?U, ?W, ?F; auto; try lia;
      unfold auth, no_tail, ends_with; simpl; rewrite ?W; auto; done.
  - eapply (end_port_ok p x _ p0 l URI_HEADERS); simpl; rewrite ?U, ?W, ?F; auto; try lia;
      unfold auth, no_tail, ends_with; simpl; rewrite ?W; auto; done.
  - split; [by constructor|]. unfold reads, case_port. simpl. rewrite Q. simpl. exists l. split_and!; auto.
    + apply none_snoc; [done|]. simpl. unfold is_digit in *. bool_to_prop. lia.
    + intros _. by apply digits_snoc.
  - split; [by constructor|]. unfold reads. simpl. exists l. split_and!; auto; [|done].
    apply none_snoc; [done|not_in].
Qed.

Lemma alpha_ok p x : inv p x -> state x = URI_PASSWORD_ALPHA -> returns (step p (at_ p) x) (good (p + 1)).
Proof.
  intros [Hb R] Q. unfold reads in R. unfold step. rewrite Q in *. simpl in R.
  destruct R as (l & U & ? & Ec & S & W & NH & F & M & T & _). pose proof (base_s _ _ Hb).
  pose proof (base_mono _ (p + 1) _ Hb ltac:(lia)) as Hb'.
  inspect.
  - by apply (pass_done p x _ l).
  - split; [done|]. unfold reads. rewrite Q. simpl. exists l. split_and!; auto; [|done].
    apply none_snoc; [done|not_in].
Qed.

(** The states that read the host. *)
Lemma host_ok p x : inv p x -> In (class_of (state x)) [KHost; KName; KHost6; KEnd6] ->
  returns (step p (at_ p) x) (good (p + 1)).
Proof.
  intros [Hb R] Q. pose proof (base_s _ _ Hb). pose proof (base_mono _ (p + 1) _ Hb ltac:(lia)) as Hb'.
  assert (Hg : forall q, class_of (state x) <> KPass -> base (p + 1) (goto q x)) by (intros; by apply base_goto).
  unfold reads, reads_host in R. unfold step, check_host_end.
  destruct (state x) eqn:E; simpl in R, Q; try (by intuition); clear Q;
    destruct R as (A & NH & M & P);
    assert (NM : at_ p <> §"@" -> at_ p <> §";" -> at_ p <> §"?" -> none [§"@"; §";"; §"?"] (s x) (p + 1))
      by (intros; apply none_snoc; [done|not_in]);
    inspect.
  - split; [by apply Hg|]. unfold reads. simpl. split_and!; auto; [|by rewrite <- P|lia]. apply NM; congruence.
  - split; [by apply Hg|]. unfold reads. simpl. split_and!; auto; [apply NM; not_in|].
    rewrite <- P. apply none_snoc; [apply none_nil|not_in].
  - apply end_host_ok; auto; [by rewrite E|by split; [|left]|unfold ends_with; auto].
  - apply end_host_ok; auto; [by rewrite E|by split; [|left]|unfold ends_with; auto].
  - apply end_host_ok; auto; [by rewrite E|by split; [|left]|unfold ends_with; auto].
  - split; [done|]. unfold reads. rewrite E. simpl. split_and!; auto; [apply NM; not_in|].
    apply none_snoc; [done|not_in].
  - split; [by apply Hg|]. unfold reads. simpl. destruct P. split_and!; auto; [apply NM; congruence| |lia].
    by replace (p + 1 - 1) with p by lia.
  - split; [done|]. unfold reads. rewrite E. simpl. destruct P. split_and!; auto; [|lia]. apply NM; not_in.
  - apply end_host_ok; auto; [by rewrite E|by split; [|right]|unfold ends_with; auto].
  - apply end_host_ok; auto; [by rewrite E|by split; [|right]|unfold ends_with; auto].
  - apply end_host_ok; auto; [by rewrite E|by split; [|right]|unfold ends_with; auto].
Qed.

Lemma port_ok p x : inv p x -> state x = URI_PORT -> returns (step p (at_ p) x) (good (p + 1)).
Proof.
  intros [Hb R] Q. unfold reads in R. unfold step. rewrite Q in *. simpl in R.
  destruct R as (h & l & A & Eh & ? & T & Ec & S & Ep & NT & D & ? & M). pose proof (base_s _ _ Hb).
  assert (U : found_user x = false -> user (uri x) = None /\ passwd (uri x) = None).
  { intros F. apply (base_user _ _ Hb F). by rewrite Q. }
  pose proof (base_mono _ (p + 1) _ Hb ltac:(lia)) as [? ? ? Hp Hv Hu Hq].
  inspect.
  - eapply (end_port_ok p x _ h l URI_PARAM); simpl; auto; unfold ends_with; auto; done.
  - eapply (end_port_ok p x _ h l URI_HEADERS); simpl; auto; unfold ends_with; auto; done.
  - split; [by constructor|]. unfold reads, case_port. simpl. rewrite Q. simpl. exists h, l. split_and!; auto.
    + by apply digits_snoc.
    + apply none_snoc; [done|]. simpl. unfold is_digit in *. bool_to_prop. lia.
Qed.

Lemma headers_ok p x : inv p x -> state x = URI_HEADERS -> returns (step p (at_ p) x) (good (p + 1)).
Proof.
  intros [Hb R] Q. unfold reads in R. unfold step. rewrite Q in *. simpl in R. pose proof (base_s _ _ Hb).
  pose proof (base_mono _ (p + 1) _ Hb ltac:(lia)) as Hb'.
  assert (N : at_ p <> §"@" -> reads_headers (p + 1) x) by (by apply reads_headers_next).
  repeat case_test; apply returns_ret; try done; bool_to_prop.
  - pose proof R as (h & e & f & A & Hh & _). unfold hosted in Hh.
    destruct (host (uri x)) as [[hs hl]|] eqn:Eh; [|done]. destruct Hh as (-> & _).
    eapply still_at_user_ok; [done|by rewrite Q|done|lia| |done]. intros F.
    destruct (base_user _ _ Hb F) as [U W]; [by rewrite Q|]. unfold auth in A. by rewrite U, W in A.
  - split; [destruct Hb'; by constructor|]. unfold reads. simpl. rewrite Q. apply N. congruence.
  - destruct (colon_pass_same p x) as (S1 & S2 & _). split; [by apply colon_pass_base; [|lia|]|].
    unfold reads. rewrite S2, Q. eapply reads_headers_same; [exact S1|]. apply N. congruence.
  - destruct (no_pass_same x) as (S1 & S2 & _). split; [by apply no_pass_base|].
    unfold reads. rewrite S2, Q. eapply reads_headers_same; [exact S1|]. apply N. congruence.
  - split; [done|]. unfold reads. rewrite Q. by apply N.
Qed.

Lemma inv_pars p x : inv p x -> class_of (state x) = KParam \/ class_of (state x) = KValue ->
  in_pars p x /\ (class_of (state x) = KValue -> param x <> None).
Proof.
  intros [Hb R] K. unfold reads in R. destruct K as [K|K]; rewrite K in R.
  - split; [split; [done|by rewrite K|done]|by rewrite K].
  - destruct R. split; [split; [done|by rewrite K|done]|done].
Qed.

Ltac plain := unfold plain_chars; repeat constructor; simpl; lia.

Lemma step_ok p x : inv p x -> returns (step p (at_ p) x) (good (p + 1)).
Proof.
  intros H. pose proof H as [Hb R]. pose proof (inv_pars p x H) as HP.
  destruct (class_of (state x)) eqn:K.
  - apply init_ok; [done|]. by destruct (state x).
  - apply user_ok; [done|]. by destruct (state x).
  - destruct (state x) eqn:Q; try done; [by apply password_ok|by apply alpha_ok].
  - apply host_ok; [done|]. rewrite K. simpl; auto.
  - apply host_ok; [done|]. rewrite K. simpl; auto.
  - apply host_ok; [done|]. rewrite K. simpl; auto.
  - apply host_ok; [done|]. rewrite K. simpl; auto.
  - apply port_ok; [done|]. by destruct (state x).
  - destruct HP as [I _]; [auto|]. destruct (in_pars_bounds p x I) as (? & ? & ?).
    unfold step. destruct (state x) eqn:Q; try discriminate K; apply returns_ret;
      lazymatch goal with
      | |- good _ (param_switch _ _ _ _) => apply param_switch_ok; [exact I|plain]
      | |- good _ (value_start _ _ _ _) => apply value_start_ok; exact I
      | |- good _ (flag_fin _ _ _ _ _) => apply flag_fin_ok; [exact I|reflexivity]
      | |- _ => idtac
      end.
    + apply param_common_ok; [done|]. intros. repeat case_test; apply (params_stay p x); simpl; auto; lia.
    + apply param_common_ok; [done|]. intros. apply (params_stay p x); simpl; rewrite ?Q; auto; lia.
    + apply param_common_ok; [by apply for_param_in|]. intros.
      repeat case_test; apply (params_stay p x); simpl; auto; lia.
  - destruct HP as [I N]; [auto|]. specialize (N eq_refl). destruct (in_pars_bounds p x I) as (? & ? & ?).
    unfold step. destruct (state x) eqn:Q; try discriminate K;
      lazymatch goal with
      | |- returns (value_switch _ _ _ _) _ => apply value_switch_ok; [exact I|exact N|plain]
      | |- returns (transport_fin _ _ _ _) _ => apply transport_fin_ok; [exact I|exact N]
      | |- _ => idtac
      end.
    apply value_cases_ok; [done..|]. intros. apply (params_stay p x); simpl; rewrite ?Q; auto; lia.
  - apply headers_ok; [done|]. by destruct (state x).
Qed.

Lemma loop_ok rest p x : inv p x -> 0 <= p -> rest = drop (Z.to_nat p) buf -> p + zlen rest = zlen buf ->
  returns (loop p rest x) (fun o => match o with inl f => p <= f.2 < zlen buf | inr y => inv (zlen buf) y end).
Proof.
  revert p x. induction rest as [|c rest IH]; intros p x H ? E L; simpl.
  - apply returns_ret. by replace (zlen buf) with p by (unfold zlen in *; simpl in L; lia).
  - assert (Hc : c = at_ p).
    { unfold byte. rewrite (nth_lookup_Some buf _ _ c); [done|].
      rewrite <- (Nat.add_0_r (Z.to_nat p)), <- lookup_drop, <- E. done. }
    subst c. rewrite zlen_cons in L. pose proof (zlen_nonneg rest).
    eapply returns_bind; [by apply step_ok|]. intros [e|y] G; [apply returns_ret; simpl; lia|].
    eapply returns_impl; [apply (IH (p + 1) y); [done|lia| |lia]|intros [f|z] X; [lia|done]].
    replace (Z.to_nat (p + 1)) with (1 + Z.to_nat p)%nat by lia.
    by rewrite Nat.add_comm, <- drop_drop, <- E.
Qed.

(** *** The type *)

(** The type of the URI, set from its scheme, stays. *)
Definition typed (t : uri_type) {E} (o : E + st) : Prop := match o with inl _ => True | inr y => type (uri y) = t end.

Ltac type_stays :=
  repeat (case_test || (match goal with |- context [match ?x with Some _ => _ | None => _ end] => destruct x end)); simpl;
  first [done | by apply may_ret | intros ? [= <-]; simpl; done].

Lemma type_still p x : typed (type (uri x)) (still_at_user p x).
Proof. unfold still_at_user. type_stays. Qed.

Lemma type_semicolon x : type (uri (semicolon_case x)) = type (uri x).
Proof. unfold semicolon_case, no_pass. by destruct (pass x). Qed.

Lemma type_question p x : type (uri (question_case p x)) = type (uri x).
Proof. unfold question_case, no_pass. simpl. by destruct (pass x). Qed.

Lemma type_colon p x : type (uri (colon_case p x)) = type (uri x).
Proof. unfold colon_case, colon_pass. destruct (found_user x), (pass x); done. Qed.

Lemma type_common p c x d : typed (type (uri x)) d -> typed (type (uri x)) (param_common_cases p c x d).
Proof.
  intros Hd. unfold param_common_cases. repeat case_test; [apply type_still|apply type_semicolon|apply type_question|apply type_colon|done].
Qed.

Lemma type_param_set p x : may_return (param_set p x) (fun y => type (uri y) = type (uri x)).
Proof. unfold param_set. destruct (param x); [by apply may_ret|done]. Qed.

Lemma type_values pr p c x d : typed (type (uri x)) d -> may_return (value_cases pr p c x d) (typed (type (uri x))).
Proof.
  intros Hd. unfold value_cases. repeat case_test; try apply may_ret; [apply type_still| | |apply type_colon|done].
  - eapply may_bind; [apply type_param_set|]. intros y Hy. apply may_ret. rewrite type_semicolon in Hy. by destruct pr.
  - eapply may_bind; [apply type_param_set|]. intros y Hy. apply may_ret. rewrite type_question in Hy. by destruct pr.
Qed.

Lemma type_flag i eq p c x : typed (type (uri x)) (flag_fin i eq p c x).
Proof.
  unfold flag_fin. repeat case_test; [apply type_still|done|apply (type_semicolon x)|apply (type_question p x)|apply type_colon|done].
Qed.

Lemma type_step p c x : may_return (step p c x) (typed (type (uri x))).
Proof.
  unfold step, param_switch, value_switch, transport_fin, value_start, check_host_end.
  destruct (state x); repeat first [
    match goal with
    | |- may_return (value_cases _ _ _ _ _) _ => apply type_values; done
    | |- may_return (Ret (param_common_cases _ _ ?y _)) _ => apply may_ret, (type_common _ _ y); repeat case_test; done
    | |- may_return (Ret (still_at_user _ _)) _ => apply may_ret, type_still
    | |- context [find ?f ?l] => destruct (find f l)
    end | apply may_ret; done | case_test ].
  all: apply may_ret.
  - unfold colon_pass. destruct (found_user x), (pass x); done.
  - unfold no_pass. by destruct (pass x).
  - apply type_flag.
  - apply type_flag.
Qed.

Lemma type_loop t w p x : type (uri x) = t -> may_return (loop p w x) (typed t).
Proof.
  intros <-. revert p x. induction w as [|c w IH]; intros p x; simpl; [by apply may_ret|].
  eapply may_bind; [by apply type_step|]. intros [e|y] G; [by apply may_ret|]. rewrite <- G. apply IH.
Qed.

Lemma type_finish t n x : type (uri x) = t -> may_return (finish n x) (typed t).
Proof.
  intros <-.
  assert (F : forall pr, may_return (y ← param_set n (end_params n x);
             Ret (inr (match pr with Some k => on_uri (set_proto k) y | None => y end))) (typed (E := uri_error) (type (uri x)))).
  { intros pr. eapply may_bind; [apply type_param_set|]. intros y Hy. apply may_ret. by destruct pr. }
  unfold finish. destruct (state x); first [exact (F None) | exact (F (Some _)) | repeat case_test; by apply may_ret].
Qed.

Lemma returns_both {A} (m : res A) Q R : returns m Q -> may_return m R -> returns m (fun a => Q a /\ R a).
Proof. intros (a & E & Ha) Hr. exists a. auto. Qed.

(** *** The end of the URI *)

(** The parts of the URI, and the parameters inside it. *)
Definition parsed (n : Z) (u : sip_uri) : Prop :=
  layout n u /\ (forall i, span_in n (par u i)) /\ (forall i, span_in n (val u i)).

Definition final (n : Z) (o : outcome) : Prop := match o with inl _ => True | inr y => parsed n (uri y) end.

Lemma end_params_ok n x : inv n x -> class_of (state x) = KParam \/ class_of (state x) = KValue ->
  parsed n (uri (end_params n x)).
Proof.
  intros H K. destruct (inv_pars n x H K) as [[Hb _ R] _]. destruct R as (h & e & A & Hh & E & S & [T1 T2] & Q & L & M).
  destruct Hb as [? ? ? Hp Hv _ _]. split; [|by split]. exists h, e, n. unfold with_params, with_headers. simpl.
  rewrite T2, S in *. split_and!; auto; lia.
Qed.

Lemma set_par_parsed n i o l u : parsed n u -> 0 <= o -> 0 <= l -> o + l <= n ->
  parsed n (set_par i (Some (o, l)) u).
Proof.
  intros (L & Hp & Hv) ? ? ?. split; [exact L|]. split; [|exact Hv].
  intros j. simpl. case_decide; simpl; [lia|auto].
Qed.

Lemma set_val_parsed n i o l u : parsed n u -> 0 <= o -> 0 <= l -> o + l <= n ->
  parsed n (set_val i (Some (o, l)) u).
Proof.
  intros (L & Hp & Hv) ? ? ?. split; [exact L|]. split; [exact Hp|].
  intros j. simpl. case_decide; simpl; [lia|auto].
Qed.

Lemma finish_value n x pr : inv n x -> class_of (state x) = KValue ->
  returns (y ← param_set n (end_params n x);
           Ret (inr (match pr with Some k => on_uri (set_proto k) y | None => y end))) (final n).
Proof.
  intros H K. pose proof (end_params_ok n x H (or_intror K)) as P.
  destruct (inv_pars n x H (or_intror K)) as [[[? ? ? _ _ _ _] _ _] N]. specialize (N K).
  unfold param_set. simpl. destruct (param x) as [i|]; [|done]. apply returns_ret.
  assert (parsed n (set_val i (Some (v x, n - v x)) (set_par i (Some (b x, n - b x)) (uri (end_params n x)))))
    by (apply set_val_parsed; [apply set_par_parsed|..]; try done; lia).
  by destruct pr.
Qed.

Lemma finish_flag n x i : inv n x -> class_of (state x) = KParam -> parsed n (uri (end_flag i n x)).
Proof.
  intros H K. destruct H as [Hb R]. pose proof (base_b _ _ Hb). apply set_par_parsed; simpl; try lia.
  by apply end_params_ok; [|left].
Qed.

Lemma finish_host n x : inv n x -> In (class_of (state x)) [KUser; KName; KEnd6] ->
  parsed n (set_host (Some (s x, n - s x)) (uri x)).
Proof.
  intros [[Hs ? ? Hp Hv Hu _] R] K. split; [|by split]. exists (s x), n, n.
  unfold hosted, with_params, with_headers. simpl. unfold reads, reads_host in R.
  destruct (class_of (state x)) eqn:C; simpl in K; try (by intuition);
    replace (s x + (n - s x)) with n by lia.
  - destruct R as (S & F & (_ & -> & -> & ->) & M). destruct (Hu F) as [U W]; [done|].
    unfold auth, host_text. simpl. rewrite U, W, S.
    split_and!; auto; try lia; try left; (eapply none_sub; [exact M|lia|lia|]; intros c; simpl; intuition).
  - destruct R as (A & (_ & -> & -> & ->) & M & P). split_and!; auto; try lia; [by split; [|left]|].
    by apply none_text.
  - destruct R as (A & (_ & -> & -> & ->) & M & P). split_and!; auto; try lia; [by split; [|right]|].
    by apply none_text.
Qed.

Lemma finish_port n x : inv n x -> state x = URI_PORT -> parsed n (uri (end_port n x)).
Proof.
  intros [[Hs ? ? Hp Hv Hu _] R] Q. unfold reads in R. rewrite Q in R. simpl in R.
  destruct R as (h & l & A & Eh & ? & T & Ec & S & Ep & [E1 E2] & D & ? & M).
  split; [|by split]. exists h, n, n. unfold hosted, with_params, with_headers. simpl.
  rewrite Eh, E1, E2. split_and!; auto; lia.
Qed.

Lemma finish_pass n x : inv n x -> state x = URI_PASSWORD -> parsed n (uri (user_is_host (end_port n x))).
Proof.
  intros [[Hs ? ? Hp Hv Hu _] R] Q. unfold reads in R. rewrite Q in R. simpl in R.
  destruct R as (l & U & ? & Ec & S & W & (_ & _ & E1 & E2) & F & M & T & D). specialize (D eq_refl).
  split; [|by split]. exists p0, n, n. unfold auth, hosted, with_params, with_headers, host_text. simpl.
  rewrite U, W, E1, E2. split_and!; auto; try lia.
  - intros k ? ? I. simpl in I. destruct I as [I|I]; [apply (M k); [lia|done|simpl; auto]|].
    apply (T k); [lia|done|simpl; intuition].
  - left. eapply none_sub; [exact T|lia|lia|]; intros c; simpl; intuition.
Qed.

Lemma finish_headers n x : inv n x -> state x = URI_HEADERS ->
  parsed n (set_headers (Some (s x, n - s x)) (uri x)).
Proof.
  intros [[Hs ? ? Hp Hv Hu _] R] Q. unfold reads in R. rewrite Q in R. simpl in R.
  destruct R as (h & e & f & A & Hh & P & E & S & _ & L & M).
  split; [|by split]. exists h, e, f. unfold with_headers. simpl. split_and!; auto; lia.
Qed.

Lemma finish_ok n x : inv n x -> returns (finish n x) (final n).
Proof.
  intros H. unfold finish.
  destruct (state x) eqn:Q;
    lazymatch goal with
    | |- returns (Ret (inl _)) _ => by apply returns_ret
    | |- returns (Ret (inr (end_params _ _))) _ =>
        apply returns_ret, end_params_ok; [exact H|rewrite Q; left; reflexivity]
    | |- returns (Ret (inr (end_flag _ _ _))) _ =>
        apply returns_ret, finish_flag; [exact H|rewrite Q; reflexivity]
    | |- returns (mbind _ (param_set _ _)) _ =>
        first [apply (finish_value n x None) | eapply (finish_value n x (Some _))]; [exact H|rewrite Q; reflexivity]
    | |- _ => idtac
    end.
  - case_test; apply returns_ret; [done|]. simpl. apply finish_host; [done|]. rewrite Q. simpl; auto.
  - case_test; apply returns_ret; [done|]. by apply finish_pass.
  - apply returns_ret. apply finish_host; [done|]. rewrite Q. simpl; auto.
  - apply returns_ret. apply finish_host; [done|]. rewrite Q. simpl; auto.
  - apply returns_ret. by apply finish_port.
  - simpl. case_test; apply returns_ret; [done|]. by apply finish_headers.
Qed.

Lemma parse_body_ok t : p0 <= zlen buf ->
  returns (parse_body p0 t buf) (fun r =>
    match r with
    | inl f => p0 <= f.2 <= zlen buf
    | inr u => exists u0, parsed (zlen buf) u0 /\ type u0 = t /\ u = fix_type buf u0
    end).
Proof.
  intros L. unfold parse_body. eapply returns_bind.
  - apply returns_both; [|by apply (type_loop t)]. apply loop_ok; [|done|done|].
    + split; [by constructor; simpl; try lia; done|]. unfold reads. simpl. done.
    + unfold zlen in *. rewrite length_drop. lia.
  - intros [f|x] [G Gt]; [apply returns_ret; lia|]. eapply returns_bind; [apply returns_both; [by apply finish_ok|by apply (type_finish t)]|].
    intros [e|y] [P Pt]; apply returns_ret; [simpl; lia|]. simpl in Pt. destruct (type (uri y)) eqn:Ey; [simpl; lia|exists (uri y); rewrite Ey; done..].
Qed.
End Layout.

(** ** Fields inside the URI *)

Lemma layout_in buf p0 n u : 0 <= p0 -> parsed buf p0 n u -> uri_in n u.
Proof.
  intros N0 ((h & e & f & A & Hh & P & H & L & _) & Hp & Hv).
  unfold auth, hosted, with_params, with_headers in *.
  destruct (host u) as [[hs hl]|] eqn:Eh; [|done]. destruct Hh as (-> & ? & _ & Hport).
  assert (h + hl <= e /\ e <= f /\ f <= n) as (? & ? & ?).
  { destruct (port u) as [[]|], (params u) as [[]|], (headers u) as [[]|]; lia. }
  split; auto; rewrite ?Eh; simpl.
  - destruct (user u) as [[us ul]|]; [|done]. simpl. destruct (passwd u) as [[ws wl]|]; lia.
  - destruct (passwd u) as [[ws wl]|]; [|done]. simpl. destruct (user u) as [[us ul]|]; [lia|done].
  - lia.
  - destruct (port u) as [[]|]; [|done]. simpl. lia.
  - destruct (params u) as [[]|]; [|done]. simpl. lia.
  - destruct (headers u) as [[]|]; [|done]. simpl. lia.
Qed.

Lemma q_memchr_bound s c i : q_memchr s c = Some i -> Z.of_nat i < zlen s.
Proof.
  revert i. induction s as [|x s IH]; simpl; intros i E; [done|]. rewrite zlen_cons.
  case_test; simplify_eq/=; [pose proof (zlen_nonneg s); lia|].
  apply fmap_Some in E as (j & Ej & ->). specialize (IH j Ej). lia.
Qed.

Lemma text_len buf o l : 0 <= l -> zlen (text buf (Some (o, l))) <= l.
Proof. intros. unfold text, zlen. rewrite length_take. lia. Qed.

Lemma phone_in t buf n u : uri_in n u -> uri_in n (phone t buf u).
Proof.
  intros H. pose proof H as []. unfold phone. case_test; [|done]. simpl.
  destruct (user u) as [[o l]|] eqn:Eu; [|split; simpl; rewrite ?Eu; done].
  destruct (q_memchr _ _) as [i|] eqn:Ei; [|split; simpl; rewrite ?Eu; done].
  apply q_memchr_bound in Ei. simpl in in_user0. pose proof (text_len buf o l ltac:(lia)).
  split; simpl; auto; lia.
Qed.

Lemma fix_type_in buf n u : 0 <= n -> uri_in n u -> uri_in n (fix_type buf u).
Proof.
  intros ? H. pose proof H as []. unfold fix_type.
  destruct (type u); auto using phone_in; (split; simpl; auto; lia).
Qed.

(** Where the URI of each type starts, and how its scheme is told: the first four bytes with
    the bit of lower case set. *)
Definition scheme_at (buf : bytes) (p0 : Z) (t : uri_type) : Prop :=
  t = SIP_URI_T /\ p0 = 4 /\ scheme buf = SIP_SCH \/
  t = SIPS_URI_T /\ p0 = 5 /\ scheme buf = SIPS_SCH /\ buf !! 4%nat = Some §":" \/
  t = TEL_URI_T /\ p0 = 4 /\ scheme buf = TEL_SCH.

Lemma parse_uri_ok buf :
  returns (parse_uri buf) (fun r =>
    match r with
    | inl f => 4 <= f.2 <= zlen buf \/ f.1 = error_too_short
    | inr u => exists p0 t u0, scheme_at buf p0 t /\ p0 <= zlen buf /\ parsed buf p0 (zlen buf) u0 /\ type u0 = t /\ u = fix_type buf u0
    end).
Proof.
  unfold parse_uri. destruct (Z.ltb_spec (zlen buf) 5); [apply returns_ret; by right|].
  assert (G : forall p t, scheme_at buf p t -> 4 <= p <= 5 -> returns (parse_body p t buf) (fun r =>
    match r with
    | inl f => 4 <= f.2 <= zlen buf \/ f.1 = error_too_short
    | inr u => exists p0 t u0, scheme_at buf p0 t /\ p0 <= zlen buf /\ parsed buf p0 (zlen buf) u0 /\ type u0 = t /\ u = fix_type buf u0
    end)).
  { intros p t Hs Hp. eapply returns_impl; [apply parse_body_ok; lia|]. intros [f|u]; [lia|].
    intros (u0 & ? & ? & ?). exists p, t, u0. split_and!; try done. lia. }
  repeat case_test; bool_to_prop; repeat match goal with H : bool_decide _ = true |- _ => apply bool_decide_eq_true in H end;
    first [apply returns_ret; left; simpl; lia | apply G; [unfold scheme_at; auto 10|lia]].
Qed.

(** C22: for every string, [parse_uri] returns, without writing through the null
    [param] or [param_val] it starts with; when it succeeds all fields of the result
    (user, password, host, port, parameters, headers, and the name and value of each known
    parameter) are null or lie inside the string, also after the change of a user=phone or
    tel URI; and when it fails the character it reads to print it is one of the string or the
    byte that follows it ([error_reads_past]: it may be the latter). *)
Theorem uri_fields_inside buf :
  returns (parse_uri buf) (fun r =>
    match r with
    | inl f => match printed_char f with Some q => 0 <= q <= zlen buf | None => True end
    | inr u => uri_in (zlen buf) u
    end).
Proof.
  eapply returns_impl; [apply parse_uri_ok|]. intros [[e q]|u].
  - unfold printed_char. simpl. intros [H| ->]; [|done]. assert (0 <= q <= zlen buf) by lia. by destruct e.
  - intros (p0 & t & u0 & Hs & ? & P & _ & ->). apply fix_type_in; [apply zlen_nonneg|].
    apply (layout_in buf p0); [unfold scheme_at in Hs; lia|done].
Qed.

(** A URI that ends where its host should begin, or in the digits of a port that turns out to be
    a password, is refused with the byte after its last. *)
Lemma error_reads_past : Forall (fun buf => exists f, parse_uri buf = Ret (inl f) /\ printed_char f = Some (zlen buf))
  [B "sip:a@"; B "sip:[::1"; B "sip:a:b"].
Proof. repeat constructor; eexists; (split; [vm_compute; reflexivity|reflexivity]). Qed.

(** ** The parts of a URI are the URI *)

(** A part with its separator before it. *)
Definition sep (c : Z) (buf : bytes) (x : span) : bytes :=
  match x with Some _ => c :: text buf x | None => [] end.

Definition user_part (buf : bytes) (u : sip_uri) : bytes :=
  match user u with
  | Some _ => text buf (user u) ++ sep §":" buf (passwd u) ++ [§"@"]
  | None => []
  end.

(** What follows the user. *)
Definition rest_part (buf : bytes) (u : sip_uri) : bytes :=
  text buf (host u) ++ sep §":" buf (port u) ++ sep §";" buf (params u) ++ sep §"?" buf (headers u).

Lemma byte_drop buf i : 0 <= i -> 0 <= byte buf i -> drop (Z.to_nat i) buf = byte buf i :: drop (Z.to_nat (i + 1)) buf.
Proof.
  intros ? H. unfold byte in *. destruct (decide (Z.to_nat i < length buf)%nat) as [L|L].
  - replace (Z.to_nat (i + 1)) with (S (Z.to_nat i)) by lia. apply drop_S.
    destruct (lookup_lt_is_Some_2 buf _ L) as [x E]. by rewrite (nth_lookup_Some _ _ _ _ E).
  - rewrite nth_overflow in H; lia.
Qed.

Lemma text_drop buf o l : 0 <= o -> 0 <= l ->
  drop (Z.to_nat o) buf = text buf (Some (o, l)) ++ drop (Z.to_nat (o + l)) buf.
Proof.
  intros. unfold text. replace (Z.to_nat (o + l)) with (Z.to_nat o + Z.to_nat l)%nat by lia.
  by rewrite <- drop_drop, take_drop.
Qed.

Lemma sep_drop buf c e l : 0 <= e -> 0 <= l -> 0 <= c -> byte buf e = c ->
  drop (Z.to_nat e) buf = sep c buf (Some (e + 1, l)) ++ drop (Z.to_nat (e + 1 + l)) buf.
Proof. intros ? ? ? <-. rewrite byte_drop, (text_drop buf (e + 1) l) by lia. done. Qed.

Lemma in_drop buf i x : 0 <= i -> In x (drop (Z.to_nat i) buf) -> exists k, i <= k < zlen buf /\ byte buf k = x.
Proof.
  intros ? H. apply list_elem_of_In, list_elem_of_lookup_1 in H as [j E]. rewrite lookup_drop in E.
  pose proof (lookup_lt_Some _ _ _ E). exists (i + Z.of_nat j). unfold zlen, byte. split; [lia|].
  replace (Z.to_nat (i + Z.of_nat j)) with (Z.to_nat i + j)%nat by lia. by apply nth_lookup_Some.
Qed.

Lemma in_text buf o l x : 0 <= o -> 0 <= l -> In x (text buf (Some (o, l))) ->
  exists k, o <= k < o + l /\ byte buf k = x.
Proof.
  intros ? ? H. unfold text in H. apply list_elem_of_In, list_elem_of_lookup_1 in H as [j E].
  rewrite lookup_take_Some, lookup_drop in E. destruct E as [E L]. exists (o + Z.of_nat j). unfold byte.
  split; [lia|]. replace (Z.to_nat (o + Z.of_nat j)) with (Z.to_nat o + j)%nat by lia. by apply nth_lookup_Some.
Qed.

Lemma tl_text buf o l : 0 <= o -> tl (text buf (Some (o, l))) = text buf (Some (o + 1, l - 1)).
Proof.
  intros. unfold text. replace (Z.to_nat (o + 1)) with (1 + Z.to_nat o)%nat by lia.
  rewrite Nat.add_comm, <- drop_drop. destruct (drop (Z.to_nat o) buf) as [|x r]; simpl; [by rewrite !take_nil|].
  rewrite drop_0. destruct (Z.to_nat l) as [|m] eqn:E; simpl.
  - by replace (Z.to_nat (l - 1)) with 0%nat by lia.
  - by replace (Z.to_nat (l - 1)) with m by lia.
Qed.

Lemma in_tl_text buf o l x : 0 <= o -> 0 <= l -> In x (tl (text buf (Some (o, l)))) ->
  exists k, o < k < o + l /\ byte buf k = x.
Proof.
  intros ? ? H. rewrite tl_text in H by done. destruct (decide (l = 0)) as [->|].
  - unfold text in H. by simpl in H.
  - apply in_text in H as (k & ? & ?); [|lia..]. exists k. split; [lia|done].
Qed.

(** What a host looks like; the first byte of a URI without user may be any. *)
Definition host_form (h : bytes) : Prop :=
  (forall c, In c (tl h) -> ~ In c [§"@"; §";"; §"?"]) /\
  (~ In §":" (tl h) \/ head h = Some §"[" /\ last h = Some §"]").

Lemma host_text_form buf p0 h l : 0 <= p0 <= h -> 0 <= l -> h + l <= zlen buf ->
  host_text buf p0 h (h + l) -> host_form (text buf (Some (h, l))).
Proof.
  intros ? ? L [M B]. split.
  - intros c Hc. apply in_tl_text in Hc as (k & ? & <-); [|lia..]. apply M; lia.
  - destruct B as [B|(B1 & B2 & ?)]; [left|right].
    + intros Hc. apply in_tl_text in Hc as (k & ? & E); [|lia..]. apply (B k); [lia|lia|]. simpl. auto.
    + assert (Hl : forall i c, 0 <= i < l -> byte buf (h + i) = c -> text buf (Some (h, l)) !! Z.to_nat i = Some c).
      { intros i c ? <-. unfold text, byte. apply lookup_take_Some. split; [|lia]. rewrite lookup_drop.
        replace (Z.to_nat h + Z.to_nat i)%nat with (Z.to_nat (h + i)) by lia.
        destruct (lookup_lt_is_Some_2 buf (Z.to_nat (h + i))) as [x E]; [unfold zlen in L; lia|].
        by rewrite (nth_lookup_Some _ _ _ _ E). }
      assert (Ln : length (text buf (Some (h, l))) = Z.to_nat l).
      { unfold text. rewrite length_take, length_drop. unfold zlen in L. lia. }
      split.
      * rewrite head_lookup. apply (Hl 0); [lia|]. by rewrite Z.add_0_r.
      * rewrite last_lookup, Ln. replace (pred (Z.to_nat l)) with (Z.to_nat (l - 1)) by lia.
        apply Hl; [lia|]. rewrite <- B2. f_equal. lia.
Qed.

Lemma fix_type_sip buf u : type (fix_type buf u) = SIP_URI_T \/ type (fix_type buf u) = SIPS_URI_T ->
  fix_type buf u = u.
Proof.
  unfold fix_type, phone. destruct (type u) eqn:E; simpl; rewrite ?E; try (by intuition);
    (case_test; [|done]); simpl; destruct (user u) as [[]|]; try (by intuition);
    destruct (q_memchr _ _); simpl; by intuition.
Qed.

Lemma user_drop buf p0 h u : 0 <= p0 -> auth buf p0 h u ->
  drop (Z.to_nat p0) buf = user_part buf u ++ drop (Z.to_nat h) buf.
Proof.
  intros ? A. unfold auth in A. unfold user_part.
  destruct (user u) as [[us ul]|], (passwd u) as [[ws wl]|]; [..|done|by subst].
  - destruct A as (-> & ? & Ec & -> & ? & Ea & ->). rewrite (text_drop buf p0 ul) by lia.
    rewrite (sep_drop buf §":" (p0 + ul) wl) by (done || lia). rewrite byte_drop by lia. rewrite Ea.
    by rewrite <- !app_assoc.
  - destruct A as (-> & ? & Ea & ->). rewrite (text_drop buf p0 ul), byte_drop by lia. rewrite Ea.
    by rewrite <- !app_assoc.
Qed.

Lemma host_drop buf p0 h e u : 0 <= h -> hosted buf p0 h e u ->
  drop (Z.to_nat h) buf = text buf (host u) ++ sep §":" buf (port u) ++ drop (Z.to_nat e) buf.
Proof.
  intros ? H. unfold hosted in H. destruct (host u) as [[hs hl]|]; [|done]. destruct H as (-> & ? & _ & H).
  rewrite (text_drop buf h hl) by lia. f_equal. destruct (port u) as [[ps pl]|]; [|by subst].
  destruct H as (Ec & -> & ? & -> & _). by apply sep_drop; try lia.
Qed.

Lemma params_drop buf p0 e f u : 0 <= e -> with_params buf p0 e f u ->
  drop (Z.to_nat e) buf = sep §";" buf (params u) ++ drop (Z.to_nat f) buf.
Proof.
  intros ? H. unfold with_params in H. destruct (params u) as [[o l]|]; [|by subst].
  destruct H as (Ec & -> & ? & -> & _). by apply sep_drop; try lia.
Qed.

Lemma headers_drop buf f u : 0 <= f -> with_headers buf f (zlen buf) u ->
  drop (Z.to_nat f) buf = sep §"?" buf (headers u).
Proof.
  intros ? H. unfold with_headers in H. destruct (headers u) as [[o l]|].
  - destruct H as (Ec & -> & ? & L). rewrite (sep_drop buf §"?" f l) by (done || lia).
    rewrite <- L. rewrite drop_ge by (unfold zlen; lia). by rewrite app_nil_r.
  - apply drop_ge. unfold zlen in H. lia.
Qed.

Lemma layout_text buf p0 u : 0 <= p0 -> layout buf p0 (zlen buf) u ->
  buf = take (Z.to_nat p0) buf ++ user_part buf u ++ rest_part buf u /\
  ~ In §"@" (tl (rest_part buf u)) /\ host_form (text buf (host u)) /\
  forallb is_digit (text buf (port u)) = true /\ ~ In §"?" (text buf (params u)).
Proof.
  intros N0 L.
  destruct L as (h & e & f & A & Hh & P & H & ? & M).
  assert (Hhe : 0 <= h <= e /\ e <= f /\ f <= zlen buf).
  { unfold hosted, with_params, with_headers in *. destruct (host u) as [[]|]; [|done].
    destruct (port u) as [[]|], (params u) as [[]|], (headers u) as [[]|]; lia. }
  assert (R : drop (Z.to_nat h) buf = rest_part buf u).
  { rewrite (host_drop buf p0 h e u), (params_drop buf p0 e f u), (headers_drop buf f u) by (done || lia). done. }
  split_and!.
  - rewrite <- R, <- (user_drop buf p0 h u) by (done || lia). by rewrite take_drop.
  - rewrite <- R. replace (tl (drop (Z.to_nat h) buf)) with (drop (Z.to_nat (h + 1)) buf).
    + intros I. apply in_drop in I as (k & ? & E); [|lia]. apply (M k); [lia|lia|]. simpl. auto.
    + replace (Z.to_nat (h + 1)) with (Z.to_nat h + 1)%nat by lia. rewrite <- drop_drop.
      destruct (drop (Z.to_nat h) buf); simpl; [done|apply drop_0].
  - unfold hosted in Hh. destruct (host u) as [[hs hl]|]; [|done]. destruct Hh as (-> & ? & T & Q).
    apply (host_text_form buf p0); [lia..| |done]. destruct (port u) as [[]|]; lia.
  - unfold hosted in Hh. destruct (host u) as [[hs hl]|]; [|done]. destruct Hh as (-> & ? & T & Q).
    apply forallb_forall. intros x I. destruct (port u) as [[ps pl]|]; [|done].
    apply in_text in I as (k & ? & <-); [|lia..]. apply Q. lia.
  - unfold with_params in P. destruct (params u) as [[o l]|]; [|by intros []]. destruct P as (Ec & -> & ? & -> & Q).
    intros I. apply in_text in I as (k & ? & E); [|lia..]. apply (Q k); [lia|lia|]. simpl. auto.
Qed.

(** C24: a sip or sips URI that [parse_uri] accepts (and does not turn into a telephone
    number) is its scheme, whose first four bytes are those of sip: or sips up to the bit of
    lower case, and a colon after sips, followed by the parts of the result with their
    separators: user, [':'] password, ['@'], host, [':'] port, [';'] parameters, ['?']
    headers.  The host and what follows it have no ['@'] beyond their first byte, so the host
    starts after the last ['@']; the host has no [';'] or ['?'] and only an address in
    brackets a [':']; the port is digits; and the parameters end at the first ['?']. *)
Theorem uri_reassembled buf u : parse_uri buf = Ret (inr u) ->
  type u = SIP_URI_T \/ type u = SIPS_URI_T ->
  exists sch, scheme_at buf (zlen sch) (type u) /\ buf = sch ++ user_part buf u ++ rest_part buf u /\
    ~ In §"@" (tl (rest_part buf u)) /\ host_form (text buf (host u)) /\
    forallb is_digit (text buf (port u)) = true /\ ~ In §"?" (text buf (params u)).
Proof.
  intros E T. pose proof (parse_uri_ok buf) as (r & E' & H). rewrite E in E'. injection E' as <-.
  destruct H as (p0 & t & u0 & Hs & L & [P _] & Et & ->). rewrite fix_type_sip in T |- * by done.
  exists (take (Z.to_nat p0) buf). assert (Hp : 4 <= p0) by (unfold scheme_at in Hs; lia). split.
  - rewrite Et. replace (zlen _) with p0; [done|]. unfold zlen in *. rewrite length_take. lia.
  - apply layout_text; [lia|done].
Qed.

Definition sample_uri : bytes := B "sip:a;b:s@[::1]:5060;transport=tcp?x=y".

Lemma uri_reassembled_witness :
  exists u, parse_uri sample_uri = Ret (inr u) /\ text sample_uri (user u) = B "a;b" /\
    exists sch, scheme_at sample_uri (zlen sch) (type u) /\
      sample_uri = sch ++ user_part sample_uri u ++ rest_part sample_uri u /\
      ~ In §"@" (tl (rest_part sample_uri u)) /\ host_form (text sample_uri (host u)) /\
      forallb is_digit (text sample_uri (port u)) = true /\ ~ In §"?" (text sample_uri (params u)).
Proof.
  eexists. split; [vm_compute; reflexivity|]. split; [vm_compute; reflexivity|].
  apply uri_reassembled; [vm_compute; reflexivity|vm_compute; left; reflexivity].
Defined.
End UriSpec.
