(* ===== verification/UriPrint.v ===== *)
(** * Parsing what was printed, and URIs that are misread

    A URI put together from a user, a password, a host and a port is taken apart again by
    [parse_uri] into those; and some URIs are not: a parameter [r2] is never seen, one that
    starts like [maddr] at the end of the URI makes it fail, and the digits of what turned
    out to be the user are added to the port. *)

From Stdlib Require Import ZArith Lia List String Ascii Bool.
From stdpp Require Import base tactics option list.
From S2P Require Import Prelude Ut ParseUri.

Module UriPrint.
Import Ut ParseUri.

Definition no_chars (l : list Z) (w : bytes) : Prop := Forall (fun c => is_ch c l = false) w.

Record parts : Type := Parts {
  p_user : bytes;
  p_passwd : option bytes;
  p_host : bytes;
  p_port : option bytes
}.

Definition with_sep (c : Z) (w : option bytes) : bytes := match w with Some w => c :: w | None => [] end.

Definition print (x : parts) : bytes :=
  B "sip:" ++ p_user x ++ with_sep §":" (p_passwd x) ++ [§"@"] ++ p_host x ++ with_sep §":" (p_port x).

(** A name, or an address in brackets. *)
Definition host_ok (h : bytes) : Prop :=
  (h <> [] /\ head h <> Some §"[" /\ no_chars [§":"; §";"; §"?"; §"&"; §"@"] h) \/
  exists a, h = §"[" :: a ++ [§"]"] /\ no_chars [§"]"; §"["; §"&"; §"@"; §";"; §"?"] a.

Record parts_ok (x : parts) : Prop := PartsOk {
  ok_user : p_user x <> [] /\ no_chars [§"@"; §":"; §";"; §"?"; §"["; §"]"] (p_user x);
  ok_passwd : forall w, p_passwd x = Some w -> no_chars [§"@"; §";"; §"?"; §"["; §"]"; §":"] w;
  ok_host : host_ok (p_host x);
  ok_port : forall w, p_port x = Some w -> forallb is_digit w = true
}.

(** ** Running the loop over a part *)

Lemma loop_app a b' p x :
  loop p (a ++ b') x =
    (o ← loop p a x; match o with inl e => Ret (inl e) | inr y => loop (p + zlen a) b' y end).
Proof.
  revert p x. induction a as [|c a IH]; intros p x; simpl.
  - by rewrite Z.add_0_r.
  - destruct (step p c x) as [[e|y]|f]; simpl; [done| |done]. rewrite IH, zlen_cons.
    destruct (loop (p + 1) a y) as [[e|z]|f]; simpl; [done| |done]. f_equal. lia.
Qed.

Lemma loop_stay w p x : Forall (fun c => forall p, step p c x = Ret (inr x)) w -> loop p w x = Ret (inr x).
Proof.
  intros H. revert p. induction H as [|c w Hc _ IH]; intros p; simpl; [done|].
  rewrite Hc. run. apply IH.
Qed.

Lemma user_stay w p x : state x = URI_USER -> no_chars [§"@"; §":"; §";"; §"?"; §"["; §"]"] w ->
  loop p w x = Ret (inr x).
Proof.
  intros Q H. apply loop_stay. eapply Forall_impl; [exact H|]. intros c Hc q. unfold step. rewrite Q.
  simpl in Hc. unfold is_ch in *. simpl in *. repeat case_test; simpl in *; try done; zbool.
Qed.

(** In what may be a password. *)
Definition in_pass (x : st) : Prop := state x = URI_PASSWORD \/ state x = URI_PASSWORD_ALPHA /\ pno x = 0.

Lemma pass_run w p x : in_pass x -> no_chars [§"@"; §";"; §"?"; §"["; §"]"; §":"] w ->
  exists q n, loop p w x = Ret (inr (goto q (set_pno n x))) /\ in_pass (goto q (set_pno n x)).
Proof.
  intros Q H. revert p x Q. induction H as [|c w Hc _ IH]; intros p x Q; simpl.
  { exists (state x), (pno x). by destruct x. }
  assert (exists q n, step p c x = Ret (inr (goto q (set_pno n x))) /\ in_pass (goto q (set_pno n x))) as (q & n & E & G).
  { unfold step, is_ch, in_pass in *. simpl in Hc. destruct Q as [Q|[Q N]]; rewrite Q;
      repeat case_test; simpl in *; try zbool; unfold case_port.
    - exists (state x), (s32 (pno x * 10 + c - §"0")). split; [by destruct x|by left].
    - eexists _, _. split; [done|by right].
    - exists (state x), (pno x). split; [by destruct x|by right]. }
  rewrite E. run. destruct (IH (p + 1) _ G) as (q' & n' & E' & G'). exists q', n'. by rewrite E'.
Qed.

Lemma pass_at p x : in_pass x ->
  step p §"@" x = Ret (inr (at_s (p + 1) (found (goto URI_HOST (set_pno 0 (on_uri (set_passwd (Some (s x, p - s x))) x)))))).
Proof. unfold step. intros [Q|[Q N]]; rewrite Q; simpl; [done|]. destruct x. simpl in *. by subst. Qed.

(** In a host that is complete. *)
Definition in_host (q : states) : Prop := q = URI_HOST_P \/ q = URI_HOST6_END.

Lemma host_run h p x : state x = URI_HOST -> host_ok h ->
  exists q, loop p h x = Ret (inr (goto q x)) /\ in_host q.
Proof.
  intros Q [(N & Hd & H)|(a & -> & H)].
  - exists URI_HOST_P. split; [|by left]. destruct h as [|c h]; [done|]. simpl.
    apply Forall_cons in H as [Hc H]. simpl in Hd.
    assert (E : step p c x = Ret (inr (goto URI_HOST_P x))).
    { unfold step. rewrite Q, Hc. by destruct (Z.eqb_spec c §"["); [subst|]. }
    rewrite E. run. apply loop_stay. eapply Forall_impl; [exact H|]. clear. intros d Hd r.
    unfold step, check_host_end, is_ch in *. cbn in Hd |- *. repeat case_test; try done; bool_to_prop; lia.
  - exists URI_HOST6_END. split; [|by right]. simpl. unfold step at 1. rewrite Q, Z.eqb_refl. run. rewrite loop_app.
    assert (E : loop (p + 1) a (goto URI_HOST6_P x) = Ret (inr (goto URI_HOST6_P x))).
    { apply loop_stay. eapply Forall_impl; [exact H|]. clear. intros d Hd r.
      unfold step, is_ch in *. cbn in Hd |- *. repeat case_test; try done; bool_to_prop; lia. }
    rewrite E. run. simpl. done.
Qed.

Lemma host_colon p q x : in_host q -> step p §":" (goto q x) = Ret (inr (end_host URI_PORT p (goto q x))).
Proof. by intros [->| ->]. Qed.

Definition port_value (w : bytes) (n : Z) : Z := fold_left (fun n c => s32 (n * 10 + c - §"0")) w n.

Lemma port_run w p x : state x = URI_PORT -> forallb is_digit w = true ->
  loop p w x = Ret (inr (set_pno (port_value w (pno x)) x)).
Proof.
  revert p x. induction w as [|c w IH]; intros p x Q H; simpl.
  { by destruct x. }
  simpl in H. apply andb_true_iff in H as [Hc Hw]. unfold step. rewrite Q, Hc.
  rewrite (proj2 (Z.eqb_neq c _)), (proj2 (Z.eqb_neq c _)) by (unfold is_digit in Hc; zbool).
  run. rewrite IH by done. done.
Qed.

Lemma u16_s32 z : u16 (s32 z) = u16 z.
Proof.
  unfold u16, s32. rewrite (Z.mod_eq (z + 2 ^ 31) (2 ^ 32)) by lia.
  replace (z + 2 ^ 31 - 2 ^ 32 * ((z + 2 ^ 31) / 2 ^ 32) - 2 ^ 31)
    with (z + (- (2 ^ 16 * ((z + 2 ^ 31) / 2 ^ 32))) * 2 ^ 16) by lia.
  by rewrite Z.mod_add.
Qed.

(** The port is the number modulo 65536. *)
Lemma port_value_mod w n m : u16 n = u16 m -> u16 (port_value w n) = u16 (fold_left dec_step w m).
Proof.
  revert n m. induction w as [|c w IH]; intros n m E; simpl; [done|]. apply IH.
  rewrite u16_s32. unfold dec_step, u16 in *. rewrite <- Z.add_sub_assoc.
  by rewrite Z.add_mod, Z.mul_mod, E, <- Z.mul_mod, <- Z.add_mod.
Qed.

(** ** The whole URI *)

Definition host_at (x : parts) : Z := 4 + zlen (p_user x) + zlen (with_sep §":" (p_passwd x)) + 1.

(** The fields of the user and password of a printed URI. *)
Definition user_uri (x : parts) : sip_uri :=
  let u := set_user (Some (4, zlen (p_user x))) (empty_uri SIP_URI_T) in
  match p_passwd x with
  | Some w => set_passwd (Some (4 + zlen (p_user x) + 1, zlen w)) u
  | None => u
  end.

Definition upto_host (x : parts) : bytes := p_user x ++ with_sep §":" (p_passwd x) ++ [§"@"] ++ p_host x.

Lemma init_user c w : no_chars [§"@"; §":"; §";"; §"?"; §"["; §"]"] (c :: w) ->
  loop 4 (c :: w) (init 4 SIP_URI_T) = Ret (inr (goto URI_USER (init 4 SIP_URI_T))).
Proof.
  intros H. apply Forall_cons in H as [Hc H]. cbn [loop].
  assert (E : step 4 c (init 4 SIP_URI_T) = Ret (inr (goto URI_USER (init 4 SIP_URI_T)))).
  { unfold step, is_ch in *. cbn in Hc |- *. repeat case_test; try done; bool_to_prop; lia. }
  rewrite E. run. by apply user_stay.
Qed.

Lemma upto_host_run x : parts_ok x ->
  exists q, loop 4 (upto_host x) (init 4 SIP_URI_T) =
    Ret (inr (St q (host_at x) 0 0 None None true false 0 (user_uri x))) /\ in_host q.
Proof.
  intros [[N Hu] Hw Hh _]. unfold upto_host, host_at, user_uri. rewrite loop_app.
  destruct (p_user x) as [|c w]; [done|]. rewrite init_user by done. run. set (us := c :: w).
  destruct (p_passwd x) as [pw|]; cbn [with_sep].
  - cbn [app loop]. unfold step at 1. cbn [goto init state]. simpl (§":" =? _). cbn iota. run.
    rewrite loop_app. set (y := at_s _ _).
    destruct (pass_run pw (4 + zlen us + 1) y (or_introl eq_refl) (Hw _ eq_refl)) as (q & n & -> & G). run.
    cbn [app loop]. rewrite pass_at by done. run.
    destruct (host_run (p_host x) (4 + zlen us + 1 + zlen pw + 1)
      (at_s (4 + zlen us + 1 + zlen pw + 1) (found (goto URI_HOST (set_pno 0
        (on_uri (set_passwd (Some (s (goto q (set_pno n y)), 4 + zlen us + 1 + zlen pw - s (goto q (set_pno n y)))))
          (goto q (set_pno n y))))))) eq_refl Hh) as (r & -> & R).
    exists r. split; [|done]. rewrite zlen_cons. subst y. cbn [s at_s goto set_pno on_uri init].
    replace (4 + zlen us - 4) with (zlen us) by lia.
    replace (4 + zlen us + 1 + zlen pw - (4 + zlen us + 1)) with (zlen pw) by lia.
    by replace (4 + zlen us + (1 + zlen pw) + 1) with (4 + zlen us + 1 + zlen pw + 1) by lia.
  - cbn [app loop]. unfold step at 1. cbn [goto init state]. simpl (§"@" =? _). cbn iota. run.
    set (y := at_s _ _). destruct (host_run (p_host x) (4 + zlen us + 1) y eq_refl Hh) as (r & -> & R).
    exists r. split; [|done]. subst y. cbn [s at_s goto set_pno on_uri init].
    replace (4 + zlen us - 4) with (zlen us) by lia.
    by replace (4 + zlen us + zlen (@nil Z) + 1) with (4 + zlen us + 1) by (unfold zlen; simpl; lia).
Qed.

Lemma scheme_sip w : zlen w <> 0 -> parse_uri (B "sip:" ++ w) = parse_body 4 SIP_URI_T (B "sip:" ++ w).
Proof.
  intros. unfold parse_uri. rewrite (proj2 (Z.ltb_ge _ _)) by (rewrite zlen_app; unfold zlen in *; simpl; lia). done.
Qed.

Lemma drop_scheme w : drop (Z.to_nat 4) (B "sip:" ++ w) = w.
Proof. done. Qed.

Lemma fix_type_plain buf u : type u = SIP_URI_T -> val u USER_PARAM = None -> fix_type buf u = u.
Proof. intros E H. unfold fix_type, phone. rewrite E, H. done. Qed.

(** The result expected for a printed URI. *)
Definition uri_of (x : parts) : sip_uri :=
  let u := set_host (Some (host_at x, zlen (p_host x))) (user_uri x) in
  match p_port x with
  | Some w => set_port (Some (host_at x + zlen (p_host x) + 1, zlen w)) (u16 (dec_value w)) u
  | None => u
  end.

Lemma upto_host_len x : 4 + zlen (upto_host x) = host_at x + zlen (p_host x).
Proof. unfold upto_host, host_at. rewrite !zlen_app. change (zlen [§"@"]) with 1. lia. Qed.

Lemma user_uri_type x : type (user_uri x) = SIP_URI_T /\ val (user_uri x) USER_PARAM = None.
Proof. unfold user_uri. by destruct (p_passwd x). Qed.

Lemma print_eq x : print x = B "sip:" ++ upto_host x ++ with_sep §":" (p_port x).
Proof. unfold print, upto_host. by rewrite <- !app_assoc. Qed.

Lemma upto_host_nonempty x : zlen (upto_host x) <> 0.
Proof. unfold upto_host. rewrite !zlen_app. unfold zlen. simpl. lia. Qed.

Lemma text_slice (a w r : bytes) : text (a ++ w ++ r) (Some (zlen a, zlen w)) = w.
Proof. unfold text, zlen. rewrite !Nat2Z.id, drop_app_length, take_app_length. done. Qed.

Lemma parse_print x : parts_ok x -> parse_uri (print x) = Ret (inr (uri_of x)).
Proof.
  intros H. pose proof (ok_port x H) as Hp. destruct (upto_host_run x H) as (q & E & Q).
  destruct (user_uri_type x) as [T V].
  rewrite print_eq, scheme_sip by (rewrite zlen_app; pose proof (upto_host_nonempty x); pose proof (zlen_nonneg (upto_host x));
    pose proof (zlen_nonneg (with_sep §":" (p_port x))); lia).
  unfold parse_body. rewrite drop_scheme, loop_app, E. run. unfold uri_of. rewrite upto_host_len.
  rewrite zlen_app, zlen_app, Z.add_assoc. change (zlen (B "sip:")) with 4. rewrite upto_host_len.
  set (e := host_at x + zlen (p_host x)).
  destruct (p_port x) as [w|]; cbn [with_sep].
  - cbn [loop]. pose proof (host_colon e q (St q (host_at x) 0 0 None None true false 0 (user_uri x)) Q) as S.
    cbn [goto] in S. unfold goto in S. cbn in S. rewrite S. run.
    rewrite port_run by (done || by apply Hp). run.
    cbn. run. rewrite T, fix_type_plain by done. do 2 f_equal. unfold set_port, set_host. cbn.
    rewrite zlen_cons. subst e. f_equal; [do 2 f_equal; lia..|]. by apply (port_value_mod w 0 0).
  - cbn [loop]. run. change (zlen []) with 0. rewrite Z.add_0_r.
    unfold finish. cbn. destruct Q as [-> | ->]; run; cbn; rewrite T, fix_type_plain by done; do 2 f_equal;
      unfold set_host; cbn; subst e; f_equal; do 2 f_equal; lia.
Qed.

(** The text of a field that is there. *)
Definition field (buf : bytes) (x : span) : option bytes :=
  match x with Some _ => Some (text buf x) | None => None end.

Lemma field_slice a w r : field (a ++ w ++ r) (Some (zlen a, zlen w)) = Some w.
Proof. unfold field. by rewrite text_slice. Qed.

Lemma field_at buf a w r o : buf = a ++ w ++ r -> o = zlen a -> field buf (Some (o, zlen w)) = Some w.
Proof. intros -> ->. apply field_slice. Qed.

(** C23: a sip: URI made of a user, perhaps a password, a host (a name or an address in
    brackets) and perhaps a port, each without the characters that separate them, and
    without parameters or headers, is accepted, and the fields of the result are these parts; the port number is the value
    of its digits modulo 65536. *)
Theorem uri_roundtrip x : parts_ok x ->
  exists u, parse_uri (print x) = Ret (inr u) /\ type u = SIP_URI_T /\
    field (print x) (user u) = Some (p_user x) /\ field (print x) (passwd u) = p_passwd x /\
    field (print x) (host u) = Some (p_host x) /\ field (print x) (port u) = p_port x /\
    port_no u = u16 (match p_port x with Some w => dec_value w | None => 0 end) /\
    params u = None /\ headers u = None.
Proof.
  intros H. exists (uri_of x). split; [by apply parse_print|]. unfold uri_of, user_uri, print, host_at.
  destruct (p_passwd x) as [w|], (p_port x) as [d|]; cbn -[field zlen B]; split_and!; try done;
    solve [ eapply (field_at _ (B "sip:")); done
          | eapply (field_at _ (B "sip:" ++ p_user x ++ [§":"])); [by rewrite <- !app_assoc|by rewrite !zlen_app, ?Z.add_assoc]
          | eapply (field_at _ (B "sip:" ++ p_user x ++ [§"@"]));
              [by rewrite <- !app_assoc|rewrite !zlen_app; unfold zlen; simpl; lia]
          | eapply (field_at _ (B "sip:" ++ p_user x ++ §":" :: w ++ [§"@"]));
              [by rewrite <- !app_assoc; simpl; rewrite <- !app_assoc|rewrite !zlen_app, !zlen_cons, !zlen_app; unfold zlen; simpl; lia]
          | eapply (field_at _ (B "sip:" ++ p_user x ++ [§"@"] ++ p_host x ++ [§":"]) d []);
              [rewrite app_nil_r, <- !app_assoc; done|rewrite !zlen_app; unfold zlen; simpl; lia]
          | eapply (field_at _ (B "sip:" ++ p_user x ++ (§":" :: w) ++ [§"@"] ++ p_host x ++ [§":"]) d []);
              [rewrite app_nil_r, <- !app_assoc; done|rewrite !zlen_app; unfold zlen; simpl; lia] ].
Qed.

Definition sample_parts : parts := Parts (B "alice") (Some (B "12x")) (B "[::1]") (Some (B "65600")).

Lemma uri_roundtrip_witness :
  exists u, parse_uri (print sample_parts) = Ret (inr u) /\ type u = SIP_URI_T /\
    field (print sample_parts) (user u) = Some (B "alice") /\ field (print sample_parts) (passwd u) = Some (B "12x") /\
    field (print sample_parts) (host u) = Some (B "[::1]") /\ field (print sample_parts) (port u) = Some (B "65600") /\
    port_no u = u16 65600 /\ params u = None /\ headers u = None.
Proof.
  apply (uri_roundtrip sample_parts). split.
  - split; [done|repeat constructor].
  - intros w E. injection E as <-. repeat constructor.
  - right. exists (B "::1"). split; [reflexivity|repeat constructor].
  - intros w E. injection E as <-. reflexivity.
Defined.

(** ** The parameter [r2] *)

Definition r2_state (q : states) : bool := match q with PR2_R | PR2_2_FIN | PR2_eq => true | _ => false end.

(** Nothing of [r2] so far. *)
Definition no_r2 (x : st) : Prop :=
  r2_state (state x) = false /\ param x <> Some R2 /\ par (uri x) R2 = None /\ val (uri x) R2 = None.

Definition no_r2_out (o : outcome) : Prop := match o with inl _ => True | inr y => no_r2 y end.

(** States that differ only in fields that do not matter. *)
Lemma no_r2_like x y : no_r2 x -> r2_state (state y) = false -> param y = param x -> par (uri y) = par (uri x) ->
  val (uri y) = val (uri x) -> no_r2 y.
Proof. intros (_ & P & A & V) Q Ep Ea Ev. unfold no_r2. by rewrite Ep, Ea, Ev. Qed.

Lemma no_r2_still p x : no_r2 x -> no_r2_out (still_at_user p x).
Proof.
  intros (_ & P & _). unfold still_at_user. destruct (found_user x); [done|]. by destruct (pass x).
Qed.

Lemma no_r2_semicolon x : no_r2 x -> no_r2 (semicolon_case x).
Proof. intros H. unfold semicolon_case, no_pass. destruct (pass x); by eapply no_r2_like; [exact H|..]. Qed.

Lemma no_r2_question p x : no_r2 x -> no_r2 (question_case p x).
Proof. intros H. unfold question_case, no_pass. simpl. destruct (pass x); by eapply no_r2_like; [exact H|..]. Qed.

Lemma no_r2_colon p x q : no_r2 x -> r2_state q = false -> no_r2 (goto q (colon_pass p x)).
Proof.
  intros H ?. unfold colon_pass. destruct (found_user x); [by eapply no_r2_like; [exact H|..]|].
  destruct (pass x); by eapply no_r2_like; [exact H|..].
Qed.

Lemma no_r2_param_set p x : no_r2 x -> may_return (param_set p x) no_r2.
Proof.
  intros (Q & P & A & V) y E. unfold param_set in E. destruct (param x) as [i|] eqn:Ei; [|done]. injection E as <-.
  unfold no_r2. simpl. rewrite Ei. repeat case_decide; simplify_eq. done.
Qed.

Lemma no_r2_common p c x d : no_r2 x -> no_r2_out d -> no_r2_out (param_common_cases p c x d).
Proof.
  intros H D. unfold param_common_cases. repeat case_test; [by apply no_r2_still|by apply no_r2_semicolon|
    by apply no_r2_question|by apply no_r2_colon|done].
Qed.

Lemma no_r2_values pr p c x d : no_r2 x -> no_r2_out d -> may_return (value_cases pr p c x d) no_r2_out.
Proof.
  intros H D. unfold value_cases.
  assert (F : forall y, no_r2 y -> no_r2 (match pr with Some n => on_uri (set_proto n) y | None => y end)).
  { intros y Hy. destruct pr; [|done]. by eapply no_r2_like; [exact Hy|apply Hy|..]. }
  repeat case_test; try apply may_ret; try done.
  - by apply no_r2_still.
  - eapply may_bind; [by apply no_r2_param_set, no_r2_semicolon|]. intros y Hy. apply may_ret, F, Hy.
  - eapply may_bind; [by apply no_r2_param_set, no_r2_question|]. intros y Hy. apply may_ret, F, Hy.
  - by apply no_r2_colon.
Qed.

Definition no_r2_table (l : list (list Z * states)) : bool := forallb (fun y => negb (r2_state y.2)) l.

Lemma no_r2_switch l p c x : no_r2 x -> no_r2_table l = true ->
  no_r2_out (param_switch l p c x) /\ may_return (value_switch l p c x) no_r2_out.
Proof.
  intros H L. unfold param_switch, value_switch. destruct (find _ l) as [y|] eqn:E.
  - apply find_some in E as [I _]. unfold no_r2_table in L. rewrite forallb_forall in L. specialize (L y I).
    apply negb_true_iff in L. split; [|apply may_ret]; by eapply no_r2_like; [exact H|..].
  - split; [apply no_r2_common|apply no_r2_values]; try done; by eapply no_r2_like; [exact H|..].
Qed.

Lemma no_r2_start i p c x : i <> R2 -> no_r2 x -> no_r2_out (value_start i p c x).
Proof.
  intros Hi (Q & P & A & V). unfold value_start.
  apply no_r2_common; (split; [done|split; [simpl; congruence|done]]).
Qed.

Lemma no_r2_lr p c x : no_r2 x -> no_r2_out (flag_fin LR PLR_eq p c x).
Proof.
  intros H. unfold flag_fin. repeat case_test.
  - by apply no_r2_still.
  - by eapply no_r2_like; [exact H|..].
  - pose proof (no_r2_semicolon x H) as (? & ? & ? & ?). by split_and!.
  - pose proof (no_r2_question p x H) as (? & ? & ? & ?). by split_and!.
  - by apply no_r2_colon.
  - by eapply no_r2_like; [exact H|..].
Qed.

Ltac same_r2 :=
  repeat case_test; try apply may_ret;
  try first [exact I | assumption | eapply no_r2_like; [eassumption|..]; simpl; try reflexivity;
             match goal with E : state _ = _ |- _ => rewrite E; reflexivity end].

Lemma no_r2_step p c x : no_r2 x -> may_return (step p c x) no_r2_out.
Proof.
  intros H. pose proof H as (Q & P & _). unfold step, transport_fin.
  destruct (state x) eqn:E; try discriminate Q;
    lazymatch goal with
    | |- may_return (value_switch _ _ _ _) _ => apply no_r2_switch; [exact H|reflexivity]
    | |- may_return (value_cases _ _ _ _ _) _ =>
        apply no_r2_values; [exact H|first [exact H | by eapply no_r2_like; [exact H|..]]]
    | |- may_return (Ret (param_switch _ _ _ _)) _ => apply may_ret, no_r2_switch; [exact H|reflexivity]
    | |- may_return (Ret (value_start _ _ _ _)) _ => apply may_ret, no_r2_start; [done|exact H]
    | |- may_return (Ret (flag_fin _ _ _ _ _)) _ => apply may_ret, no_r2_lr, H
    | |- _ => idtac
    end.
  - same_r2.
  - same_r2.
  - same_r2.
  - same_r2.
  - same_r2.
  - unfold check_host_end. same_r2.
  - same_r2.
  - unfold check_host_end. same_r2.
  - same_r2.
  - apply may_ret, no_r2_common; [exact H|]. same_r2.
  - apply may_ret, no_r2_common; exact H.
  - same_r2; [by apply no_r2_still| |].
    + unfold colon_pass. destruct (found_user x); [exact H|]. destruct (pass x); same_r2.
    + unfold no_pass. destruct (pass x); same_r2.
  - assert (G : no_r2 (for_param TRANSPORT x)) by (destruct H as (_ & _ & H); split; [by simpl; rewrite E|by split]).
    apply may_ret, no_r2_common; [exact G|]. same_r2.
Qed.

Lemma no_r2_loop w p x : no_r2 x -> may_return (loop p w x) (fun o => match o with inl _ => True | inr y => no_r2 y end).
Proof.
  revert p x. induction w as [|c w IH]; intros p x H; simpl; [by apply may_ret|].
  eapply may_bind; [by apply no_r2_step|]. intros [e|y] G; [by apply may_ret|auto].
Qed.

Definition no_r2_uri (u : sip_uri) : Prop := par u R2 = None /\ val u R2 = None.

Lemma no_r2_finish n x : no_r2 x ->
  may_return (finish n x) (fun o => match o with inl _ => True | inr y => no_r2_uri (uri y) end).
Proof.
  intros H. pose proof H as (Q & P & A & V). unfold finish.
  assert (F : forall pr, may_return (y ← param_set n (end_params n x);
             Ret (inr (match pr with Some k => on_uri (set_proto k) y | None => y end)))
             (fun o : outcome => match o with inl _ => True | inr y => no_r2_uri (uri y) end)).
  { intros pr. eapply may_bind.
    - apply no_r2_param_set. by apply (no_r2_like x).
    - intros y (_ & _ & ? & ?). apply may_ret. by destruct pr. }
  destruct (state x) eqn:E; try discriminate Q;
    first [ apply may_ret; done | exact (F None) | exact (F (Some _)) | repeat case_test; by apply may_ret | idtac ].
Qed.

Lemma no_r2_fix buf u : no_r2_uri u -> no_r2_uri (fix_type buf u).
Proof.
  intros H. unfold fix_type, phone. destruct (type u); try done; (case_test; [|done]); simpl;
    destruct (user u) as [[]|]; try done; by destruct (q_memchr _ _).
Qed.

(** The parameter r2, which the parser means to recognise, never is: whatever the
    URI, the fields r2 and r2_val of the result are null, since the case for its first
    letter falls through into the one for unknown parameters. *)
Theorem r2_never_found buf u : parse_uri buf = Ret (inr u) -> par u R2 = None /\ val u R2 = None.
Proof.
  intros H.
  assert (G : forall p t, may_return (parse_body p t buf) (fun r => match r with inl _ => True | inr u => no_r2_uri u end)).
  { intros p t. unfold parse_body. eapply may_bind; [by apply no_r2_loop|]. intros [e|x] G; [by apply may_ret|].
    eapply may_bind; [by apply no_r2_finish|]. intros [e|y] G'; apply may_ret; [done|].
    destruct (type (uri y)); [done|by apply no_r2_fix..]. }
  unfold parse_uri in H. repeat case_test; try done; apply G in H; exact H.
Qed.

Lemma r2_never_found_witness :
  exists u, parse_uri (B "sip:h;r2=on;lr") = Ret (inr u) /\ field (B "sip:h;r2=on;lr") (par u LR) = Some (B "lr") /\
    par u R2 = None /\ val u R2 = None.
Proof.
  eexists. split; [vm_compute; reflexivity|]. split; [vm_compute; reflexivity|].
  apply (r2_never_found (B "sip:h;r2=on;lr")). vm_compute. reflexivity.
Defined.

(** ** The parameter [maddr] *)

Definition maddr_prefixes : list bytes := [B "ma"; B "mad"; B "madd"; B "maddr"; B "maddr="; B "MADDR"].

(** A URI of a user and a host whose last parameter is a beginning of the name of
    maddr, of two letters at least, or maddr with an empty value, is refused: the states
    that read that name are missing where the end of the URI is handled. *)
Theorem maddr_end_refused x w : parts_ok x -> In w maddr_prefixes ->
  let buf := B "sip:" ++ upto_host x ++ §";" :: w in parse_uri buf = Ret (inl (error_bug, zlen buf)).
Proof.
  intros H Hw buf. unfold buf. destruct (upto_host_run x H) as (q & E & Q). rewrite scheme_sip.
  2: { rewrite zlen_app, zlen_cons. pose proof (zlen_nonneg (upto_host x)). pose proof (zlen_nonneg w). lia. }
  unfold parse_body. rewrite drop_scheme, loop_app, E. run. generalize (4 + zlen (upto_host x)). intros p.
  generalize (zlen (B "sip:" ++ upto_host x ++ §";" :: w)). intros n. generalize (host_at x), (user_uri x). intros h u.
  unfold maddr_prefixes in Hw. simpl in Hw.
  destruct Q as [-> | ->]; repeat (destruct Hw as [<-|Hw]; [reflexivity|]); done.
Qed.

Definition plain_parts : parts := Parts (B "u") None (B "h") None.

Lemma plain_parts_ok : parts_ok plain_parts.
Proof.
  split; [split; [done|repeat constructor]|done| |done].
  left. split; [done|]. split; [done|repeat constructor].
Qed.

Lemma maddr_end_refused_witness :
  In (B "ma") maddr_prefixes /\ parse_uri (B "sip:u@h;ma") = Ret (inl (error_bug, 10)).
Proof.
  split; [left; reflexivity|].
  apply (maddr_end_refused plain_parts (B "ma") plain_parts_ok). left. reflexivity.
Defined.

(** ** The port after a user that looked like a host *)

(** When the user starts like a host in brackets with a port and has a parameter,
    as in [sip:[::1]:5060;a@h:80], the digits of that port stay in the number of the real
    port: its text is right and its number is that of both runs of digits together. *)
Theorem stale_port d1 d2 : forallb is_digit d1 = true -> forallb is_digit d2 = true ->
  let buf := B "sip:[::1]:" ++ d1 ++ B ";a@h:" ++ d2 in
  exists u, parse_uri buf = Ret (inr u) /\ field buf (user u) = Some (B "[::1]:" ++ d1 ++ B ";a") /\
    field buf (port u) = Some d2 /\ port_no u = u16 (dec_value (d1 ++ d2)).
Proof.
  intros H1 H2 buf.
  assert (L : zlen buf = 4 + (6 + zlen d1 + 5 + zlen d2)).
  { subst buf. rewrite !zlen_app. unfold zlen. simpl. lia. }
  set (w := B "[::1]:" ++ d1 ++ B ";a@h:" ++ d2). assert (Eb : buf = B "sip:" ++ w) by done.
  assert (E1 : loop 4 (B "[::1]:") (init 4 SIP_URI_T) =
    Ret (inr (St URI_PORT 10 0 0 None None false false 0 (set_host (Some (4, 5)) (empty_uri SIP_URI_T))))) by done.
  assert (E2 : forall p n, loop p (B ";a@h:") (set_pno n (St URI_PORT 10 0 0 None None false false 0 (set_host (Some (4, 5)) (empty_uri SIP_URI_T)))) =
    Ret (inr (St URI_PORT (p + 1 + 1 + 1 + 1 + 1) 0 0 None None true false n
      (set_host (Some (p + 1 + 1 + 1, p + 1 + 1 + 1 + 1 - (p + 1 + 1 + 1)))
        (set_user (Some (4, p + 1 + 1 - 4)) (empty_uri SIP_URI_T)))))) by done.
  exists (set_port (Some (4 + zlen (B "[::1]:") + zlen d1 + 5, zlen d2)) (u16 (dec_value (d1 ++ d2)))
    (set_host (Some (4 + zlen (B "[::1]:") + zlen d1 + 3, 1))
      (set_user (Some (4, zlen (B "[::1]:" ++ d1 ++ B ";a"))) (empty_uri SIP_URI_T)))). split.
  - rewrite Eb, scheme_sip by (unfold w; rewrite zlen_app; unfold zlen; simpl; lia).
    unfold parse_body. rewrite drop_scheme, <- Eb. unfold w. rewrite loop_app, E1. run.
    rewrite loop_app, port_run by done. run. rewrite loop_app.
    rewrite E2. run. rewrite port_run by done. run. rewrite L.
    cbn [finish set_pno state]. run. rewrite fix_type_plain by done. unfold end_port.
    cbn [on_uri set_pno uri s pno]. rewrite (port_value_mod _ _ (dec_value d1)) by (by apply port_value_mod).
    change (zlen (B "[::1]:")) with 6. rewrite !zlen_app. change (zlen (B "[::1]:")) with 6. change (zlen (B ";a")) with 2.
    cbn [type set_port set_host set_user empty_uri].
    unfold dec_value at 2. rewrite dec_fold_app. do 2 f_equal. unfold set_port, set_host, set_user. simpl.
    f_equal; do 2 f_equal; lia.
  - cbn [field user port port_no set_port set_host set_user]. split_and!; [| |done].
    + apply (field_at _ (B "sip:") _ (B "@h:" ++ d2)); [|done]. subst buf. simpl. by rewrite <- !app_assoc.
    + apply (field_at _ (B "sip:[::1]:" ++ d1 ++ B ";a@h:") _ []).
      * subst buf. by rewrite app_nil_r, <- !app_assoc.
      * rewrite !zlen_app. unfold zlen. simpl. lia.
Qed.

Lemma stale_port_witness :
  exists u, parse_uri (B "sip:[::1]:5060;a@h:80") = Ret (inr u) /\
    field (B "sip:[::1]:5060;a@h:80") (user u) = Some (B "[::1]:5060;a") /\
    field (B "sip:[::1]:5060;a@h:80") (port u) = Some (B "80") /\ port_no u = 47328.
Proof. apply (stale_port (B "5060") (B "80")); reflexivity. Defined.
End UriPrint.
