(* ===== verification/Loose.v ===== *)
(** * Loose routing ([src/modules/rr/loose.c])

    A request carries the proxies it has to visit in its Route headers.  [loose_route] takes
    the entries that are this server's own off the front and says where the request goes
    next: to the next entry when that one is a loose router (its URI has the parameter lr),
    and otherwise, for a strict router, by putting it into the request URI and the request
    URI behind the routes.  When the request comes from a strict router the last route is
    the real request URI.

    Headers are parsed on demand ([parse_headers] of [parser/msg_parser.c]); what
    [get_hdr_field] and [parse_rr] find is given with the message.  A pointer to a header
    is its index among the parsed ones, a pointer to a route its index in its header. *)

From Stdlib Require Import ZArith Lia List String Ascii Bool.
From stdpp Require Import base tactics option list.
From S2P Require Import Prelude Ut Lumps MsgBuild ParseUri.

Module Loose.
Import Ut ParseUri.
Import (hints) Lumps.

Definition RR_ERROR : Z := -1.
Definition RR_DRIVEN : Z := 1.
Definition NOT_RR_DRIVEN : Z := -1.

Definition ROUTE_PREFIX : bytes := Eval vm_compute in B "Route: <".
Definition ROUTE_SUFFIX : bytes := [§">"; 13; 10].

Definition HDR_OTHER_T : Z := 0.
Definition HDR_TO_T : Z := 3.
Definition HDR_ROUTE_T : Z := 9.
Definition HDR_RETRY_AFTER_T : Z := 38.

(** [hdr_flags_t] is 64 bits wide; the flag of the end of headers is all of them. *)
Definition HDR_F (type : Z) : Z := Z.shiftl 1 type.
Definition HDR_TO_F : Z := HDR_F HDR_TO_T.
Definition HDR_ROUTE_F : Z := HDR_F HDR_ROUTE_T.
Definition HDR_EOH_F : Z := 2 ^ 64 - 1.

(** ** Data *)

(** One entry of a Route header: where its text starts, its length, its URI. *)
Record route : Type := Rr { rr_name : Z; rr_len : Z; rr_uri : bytes }.

(** A header: the offset of its name, its whole length, the offset of its body; for a Route
    the entries [parse_rr] finds, [None] if it fails; for a To the tag. *)
Record hdr : Type := Hdr { h_type : Z; h_name : Z; h_len : Z; h_body : Z; h_rr : option (list route); h_tag : bytes }.

(** What [get_hdr_field] finds next. *)
Inductive item : Type :=
| Field (h : hdr)
| Eoh (off : Z)
| Bad (off : Z).

Record st : Type := St {
  lm : Lumps.lmsg;
  mal : nat;
  hdrs : list hdr;
  rest : list item;
  parsed_flag : Z;
  ruri : bytes;
  new_uri : option bytes;
  parsed_uri : option sip_uri;
  dst_uri : option bytes;
  send_sock : option Z;
  msg_id : Z;
  routed_msg_id : Z;
  routed_params : option bytes;
  callbacks : list (option bytes)
}.

Definition set_lm l m := St l (mal m) (hdrs m) (rest m) (parsed_flag m) (ruri m) (new_uri m) (parsed_uri m) (dst_uri m) (send_sock m) (msg_id m) (routed_msg_id m) (routed_params m) (callbacks m).
Definition used m := St (lm m) (S (mal m)) (hdrs m) (rest m) (parsed_flag m) (ruri m) (new_uri m) (parsed_uri m) (dst_uri m) (send_sock m) (msg_id m) (routed_msg_id m) (routed_params m) (callbacks m).
Definition set_parse h r f m := St (lm m) (mal m) h r f (ruri m) (new_uri m) (parsed_uri m) (dst_uri m) (send_sock m) (msg_id m) (routed_msg_id m) (routed_params m) (callbacks m).
Definition set_new_uri u p m := St (lm m) (mal m) (hdrs m) (rest m) (parsed_flag m) (ruri m) u p (dst_uri m) (send_sock m) (msg_id m) (routed_msg_id m) (routed_params m) (callbacks m).
Definition set_dst u m := St (lm m) (mal m) (hdrs m) (rest m) (parsed_flag m) (ruri m) (new_uri m) (parsed_uri m) u (send_sock m) (msg_id m) (routed_msg_id m) (routed_params m) (callbacks m).
Definition set_sock s m := St (lm m) (mal m) (hdrs m) (rest m) (parsed_flag m) (ruri m) (new_uri m) (parsed_uri m) (dst_uri m) s (msg_id m) (routed_msg_id m) (routed_params m) (callbacks m).
Definition set_routed i p m := St (lm m) (mal m) (hdrs m) (rest m) (parsed_flag m) (ruri m) (new_uri m) (parsed_uri m) (dst_uri m) (send_sock m) (msg_id m) i p (callbacks m).
Definition ran m := St (lm m) (mal m) (hdrs m) (rest m) (parsed_flag m) (ruri m) (new_uri m) (parsed_uri m) (dst_uri m) (send_sock m) (msg_id m) (routed_msg_id m) (routed_params m) (callbacks m ++ [routed_params m]).

(** Memory, whether a host and port are this server's, its sockets, the flags of new lumps
    and the parameter of the module. *)
Record env : Type := Env {
  mem : nat -> option Z;
  check_self : bytes -> Z -> Z;
  grep_sock_info : bytes -> Z -> Z -> option Z;
  lump_flags : Z;
  enable_double_rr : bool
}.

(** Code that changes the message and may commit a memory error. *)
Definition R (A : Type) : Type := st -> res (A * st).

#[export] Instance r_ret : MRet R := fun A a m => Ret (a, m).
#[export] Instance r_bind : MBind R := fun A B f c m =>
  match c m with Ret (a, m) => f a m | Fault x => Fault x end.

Definition get {A} (f : st -> A) : R A := fun m => Ret (f m, m).
Definition put (f : st -> st) : R unit := fun m => Ret (tt, f m).
Definition lift {A} (r : res A) : R A := fun m => match r with Ret a => Ret (a, m) | Fault x => Fault x end.

(** ** Parsing headers on demand *)

(** The flag of a header found; that of a second Via, which no routing operation asks for,
    is left out. *)
Definition field_flag (type : Z) : Z :=
  if (type =? HDR_OTHER_T) || (type =? HDR_RETRY_AFTER_T) then 0 else HDR_F type.

(** The loop of [parse_headers]: its success, the headers, what is left, the flags and the
    end of the headers if it is reached. *)
Fixpoint parse_loop (flags : Z) (hs : list hdr) (r : list item) (pf : Z) (eoh : option Z)
  : bool * list hdr * list item * Z * option Z :=
  match r with
  | [] => (true, hs, [], pf, eoh)
  | x :: r' =>
      if Z.land flags pf =? flags then (true, hs, r, pf, eoh)
      else match x with
           | Bad _ => (false, hs, r, pf, eoh)
           | Eoh o => (true, hs, r, Z.lor pf HDR_EOH_F, Some o)
           | Field h => parse_loop flags (hs ++ [h]) r' (Z.lor pf (field_flag (h_type h))) eoh
           end
  end.

Definition set_eoh (o : option Z) (l : Lumps.lmsg) : Lumps.lmsg :=
  Lumps.Lm (Lumps.buf l) o (Lumps.add_rm l) (Lumps.body_lumps l).

(** On an error [unparsed] stays where it was, with the headers found since already linked. *)
Definition parse_headers (flags : Z) (next : bool) : R Z := fun m =>
  let orig := if next then parsed_flag m else 0 in
  let pf := if next then Z.land (parsed_flag m) (Z.lnot flags) else parsed_flag m in
  let '(ok, hs, r, pf, o) := parse_loop flags (hdrs m) (rest m) pf (Lumps.eoh (lm m)) in
  if ok then Ret (0, set_lm (set_eoh o (lm m)) (set_parse hs r pf m))
  else Ret (-1, set_lm (set_eoh o (lm m)) (set_parse hs (rest m) (Z.lor pf orig) m)).

(** The offset of [msg->unparsed]. *)
Definition unparsed (m : st) : Z :=
  match rest m with
  | [] => zlen (Lumps.buf (lm m))
  | Field h :: _ => h_name h
  | Eoh o :: _ | Bad o :: _ => o
  end.

Definition is_route (h : hdr) : bool := h_type h =? HDR_ROUTE_T.

(** The first header of a kind at or after an index. *)
Fixpoint find_from (p : hdr -> bool) (i : nat) (l : list hdr) : option nat :=
  match l with
  | [] => None
  | h :: l => if p h then Some i else find_from p (S i) l
  end.

(** [msg->route]. *)
Definition first_route (m : st) : option nat := find_from is_route 0 (hdrs m).

(** The routes of the header at an index; they are there after [parse_rr]. *)
Definition routes_of (i : nat) (m : st) : option (list route) := hdrs m !! i ≫= h_rr.

Definition parse_rr (i : nat) : R Z := fun m => Ret (match routes_of i m with Some _ => 0 | None => -1 end, m).

Section Routing.
Context (e : env).

(** ** Changing the message *)

Definition on_lumps (f : option Z -> Lumps.lmsg -> res (option Z * Lumps.lmsg)) : R (option Z) := fun m =>
  match f (mem e (mal m)) (lm m) with
  | Ret (r, l) => Ret (r, set_lm l (used m))
  | Fault x => Fault x
  end.

Definition del_lump (off len : Z) : R (option Z) :=
  on_lumps (fun p l => Lumps.del_lump p (lump_flags e) l off len 0).

Definition pkg_malloc : R (option Z) := fun m => Ret (mem e (mal m), used m).

Definition rewrite_uri (u : bytes) : R Z :=
  p ← pkg_malloc;
  match p with
  | None => mret (-1)
  | Some _ => _ ← put (set_new_uri (Some u) None); mret 1
  end.

(** A buffer that is long enough is used again. *)
Definition set_dst_uri (u : bytes) : R Z :=
  d ← get dst_uri;
  if match d with Some d => zlen u <=? zlen d | None => false end then
    _ ← put (set_dst (Some u)); mret 0
  else
    p ← pkg_malloc;
    match p with
    | None => mret (-1)
    | Some _ => _ ← put (set_dst (Some u)); mret 0
    end.

(** ** Questions *)

Definition is_preloaded : R Z :=
  t ← get (fun m => find_from (fun h => h_type h =? HDR_TO_T) 0 (hdrs m));
  r ← match t with Some _ => mret 0 | None => parse_headers HDR_TO_F false end;
  if r =? -1 then mret (-1)
  else
    m ← get id;
    match find_from (fun h => h_type h =? HDR_TO_T) 0 (hdrs m) ≫= (fun i => hdrs m !! i) with
    | None => mret (-1)
    | Some h => mret (if zlen (h_tag h) =? 0 then 1 else 0)
    end.

Definition find_first_route : R Z :=
  r ← parse_headers HDR_ROUTE_F false;
  if r =? -1 then mret (-1)
  else
    f ← get first_route;
    match f with
    | Some i => r ← parse_rr i; mret (if r <? 0 then -2 else 0)
    | None => mret 1
    end.

(** A parameter with the two characters [a] and [b]: the machine of [is_2rr] and
    [is_strict], from a state to the next or to the end of the search. *)
Definition is_white (c : Z) : bool := is_ch c [§" "; 13; 10; 9].

Definition mark_step (a b : list Z) (state c : Z) : option Z :=
  if state =? 0 then Some (if is_white c then 0 else if is_ch c a then 1 else 4)
  else if state =? 1 then Some (if is_ch c b then 2 else 4)
  else if (state =? 2) || (state =? 3) then
    if is_ch c [§";"; §"="] then None else Some (if is_white c then 3 else 4)
  else if state =? 4 then Some (if c =? 34 then 5 else if c =? §";" then 0 else 4)
  else if state =? 5 then Some (if c =? 92 then 6 else if c =? 34 then 4 else 5)
  else Some 5.

Fixpoint has_mark (a b : list Z) (state : Z) (s : bytes) : bool :=
  match s with
  | [] => (state =? 2) || (state =? 3)
  | c :: s' => match mark_step a b state c with None => true | Some q => has_mark a b q s' end
  end.

Definition is_2rr (params : bytes) : bool := has_mark [§"r"; §"R"] [§"2"] 0 params.
Definition is_strict (params : bytes) : bool := negb (has_mark [§"l"; §"L"] [§"r"; §"R"] 0 params).

(** The host and port of a parsed URI. *)
Definition is_myself (uri : bytes) (u : sip_uri) : bool :=
  let r := check_self e (text uri (host u)) (if port_no u =? 0 then 5060 else port_no u) in
  if r <? 0 then false else negb (r =? 0).

Definition find_next_route (i : nat) : R (Z * nat) :=
  f ← get (fun m => find_from is_route (S i) (drop (S i) (hdrs m)));
  let found j := r ← parse_rr j; mret (if r <? 0 then (-2, i) else (0, j)) in
  match f with
  | Some j => found j
  | None =>
      r ← parse_headers HDR_ROUTE_F true;
      if r =? -1 then mret (-1, i)
      else
        hs ← get hdrs;
        let j := pred (length hs) in
        match last hs with
        | Some h => if negb (is_route h) || (j =? i)%nat then mret (1, i) else found j
        | None => lift (Fault NullDeref)
        end
  end.

(** ** Routing *)

(** The request URI becomes the last Route. *)
Definition save_ruri : R Z :=
  r ← parse_headers HDR_EOH_F false;
  if r =? -1 then mret (-1)
  else
    m ← get id;
    a ← on_lumps (fun p l => Lumps.anchor_lump p (lump_flags e) l (unparsed m) 0 0);
    match a with
    | None => mret (-2)
    | Some a =>
        p ← pkg_malloc;
        match p with
        | None => mret (-3)
        | Some _ =>
            x ← on_lumps (fun p l =>
                  t ← Lumps.insert_new_lump_before p (lump_flags e) a (ROUTE_PREFIX ++ ruri m ++ ROUTE_SUFFIX) 0
                        (if Lumps.has a (Lumps.add_rm l) then Lumps.add_rm l else Lumps.body_lumps l);
                  Ret (t.1, if Lumps.has a (Lumps.add_rm l) then Lumps.set_add_rm t.2 l else Lumps.set_body_lumps t.2 l));
            mret (match x with None => -4 | Some _ => 0 end)
        end
    end.

Definition RH_MADDR_PARAM_MAX_LEN : Z := 127.

(** A URI with maddr is replaced by one of that address, in a static buffer. *)
Definition get_maddr_uri (uri : bytes) (puri : option sip_uri) : R (Z * bytes) :=
  r ← match puri with Some u => mret (inr u) | None => lift (parse_uri uri) end;
  match r with
  | inl _ => mret (RR_ERROR, uri)
  | inr u =>
      match par u MADDR with
      | None => mret (0, uri)
      | Some _ =>
          let a := text uri (val u MADDR) in
          let p := text uri (port u) in
          if zlen a >? RH_MADDR_PARAM_MAX_LEN - 10 then mret (RR_ERROR, uri)
          else
            let w := B "sip:" ++ a ++ (if 0 <? zlen p then §":" :: p else []) in
            if zlen w + 1 <=? RH_MADDR_PARAM_MAX_LEN + 1 then mret (0, w) else lift (Fault OutOfBounds)
      end
  end.

Definition hdr_at (i : nat) : R hdr := fun m => match hdrs m !! i with Some h => Ret (h, m) | None => Fault NullDeref end.

(** The route at index [j] of the header at index [i]. *)
Definition route_at (i j : nat) : R route := fun m =>
  match routes_of i m ≫= (fun l => l !! j) with Some r => Ret (r, m) | None => Fault NullDeref end.

(** The zone up to route [j + 1] of its header, or the whole header if there is none. *)
Definition del_upto (i j : nat) : R (option Z) :=
  h ← hdr_at i;
  nx ← get (fun m => routes_of i m ≫= (fun l => l !! S j));
  match nx with
  | None => del_lump (h_name h) (h_len h)
  | Some r => del_lump (h_body h) (rr_name r - h_body h)
  end.

Definition handle_sr (i j : nat) : R Z :=
  r ← save_ruri;
  if r <? 0 then mret (-1)
  else
    rt ← route_at i j;
    '(r, uri) ← get_maddr_uri (rr_uri rt) None;
    if negb (r =? 0) then mret RR_ERROR
    else
      r ← rewrite_uri uri;
      if r <? 0 then mret (-2)
      else
        d ← del_upto i j;
        mret (match d with None => -9 | Some _ => 0 end).

(** The last route of the last Route header, with the index of the one before it. *)
Definition find_rem_target : R (option (nat * nat)) :=
  r ← parse_headers HDR_EOH_F false;
  if r =? -1 then mret None
  else
    hs ← get hdrs;
    match find_from is_route 0 (rev hs) with
    | None => mret None
    | Some k =>
        let i := (length hs - 1 - k)%nat in
        r ← parse_rr i;
        if r <? 0 then mret None
        else
          l ← get (routes_of i);
          mret (match l with Some l => Some (i, pred (length l)) | None => None end)
    end.

(** The route after route [j] of header [i]; the header is removed when it has no other. *)
Inductive next_route : Type := NoMem | Failed | NoNext | Next (i j : nat).

Definition advance (i j : nat) : R next_route :=
  l ← get (routes_of i);
  if (S j <? match l with Some l => length l | None => 0 end)%nat then mret (Next i (S j))
  else
    h ← hdr_at i;
    d ← del_lump (h_name h) (h_len h);
    match d with
    | None => mret NoMem
    | Some _ =>
        '(r, k) ← find_next_route i;
        mret (if r <? 0 then Failed else if r >? 0 then NoNext else Next k 0)
    end.

Definition parse_route (i j : nat) : R (option (bytes * sip_uri)) :=
  rt ← route_at i j;
  r ← lift (parse_uri (rr_uri rt));
  mret (match r with inl _ => None | inr u => Some (rr_uri rt, u) end).

Definition force_socket (uri : bytes) (u : sip_uri) : R unit :=
  match grep_sock_info e (text uri (host u)) (port_no u) (proto u) with
  | Some s => put (set_sock (Some s))
  | None => mret tt
  end.

(** The texts of the parameters; [None] for a null pointer. *)
Definition params_text (uri : bytes) (u : sip_uri) : option bytes :=
  match params u with Some _ => Some (text uri (params u)) | None => None end.

Definition done_routing (status : Z) : R Z := _ ← put ran; mret status.

(** The next hop is a loose router: the real request URI is the last route. *)
Definition recover_target (i j : nat) (uri : bytes) (u : sip_uri) : R Z :=
  '(r, w) ← get_maddr_uri uri (Some u);
  if negb (r =? 0) then mret RR_ERROR
  else
    r ← set_dst_uri w;
    if r <? 0 then mret RR_ERROR
    else
      d ← match j with
          | O => mret (Some 0)
          | S _ =>
              h ← hdr_at i;
              rt ← route_at i j;
              del_lump (h_body h) (rr_name rt - h_body h)
          end;
      match d with
      | None => mret RR_ERROR
      | Some _ =>
          t ← find_rem_target;
          match t with
          | None => mret RR_ERROR
          | Some (hi, ri) =>
              rt ← route_at hi ri;
              '(r, w) ← get_maddr_uri (rr_uri rt) None;
              if negb (r =? 0) then mret RR_ERROR
              else
                r ← rewrite_uri w;
                if r <? 0 then mret RR_ERROR
                else
                  d ← match ri with
                      | O => h ← hdr_at hi; del_lump (h_name h) (h_len h)
                      | S k =>
                          pv ← route_at hi k;
                          let off := rr_name pv + rr_len pv in
                          del_lump off (rr_name rt + rr_len rt - off)
                      end;
                  match d with None => mret RR_ERROR | Some _ => done_routing RR_DRIVEN end
          end
      end.

(** The previous hop was a strict router. *)
Definition after_strict : R Z :=
  f ← get first_route;
  match f with
  | None => lift (Fault NullDeref)
  | Some i =>
      p ← parse_route i 0;
      match p with
      | None => mret RR_ERROR
      | Some (uri, u) =>
          n ← (if enable_double_rr e && is_2rr (text uri (params u)) && is_myself uri u then
                 _ ← force_socket uri u;
                 advance i 0
               else mret (Next i 0));
          match n with
          | NoMem | Failed => mret RR_ERROR
          | NoNext => mret NOT_RR_DRIVEN
          | Next i j =>
              p ← parse_route i j;
              match p with
              | None => mret RR_ERROR
              | Some (uri, u) =>
                  m ← get id;
                  _ ← put (set_routed (msg_id m)
                        (match parsed_uri m with
                         | Some v => params_text (match new_uri m with Some w => w | None => ruri m end) v
                         | None => None
                         end));
                  if is_strict (text uri (params u)) then
                    '(r, w) ← get_maddr_uri uri (Some u);
                    if negb (r =? 0) then mret RR_ERROR
                    else
                      r ← rewrite_uri w;
                      if r <? 0 then mret RR_ERROR
                      else
                        d ← del_upto i j;
                        match d with None => mret RR_ERROR | Some _ => done_routing RR_DRIVEN end
                  else recover_target i j uri u
              end
          end
      end
  end.

(** What is done with the route the request goes to. *)
Definition to_route (i j : nat) (uri : bytes) (u : sip_uri) : R Z :=
  if is_strict (text uri (params u)) then
    r ← handle_sr i j;
    if r <? 0 then mret RR_ERROR else done_routing RR_DRIVEN
  else
    '(r, w) ← get_maddr_uri uri (Some u);
    if negb (r =? 0) then mret RR_ERROR
    else
      r ← set_dst_uri w;
      if r <? 0 then mret RR_ERROR
      else
        d ← match j with
            | O => mret (Some 0)
            | S _ =>
                h ← hdr_at i;
                rt ← route_at i j;
                del_lump (h_body h) (rr_name rt - h_body h)
            end;
        match d with None => mret RR_ERROR | Some _ => done_routing RR_DRIVEN end.

Definition after_loose (preloaded : bool) : R Z :=
  let none_left := done_routing (if preloaded then NOT_RR_DRIVEN else RR_DRIVEN) in
  let go i j :=
    p ← parse_route i j;
    match p with
    | None => mret RR_ERROR
    | Some (uri, u) => to_route i j uri u
    end in
  f ← get first_route;
  match f with
  | None => lift (Fault NullDeref)
  | Some i =>
      p ← parse_route i 0;
      match p with
      | None => mret RR_ERROR
      | Some (uri, u) =>
          if is_myself uri u then
            m ← get id;
            _ ← put (set_routed (msg_id m) (params_text uri u));
            n ← advance i 0;
            match n with
            | NoMem | Failed => mret RR_ERROR
            | NoNext => none_left
            | Next i j =>
                if enable_double_rr e && is_2rr (text uri (params u)) then
                  p ← parse_route i j;
                  match p with
                  | None => mret RR_ERROR
                  | Some (uri, u) =>
                      _ ← force_socket uri u;
                      n ← advance i j;
                      match n with
                      | NoMem | Failed => mret RR_ERROR
                      | NoNext => none_left
                      | Next i j => go i j
                      end
                  end
                else go i j
            end
          else to_route i 0 uri u
      end
  end.

Definition loose_route : R Z :=
  r ← find_first_route;
  if negb (r =? 0) then mret (-1)
  else
    m ← get id;
    p ← lift (parse_sip_msg_uri (parsed_uri m) (new_uri m) (ruri m));
    match p.2 with
    | None => mret (-1)
    | Some u =>
        _ ← put (set_new_uri (new_uri m) (Some u));
        r ← is_preloaded;
        if r <? 0 then mret (-1)
        else if r =? 1 then after_loose true
        else if is_myself (match new_uri m with Some w => w | None => ruri m end) u then after_strict
        else after_loose false
    end.

End Routing.

(** ** Parameters of the own route *)

Definition is_blank (c : Z) : bool := (c =? §" ") || (c =? 9).
Definition is_quote (c : Z) : bool := (c =? 34) || (c =? 39).

(** A place in the parameters: the byte before it and what follows. *)
Fixpoint skip_blanks (prev : Z) (l : bytes) : Z * bytes :=
  match l with
  | c :: l' => if is_blank c then skip_blanks c l' else (prev, l)
  | [] => (prev, [])
  end.

(** On to the next semicolon outside quotes. *)
Fixpoint skip_param (quoted : bool) (prev : Z) (l : bytes) : Z * bytes :=
  match l with
  | c :: l' =>
      if (c =? §";") && negb quoted then (prev, l)
      else skip_param (if is_quote c && negb (prev =? 92) then negb quoted else quoted) c l'
  | [] => (prev, [])
  end.

Fixpoint quoted_value (prev : Z) (l : bytes) : bytes :=
  match l with
  | c :: l' => if is_quote c && negb (prev =? 92) then [] else c :: quoted_value c l'
  | [] => []
  end.

Fixpoint token_value (l : bytes) : bytes :=
  match l with
  | c :: l' => if (c =? §";") || is_blank c then [] else c :: token_value l'
  | [] => []
  end.

(** The search; [None] when the parameter is not found.  Each round moves on. *)
Fixpoint param_loop (fuel : nat) (name : bytes) (first : bool) (prev : Z) (l : bytes) : res (option bytes) :=
  match fuel with
  | O => Fault OutOfFuel
  | S fuel =>
      if negb (zlen l >? zlen name + 2) then Ret None
      else
        let '(prev, l) := if first then (prev, l) else skip_param false prev l in
        if negb first && bool_decide (l = []) then Ret None
        else
          let '(prev, l) := if first then (prev, l) else (hd 0 l, tl l) in
          let '(prev, l) := skip_blanks prev l in
          if zlen l <? zlen name + 2 then Ret None
          else if negb (bool_decide (take (length name) l = name)) then param_loop fuel name false (hd 0 l) (tl l)
          else
            let '(prev, l) := skip_blanks (List.last name prev) (drop (length name) l) in
            match l with
            | [] => Ret (Some [])
            | c :: l =>
                if c =? §";" then Ret (Some [])
                else if negb (c =? §"=") then param_loop fuel name false c l
                else
                  let '(prev, l) := skip_blanks c l in
                  match l with
                  | [] => Ret None
                  | c :: l' => Ret (Some (if is_quote c then quoted_value c l' else token_value l))
                  end
            end
  end.

(** 0 and the value, or -1; the byte before the parameters is their semicolon. *)
Definition get_route_param (m : st) (name : bytes) : res (Z * bytes) :=
  if negb (routed_msg_id m =? msg_id m) then Ret (-1, [])
  else match routed_params m with
       | None | Some [] => Ret (-1, [])
       | Some l =>
           r ← param_loop (S (length l)) name true §";" l;
           Ret (match r with Some v => (0, v) | None => (-1, []) end)
       end.

Definition RR_FLOW_DOWNSTREAM : Z := 1.
Definition RR_FLOW_UPSTREAM : Z := 2.

(** Which way a request goes: upstream when the tag in the parameter ftag is not that of
    its From.  [last] is what is remembered of the last call, [from_tag] what parsing the
    From header gives. *)
Definition is_direction (last : Z * Z) (m : st) (from_tag : option bytes) (dir : Z) : res (Z * (Z * Z)) :=
  let answer d := (if dir =? d then 0 else -1, (msg_id m, d)) in
  if (last.1 =? msg_id m) && negb (last.2 =? 0) then
    Ret (answer (if last.2 =? RR_FLOW_UPSTREAM then RR_FLOW_UPSTREAM else RR_FLOW_DOWNSTREAM))
  else
    p ← get_route_param m (B "ftag");
    Ret (answer (if (p.1 =? 0) && negb (zlen p.2 =? 0) then
                   match from_tag with
                   | Some t => if negb (zlen t =? 0) && negb (bool_decide (t = p.2)) then RR_FLOW_UPSTREAM else RR_FLOW_DOWNSTREAM
                   | None => RR_FLOW_DOWNSTREAM
                   end
                 else RR_FLOW_DOWNSTREAM)).

End Loose.
