(* ===== verification/LooseSpec.v ===== *)
(** * What loose routing decides

    The reference works on the list of all routes of the request, whatever headers they are
    in: how many of them to take off, and what to do with the next one.  [loose_route], which
    walks headers that are parsed as it goes and cuts zones out of the message, decides the
    same; the zones it cuts leave exactly the other routes. *)

From Stdlib Require Import ZArith Lia List String Ascii Bool.
From stdpp Require Import base tactics option list.
From S2P Require Import Prelude Ut Lumps MsgBuild ParseUri Loose.

Module LooseSpec.
Import Ut ParseUri Loose.

(** ** The routes of a request *)

(** The headers still to be found, up to the end of them. *)
Fixpoint fields (r : list item) : list hdr :=
  match r with
  | Field h :: r => h :: fields r
  | _ => []
  end.

Fixpoint no_bad (r : list item) : bool :=
  match r with
  | Field _ :: r => no_bad r
  | Bad _ :: _ => false
  | _ => true
  end.

Definition all_hdrs (m : st) : list hdr := hdrs m ++ fields (rest m).

Definition routes (h : hdr) : list route :=
  if is_route h then match h_rr h with Some l => l | None => [] end else [].

Definition flat (hs : list hdr) : list route := flat_map routes hs.

(** The zones to cut to take off the first [k] routes. *)
Fixpoint cut (k : nat) (hs : list hdr) : list (Z * Z) :=
  match hs with
  | [] => []
  | h :: hs =>
      if is_route h then
        match k with
        | O => []
        | S _ =>
            let n := length (routes h) in
            if (n <=? k)%nat then (h_name h, h_len h) :: cut (k - n) hs
            else match routes h !! k with Some r => [(h_body h, rr_name r - h_body h)] | None => [] end
        end
      else cut k hs
  end.

(** The routes whose text no zone touches. *)
Definition untouched (zs : list (Z * Z)) (r : route) : bool :=
  forallb (fun z => (rr_name r + rr_len r <=? z.1) || (z.1 + z.2 <=? rr_name r)) zs.

Definition kept (zs : list (Z * Z)) (hs : list hdr) : list route := List.filter (untouched zs) (flat hs).

(** *** The layout of the headers *)

Fixpoint routes_in (lo hi : Z) (l : list route) : Prop :=
  match l with
  | [] => lo <= hi
  | r :: l => lo <= rr_name r /\ 0 < rr_len r /\ routes_in (rr_name r + rr_len r) hi l
  end.

Definition hdr_ok (h : hdr) : Prop :=
  0 <= h_name h /\ h_name h <= h_body h /\ h_body h <= h_name h + h_len h /\
  (is_route h = true -> exists l, h_rr h = Some l /\ l <> [] /\ routes_in (h_body h) (h_name h + h_len h) l).

(** One after the other, up to [n]. *)
Fixpoint hdrs_in (lo n : Z) (hs : list hdr) : Prop :=
  match hs with
  | [] => lo <= n
  | h :: hs => lo <= h_name h /\ hdr_ok h /\ hdrs_in (h_name h + h_len h) n hs
  end.

(** ** The decision *)

Record decision : Type := Dec {
  d_status : Z;
  d_dst : option bytes;
  d_uri : option bytes;
  d_taken : nat;
  d_save : bool
}.

Section Decision.
Context (e : env).

(** The parsed URI of a route. *)
Definition puri (r : route) : option sip_uri :=
  match parse_uri (rr_uri r) with Ret (inr u) => Some u | _ => None end.

(** The URI a request for this route is sent to: that of its maddr, if it has one. *)
Definition target (r : route) (u : sip_uri) : option bytes :=
  match par u MADDR with
  | None => Some (rr_uri r)
  | Some _ =>
      let a := text (rr_uri r) (val u MADDR) in
      let p := text (rr_uri r) (port u) in
      if (zlen a <=? 117) && (4 + zlen a + (if 0 <? zlen p then 1 + zlen p else 0) <=? 127)
      then Some (B "sip:" ++ a ++ (if 0 <? zlen p then §":" :: p else []))
      else None
  end.

(** How many entries at the front are this server's. *)
Definition own (r : route) (u : sip_uri) : nat :=
  if is_myself e (rr_uri r) u
  then (if enable_double_rr e && is_2rr (text (rr_uri r) (params u)) then 2 else 1)%nat
  else 0%nat.

Definition loose_decision (preloaded : bool) (rs : list route) : option decision :=
  match rs with
  | [] => None
  | r :: rs' =>
      u ← puri r;
      let k := own r u in
      _ ← (match k, rs' with 2%nat, r2 :: _ => puri r2 | _, _ => Some u end);
      match drop k rs with
      | [] => Some (Dec (if preloaded then NOT_RR_DRIVEN else RR_DRIVEN) None None (length rs) false)
      | t :: _ =>
          v ← puri t;
          w ← target t v;
          Some (if is_strict (text (rr_uri t) (params v))
                then Dec RR_DRIVEN None (Some w) (S k) true
                else Dec RR_DRIVEN (Some w) None k false)
      end
  end.
End Decision.

(** ** Cutting routes *)

Lemma filter_all {A} (p : A -> bool) l : (forall x, In x l -> p x = true) -> List.filter p l = l.
Proof. induction l as [|x l IH]; simpl; [done|]. intros H. rewrite H by auto. f_equal. auto. Qed.

Lemma filter_no {A} (p : A -> bool) l : (forall x, In x l -> p x = false) -> List.filter p l = [].
Proof. induction l as [|x l IH]; simpl; [done|]. intros H. rewrite H by auto. auto. Qed.

Lemma filter_eq {A} (p q : A -> bool) l : (forall x, In x l -> p x = q x) -> List.filter p l = List.filter q l.
Proof.
  induction l as [|x l IH]; simpl; [done|]. intros H. rewrite H by auto. rewrite IH by auto. done.
Qed.

Lemma routes_in_range lo hi l r : routes_in lo hi l -> In r l -> lo <= rr_name r /\ 0 < rr_len r /\ rr_name r + rr_len r <= hi.
Proof.
  revert lo. induction l as [|x l IH]; intros lo H I; [done|]. destruct H as (? & ? & H). destruct I as [->|I].
  - split; [done|]. split; [done|]. clear -H. revert H. generalize (rr_name r + rr_len r). induction l as [|y l IH]; simpl; [done|].
    intros z (? & ? & H). apply IH in H. lia.
  - destruct (IH _ H I) as (? & ? & ?). lia.
Qed.

Lemma routes_in_split lo hi l k r : routes_in lo hi l -> l !! k = Some r ->
  routes_in lo (rr_name r) (take k l) /\ routes_in (rr_name r) hi (drop k l).
Proof.
  revert lo k. induction l as [|x l IH]; intros lo k H E; [done|]. destruct k as [|k]; simpl in *.
  - simplify_eq. destruct H as (? & ? & ?). split; [done|]. split; [lia|done].
  - destruct H as (? & ? & H). destruct (IH _ _ H E) as [? ?]. done.
Qed.

Lemma routes_ok h : hdr_ok h -> is_route h = true ->
  h_rr h = Some (routes h) /\ routes h <> [] /\ routes_in (h_body h) (h_name h + h_len h) (routes h).
Proof.
  intros (_ & _ & _ & H) Hr. destruct (H Hr) as (l & E & N & R). unfold routes. by rewrite Hr, E.
Qed.

Lemma routes_other h : is_route h = false -> routes h = [].
Proof. unfold routes. by intros ->. Qed.

Lemma hdrs_in_range lo n hs h : hdrs_in lo n hs -> In h hs -> lo <= h_name h /\ hdr_ok h /\ h_name h + h_len h <= n.
Proof.
  revert lo. induction hs as [|x hs IH]; intros lo H I; [done|]. destruct H as (? & Ho & H). destruct I as [->|I].
  - split; [done|]. split; [done|]. clear -H. revert H. generalize (h_name h + h_len h).
    induction hs as [|y hs IH]; simpl; [done|]. intros z (? & Hy & H). apply IH in H. destruct Hy as (? & ? & ? & _). lia.
  - destruct (IH _ H I) as (? & ? & ?). destruct Ho as (? & ? & ? & _). split; [lia|done].
Qed.

Lemma flat_range lo n hs r : hdrs_in lo n hs -> In r (flat hs) -> lo <= rr_name r /\ 0 < rr_len r.
Proof.
  intros H I. apply in_flat_map in I as (h & Hh & I). destruct (hdrs_in_range _ _ _ _ H Hh) as (? & Ho & ?).
  destruct (is_route h) eqn:E; [|by rewrite routes_other in I].
  destruct (routes_ok h Ho E) as (_ & _ & R). destruct (routes_in_range _ _ _ _ R I) as (? & ? & ?).
  destruct Ho as (? & ? & ? & _). lia.
Qed.

Lemma cut_range k lo n hs z : hdrs_in lo n hs -> In z (cut k hs) -> lo <= z.1 /\ 0 <= z.2 /\ z.1 + z.2 <= n.
Proof.
  revert k lo. induction hs as [|h hs IH]; intros k lo H I; [done|]. simpl in I.
  destruct (hdrs_in_range _ _ _ h H (or_introl eq_refl)) as (_ & _ & Hn). destruct H as (? & Ho & H).
  pose proof Ho as (? & ? & ? & _).
  assert (Hrec : forall k, In z (cut k hs) -> lo <= z.1 /\ 0 <= z.2 /\ z.1 + z.2 <= n).
  { intros k' I'. destruct (IH _ _ H I') as (? & ? & ?). lia. }
  destruct (is_route h) eqn:E; [|by eapply Hrec].
  destruct k as [|k]; [done|]. case_test.
  - destruct I as [<-|I]; [simpl; lia|by eapply Hrec].
  - destruct (routes h !! S k) as [r|] eqn:Er; [|done]. destruct I as [<-|[]]. simpl.
    destruct (routes_ok h Ho E) as (_ & _ & R). apply list_elem_of_lookup_2, list_elem_of_In in Er.
    destruct (routes_in_range _ _ _ _ R Er) as (? & ? & ?). lia.
Qed.

Lemma kept_cut k lo n hs : hdrs_in lo n hs -> kept (cut k hs) hs = drop k (flat hs).
Proof.
  revert k lo. induction hs as [|h hs IH]; intros k lo H; unfold kept in *; simpl; [by rewrite drop_nil|].
  destruct H as (? & Ho & H). pose proof Ho as (? & ? & ? & _). rewrite List.filter_app.
  destruct (is_route h) eqn:E; [|rewrite routes_other by done; by apply (IH _ _ H)].
  destruct (routes_ok h Ho E) as (_ & _ & R).
  destruct k as [|k]; [rewrite drop_0; f_equal; by apply filter_all|].
  destruct (Nat.leb_spec (length (routes h)) (S k)) as [Hl|Hl].
  - rewrite drop_app_ge by done. rewrite filter_no, app_nil_l.
    + rewrite <- (IH _ _ H). apply filter_eq. intros r I. unfold untouched. simpl.
      destruct (flat_range _ _ _ _ H I). rewrite (proj2 (Z.leb_le (_ + _) (rr_name r))) by lia.
      by rewrite orb_true_r.
    + intros r I. destruct (routes_in_range _ _ _ _ R I) as (? & ? & ?). unfold untouched. simpl.
      rewrite (proj2 (Z.leb_gt _ (h_name h))), (proj2 (Z.leb_gt _ (rr_name r))) by lia. done.
  - rewrite drop_app_le by lia.
    destruct (lookup_lt_is_Some_2 (routes h) (S k) Hl) as [q Eq]. rewrite Eq.
    destruct (routes_in_split _ _ _ _ _ R Eq) as [R1 R2].
    rewrite <- (take_drop (S k) (routes h)) at 1. rewrite List.filter_app. rewrite (filter_no _ (take _ _)), app_nil_l.
    + f_equal; apply filter_all; intros r I; unfold untouched; simpl.
      * destruct (routes_in_range _ _ _ _ R2 I) as (? & ? & ?).
        rewrite (proj2 (Z.leb_le (_ + _) (rr_name r))) by lia. by rewrite orb_true_r.
      * destruct (flat_range _ _ _ _ H I). apply list_elem_of_lookup_2, list_elem_of_In in Eq.
        destruct (routes_in_range _ _ _ _ R Eq) as (? & ? & ?).
        rewrite (proj2 (Z.leb_le (_ + _) (rr_name r))) by lia. by rewrite orb_true_r.
    + intros r I. destruct (routes_in_range _ _ _ _ R1 I) as (? & ? & ?). unfold untouched. simpl.
      rewrite (proj2 (Z.leb_gt _ (h_body h))), (proj2 (Z.leb_gt _ (rr_name r))) by lia. done.
Qed.

(** ** Parsing on demand *)

Fixpoint eoh_of (r : list item) : option Z :=
  match r with
  | Field _ :: r => eoh_of r
  | Eoh o :: _ => Some o
  | _ => None
  end.

(** Where the headers end. *)
Definition tail (m : st) : Z := match eoh_of (rest m) with Some o => o | None => zlen (Lumps.buf (lm m)) end.

Record ready (m : st) : Prop := Ready {
  rd_bad : no_bad (rest m) = true;
  rd_in : hdrs_in 0 (tail m) (all_hdrs m);
  rd_tail : tail m <= zlen (Lumps.buf (lm m));
  rd_len : zlen (Lumps.buf (lm m)) < 2 ^ 32;
  rd_eoh : Lumps.eoh (lm m) = None \/ Lumps.eoh (lm m) = Some (tail m);
  rd_types : Forall (fun h => 0 <= h_type h < 63) (all_hdrs m);
  rd_flag : Z.testbit (parsed_flag m) 63 = true -> fields (rest m) = [];
  rd_route : Z.testbit (parsed_flag m) HDR_ROUTE_T = true -> first_route m = None -> fields (rest m) = []
}.

(** What the loop does: it moves headers from those to be found to those parsed. *)
Record moved (hs : list hdr) (r : list item) (o : option Z) (hs' : list hdr) (r' : list item) (o' : option Z) : Prop :=
  Moved {
    mv_hdrs : exists a, hs' = hs ++ a /\ fields r = a ++ fields r';
    mv_bad : no_bad r' = true;
    mv_eoh : eoh_of r' = eoh_of r;
    mv_set : o' = o \/ o' = eoh_of r /\ eoh_of r <> None
  }.

Lemma moved_refl hs r o : no_bad r = true -> moved hs r o hs r o.
Proof. intros H. split; auto. exists []. by rewrite app_nil_r. Qed.

Lemma moved_field hs h r o hs' r' o' : moved (hs ++ [h]) r o hs' r' o' -> moved hs (Field h :: r) o hs' r' o'.
Proof.
  intros [(a & -> & E) B O S]. split; auto. exists (h :: a). rewrite <- app_assoc. simpl. by rewrite E.
Qed.

Lemma moved_eoh hs o0 r o : moved hs (Eoh o0 :: r) o hs (Eoh o0 :: r) (Some o0).
Proof. split; auto. exists []. by rewrite app_nil_r. Qed.

Lemma land_flag_bit t pf : 0 <= t -> (Z.land (HDR_F t) pf =? HDR_F t) = Z.testbit pf t.
Proof.
  intros Ht. unfold HDR_F. rewrite Z.shiftl_1_l. destruct (Z.testbit pf t) eqn:E.
  - apply Z.eqb_eq. apply Z.bits_inj'. intros n Hn. rewrite Z.land_spec, Z.pow2_bits_eqb by done.
    destruct (Z.eqb_spec t n) as [->|]; [by rewrite E|done].
  - apply Z.eqb_neq. intros H. apply (f_equal (fun z => Z.testbit z t)) in H.
    rewrite Z.land_spec, Z.pow2_bits_true, E in H by done. done.
Qed.

Lemma field_flag_bit t n : 0 <= t -> 0 <= n -> Z.testbit (field_flag t) n = true -> n = t.
Proof.
  intros ? ? H. unfold field_flag, HDR_F in H. case_test; [by rewrite Z.testbit_0_l in H|].
  rewrite Z.shiftl_1_l, Z.pow2_bits_eqb in H by done. apply Z.eqb_eq in H. done.
Qed.

Lemma field_flag_route h : is_route h = true -> Z.testbit (field_flag (h_type h)) HDR_ROUTE_T = true.
Proof. unfold is_route. intros H. apply Z.eqb_eq in H. by rewrite H. Qed.

(** Looking for the next Route. *)
Lemma parse_route_loop hs r pf o : no_bad r = true -> Forall (fun h => 0 <= h_type h < 63) (fields r) ->
  Z.testbit pf HDR_ROUTE_T = false ->
  exists hs' r' pf' o', parse_loop HDR_ROUTE_F hs r pf o = (true, hs', r', pf', o') /\ moved hs r o hs' r' o' /\
    (Z.testbit pf' 63 = true -> Z.testbit pf 63 = true \/ fields r' = []) /\
    ((exists a h, hs' = hs ++ a ++ [h] /\ forallb (fun h => negb (is_route h)) a = true /\ is_route h = true) \/
     (fields r' = [] /\ forallb (fun h => negb (is_route h)) (fields r) = true)).
Proof.
  revert hs pf. induction r as [|x r IH]; intros hs pf Hb Ht Hp; cbn [parse_loop].
  { exists hs, [], pf, o. split; [done|]. split; [by apply moved_refl|]. auto. }
  change HDR_ROUTE_F with (HDR_F HDR_ROUTE_T). rewrite land_flag_bit, Hp by done. destruct x as [h|o'|o']; [| |done].
  - simpl in Ht. apply Forall_cons in Ht as [Hh Ht]. destruct (is_route h) eqn:E.
    + assert (Hbit : Z.testbit (Z.lor pf (field_flag (h_type h))) HDR_ROUTE_T = true)
        by (rewrite Z.lor_spec, (field_flag_route h E); apply orb_true_r).
      exists (hs ++ [h]), r, (Z.lor pf (field_flag (h_type h))), o. split.
      { destruct r as [|y r']; cbn [parse_loop]; [done|]. change HDR_ROUTE_F with (HDR_F HDR_ROUTE_T).
        by rewrite land_flag_bit, Hbit by done. }
      split; [apply moved_field, moved_refl; done|]. split.
      * intros H63. rewrite Z.lor_spec in H63. apply orb_true_iff in H63 as [H63|H63]; [auto|].
        apply field_flag_bit in H63; lia.
      * left. exists [], h. done.
    + assert (Hbit : Z.testbit (Z.lor pf (field_flag (h_type h))) HDR_ROUTE_T = false).
      { rewrite Z.lor_spec, Hp. apply not_true_iff_false. intros H. apply field_flag_bit in H; [|lia|done].
        unfold is_route in E. rewrite <- H in E. done. }
      destruct (IH (hs ++ [h]) _ Hb Ht Hbit) as (hs' & r' & pf' & o' & E1 & M & F & C).
      exists hs', r', pf', o'. split; [exact E1|]. split; [by apply moved_field|]. split.
      * intros H. apply F in H as [H|H]; [|auto]. rewrite Z.lor_spec in H. apply orb_true_iff in H as [H|H]; [auto|].
        apply field_flag_bit in H; lia.
      * destruct C as [(a & h' & -> & Ha & Hh')|[C1 C2]]; [left|right].
        -- exists (h :: a), h'. split; [by rewrite <- app_assoc|]. simpl. by rewrite E, Ha.
        -- split; [done|]. simpl. by rewrite E, C2.
  - exists hs, (Eoh o' :: r), (Z.lor pf HDR_EOH_F), (Some o'). split; [done|]. split; [apply moved_eoh|]. auto.
Qed.

Lemma eoh_bit pf : Z.land HDR_EOH_F pf = HDR_EOH_F -> Z.testbit pf 63 = true.
Proof.
  intros H. apply (f_equal (fun z => Z.testbit z 63)) in H. rewrite Z.land_spec in H.
  change (Z.testbit HDR_EOH_F 63) with true in H. done.
Qed.

(** Parsing all headers. *)
Lemma parse_eoh_loop hs r pf o : no_bad r = true -> Forall (fun h => 0 <= h_type h < 63) (fields r) ->
  (Z.testbit pf 63 = true -> fields r = []) ->
  exists r' pf' o', parse_loop HDR_EOH_F hs r pf o = (true, hs ++ fields r, r', pf', o') /\
    moved hs r o (hs ++ fields r) r' o' /\ fields r' = [].
Proof.
  revert hs pf. induction r as [|x r IH]; intros hs pf Hb Ht Hp; cbn [parse_loop].
  { exists [], pf, o. rewrite app_nil_r. split; [done|]. split; [by apply moved_refl|done]. }
  destruct (Z.eqb_spec (Z.land HDR_EOH_F pf) HDR_EOH_F) as [E|E].
  - apply eoh_bit, Hp in E. rewrite E, app_nil_r. exists (x :: r), pf, o. split; [done|].
    split; [by apply moved_refl|done].
  - destruct x as [h|o'|o']; [| |done].
    + simpl in Ht. apply Forall_cons in Ht as [Hh Ht].
      destruct (IH (hs ++ [h]) (Z.lor pf (field_flag (h_type h))) Hb Ht) as (r' & pf' & o' & E1 & M & F).
      { intros H. rewrite Z.lor_spec in H. apply orb_true_iff in H as [H|H]; [by apply Hp in H|].
        apply field_flag_bit in H; lia. }
      exists r', pf', o'. simpl. rewrite <- app_assoc in E1, M. split; [exact E1|]. split; [|done].
      by apply moved_field.
    + exists (Eoh o' :: r), (Z.lor pf HDR_EOH_F), (Some o'). simpl. rewrite app_nil_r. split; [done|].
      split; [apply moved_eoh|done].
Qed.

(** The message after some parsing. *)
Definition parsed_to (hs : list hdr) (r : list item) (pf : Z) (o : option Z) (m : st) : st :=
  set_lm (set_eoh o (lm m)) (set_parse hs r pf m).

Lemma all_moved hs r o hs' r' o' : moved hs r o hs' r' o' -> hs' ++ fields r' = hs ++ fields r.
Proof. intros [(a & -> & E) _ _ _]. by rewrite E, app_assoc. Qed.

Lemma ready_moved m hs r pf o : ready m -> moved (hdrs m) (rest m) (Lumps.eoh (lm m)) hs r o ->
  (Z.testbit pf 63 = true -> fields r = []) ->
  (Z.testbit pf HDR_ROUTE_T = true -> find_from is_route 0 hs = None -> fields r = []) ->
  ready (parsed_to hs r pf o m).
Proof.
  intros [Hb Hi Ht Hl He Hty _ _] M F1 F2. pose proof (all_moved _ _ _ _ _ _ M) as Ha.
  destruct M as [_ Mb Me Ms].
  assert (Et : tail (parsed_to hs r pf o m) = tail m) by (unfold tail; simpl; by rewrite Me).
  split; rewrite ?Et; simpl; auto; unfold all_hdrs in *; simpl; rewrite ?Ha; auto.
  destruct Ms as [-> |[-> N]]; [done|]. right. unfold tail. by destruct (eoh_of (rest m)).
Qed.

Lemma find_from_spec p i l :
  match find_from p i l with
  | Some j => exists n h, j = (i + n)%nat /\ l !! n = Some h /\ p h = true /\ forallb (fun h => negb (p h)) (take n l) = true
  | None => forallb (fun h => negb (p h)) l = true
  end.
Proof.
  revert i. induction l as [|h l IH]; intros i; simpl; [done|]. destruct (p h) eqn:E.
  - exists 0%nat, h. rewrite Nat.add_0_r. done.
  - specialize (IH (S i)). destruct (find_from p (S i) l) as [j|]; [|done].
    destruct IH as (n & h' & -> & El & Ep & Ef). exists (S n), h'. split; [lia|]. simpl. by rewrite E, Ef.
Qed.

Lemma flat_no_route hs : forallb (fun h => negb (is_route h)) hs = true -> flat hs = [].
Proof.
  induction hs as [|h hs IH]; simpl; [done|]. intros H. apply andb_true_iff in H as [H1 H2].
  apply negb_true_iff in H1. by rewrite routes_other, IH.
Qed.

Lemma flat_app a b : flat (a ++ b) = flat a ++ flat b.
Proof. apply flat_map_app. Qed.

Lemma find_from_none_app p i a b : find_from p i (a ++ b) = None -> find_from p i a = None.
Proof. revert i. induction a as [|h a IH]; intros i; simpl; [done|]. case_test; [done|]. apply IH. Qed.

(** *** The next Route header *)

(** At index [k] there is a Route header, and none between it and index [i]. *)
Definition next_at (m : st) (i k : nat) : Prop :=
  (i < k)%nat /\ exists h, hdrs m !! k = Some h /\ is_route h = true /\
    drop (S i) (all_hdrs m) = drop (S i) (take k (all_hdrs m)) ++ h :: drop (S k) (all_hdrs m) /\
    flat (drop (S i) (take k (all_hdrs m))) = [].

Lemma drop_at {A} (l : list A) i k x : (i <= k)%nat -> l !! k = Some x ->
  drop i l = drop i (take k l) ++ x :: drop (S k) l.
Proof.
  intros L E. rewrite <- (take_drop_middle l k x E) at 1.
  pose proof (lookup_lt_Some _ _ _ E).
  rewrite drop_app_le by (rewrite length_take; lia). done.
Qed.

Lemma routes_parsed m i h : ready m -> hdrs m !! i = Some h -> is_route h = true -> routes_of i m = Some (routes h).
Proof.
  intros H E R. unfold routes_of. rewrite E. simpl.
  destruct (hdrs_in_range _ _ _ h (rd_in m H)) as (_ & Ho & _).
  { unfold all_hdrs. apply in_or_app. left. apply list_elem_of_In. by eapply list_elem_of_lookup_2. }
  by destruct (routes_ok h Ho R) as (-> & _).
Qed.

(** One step of a computation whose first action is known. *)
Lemma rbind {A C} (c : R A) (f : A -> R C) m a m' : c m = Ret (a, m') -> (c ≫= f) m = f a m'.
Proof. unfold mbind, r_bind. by intros ->. Qed.

Ltac rrun := cbv beta iota delta [mbind r_bind mret r_ret get put Loose.lift id].

(** The same message with perhaps more headers parsed. *)
Definition later (m m' : st) : Prop :=
  (exists hs r pf o, m' = parsed_to hs r pf o m) /\ (exists a, hdrs m' = hdrs m ++ a) /\
  all_hdrs m' = all_hdrs m /\ tail m' = tail m /\ ready m'.

Lemma later_refl m : ready m -> later m m.
Proof.
  intros H. split; [exists (hdrs m), (rest m), (parsed_flag m), (Lumps.eoh (lm m)); by destruct m as [[]]|].
  split; [exists []; by rewrite app_nil_r|done].
Qed.

Lemma later_moved m hs r pf o : ready m -> moved (hdrs m) (rest m) (Lumps.eoh (lm m)) hs r o ->
  (Z.testbit pf 63 = true -> fields r = []) ->
  (Z.testbit pf HDR_ROUTE_T = true -> find_from is_route 0 hs = None -> fields r = []) ->
  later m (parsed_to hs r pf o m).
Proof.
  intros H M F1 F2. split; [eauto|]. split; [destruct M as [(a & -> & _)]; by exists a|].
  split; [by apply (all_moved _ _ _ _ _ _ M)|]. split; [unfold tail; simpl; by rewrite (mv_eoh _ _ _ _ _ _ M)|].
  by apply ready_moved.
Qed.

Lemma later_hdr m m' i h : later m m' -> hdrs m !! i = Some h -> hdrs m' !! i = Some h.
Proof. intros (_ & (a & ->) & _) E. by apply lookup_app_l_Some. Qed.

Lemma clear_bit pf : Z.testbit (Z.land pf (Z.lnot HDR_ROUTE_F)) HDR_ROUTE_T = false.
Proof. rewrite Z.land_spec, Z.lnot_spec by done. apply andb_false_r. Qed.

Lemma clear_other pf : Z.testbit (Z.land pf (Z.lnot HDR_ROUTE_F)) 63 = Z.testbit pf 63.
Proof. rewrite Z.land_spec, Z.lnot_spec by done. apply andb_true_r. Qed.

(** Parsing on to the next Route. *)
Lemma parse_next_route m : ready m ->
  exists m', parse_headers HDR_ROUTE_F true m = Ret (0, m') /\ later m m' /\
    ((exists a h, hdrs m' = hdrs m ++ a ++ [h] /\ forallb (fun h => negb (is_route h)) a = true /\ is_route h = true) \/
     (fields (rest m') = [] /\ forallb (fun h => negb (is_route h)) (fields (rest m)) = true)).
Proof.
  intros H. pose proof H as [Hb _ _ _ _ Hty Hf _]. unfold all_hdrs in Hty. apply Forall_app in Hty as [_ Hty].
  destruct (parse_route_loop (hdrs m) (rest m) _ (Lumps.eoh (lm m)) Hb Hty (clear_bit (parsed_flag m)))
    as (hs & r & pf & o & E & M & F & C).
  unfold parse_headers. rewrite E. exists (parsed_to hs r pf o m). split; [done|].
  assert (F1 : Z.testbit pf 63 = true -> fields r = []).
  { intros B. destruct (F B) as [B'|B']; [|done]. rewrite clear_other in B'. apply Hf in B'.
    destruct M as [(a & _ & Ea) _ _ _]. rewrite B' in Ea. destruct a; [done|done]. }
  split; [|simpl; exact C]. apply later_moved; auto. intros _ N. destruct C as [(a & h & -> & Ha & Hh)|[C _]]; [|done].
  exfalso. pose proof (find_from_spec is_route 0 (hdrs m ++ a ++ [h])) as S. rewrite N in S.
  rewrite !forallb_app in S. simpl in S. rewrite Hh in S. by rewrite !andb_false_r in S.
Qed.

(** Parsing all. *)
Lemma parse_all m : ready m ->
  exists m', parse_headers HDR_EOH_F false m = Ret (0, m') /\ later m m' /\ hdrs m' = all_hdrs m /\ fields (rest m') = [].
Proof.
  intros H. pose proof H as [Hb _ _ _ _ Hty Hf _]. unfold all_hdrs in Hty. apply Forall_app in Hty as [_ Hty].
  destruct (parse_eoh_loop (hdrs m) (rest m) (parsed_flag m) (Lumps.eoh (lm m)) Hb Hty Hf) as (r & pf & o & E & M & F).
  unfold parse_headers. rewrite E. exists (parsed_to (hdrs m ++ fields (rest m)) r pf o m).
  split; [done|]. split; [|done]. apply later_moved; auto.
Qed.

Lemma next_found m i n h : drop (S i) (hdrs m) !! n = Some h -> is_route h = true ->
  forallb (fun h => negb (is_route h)) (take n (drop (S i) (hdrs m))) = true -> next_at m i (S i + n).
Proof.
  intros E R F. rewrite lookup_drop in E. split; [lia|]. exists h. split; [done|]. split; [done|].
  assert (Ea : all_hdrs m !! (S i + n)%nat = Some h) by (unfold all_hdrs; by apply lookup_app_l_Some).
  split; [apply drop_at; [lia|done]|]. pose proof (lookup_lt_Some _ _ _ E). apply flat_no_route.
  unfold all_hdrs. rewrite take_app_le by lia. rewrite skipn_firstn_comm.
  by replace (S i + n - S i)%nat with n by lia.
Qed.

Lemma find_next_route_ok m i h : ready m -> hdrs m !! i = Some h -> is_route h = true ->
  exists r k m', find_next_route i m = Ret ((r, k), m') /\ later m m' /\
    (r = 1 /\ flat (drop (S i) (all_hdrs m)) = [] \/ r = 0 /\ next_at m' i k).
Proof.
  intros H E R. unfold find_next_route. rrun. pose proof (lookup_lt_Some _ _ _ E) as Li.
  pose proof (find_from_spec is_route (S i) (drop (S i) (hdrs m))) as Sp.
  destruct (find_from is_route (S i) (drop (S i) (hdrs m))) as [j|].
  - destruct Sp as (n & h' & -> & El & Eh & Ef). unfold parse_rr.
    rewrite (routes_parsed m (S i + n) h'); [|done|by rewrite <- lookup_drop|done]. simpl.
    eexists _, _, m. split; [reflexivity|]. split; [by apply later_refl|]. right. split; [done|]. by eapply next_found.
  - destruct (parse_next_route m H) as (m' & -> & L & C). cbn [Z.eqb].
    destruct C as [(a & h' & Eh & Ha & Hh')|[C1 C2]].
    + rewrite Eh. rewrite app_assoc, last_snoc, Hh'. cbn [negb orb].
      assert (El : hdrs m' !! (length (hdrs m) + length a)%nat = Some h').
      { rewrite Eh, app_assoc, lookup_app_r by (rewrite length_app; lia). by rewrite length_app, Nat.sub_diag. }
      rewrite !length_app. cbn [length]. replace (pred (length (hdrs m) + length a + 1)) with (length (hdrs m) + length a)%nat by lia.
      rewrite (proj2 (Nat.eqb_neq _ i)) by lia. unfold parse_rr. pose proof L as (_ & _ & Ea & _ & H').
      rewrite (routes_parsed m' _ h') by done. simpl. eexists _, _, m'. split; [reflexivity|]. split; [done|]. right.
      split; [done|].
      replace (length (hdrs m) + length a)%nat with (S i + (length (hdrs m) + length a - S i))%nat by lia.
      apply next_found with h'; [|done|].
      * rewrite lookup_drop. by replace (S i + (length (hdrs m) + length a - S i))%nat with (length (hdrs m) + length a)%nat by lia.
      * rewrite Eh, drop_app_le by lia. rewrite take_app_ge by (rewrite length_drop; lia).
        rewrite length_drop. replace (length (hdrs m) + length a - S i - (length (hdrs m) - S i))%nat with (length a) by lia.
        rewrite take_app_length, forallb_app, Sp, Ha. done.
    + destruct (last (hdrs m')) as [h'|] eqn:El.
      2: { apply last_None in El. destruct L as (_ & (a & E') & _). rewrite El in E'. by destruct (hdrs m). }
      assert (Z : negb (is_route h') || (pred (length (hdrs m')) =? i)%nat = true).
      { destruct (is_route h') eqn:Rh; [|done]. simpl. apply Nat.eqb_eq.
        destruct (decide (pred (length (hdrs m')) = i)) as [|Hne]; [done|]. exfalso.
        destruct L as (_ & (a & E') & Ea & _). rewrite last_lookup in El.
        assert (Hall : drop (S i) (hdrs m') !! (pred (length (hdrs m')) - S i)%nat = Some h').
        { rewrite lookup_drop. rewrite <- El. f_equal. rewrite E', length_app in *. lia. }
        unfold all_hdrs in Ea. rewrite C1, app_nil_r in Ea. rewrite Ea, drop_app_le in Hall by lia.
        apply list_elem_of_lookup_2, list_elem_of_In in Hall. apply in_app_or in Hall.
        rewrite forallb_forall in Sp, C2. destruct Hall as [I|I]; [apply Sp in I|apply C2 in I]; by rewrite Rh in I. }
      rewrite Z. eexists _, _, m'. split; [reflexivity|]. split; [done|]. left. split; [done|].
      unfold all_hdrs. rewrite drop_app_le by lia. apply flat_no_route. by rewrite forallb_app, Sp, C2.
Qed.

(** ** Cutting zones *)

Definition del_edit (z : Z * Z) : Lumps.edit := Lumps.Edit (Some z) [] [].

Lemma edits_insert le x o t :
  Lumps.edits le (Lumps.insert_sorted x o t) ≡ₚ Lumps.edit_of le x [] [] ++ Lumps.edits le t.
Proof.
  induction t as [|d b _ a _ n IH]; simpl; [done|].
  assert (Hrec : Lumps.edit_of le d (Lumps.chain_text le Lumps.LD_BEFORE b) (Lumps.chain_text le Lumps.LD_AFTER a)
      ++ Lumps.edits le (Lumps.insert_sorted x o n) ≡ₚ
    Lumps.edit_of le x [] [] ++ Lumps.edit_of le d (Lumps.chain_text le Lumps.LD_BEFORE b)
      (Lumps.chain_text le Lumps.LD_AFTER a) ++ Lumps.edits le n) by (rewrite IH; solve_Permutation).
  destruct (Lumps.op_offset (Lumps.l_op d)); [case_test; [done|exact Hrec]|exact Hrec].
Qed.

Lemma has_insert x o t a : Lumps.has a (Lumps.insert_sorted x o t) = true ->
  Lumps.l_id x = a \/ Lumps.has a t = true.
Proof.
  induction t as [|d b _ c _ n IH]; simpl; rewrite ?orb_false_r; [intros H; left; by apply Z.eqb_eq|].
  assert (Hrec : (Lumps.l_id d =? a) || Lumps.has a b || Lumps.has a c || Lumps.has a (Lumps.insert_sorted x o n) = true ->
    Lumps.l_id x = a \/ (Lumps.l_id d =? a) || Lumps.has a b || Lumps.has a c || Lumps.has a n = true).
  { intros H. apply orb_true_iff in H as [->|H]; [by right|]. apply IH in H as [H|H]; [by left|right]. rewrite H. apply orb_true_r. }
  destruct (Lumps.op_offset (Lumps.l_op d)); [|exact Hrec]. case_test; [|exact Hrec]. simpl. rewrite !orb_false_r.
  intros H. apply orb_true_iff in H as [H|H]; [left; by apply Z.eqb_eq|by right].
Qed.

Section Effects.
Context (e : env).

(** What is not lumps or parsing. *)
Definition others (m : st) : bytes * option bytes * option sip_uri * option bytes * option Z * Z * Z * option bytes * list (option bytes) :=
  (ruri m, new_uri m, parsed_uri m, dst_uri m, send_sock m, msg_id m, routed_msg_id m, routed_params m, callbacks m).

(** The edits [es] are added to those of the message and nothing else is done to its text. *)
Record cuts (es : list Lumps.edit) (m m' : st) : Prop := Cuts {
  c_all : all_hdrs m' = all_hdrs m;
  c_hdrs : exists a, hdrs m' = hdrs m ++ a;
  c_tail : tail m' = tail m;
  c_ready : ready m';
  c_buf : Lumps.buf (lm m') = Lumps.buf (lm m);
  c_body : Lumps.body_lumps (lm m') = Lumps.body_lumps (lm m);
  c_edits : forall le, Lumps.edits le (Lumps.add_rm (lm m')) ≡ₚ es ++ Lumps.edits le (Lumps.add_rm (lm m));
  c_mal : (mal m <= mal m')%nat;
  c_has : forall a, Lumps.has a (Lumps.add_rm (lm m')) = true ->
    Lumps.has a (Lumps.add_rm (lm m)) = true \/ exists n, (mal m <= n < mal m')%nat /\ mem e n = Some a
}.

Lemma cuts_later m m' : later m m' -> cuts [] m m'.
Proof. intros ((hs & r & pf & o & ->) & Hh & Ha & Ht & Hr). split; auto. Qed.

Lemma cuts_trans zs zs' m m1 m2 : cuts zs m m1 -> cuts zs' m1 m2 -> cuts (zs ++ zs') m m2.
Proof.
  intros [A1 (a1 & H1) T1 R1 B1 C1 E1 M1 S1] [A2 (a2 & H2) T2 R2 B2 C2 E2 M2 S2]. split; try congruence.
  - exists (a1 ++ a2). rewrite H2, H1. by rewrite app_assoc.
  - intros le. rewrite E2, E1. solve_Permutation.
  - lia.
  - intros a Ha. apply S2 in Ha as [Ha|(n & ? & ?)]; [|right; exists n; split; [lia|done]].
    apply S1 in Ha as [Ha|(n & ? & ?)]; [by left|right; exists n; split; [lia|done]].
Qed.

(** Changes outside lumps and parsing. *)
Lemma cuts_same m m' : ready m -> lm m' = lm m -> (mal m <= mal m')%nat -> hdrs m' = hdrs m -> rest m' = rest m ->
  parsed_flag m' = parsed_flag m -> cuts [] m m'.
Proof.
  intros [] El Em Eh Er Ep. split; unfold all_hdrs, tail in *; rewrite ?El, ?Eh, ?Er; auto.
  - exists []. by rewrite app_nil_r.
  - split; unfold all_hdrs, tail, first_route in *; rewrite ?El, ?Eh, ?Er, ?Ep; auto.
Qed.

Lemma ready_used m l : ready m -> Lumps.buf l = Lumps.buf (lm m) -> Lumps.eoh l = Lumps.eoh (lm m) -> ready (set_lm l (used m)).
Proof.
  intros [] Eb Ee. split; auto; unfold tail, all_hdrs in *; simpl; rewrite ?Eb, ?Ee; auto.
Qed.

Lemma del_lump_ok m off len : ready m -> mem e (mal m) <> None -> 0 <= off -> 0 <= len -> off + len <= tail m ->
  exists id m', del_lump e off len m = Ret (Some id, m') /\ cuts [del_edit (off, len)] m m' /\ others m' = others m.
Proof.
  intros H Hm ? ? ?. pose proof H as [_ _ Ht Hl He _ _ _]. unfold del_lump, on_lumps, Lumps.del_lump.
  rewrite !Z.gtb_ltb, u32_small by lia. rewrite !(proj2 (Z.ltb_ge (zlen _) _)) by lia.
  destruct (mem e (mal m)) as [id|] eqn:Em; [|done]. exists id. eexists. split; [reflexivity|].
  assert (Ib : Lumps.in_body (lm m) off = false).
  { unfold Lumps.in_body. destruct He as [-> | ->]; [done|]. rewrite Z.gtb_ltb. apply Z.ltb_ge. lia. }
  unfold Lumps.add_sorted. rewrite Ib. split; [|done]. split; try done.
  - exists []. by rewrite app_nil_r.
  - by apply ready_used.
  - intros le. simpl. rewrite edits_insert. done.
  - simpl. lia.
  - intros a Ha. simpl in Ha. apply has_insert in Ha as [<-|Ha]; [right|by left]. exists (mal m). simpl. split; [lia|done].
Qed.

(** *** Pointers to routes *)

(** Route [j] of the Route header [i] is [r]. *)
Definition ptr (m : st) (i j : nat) (h : hdr) (r : route) : Prop :=
  hdrs m !! i = Some h /\ is_route h = true /\ routes h !! j = Some r.

(** Its place among all routes. *)
Definition idx (m : st) (i j : nat) : nat := (length (flat (take i (all_hdrs m))) + j)%nat.

Definition whole (hs : list hdr) : list (Z * Z) := map (fun h => (h_name h, h_len h)) (List.filter is_route hs).

Lemma cut_0 hs : cut 0 hs = [].
Proof. induction hs as [|h hs IH]; simpl; [done|]. by case_test. Qed.

Definition full (hs : list hdr) : Prop := Forall (fun h => is_route h = true -> routes h <> []) hs.

Lemma hdrs_in_full lo n hs : hdrs_in lo n hs -> full hs.
Proof.
  intros H. apply List.Forall_forall. intros h I R. destruct (hdrs_in_range _ _ _ _ H I) as (_ & Ho & _).
  by destruct (routes_ok h Ho R) as (_ & N & _).
Qed.

Lemma cut_split i j hs : full hs ->
  cut (length (flat (take i hs)) + j) hs = whole (take i hs) ++ cut j (drop i hs).
Proof.
  intros F. revert i. induction F as [|h hs Hh _ IH]; intros i; [by rewrite take_nil, drop_nil|].
  destruct i as [|i]; [done|]. simpl. rewrite length_app. unfold whole. simpl.
  destruct (is_route h) eqn:E; [|rewrite routes_other by done; apply IH].
  destruct (routes h) as [|r l] eqn:El; [by destruct (Hh eq_refl)|]. simpl.
  rewrite (proj2 (Nat.leb_le (length l) _)) by lia.
  replace (length l + length (flat (take i hs)) + j - length l)%nat with (length (flat (take i hs)) + j)%nat by lia.
  f_equal. apply IH.
Qed.

Lemma ptr_all m i j h r : ptr m i j h r -> all_hdrs m !! i = Some h.
Proof. intros (E & _). unfold all_hdrs. by apply lookup_app_l_Some. Qed.

Lemma ptr_drop m i j h r : ptr m i j h r -> drop i (all_hdrs m) = h :: drop (S i) (all_hdrs m).
Proof. intros P. apply drop_S. by eapply ptr_all. Qed.

Lemma ptr_ok m i j h r : ready m -> ptr m i j h r ->
  hdr_ok h /\ 0 <= h_name h /\ h_name h + h_len h <= tail m /\ h_body h <= rr_name r /\ 0 < rr_len r /\
  rr_name r + rr_len r <= h_name h + h_len h /\ In h (all_hdrs m).
Proof.
  intros H (E & R & El). assert (I : In h (all_hdrs m)).
  { unfold all_hdrs. apply in_or_app. left. apply list_elem_of_In. by eapply list_elem_of_lookup_2. }
  destruct (hdrs_in_range _ _ _ h (rd_in m H) I) as (? & Ho & ?). destruct (routes_ok h Ho R) as (_ & _ & Rr).
  apply list_elem_of_lookup_2, list_elem_of_In in El. destruct (routes_in_range _ _ _ _ Rr El) as (? & ? & ?). done.
Qed.

Lemma ptr_flat m i j h r : ptr m i j h r ->
  drop (idx m i j) (flat (all_hdrs m)) = drop j (routes h) ++ flat (drop (S i) (all_hdrs m)).
Proof.
  intros P. unfold idx. rewrite <- (take_drop i (all_hdrs m)) at 2. rewrite flat_app, <- drop_drop, drop_app_length.
  rewrite (ptr_drop _ _ _ _ _ P). simpl. destruct P as (_ & _ & El). apply lookup_lt_Some in El.
  by rewrite drop_app_le by lia.
Qed.

Lemma ptr_at m i j h r : ptr m i j h r -> drop (idx m i j) (flat (all_hdrs m)) = r :: drop (S (idx m i j)) (flat (all_hdrs m)).
Proof.
  intros P. apply drop_S. rewrite <- (Nat.add_0_r (idx m i j)), <- lookup_drop, (ptr_flat _ _ _ _ _ P).
  destruct P as (_ & _ & El). pose proof (lookup_lt_Some _ _ _ El).
  rewrite lookup_app_l by (rewrite length_drop; lia). by rewrite lookup_drop, Nat.add_0_r.
Qed.

(** The zones for the routes before a pointer, and for those up to it. *)
Lemma cut_before m i j h r : ready m -> ptr m i j h r ->
  cut (idx m i j) (all_hdrs m) = whole (take i (all_hdrs m)) ++
    match j with O => [] | S _ => [(h_body h, rr_name r - h_body h)] end.
Proof.
  intros H P. unfold idx. rewrite cut_split by (eapply hdrs_in_full, rd_in, H).
  rewrite (ptr_drop _ _ _ _ _ P). destruct P as (_ & R & El). simpl. rewrite R. f_equal. destruct j as [|j]; [done|].
  pose proof (lookup_lt_Some _ _ _ El). rewrite (proj2 (Nat.leb_gt _ _)) by lia. by rewrite El.
Qed.

Lemma cut_upto m i j h r : ready m -> ptr m i j h r ->
  cut (S (idx m i j)) (all_hdrs m) = whole (take i (all_hdrs m)) ++
    [match routes h !! S j with None => (h_name h, h_len h) | Some r' => (h_body h, rr_name r' - h_body h) end].
Proof.
  intros H P. unfold idx. rewrite <- Nat.add_succ_r, cut_split by (eapply hdrs_in_full, rd_in, H).
  rewrite (ptr_drop _ _ _ _ _ P). destruct P as (_ & R & El). simpl. rewrite R. f_equal.
  pose proof (lookup_lt_Some _ _ _ El). destruct (routes h !! S j) as [r'|] eqn:E.
  - apply lookup_lt_Some in E. by rewrite (proj2 (Nat.leb_gt _ _)) by lia.
  - apply lookup_ge_None in E. rewrite (proj2 (Nat.leb_le _ _)) by lia.
    replace (S j - length (routes h))%nat with 0%nat by lia. by rewrite cut_0.
Qed.

Lemma ptr_routes m i j h r : ready m -> ptr m i j h r -> routes_of i m = Some (routes h).
Proof. intros H (E & R & _). by apply routes_parsed. Qed.

Lemma ptr_cuts zs m m' i j h r : cuts zs m m' -> ptr m i j h r -> ptr m' i j h r /\ idx m' i j = idx m i j.
Proof.
  intros C (E & R & El). split.
  - destruct (c_hdrs _ _ _ C) as [a Ha]. split; [rewrite Ha; by apply lookup_app_l_Some|done].
  - unfold idx. by rewrite (c_all _ _ _ C).
Qed.

(** ** The actions *)

Context (Hmem : forall n, mem e n <> None).

Lemma hdr_at_ptr m i j h r : ptr m i j h r -> hdr_at i m = Ret (h, m).
Proof. intros (E & _). unfold hdr_at. by rewrite E. Qed.

Lemma route_at_ptr m i j h r : ready m -> ptr m i j h r -> route_at i j m = Ret (r, m).
Proof.
  intros H P. unfold route_at. rewrite (ptr_routes _ _ _ _ _ H P). simpl. destruct P as (_ & _ & ->). done.
Qed.

Lemma whole_snoc i hs h : hs !! i = Some h -> is_route h = true ->
  whole (take (S i) hs) = whole (take i hs) ++ [(h_name h, h_len h)].
Proof.
  intros E R. rewrite (take_S_r hs i h E). unfold whole. rewrite List.filter_app, map_app. simpl. by rewrite R.
Qed.

Lemma whole_none hs : full hs -> flat hs = [] -> whole hs = [].
Proof.
  induction 1 as [|h hs Hh _ IH]; simpl; [done|]. intros F. apply app_eq_nil in F as [F1 F2]. unfold whole. simpl.
  destruct (is_route h) eqn:R; [by destruct (Hh eq_refl)|]. by apply IH.
Qed.

Lemma full_drop i hs : full hs -> full (drop i hs).
Proof. apply Forall_drop. Qed.

(** Going on to the next route, the header is cut when it has no other. *)
Lemma advance_ok m i j h r : ready m -> ptr m i j h r ->
  exists n m' zs, advance e i j m = Ret (n, m') /\ cuts (map del_edit zs) m m' /\ others m' = others m /\
    ((n = NoNext /\ drop (S (idx m i j)) (flat (all_hdrs m)) = [] /\
        whole (all_hdrs m) = whole (take i (all_hdrs m)) ++ zs) \/
     exists i' j' h' r', n = Next i' j' /\ ptr m' i' j' h' r' /\ idx m' i' j' = S (idx m i j) /\
        whole (take i' (all_hdrs m)) = whole (take i (all_hdrs m)) ++ zs).
Proof.
  intros H P. pose proof P as (E & R & El). pose proof (lookup_lt_Some _ _ _ El) as Lj.
  unfold advance. rrun. rewrite (ptr_routes _ _ _ _ _ H P). destruct (Nat.ltb_spec (S j) (length (routes h))) as [L|L].
  - destruct (lookup_lt_is_Some_2 _ _ L) as [r' Er']. exists (Next i (S j)), m, []. split; [done|].
    split; [apply cuts_later, later_refl, H|]. split; [done|]. right. exists i, (S j), h, r'. rewrite app_nil_r.
    split; [done|]. split; [by split|]. split; [unfold idx; lia|done].
  - rewrite (hdr_at_ptr _ _ _ _ _ P). destruct (ptr_ok _ _ _ _ _ H P) as ((_ & ? & ? & _) & ? & ? & ? & ? & ? & I).
    destruct (del_lump_ok m (h_name h) (h_len h)) as (id & m1 & E1 & C1 & O1); [done..|lia|done|].
    rewrite E1. destruct (ptr_cuts _ _ _ _ _ _ _ C1 P) as [P1 _].
    destruct (find_next_route_ok m1 i h) as (q & k & m2 & E2 & L2 & Hn); [apply C1|apply P1|done|]. rewrite E2.
    assert (C2 : cuts (map del_edit [(h_name h, h_len h)]) m m2).
    { apply (cuts_trans [_] [] m m1 m2 C1). by apply cuts_later. }
    assert (O2 : others m2 = others m) by (rewrite <- O1; destruct L2 as ((hs & rr & pf & o & ->) & _); done).
    eexists _, m2, [(h_name h, h_len h)]. split; [reflexivity|]. split; [exact C2|]. split; [done|].
    assert (F : full (all_hdrs m)) by (eapply hdrs_in_full, rd_in, H).
    assert (D : drop (S (idx m i j)) (flat (all_hdrs m)) = flat (drop (S i) (all_hdrs m))).
    { rewrite <- (Nat.add_1_r (idx m i j)), <- drop_drop, (ptr_flat _ _ _ _ _ P).
      rewrite drop_app_ge by (rewrite length_drop; lia). rewrite length_drop.
      by replace (1 - (length (routes h) - j))%nat with 0%nat by lia. }
    rewrite (c_all _ _ _ C1) in Hn. destruct Hn as [[-> Hf]|[-> (Lk & h' & Eh' & Rh' & Ed & Ef)]].
    + left. split; [done|]. split; [by rewrite D|].
      rewrite <- (take_drop (S i) (all_hdrs m)) at 1. unfold whole at 1. rewrite List.filter_app, map_app.
      fold (whole (take (S i) (all_hdrs m))). fold (whole (drop (S i) (all_hdrs m))).
      rewrite (whole_none (drop _ _)), app_nil_r by (by try apply full_drop).
      apply whole_snoc; [by eapply ptr_all|done].
    + right. rewrite (c_all _ _ _ C2) in Ed, Ef.
      assert (Ek : all_hdrs m !! k = Some h').
      { rewrite <- (c_all _ _ _ C2). unfold all_hdrs. by apply lookup_app_l_Some. }
      assert (Tk : take k (all_hdrs m) = take (S i) (all_hdrs m) ++ drop (S i) (take k (all_hdrs m))).
      { rewrite <- (take_drop (S i) (take k (all_hdrs m))) at 1. by rewrite take_take, Nat.min_l by lia. }
      destruct (routes h') as [|r' l'] eqn:El'.
      { exfalso. unfold full in F. rewrite List.Forall_forall in F.
        apply (F h'); [apply list_elem_of_In; by eapply list_elem_of_lookup_2|done|done]. }
      exists k, 0%nat, h', r'. split; [done|]. split; [by split; [|split; [|rewrite El']]|].
      assert (Ti : take (S i) (all_hdrs m) = take i (all_hdrs m) ++ [h]) by (apply take_S_r; by eapply ptr_all).
      split.
      * unfold idx. rewrite (c_all _ _ _ C2), Tk, flat_app, Ef, app_nil_r, Ti, flat_app. simpl.
        rewrite app_nil_r, length_app. lia.
      * rewrite Tk. unfold whole at 1. rewrite List.filter_app, map_app. fold (whole (take (S i) (all_hdrs m))).
        fold (whole (drop (S i) (take k (all_hdrs m)))). rewrite (whole_none (drop _ _)); [|by apply Forall_drop, Forall_take|done].
        rewrite app_nil_r. apply whole_snoc; [by eapply ptr_all|done].
Qed.

Lemma del_upto_ok m i j h r : ready m -> ptr m i j h r ->
  exists id m' z, del_upto e i j m = Ret (Some id, m') /\ cuts [del_edit z] m m' /\ others m' = others m /\
    cut (S (idx m i j)) (all_hdrs m) = whole (take i (all_hdrs m)) ++ [z].
Proof.
  intros H P. destruct (ptr_ok _ _ _ _ _ H P) as (Ho & ? & ? & ? & ? & ? & I). pose proof Ho as (_ & ? & ? & _).
  unfold del_upto. rrun. rewrite (hdr_at_ptr _ _ _ _ _ P), (ptr_routes _ _ _ _ _ H P).
  rewrite (cut_upto _ _ _ _ _ H P). simpl. destruct (routes h !! S j) as [r'|] eqn:E.
  - assert (P' : ptr m i (S j) h r') by (destruct P as (? & ? & _); by split).
    destruct (ptr_ok _ _ _ _ _ H P') as (_ & _ & _ & ? & ? & ? & _).
    destruct (del_lump_ok m (h_body h) (rr_name r' - h_body h)) as (id & m1 & E1 & C1 & O1); [done|done|lia..|].
    exists id, m1. eauto.
  - destruct (del_lump_ok m (h_name h) (h_len h)) as (id & m1 & E1 & C1 & O1); [done|done|lia..|].
    exists id, m1. eauto.
Qed.

(** Cutting the own routes in front of the one the request goes to. *)
Lemma del_before_ok m i j h r : ready m -> ptr m i j h r ->
  exists id m' zs, (match j with O => mret (Some 0) | S _ => h ← hdr_at i; rt ← route_at i j; del_lump e (h_body h) (rr_name rt - h_body h) end) m
      = Ret (Some id, m') /\ cuts (map del_edit zs) m m' /\ others m' = others m /\
    cut (idx m i j) (all_hdrs m) = whole (take i (all_hdrs m)) ++ zs.
Proof.
  intros H P. destruct (ptr_ok _ _ _ _ _ H P) as (Ho & ? & ? & ? & ? & ? & I). pose proof Ho as (_ & ? & ? & _).
  rewrite (cut_before _ _ _ _ _ H P). destruct j as [|j].
  - exists 0, m, []. split; [done|]. split; [apply cuts_later, later_refl, H|done].
  - rrun. rewrite (hdr_at_ptr _ _ _ _ _ P), (route_at_ptr _ _ _ _ _ H P).
    destruct (del_lump_ok m (h_body h) (rr_name r - h_body h)) as (id & m1 & E1 & C1 & O1); [done|done|lia..|].
    exists id, m1, [(h_body h, rr_name r - h_body h)]. eauto.
Qed.

Lemma parse_route_ok m i j h r u : ready m -> ptr m i j h r -> puri r = Some u ->
  parse_route i j m = Ret (Some (rr_uri r, u), m).
Proof.
  intros H P E. unfold parse_route. rrun. rewrite (route_at_ptr _ _ _ _ _ H P). unfold puri in E.
  by destruct (parse_uri (rr_uri r)) as [[?|?]|]; simplify_eq.
Qed.

Lemma maddr_ok m r u w p : puri r = Some u -> target r u = Some w -> p = None \/ p = Some u ->
  get_maddr_uri (rr_uri r) p m = Ret ((0, w), m).
Proof.
  intros E T Hp. unfold get_maddr_uri, puri, target in *. rewrite (rbind _ _ m (inr u) m).
  2: { destruct Hp as [-> | ->]; [|reflexivity]. rrun. by destruct (parse_uri (rr_uri r)) as [[?|?]|]; simplify_eq. }
  destruct (par u MADDR) as [s|]; [|by simplify_eq].
  match type of T with (if ?b then _ else _) = _ => destruct b eqn:A end; [|done].
  apply andb_true_iff in A as [A1 A2]. bool_to_prop. injection T as <-. unfold RH_MADDR_PARAM_MAX_LEN.
  rewrite Z.gtb_ltb, (proj2 (Z.ltb_ge _ _)) by lia.
  rewrite (proj2 (Z.leb_le _ _)); [done|]. rewrite zlen_app, zlen_app. change (zlen (B "sip:")) with 4.
  destruct (0 <? zlen (text (rr_uri r) (port u))); rewrite ?zlen_cons, ?Lumps.zlen_nil; lia.
Qed.

Lemma set_dst_ok m w : ready m ->
  exists m', set_dst_uri e w m = Ret (0, m') /\ cuts [] m m' /\ others m' = others (set_dst (Some w) m).
Proof.
  intros H. unfold set_dst_uri, pkg_malloc. rrun. case_test.
  - eexists. split; [reflexivity|]. split; [by apply cuts_same|done].
  - destruct (mem e (mal m)) eqn:E; [|by destruct (Hmem (mal m))]. eexists. split; [reflexivity|].
    split; [apply cuts_same; simpl; auto|done].
Qed.

Lemma rewrite_uri_ok m w : ready m ->
  exists m', rewrite_uri e w m = Ret (1, m') /\ cuts [] m m' /\ others m' = others (set_new_uri (Some w) None m).
Proof.
  intros H. unfold rewrite_uri, pkg_malloc. rrun. destruct (mem e (mal m)) eqn:E; [|by destruct (Hmem (mal m))].
  eexists. split; [reflexivity|]. split; [apply cuts_same; simpl; auto|done].
Qed.

(** *** Saving the request URI *)

Context (Hinj : forall n n' a, mem e n = Some a -> mem e n' = Some a -> n = n').

(** Memory that will be allocated is not that of the lumps there are. *)
Definition fresh (m : st) : Prop :=
  forall n a, (mal m <= n)%nat -> mem e n = Some a -> Lumps.has a (Lumps.add_rm (lm m)) = false.

Lemma fresh_cuts es m m' : cuts es m m' -> fresh m -> fresh m'.
Proof.
  intros C F n a Hn Ea. destruct (Lumps.has a _) eqn:Eh; [|done]. exfalso.
  apply (c_has _ _ _ C) in Eh as [Eh|(n' & ? & En)].
  - pose proof (c_mal _ _ _ C). rewrite (F n a) in Eh; [done|lia|done].
  - assert (n = n') by eauto. lia.
Qed.

Definition saved (m : st) : Lumps.edit := Lumps.Edit (Some (tail m, 0)) (ROUTE_PREFIX ++ ruri m ++ ROUTE_SUFFIX) [].

(** Text put in front of an anchor that was just made. *)
Lemma edits_before le x q v o t :
  Lumps.has (Lumps.l_id x) t = false -> Lumps.zone_of (Lumps.l_op x) = Some (o, 0) ->
  (forall pre post, Lumps.edit_of le x pre post = [Lumps.Edit (Some (o, 0)) pre post]) ->
  Lumps.edits le (Lumps.alter_at (Lumps.put_before (Lumps.new_lump q 0 (lump_flags e) (Lumps.LUMP_ADD v)))
    (Lumps.l_id x) (Lumps.insert_sorted x o t)) ≡ₚ Lumps.Edit (Some (o, 0)) v [] :: Lumps.edits le t.
Proof.
  intros Hn Hz He. 
  assert (Hid : forall t, Lumps.has (Lumps.l_id x) t = false ->
    Lumps.alter_at (Lumps.put_before (Lumps.new_lump q 0 (lump_flags e) (Lumps.LUMP_ADD v))) (Lumps.l_id x) t = t).
  { clear. induction t as [|d b IHb a IHa n IHn]; simpl; [done|]. intros H.
    apply orb_false_iff in H as [H H4]. apply orb_false_iff in H as [H H3]. apply orb_false_iff in H as [H1 H2].
    by rewrite H1, IHb, IHa, IHn. }
  assert (Hx : forall l, Lumps.has (Lumps.l_id x) l = false -> Lumps.edits le
    (Lumps.alter_at (Lumps.put_before (Lumps.new_lump q 0 (lump_flags e) (Lumps.LUMP_ADD v))) (Lumps.l_id x)
      (Lumps.Lump x Lumps.NULL Lumps.NULL l)) = Lumps.Edit (Some (o, 0)) v [] :: Lumps.edits le l).
  { intros l _. simpl. rewrite Z.eqb_refl. simpl. rewrite He, app_nil_r. done. }
  induction t as [|d b _ a _ n IHn]; cbn [Lumps.insert_sorted]; [by rewrite Hx|].
  assert (Hrec : Lumps.edits le (Lumps.alter_at (Lumps.put_before (Lumps.new_lump q 0 (lump_flags e) (Lumps.LUMP_ADD v)))
      (Lumps.l_id x) (Lumps.Lump d b a (Lumps.insert_sorted x o n))) ≡ₚ
    Lumps.Edit (Some (o, 0)) v [] :: Lumps.edits le (Lumps.Lump d b a n)).
  { simpl in Hn. apply orb_false_iff in Hn as [H H4]. apply orb_false_iff in H as [H H3]. apply orb_false_iff in H as [H1 H2].
    cbn [Lumps.alter_at]. rewrite H1. cbn [Lumps.edits]. rewrite (Hid b), (Hid a) by done. rewrite (IHn H4). solve_Permutation. }
  destruct (Lumps.op_offset (Lumps.l_op d)) as [o'|]; [|exact Hrec]. destruct (o' >? o); [|exact Hrec]. by rewrite Hx.
Qed.

Lemma has_inserted x o t : Lumps.has (Lumps.l_id x) (Lumps.insert_sorted x o t) = true.
Proof.
  induction t as [|d b _ a _ n IH]; simpl; [by rewrite Z.eqb_refl|].
  destruct (Lumps.op_offset (Lumps.l_op d)); [case_test|]; simpl; rewrite ?IH, ?Z.eqb_refl; simpl; auto using orb_true_r.
Qed.

Lemma has_before x p t a : Lumps.has a (Lumps.alter_at (Lumps.put_before x) p t) = true ->
  Lumps.l_id x = a \/ Lumps.has a t = true.
Proof.
  induction t as [|d b IHb c IHc n IHn]; simpl; [done|]. destruct (Lumps.l_id d =? p); simpl.
  - rewrite !orb_true_iff, !Z.eqb_eq. intuition discriminate.
  - rewrite !orb_true_iff. intuition.
Qed.

Lemma unparsed_tail m : fields (rest m) = [] -> no_bad (rest m) = true -> unparsed m = tail m.
Proof. unfold unparsed, tail. destruct (rest m) as [|[]]; done. Qed.

Lemma save_ruri_ok m : ready m -> fresh m ->
  exists m', save_ruri e m = Ret (0, m') /\ cuts [saved m] m m' /\ others m' = others m.
Proof.
  intros H F. destruct (parse_all m H) as (m1 & E1 & L1 & Eh & Ef). pose proof (cuts_later _ _ L1) as C1.
  pose proof (c_ready _ _ _ C1) as H1. pose proof (fresh_cuts _ _ _ C1 F) as F1.
  assert (O1 : others m1 = others m) by (destruct L1 as ((hs & r & pf & o & ->) & _); done).
  unfold save_ruri. rrun. rewrite E1. cbn [Z.eqb].
  rewrite (unparsed_tail m1 Ef (rd_bad _ H1)), (c_tail _ _ _ C1).
  pose proof (rd_tail _ H1) as Ht. rewrite (c_tail _ _ _ C1) in Ht.
  unfold on_lumps, Lumps.anchor_lump. rewrite Z.gtb_ltb, (proj2 (Z.ltb_ge _ _)) by lia.
  destruct (mem e (mal m1)) as [a|] eqn:Ea; [|by destruct (Hmem (mal m1))].
  unfold Lumps.add_sorted, Lumps.in_body.
  assert (Ib : match Lumps.eoh (lm m1) with Some o => tail m >? o | None => false end = false).
  { destruct (rd_eoh _ H1) as [-> | ->]; [done|]. rewrite (c_tail _ _ _ C1), Z.gtb_ltb. apply Z.ltb_ge. lia. }
  rewrite Ib. unfold pkg_malloc. simpl. destruct (mem e (S (mal m1))) as [b|] eqn:Eb; [|by destruct (Hmem (S (mal m1)))].
  simpl. destruct (mem e (S (S (mal m1)))) as [q|] eqn:Eq; [|by destruct (Hmem (S (S (mal m1))))].
  set (x := Lumps.new_lump a 0 (lump_flags e) (Lumps.LUMP_NOP (tail m) 0)).
  pose proof (has_inserted x (tail m) (Lumps.add_rm (lm m1))) as Hx. change (Lumps.l_id x) with a in Hx. rewrite Hx.
  unfold Lumps.insert_new_lump_before, Lumps.link_before, Lumps.at_lump. rewrite Hx. cbn [mbind res_bind fst snd].
  eexists. split; [reflexivity|]. split; [|exact O1]. apply (cuts_trans [] [saved m] m m1); [exact C1|].
  assert (Er : ruri m1 = ruri m) by (by injection O1). split; try done.
  - exists []. by rewrite app_nil_r.
  - unfold set_lm, used. simpl. apply (ready_used (used (used m1))); [|done|done]. apply (ready_used (used m1) (lm m1)); [|done|done].
    by apply (ready_used m1 (lm m1)).
  - intros le. simpl. unfold saved. rewrite Er. apply (edits_before le x q); [|done|done].
    apply (F1 (mal m1)); [lia|done].
  - simpl. lia.
  - intros y Hy. simpl in Hy. apply has_before in Hy as [<-|Hy]; [right; exists (S (S (mal m1))); simpl; split; [lia|done]|].
    apply has_insert in Hy as [<-|Hy]; [right; exists (mal m1); simpl; split; [lia|done]|by left].
Qed.

Lemma cuts_perm es es' m m' : es ≡ₚ es' -> cuts es m m' -> cuts es' m m'.
Proof. intros Hp []. split; auto. intros le. by rewrite <- Hp. Qed.

Lemma cuts_ran es m m' : cuts es m m' -> cuts es m (ran m').
Proof.
  intros C. eapply cuts_perm; [|eapply cuts_trans; [exact C|apply cuts_same; try done; apply C]].
  by rewrite app_nil_r.
Qed.

(** The outcome for the route the request goes to. *)
Definition sent_to (strict : bool) (w : bytes) (m m' : st) : Prop :=
  dst_uri m' = (if strict then dst_uri m else Some w) /\
  new_uri m' = (if strict then Some w else new_uri m) /\
  routed_params m' = routed_params m /\ callbacks m' = callbacks m ++ [routed_params m].

Lemma handle_sr_ok m i j h r u w : ready m -> fresh m -> ptr m i j h r -> puri r = Some u -> target r u = Some w ->
  exists m' z, handle_sr e i j m = Ret (0, m') /\ cuts [saved m; del_edit z] m m' /\
    others m' = others (set_new_uri (Some w) None m) /\
    cut (S (idx m i j)) (all_hdrs m) = whole (take i (all_hdrs m)) ++ [z].
Proof.
  intros H F P Eu Et. destruct (save_ruri_ok m H F) as (m1 & E1 & C1 & O1).
  destruct (ptr_cuts _ _ _ _ _ _ _ C1 P) as [P1 I1]. pose proof (c_ready _ _ _ C1) as H1.
  destruct (rewrite_uri_ok m1 w H1) as (m2 & E2 & C2 & O2). destruct (ptr_cuts _ _ _ _ _ _ _ C2 P1) as [P2 I2].
  pose proof (c_ready _ _ _ C2) as H2. destruct (del_upto_ok m2 i j h r H2 P2) as (id & m3 & z & E3 & C3 & O3 & Ez).
  exists m3, z. unfold handle_sr. rewrite (rbind _ _ _ _ _ E1). cbn [Z.ltb Z.compare].
  rewrite (rbind _ _ _ _ _ (route_at_ptr _ _ _ _ _ H1 P1)).
  rewrite (rbind _ _ _ _ _ (maddr_ok m1 r u w None Eu Et (or_introl eq_refl))). cbn [negb Z.eqb].
  rewrite (rbind _ _ _ _ _ E2). cbn [Z.ltb Z.compare]. rewrite (rbind _ _ _ _ _ E3). split; [done|].
  split; [exact (cuts_trans _ _ _ _ _ (cuts_trans _ _ _ _ _ C1 C2) C3)|]. split.
  - rewrite O3, O2. unfold others in *. simpl. by injection O1 as -> _ _ -> -> -> -> -> ->.
  - rewrite (c_all _ _ _ C2), (c_all _ _ _ C1), I2, I1 in Ez. exact Ez.
Qed.

Lemma to_route_ok m i j h r u w : ready m -> fresh m -> ptr m i j h r -> puri r = Some u -> target r u = Some w ->
  let strict := is_strict (text (rr_uri r) (params u)) in
  exists m' zs, to_route e i j (rr_uri r) u m = Ret (RR_DRIVEN, m') /\
    cuts (map del_edit zs ++ if strict then [saved m] else []) m m' /\ sent_to strict w m m' /\
    cut (if strict then S (idx m i j) else idx m i j) (all_hdrs m) = whole (take i (all_hdrs m)) ++ zs.
Proof.
  intros H F P Eu Et strict. unfold to_route. fold strict. destruct strict.
  - destruct (handle_sr_ok m i j h r u w H F P Eu Et) as (m1 & z & E1 & C1 & O1 & Ez).
    exists (ran m1), [z]. rewrite (rbind _ _ _ _ _ E1). split; [done|]. split.
    { apply cuts_ran. eapply cuts_perm; [|exact C1]. apply Permutation_swap. }
    split; [|done]. unfold sent_to, others in *. simpl in *. by injection O1 as _ -> _ -> _ _ _ -> ->.
  - rewrite (rbind _ _ _ _ _ (maddr_ok m r u w (Some u) Eu Et (or_intror eq_refl))). cbn [negb Z.eqb].
    destruct (set_dst_ok m w H) as (m1 & E1 & C1 & O1). rewrite (rbind _ _ _ _ _ E1). cbn [Z.ltb Z.compare].
    destruct (ptr_cuts _ _ _ _ _ _ _ C1 P) as [P1 I1]. pose proof (c_ready _ _ _ C1) as H1.
    destruct (del_before_ok m1 i j h r H1 P1) as (id & m2 & zs & E2 & C2 & O2 & Ez). rewrite (rbind _ _ _ _ _ E2).
    exists (ran m2), zs. split; [done|]. split.
    { rewrite app_nil_r. apply cuts_ran. exact (cuts_trans _ _ _ _ _ C1 C2). }
    rewrite (c_all _ _ _ C1), I1 in Ez. split; [|exact Ez].
    rewrite O1 in O2. unfold sent_to, others in *. simpl in *. by injection O2 as _ -> _ -> _ _ _ -> ->.
Qed.

(** ** The decision is carried out *)

Lemma first_ptr m i : ready m -> first_route m = Some i ->
  exists h r, ptr m i 0 h r /\ idx m i 0 = 0%nat /\ whole (take i (all_hdrs m)) = [].
Proof.
  intros H E. pose proof (find_from_spec is_route 0 (hdrs m)) as S. unfold first_route in E. rewrite E in S.
  destruct S as (n & h & -> & El & Eh & Ef). simpl in *.
  assert (Et : take n (all_hdrs m) = take n (hdrs m)).
  { unfold all_hdrs. apply take_app_le. apply lookup_lt_Some in El. lia. }
  assert (I : In h (all_hdrs m)).
  { unfold all_hdrs. apply in_or_app. left. apply list_elem_of_In. by eapply list_elem_of_lookup_2. }
  pose proof (hdrs_in_full _ _ _ (rd_in m H)) as F. pose proof F as F'. unfold full in F'. rewrite List.Forall_forall in F'.
  destruct (routes h) as [|r l] eqn:Er; [by destruct (F' h I Eh)|]. exists h, r. split; [by split; [|split; [|rewrite Er]]|].
  assert (Fl : flat (take n (all_hdrs m)) = []) by (rewrite Et; by apply flat_no_route).
  split; [unfold idx; by rewrite Fl|]. apply whole_none; [by apply Forall_take|done].
Qed.

Definition carried_out (m : st) (d : decision) (params : option bytes) (m' : st) : Prop :=
  cuts (map del_edit (cut (d_taken d) (all_hdrs m)) ++ if d_save d then [saved m] else []) m m' /\
  dst_uri m' = match d_dst d with Some w => Some w | None => dst_uri m end /\
  new_uri m' = match d_uri d with Some w => Some w | None => new_uri m end /\
  callbacks m' = callbacks m ++ [params].

(** Sending the request to the route at a pointer, when the headers before were cut. *)
Lemma go_ok m0 m i j h r v w zs params : cuts (map del_edit zs) m0 m -> fresh m0 -> ruri m = ruri m0 ->
  dst_uri m = dst_uri m0 -> new_uri m = new_uri m0 -> callbacks m = callbacks m0 -> routed_params m = params ->
  ptr m i j h r -> whole (take i (all_hdrs m0)) = zs -> puri r = Some v -> target r v = Some w ->
  exists m', to_route e i j (rr_uri r) v m = Ret (RR_DRIVEN, m') /\
    carried_out m0 (if is_strict (text (rr_uri r) (ParseUri.params v))
                    then Dec RR_DRIVEN None (Some w) (S (idx m i j)) true
                    else Dec RR_DRIVEN (Some w) None (idx m i j) false) params m'.
Proof.
  intros C F Er Ed En Ec Ep P Ez Eu Et.
  destruct (to_route_ok m i j h r v w) as (m' & ys & E & C' & (S1 & S2 & S3 & S4) & Hy); try done.
  { by apply C. } { by eapply fresh_cuts. }
  exists m'. split; [done|]. rewrite (c_all _ _ _ C), Ez in Hy. unfold saved in C'. rewrite Er, (c_tail _ _ _ C) in C'.
  fold (saved m0) in C'.
  assert (C2 : cuts (map del_edit (zs ++ ys) ++ if is_strict (text (rr_uri r) (ParseUri.params v)) then [saved m0] else []) m0 m').
  { rewrite map_app, <- app_assoc. exact (cuts_trans _ _ _ _ _ C C'). }
  rewrite <- Hy in C2. unfold carried_out. rewrite S1, S2, S4, Ed, En, Ec, Ep.
  destruct (is_strict _); by split_and!.
Qed.

Lemma others_eqs m m' : others m' = others m ->
  ruri m' = ruri m /\ new_uri m' = new_uri m /\ dst_uri m' = dst_uri m /\ callbacks m' = callbacks m /\
  routed_params m' = routed_params m.
Proof. unfold others. intros [= -> -> _ -> _ _ _ -> ->]. done. Qed.

Lemma force_socket_ok m uri u : ready m -> exists m', force_socket e uri u m = Ret (tt, m') /\ cuts [] m m' /\
  ruri m' = ruri m /\ new_uri m' = new_uri m /\ dst_uri m' = dst_uri m /\ callbacks m' = callbacks m /\
  routed_params m' = routed_params m.
Proof.
  intros H. unfold force_socket. destruct (grep_sock_info e _ _ _); eexists; (split; [reflexivity|]); by split; [apply cuts_same|].
Qed.

Lemma none_left_ok m0 m zs pre params : cuts (map del_edit zs) m0 m -> zs = cut (length (flat (all_hdrs m0))) (all_hdrs m0) ->
  dst_uri m = dst_uri m0 -> new_uri m = new_uri m0 -> callbacks m = callbacks m0 -> routed_params m = params ->
  exists m', done_routing (if pre : bool then NOT_RR_DRIVEN else RR_DRIVEN) m = Ret (if pre then NOT_RR_DRIVEN else RR_DRIVEN, m') /\
    carried_out m0 (Dec (if pre then NOT_RR_DRIVEN else RR_DRIVEN) None None (length (flat (all_hdrs m0))) false) params m'.
Proof.
  intros C Ez Ed En Ec Ep. eexists. split; [reflexivity|]. unfold carried_out. simpl.
  rewrite app_nil_r, <- Ez, Ed, En, Ec, Ep. split; [by apply cuts_ran|done].
Qed.

Lemma cut_all m : ready m -> cut (length (flat (all_hdrs m))) (all_hdrs m) = whole (all_hdrs m).
Proof.
  intros H. rewrite <- (Nat.add_0_r (length _)). rewrite <- (firstn_all (all_hdrs m)) at 1.
  rewrite cut_split by (eapply hdrs_in_full, rd_in, H). by rewrite firstn_all, cut_0, app_nil_r.
Qed.

(** The part of the computation after own routes were taken off. *)
Definition go (i j : nat) : R Z :=
  p ← parse_route i j; match p with None => mret RR_ERROR | Some (uri, u) => to_route e i j uri u end.

(** Where the computation stands in between: at a route, or behind the last. *)
Definition stands (m0 m : st) (n : next_route) (k : nat) (params : option bytes) : Prop :=
  ruri m = ruri m0 /\ dst_uri m = dst_uri m0 /\ new_uri m = new_uri m0 /\ callbacks m = callbacks m0 /\
  routed_params m = params /\ exists zs, cuts (map del_edit zs) m0 m /\
    ((n = NoNext /\ drop k (flat (all_hdrs m0)) = [] /\ zs = whole (all_hdrs m0)) \/
     exists i j h r, n = Next i j /\ ptr m i j h r /\ idx m i j = k /\ whole (take i (all_hdrs m0)) = zs).

Lemma advance_stands m0 m i j k params : stands m0 m (Next i j) k params ->
  exists n m', advance e i j m = Ret (n, m') /\ stands m0 m' n (S k) params.
Proof.
  intros (E1 & E2 & E3 & E4 & E5 & zs & C & [(? & _)|(i' & j' & h & r & [= <- <-] & P & <- & Ez)]); [done|].
  destruct (advance_ok m i j h r (c_ready _ _ _ C) P) as (n & m' & ys & E & C' & O & D).
  exists n, m'. split; [done|]. apply others_eqs in O as (O1 & O2 & O3 & O4 & O5). split_and!; try congruence.
  exists (zs ++ ys). split; [rewrite map_app; exact (cuts_trans _ _ _ _ _ C C')|].
  rewrite (c_all _ _ _ C) in D. destruct D as [(-> & D & W)|(i' & j' & h' & r' & -> & P' & Ei & W)].
  - left. rewrite W, Ez. done.
  - right. exists i', j', h', r'. rewrite Ez in W. done.
Qed.

Lemma route_finish_ok pre m0 m n k params d : fresh m0 -> ready m0 -> stands m0 m n k params ->
  match drop k (flat (all_hdrs m0)) with
  | [] => Some (Dec (if pre : bool then NOT_RR_DRIVEN else RR_DRIVEN) None None (length (flat (all_hdrs m0))) false)
  | t :: _ => v ← puri t; w ← target t v;
      Some (if is_strict (text (rr_uri t) (ParseUri.params v))
            then Dec RR_DRIVEN None (Some w) (S k) true else Dec RR_DRIVEN (Some w) None k false)
  end = Some d ->
  exists m', match n with
             | NoMem | Failed => mret RR_ERROR
             | NoNext => done_routing (if pre then NOT_RR_DRIVEN else RR_DRIVEN)
             | Next i j => go i j
             end m = Ret (d_status d, m') /\ carried_out m0 d params m'.
Proof.
  intros F H (E1 & E2 & E3 & E4 & E5 & zs & C & D) Hd.
  destruct D as [(-> & D & W)|(i & j & h & r & -> & P & Ei & W)].
  - rewrite D in Hd. injection Hd as <-. eapply none_left_ok; [exact C| |done..]. by rewrite cut_all.
  - pose proof (ptr_at _ _ _ _ _ P) as Dr. rewrite Ei, (c_all _ _ _ C) in Dr. rewrite Dr in Hd.
    apply bind_Some in Hd as (v & Ev & Hd). apply bind_Some in Hd as (w & Ew & Hd).
    destruct (go_ok m0 m i j h r v w zs params) as (m' & Em & Cm); try done. rewrite Ei in Cm.
    exists m'. unfold go. rewrite (rbind _ _ _ _ _ (parse_route_ok m i j h r v (c_ready _ _ _ C) P Ev)), Em.
    injection Hd as <-. split; [|done]. by destruct (is_strict _).
Qed.

(** Not even the socket of the second own entry changes where the computation stands. *)
Lemma force_stands m0 m n k params uri u : stands m0 m n k params ->
  exists m', force_socket e uri u m = Ret (tt, m') /\ stands m0 m' n k params.
Proof.
  intros (E1 & E2 & E3 & E4 & E5 & zs & C & D).
  destruct (force_socket_ok m uri u (c_ready _ _ _ C)) as (m' & E & C' & O1 & O2 & O3 & O4 & O5).
  exists m'. split; [done|]. split_and!; try congruence. exists zs. split.
  - eapply cuts_perm; [|exact (cuts_trans _ _ _ _ _ C C')]. by rewrite app_nil_r.
  - destruct D as [D|(i & j & h & r & -> & P & <- & W)]; [by left|right].
    destruct (ptr_cuts _ _ _ _ _ _ _ C' P) as [P' I']. exists i, j, h, r. done.
Qed.

Lemma stands_next m0 m i j k params : stands m0 m (Next i j) k params ->
  exists h r, ptr m i j h r /\ ready m /\ drop k (flat (all_hdrs m0)) = r :: drop (S k) (flat (all_hdrs m0)).
Proof.
  intros (_ & _ & _ & _ & _ & zs & C & [(? & _)|(i' & j' & h & r & [= <- <-] & P & <- & W)]); [done|].
  exists h, r. split; [done|]. split; [apply C|]. rewrite <- (c_all _ _ _ C). by eapply ptr_at.
Qed.

Lemma after_loose_ok pre m i d : ready m -> fresh m -> first_route m = Some i ->
  loose_decision e pre (flat (all_hdrs m)) = Some d ->
  exists m' params, after_loose e pre m = Ret (d_status d, m') /\ carried_out m d params m'.
Proof.
  intros H F Ef Hd. destruct (first_ptr m i H Ef) as (h & r & P & I0 & W0).
  pose proof (ptr_at _ _ _ _ _ P) as Dr. rewrite I0, drop_0 in Dr. unfold loose_decision in Hd. rewrite Dr in Hd.
  apply bind_Some in Hd as (u & Eu & Hd). apply bind_Some in Hd as (u2 & Eu2 & Hd). unfold own in Hd, Eu2. rewrite <- Dr in Hd.
  unfold after_loose. rewrite (rbind _ _ _ _ _ (eq_refl : get first_route m = Ret (first_route m, m))), Ef.
  rewrite (rbind _ _ _ _ _ (parse_route_ok m i 0 h r u H P Eu)).
  destruct (is_myself e (rr_uri r) u).
  2: { rewrite drop_0 in Hd. rewrite Dr in Hd. apply bind_Some in Hd as (v & Ev & Hd). apply bind_Some in Hd as (w & Ew & Hd).
       rewrite Eu in Ev. injection Ev as <-. injection Hd as <-.
       destruct (go_ok m m i 0 h r u w [] (routed_params m)) as (m' & E & C); try done.
       { apply cuts_later, later_refl, H. }
       rewrite I0 in C. exists m', (routed_params m). rewrite E. split; [by destruct (is_strict _)|done]. }
  rewrite (rbind _ _ _ _ _ (eq_refl : get id m = Ret (m, m))).
  set (m1 := set_routed (msg_id m) (params_text (rr_uri r) u) m).
  rewrite (rbind (put (set_routed (msg_id m) (params_text (rr_uri r) u))) _ m tt m1 eq_refl).
  assert (S1 : stands m m1 (Next i 0) 0 (params_text (rr_uri r) u)).
  { split_and!; try done. exists []. split; [by apply cuts_same|]. right. exists i, 0%nat, h, r. done. }
  destruct (advance_stands _ _ _ _ _ _ S1) as (n & m2 & E2 & S2). rewrite (rbind _ _ _ _ _ E2).
  destruct (enable_double_rr e && is_2rr (text (rr_uri r) (ParseUri.params u))).
  2: { destruct (route_finish_ok pre m m2 n 1 _ d F H S2 Hd) as (m' & E & C). eauto. }
  destruct n as [| | |i' j'].
  - destruct S2 as (_ & _ & _ & _ & _ & zs & _ & [(? & _)|(? & ? & ? & ? & ? & _)]); done.
  - destruct S2 as (_ & _ & _ & _ & _ & zs & _ & [(? & _)|(? & ? & ? & ? & ? & _)]); done.
  - assert (D : drop 1 (flat (all_hdrs m)) = []).
    { destruct S2 as (_ & _ & _ & _ & _ & zs & _ & [(_ & D & _)|(? & ? & ? & ? & ? & _)]); done. }
    destruct (route_finish_ok pre m m2 NoNext 1 _ d F H S2) as (m' & E & C); [|eauto].
    rewrite D. rewrite <- (Nat.add_1_r 1), <- drop_drop, D, drop_nil in Hd. exact Hd.
  - destruct (stands_next _ _ _ _ _ _ S2) as (h2 & r2 & P2 & H2 & D2). rewrite Dr in D2. simpl in D2. rewrite drop_0 in D2.
    rewrite D2 in Eu2. rewrite (rbind _ _ _ _ _ (parse_route_ok m2 i' j' h2 r2 u2 H2 P2 Eu2)).
    destruct (force_stands _ _ _ _ _ (rr_uri r2) u2 S2) as (m3 & E3 & S3). rewrite (rbind _ _ _ _ _ E3).
    destruct (advance_stands _ _ _ _ _ _ S3) as (n & m4 & E4 & S4). rewrite (rbind _ _ _ _ _ E4).
    destruct (route_finish_ok pre m m4 n 2 _ d F H S4 Hd) as (m' & E & C). eauto.
Qed.
End Effects.

(** C20: for a request from a loose router (or with a preloaded route set) whose headers
    follow each other in the message, parsed as far as they may be, and with memory left,
    [after_loose] does what the reference decides from the list of all routes: it returns
    that status; the zones it cuts, which are whole Route headers and the part in front of
    the first route that is left in its header, leave exactly the routes behind the ones
    taken off (its own one or two, and a strict next hop); the
    destination is the next hop, or for a strict router the request URI is, and then the
    old request URI is added as a Route behind the last header; and nothing else of the
    message changes. *)
Theorem loose_routing_decides e pre m i d :
  (forall n, mem e n <> None) -> (forall n n' a, mem e n = Some a -> mem e n' = Some a -> n = n') ->
  ready m -> fresh e m -> first_route m = Some i -> loose_decision e pre (flat (all_hdrs m)) = Some d ->
  let zs := cut (d_taken d) (all_hdrs m) in
  exists m', after_loose e pre m = Ret (d_status d, m') /\
    kept zs (all_hdrs m) = drop (d_taken d) (flat (all_hdrs m)) /\
    (forall le, Lumps.edits le (Lumps.add_rm (lm m')) ≡ₚ
       map del_edit zs ++ (if d_save d then [saved m] else []) ++ Lumps.edits le (Lumps.add_rm (lm m))) /\
    Lumps.body_lumps (lm m') = Lumps.body_lumps (lm m) /\ all_hdrs m' = all_hdrs m /\
    dst_uri m' = match d_dst d with Some w => Some w | None => dst_uri m end /\
    new_uri m' = match d_uri d with Some w => Some w | None => new_uri m end.
Proof.
  intros Hm Hi H F Ef Hd. destruct (after_loose_ok e Hm Hi pre m i d H F Ef Hd) as (m' & ps & E & C & D1 & D2 & _).
  exists m'. split; [done|].
  split; [by apply (kept_cut _ 0 (tail m)), (rd_in m H)|]. split_and!; try done; try apply C.
  intros le. rewrite (c_edits _ _ _ _ C le). by rewrite app_assoc.
Qed.

(** A request with two own entries in one header, a loose router in the next. *)
Definition sample_env : env :=
  Env (fun n => Some (Z.of_nat n + 1)) (fun h _ => if bool_decide (h = B "me") then 1 else 0) (fun _ _ _ => None) 0 true.

Definition sample_buf : bytes := Eval vm_compute in
  B "BYE sip:u@h SIP/2.0" ++ [13; 10] ++ B "Route: <sip:me;r2=on;lr>, <sip:me;lr>" ++ [13; 10] ++
  B "Route: <sip:next;lr>, <sip:last>" ++ [13; 10; 13; 10].

Definition sample_msg : st :=
  St (Lumps.Lm sample_buf None Lumps.NULL Lumps.NULL) 0
    [Hdr HDR_ROUTE_T 21 39 28 (Some [Rr 28 17 (B "sip:me;r2=on;lr"); Rr 47 11 (B "sip:me;lr")]) []]
    [Field (Hdr HDR_ROUTE_T 60 34 67 (Some [Rr 67 13 (B "sip:next;lr"); Rr 82 10 (B "sip:last")]) []); Eoh 94]
    HDR_ROUTE_F (B "sip:u@h") None None None None 1 0 None [].

Lemma sample_ready : ready sample_msg.
Proof.
  split; [reflexivity| |vm_compute; done|vm_compute; done|by left| |done|done].
  - vm_compute. repeat split; try done; intros _; eexists; (split; [reflexivity|]); repeat split; done.
  - repeat constructor; vm_compute; done.
Qed.

Lemma loose_routing_decides_witness :
  let zs := [(21, 39)] in
  exists m', after_loose sample_env false sample_msg = Ret (RR_DRIVEN, m') /\
    kept zs (all_hdrs sample_msg) = [Rr 67 13 (B "sip:next;lr"); Rr 82 10 (B "sip:last")] /\
    (forall le, Lumps.edits le (Lumps.add_rm (lm m')) ≡ₚ map del_edit zs ++ [] ++ []) /\
    Lumps.body_lumps (lm m') = Lumps.NULL /\ all_hdrs m' = all_hdrs sample_msg /\
    dst_uri m' = Some (B "sip:next;lr") /\ new_uri m' = None.
Proof.
  apply (loose_routing_decides sample_env false sample_msg 0 (Dec RR_DRIVEN (Some (B "sip:next;lr")) None 2 false)).
  - done.
  - intros n n' a. simpl. intros E1 E2. injection E1 as <-. injection E2. lia.
  - exact sample_ready.
  - intros n a _ _. reflexivity.
  - reflexivity.
  - vm_compute. reflexivity.
Defined.
End LooseSpec.
