(* ===== verification/LooseParam.v ===== *)
(** * Reading the parameters of routes

    The searches for lr, r2 and for the parameters of the own route, against the list of
    parameters they read; and what [Loose] gets wrong: parameters after an empty one, an
    address in maddr with a long port, and the Route header that loses all its routes. *)

From Stdlib Require Import ZArith Lia List String Ascii Bool.
From stdpp Require Import base tactics option list.
From S2P Require Import Prelude Ut Lumps MsgBuild ParseUri Loose.

Module LooseParam.
Import Ut ParseUri Loose.

(** ** Marks *)

Fixpoint drop_white (p : bytes) : bytes :=
  match p with c :: p' => if is_white c then drop_white p' else p | [] => [] end.

(** A parameter whose name is one of [a] and one of [b], whatever its value. *)
Definition named (a b : list Z) (p : bytes) : bool :=
  match drop_white p with
  | x :: y :: p' => is_ch x a && is_ch y b &&
      match drop_white p' with [] => true | c :: _ => c =? §"=" end
  | _ => false
  end.

Fixpoint join (ps : list bytes) : bytes :=
  match ps with
  | [] => []
  | [p] => p
  | p :: ps => p ++ §";" :: join ps
  end.

(** Without quotes, not empty, and not just the first letter of the mark. *)
Definition plain (a : list Z) (p : bytes) : Prop :=
  ~ In §";" p /\ ~ In 34 p /\
  match drop_white p with [] => False | [x] => is_ch x a = false | _ => True end.

Section Marks.
Context (a b : list Z).

(** Any other parameter is passed over, up to its end. *)
Lemma mark_skip p r : ~ In §";" p -> ~ In 34 p -> has_mark a b 4 (p ++ r) = has_mark a b 4 r.
Proof.
  induction p as [|c p IH]; intros H1 H2; simpl; [done|]. simpl in H1, H2.
  rewrite (proj2 (Z.eqb_neq c 34)), (proj2 (Z.eqb_neq c 59)) by (intros ->; auto). apply IH; auto.
Qed.

(** From the end of the name on. *)
Lemma mark_end q p r : (q = 2 \/ q = 3) -> ~ In §";" p -> ~ In 34 p ->
  has_mark a b q (p ++ r) =
    match drop_white p with
    | [] => has_mark a b (if bool_decide (p = []) then q else 3) r
    | c :: _ => if c =? §"=" then true else has_mark a b 4 r
    end.
Proof.
  intros Hq. revert q Hq. induction p as [|c p IH]; intros q Hq H1 H2; simpl; [done|]. simpl in H1, H2.
  assert (Eq : mark_step a b q c = if is_ch c [§";"; §"="] then None else Some (if is_white c then 3 else 4))
    by (destruct Hq as [-> | ->]; done).
  rewrite Eq. unfold is_ch at 1. simpl. rewrite (proj2 (Z.eqb_neq c 59)) by (intros ->; auto). simpl. rewrite orb_false_r.
  destruct (Z.eqb_spec c 61) as [->|N].
  - done.
  - destruct (is_white c) eqn:W.
    + rewrite IH by auto. destruct (drop_white p); [|done]. by destruct p.
    + rewrite (proj2 (Z.eqb_neq c 61)) by done. apply mark_skip; auto.
Qed.

Lemma mark_white q p r : has_mark a b 0 (q :: p ++ r) = if is_white q then has_mark a b 0 (p ++ r)
  else has_mark a b (if is_ch q a then 1 else 4) (p ++ r).
Proof. simpl. by destruct (is_white q). Qed.

(** One parameter, followed by the next or by the end. *)
Lemma mark_param p r : plain a p -> (r = [] \/ exists r', r = §";" :: r') ->
  has_mark a b 0 (p ++ r) = named a b p || match r with [] => false | _ :: r' => has_mark a b 0 r' end.
Proof.
  intros (H1 & H2 & H3) Hr. unfold named. induction p as [|c p IH]; [done|]. simpl in H1, H2, H3.
  change ((c :: p) ++ r) with (c :: p ++ r). rewrite mark_white. cbn [drop_white]. destruct (is_white c) eqn:W; [apply IH; auto|].
  assert (R4 : has_mark a b 4 r = match r with [] => false | _ :: r' => has_mark a b 0 r' end)
    by (destruct Hr as [-> |(r' & ->)]; done).
  destruct (is_ch c a) eqn:Ec.
  - destruct p as [|d p]; [by rewrite H3 in Ec|]. simpl in H1, H2. cbn [app has_mark]. unfold mark_step. simpl.
    destruct (is_ch d b) eqn:Ed; simpl.
    + rewrite mark_end by auto. destruct (drop_white p) as [|x p'] eqn:Ep.
      * simpl. destruct Hr as [-> |(r' & ->)]; [|by destruct (bool_decide _)]. by destruct (bool_decide _).
      * simpl. destruct (x =? 61); [done|]. exact R4.
    + rewrite mark_skip by auto. exact R4.
  - rewrite mark_skip by auto. rewrite R4. by destruct p.
Qed.

Lemma mark_join ps : Forall (plain a) ps -> has_mark a b 0 (join ps) = existsb (named a b) ps.
Proof.
  induction 1 as [|p ps Hp _ IH]; [done|]. destruct ps as [|q ps].
  - simpl. rewrite <- (app_nil_r p) at 1. rewrite mark_param by auto. done.
  - change (join (p :: q :: ps)) with (p ++ §";" :: join (q :: ps)). rewrite mark_param by eauto. by rewrite IH.
Qed.
End Marks.

Definition LR_L : list Z := [§"l"; §"L"].
Definition LR_R : list Z := [§"r"; §"R"].

(** On the text of a list of parameters without quotes, none empty and none the
    first letter of the name alone, [is_strict] says that none of them is lr, with or
    without a value, and [is_2rr] that one of them is r2. *)
Theorem marks_read ps :
  (Forall (plain LR_L) ps -> is_strict (join ps) = negb (existsb (named LR_L LR_R) ps)) /\
  (Forall (plain LR_R) ps -> is_2rr (join ps) = existsb (named LR_R [§"2"]) ps).
Proof. split; intros H; unfold is_strict, is_2rr; by rewrite mark_join. Qed.

(** The parameter after an empty one, or after one that is just an l, is passed
    over: whatever it is, and if it is lr, the router is taken for a strict one. *)
Theorem lr_passed_over w : ~ In §";" w -> ~ In 34 w ->
  is_strict (§";" :: w) = true /\ is_strict (§"l" :: §";" :: w) = true.
Proof.
  intros H1 H2. unfold is_strict. rewrite <- (app_nil_r w).
  assert (E : has_mark LR_L LR_R 4 (w ++ []) = false) by (by rewrite mark_skip).
  split; cbn; unfold LR_L, LR_R in E; by rewrite E.
Qed.

Lemma lr_passed_over_witness : is_strict (B ";lr") = true /\ is_strict (B "l;lr") = true.
Proof. apply (lr_passed_over (B "lr")); vm_compute; intuition discriminate. Defined.

Lemma marks_read_witness :
  is_strict (join [B "transport=tcp"; B "lr=on"]) = false /\ is_2rr (join [B "r2=on"; B "lr"]) = true.
Proof.
  split.
  - rewrite (proj1 (marks_read [B "transport=tcp"; B "lr=on"])); [reflexivity|].
    repeat constructor; vm_compute; intuition discriminate.
  - rewrite (proj2 (marks_read [B "r2=on"; B "lr"])); [reflexivity|].
    repeat constructor; vm_compute; intuition discriminate.
Defined.

(** ** The buffer of [get_maddr_uri] *)

(** A route whose URI has a maddr that passes the test of its length and a port of
    so many digits that both do not fit makes [get_maddr_uri] write past its static
    buffer: only the address is tested. *)
Theorem maddr_overflow uri u m : parse_uri uri = Ret (inr u) -> par u MADDR <> None ->
  zlen (text uri (val u MADDR)) <= 117 -> 122 < zlen (text uri (val u MADDR)) + zlen (text uri (port u)) ->
  get_maddr_uri uri None m = Fault OutOfBounds.
Proof.
  intros E Hp Ha Hl. pose proof (zlen_nonneg (text uri (val u MADDR))). unfold get_maddr_uri, mbind, r_bind, lift. rewrite E.
  destruct (par u MADDR) as [x|]; [|done]. unfold RH_MADDR_PARAM_MAX_LEN.
  rewrite Z.gtb_ltb, (proj2 (Z.ltb_ge _ _)) by lia. rewrite (proj2 (Z.ltb_lt 0 _)) by lia.
  rewrite (proj2 (Z.leb_gt _ _)); [done|]. rewrite !zlen_app, zlen_cons. change (zlen (B "sip:")) with 4. lia.
Qed.

Definition long_port_uri : bytes := B "sip:h:" ++ repeat §"0" 124 ++ B ";maddr=a".

Definition no_msg : st := St (Lumps.Lm [] None Lumps.NULL Lumps.NULL) 0 [] [] 0 [] None None None None 0 0 None [].

Lemma maddr_overflow_witness :
  exists u, parse_uri long_port_uri = Ret (inr u) /\ get_maddr_uri long_port_uri None no_msg = Fault OutOfBounds.
Proof.
  eexists. split; [vm_compute; reflexivity|]. eapply maddr_overflow; [vm_compute; reflexivity| | |]; vm_compute; done.
Defined.

(** ** A Route header without routes *)

Definition strict_env : env :=
  Env (fun n => Some (Z.of_nat n + 1)) (fun h _ => if bool_decide (h = B "me") then 1 else 0) (fun _ _ _ => None) 0 true.

Definition strict_msg : st :=
  St (Lumps.Lm (B "BYE sip:me SIP/2.0" ++ [13; 10] ++ B "Route: <sip:me;r2=on;lr>, <sip:x;lr>" ++ [13; 10; 13; 10])
       None Lumps.NULL Lumps.NULL) 0
    [Hdr HDR_ROUTE_T 20 38 27 (Some [Rr 27 17 (B "sip:me;r2=on;lr"); Rr 46 10 (B "sip:x;lr")]) []]
    [Eoh 58] HDR_ROUTE_F (B "sip:me") None None None None 1 0 None [].

(** A request from a strict router with the second own entry and one loose router in
    one Route header: the router is at once the next hop and, as the last route, the
    request URI; the two zones that are cut overlap and leave a Route header without any
    route. *)
Theorem empty_route_left le :
  exists m', after_strict strict_env strict_msg = Ret (RR_DRIVEN, m') /\
    dst_uri m' = Some (B "sip:x;lr") /\ new_uri m' = Some (B "sip:x;lr") /\
    Lumps.edited (Lumps.buf (lm m')) (Lumps.edits le (Lumps.add_rm (lm m'))) =
      B "BYE sip:me SIP/2.0" ++ [13; 10] ++ B "Route: " ++ [13; 10; 13; 10].
Proof. eexists. split; [vm_compute; reflexivity|]. split; [reflexivity|]. split; [reflexivity|]. vm_compute. reflexivity. Qed.

(** ** The parameters of the own route *)

Definition show (x : bytes * option bytes) : bytes := x.1 ++ match x.2 with Some v => §"=" :: v | None => [] end.

Definition special : list Z := [§";"; §" "; 9; 34; 39].

Definition simple_param (x : bytes * option bytes) : Prop :=
  x.1 <> [] /\ Forall (fun c => ~ In c (§"=" :: special)) x.1 /\
  match x.2 with Some v => v <> [] /\ Forall (fun c => ~ In c special) v | None => True end.

Definition dull (w : bytes) : Prop := Forall (fun c => ~ In c special) w.

Lemma show_dull x : simple_param x -> dull (show x).
Proof.
  intros (_ & Hn & Hv). apply Forall_app. split.
  - eapply Forall_impl; [exact Hn|]. simpl. tauto.
  - destruct x.2 as [v|]; [|constructor]. destruct Hv as [_ Hv]. constructor; [|done]. simpl. intuition discriminate.
Qed.

Lemma skip_dull w r prev : dull w -> exists p, skip_param false prev (w ++ §";" :: r) = (p, §";" :: r).
Proof.
  intros H. revert prev. induction H as [|c w Hc _ IH]; intros prev; [by exists prev|]. simpl.
  rewrite (proj2 (Z.eqb_neq c 59)) by (intros ->; apply Hc; simpl; tauto). simpl.
  assert (is_quote c = false) as ->.
  { unfold is_quote. rewrite (proj2 (Z.eqb_neq c 34)), (proj2 (Z.eqb_neq c 39)); [done|intros ->; apply Hc; simpl; tauto..]. }
  simpl. apply IH.
Qed.

Lemma not_blank c : ~ In c special -> is_blank c = false.
Proof.
  intros H. unfold is_blank. rewrite (proj2 (Z.eqb_neq c 32)), (proj2 (Z.eqb_neq c 9)); [done|intros ->; apply H; simpl; tauto..].
Qed.

Lemma skip_blanks_dull prev c w : ~ In c special -> skip_blanks prev (c :: w) = (prev, c :: w).
Proof. intros H. simpl. by rewrite not_blank. Qed.

Lemma token_dull v r : dull v -> (r = [] \/ exists r', r = §";" :: r') -> token_value (v ++ r) = v.
Proof.
  intros H Hr. induction H as [|c v Hc _ IH]; simpl; [by destruct Hr as [-> |(r' & ->)]|].
  rewrite (proj2 (Z.eqb_neq c 59)), not_blank by (done || intros ->; apply Hc; simpl; tauto). simpl. by rewrite IH.
Qed.

Lemma join_cons p ps : exists r, join (p :: ps) = p ++ r /\ (r = [] \/ exists r', r = §";" :: r').
Proof. destruct ps as [|q ps]; [exists []; rewrite app_nil_r; auto|]. eexists. split; [reflexivity|eauto]. Qed.

(** A name is the start of a parameter: it is its name, or its name goes on. *)
Lemma name_prefix name n r : Forall (fun c => ~ In c (§"=" :: special)) name ->
  (r = [] \/ exists c r', r = c :: r' /\ In c (§"=" :: special)) ->
  take (length name) (n ++ r) = name -> exists n', n = name ++ n'.
Proof.
  intros Hn Hr. revert n. induction Hn as [|c name Hc _ IH]; intros n E; [by exists n|].
  destruct n as [|d n]; simpl in E.
  - destruct Hr as [-> |(x & r' & -> & Hx)]; [done|]. injection E as -> _. done.
  - injection E as -> E. destruct (IH n E) as [n' ->]. by exists n'.
Qed.

Lemma show_split x r : (r = [] \/ exists r', r = §";" :: r') ->
  exists r', show x ++ r = x.1 ++ r' /\ (r' = [] \/ exists c t, r' = c :: t /\ In c (§"=" :: special)).
Proof.
  intros Hr. unfold show. rewrite <- app_assoc. eexists. split; [reflexivity|]. destruct x.2 as [v|]; simpl.
  - right. eexists _, _. split; [reflexivity|]. simpl. auto.
  - destruct Hr as [-> |(t & ->)]; [by left|right]. eexists _, _. split; [reflexivity|]. simpl. auto.
Qed.

Lemma special_or c : ~ In c (§"=" :: special) -> ~ In c special /\ c <> §"=" /\ c <> §";".
Proof. intros H. split; [intros I; apply H; by right|]. split; intros ->; apply H; simpl; tauto. Qed.

(** One round from inside a parameter, at the next one. *)
Lemma param_round fuel name prev w x ps : dull w -> simple_param x ->
  (zlen name + 2 <= zlen (join (map show (x :: ps)))) ->
  exists c t, join (map show (x :: ps)) = c :: t /\
    param_loop (S fuel) name false prev (w ++ §";" :: c :: t) =
      if negb (bool_decide (take (length name) (c :: t) = name)) then param_loop fuel name false c t
      else let '(p, l) := skip_blanks (List.last name §";") (drop (length name) (c :: t)) in
           match l with
           | [] => Ret (Some [])
           | c :: l =>
               if c =? §";" then Ret (Some [])
               else if negb (c =? §"=") then param_loop fuel name false c l
               else let '(p, l) := skip_blanks c l in
                    match l with
                    | [] => Ret None
                    | c :: l' => Ret (Some (if is_quote c then quoted_value c l' else token_value l))
                    end
           end.
Proof.
  intros Hw Hx Hl. destruct (join_cons (show x) (map show ps)) as (r & Ej & _). cbn [map] in *. rewrite Ej in *.
  pose proof (show_dull x Hx) as Hd. destruct Hx as (Hn & Hc & _). destruct x as [[|c n] o]; [done|].
  exists c, (n ++ match o with Some v => §"=" :: v | None => [] end ++ r). split; [unfold show; simpl; by rewrite <- app_assoc|].
  cbn [param_loop]. pose proof (zlen_nonneg w). unfold show in Hl. cbn [fst snd] in Hl. rewrite !zlen_app, zlen_cons in Hl.
  rewrite Z.gtb_ltb, (proj2 (Z.ltb_lt _ _)) by (rewrite zlen_app, !zlen_cons, !zlen_app; lia).
  destruct (skip_dull w (c :: n ++ match o with Some v => §"=" :: v | None => [] end ++ r) prev Hw) as [p Ep].
  rewrite Ep. cbn [negb andb bool_decide decide_rel]. rewrite bool_decide_eq_false_2 by done. cbn [hd tl].
  apply Forall_cons in Hd as [Hd _]. rewrite skip_blanks_dull by done.
  rewrite (proj2 (Z.ltb_ge _ _)) by (rewrite !zlen_cons, !zlen_app; lia). reflexivity.
Qed.

Lemma join_next y ps1 (x : bytes * option bytes) ps2 :
  join (map show ((y :: ps1) ++ x :: ps2)) = show y ++ §";" :: join (map show (ps1 ++ x :: ps2)).
Proof. by destruct ps1. Qed.

Lemma join_app_len ps1 x ps2 : zlen (show x) <= zlen (join (map show (ps1 ++ x :: ps2))).
Proof.
  induction ps1 as [|y ps1 IH].
  - destruct (join_cons (show x) (map show ps2)) as (r & Ej & _). cbn [app map]. rewrite Ej, zlen_app. pose proof (zlen_nonneg r). lia.
  - rewrite join_next, zlen_app, zlen_cons. pose proof (zlen_nonneg (show y)). lia.
Qed.

Lemma param_search ps1 fuel name v ps2 prev w : dull w -> Forall simple_param ps1 -> simple_param (name, Some v) ->
  ~ In name (map fst ps1) -> (length (w ++ §";" :: join (map show (ps1 ++ (name, Some v) :: ps2))) <= fuel)%nat ->
  param_loop fuel name false prev (w ++ §";" :: join (map show (ps1 ++ (name, Some v) :: ps2))) = Ret (Some v).
Proof.
  revert fuel prev w. induction ps1 as [|x ps1 IH]; intros fuel prev w Hw Hs Hx Hn Hf; (destruct fuel as [|fuel]; [rewrite length_app in Hf; simpl in Hf; lia|]).
  - pose proof (join_app_len [] (name, Some v) ps2) as Hl. rewrite app_nil_l in Hl.
    assert (Ls : zlen (show (name, Some v)) = zlen name + 1 + zlen v) by (unfold show; cbn [fst snd]; rewrite zlen_app, zlen_cons; lia).
    assert (Lv : 0 < zlen v) by (destruct Hx as (_ & _ & Hv & _); destruct v as [|z' v']; [done|]; rewrite zlen_cons; pose proof (zlen_nonneg v'); lia).
    destruct (param_round fuel name prev w (name, Some v) ps2 Hw Hx) as (c & t & Ej & El); [lia|].
    rewrite app_nil_l, Ej, El, <- Ej. destruct Hx as (Hn1 & Hn2 & Hv & Hv2).
    destruct (join_cons (show (name, Some v)) (map show ps2)) as (r & Er & Hr). cbn [map]. rewrite Er. unfold show. cbn [fst snd].
    rewrite <- app_assoc, take_app_length, drop_app_length, bool_decide_eq_true_2 by done. cbn [negb app].
    rewrite skip_blanks_dull by (simpl; intuition discriminate). cbn -[skip_blanks quoted_value token_value].
    destruct v as [|z v]; [done|]. pose proof Hv2 as Hv3. apply Forall_cons in Hv2 as [Hz Hv2]. cbn [app]. rewrite skip_blanks_dull by done.
    assert (is_quote z = false) as ->.
    { unfold is_quote. rewrite (proj2 (Z.eqb_neq z 34)), (proj2 (Z.eqb_neq z 39)); [done|intros ->; apply Hz; simpl; tauto..]. }
    do 2 f_equal. exact (token_dull (z :: v) r Hv3 Hr).
  - pose proof (join_app_len (x :: ps1) (name, Some v) ps2) as Hl.
    assert (Ls : zlen (show (name, Some v)) = zlen name + 1 + zlen v) by (unfold show; cbn [fst snd]; rewrite zlen_app, zlen_cons; lia).
    assert (Lv : 0 < zlen v) by (destruct Hx as (_ & _ & Hv & _); destruct v as [|z' v']; [done|]; rewrite zlen_cons; pose proof (zlen_nonneg v'); lia).
    apply Forall_cons in Hs as [Hsx Hs]. simpl in Hn.
    destruct (param_round fuel name prev w x (ps1 ++ (name, Some v) :: ps2) Hw Hsx) as (c & t & Ej & El); [cbn [app] in Hl; lia|].
    change ((x :: ps1) ++ (name, Some v) :: ps2) with (x :: ps1 ++ (name, Some v) :: ps2) in *. rewrite Ej, El.
    rewrite Ej, length_app in Hf. cbn [length] in Hf.
    pose proof (join_next x ps1 (name, Some v) ps2) as Ejn. cbn [app] in Ejn. rewrite Ej in Ejn.
    pose proof (show_dull x Hsx) as Hd. case_bool_decide as Hp; cbn [negb].
    + destruct (show_split x (§";" :: join (map show (ps1 ++ (name, Some v) :: ps2)))) as (r & Er & Hr); [eauto|].
      rewrite Ejn, Er in Hp |- *. destruct Hx as (Hx1 & Hx2 & Hx3). apply name_prefix in Hp as [n' En]; [|done..].
      rewrite En in Er |- *. rewrite <- app_assoc, drop_app_length. destruct n' as [|d n'].
      { exfalso. rewrite app_nil_r in En. apply Hn. by left. }
      destruct Hsx as (_ & Hc & _). rewrite En in Hc. apply Forall_app in Hc as [_ Hc]. apply Forall_cons in Hc as [Hc _].
      apply special_or in Hc as (Hd1 & Hd2 & Hd3). cbn [app]. rewrite skip_blanks_dull by done.
      rewrite (proj2 (Z.eqb_neq d _)), (proj2 (Z.eqb_neq d _)) by done. cbn [negb].
      assert (exists w', n' ++ r = w' ++ §";" :: join (map show (ps1 ++ (name, Some v) :: ps2)) /\ dull w') as (w' & Ew & Hw').
      { assert (Sx : show x = x.1 ++ match x.2 with Some v => §"=" :: v | None => [] end) by done.
        rewrite Sx in Er, Hd. rewrite En, <- !app_assoc in Er. apply app_inv_head in Er. cbn [app] in Er. injection Er as Er.
        exists (n' ++ match x.2 with Some v => §"=" :: v | None => [] end). split; [rewrite <- app_assoc; congruence|].
        rewrite En, <- !app_assoc in Hd. apply Forall_app in Hd as [_ Hd]. by apply Forall_cons in Hd as [_ Hd]. }
      rewrite Ew. apply IH; auto; [by split|]. rewrite <- Ew.
      assert (length (c :: t) = length ((name ++ d :: n') ++ r)) as Ht by (rewrite Ejn, Er; by rewrite <- app_assoc).
      cbn [length] in Ht. rewrite !length_app in *. cbn [length] in Ht. lia.
    + destruct (show x) as [|c' w'] eqn:Ew; [destruct Hsx as (? & _); unfold show in Ew; by destruct x.1|].
      cbn [app] in Ejn. injection Ejn as <- ->. apply Forall_cons in Hd as [_ Hd]. apply IH; auto. lia.
Qed.

(** The first round is like one behind a semicolon. *)
Lemma param_first fuel name prev l : zlen name + 2 < zlen l ->
  param_loop (S fuel) name true §";" l = param_loop (S fuel) name false prev (§";" :: l).
Proof.
  intros H. cbn [param_loop]. rewrite zlen_cons, !Z.gtb_ltb, !(proj2 (Z.ltb_lt _ _)) by lia. reflexivity.
Qed.

(** [get_route_param] finds a parameter with a value among those of the route that
    was this server's, whatever parameters without quotes and blanks are before it (there
    is one at least, lr) and behind it, as long as no earlier one has its name. *)
Theorem route_param_found m ps1 name v ps2 : routed_msg_id m = msg_id m ->
  routed_params m = Some (join (map show (ps1 ++ (name, Some v) :: ps2))) ->
  ps1 <> [] -> Forall simple_param ps1 -> simple_param (name, Some v) -> ~ In name (map fst ps1) ->
  get_route_param m name = Ret (0, v).
Proof.
  intros Ei Ep Hne Hs Hx Hn. unfold get_route_param. rewrite Ei, Z.eqb_refl, Ep. cbn [negb].
  pose proof (join_app_len (tl ps1) (name, Some v) ps2) as Hl.
  destruct ps1 as [|x ps1]; [done|]. cbn [tl] in Hl.
  assert (Ls : zlen (show (name, Some v)) = zlen name + 1 + zlen v) by (unfold show; cbn [fst snd]; rewrite zlen_app, zlen_cons; lia).
  assert (Lv : 0 < zlen v) by (destruct Hx as (_ & _ & Hv & _); destruct v as [|z' v']; [done|]; rewrite zlen_cons; pose proof (zlen_nonneg v'); lia).
  assert (Lj : zlen name + 2 < zlen (join (map show ((x :: ps1) ++ (name, Some v) :: ps2)))).
  { rewrite join_next, zlen_app, zlen_cons. pose proof (zlen_nonneg (show x)). lia. }
  set (l := join (map show ((x :: ps1) ++ (name, Some v) :: ps2))) in *.
  assert (E : param_loop (S (length l)) name true §";" l = Ret (Some v)).
  { rewrite (param_first _ _ 0) by done.
    apply (param_search (x :: ps1) _ name v ps2 0 []); [by constructor|done|done|done|]. fold l. simpl. lia. }
  destruct l as [|c l]; [unfold zlen in Lj; simpl in Lj; pose proof (zlen_nonneg name); unfold zlen in *; lia|]. rewrite E. done.
Qed.

Definition dialog_params : st :=
  set_routed 0 (Some (B "lr=on;ftag=a7;did=5.7c;x")) no_msg.

Lemma route_param_found_witness : get_route_param dialog_params (B "did") = Ret (0, B "5.7c").
Proof.
  apply (route_param_found dialog_params [(B "lr", Some (B "on")); (B "ftag", Some (B "a7"))] (B "did") (B "5.7c") [(B "x", None)]);
    try reflexivity; try discriminate.
  - repeat (constructor; [split; [done|]; split; [repeat constructor; vm_compute; intuition discriminate|
      split; [done|repeat constructor; vm_compute; intuition discriminate]]|]). constructor.
  - split; [done|]; split; [repeat constructor; vm_compute; intuition discriminate|].
    split; [done|repeat constructor; vm_compute; intuition discriminate].
  - vm_compute. intuition discriminate.
Defined.
End LooseParam.
