(* ===== verification/RecRoute.v ===== *)
(** * Record routing ([src/modules/rr/record.c])

    A proxy that wants to see the later requests of a dialog adds a Record-Route header
    with its own address.  The address is that of the socket the request came in on and, if
    it leaves by another one, a second header names that; neither is known yet, so the
    headers are put together from lumps with substitutions and conditions that are decided
    when the request is sent.

    The text is split: one anchor carries the start of the header behind it, up to the
    parameter r2, a second anchor at the same place carries the rest in front of it, so
    that parameters can be added later. *)

From Stdlib Require Import ZArith Lia List String Ascii Bool.
From stdpp Require Import base tactics option list.
From S2P Require Import Prelude Ut Lumps MsgBuild ParseUri.

Module RecRoute.
Import Ut ParseUri.

Definition RR_PREFIX : bytes := Eval vm_compute in B "Record-Route: <sip:".
Definition RR_LR : bytes := Eval vm_compute in B ";lr".
Definition RR_LR_FULL : bytes := Eval vm_compute in B ";lr=on".
Definition RR_FROMTAG : bytes := Eval vm_compute in B ";ftag=".
Definition RR_R2 : bytes := Eval vm_compute in B ";r2=on".
Definition RR_TERM : bytes := [§">"; 13; 10].
Definition RR_PARAM_BUF_SIZE : Z := 512.
Definition HDR_RECORDROUTE_T : Z := 10.

(** The lumps of the message, the next allocation, the static buffer of parameters set
    before the header is, with the message it is for, and whether the text of a lump in
    the list has been freed. *)
Record st : Type := St {
  lm : Lumps.lmsg;
  mal : nat;
  rr_param_buf : bytes;
  rr_param_msg : Z;
  dangling : bool
}.

Definition set_lm l m := St l (mal m) (rr_param_buf m) (rr_param_msg m) (dangling m).
Definition used m := St (lm m) (S (mal m)) (rr_param_buf m) (rr_param_msg m) (dangling m).
Definition set_buf b i m := St (lm m) (mal m) b i (dangling m).
Definition set_dangling m := St (lm m) (mal m) (rr_param_buf m) (rr_param_msg m) true.

(** Memory, the flags of new lumps, the parameters of the module. *)
Record env : Type := Env {
  mem : nat -> option Z;
  lump_flags : Z;
  enable_double_rr : bool;
  enable_full_lr : bool;
  add_username : bool;
  append_fromtag : bool
}.

(** The request: its id, the offset of its first header, its URIs, the tag of its From
    ([None] if the header cannot be parsed). *)
Record req : Type := Req { msg_id : Z; headers : Z; ruri : bytes; new_uri : option bytes; from_tag : option bytes }.

Definition R (A : Type) : Type := st -> res (A * st).

#[export] Instance rec_ret : MRet R := fun A a m => Ret (a, m).
#[export] Instance rec_bind : MBind R := fun A B f c m =>
  match c m with Ret (a, m) => f a m | Fault x => Fault x end.

Definition get {A} (f : st -> A) : R A := fun m => Ret (f m, m).
Definition put (f : st -> st) : R unit := fun m => Ret (tt, f m).

(** The user of the original URI, or else of the new one. *)
Definition get_username (q : req) : res (Z * bytes) :=
  r ← parse_uri (ruri q);
  match r with
  | inl _ => Ret (-1, [])
  | inr u =>
      match new_uri q with
      | Some w =>
          if zlen (text (ruri q) (user u)) =? 0 then
            r ← parse_uri w;
            Ret (match r with inl _ => (-2, []) | inr u => (0, text w (user u)) end)
          else Ret (0, text (ruri q) (user u))
      | None => Ret (0, text (ruri q) (user u))
      end
  end.

Section Recording.
Context (e : env).

Definition pkg_malloc : R (option Z) := fun m => Ret (mem e (mal m), used m).

Definition anchor_lump (off type : Z) : R (option Z) := fun m =>
  match Lumps.anchor_lump (mem e (mal m)) (lump_flags e) (lm m) off 0 type with
  | Ret (r, l) => Ret (r, set_lm l (used m))
  | Fault x => Fault x
  end.

(** An operation on the lump at [a]. *)
Definition on_lump (a : Z) (f : option Z -> Lumps.lump -> res (option Z * Lumps.lump)) : R (option Z) := fun m =>
  let head := Lumps.has a (Lumps.add_rm (lm m)) in
  match f (mem e (mal m)) (if head then Lumps.add_rm (lm m) else Lumps.body_lumps (lm m)) with
  | Ret (r, t) => Ret (r, set_lm (if head then Lumps.set_add_rm t (lm m) else Lumps.set_body_lumps t (lm m)) (used m))
  | Fault x => Fault x
  end.

Definition add_after (a : Z) (text : bytes) (type : Z) : R (option Z) :=
  on_lump a (fun p => Lumps.insert_new_lump_after p (lump_flags e) a text type).
Definition add_before (a : Z) (text : bytes) (type : Z) : R (option Z) :=
  on_lump a (fun p => Lumps.insert_new_lump_before p (lump_flags e) a text type).
Definition subst_after (a : Z) (s : Lumps.lump_subst) : R (option Z) :=
  on_lump a (fun p => Lumps.insert_subst_lump_after p (lump_flags e) a s 0).
Definition cond_after (a : Z) : R (option Z) :=
  on_lump a (fun p => Lumps.insert_cond_lump_after p (lump_flags e) a Lumps.COND_IF_DIFF_REALMS 0).
Definition cond_before (a : Z) : R (option Z) :=
  on_lump a (fun p => Lumps.insert_cond_lump_before p (lump_flags e) a Lumps.COND_IF_DIFF_REALMS 0).

Definition insert_rr_param_lump (before : Z) (s : bytes) : R (option Z) :=
  p ← pkg_malloc;
  match p with
  | None => mret None
  | Some _ => add_before before s HDR_RECORDROUTE_T
  end.

(** The parts of the header. *)
Definition rr_prefix (user : bytes) : bytes := RR_PREFIX ++ (if 0 <? zlen user then user ++ [§"@"] else []).

Definition rr_suffix (tag params : bytes) : bytes :=
  (if enable_full_lr e then RR_LR_FULL else RR_LR) ++ (if 0 <? zlen tag then RR_FROMTAG ++ tag else []) ++ params.

(** A null result of an operation goes to [lump_err]. *)
Definition then_ (c : R (option Z)) (k : Z -> R Z) : R Z :=
  r ← c; match r with None => mret (-4) | Some a => k a end.

(** On the error after the suffix is in its list, and before its pointer is cleared, its
    text is freed. *)
Definition build_rr (l l2 : Z) (user tag params : bytes) (inbound : bool) : R Z :=
  p1 ← pkg_malloc;
  p2 ← pkg_malloc;
  p3 ← pkg_malloc;
  p4 ← pkg_malloc;
  if absent p1 || absent p2 || absent p3 || absent p4 then mret (-3)
  else
    then_ (add_after l (rr_prefix user) 0) (fun l =>
    then_ (subst_after l (if inbound then Lumps.SUBST_RCV_ALL else Lumps.SUBST_SND_ALL)) (fun l =>
    then_ (if enable_double_rr e then
             c ← cond_after l;
             match c with None => mret None | Some l => add_after l RR_R2 0 end
           else mret (Some l)) (fun l =>
    then_ (add_before l2 (rr_suffix tag params) HDR_RECORDROUTE_T) (fun l2 =>
    b ← get rr_param_buf;
    x ← (if negb (zlen b =? 0) then insert_rr_param_lump l2 b else mret (Some l2));
    match x with
    | None => _ ← put set_dangling; mret (-4)
    | Some l2 => then_ (add_before l2 RR_TERM 0) (fun _ => mret 0)
    end)))).

(** The user to put in the header, if it is wanted. *)
Definition username (q : req) : R (Z * bytes) := fun m =>
  if add_username e then match get_username q with Ret r => Ret (r, m) | Fault x => Fault x end
  else Ret ((0, []), m).

(** The header that is only for a request that leaves by another address. *)
Definition outbound_rr (q : req) (user tag params : bytes) : R Z :=
  l ← anchor_lump (headers q) HDR_RECORDROUTE_T;
  l2 ← anchor_lump (headers q) 0;
  match l, l2 with
  | Some l, Some l2 =>
      l ← cond_after l;
      l2 ← cond_before l2;
      match l, l2 with
      | Some l, Some l2 =>
          r ← build_rr l l2 user tag params false;
          mret (if r <? 0 then -7 else 0)
      | _, _ => mret (-6)
      end
  | _, _ => mret (-5)
  end.

Definition inbound_rr (q : req) (user tag params : bytes) : R Z :=
  l ← anchor_lump (headers q) HDR_RECORDROUTE_T;
  l2 ← anchor_lump (headers q) 0;
  match l, l2 with
  | Some l, Some l2 =>
      r ← build_rr l l2 user tag params true;
      if r <? 0 then mret (-4)
      else _ ← put (fun m => set_buf [] (rr_param_msg m) m); mret 0
  | _, _ => mret (-3)
  end.

Definition record_route (q : req) (params : bytes) : R Z :=
  u ← username q;
  if u.1 <? 0 then mret (-1)
  else if append_fromtag e && absent (from_tag q) then mret (-2)
  else
    let tag := if append_fromtag e then match from_tag q with Some t => t | None => [] end else [] in
    _ ← put (fun m => if negb (zlen (rr_param_buf m) =? 0) && negb (rr_param_msg m =? msg_id q)
                      then set_buf [] (rr_param_msg m) m else m);
    r ← (if enable_double_rr e then outbound_rr q u.2 tag params else mret 0);
    if r <? 0 then mret r else inbound_rr q u.2 tag params.

(** A header given by the script. *)
Definition record_route_preset (q : req) (data : bytes) : R Z :=
  u ← username q;
  if u.1 <? 0 then mret (-1)
  else if append_fromtag e && absent (from_tag q) then mret (-2)
  else
    let tag := if append_fromtag e then match from_tag q with Some t => t | None => [] end else [] in
    l ← anchor_lump (headers q) HDR_RECORDROUTE_T;
    match l with
    | None => mret (-3)
    | Some l =>
        p ← pkg_malloc;
        match p with
        | None => mret (-4)
        | Some _ =>
            let hdr := RR_PREFIX ++ (if 0 <? zlen u.2 then u.2 ++ [§"@"] else []) ++ data ++
              (if 0 <? zlen tag then RR_FROMTAG ++ tag else []) ++ (if enable_full_lr e then RR_LR_FULL else RR_LR) ++ RR_TERM in
            x ← add_after l hdr 0;
            mret (match x with None => -5 | Some _ => 1 end)
        end
    end.

(** The last lump in front of an anchor that belongs to the rest of the header. *)
Fixpoint last_rr (r : Lumps.lump) (found : option Z) : option Z :=
  match r with
  | Lumps.NULL => found
  | Lumps.Lump d b _ _ =>
      last_rr b (match Lumps.l_op d with
                 | Lumps.LUMP_ADD _ => if Lumps.l_type d =? HDR_RECORDROUTE_T then Some (Lumps.l_id d) else found
                 | _ => found
                 end)
  end.

(** The lump, and the list behind the anchor it was found at. *)
Fixpoint get_rr_param_lump (root : Lumps.lump) : option Z * Lumps.lump :=
  match root with
  | Lumps.NULL => (None, Lumps.NULL)
  | Lumps.Lump _ b _ n => match last_rr b None with Some p => (Some p, n) | None => get_rr_param_lump n end
  end.

Definition add_rr_param (id : Z) (rr_param : bytes) : R Z :=
  m ← get (fun m => m);
  match get_rr_param_lump (Lumps.add_rm (lm m)) with
  | (Some p, root) =>
      x ← insert_rr_param_lump p rr_param;
      match x with
      | None => mret (-1)
      | Some _ =>
          if enable_double_rr e then
            match (get_rr_param_lump root).1 with
            | None => mret (-1)
            | Some p => x ← insert_rr_param_lump p rr_param; mret (match x with None => -1 | Some _ => 0 end)
            end
          else mret 0
      end
  | (None, _) =>
      let b := if rr_param_msg m =? id then rr_param_buf m else [] in
      _ ← put (set_buf b id);
      if zlen b + zlen rr_param >? RR_PARAM_BUF_SIZE then mret (-1)
      else _ ← put (set_buf (b ++ rr_param) id); mret 0
  end.

End Recording.
End RecRoute.
