(* ===== verification/RecSpec.v ===== *)
(** * The headers record routing adds

    [record_route] spreads the text of one or two headers over lumps; the edits these stand
    for write, at the place of the first header, exactly the headers the reference below
    describes. *)

From Stdlib Require Import ZArith Lia List String Ascii Bool.
From stdpp Require Import base tactics option list.
From S2P Require Import Prelude Ut Lumps MsgBuild ParseUri RecRoute.

Module RecSpec.
Import Ut RecRoute.
Import Lumps (lump, NULL, Lump, append, has, alter_at, insert_sorted, edits, put_after, put_before, new_lump).

(** ** Lists of lumps in three parts *)

Lemma append_null l : append NULL l = l.
Proof. induction l as [|d b _ a _ n IH]; simpl; [done|]. by rewrite IH. Qed.

Lemma append_assoc x y l : append (append x y) l = append x (append y l).
Proof. induction l as [|d b _ a _ n IH]; simpl; [done|]. by rewrite IH. Qed.

Lemma has_append p x l : has p (append x l) = has p l || has p x.
Proof. induction l as [|d b _ a _ n IH]; simpl; [done|]. rewrite IH. by rewrite !orb_assoc. Qed.

Lemma edits_append le x l : edits le (append x l) = edits le l ++ edits le x.
Proof. induction l as [|d b _ a _ n IH]; simpl; [done|]. by rewrite IH, app_assoc. Qed.

(** A change of one lump that leaves the rest of its list. *)
Definition local (f : Lumps.ldata -> lump -> lump -> lump -> lump) : Prop :=
  forall d b a n y, f d b a (append y n) = append y (f d b a n).

Lemma local_after x : local (put_after x).
Proof. done. Qed.

Lemma local_before x : local (put_before x).
Proof. done. Qed.

Lemma alter_absent f p t : has p t = false -> alter_at f p t = t.
Proof.
  induction t as [|d b IHb a IHa n IHn]; simpl; [done|]. intros H.
  apply orb_false_iff in H as [H H4]. apply orb_false_iff in H as [H H3]. apply orb_false_iff in H as [H1 H2].
  by rewrite H1, IHb, IHa, IHn.
Qed.

Lemma alter_tail f p x l : has p l = false -> alter_at f p (append x l) = append (alter_at f p x) l.
Proof.
  induction l as [|d b _ a _ n IH]; simpl; [done|]. intros H.
  apply orb_false_iff in H as [H H4]. apply orb_false_iff in H as [H H3]. apply orb_false_iff in H as [H1 H2].
  by rewrite H1, IH, (alter_absent f p b), (alter_absent f p a).
Qed.

Lemma alter_front f p x l : local f -> has p x = false -> alter_at f p (append x l) = append x (alter_at f p l).
Proof.
  intros Hf Hx. induction l as [|d b _ a _ n IH]; simpl; [by rewrite alter_absent|].
  destruct (Lumps.l_id d =? p); [apply Hf|]. simpl. by rewrite IH.
Qed.

(** Up to where a lump with offset [o] is inserted. *)
Fixpoint low (o : Z) (t : lump) : Prop :=
  match t with
  | NULL => True
  | Lump d _ _ n => match Lumps.op_offset (Lumps.l_op d) with Some x => x <= o | None => True end /\ low o n
  end.

Definition high (o : Z) (t : lump) : Prop :=
  match t with
  | NULL => True
  | Lump d _ _ _ => match Lumps.op_offset (Lumps.l_op d) with Some x => o < x | None => False end
  end.

Lemma split_at o t : exists A C, t = append C A /\ low o A /\ high o C.
Proof.
  induction t as [|d b _ a _ n (A & C & -> & Ha & Hc)]; [by exists NULL, NULL|].
  destruct (Lumps.op_offset (Lumps.l_op d)) as [x|] eqn:E.
  - destruct (decide (x <= o)).
    + exists (Lump d b a A), C. simpl. by rewrite E.
    + exists NULL, (Lump d b a (append C A)). simpl. rewrite E. split; [done|]. split; [done|lia].
  - exists (Lump d b a A), C. simpl. by rewrite E.
Qed.

Lemma insert_between x o A C : low o A -> high o C ->
  insert_sorted x o (append C A) = append C (append (Lump x NULL NULL NULL) A).
Proof.
  intros Ha Hc. induction A as [|d b _ a _ n IH]; simpl in *.
  - destruct C as [|d b a n]; [done|]. simpl in *. destruct (Lumps.op_offset (Lumps.l_op d)) as [y|]; [|done].
    rewrite Z.gtb_ltb, (proj2 (Z.ltb_lt _ _)) by lia. done.
  - destruct Ha as [H1 H2]. rewrite IH by done. destruct (Lumps.op_offset (Lumps.l_op d)) as [y|]; [|done].
    by rewrite Z.gtb_ltb, (proj2 (Z.ltb_ge _ _)) by lia.
Qed.

Lemma low_append o x l : low o (append x l) <-> low o l /\ low o x.
Proof. induction l as [|d b _ a _ n IH]; simpl; [tauto|]. rewrite IH. tauto. Qed.

Lemma low_alter o f p t : (forall d b a n, low o (f d b a n) <-> low o (Lump d b a n)) -> low o (alter_at f p t) <-> low o t.
Proof.
  intros Hf. induction t as [|d b _ a _ n IH]; simpl; [done|]. destruct (Lumps.l_id d =? p); [apply Hf|]. simpl. by rewrite IH.
Qed.

(** ** Running the operations *)

Section Run.
Context (e : env) (id : nat -> Z).
Context (Hmem : forall n, mem e n = Some (id n)) (Hid : forall i j, id i = id j -> i = j).
Context (o : Z) (A C : lump) (k : nat) (buf : bytes).
Context (orig : bytes) (eoh : option Z) (body : lump) (whose : Z).
Context (Ha : low o A) (Hc : high o C) (Ho : o <= zlen orig) (Hb : Lumps.in_body (Lumps.Lm orig eoh NULL NULL) o = false).
Context (Fa : forall n, (k <= n)%nat -> has (id n) A = false) (Fc : forall n, (k <= n)%nat -> has (id n) C = false).

(** The lumps made since allocation [k] are [N], between those before and behind. *)
Record at_ (m : st) (N : lump) : Prop := At {
  at_lumps : lm m = Lumps.Lm orig eoh (append C (append N A)) body;
  at_low : low o N;
  at_msg : rr_param_msg m = whose;
  at_buf : rr_param_buf m = buf;
  at_dangling : dangling m = false
}.

(** The state after an allocation that changed the lumps between. *)
Definition next (m : st) (N : lump) : st := set_lm (Lumps.set_add_rm (append C (append N A)) (lm m)) (used m).

Lemma at_next m N N' : at_ m N -> low o N' -> at_ (next m N') N'.
Proof. intros [El] Hl. split; try done. simpl. by rewrite El. Qed.

Lemma rec_bind_ret {X Y} (c : R X) (f : X -> R Y) m a m' : c m = Ret (a, m') -> (c ≫= f) m = f a m'.
Proof. unfold mbind, rec_bind. by intros ->. Qed.

Lemma rec_bind_assoc {X Y Z} (c : R X) (f : X -> R Y) (g : Y -> R Z) m :
  ((c ≫= f) ≫= g) m = (c ≫= (fun x => f x ≫= g)) m.
Proof. unfold mbind, rec_bind. by destruct (c m) as [[? ?]|?]. Qed.

Lemma rec_ret_bind {X Y} (a : X) (f : X -> R Y) m : (mret a ≫= f) m = f a m.
Proof. done. Qed.

Lemma alloc_ok m N n : at_ m N -> mal m = n ->
  exists m', pkg_malloc e m = Ret (Some (id n), m') /\ at_ m' N /\ mal m' = S n.
Proof. intros [] <-. exists (used m). unfold pkg_malloc. rewrite Hmem. split; [done|]. split; [|done]. split; done. Qed.

Lemma get_buf_ok {X} (f : bytes -> R X) m N : at_ m N -> (get rr_param_buf ≫= f) m = f buf m.
Proof. intros []. unfold mbind, rec_bind, get. by rewrite at_buf0. Qed.

Lemma anchor_ok m N n type : at_ m N -> mal m = n ->
  exists m', anchor_lump e o type m = Ret (Some (id n), m')
    /\ at_ m' (append (Lump (new_lump (id n) type (lump_flags e) (Lumps.LUMP_NOP o 0)) NULL NULL NULL) N) /\ mal m' = S n.
Proof.
  intros H <-. pose proof H as [El Hl _ _ _]. unfold anchor_lump, Lumps.anchor_lump. rewrite El.
  cbn [Lumps.buf]. rewrite Z.gtb_ltb, (proj2 (Z.ltb_ge _ _)), Hmem by lia. unfold Lumps.add_sorted.
  change (Lumps.in_body (Lumps.Lm orig eoh (append C (append N A)) body) o)
    with (Lumps.in_body (Lumps.Lm orig eoh NULL NULL) o). rewrite Hb. cbn [Lumps.add_rm].
  rewrite insert_between; [|by apply low_append|done]. rewrite <- (append_assoc _ N A).
  eexists. split; [reflexivity|]. split; [|done]. rewrite <- El. fold (next m (append (Lump (new_lump (id (mal m)) type (lump_flags e) (Lumps.LUMP_NOP o 0)) NULL NULL NULL) N)).
  apply at_next with N; [done|]. apply low_append. split; [done|]. simpl. split; [lia|done].
Qed.

Lemma linked m N i f : at_ m N -> (k <= i)%nat -> has (id i) N = true -> local f ->
  (forall d b a n, low o (f d b a n) <-> low o (Lump d b a n)) ->
  let N' := alter_at f (id i) N in
  Lumps.at_lump (id i) (Lumps.add_rm (lm m)) f = Ret (append C (append N' A))
  /\ has (id i) (Lumps.add_rm (lm m)) = true /\ at_ (next m N') N'.
Proof.
  intros H Hi Hh Lf Hf N'. pose proof H as [El Hl _ _ _]. rewrite El. cbn [Lumps.add_rm].
  assert (Ht : has (id i) (append C (append N A)) = true) by (rewrite !has_append, Hh; by rewrite orb_true_r).
  unfold Lumps.at_lump. rewrite Ht, alter_front, alter_tail by auto. split; [done|]. split; [done|].
  apply at_next with N; [done|]. by apply low_alter.
Qed.

Lemma after_ok m N i n op type N' : at_ m N -> mal m = n -> (k <= i)%nat -> has (id i) N = true ->
  alter_at (put_after (new_lump (id n) type (lump_flags e) op)) (id i) N = N' ->
  exists m', on_lump e (id i) (fun p => Lumps.link_after p (lump_flags e) (id i) op type) m = Ret (Some (id n), m')
    /\ at_ m' N' /\ mal m' = S n.
Proof.
  intros H <- Hi Hh <-. unfold on_lump, Lumps.link_after. rewrite Hmem.
  destruct (linked m N i (put_after (new_lump (id (mal m)) type (lump_flags e) op)) H Hi Hh) as (E & -> & Hn); [done..|].
  rewrite E. eauto.
Qed.

Lemma before_ok m N i n op type N' : at_ m N -> mal m = n -> (k <= i)%nat -> has (id i) N = true ->
  alter_at (put_before (new_lump (id n) type (lump_flags e) op)) (id i) N = N' ->
  exists m', on_lump e (id i) (fun p => Lumps.link_before p (lump_flags e) (id i) op type) m = Ret (Some (id n), m')
    /\ at_ m' N' /\ mal m' = S n.
Proof.
  intros H <- Hi Hh <-. unfold on_lump, Lumps.link_before. rewrite Hmem.
  destruct (linked m N i (put_before (new_lump (id (mal m)) type (lump_flags e) op)) H Hi Hh) as (E & -> & Hn); [done..|].
  rewrite E. eauto.
Qed.

(** *** One header *)

Definition ld (j : nat) (type : Z) (op : Lumps.lump_op) : Lumps.ldata := new_lump (id j) type (lump_flags e) op.
Definition diff : Lumps.lump_op := Lumps.LUMP_ADD_OPT Lumps.COND_IF_DIFF_REALMS.

(** The chain of lumps [(address, type, operation)] in one direction. *)
Fixpoint afters (l : list (nat * Z * Lumps.lump_op)) : lump :=
  match l with [] => NULL | (j, t, op) :: l => Lump (ld j t op) NULL (afters l) NULL end.
Fixpoint befores (l : list (nat * Z * Lumps.lump_op)) : lump :=
  match l with [] => NULL | (j, t, op) :: l => Lump (ld j t op) (befores l) NULL NULL end.

(** Two anchors made at [i], conditional if [c] says at which allocation. *)
Definition pair_ (i : nat) (c : list nat) (x y : list (nat * Z * Lumps.lump_op)) : lump :=
  Lump (ld i HDR_RECORDROUTE_T (Lumps.LUMP_NOP o 0)) NULL (afters (((fun j => (j, 0, diff)) <$> c) ++ x))
    (Lump (ld (S i) 0 (Lumps.LUMP_NOP o 0)) (befores (((fun j => (S j, 0, diff)) <$> c) ++ y)) NULL NULL).

Definition tails (n : nat) (user : bytes) (inbound : bool) : list (nat * Z * Lumps.lump_op) :=
  [(n, 0, Lumps.LUMP_ADD (rr_prefix user));
   (S n, 0, Lumps.LUMP_ADD_SUBST (if inbound then Lumps.SUBST_RCV_ALL else Lumps.SUBST_SND_ALL))] ++
  (if enable_double_rr e then [(S (S n), 0, diff); (S (S (S n)), 0, Lumps.LUMP_ADD RR_R2)] else []).

Definition rests (n : nat) (tag params : bytes) : list (nat * Z * Lumps.lump_op) :=
  (n, HDR_RECORDROUTE_T, Lumps.LUMP_ADD (rr_suffix e tag params)) ::
  (if negb (zlen buf =? 0) then [(S (S n), HDR_RECORDROUTE_T, Lumps.LUMP_ADD buf); (S (S (S n)), 0, Lumps.LUMP_ADD RR_TERM)]
   else [(S n, 0, Lumps.LUMP_ADD RR_TERM)]).

Definition after_tails (n : nat) : nat := if enable_double_rr e then S (S (S (S n))) else S (S n).
Definition after_rests (n : nat) : nat := if negb (zlen buf =? 0) then S (S (S (S n))) else S (S n).

Lemma id_same j : (id j =? id j) = true.
Proof. apply Z.eqb_refl. Qed.

Lemma id_diff i j : i <> j -> (id i =? id j) = false.
Proof. intros H. apply Z.eqb_neq. intros E. by apply H, Hid. Qed.

Ltac ids :=
  repeat (cbn [alter_at has put_after put_before afters befores pair_ ld new_lump Lumps.l_id app fmap list_fmap orb andb];
    match goal with
    | |- context [id ?i =? id ?i] => rewrite (id_same i)
    | |- context [id ?i =? id ?j] => rewrite (id_diff i j) by lia
    end).

Ltac step lem :=
  let E := fresh "E" in
  let H' := fresh "H" in
  let M' := fresh "M" in
  match goal with
  | H : at_ ?m _, M : mal ?m = _ |- _ =>
      edestruct lem as (? & E & H' & M'); [exact H|exact M|..|
        first [erewrite (rec_bind_ret _ _ _ _ _ E)|rewrite E]; clear E H M; cbv beta iota]
  end.

Ltac link lem := step lem; [lia|by ids|ids; reflexivity|].

(** The place [i] of the anchors and [c] of the conditions come before [n], the next
    allocation. *)
Lemma build_rr_ok m i c n user tag params inbound :
  at_ m (pair_ i c [] []) -> mal m = n -> (k <= i)%nat -> (S i < n)%nat ->
  (c = [] \/ exists j, c = [j] /\ (S i < j)%nat /\ (S j < n)%nat) ->
  let n1 := S (S (S (S n))) in let n2 := after_tails n1 in
  exists m', build_rr e (id (hd i c)) (id (S (hd i c))) user tag params inbound m = Ret (0, m')
    /\ at_ m' (pair_ i c (tails n1 user inbound) (rests n2 tag params)) /\ mal m' = after_rests n2.
Proof.
  intros H M Hk Hi Hj n1 n2. unfold build_rr.
  do 4 step alloc_ok. cbn [absent orb].
  unfold then_, insert_rr_param_lump, add_after, add_before, subst_after, cond_after,
    Lumps.insert_new_lump_after, Lumps.insert_subst_lump_after, Lumps.insert_cond_lump_after, Lumps.insert_new_lump_before.
  destruct Hj as [-> | (j & -> & Hj1 & Hj2)]; cbn [hd].
  all: link after_ok; link after_ok.
  all: destruct (enable_double_rr e) eqn:Ed;
    [rewrite rec_bind_assoc; link after_ok; link after_ok|rewrite rec_ret_bind].
  all: link before_ok; erewrite get_buf_ok by done; cbv beta.
  all: destruct (negb (zlen buf =? 0)) eqn:Eb;
    [rewrite rec_bind_assoc; step alloc_ok; link before_ok|rewrite rec_ret_bind].
  all: cbv beta iota; link before_ok; eexists; split; [reflexivity|].
  all: unfold after_rests, tails, rests, n2, n1, after_tails; rewrite Ed, Eb; done.
Qed.

Definition outbound_lumps (user tag params : bytes) : lump :=
  pair_ k [S (S k)] (tails (8 + k) user false) (rests (after_tails (8 + k)) tag params).

Definition inbound_lumps (user tag params : bytes) : lump :=
  pair_ k [] (tails (6 + k) user true) (rests (after_tails (6 + k)) tag params).

Lemma outbound_ok q m user tag params : headers q = o -> at_ m NULL -> mal m = k ->
  exists m', outbound_rr e q user tag params m = Ret (0, m')
    /\ at_ m' (outbound_lumps user tag params) /\ mal m' = after_rests (after_tails (8 + k)).
Proof.
  intros Eo H M. unfold outbound_rr. rewrite Eo. do 2 step anchor_ok. cbn [append] in *.
  unfold cond_after, cond_before, Lumps.insert_cond_lump_after, Lumps.insert_cond_lump_before.
  link after_ok. link before_ok.
  match goal with H : at_ ?m _, M : mal ?m = _ |- _ =>
    destruct (build_rr_ok m k [S (S k)] (4 + k) user tag params false H M) as (m' & E & Hm); [lia..| |] end.
  { right. exists (S (S k)). split; [done|]. lia. }
  cbn [hd] in E. rewrite (rec_bind_ret _ _ _ _ _ E). exists m'. split; [done|exact Hm].
Qed.

Lemma inbound_ok q m user tag params : headers q = o -> at_ m NULL -> mal m = k ->
  exists m', inbound_rr e q user tag params m = Ret (0, set_buf [] (rr_param_msg m') m')
    /\ at_ m' (inbound_lumps user tag params) /\ mal m' = after_rests (after_tails (6 + k)).
Proof.
  intros Eo H M. unfold inbound_rr. rewrite Eo. do 2 step anchor_ok. cbn [append] in *.
  match goal with H : at_ ?m _, M : mal ?m = _ |- _ =>
    destruct (build_rr_ok m k [] (2 + k) user tag params true H M) as (m' & E & Hm); [lia..|by left|] end.
  cbn [hd] in E. rewrite (rec_bind_ret _ _ _ _ _ E). exists m'. split; [done|exact Hm].
Qed.

Lemma afters_fresh n l : Forall (fun x => x.1.1 <> n) l -> has (id n) (afters l) = false.
Proof. induction 1 as [|[[j t] op] l Hj _ IH]; [done|]. cbn [afters has]. rewrite IH. cbn. by rewrite id_diff. Qed.

Lemma befores_fresh n l : Forall (fun x => x.1.1 <> n) l -> has (id n) (befores l) = false.
Proof. induction 1 as [|[[j t] op] l Hj _ IH]; [done|]. cbn [befores has]. rewrite IH. cbn. by rewrite id_diff. Qed.

(** *** A parameter added later *)

Lemma last_rr_befores l found : last_rr (befores l) found =
  fold_left (fun f x => match x with (j, t, Lumps.LUMP_ADD _) => if t =? HDR_RECORDROUTE_T then Some (id j) else f | _ => f end) l found.
Proof. revert found. induction l as [|[[j t] op] l IH]; intros found; [done|]. simpl. rewrite IH. by destruct op. Qed.

Lemma get_none x l : (get_rr_param_lump l).1 = None -> get_rr_param_lump (append x l) = get_rr_param_lump x.
Proof.
  induction l as [|d b _ a _ n IH]; [done|]. cbn [get_rr_param_lump append].
  destruct (last_rr b None); [done|apply IH].
Qed.

Lemma get_none_tail x l : (get_rr_param_lump (append x l)).1 = None -> (get_rr_param_lump l).1 = None.
Proof.
  induction l as [|d b _ a _ n IH]; [done|]. cbn [get_rr_param_lump append].
  destruct (last_rr b None); [done|apply IH].
Qed.

Lemma get_some x l p n : get_rr_param_lump l = (Some p, n) -> get_rr_param_lump (append x l) = (Some p, append x n).
Proof.
  induction l as [|d b _ a _ l' IH]; [done|]. cbn [get_rr_param_lump append].
  destruct (last_rr b None); [by intros [= <- <-]|apply IH].
Qed.

(** The last lump of the rest of a header. *)
Definition last_of (n : nat) : nat := if negb (zlen buf =? 0) then S (S n) else n.

Lemma get_pair i c x n tag params :
  get_rr_param_lump (pair_ i c x (rests n tag params)) = (Some (id (last_of n)), NULL).
Proof.
  unfold pair_. cbn [get_rr_param_lump last_rr]. rewrite last_rr_befores. unfold last_of, rests.
  rewrite fold_left_app. replace (fold_left _ _ None) with (@None Z) by (by induction c).
  destruct (negb (zlen buf =? 0)); done.
Qed.

(** The rest of a header with one more parameter. *)
Definition rests_with (n j : nat) (p tag params : bytes) : list (nat * Z * Lumps.lump_op) :=
  (n, HDR_RECORDROUTE_T, Lumps.LUMP_ADD (rr_suffix e tag params)) ::
  (if negb (zlen buf =? 0)
   then [(S (S n), HDR_RECORDROUTE_T, Lumps.LUMP_ADD buf); (j, HDR_RECORDROUTE_T, Lumps.LUMP_ADD p); (S (S (S n)), 0, Lumps.LUMP_ADD RR_TERM)]
   else [(j, HDR_RECORDROUTE_T, Lumps.LUMP_ADD p); (S n, 0, Lumps.LUMP_ADD RR_TERM)]).

Definition conds (c : list nat) : list (nat * Z * Lumps.lump_op) := (fun j => (j, 0, diff)) <$> c.

Lemma rests_added n j p tag params :
  alter_at (put_before (ld j HDR_RECORDROUTE_T (Lumps.LUMP_ADD p))) (id (last_of n)) (befores (rests n tag params))
    = befores (rests_with n j p tag params)
  /\ has (id (last_of n)) (befores (rests n tag params)) = true.
Proof. unfold last_of, rests, rests_with. destruct (negb (zlen buf =? 0)); split; ids; done. Qed.

(** The addresses of the pair, but for the rest of the header. *)
Definition apart_from (l i : nat) (c : list nat) (x : list (nat * Z * Lumps.lump_op)) : Prop :=
  i <> l /\ S i <> l /\ Forall (fun j => j <> l /\ S j <> l) c /\ Forall (fun y => y.1.1 <> l) x.

Lemma pair_added i c x n j p tag params : apart_from (last_of n) i c x ->
  alter_at (put_before (ld j HDR_RECORDROUTE_T (Lumps.LUMP_ADD p))) (id (last_of n)) (pair_ i c x (rests n tag params))
    = pair_ i c x (rests_with n j p tag params)
  /\ has (id (last_of n)) (pair_ i c x (rests n tag params)) = true.
Proof.
  intros (H1 & H2 & H3 & H4). unfold pair_. cbn [alter_at has]. cbn [ld new_lump Lumps.l_id].
  rewrite !id_diff by done. cbn [orb].
  rewrite (alter_absent _ _ (afters _)), afters_fresh.
  2,3: try apply afters_fresh; apply Forall_app; split; [|done]; apply Forall_fmap; eapply Forall_impl; [exact H3|]; by intros ? [].
  destruct (rests_added n j p tag params) as [Ea Eh].
  assert (E : alter_at (put_before (ld j HDR_RECORDROUTE_T (Lumps.LUMP_ADD p))) (id (last_of n))
      (befores (((fun j => (S j, 0, diff)) <$> c) ++ rests n tag params))
    = befores (((fun j => (S j, 0, diff)) <$> c) ++ rests_with n j p tag params)
    /\ has (id (last_of n)) (befores (((fun j => (S j, 0, diff)) <$> c) ++ rests n tag params)) = true).
  { induction H3 as [|a c [_ Ha'] _ IH]; [done|]. destruct IH as [I1 I2].
    cbn [fmap list_fmap app befores alter_at has]. cbn [ld new_lump Lumps.l_id]. rewrite id_diff by done.
    cbn [fmap list_fmap] in I1, I2. by rewrite I1, I2, orb_true_r. }
  destruct E as [-> ->]. done.
Qed.

Lemma pair_low i c x y : low o (pair_ i c x y).
Proof. unfold pair_. cbn. lia. Qed.

Lemma pair_absent l i c x y : apart_from l i c x -> Forall (fun z => z.1.1 <> l) y -> has (id l) (pair_ i c x y) = false.
Proof.
  intros (H1 & H2 & H3 & H4) Hy. unfold pair_. cbn [has]. cbn [ld new_lump Lumps.l_id].
  rewrite !id_diff, afters_fresh, befores_fresh; [done|..|done|done].
  all: apply Forall_app; split; [|done]; apply Forall_fmap; eapply Forall_impl; [exact H3|]; by intros ? [].
Qed.

Lemma param_run m N n l p N' : at_ m N -> mal m = n -> (k <= l)%nat -> has (id l) N = true ->
  alter_at (put_before (ld (S n) HDR_RECORDROUTE_T (Lumps.LUMP_ADD p))) (id l) N = N' ->
  exists m' a, insert_rr_param_lump e (id l) p m = Ret (Some a, m') /\ at_ m' N' /\ mal m' = S (S n).
Proof.
  intros H M Hl Hh E. unfold insert_rr_param_lump. step alloc_ok.
  unfold add_before, Lumps.insert_new_lump_before.
  match goal with H : at_ ?m _, M : mal ?m = _ |- _ =>
    destruct (before_ok m N l (S n) (Lumps.LUMP_ADD p) HDR_RECORDROUTE_T N' H M Hl Hh E) as (m' & E' & H' & M') end.
  exists m', (id (S n)). split; [exact E'|]. done.
Qed.

End Run.

(** ** The headers written *)

(** The user, the tag of the From header and the parameters set in advance. *)
Definition name_of (e : env) (q : req) : option bytes :=
  if add_username e then match get_username q with Ret (r, u) => if r <? 0 then None else Some u | Fault _ => None end
  else Some [].

Definition tag_of (e : env) (q : req) : option bytes := if append_fromtag e then from_tag q else Some [].

Definition pending (q : req) (m : st) : bytes := if rr_param_msg m =? msg_id q then rr_param_buf m else [].

(** One header, at the address [addr]. *)
Definition rr_header (e : env) (user tag params buf addr : bytes) (r2 : bool) : bytes :=
  RR_PREFIX ++ (if 0 <? zlen user then user ++ [§"@"] else []) ++ addr ++ (if r2 then RR_R2 else []) ++
  (if enable_full_lr e then RR_LR_FULL else RR_LR) ++ (if 0 <? zlen tag then RR_FROMTAG ++ tag else []) ++
  params ++ buf ++ RR_TERM.

(** Two of them, marked, if the request leaves by another address than it came in on. *)
Definition rr_headers (e : env) (le : Lumps.lenv) (user tag params buf : bytes) : bytes :=
  let two := enable_double_rr e && Lumps.cond_holds le Lumps.COND_IF_DIFF_REALMS in
  (if two then rr_header e user tag params buf (Lumps.SUBST_LUMP le Lumps.SUBST_SND_ALL) true else []) ++
  rr_header e user tag params buf (Lumps.SUBST_LUMP le Lumps.SUBST_RCV_ALL) two.

(** What is written at an empty zone. *)
Definition written (es : list Lumps.edit) : bytes := flat_map (fun x => Lumps.e_pre x ++ Lumps.e_post x) es.

Fixpoint ops (le : Lumps.lenv) (l : list (nat * Z * Lumps.lump_op)) : bytes :=
  match l with
  | [] => []
  | (_, Lumps.LUMP_ADD v) :: l => v ++ ops le l
  | (_, Lumps.LUMP_ADD_SUBST s) :: l => Lumps.SUBST_LUMP le s ++ ops le l
  | (_, Lumps.LUMP_ADD_OPT c) :: l => if Lumps.cond_holds le c then ops le l else []
  | _ :: l => ops le l
  end.

Lemma afters_text e id le l : Lumps.chain_text le Lumps.LD_AFTER (afters e id l) = ops le l.
Proof. induction l as [|[[j t] op] l IH]; simpl; [done|]. rewrite IH. by destruct op. Qed.

Lemma befores_text e id le l : Lumps.chain_text le Lumps.LD_BEFORE (befores e id l) = ops le l.
Proof. induction l as [|[[j t] op] l IH]; simpl; [done|]. rewrite IH. by destruct op. Qed.

Lemma pair_edits e id o le i c x y : edits le (pair_ e id o i c x y) =
  [Lumps.Edit (Some (o, 0)) [] (ops le (((fun j => (j, 0, diff)) <$> c) ++ x));
   Lumps.Edit (Some (o, 0)) (ops le (((fun j => (S j, 0, diff)) <$> c) ++ y)) []].
Proof. unfold pair_. cbn [edits]. rewrite afters_text, befores_text. done. Qed.

Lemma rests_text e le buf n tag params : ops le (rests e buf n tag params) = rr_suffix e tag params ++ buf ++ RR_TERM.
Proof.
  unfold rests. cbn [ops]. destruct (negb (zlen buf =? 0)) eqn:E; cbn [ops]; rewrite app_nil_r; [done|].
  apply negb_false_iff, Z.eqb_eq in E. destruct buf; [done|]. unfold zlen in E. simpl in E. lia.
Qed.

Lemma tails_text e le n user inbound : ops le (tails e n user inbound) = rr_prefix user ++
  Lumps.SUBST_LUMP le (if inbound then Lumps.SUBST_RCV_ALL else Lumps.SUBST_SND_ALL) ++
  (if enable_double_rr e && Lumps.cond_holds le Lumps.COND_IF_DIFF_REALMS then RR_R2 else []).
Proof.
  unfold tails. destruct (enable_double_rr e); cbn [ops app andb diff]; [|done].
  by destruct (Lumps.cond_holds le Lumps.COND_IF_DIFF_REALMS); rewrite ?app_nil_r.
Qed.

Lemma inbound_written e id o le k buf user tag params :
  written (edits le (inbound_lumps e id o k buf user tag params)) =
  rr_header e user tag params buf (Lumps.SUBST_LUMP le Lumps.SUBST_RCV_ALL)
    (enable_double_rr e && Lumps.cond_holds le Lumps.COND_IF_DIFF_REALMS).
Proof.
  unfold inbound_lumps. rewrite pair_edits. cbn [fmap list_fmap app]. rewrite tails_text, rests_text.
  unfold written, rr_header, rr_prefix, rr_suffix. cbn [flat_map Lumps.e_pre Lumps.e_post].
  by rewrite !app_nil_r, <- !app_assoc.
Qed.

Lemma outbound_written e id o le k buf user tag params : enable_double_rr e = true ->
  written (edits le (outbound_lumps e id o k buf user tag params)) =
  if Lumps.cond_holds le Lumps.COND_IF_DIFF_REALMS
  then rr_header e user tag params buf (Lumps.SUBST_LUMP le Lumps.SUBST_SND_ALL) true else [].
Proof.
  intros Ed. unfold outbound_lumps. rewrite pair_edits. cbn [fmap list_fmap app ops diff].
  destruct (Lumps.cond_holds le Lumps.COND_IF_DIFF_REALMS) eqn:Ec; [|done].
  rewrite tails_text, rests_text, Ed, Ec. unfold written, rr_header, rr_prefix, rr_suffix.
  cbn [flat_map Lumps.e_pre Lumps.e_post andb]. by rewrite !app_nil_r, <- !app_assoc.
Qed.

(** ** The whole operation *)

Section Whole.
Context (e : env) (id : nat -> Z).
Context (Hmem : forall n, mem e n = Some (id n)) (Hid : forall i j, id i = id j -> i = j).

Lemma outbound_fresh o k buf user tag params n : (after_rests buf (after_tails e (8 + k)) <= n)%nat ->
  has (id n) (outbound_lumps e id o k buf user tag params) = false.
Proof.
  unfold after_rests, after_tails, outbound_lumps, pair_, tails, rests, after_tails. intros Hn.
  cbn [has ld new_lump Lumps.l_id]. rewrite (afters_fresh e id Hid), (befores_fresh e id Hid).
  - rewrite !(id_diff id Hid); [done|..]; destruct (enable_double_rr e), (negb _); lia.
  - destruct (enable_double_rr e), (negb _); repeat constructor; simpl; lia.
  - destruct (enable_double_rr e), (negb _); repeat constructor; simpl; lia.
Qed.

(** The lumps of the second header and the first allocation for the other. *)
Definition first_lumps (o : Z) (k : nat) (buf user tag params : bytes) : lump :=
  if enable_double_rr e then outbound_lumps e id o k buf user tag params else NULL.
Definition first_end (k : nat) (buf : bytes) : nat :=
  if enable_double_rr e then after_rests buf (after_tails e (8 + k)) else k.

(** A state the operation can run in. *)
Record ready (q : req) (m : st) : Prop := Ready {
  rd_fresh : forall n, (mal m <= n)%nat -> has (id n) (Lumps.add_rm (lm m)) = false;
  rd_off : headers q <= zlen (Lumps.buf (lm m));
  rd_head : Lumps.in_body (lm m) (headers q) = false;
  rd_live : dangling m = false
}.

Lemma name_run q user m : name_of e q = Some user -> exists r, 0 <= r /\ username e q m = Ret ((r, user), m).
Proof.
  unfold name_of, username. destruct (add_username e); [|intros [= <-]; by exists 0].
  destruct (get_username q) as [[r u]|]; [|done]. destruct (r <? 0) eqn:E; [done|]. intros [= <-].
  exists r. split; [by apply Z.ltb_ge|done].
Qed.

Lemma tag_run q tag : tag_of e q = Some tag -> append_fromtag e && absent (from_tag q) = false
  /\ (if append_fromtag e then match from_tag q with Some t => t | None => [] end else []) = tag.
Proof. unfold tag_of. destruct (append_fromtag e); [|by intros [= <-]]. by intros ->. Qed.

Lemma pending_run q m : let m' := if negb (zlen (rr_param_buf m) =? 0) && negb (rr_param_msg m =? msg_id q)
    then set_buf [] (rr_param_msg m) m else m in
  rr_param_buf m' = pending q m /\ rr_param_msg m' = rr_param_msg m /\ lm m' = lm m /\ mal m' = mal m /\ dangling m' = dangling m.
Proof.
  cbv zeta. unfold pending. destruct (rr_param_msg m =? msg_id q); [by rewrite andb_false_r|].
  rewrite andb_true_r. destruct (negb (zlen (rr_param_buf m) =? 0)) eqn:E; [done|].
  apply negb_false_iff, Z.eqb_eq in E. destruct (rr_param_buf m) eqn:Eb; [|unfold zlen in E; simpl in E; lia].
  done.
Qed.

Lemma record_run q params m user tag :
  ready q m -> name_of e q = Some user -> tag_of e q = Some tag ->
  let o := headers q in let b := pending q m in
  forall A C, Lumps.add_rm (lm m) = append C A -> low o A -> high o C ->
  exists m', record_route e q params m = Ret (0, m')
    /\ lm m' = Lumps.set_add_rm (append C (append (inbound_lumps e id o (first_end (mal m) b) b user tag params)
         (append (first_lumps o (mal m) b user tag params) A))) (lm m)
    /\ rr_param_buf m' = [] /\ dangling m' = false
    /\ mal m' = after_rests b (after_tails e (6 + first_end (mal m) b)).
Proof.
  intros [Hf Ho Hb Hd] Hu Ht o b A C El Ha Hc. unfold record_route.
  destruct (name_run q user m Hu) as (r & Hr & En). rewrite (rec_bind_ret _ _ _ _ _ En). cbn [fst snd].
  rewrite (proj2 (Z.ltb_ge _ _)) by done. destruct (tag_run q tag Ht) as [-> ->].
  erewrite rec_bind_ret by reflexivity. cbv beta.
  destruct (pending_run q m) as (Pb & Pm & Pl & Pk & Pd).
  set (m1 := if negb _ && _ then _ else m) in *. clearbody m1.
  assert (Hff : forall n, (mal m <= n)%nat -> has (id n) A = false /\ has (id n) C = false).
  { intros n Hn. specialize (Hf n Hn). rewrite El, has_append in Hf. by apply orb_false_iff in Hf. }
  assert (H1 : at_ o A C b (Lumps.buf (lm m)) (Lumps.eoh (lm m)) (Lumps.body_lumps (lm m)) (rr_param_msg m) m1 NULL).
  { split; try done; [|by rewrite Pd]. rewrite Pl, append_null, <- El. by destruct (lm m). }
  assert (H2 : exists m2, (if enable_double_rr e then outbound_rr e q user tag params else mret 0) m1 = Ret (0, m2)
    /\ at_ o (append (first_lumps o (mal m) b user tag params) A) C b (Lumps.buf (lm m)) (Lumps.eoh (lm m))
         (Lumps.body_lumps (lm m)) (rr_param_msg m) m2 NULL /\ mal m2 = first_end (mal m) b
    /\ low o (first_lumps o (mal m) b user tag params)).
  { unfold first_lumps, first_end. destruct (enable_double_rr e) eqn:Ed; [|exists m1; by rewrite append_null].
    edestruct outbound_ok as (m2 & E & H2 & M2); [exact Hmem|exact Hid|exact Ha|exact Hc|exact Ho|exact Hb| | |reflexivity|exact H1|exact Pk|].
    { intros n Hn. by apply Hff. } { intros n Hn. by apply Hff. }
    exists m2. split; [exact E|]. destruct H2 as [L2 W2 S2 B2 D2]. split; [|done]. split; try done. by rewrite append_null. }
  destruct H2 as (m2 & E2 & H2 & M2 & W2). rewrite (rec_bind_ret _ _ _ _ _ E2). cbn [Z.ltb Z.compare].
  assert (K : (mal m <= first_end (mal m) b)%nat).
  { unfold first_end, after_rests, after_tails. destruct (enable_double_rr e); [destruct (negb _)|]; lia. }
  edestruct inbound_ok as (m3 & E3 & H3 & M3); [exact Hmem|exact Hid| |exact Hc|exact Ho|exact Hb| | |reflexivity|exact H2|exact M2|].
  { by apply low_append. }
  { intros n Hn. rewrite has_append, (proj1 (Hff n ltac:(lia))). unfold first_lumps, first_end in *.
    destruct (enable_double_rr e); [|done]. by rewrite outbound_fresh. }
  { intros n Hn. apply Hff. lia. }
  eexists. split; [exact E3|]. destruct H3 as [L3 _ _ _ D3].
  split; [|done]. cbn [lm set_buf]. rewrite L3. by destruct (lm m).
Qed.

Lemma low_edits le o t : low o t -> Forall (fun x => match Lumps.e_zone x with Some z => z.1 <= o | None => True end) (edits le t).
Proof.
  induction t as [|d b _ a _ n IH]; [done|]. cbn [low edits]. intros [Hd Hn]. apply Forall_app. split; [|by apply IH].
  unfold Lumps.edit_of. destruct (Lumps.l_op d) as [| | | |c]; try (constructor; [done|constructor]).
  destruct (Lumps.cond_holds le c); repeat constructor.
Qed.

Lemma high_edits le o t : high o t -> match edits le t with
  | [] => True | x :: _ => match Lumps.e_zone x with Some z => o < z.1 | None => False end end.
Proof. destruct t as [|d b a n]; [done|]. cbn [high edits]. unfold Lumps.edit_of. by destruct (Lumps.l_op d). Qed.

Lemma rr_written_app x y : written (x ++ y) = written x ++ written y.
Proof. apply flat_map_app. Qed.

Lemma new_written q le (k : nat) b user tag params :
  let o := headers q in
  let es := edits le (append (inbound_lumps e id o (first_end k b) b user tag params) (first_lumps o k b user tag params)) in
  written es = rr_headers e le user tag params b /\ Forall (fun x => Lumps.e_zone x = Some (o, 0)) es.
Proof.
  cbv zeta. rewrite edits_append, rr_written_app, inbound_written. unfold rr_headers, first_lumps.
  split.
  - f_equal. destruct (enable_double_rr e) eqn:Ed; [|done]. by apply outbound_written.
  - apply Forall_app. unfold inbound_lumps, outbound_lumps. destruct (enable_double_rr e);
      rewrite !pair_edits; repeat constructor.
Qed.

(** C21: record routing adds one header with the address the request came in on, in front
    of which, when double record routing is on and the request leaves by another address, a
    header with that one, both then marked with r2; each carries the user, the marker lr,
    the tag, the parameters given and those set in advance.  The text is written at the
    first header, behind everything that starts no later, and the other edits of the
    message stay as they are. *)
Theorem record_routed q params m user tag le :
  ready q m -> name_of e q = Some user -> tag_of e q = Some tag ->
  exists m' before new behind, record_route e q params m = Ret (0, m')
    /\ edits le (Lumps.add_rm (lm m)) = before ++ behind
    /\ edits le (Lumps.add_rm (lm m')) = before ++ new ++ behind
    /\ Forall (fun x => match Lumps.e_zone x with Some z => z.1 <= headers q | None => True end) before
    /\ match behind with [] => True | x :: _ => match Lumps.e_zone x with Some z => headers q < z.1 | None => False end end
    /\ Forall (fun x => Lumps.e_zone x = Some (headers q, 0)) new
    /\ written new = rr_headers e le user tag params (pending q m)
    /\ rr_param_buf m' = [] /\ dangling m' = false.
Proof.
  intros Hr Hu Ht. destruct (split_at (headers q) (Lumps.add_rm (lm m))) as (A & C & El & Ha & Hc).
  destruct (record_run q params m user tag Hr Hu Ht A C El Ha Hc) as (m' & Er & El' & Hb & Hd & _).
  exists m', (edits le A), (edits le (append (inbound_lumps e id (headers q) (first_end (mal m) (pending q m)) (pending q m) user tag params)
    (first_lumps (headers q) (mal m) (pending q m) user tag params))), (edits le C).
  destruct (new_written q le (mal m) (pending q m) user tag params) as [Hw Hz].
  rewrite El, El'. cbn [Lumps.add_rm Lumps.set_add_rm]. rewrite !edits_append, <- !app_assoc.
  split_and!; try done; [by apply low_edits|by apply high_edits|by rewrite edits_append in Hz|by rewrite edits_append in Hw].
Qed.

Lemma rests_with_text le buf n j p tag params :
  ops le (rests_with e buf n j p tag params) = rr_suffix e tag params ++ (buf ++ p) ++ RR_TERM.
Proof.
  unfold rests_with. cbn [ops]. rewrite <- app_assoc. destruct (negb (zlen buf =? 0)) eqn:E; cbn [ops]; rewrite app_nil_r; [done|].
  apply negb_false_iff, Z.eqb_eq in E. destruct buf; [done|]. unfold zlen in E. simpl in E. lia.
Qed.

(** A parameter set in advance. *)
Lemma param_kept q m p : (get_rr_param_lump (Lumps.add_rm (lm m))).1 = None -> zlen (pending q m) + zlen p <= RR_PARAM_BUF_SIZE ->
  exists m1, add_rr_param e (msg_id q) p m = Ret (0, m1) /\ lm m1 = lm m /\ mal m1 = mal m /\ dangling m1 = dangling m
    /\ pending q m1 = pending q m ++ p.
Proof.
  intros Hg Hl. unfold add_rr_param. erewrite rec_bind_ret by reflexivity. cbv beta.
  destruct (get_rr_param_lump (Lumps.add_rm (lm m))) as [? r]. cbn in Hg. subst.
  fold (pending q m). erewrite rec_bind_ret by reflexivity. rewrite Z.gtb_ltb, (proj2 (Z.ltb_ge _ _)) by lia.
  eexists. split; [reflexivity|]. split_and!; try done. unfold pending at 1. cbn. by rewrite Z.eqb_refl.
Qed.

(** Where the lumps of the two headers stand. *)
Ltac places := repeat match goal with x := _ : nat |- _ => subst x end;
  repeat match goal with H : at_ _ _ _ _ _ _ _ _ _ _ |- _ => clear H | H : has _ _ = _ |- _ => clear H | H : alter_at _ _ _ = _ |- _ => clear H
    | H : lm _ = _ |- _ => clear H | H : insert_rr_param_lump _ _ _ _ = _ |- _ => clear H end;
  unfold apart_from, last_of, tails, rests, rests_with, first_end, after_rests, after_tails in *;
  match goal with H : enable_double_rr e = _ |- _ => rewrite ?H in * end;
  destruct (negb (zlen _ =? 0)); split_and?; repeat apply Forall_cons_2; try apply Forall_nil_2; simpl; lia.

(** ... and one added to the headers made. *)
Lemma param_added q m m3 p A C user tag params : ready q m -> Lumps.add_rm (lm m) = append C A -> low (headers q) A ->
  (get_rr_param_lump (Lumps.add_rm (lm m))).1 = None ->
  let o := headers q in let b := pending q m in let k2 := first_end (mal m) b in
  lm m3 = Lumps.set_add_rm (append C (append (inbound_lumps e id o k2 b user tag params)
         (append (first_lumps o (mal m) b user tag params) A))) (lm m) ->
  dangling m3 = false -> mal m3 = after_rests b (after_tails e (6 + k2)) ->
  exists m4 j1 j2, add_rr_param e (msg_id q) p m3 = Ret (0, m4)
    /\ Lumps.add_rm (lm m4) = append C (append
         (append (pair_ e id o k2 [] (tails e (6 + k2) user true) (rests_with e b (after_tails e (6 + k2)) j2 p tag params))
            (if enable_double_rr e then pair_ e id o (mal m) [S (S (mal m))] (tails e (8 + mal m) user false)
               (rests_with e b (after_tails e (8 + mal m)) j1 p tag params) else NULL)) A).
Proof.
  intros [Hf _ _ _] El Ha Hg o b k2 L3 D3 M3.
  assert (Hff : forall n, (mal m <= n)%nat -> has (id n) A = false /\ has (id n) C = false).
  { intros n Hn. specialize (Hf n Hn). rewrite El, has_append in Hf. by apply orb_false_iff in Hf. }
  rewrite El in Hg. apply get_none_tail in Hg.
  assert (H : at_ o A C (rr_param_buf m3) (Lumps.buf (lm m)) (Lumps.eoh (lm m)) (Lumps.body_lumps (lm m)) (rr_param_msg m3) m3
     (append (inbound_lumps e id o k2 b user tag params) (first_lumps o (mal m) b user tag params))).
  { split; try done; [by rewrite L3, append_assoc|]. apply low_append. split; [|apply pair_low].
    unfold first_lumps. destruct (enable_double_rr e); [apply pair_low|done]. }
  unfold add_rr_param. erewrite rec_bind_ret by reflexivity. cbv beta. rewrite L3. cbn [Lumps.add_rm Lumps.set_add_rm].
  destruct (enable_double_rr e) eqn:Ed; unfold first_lumps in *; rewrite Ed in *.
  - erewrite get_some; [|apply get_some; rewrite get_none by done; apply get_pair]. cbn [append].
    set (n1 := after_tails e (8 + mal m)) in *. set (n2 := after_tails e (6 + k2)) in *.
    destruct (pair_added e id Hid o b (mal m) [S (S (mal m))] (tails e (8 + mal m) user false) n1 (S (mal m3)) p tag params) as [Ea Eh];
      [places|].
    edestruct param_run with (l := last_of b n1) (k := mal m) (A := A) (C := C) as (m4 & a & E4 & H4 & M4); [exact Hmem|intros n Hn; by apply Hff|intros n Hn; by apply Hff|exact H|reflexivity| | | |].
    { places. }
    { rewrite has_append. unfold outbound_lumps. fold n1. by rewrite Eh. }
    { rewrite alter_front; [|done|unfold inbound_lumps; apply (pair_absent e id Hid); places].
      unfold outbound_lumps. fold n1. rewrite Ea. reflexivity. }
    rewrite (rec_bind_ret _ _ _ _ _ E4). cbv beta iota.
    erewrite get_some by (unfold inbound_lumps; apply get_pair). cbn [fst].
    destruct (pair_added e id Hid o b k2 [] (tails e (6 + k2) user true) n2 (S (mal m4)) p tag params) as [Ea2 Eh2];
      [places|].
    edestruct param_run with (l := last_of b n2) (k := mal m) (A := A) (C := C) as (m5 & a5 & E5 & H5 & _); [exact Hmem|intros n Hn; by apply Hff|intros n Hn; by apply Hff|exact H4|reflexivity| | | |].
    { places. }
    { rewrite has_append. unfold inbound_lumps. fold n2. by rewrite Eh2, orb_true_r. }
    { rewrite alter_tail; [|apply (pair_absent e id Hid); places].
      unfold inbound_lumps. fold n2. rewrite Ea2. reflexivity. }
    rewrite (rec_bind_ret _ _ _ _ _ E5). exists m5, (S (mal m3)), (S (mal m4)). split; [done|].
    by rewrite (at_lumps _ _ _ _ _ _ _ _ _ _ H5).
  - cbn [append] in *. rewrite append_null in *.
    erewrite get_some by (rewrite get_none by done; apply get_pair).
    destruct (pair_added e id Hid o b k2 [] (tails e (6 + k2) user true) (after_tails e (6 + k2)) (S (mal m3)) p tag params) as [Ea Eh];
      [places|].
    edestruct (param_run e id Hmem o A C (mal m)) as (m4 & a & E4 & H4 & _); [intros n Hn; by apply Hff|intros n Hn; by apply Hff|exact H|reflexivity| |exact Eh|exact Ea|].
    { places. }
    rewrite (rec_bind_ret _ _ _ _ _ E4). exists m4, 0%nat, (S (mal m3)). split; [done|]. by rewrite (at_lumps _ _ _ _ _ _ _ _ _ _ H4).
Qed.

(** A parameter for the Record-Route headers can be added before they are made or
    after, on the same request, with the same result: both ways the operations succeed and
    the request is written with the same edits, the parameter in each header behind the
    parameters added before it. *)
Theorem param_any_time q params m user tag le p :
  ready q m -> name_of e q = Some user -> tag_of e q = Some tag ->
  (get_rr_param_lump (Lumps.add_rm (lm m))).1 = None -> zlen (pending q m) + zlen p <= RR_PARAM_BUF_SIZE ->
  exists m1 m2 m3 m4,
    add_rr_param e (msg_id q) p m = Ret (0, m1) /\ record_route e q params m1 = Ret (0, m2)
    /\ record_route e q params m = Ret (0, m3) /\ add_rr_param e (msg_id q) p m3 = Ret (0, m4)
    /\ edits le (Lumps.add_rm (lm m2)) = edits le (Lumps.add_rm (lm m4)).
Proof.
  intros Hr Hu Ht Hg Hl. pose proof Hr as [Hf Ho Hb Hd].
  destruct (split_at (headers q) (Lumps.add_rm (lm m))) as (A & C & El & Ha & Hc).
  destruct (param_kept q m p Hg Hl) as (m1 & E1 & L1 & K1 & D1 & P1).
  destruct (record_run q params m1 user tag) with (A := A) (C := C) as (m2 & E2 & L2 & _); [|done|done|by rewrite L1|done|done|].
  { split; rewrite ?L1, ?K1, ?D1; done. }
  destruct (record_run q params m user tag Hr Hu Ht A C El Ha Hc) as (m3 & E3 & L3 & _ & D3 & K3).
  destruct (param_added q m m3 p A C user tag params Hr El Ha Hg L3 D3 K3) as (m4 & j1 & j2 & E4 & L4).
  exists m1, m2, m3, m4. split_and!; [done..|]. rewrite L2, L4, P1. cbn [Lumps.add_rm Lumps.set_add_rm].
  rewrite !edits_append. f_equal. unfold inbound_lumps, first_lumps, outbound_lumps.
  rewrite <- !app_assoc. f_equal. rewrite !pair_edits.
  destruct (enable_double_rr e); rewrite ?pair_edits; cbn [fmap list_fmap app ops diff]; rewrite ?tails_text, ?rests_text, ?rests_with_text; done.
Qed.
End Whole.

(** ** An example *)

Definition ex_sock (host : bytes) (port : Z) : Lumps.socket_info :=
  Lumps.Sock host (Lumps.Ip Lumps.AF_INET [10; 0; 0; 1]) host port (Ut.int2str port) Lumps.PROTO_UDP.

(** In on port 5060, out on port 5070. *)
Definition ex_le : Lumps.lenv :=
  Lumps.Le (Lumps.Rcv (Lumps.Ip Lumps.AF_INET [10; 0; 0; 9]) (Lumps.Ip Lumps.AF_INET [10; 0; 0; 1]) 5060 5060 Lumps.PROTO_UDP 0
    (Some (ex_sock (B "10.0.0.1") 5060))) (Some (ex_sock (B "10.0.0.1") 5070)) [] [] (fun _ => 0).

Definition ex_env : env := Env (fun n => Some (Z.of_nat n)) 0 true true false true.
Definition ex_req : req := Req 7 20 (B "sip:b@c") None (Some (B "t1")).
Definition ex_st (b : bytes) : st :=
  St (Lumps.Lm (B "INVITE sip:b@c SIP/2.0  Via: x  ") None
       (Lumps.Lump (Lumps.Ld (-1) 0 (Lumps.LUMP_DEL 24 3) 0) Lumps.NULL Lumps.NULL Lumps.NULL) Lumps.NULL) 0 b 7 false.

Lemma ex_ready b : ready Z.of_nat ex_req (ex_st b).
Proof. split; try done. intros n _. cbn [has ex_st lm Lumps.add_rm Lumps.l_id]. rewrite !orb_false_r. apply Z.eqb_neq. lia. Qed.

Lemma record_routed_witness : exists m' before new behind,
  record_route ex_env ex_req (B ";x=1") (ex_st []) = Ret (0, m')
  /\ edits ex_le (Lumps.add_rm (lm m')) = before ++ new ++ behind
  /\ written new = B "Record-Route: <sip:10.0.0.1:5070;r2=on;lr=on;ftag=t1;x=1>" ++ [13; 10]
                 ++ B "Record-Route: <sip:10.0.0.1;r2=on;lr=on;ftag=t1;x=1>" ++ [13; 10].
Proof.
  destruct (record_routed ex_env Z.of_nat (fun _ => eq_refl) Nat2Z.inj ex_req (B ";x=1") (ex_st []) [] (B "t1") ex_le
    (ex_ready []) eq_refl eq_refl) as (m' & x & n & y & Er & _ & E & _ & _ & _ & Hw & _).
  exists m', x, n, y. split; [done|]. split; [done|]. rewrite Hw. vm_compute. reflexivity.
Defined.

Lemma param_any_time_witness : exists m1 m2 m3 m4,
  add_rr_param ex_env 7 (B ";b=2") (ex_st (B ";a=1")) = Ret (0, m1) /\ record_route ex_env ex_req [] m1 = Ret (0, m2)
  /\ record_route ex_env ex_req [] (ex_st (B ";a=1")) = Ret (0, m3) /\ add_rr_param ex_env 7 (B ";b=2") m3 = Ret (0, m4)
  /\ edits ex_le (Lumps.add_rm (lm m2)) = edits ex_le (Lumps.add_rm (lm m4)).
Proof.
  apply (param_any_time ex_env Z.of_nat (fun _ => eq_refl) Nat2Z.inj ex_req [] (ex_st (B ";a=1")) [] (B "t1") ex_le (B ";b=2")
    (ex_ready (B ";a=1")) eq_refl eq_refl); vm_compute; [reflexivity|discriminate].
Defined.
End RecSpec.
