(* ===== verification/TcpRead.v ===== *)
(** * Reading requests from a TCP connection ([src/tcp_read.c], [src/tcp_conn.h])

    A connection is a stream of bytes that arrives in pieces of any size.  [tcp_read] puts
    a piece at the end of the buffer of the connection, [tcp_read_headers] runs an
    automaton over the bytes not parsed yet, which looks for the length of the body and the
    end of the headers and then counts the body, and [tcp_read_req] hands each complete
    request to [receive_msg] and moves the rest to the start of the buffer.

    The build without TLS is modelled.  The process that gives away connections, and their
    timeouts, are not. *)

From Stdlib Require Import ZArith Lia List String Ascii Bool.
From stdpp Require Import base tactics option list.
From S2P Require Import Prelude Ut.

Module TcpRead.
Import Ut.

Definition TCP_BUF_SIZE : Z := 65535.

Inductive tcp_req_errors : Set :=
| TCP_REQ_INIT | TCP_REQ_OK | TCP_READ_ERROR | TCP_REQ_OVERRUN | TCP_REQ_BAD_LEN.

Inductive tcp_req_states : Set :=
| H_SKIP_EMPTY | H_SKIP | H_LF | H_LFCR | H_BODY | H_STARTWS
| H_CONT_LEN1 | H_CONT_LEN2 | H_CONT_LEN3 | H_CONT_LEN4 | H_CONT_LEN5 | H_CONT_LEN6 | H_CONT_LEN7
| H_CONT_LEN8 | H_CONT_LEN9 | H_CONT_LEN10 | H_CONT_LEN11 | H_CONT_LEN12 | H_CONT_LEN13 | H_L_COLON
| H_CONT_LEN_BODY | H_CONT_LEN_BODY_PARSE.

Inductive tcp_conn_states : Set := S_CONN_OK | S_CONN_EOF.

Definition CONN_ERROR : Z := -2.
Definition CONN_EOF : Z := -1.
Definition CONN_RELEASE : Z := 0.

#[export] Instance errors_eq_dec : EqDecision tcp_req_errors.
Proof. solve_decision. Defined.
#[export] Instance states_eq_dec : EqDecision tcp_req_states.
Proof. solve_decision. Defined.
#[export] Instance conn_states_eq_dec : EqDecision tcp_conn_states.
Proof. solve_decision. Defined.

(** [buf] holds the bytes up to [pos]; the other pointers are offsets. *)
Record tcp_req : Type := Req {
  buf : bytes;
  start : Z;
  parsed : Z;
  body : option Z;
  content_len : Z;
  has_content_len : bool;
  complete : bool;
  bytes_to_go : Z;
  error : tcp_req_errors;
  state : tcp_req_states
}.

Definition set_buf x r := Req x (start r) (parsed r) (body r) (content_len r) (has_content_len r) (complete r) (bytes_to_go r) (error r) (state r).
Definition set_start x r := Req (buf r) x (parsed r) (body r) (content_len r) (has_content_len r) (complete r) (bytes_to_go r) (error r) (state r).
Definition set_parsed x r := Req (buf r) (start r) x (body r) (content_len r) (has_content_len r) (complete r) (bytes_to_go r) (error r) (state r).
Definition set_body x r := Req (buf r) (start r) (parsed r) x (content_len r) (has_content_len r) (complete r) (bytes_to_go r) (error r) (state r).
Definition set_clen x r := Req (buf r) (start r) (parsed r) (body r) x (has_content_len r) (complete r) (bytes_to_go r) (error r) (state r).
Definition found_clen r := Req (buf r) (start r) (parsed r) (body r) (content_len r) true (complete r) (bytes_to_go r) (error r) (state r).
Definition set_complete r := Req (buf r) (start r) (parsed r) (body r) (content_len r) (has_content_len r) true (bytes_to_go r) (error r) (state r).
Definition set_to_go x r := Req (buf r) (start r) (parsed r) (body r) (content_len r) (has_content_len r) (complete r) x (error r) (state r).
Definition set_error x r := Req (buf r) (start r) (parsed r) (body r) (content_len r) (has_content_len r) (complete r) (bytes_to_go r) x (state r).
Definition goto x r := Req (buf r) (start r) (parsed r) (body r) (content_len r) (has_content_len r) (complete r) (bytes_to_go r) (error r) x.

(** What the socket gives from now on: bytes that have arrived, a time at which there are
    none, the end, or an error. *)
Inductive event : Type :=
| Arrived (b : bytes)
| Nothing
| Closed
| Broken.

(** [requests] are those given to [receive_msg] so far. *)
Record tcp_connection : Type := Conn {
  req : tcp_req;
  conn_state : tcp_conn_states;
  net : list event;
  requests : list bytes
}.

Definition set_req x c := Conn x (conn_state c) (net c) (requests c).
Definition set_net x c := Conn (req c) (conn_state c) x (requests c).
Definition set_eof c := Conn (req c) S_CONN_EOF (net c) (requests c).
Definition given m c := Conn (req c) (conn_state c) (net c) (requests c ++ [m]).

Definition init_tcp_req : tcp_req := Req [] 0 0 None 0 false false 0 TCP_REQ_OK H_SKIP_EMPTY.

(** ** Reading *)

Inductive read_result : Type := Read (b : bytes) | Again | Eof | Failed.

(** read(2) of at most [n] bytes, after interruptions. *)
Definition read (n : Z) (net : list event) : read_result * list event :=
  match net with
  | Arrived b :: net' =>
      if zlen b =? 0 then (Again, net')
      else if zlen b <=? n then (Read b, net')
      else (Read (take (Z.to_nat n) b), Arrived (drop (Z.to_nat n) b) :: net')
  | Nothing :: net' => (Again, net')
  | Closed :: _ => (Eof, net)
  | Broken :: _ => (Failed, net)
  | [] => (Again, [])
  end.

Definition tcp_read (c : tcp_connection) : Z * tcp_connection :=
  let r := req c in
  let bytes_free := TCP_BUF_SIZE - zlen (buf r) in
  if bytes_free =? 0 then (-1, set_req (set_error TCP_REQ_OVERRUN r) c)
  else
    let '(res, net') := read bytes_free (net c) in
    let c := set_net net' c in
    match res with
    | Again => (0, c)
    | Failed => (-1, set_req (set_error TCP_READ_ERROR r) c)
    | Eof => (0, set_eof c)
    | Read b => (zlen b, set_req (set_buf (buf r ++ b) r) c)
    end.

(** ** The automaton *)

(** The headers end at the line feed at [p]; true if the request is complete with them. *)
Definition end_headers (p : Z) (r : tcp_req) : tcp_req * bool :=
  let r := goto H_BODY r in
  if has_content_len r then
    let r := set_to_go (content_len r) (set_body (Some (p + 1)) r) in
    if bytes_to_go r =? 0 then (set_complete r, true) else (r, false)
  else (set_error TCP_REQ_BAD_LEN r, false).

Definition is_ws (c : Z) : bool := (c =? §" ") || (c =? 9).

(** [crlf_default_skip_case] *)
Definition crlf_default_skip (c : Z) (r : tcp_req) : tcp_req :=
  if c =? 10 then goto H_LF r else goto H_SKIP r.

(** [content_len_beg_case]: the start of a header name. *)
Definition content_len_beg (c : Z) (r : tcp_req) (default : tcp_req) : tcp_req :=
  if is_ws c then (if has_content_len r then goto H_SKIP r else goto H_STARTWS r)
  else if (c =? §"C") || (c =? §"c") then (if has_content_len r then goto H_SKIP r else goto H_CONT_LEN1 r)
  else if (c =? §"l") || (c =? §"L") then (if has_content_len r then goto H_SKIP r else goto H_L_COLON r)
  else default.

Definition change_state (upper lower : Z) (newstate : tcp_req_states) (c : Z) (r : tcp_req) : tcp_req :=
  if (c =? upper) || (c =? lower) then goto newstate r else crlf_default_skip c r.

(** The states that look at one character. *)
Definition on_char (p c : Z) (r : tcp_req) : tcp_req * bool :=
  match state r with
  | H_LF =>
      if c =? 13 then (goto H_LFCR r, false)
      else if c =? 10 then end_headers p r
      else (content_len_beg c r (goto H_SKIP r), false)
  | H_LFCR => if c =? 10 then end_headers p r else (goto H_SKIP r, false)
  | H_STARTWS => (content_len_beg c r (crlf_default_skip c r), false)
  | H_SKIP_EMPTY =>
      (if (c =? 10) || (c =? 13) || is_ws c then r
       else if (c =? §"C") || (c =? §"c") then set_start p (goto H_CONT_LEN1 r)
       else if (c =? §"l") || (c =? §"L") then set_start p (goto H_L_COLON r)
       else set_start p (goto H_SKIP r), false)
  | H_CONT_LEN1 => (change_state §"O" §"o" H_CONT_LEN2 c r, false)
  | H_CONT_LEN2 => (change_state §"N" §"n" H_CONT_LEN3 c r, false)
  | H_CONT_LEN3 => (change_state §"T" §"t" H_CONT_LEN4 c r, false)
  | H_CONT_LEN4 => (change_state §"E" §"e" H_CONT_LEN5 c r, false)
  | H_CONT_LEN5 => (change_state §"N" §"n" H_CONT_LEN6 c r, false)
  | H_CONT_LEN6 => (change_state §"T" §"t" H_CONT_LEN7 c r, false)
  | H_CONT_LEN7 => (change_state §"-" §"_" H_CONT_LEN8 c r, false)
  | H_CONT_LEN8 => (change_state §"L" §"l" H_CONT_LEN9 c r, false)
  | H_CONT_LEN9 => (change_state §"E" §"e" H_CONT_LEN10 c r, false)
  | H_CONT_LEN10 => (change_state §"N" §"n" H_CONT_LEN11 c r, false)
  | H_CONT_LEN11 => (change_state §"G" §"g" H_CONT_LEN12 c r, false)
  | H_CONT_LEN12 => (change_state §"T" §"t" H_CONT_LEN13 c r, false)
  | H_CONT_LEN13 => (change_state §"H" §"h" H_L_COLON c r, false)
  | H_L_COLON =>
      (if is_ws c then r else if c =? §":" then goto H_CONT_LEN_BODY r else crlf_default_skip c r, false)
  | H_CONT_LEN_BODY =>
      (if is_ws c then r
       else if is_digit c then set_clen (c - §"0") (goto H_CONT_LEN_BODY_PARSE r)
       else crlf_default_skip c r, false)
  | H_CONT_LEN_BODY_PARSE =>
      (if is_digit c then set_clen (u32 (content_len r * 10 + (c - §"0"))) r
       else if (c =? 13) || is_ws c then found_clen (goto H_SKIP r)
       else if c =? 10 then found_clen (goto H_LF r)
       else goto H_SKIP r, false)
  | H_BODY | H_SKIP => (r, false)
  end.

(** The loop, from offset [p], [l] being the bytes from there to [pos]. *)
Fixpoint parse_loop (fuel : nat) (p : Z) (l : bytes) (r : tcp_req) : res (Z * tcp_req) :=
  match l with
  | [] => Ret (p, r)
  | c :: l' =>
      if bool_decide (error r = TCP_REQ_OK) then
        match fuel with
        | O => Fault OutOfFuel
        | S fuel =>
            match state r with
            | H_BODY =>
                let remaining := if zlen l >? bytes_to_go r then bytes_to_go r else zlen l in
                let r := set_to_go (bytes_to_go r - remaining) r in
                if bytes_to_go r =? 0 then Ret (p + remaining, set_complete r)
                else parse_loop fuel (p + remaining) (drop (Z.to_nat remaining) l) r
            | H_SKIP =>
                match q_memchr l 10 with
                | Some n => parse_loop fuel (p + Z.of_nat n + 1) (drop (S n) l) (goto H_LF r)
                | None => parse_loop fuel (p + zlen l) [] r
                end
            | _ =>
                let '(r, stop) := on_char p c r in
                if stop then Ret (p + 1, r) else parse_loop fuel (p + 1) l' r
            end
        end
      else Ret (p, r)
  end.

(** The bytes not parsed yet. *)
Definition parse_rest (c : tcp_connection) : res tcp_connection :=
  let r := req c in
  let l := drop (Z.to_nat (parsed r)) (buf r) in
  '(p, r) ← parse_loop (length l) (parsed r) l r;
  Ret (set_req (set_parsed p r) c).

Definition tcp_read_headers (c : tcp_connection) : res (Z * tcp_connection) :=
  if parsed (req c) <? zlen (buf (req c)) then c ← parse_rest c; Ret (0, c)
  else
    let '(bytes, c) := tcp_read c in
    if bytes <=? 0 then Ret (bytes, c) else c ← parse_rest c; Ret (bytes, c).

(** ** Requests *)

(** The request is done with: the bytes behind it are kept. *)
Definition next_req (r : tcp_req) : tcp_req :=
  Req (drop (Z.to_nat (parsed r)) (buf r)) 0 0 None 0 false false 0 TCP_REQ_OK H_SKIP_EMPTY.

Definition message (r : tcp_req) : bytes :=
  take (Z.to_nat (parsed r - start r)) (drop (Z.to_nat (start r)) (buf r)).

Section Receiving.

(** Whether [receive_msg] succeeds. *)
Context (receive_msg : bytes -> bool).

(** The loop at [again]. *)
Fixpoint read_loop (fuel : nat) (total : Z) (c : tcp_connection) : res (Z * Z * tcp_connection) :=
  match fuel with
  | O => Fault OutOfFuel
  | S fuel =>
      if bool_decide (error (req c) = TCP_REQ_OK) then
        '(bytes, c) ← tcp_read_headers c;
        if bytes =? -1 then Ret (CONN_ERROR, total, c)
        else
          let total := total + bytes in
          if bool_decide (conn_state c = S_CONN_EOF) && negb (complete (req c)) then Ret (CONN_EOF, total, c)
          else if negb (bool_decide (error (req c) = TCP_REQ_OK)) then Ret (CONN_ERROR, total, c)
          else if complete (req c) then
            if has_content_len (req c) then
              let m := message (req c) in
              let c := given m c in
              if receive_msg m then
                let c := set_req (next_req (req c)) c in
                if negb (zlen (buf (req c)) =? 0) then read_loop fuel total c
                else Ret (if bool_decide (conn_state c = S_CONN_EOF) then CONN_EOF else CONN_RELEASE, total, c)
              else Ret (CONN_ERROR, total, c)
            else Ret (CONN_ERROR, total, set_req (set_error TCP_REQ_BAD_LEN (req c)) c)
          else Ret (CONN_RELEASE, total, c)
      else Ret (CONN_ERROR, total, c)
  end.

Definition tcp_read_req (c : tcp_connection) : res (Z * Z * tcp_connection) :=
  read_loop (S (Z.to_nat TCP_BUF_SIZE)) 0 c.

End Receiving.
End TcpRead.
