(* ===== verification/TcpSpec.v ===== *)
(** * Requests on a stream

    What the automaton of [TcpRead] finds in a stream is what the reference below finds in
    its lines, however the stream is cut into pieces; so the requests a client sends are
    received, each once and in order. *)

From Stdlib Require Import ZArith Lia List String Ascii Bool.
From stdpp Require Import base tactics option list.
From S2P Require Import Prelude Ut TcpRead.

Module TcpSpec.
Import Ut TcpRead.

(** ** The automaton, byte by byte *)

Definition byte_step (p c : Z) (r : tcp_req) : tcp_req * bool :=
  match state r with
  | H_BODY =>
      let r := set_to_go (bytes_to_go r - 1) r in
      if bytes_to_go r =? 0 then (set_complete r, true) else (r, false)
  | H_SKIP => (if c =? 10 then goto H_LF r else r, false)
  | _ => on_char p c r
  end.

Fixpoint run (p : Z) (l : bytes) (r : tcp_req) : Z * tcp_req :=
  match l with
  | [] => (p, r)
  | c :: l =>
      if bool_decide (error r = TCP_REQ_OK) then
        let '(r, stop) := byte_step p c r in
        if stop then (p + 1, r) else run (p + 1) l r
      else (p, r)
  end.

(** In the body there is something to come. *)
Definition wf (r : tcp_req) : Prop := error r = TCP_REQ_OK -> state r = H_BODY ->
  0 < bytes_to_go r /\ has_content_len r = true.

Lemma run_stuck p l r : error r <> TCP_REQ_OK -> run p l r = (p, r).
Proof. destruct l; [done|]. simpl. intros H. by rewrite bool_decide_false. Qed.

Lemma zlen_empty : zlen (@nil Z) = 0.
Proof. done. Qed.

Lemma run_skip p l r : error r = TCP_REQ_OK -> state r = H_SKIP -> Forall (fun c => is_byte c = true) l ->
  run p l r = match q_memchr l 10 with
              | Some n => run (p + Z.of_nat n + 1) (drop (S n) l) (goto H_LF r)
              | None => (p + zlen l, r)
              end.
Proof.
  intros He Hs Hb. revert p. induction Hb as [|c l Hc _ IH]; intros p; [simpl; f_equal; rewrite zlen_empty; lia|].
  cbn [run q_memchr]. rewrite bool_decide_true by done. unfold byte_step. rewrite Hs.
  assert (E : (s8 c =? u8 10) = (c =? 10)).
  { unfold is_byte in Hc. apply andb_true_iff in Hc as [H1 H2]. apply Z.leb_le in H1. apply Z.ltb_lt in H2.
    unfold s8, u8. change (10 mod 2 ^ 8) with 10. destruct (Z.eqb_spec c 10) as [-> |N]; [done|].
    apply Z.eqb_neq. intros E. apply N. pose proof (Z.mod_pos_bound (c + 2 ^ 7) (2 ^ 8) ltac:(lia)).
    destruct (decide (c < 2 ^ 7)).
    - rewrite Z.mod_small in E by lia. lia.
    - replace (c + 2 ^ 7) with (c - 2 ^ 7 + 1 * 2 ^ 8) in E by lia. rewrite Z.mod_add, Z.mod_small in E by lia. lia. }
  rewrite E. destruct (c =? 10) eqn:Ec; [simpl; f_equal; lia|].
  rewrite IH. destruct (q_memchr l 10) as [n|]; simpl; [f_equal; lia|]. f_equal. rewrite zlen_cons. lia.
Qed.

Lemma run_body p l r : error r = TCP_REQ_OK -> state r = H_BODY -> 0 < bytes_to_go r ->
  run p l r = if bytes_to_go r <=? zlen l then (p + bytes_to_go r, set_complete (set_to_go 0 r))
              else (p + zlen l, set_to_go (bytes_to_go r - zlen l) r).
Proof.
  revert p r. induction l as [|c l IH]; intros p r He Hs Hg.
  - rewrite zlen_empty, (proj2 (Z.leb_gt _ _)) by lia. simpl. f_equal; [lia|]. rewrite Z.sub_0_r. by destruct r.
  - cbn [run]. rewrite bool_decide_true by done. unfold byte_step. rewrite Hs, zlen_cons.
    cbn [bytes_to_go set_to_go]. destruct (Z.eqb_spec (bytes_to_go r - 1) 0) as [E|N].
    + rewrite (proj2 (Z.leb_le _ _)) by (pose proof (zlen_nonneg l); lia). f_equal; [lia|]. by rewrite E.
    + rewrite IH; [|done|done|simpl; lia]. cbn [bytes_to_go set_to_go].
      destruct (Z.leb_spec (bytes_to_go r - 1) (zlen l)).
      * rewrite (proj2 (Z.leb_le _ _)) by lia. f_equal. lia.
      * rewrite (proj2 (Z.leb_gt _ _)) by lia. f_equal; [lia|]. unfold set_to_go. simpl. f_equal. lia.
Qed.

(** One character keeps the invariant, and stops when the request is complete. *)
Record sane (r : tcp_req) : Prop := Sane { sn_len : 0 <= content_len r; sn_wf : wf r; sn_open : complete r = false }.

Lemma sane_goto q r : q <> H_BODY -> sane r -> sane (goto q r).
Proof. intros Hq []. split; try done. Qed.

Lemma sane_start p r : sane r -> sane (set_start p r).
Proof. intros []. split; done. Qed.

Lemma sane_clen v r : 0 <= v -> sane r -> sane (set_clen v r).
Proof. intros Hv []. split; done. Qed.

Lemma sane_found r : sane r -> sane (found_clen r).
Proof. intros [H1 H2 H3]. split; try done. intros He Hs. by destruct (H2 He Hs). Qed.

Create HintDb tcp.
#[local] Hint Resolve sane_goto sane_start sane_clen sane_found : tcp.
#[local] Hint Extern 1 (_ <> _) => discriminate : tcp.

Lemma sane_skip c r : sane r -> sane (crlf_default_skip c r).
Proof. intros H. unfold crlf_default_skip. destruct (c =? 10); auto with tcp. Qed.

Lemma sane_beg c r d : sane r -> sane d -> sane (content_len_beg c r d).
Proof.
  intros H Hd. unfold content_len_beg. destruct (is_ws c); [destruct (has_content_len r); auto with tcp|].
  destruct (_ || _); [destruct (has_content_len r); auto with tcp|].
  destruct (_ || _); [destruct (has_content_len r); auto with tcp|done].
Qed.

Lemma sane_change a b q c r : q <> H_BODY -> sane r -> sane (change_state a b q c r).
Proof. intros Hq H. unfold change_state. destruct (_ || _); auto using sane_skip with tcp. Qed.

#[local] Hint Resolve sane_skip sane_beg sane_change : tcp.

(** What a step comes to: the request goes on, or is complete. *)
Definition going (r : tcp_req) (x : tcp_req * bool) : Prop :=
  (x.2 = false /\ sane x.1) \/ (x.2 = true /\ complete x.1 = true /\ error x.1 = TCP_REQ_OK /\ has_content_len x.1 = true).

Lemma going_end p r : sane r -> error r = TCP_REQ_OK -> going r (end_headers p r).
Proof.
  intros [H1 H2 H3] He. unfold end_headers. cbn [has_content_len goto].
  destruct (has_content_len r) eqn:Eh; [|left; split; [done|]; split; done].
  cbn [bytes_to_go set_to_go set_body goto content_len]. destruct (Z.eqb_spec (content_len r) 0).
  - right. split; [done|]. split; done.
  - left. split; [done|]. split; [done| |done]. intros _ _. simpl. split; [lia|done].
Qed.

Lemma going_char p c r : state r <> H_BODY -> sane r -> error r = TCP_REQ_OK -> going r (on_char p c r).
Proof.
  intros Hb H He. pose proof (sn_len r H) as Hl. unfold on_char. destruct (state r) eqn:Es; try (left; split; [done|simpl; auto with tcp]; fail).
  - left. split; [done|]. simpl. repeat case_match; auto with tcp.
  - destruct (c =? 13); [left; split; [done|simpl; auto with tcp]|]. destruct (c =? 10); [by apply going_end|].
    left. split; [done|simpl; auto with tcp].
  - destruct (c =? 10); [by apply going_end|]. left. split; [done|simpl; auto with tcp].
  - left. split; [done|]. simpl. repeat case_match; auto with tcp.
  - left. split; [done|]. simpl. destruct (is_ws c); [done|]. destruct (is_digit c) eqn:Ed; auto with tcp.
    apply sane_clen; auto with tcp. unfold is_digit in Ed. lia.
  - left. split; [done|]. simpl. destruct (is_digit c) eqn:Ed.
    + apply sane_clen; auto. unfold u32. apply Z.mod_pos_bound. lia.
    + repeat case_match; auto with tcp.
Qed.

Lemma going_step p c r : sane r -> error r = TCP_REQ_OK ->
  going r (byte_step p c r).
Proof.
  intros H He. unfold byte_step. destruct (decide (state r = H_BODY)) as [Hb|Hb].
  - rewrite Hb. cbn [bytes_to_go set_to_go]. destruct (Z.eqb_spec (bytes_to_go r - 1) 0) as [E|N].
    + right. split; [done|]. split; [done|]. split; [done|].
      apply (sn_wf r H He Hb).
    + left. split; [done|]. destruct H as [H1 H2 H3]. split; [done| |done]. intros _ _. destruct (H2 He Hb). simpl. split; [lia|done].
  - destruct (decide (state r = H_SKIP)) as [Hs|Hs].
    + rewrite Hs. left. split; [done|]. simpl. destruct (c =? 10); auto with tcp.
    + pose proof (going_char p c r Hb H He). by destruct (state r).
Qed.

(** The loop of the source computes this run. *)
Lemma parse_run fuel p l r : Forall (fun c => is_byte c = true) l -> sane r -> (length l <= fuel)%nat ->
  parse_loop fuel p l r = Ret (run p l r).
Proof.
  revert p l r. induction fuel as [|fuel IH]; intros p l r Hb H Hl; [by destruct l; simpl in Hl; [|lia]|].
  destruct l as [|c l]; [done|]. cbn [parse_loop].
  destruct (bool_decide (error r = TCP_REQ_OK)) eqn:He; [apply bool_decide_eq_true in He|].
  2: { simpl. by rewrite He. }
  apply Forall_cons in Hb as Hb'. destruct Hb' as [Hc Hb'].
  destruct (decide (state r = H_BODY)) as [Hs|Hs].
  { rewrite Hs. destruct (sn_wf r H He Hs) as [Hg Hh]. rewrite (run_body p (c :: l) r He Hs Hg).
    rewrite Z.gtb_ltb, zlen_cons in *. pose proof (zlen_nonneg l).
    destruct (Z.ltb_spec (bytes_to_go r) (1 + zlen l)).
    - cbn [bytes_to_go set_to_go]. rewrite Z.sub_diag. by rewrite (proj2 (Z.leb_le _ _)) by lia.
    - cbn [bytes_to_go set_to_go]. destruct (Z.eqb_spec (bytes_to_go r - (1 + zlen l)) 0) as [E|N].
      + rewrite (proj2 (Z.leb_le _ _)) by lia. rewrite E. do 2 f_equal. lia.
      + rewrite (proj2 (Z.leb_gt _ _)) by lia. rewrite drop_ge; [by destruct fuel|]. unfold zlen. simpl length. lia. }
  destruct (decide (state r = H_SKIP)) as [Hk|Hk].
  { rewrite Hk. rewrite (run_skip p (c :: l) r He Hk Hb). destruct (q_memchr (c :: l) 10) as [n|] eqn:Eq.
    - rewrite IH; [done|by apply Forall_drop|by apply sane_goto|]. rewrite length_drop. simpl in *. lia.
    - by destruct fuel. }
  pose proof (going_char p c r Hs H He) as Hg. cbn [run]. rewrite bool_decide_true by done.
  assert (E : byte_step p c r = on_char p c r) by (unfold byte_step; by destruct (state r)).
  rewrite E. destruct (on_char p c r) as [r' stop]. destruct Hg as [[Es Hr]|(Es & _)]; simpl in Es; subst stop.
  - rewrite IH by (simpl in *; auto; lia). by destruct (state r).
  - by destruct (state r).
Qed.

Lemma run_app p a b r : sane r ->
  run p (a ++ b) r = let '(p', r') := run p a r in if complete r' then (p', r') else run p' b r'.
Proof.
  revert p r. induction a as [|c a IH]; intros p r H; simpl; [by rewrite (sn_open r H)|].
  destruct (bool_decide (error r = TCP_REQ_OK)) eqn:He.
  - apply bool_decide_eq_true in He. pose proof (going_step p c r H He) as Hg.
    destruct (byte_step p c r) as [r' stop]. destruct Hg as [[Es Hr]|(Es & Ec & _)]; simpl in *; subst.
    + by apply IH.
    + by rewrite Ec.
  - rewrite (sn_open r H). by rewrite run_stuck by (by apply bool_decide_eq_false in He).
Qed.

(** How a run ends. *)
Lemma run_end p l r : sane r -> let '(p', r') := run p l r in
  p <= p' <= p + zlen l /\
  ((sane r' /\ (error r' = TCP_REQ_OK -> error r = TCP_REQ_OK -> p' = p + zlen l)) \/
   (complete r' = true /\ error r' = TCP_REQ_OK /\ has_content_len r' = true)).
Proof.
  revert p r. induction l as [|c l IH]; intros p r H; simpl.
  { rewrite zlen_empty. split; [lia|]. left. split; [done|]. lia. }
  pose proof (zlen_nonneg l). rewrite zlen_cons. destruct (bool_decide (error r = TCP_REQ_OK)) eqn:He.
  - apply bool_decide_eq_true in He. pose proof (going_step p c r H He) as Hg.
    destruct (byte_step p c r) as [r' stop]. destruct Hg as [[Es Hr]|(Es & Ec & Ee & Eh)]; simpl in *; subst.
    + specialize (IH (p + 1) r' Hr). destruct (run (p + 1) l r') as [p2 r2] eqn:E2. destruct IH as [IH1 IH2]. split; [lia|].
      destruct IH2 as [[Hs Hp]|Hd]; [left; split; [done|]|by right]. intros H2 _.
      destruct (decide (error r' = TCP_REQ_OK)) as [E'|E']; [rewrite (Hp H2 E'); lia|].
      rewrite run_stuck in E2 by done. injection E2 as <- <-. done.
    + split; [lia|]. by right.
  - apply bool_decide_eq_false in He. split; [lia|]. left. by split.
Qed.

(** The buffer and the pointer to its parsed part are not used. *)
Definition with_buf (b : bytes) (q : Z) (r : tcp_req) : tcp_req := set_buf b (set_parsed q r).

Lemma step_with p c b q r : byte_step p c (with_buf b q r) = (with_buf b q (byte_step p c r).1, (byte_step p c r).2).
Proof.
  destruct r as [rb rs rp ry rl rh rc rg re []]; unfold byte_step, on_char; cbn; try done;
    unfold end_headers, content_len_beg, change_state, crlf_default_skip, with_buf; cbn; by repeat case_match.
Qed.

Lemma run_with p l b q r : run p l (with_buf b q r) = ((run p l r).1, with_buf b q (run p l r).2).
Proof.
  revert p r. induction l as [|c l IH]; intros p r; [done|]. cbn [run].
  change (error (with_buf b q r)) with (error r). destruct (bool_decide (error r = TCP_REQ_OK)); [|done].
  rewrite step_with. destruct (byte_step p c r) as [r' stop]. simpl. destruct stop; [done|]. apply IH.
Qed.

(** ** The reference *)

Definition is_blank (c : Z) : bool := (c =? 10) || (c =? 13) || is_ws c.

Fixpoint skip (f : Z -> bool) (l : bytes) : bytes :=
  match l with
  | [] => []
  | c :: l' => if f c then skip f l' else l
  end.

(** The name of the header, each character in its two forms. *)
Definition ONTENT_LENGTH : list (Z * Z) := Eval vm_compute in combine (B "ONTENT-LENGTH") (B "ontent_length").

Fixpoint strip (name : list (Z * Z)) (l : bytes) : option bytes :=
  match name, l with
  | [], _ => Some l
  | (a, b) :: name, c :: l => if (c =? a) || (c =? b) then strip name l else None
  | _, _ => None
  end.

(** The number in front of the end of the line or a space, modulo the word size. *)
Fixpoint number (n : Z) (l : bytes) : option Z :=
  match l with
  | [] => Some n
  | c :: l => if is_digit c then number (u32 (n * 10 + (c - §"0"))) l
              else if (c =? 13) || is_ws c then Some n else None
  end.

Definition first_number (l : bytes) : option Z :=
  match skip is_ws l with
  | c :: l => if is_digit c then number (c - §"0") l else None
  | [] => None
  end.

Definition after_name (l : bytes) : option Z :=
  match skip is_ws l with
  | c :: l => if c =? §":" then first_number l else None
  | [] => None
  end.

(** The length a line gives, if it is a Content-Length header. *)
Definition clen_of (line : bytes) : option Z :=
  match skip is_ws line with
  | c :: l =>
      if (c =? §"C") || (c =? §"c") then strip ONTENT_LENGTH l ≫= after_name
      else if (c =? §"l") || (c =? §"L") then after_name l
      else None
  | [] => None
  end.

Definition empty_line (l : bytes) : bool := bool_decide (l = []) || bool_decide (l = [13]).

(** The lines up to the first empty one, and what is behind that. *)
Fixpoint headers (line l : bytes) : option (list bytes * bytes) :=
  match l with
  | [] => None
  | c :: l =>
      if c =? 10 then
        if empty_line line then Some ([], l)
        else '(ls, b) ← headers [] l; Some (line :: ls, b)
      else headers (line ++ [c]) l
  end.

Definition first_clen (ls : list bytes) : option Z := head (omap clen_of ls).

Inductive framed : Type := More | NoLength | Frame (n : Z).

(** The request at the start of a text. *)
Definition frame (t : bytes) : framed :=
  match headers [] t with
  | None => More
  | Some (ls, b) =>
      match first_clen ls with
      | None => NoLength
      | Some n => if n <=? zlen b then Frame (zlen t - zlen b + n) else More
      end
  end.

(** *** Lines *)

Definition no_lf (l : bytes) : Prop := ~ In 10 l.

Lemma headers_line x y l : no_lf y -> headers x (y ++ 10 :: l) =
  if empty_line (x ++ y) then Some ([], l) else '(ls, b) ← headers [] l; Some ((x ++ y) :: ls, b).
Proof.
  revert x. induction y as [|c y IH]; intros x Hy; simpl; [by rewrite app_nil_r|].
  rewrite (proj2 (Z.eqb_neq c 10)) by (intros ->; apply Hy; by left).
  rewrite IH by (intros ?; apply Hy; by right). by rewrite <- app_assoc.
Qed.

Lemma headers_none x y : no_lf y -> headers x y = None.
Proof.
  revert x. induction y as [|c y IH]; intros x Hy; simpl; [done|].
  rewrite (proj2 (Z.eqb_neq c 10)) by (intros ->; apply Hy; by left). apply IH. intros ?. apply Hy. by right.
Qed.

Lemma split_lf l : no_lf l \/ exists x r, l = x ++ 10 :: r /\ no_lf x.
Proof.
  induction l as [|c l [IH|(x & r & -> & IH)]]; [left; by intros []|..].
  - destruct (Z.eq_dec c 10) as [-> |N]; [right; exists [], l; split; [done|by intros []]|].
    left. intros [|]; [congruence|done].
  - destruct (Z.eq_dec c 10) as [-> |N]; [right; exists [], (x ++ 10 :: r); split; [done|by intros []]|].
    right. exists (c :: x), r. split; [done|]. intros [|]; [congruence|done].
Qed.

(** *** The automaton on a line *)

(** The states inside a line of the headers. *)
Definition in_line (q : tcp_req_states) : bool :=
  match q with H_LF | H_LFCR | H_BODY | H_SKIP_EMPTY => false | _ => true end.

(** What the rest of the line gives in each. *)
Definition name_rest (q : tcp_req_states) : option (list (Z * Z)) :=
  match q with
  | H_CONT_LEN1 => Some (drop 0 ONTENT_LENGTH) | H_CONT_LEN2 => Some (drop 1 ONTENT_LENGTH)
  | H_CONT_LEN3 => Some (drop 2 ONTENT_LENGTH) | H_CONT_LEN4 => Some (drop 3 ONTENT_LENGTH)
  | H_CONT_LEN5 => Some (drop 4 ONTENT_LENGTH) | H_CONT_LEN6 => Some (drop 5 ONTENT_LENGTH)
  | H_CONT_LEN7 => Some (drop 6 ONTENT_LENGTH) | H_CONT_LEN8 => Some (drop 7 ONTENT_LENGTH)
  | H_CONT_LEN9 => Some (drop 8 ONTENT_LENGTH) | H_CONT_LEN10 => Some (drop 9 ONTENT_LENGTH)
  | H_CONT_LEN11 => Some (drop 10 ONTENT_LENGTH) | H_CONT_LEN12 => Some (drop 11 ONTENT_LENGTH)
  | H_CONT_LEN13 => Some (drop 12 ONTENT_LENGTH)
  | _ => None
  end.

Definition value (q : tcp_req_states) (n : Z) (y : bytes) : option Z :=
  match q with
  | H_STARTWS => clen_of y
  | H_L_COLON => after_name y
  | H_CONT_LEN_BODY => first_number y
  | H_CONT_LEN_BODY_PARSE => number n y
  | q => match name_rest q with Some name => strip name y ≫= after_name | None => None end
  end.

(** In the headers of a request that starts at [k], [h] being the length found so far. *)
Record in_head (k : Z) (h : option Z) (r : tcp_req) : Prop := InHead {
  ih_error : error r = TCP_REQ_OK;
  ih_open : complete r = false;
  ih_start : start r = k;
  ih_has : has_content_len r = negb (absent h);
  ih_len : match h with Some v => content_len r = v | None => True end
}.

Lemma in_head_goto k h q r : in_head k h r -> in_head k h (goto q r).
Proof. intros []. split; done. Qed.

Lemma in_head_clen k v r : in_head k None r -> in_head k None (set_clen v r).
Proof. intros []. split; done. Qed.

Lemma in_head_found k r : in_head k None r -> in_head k (Some (content_len r)) (found_clen r).
Proof. intros []. split; done. Qed.

#[local] Hint Resolve in_head_goto in_head_clen in_head_found : tcp.

Lemma beg_in_line k c r d : in_head k None r -> c <> 10 -> in_head k None d -> in_line (state d) = true -> value (state d) (content_len d) = (fun _ => None) ->
  let r' := content_len_beg c r d in
  in_head k None r' /\ in_line (state r') = true /\ forall y, value (state r') (content_len r') y = clen_of (c :: y).
Proof.
  intros H Hc Hd Hl Hv. pose proof (ih_has k None r H) as Hh. simpl in Hh. unfold content_len_beg, clen_of. rewrite Hh. cbn [skip].
  destruct (is_ws c) eqn:Ew; [split; [auto with tcp|split; [done|done]]|].
  destruct ((c =? §"C") || (c =? §"c")); [split; [auto with tcp|split; [done|done]]|].
  destruct ((c =? §"l") || (c =? §"L")); [split; [auto with tcp|split; [done|done]]|].
  split; [done|]. split; [done|]. intros y. by rewrite Hv.
Qed.

Lemma change_in_line k c r a b q name :
  in_head k None r -> c <> 10 -> name_rest (state r) = Some ((a, b) :: name) -> in_line q = true ->
  (forall n y, value q n y = strip name y ≫= after_name) ->
  let r' := change_state a b q c r in
  in_head k None r' /\ in_line (state r') = true /\ forall y, value (state r') (content_len r') y = strip ((a, b) :: name) (c :: y) ≫= after_name.
Proof.
  intros H Hc Hn Hq Hv. unfold change_state, crlf_default_skip. rewrite (proj2 (Z.eqb_neq c 10)) by done. cbn [strip].
  destruct ((c =? a) || (c =? b)); split; auto with tcp; split; done.
Qed.

(** A character of a line, none of whose values is known yet. *)
Lemma char_in_line k p c r : in_head k None r -> in_line (state r) = true -> c <> 10 ->
  exists h r', byte_step p c r = (r', false) /\ in_head k h r' /\ in_line (state r') = true /\
    match h with
    | None => forall y, value (state r') (content_len r') y = value (state r) (content_len r) (c :: y)
    | Some v => state r' = H_SKIP /\ forall y, value (state r) (content_len r) (c :: y) = Some v
    end.
Proof.
  intros H Hl Hc. pose proof (proj2 (Z.eqb_neq c 10) Hc) as Ec. unfold byte_step.
  assert (Hskip : in_head k None (goto H_SKIP r)) by auto with tcp.
  destruct (state r) eqn:Es; try discriminate Hl; unfold on_char; rewrite ?Es.
  all: try (match goal with |- context [change_state ?a ?b ?q ?x ?z] =>
    exists None, (change_state a b q x z); split; [done|];
    edestruct (change_in_line k x z a b q) as (H1 & H2 & H3); [done|done|rewrite Es; reflexivity|done|by intros|];
    split; [done|]; split; [done|]; exact H3 end).
  - exists None, r. rewrite Ec, Es. done.
  - edestruct (beg_in_line k c r (crlf_default_skip c r)) as (H1 & H2 & H3); [done|done|..].
    1-3: unfold crlf_default_skip; rewrite Ec; try done; auto with tcp.
    eexists None, _. split; [done|]. split; [exact H1|]. split; [exact H2|]. exact H3.
  - unfold crlf_default_skip. rewrite Ec. cbn [value]. unfold after_name. cbn [skip].
    destruct (is_ws c); [exists None, r; rewrite Es; done|].
    destruct (c =? §":"); eexists None, _; split; try done; split; auto with tcp.
  - unfold crlf_default_skip. rewrite Ec. cbn [value]. unfold first_number. cbn [skip].
    destruct (is_ws c); [exists None, r; rewrite Es; done|].
    destruct (is_digit c); eexists None, _; split; try done; split; auto with tcp.
  - cbn [value number]. rewrite Ec.
    destruct (is_digit c); [eexists None, _; split; [done|]; split; [by apply in_head_clen|]; simpl; by rewrite Es|].
    destruct ((c =? 13) || is_ws c); [|eexists None, _; split; [done|]; split; auto with tcp].
    eexists (Some (content_len r)), _. split; [done|]. split; [|done].
    apply (in_head_found k (goto H_SKIP r)). auto with tcp.
Qed.

Lemma run_cons p c l r r' : error r = TCP_REQ_OK -> byte_step p c r = (r', false) -> run p (c :: l) r = run (p + 1) l r'.
Proof. intros He E. cbn [run]. by rewrite bool_decide_true, E. Qed.

(** To the end of a line of which nothing more is wanted. *)
Lemma skip_line k p y l r h : in_head k h r -> state r = H_SKIP -> no_lf y ->
  run p (y ++ 10 :: l) r = run (p + zlen y + 1) l (goto H_LF r).
Proof.
  intros H Hs. revert p. induction y as [|c y IH]; intros p Hy; simpl app.
  - rewrite (run_cons p 10 l r (goto H_LF r)), zlen_empty, Z.add_0_r; [done|apply (ih_error k h r H)|].
    unfold byte_step. by rewrite Hs.
  - rewrite (run_cons p c _ r r); [|apply (ih_error k h r H)|].
    + rewrite IH, zlen_cons by (intros ?; apply Hy; by right). f_equal. lia.
    + unfold byte_step. rewrite Hs, (proj2 (Z.eqb_neq c 10)); [done|]. intros ->. apply Hy. by left.
Qed.

Definition or_else (h x : option Z) : option Z := match h with Some v => Some v | None => x end.

Lemma line_end k p l r : in_head k None r -> in_line (state r) = true ->
  exists r', run p (10 :: l) r = run (p + 1) l r' /\ in_head k (value (state r) (content_len r) []) r' /\ state r' = H_LF.
Proof.
  intros H Hl. pose proof (ih_error _ _ _ H) as He. pose proof (ih_has _ _ _ H) as Hh. simpl in Hh.
  destruct (state r) eqn:Es; try discriminate Hl.
  all: try (exists (goto H_LF r); split; [apply run_cons; [done|unfold byte_step, on_char; rewrite Es; by rewrite ?Hh]|];
    split; [by apply in_head_goto|done]; fail).
  exists (found_clen (goto H_LF r)). split; [apply run_cons; [done|unfold byte_step, on_char; by rewrite Es]|].
  split; [|done]. apply (in_head_found k (goto H_LF r)). auto with tcp.
Qed.

Lemma line_run k y p l r : in_head k None r -> in_line (state r) = true -> no_lf y ->
  exists r', run p (y ++ 10 :: l) r = run (p + zlen y + 1) l r'
    /\ in_head k (value (state r) (content_len r) y) r' /\ state r' = H_LF.
Proof.
  revert p r. induction y as [|c y IH]; intros p r H Hl Hy.
  - rewrite zlen_empty, Z.add_0_r. by apply line_end.
  - assert (Hc : c <> 10) by (intros ->; apply Hy; by left).
    assert (Hy' : no_lf y) by (intros ?; apply Hy; by right).
    destruct (char_in_line k p c r H Hl Hc) as (h & r1 & E & H1 & Hl1 & Hv).
    simpl app. rewrite (run_cons _ _ _ _ _ (ih_error _ _ _ H) E), zlen_cons.
    replace (p + (1 + zlen y) + 1) with (p + 1 + zlen y + 1) by lia. destruct h as [v|].
    + destruct Hv as [Hs Hv]. rewrite (skip_line k _ y l r1 _ H1 Hs Hy'). eexists. split; [done|]. rewrite Hv. split; auto with tcp.
    + destruct (IH (p + 1) r1 H1 Hl1 Hy') as (r' & E' & H' & S'). exists r'. rewrite <- Hv. done.
Qed.

(** A line that is not empty, from its start. *)
Lemma next_line k h x p l r : in_head k h r -> state r = H_LF -> no_lf x -> empty_line x = false ->
  exists r', run p (x ++ 10 :: l) r = run (p + zlen x + 1) l r' /\ in_head k (or_else h (clen_of x)) r' /\ state r' = H_LF.
Proof.
  intros H Hs Hx He. pose proof (ih_error _ _ _ H) as Er. pose proof (ih_has _ _ _ H) as Hh.
  destruct x as [|c x]; [done|]. assert (Hc : c <> 10) by (intros ->; apply Hx; by left).
  assert (Hx' : no_lf x) by (intros ?; apply Hx; by right).
  pose proof (proj2 (Z.eqb_neq c 10) Hc) as Ec. simpl app. rewrite zlen_cons.
  replace (p + (1 + zlen x) + 1) with (p + 1 + zlen x + 1) by lia.
  destruct (Z.eq_dec c 13) as [-> |N].
  { rewrite (run_cons _ _ _ _ (goto H_LFCR r)) by (done || (unfold byte_step, on_char; by rewrite Hs)).
    destruct x as [|d x]; [done|]. assert (Hd : d <> 10) by (intros ->; apply Hx'; by left).
    simpl app. rewrite (run_cons _ _ _ _ (goto H_SKIP r)); [|done|].
    2: { unfold byte_step, on_char. cbn [state goto]. rewrite (proj2 (Z.eqb_neq d 10)) by done. done. }
    rewrite (skip_line k _ x l (goto H_SKIP r) h); [|auto with tcp|done|intros ?; apply Hx'; by right].
    rewrite zlen_cons. replace (p + 1 + 1 + zlen x + 1) with (p + 1 + (1 + zlen x) + 1) by lia.
    eexists. split; [done|]. split; [|done]. assert (clen_of (13 :: d :: x) = None) as -> by done.
    unfold or_else. destruct h; auto with tcp. }
  pose proof (proj2 (Z.eqb_neq c 13) N) as E13.
  assert (E : byte_step p c r = (content_len_beg c r (goto H_SKIP r), false))
    by (unfold byte_step, on_char; by rewrite Hs, E13, Ec).
  rewrite (run_cons _ _ _ _ _ Er E). destruct h as [v|].
  - assert (content_len_beg c r (goto H_SKIP r) = goto H_SKIP r) as ->.
    { unfold content_len_beg. simpl in Hh. rewrite Hh. by repeat case_match. }
    rewrite (skip_line k _ x l (goto H_SKIP r) (Some v)) by (auto with tcp).
    eexists. split; [done|]. split; [|done]. simpl. auto with tcp.
  - destruct (beg_in_line k c r (goto H_SKIP r)) as (H1 & H2 & H3); [done|done|auto with tcp|done|done|].
    destruct (line_run k x (p + 1) l _ H1 H2 Hx') as (r' & E' & H' & S'). exists r'. simpl or_else. rewrite <- H3. done.
Qed.

(** A line that does not end. *)
Lemma char_open p c r : error r = TCP_REQ_OK -> complete r = false -> state r <> H_BODY -> c <> 10 ->
  exists r', byte_step p c r = (r', false) /\ error r' = TCP_REQ_OK /\ complete r' = false /\ state r' <> H_BODY.
Proof.
  intros He Ho Hs Hc. pose proof (proj2 (Z.eqb_neq c 10) Hc) as Ec.
  unfold byte_step, on_char, content_len_beg, change_state, crlf_default_skip. rewrite Ec.
  destruct (state r) eqn:Es; try done; repeat case_match; eexists; (split; [reflexivity|]); cbn; rewrite ?Es; done.
Qed.

Lemma open_line p y r : error r = TCP_REQ_OK -> complete r = false -> state r <> H_BODY -> no_lf y ->
  error (run p y r).2 = TCP_REQ_OK /\ complete (run p y r).2 = false.
Proof.
  revert p r. induction y as [|c y IH]; intros p r He Ho Hs Hy; [done|].
  destruct (char_open p c r He Ho Hs) as (r' & E & He' & Ho' & Hs'); [intros ->; apply Hy; by left|].
  rewrite (run_cons _ _ _ _ _ He E). apply IH; auto. intros ?. apply Hy. by right.
Qed.

Lemma number_nonneg n y v : 0 <= n -> number n y = Some v -> 0 <= v.
Proof.
  revert n. induction y as [|c y IH]; intros n Hn; simpl; [by intros [= <-]|].
  destruct (is_digit c); [apply IH, Z.mod_pos_bound; lia|]. destruct (_ || _); [by intros [= <-]|done].
Qed.

Lemma after_name_nonneg y v : after_name y = Some v -> 0 <= v.
Proof.
  unfold after_name, first_number. destruct (skip is_ws y) as [|c z]; [done|]. destruct (c =? §":"); [|done].
  destruct (skip is_ws z) as [|d w]; [done|]. destruct (is_digit d) eqn:Ed; [|done]. apply number_nonneg.
  unfold is_digit in Ed. lia.
Qed.

Lemma clen_nonneg x v : clen_of x = Some v -> 0 <= v.
Proof.
  unfold clen_of. destruct (skip is_ws x) as [|c z]; [done|]. destruct (_ || _).
  - destruct (strip ONTENT_LENGTH z) as [w|]; [|done]. apply after_name_nonneg.
  - destruct (_ || _); [apply after_name_nonneg|done].
Qed.

(** *** Headers and body *)

(** The end of a run for the request that starts at offset [k] and at [p] in the run. *)
Definition outcome (k p : Z) (f : framed) (x : Z * tcp_req) : Prop :=
  match f with
  | More => error x.2 = TCP_REQ_OK /\ complete x.2 = false
  | NoLength => error x.2 = TCP_REQ_BAD_LEN /\ complete x.2 = false
  | Frame n => error x.2 = TCP_REQ_OK /\ complete x.2 = true /\ has_content_len x.2 = true /\ start x.2 = k /\ x.1 = p + n
  end.

Definition frame_with (h : option Z) (t : bytes) : framed :=
  match headers [] t with
  | None => More
  | Some (ls, b) =>
      match or_else h (first_clen ls) with
      | None => NoLength
      | Some n => if n <=? zlen b then Frame (zlen t - zlen b + n) else More
      end
  end.

Lemma end_run k h p l r q : in_head k h r -> (forall v, h = Some v -> 0 <= v) ->
  byte_step q 10 r = end_headers q r -> p = q ->
  outcome k p (match h with None => NoLength | Some n => if n <=? zlen l then Frame (1 + n) else More end) (run p (10 :: l) r).
Proof.
  intros H Hv Es ->. pose proof (ih_error _ _ _ H) as He. cbn [run]. rewrite bool_decide_true by done. rewrite Es.
  unfold end_headers. cbn [has_content_len goto]. rewrite (ih_has _ _ _ H).
  destruct h as [v|]; cbn [absent negb].
  - pose proof (ih_len _ _ _ H) as Hl. specialize (Hv v eq_refl). cbn [bytes_to_go set_to_go set_body goto content_len]. simpl in Hl. rewrite Hl.
    pose proof (zlen_nonneg l). destruct (Z.eqb_spec v 0) as [-> |N].
    + rewrite (proj2 (Z.leb_le _ _)) by lia. split; [done|]. split; [done|].
      split; [simpl; by rewrite (ih_has _ _ _ H)|]. split; [apply (ih_start _ _ _ H)|done].
    + rewrite run_body by (done || (simpl; lia)). cbn [bytes_to_go set_to_go].
      destruct (Z.leb_spec v (zlen l)); [|split; [done|apply (ih_open _ _ _ H)]].
      split; [done|]. split; [done|]. split; [simpl; by rewrite (ih_has _ _ _ H)|].
      split; [apply (ih_start _ _ _ H)|simpl; lia].
  - rewrite run_stuck by done. split; [done|]. apply (ih_open _ _ _ H).
Qed.

Definition longer (n : Z) (f : framed) : framed :=
  match f with More => More | NoLength => NoLength | Frame m => Frame (n + m) end.

Lemma outcome_shift k p n f x : outcome k (p + n) f x -> outcome k p (longer n f) x.
Proof. destruct f as [| |m]; [done..|]. simpl. intros (? & ? & ? & ? & ->). split_and!; try done. lia. Qed.

Lemma first_clen_cons x ls : first_clen (x :: ls) = or_else (clen_of x) (first_clen ls).
Proof. unfold first_clen. cbn [omap list_omap]. by destruct (clen_of x). Qed.

Lemma frame_with_line h x l : no_lf x -> empty_line x = false ->
  frame_with h (x ++ 10 :: l) = longer (zlen x + 1) (frame_with (or_else h (clen_of x)) l).
Proof.
  intros Hx He. unfold frame_with. rewrite headers_line by done. simpl app. rewrite He.
  destruct (headers [] l) as [[ls b]|]; [|done]. simpl. rewrite first_clen_cons.
  assert (E : zlen (x ++ 10 :: l) = zlen x + 1 + zlen l) by (rewrite zlen_app, zlen_cons; lia).
  destruct h as [v|]; simpl; [|destruct (clen_of x) as [v|]; simpl; [|destruct (first_clen ls) as [v|]; [|done]]].
  all: destruct (v <=? zlen b); [|done]; cbn [longer]; f_equal; rewrite E; lia.
Qed.

Lemma empty_line_cases x : empty_line x = true -> x = [] \/ x = [13].
Proof.
  unfold empty_line. intros H. apply orb_true_iff in H as [H|H]; apply bool_decide_eq_true in H; auto.
Qed.

(** From the start of a line. *)
Lemma headers_run n : forall l k h p r, (length l < n)%nat -> in_head k h r -> (forall v, h = Some v -> 0 <= v) ->
  state r = H_LF -> outcome k p (frame_with h l) (run p l r).
Proof.
  induction n as [|n IH]; intros l k h p r Hn H Hv Hs; [lia|].
  pose proof (ih_error _ _ _ H) as He. pose proof (ih_open _ _ _ H) as Ho.
  destruct (split_lf l) as [Hl|(x & t & -> & Hx)].
  { unfold frame_with. rewrite headers_none by done. apply open_line; auto. by rewrite Hs. }
  destruct (empty_line x) eqn:Ex.
  - unfold frame_with. rewrite headers_line by done. simpl app. rewrite Ex. simpl first_clen.
    rewrite zlen_app, zlen_cons. apply empty_line_cases in Ex as [-> | ->].
    + pose proof (end_run k h p t r p H Hv) as Hr. rewrite zlen_empty. simpl app.
      replace (0 + (1 + zlen t) - zlen t) with 1 by lia. destruct h; apply Hr; auto; unfold byte_step, on_char; by rewrite Hs.
    + simpl app. rewrite (run_cons _ _ _ _ (goto H_LFCR r)) by (done || (unfold byte_step, on_char; by rewrite Hs)).
      pose proof (end_run k h (p + 1) t (goto H_LFCR r) (p + 1) (in_head_goto _ _ _ _ H) Hv eq_refl eq_refl) as Hr.
      apply outcome_shift in Hr. change (zlen [13]) with 1.
      replace (1 + (1 + zlen t) - zlen t) with 2 by lia. destruct h as [v|]; [|exact Hr]. simpl or_else. cbv beta iota.
      destruct (v <=? zlen t); [|exact Hr]. replace (2 + v) with (1 + (1 + v)) by lia. exact Hr.
  - rewrite frame_with_line by done. destruct (next_line k h x p t r H Hs Hx Ex) as (r' & -> & H' & S').
    apply outcome_shift. rewrite Z.add_assoc. apply IH; auto.
    + rewrite length_app in Hn. simpl in Hn. lia.
    + intros v. destruct h as [w|]; simpl; [apply Hv|apply clen_nonneg].
Qed.

(** *** The start of a request *)

Definition fresh (b : bytes) : tcp_req := with_buf b 0 init_tcp_req.

Lemma sane_fresh b : sane (fresh b).
Proof. split; done. Qed.

Lemma frame_frame t : frame t = frame_with None t.
Proof. done. Qed.

(** The first line, from its first character, which is not blank. *)
Lemma first_line k p c y l r : in_head k None r -> state r = H_SKIP_EMPTY -> is_blank c = false -> no_lf y ->
  exists r', run p ((c :: y) ++ 10 :: l) r = run (p + zlen (c :: y) + 1) l r'
    /\ in_head p (clen_of (c :: y)) r' /\ state r' = H_LF.
Proof.
  intros H Hs Hb Hy. pose proof (ih_error _ _ _ H) as He. unfold is_blank in Hb.
  apply orb_false_iff in Hb as [Hb Hw]. 
  set (r1 := if (c =? §"C") || (c =? §"c") then set_start p (goto H_CONT_LEN1 r)
             else if (c =? §"l") || (c =? §"L") then set_start p (goto H_L_COLON r) else set_start p (goto H_SKIP r)).
  assert (E : byte_step p c r = (r1, false)) by (unfold byte_step, on_char; by rewrite Hs, Hb, Hw).
  simpl app. rewrite (run_cons _ _ _ _ _ He E), zlen_cons.
  assert (H1 : in_head p None r1 /\ in_line (state r1) = true /\ value (state r1) (content_len r1) y = clen_of (c :: y)).
  { unfold clen_of. cbn [skip]. rewrite Hw. destruct H. unfold r1.
    destruct ((c =? 67) || (c =? 99)); [|destruct ((c =? 108) || (c =? 76))]; (split; [split; done|]; done). }
  destruct H1 as (H1 & H2 & H3). destruct (line_run p y (p + 1) l r1 H1 H2 Hy) as (r' & E' & H' & S').
  exists r'. rewrite E', <- H3. split; [f_equal; lia|done].
Qed.

Lemma request_run t k p r : in_head k None r -> state r = H_SKIP_EMPTY ->
  match t with [] => True | c :: _ => is_blank c = false end -> outcome p p (frame t) (run p t r).
Proof.
  intros H Hs Hc. pose proof (ih_error _ _ _ H) as He. pose proof (ih_open _ _ _ H) as Ho. rewrite frame_frame.
  destruct (split_lf t) as [Hl|(x & l & -> & Hx)].
  { unfold frame_with. rewrite headers_none by done. apply open_line; auto. by rewrite Hs. }
  destruct x as [|c y]; [done|]. simpl in Hc.
  assert (Ex : empty_line (c :: y) = false).
  { unfold empty_line. rewrite bool_decide_false by done. apply bool_decide_false. intros [= -> ->]. discriminate Hc. }
  rewrite frame_with_line by done.
  destruct (first_line k p c y l r H Hs Hc) as (r' & -> & H' & S'); [intros ?; apply Hx; by right|].
  apply outcome_shift. rewrite Z.add_assoc.
  apply (headers_run (S (length l))); [lia|done|intros v; simpl; apply clen_nonneg|done].
Qed.

(** Blanks in front of it. *)
Lemma blank_run s : forall k p r, in_head k None r -> state r = H_SKIP_EMPTY ->
  let t := skip is_blank s in let q := p + (zlen s - zlen t) in run p s r = run q t r.
Proof.
  induction s as [|c s IH]; intros k p r H Hs; cbv zeta; cbn [skip]; [by rewrite Z.sub_diag, Z.add_0_r|].
  destruct (is_blank c) eqn:Eb; [|by rewrite Z.sub_diag, Z.add_0_r].
  rewrite (run_cons p c s r r); [|apply (ih_error _ _ _ H)|unfold byte_step, on_char; rewrite Hs; unfold is_blank in Eb; by rewrite Eb].
  rewrite (IH k) by done. f_equal. rewrite zlen_cons. lia.
Qed.

Lemma skip_head f s : match skip f s with [] => True | c :: _ => f c = false end.
Proof. induction s as [|c s IH]; simpl; [done|]. destruct (f c) eqn:E; [apply IH|done]. Qed.

(** The run over a text is decided by the reference. *)
Lemma run_frame b s : let t := skip is_blank s in let k := zlen s - zlen t in
  outcome k k (frame t) (run 0 s (fresh b)).
Proof.
  assert (H : in_head 0 None (fresh b)) by (split; done).
  cbv zeta. rewrite (blank_run s 0 0 (fresh b)) by done. rewrite Z.add_0_l. apply (request_run _ 0); try done. apply skip_head.
Qed.

(** ** Streams *)

Fixpoint frames_go (fuel : nat) (s : bytes) : list bytes * bool * bytes :=
  match fuel with
  | O => ([], true, s)
  | S fuel =>
      let t := skip is_blank s in
      match frame t with
      | More => ([], true, s)
      | NoLength => ([], false, s)
      | Frame n =>
          let '(ms, ok, rest) := frames_go fuel (drop (Z.to_nat n) t) in
          (take (Z.to_nat n) t :: ms, ok, rest)
      end
  end.

(** The requests of a stream, whether it goes on with one, and the bytes left. *)
Definition frames (s : bytes) : list bytes * bool * bytes := frames_go (S (length s)) s.

Lemma headers_app x t ls b y : headers x t = Some (ls, b) -> headers x (t ++ y) = Some (ls, b ++ y).
Proof.
  revert x ls. induction t as [|c t IH]; intros x ls; [done|]. cbn [headers app].
  destruct (c =? 10); [|apply IH]. destruct (empty_line x); [by intros [= <- <-]|].
  destruct (headers [] t) as [[ls' b']|] eqn:E; [|done]. intros [= <- <-]. by rewrite (IH [] ls' E).
Qed.

Lemma headers_suffix x t ls b : headers x t = Some (ls, b) -> zlen b < zlen t.
Proof.
  revert x ls. induction t as [|c t IH]; intros x ls; [done|]. cbn [headers]. rewrite zlen_cons.
  destruct (c =? 10).
  - destruct (empty_line x); [intros [= <- <-]; lia|].
    destruct (headers [] t) as [[ls' b']|] eqn:E; [|done]. intros [= <- <-]. specialize (IH _ _ E). lia.
  - intros H. specialize (IH _ _ H). lia.
Qed.

Lemma first_clen_nonneg ls n : first_clen ls = Some n -> 0 <= n.
Proof.
  induction ls as [|x ls IH]; [done|]. rewrite first_clen_cons. destruct (clen_of x) as [v|] eqn:E; [|apply IH].
  intros [= <-]. by apply clen_nonneg in E.
Qed.

Lemma frame_range t n : frame t = Frame n -> 0 < n <= zlen t.
Proof.
  unfold frame. destruct (headers [] t) as [[ls b]|] eqn:E; [|done]. destruct (first_clen ls) as [v|] eqn:Ev; [|done].
  destruct (Z.leb_spec v (zlen b)); [|done]. intros [= <-]. apply headers_suffix in E. apply first_clen_nonneg in Ev. lia.
Qed.

Lemma frame_app t y n : frame t = Frame n -> frame (t ++ y) = Frame n.
Proof.
  unfold frame. destruct (headers [] t) as [[ls b]|] eqn:E; [|done]. rewrite (headers_app _ _ _ _ _ E).
  destruct (first_clen ls) as [v|]; [|done]. destruct (Z.leb_spec v (zlen b)); [|done]. intros [= <-].
  rewrite !zlen_app, (proj2 (Z.leb_le _ _)) by (pose proof (zlen_nonneg y); lia). f_equal. lia.
Qed.

Lemma skip_app f s y : skip f s <> [] -> skip f (s ++ y) = skip f s ++ y.
Proof. induction s as [|c s IH]; simpl; [done|]. by destruct (f c). Qed.

Lemma skip_length f s : (length (skip f s) <= length s)%nat.
Proof. induction s as [|c s IH]; simpl; [done|]. destruct (f c); simpl; lia. Qed.

Lemma skip_suffix f s : skip f s = drop (length s - length (skip f s)) s.
Proof.
  induction s as [|c s IH]; [done|]. cbn [skip]. destruct (f c); [|by rewrite Nat.sub_diag].
  pose proof (skip_length f s). simpl length. replace (S (length s) - length (skip f s))%nat with (S (length s - length (skip f s))) by lia.
  exact IH.
Qed.

(** Enough fuel. *)
Lemma frames_fuel n m s : (length s < n)%nat -> (length s < m)%nat -> frames_go n s = frames_go m s.
Proof.
  revert m s. induction n as [|n IH]; intros m s Hn Hm; [lia|]. destruct m as [|m]; [lia|]. cbn [frames_go].
  destruct (frame (skip is_blank s)) as [| |k] eqn:E; [done..|]. apply frame_range in E. unfold zlen in E.
  pose proof (skip_length is_blank s). rewrite (IH m); [done|..]; rewrite length_drop; lia.
Qed.

Lemma frames_eq s : frames s = let t := skip is_blank s in
  match frame t with
  | More => ([], true, s)
  | NoLength => ([], false, s)
  | Frame n => let '(ms, ok, rest) := frames (drop (Z.to_nat n) t) in (take (Z.to_nat n) t :: ms, ok, rest)
  end.
Proof.
  unfold frames at 1. cbn [frames_go]. cbv zeta. destruct (frame (skip is_blank s)) as [| |k] eqn:E; [done..|].
  apply frame_range in E. unfold zlen in E. pose proof (skip_length is_blank s). unfold frames.
  rewrite (frames_fuel (length s) (S (length (drop (Z.to_nat k) (skip is_blank s))))); [done|rewrite length_drop; lia..].
Qed.

(** More of the stream: the requests are those found, and those of what was left with it. *)
Lemma frames_app s y ms rest : frames s = (ms, true, rest) ->
  frames (s ++ y) = let '(ms', ok, rest') := frames (rest ++ y) in (ms ++ ms', ok, rest').
Proof.
  remember (length s) as n eqn:En. revert s ms En. induction n as [n IH] using lt_wf_ind. intros s ms ->.
  rewrite (frames_eq s). cbv zeta. destruct (frame (skip is_blank s)) as [| |k] eqn:E.
  - intros [= <- <-]. by destruct (frames (s ++ y)) as [[? ?] ?].
  - done.
  - destruct (frames (drop (Z.to_nat k) (skip is_blank s))) as [[ms1 ok1] rest1] eqn:E1. intros [= <- -> ->].
    pose proof (frame_range _ _ E) as Hk. unfold zlen in Hk. pose proof (skip_length is_blank s).
    assert (Hne : skip is_blank s <> []) by (intros Hz; rewrite Hz in Hk; simpl in Hk; lia).
    rewrite (frames_eq (s ++ y)). cbv zeta. rewrite skip_app by done. rewrite (frame_app _ y _ E).
    rewrite drop_app_le, take_app_le by lia.
    assert (Hl : (length (drop (Z.to_nat k) (skip is_blank s)) < length s)%nat) by (rewrite length_drop; lia).
    rewrite (IH _ Hl _ ms1 eq_refl E1). by destruct (frames (rest ++ y)) as [[? ?] ?].
Qed.

(** ** Connections *)

Definition byte_list (l : bytes) : Prop := Forall (fun c => is_byte c = true) l.

(** The bytes [b] are in the buffer, of which [a] have been parsed without finding the end
    of a request. *)
Record holds (a b : bytes) (c : tcp_connection) : Prop := Holds {
  hd_prefix : exists x, b = a ++ x;
  hd_req : req c = with_buf b (zlen a) (run 0 a (fresh [])).2;
  hd_error : error (run 0 a (fresh [])).2 = TCP_REQ_OK;
  hd_open : complete (run 0 a (fresh [])).2 = false;
  hd_state : conn_state c = S_CONN_OK;
  hd_bytes : byte_list b
}.

Lemma run_sane a : complete (run 0 a (fresh [])).2 = false -> sane (run 0 a (fresh [])).2.
Proof.
  intros Hc. pose proof (run_end 0 a (fresh []) (sane_fresh [])) as H. destruct (run 0 a (fresh [])) as [p r].
  destruct H as [_ [[H _]|(H & _)]]; [done|]. simpl in *. congruence.
Qed.

Lemma run_all a : complete (run 0 a (fresh [])).2 = false -> error (run 0 a (fresh [])).2 = TCP_REQ_OK ->
  run 0 a (fresh []) = (zlen a, (run 0 a (fresh [])).2).
Proof.
  intros Hc He. pose proof (run_end 0 a (fresh []) (sane_fresh [])) as H. destruct (run 0 a (fresh [])) as [p r].
  destruct H as [_ [[_ H]|(H & _)]]; simpl in *; [|congruence]. by rewrite H.
Qed.

Lemma run_on a x : complete (run 0 a (fresh [])).2 = false -> error (run 0 a (fresh [])).2 = TCP_REQ_OK ->
  run 0 (a ++ x) (fresh []) = run (zlen a) x (run 0 a (fresh [])).2.
Proof.
  intros Ho He. rewrite (run_app 0 a x (fresh []) (sane_fresh [])). pose proof (run_all a Ho He) as E.
  destruct (run 0 a (fresh [])) as [p r]. simpl in *. rewrite Ho. by injection E as ->.
Qed.

Lemma parse_rest_ok a b c : holds a b c ->
  parse_rest c = Ret (set_req (with_buf b (run 0 b (fresh [])).1 (run 0 b (fresh [])).2) c).
Proof.
  intros [[x ->] Hr He Ho _ Hb]. unfold parse_rest. rewrite Hr.
  cbn [parsed with_buf set_buf set_parsed buf].
  assert (Ed : drop (Z.to_nat (zlen a)) (a ++ x) = x) by (unfold zlen; by rewrite Nat2Z.id, drop_app_length).
  rewrite Ed. apply Forall_app in Hb as [_ Hx].
  assert (Hs : sane (with_buf (a ++ x) (zlen a) (run 0 a (fresh [])).2)) by (destruct (run_sane a Ho); split; done).
  rewrite (parse_run _ _ _ _ Hx Hs) by lia. rewrite run_with. cbn [mbind res_bind].
  rewrite (run_on a x Ho He). done.
Qed.

(** The requests given to [receive_msg], up to the first it refuses. *)
Fixpoint given_to (receive_msg : bytes -> bool) (ms : list bytes) : list bytes * bool :=
  match ms with
  | [] => ([], true)
  | m :: ms => if receive_msg m then let '(gs, ok) := given_to receive_msg ms in (m :: gs, ok) else ([m], false)
  end.

(** What happens to the bytes [b] of a connection [c]. *)
Definition taken (receive_msg : bytes -> bool) (b : bytes) (c : tcp_connection) (resp : Z) (c' : tcp_connection) : Prop :=
  let '(ms, ok, rest) := frames b in
  let '(gs, acc) := given_to receive_msg ms in
  requests c' = requests c ++ gs /\ net c' = net c /\
  if acc && ok then resp = CONN_RELEASE /\ holds rest rest c' else resp = CONN_ERROR.

Lemma skip_at f s : let t := skip f s in drop (Z.to_nat (zlen s - zlen t)) s = t.
Proof.
  cbv zeta. pose proof (skip_length f s). rewrite (skip_suffix f s) at 2. f_equal. unfold zlen. lia.
Qed.

(** The request found at the end of a run is the one of the reference, and the rest is kept. *)
Lemma message_ok b n : frame (skip is_blank b) = Frame n ->
  let r := with_buf b (run 0 b (fresh [])).1 (run 0 b (fresh [])).2 in
  let t := skip is_blank b in
  complete r = true /\ error r = TCP_REQ_OK /\ has_content_len r = true
  /\ message r = take (Z.to_nat n) t /\ next_req r = fresh (drop (Z.to_nat n) t).
Proof.
  intros Hf r t. pose proof (run_frame [] b) as Ho. cbv zeta in Ho. rewrite Hf in Ho. destruct Ho as (He & Hc & Hh & Hs & Hp).
  split; [done|]. split; [done|]. split; [done|]. unfold message, next_req, r. cbn [start parsed buf with_buf set_buf set_parsed].
  rewrite Hs, Hp. fold t. pose proof (frame_range _ _ Hf). pose proof (skip_length is_blank b). fold t in H, H0. unfold zlen in H.
  assert (Ek : drop (Z.to_nat (zlen b - zlen t)) b = t) by apply skip_at.
  split; [rewrite Ek; f_equal; lia|]. unfold fresh, with_buf, init_tcp_req, set_buf, set_parsed. simpl. f_equal.
  rewrite <- Ek at 2. rewrite drop_drop. f_equal. unfold zlen. lia.
Qed.

Lemma read_loop_ok recv fuel : forall total c a b, holds a b c -> zlen a < zlen b -> (length b < fuel)%nat ->
  exists resp c', read_loop recv fuel total c = Ret (resp, total, c') /\ taken recv b c resp c'.
Proof.
  induction fuel as [|fuel IH]; intros total c a b H Hab Hl; [lia|]. pose proof H as [[x Ex] Hr He Ho Hs Hb].
  assert (Eh : tcp_read_headers c = Ret (0, set_req (with_buf b (run 0 b (fresh [])).1 (run 0 b (fresh [])).2) c)).
  { unfold tcp_read_headers. rewrite (parse_rest_ok a b c H). rewrite Hr. cbn [parsed with_buf set_buf set_parsed buf].
    by rewrite (proj2 (Z.ltb_lt _ _)) by done. }
  cbn [read_loop]. rewrite bool_decide_true by (rewrite Hr; done). rewrite Eh. cbn [mbind res_bind].
  rewrite Z.add_0_r. change (0 =? -1) with false. cbn [req set_req conn_state]. rewrite Hs. cbv zeta.
  rewrite (bool_decide_false (S_CONN_OK = S_CONN_EOF)) by done. cbn [andb].
  pose proof (run_frame [] b) as Hout. unfold taken. rewrite frames_eq. cbv zeta in Hout |- *.
  set (r := with_buf b (run 0 b (fresh [])).1 (run 0 b (fresh [])).2).
  destruct (frame (skip is_blank b)) as [| |n] eqn:Ef.
  - destruct Hout as [He1 Hc1]. rewrite bool_decide_true by done. change (complete r) with (complete (run 0 b (fresh [])).2).
    rewrite Hc1. cbn [negb]. do 2 eexists. split; [reflexivity|]. cbn [given_to andb]. rewrite app_nil_r.
    split; [done|]. split; [done|]. split; [done|]. split; try done; [exists []; by rewrite app_nil_r|].
    cbn [req set_req]. unfold r. by rewrite (run_all b Hc1 He1) at 1.
  - destruct Hout as [He1 Hc1]. rewrite bool_decide_false by (change (error r) with (error (run 0 b (fresh [])).2); congruence).
    cbn [negb]. do 2 eexists. split; [reflexivity|]. cbn [given_to andb]. rewrite app_nil_r. done.
  - destruct (message_ok b n Ef) as (Mc & Me & Mh & Mm & Mn). fold r in Mc, Me, Mh, Mm, Mn.
    rewrite bool_decide_true, Mc, Mh, Mm by done. cbn [negb]. set (t := skip is_blank b) in *.
    cbn [req given set_req]. rewrite Mn. change (buf (fresh (drop (Z.to_nat n) t))) with (drop (Z.to_nat n) t).
    pose proof (frame_range _ _ Ef) as Hn. pose proof (skip_length is_blank b) as Ht. fold t in Ht. unfold zlen in Hn.
    set (c1 := set_req (fresh (drop (Z.to_nat n) t)) (given (take (Z.to_nat n) t) (set_req r c))).
    assert (H1 : holds [] (drop (Z.to_nat n) t) c1).
    { split; try done; [by eexists|]. apply Forall_drop. unfold t. rewrite skip_suffix. by apply Forall_drop. }
    destruct (recv (take (Z.to_nat n) t)) eqn:Erecv.
    + destruct (Z.eqb_spec (zlen (drop (Z.to_nat n) t)) 0) as [Ez|Nz]; cbn [negb].
      * rewrite bool_decide_false by (cbn; congruence). do 2 eexists. split; [reflexivity|].
        destruct (drop (Z.to_nat n) t) as [|? ?] eqn:Ed; [|rewrite zlen_cons in Ez; pose proof (zlen_nonneg l); lia].
        change (frames []) with (@nil bytes, true, @nil Z). cbn [given_to]. rewrite Erecv. cbn [andb].
        split; [done|]. split; [done|]. split; [done|]. exact H1.
      * destruct (IH total c1 [] _ H1) as (resp & c' & E & Hk).
        { pose proof (zlen_nonneg (drop (Z.to_nat n) t)). rewrite zlen_empty. lia. }
        { rewrite length_drop. lia. }
        exists resp, c'. split; [exact E|]. unfold taken in Hk.
        destruct (frames (drop (Z.to_nat n) t)) as [[ms ok] rest]. cbn [given_to]. rewrite Erecv.
        destruct (given_to recv ms) as [gs acc]. destruct Hk as (Hq & Hnet & Hres). split; [|done].
        rewrite Hq. cbn [requests c1 set_req given]. by rewrite <- app_assoc.
    + do 2 eexists. split; [reflexivity|]. destruct (frames (drop (Z.to_nat n) t)) as [[ms ok] rest].
      cbn [given_to]. rewrite Erecv. done.
Qed.

(** *** One call *)

Section Calls.
Context (recv : bytes -> bool).

(** The bytes that are still to come. *)
Definition arrived (net : list event) : bytes := flat_map (fun x => match x with Arrived b => b | _ => [] end) net.

(** What a call does that finds [b] in the buffer. *)
Definition call_spec (b : bytes) (c : tcp_connection) (resp : Z) (c' : tcp_connection) : Prop :=
  if zlen b =? TCP_BUF_SIZE then resp = CONN_ERROR
  else match read (TCP_BUF_SIZE - zlen b) (net c) with
       | (Read x, net') => taken recv (b ++ x) (set_net net' c) resp c'
       | (Again, net') => resp = CONN_RELEASE /\ c' = set_net net' c
       | (Eof, _) => resp = CONN_EOF
       | (Failed, _) => resp = CONN_ERROR
       end.

Lemma read_some n net x net' : read n net = (Read x, net') -> 0 < n ->
  0 < zlen x <= n /\ arrived net = x ++ arrived net' /\
  (byte_list (arrived net) -> byte_list x).
Proof.
  unfold read. destruct net as [|[y| | |] net]; try done. destruct (Z.eqb_spec (zlen y) 0); [done|].
  pose proof (zlen_nonneg y). destruct (Z.leb_spec (zlen y) n); intros [= <- <-] Hn.
  - split; [lia|]. split; [done|]. cbn. intros Hb. by apply Forall_app in Hb as [? _].
  - assert (E : take (Z.to_nat n) y ++ drop (Z.to_nat n) y = y) by apply take_drop.
    split; [unfold zlen in *; rewrite length_take; lia|]. split.
    + cbn. rewrite app_assoc. by rewrite E.
    + cbn. intros Hb. apply Forall_app in Hb as [Hb _]. by apply Forall_take.
Qed.

Lemma read_again n net net' : read n net = (Again, net') -> arrived net' = arrived net.
Proof.
  unfold read. destruct net as [|[y| | |] net]; try done; try by intros [= <-].
  destruct (Z.eqb_spec (zlen y) 0) as [E|]; [|by destruct (_ <=? _)]. intros [= <-]. cbn.
  destruct y; [done|]. rewrite zlen_cons in E. pose proof (zlen_nonneg y). lia.
Qed.

Lemma call_ok b c : holds b b c -> zlen b <= TCP_BUF_SIZE -> byte_list (arrived (net c)) ->
  exists resp n c', tcp_read_req recv c = Ret (resp, n, c') /\ call_spec b c resp c'.
Proof.
  intros H Hb Hn. pose proof H as [_ Hr He Ho Hs Hbb]. unfold tcp_read_req. set (fuel := Z.to_nat TCP_BUF_SIZE).
  assert (Eb : buf (req c) = b) by (by rewrite Hr). assert (Ep : parsed (req c) = zlen b) by (by rewrite Hr).
  assert (Ee : error (req c) = TCP_REQ_OK) by (by rewrite Hr). assert (Ec : complete (req c) = false) by (by rewrite Hr).
  assert (Eh : tcp_read_headers c = let '(bytes, c) := tcp_read c in
    if bytes <=? 0 then Ret (bytes, c) else c ← parse_rest c; Ret (bytes, c)).
  { unfold tcp_read_headers. by rewrite Eb, Ep, Z.ltb_irrefl. }
  unfold tcp_read in Eh. rewrite Eb in Eh. cbv zeta in Eh. unfold call_spec.
  replace (zlen b =? TCP_BUF_SIZE) with (TCP_BUF_SIZE - zlen b =? 0) by (destruct (Z.eqb_spec (TCP_BUF_SIZE - zlen b) 0), (Z.eqb_spec (zlen b) TCP_BUF_SIZE); lia).
  destruct (Z.eqb_spec (TCP_BUF_SIZE - zlen b) 0) as [Ez|Nz].
  { cbn [read_loop]. rewrite bool_decide_true, Eh by done. cbn. do 3 eexists. split; reflexivity. }
  destruct (read (TCP_BUF_SIZE - zlen b) (net c)) as [res net'] eqn:Er. destruct res as [x| | |].
  - apply read_some in Er as (Hx & Ea & Hxb); [|lia]. specialize (Hxb Hn).
    set (c2 := set_req (set_buf (b ++ x) (req c)) (set_net net' c)) in *.
    assert (H2 : holds b (b ++ x) c2).
    { split; try done; [by eexists|by cbn; rewrite Hr|by apply Forall_app]. }
    assert (E2 : tcp_read_headers c2 = (c ← parse_rest c2; Ret (0, c))).
    { unfold tcp_read_headers. rewrite (hd_req _ _ _ H2). cbn [parsed buf with_buf set_buf set_parsed].
      rewrite zlen_app, (proj2 (Z.ltb_lt _ _)) by lia. done. }
    rewrite (proj2 (Z.leb_gt _ _)) in Eh by lia.
    assert (E : read_loop recv (S fuel) 0 c = read_loop recv (S fuel) (zlen x) c2).
    { cbn [read_loop]. change (error (req c2)) with (error (req c)). rewrite bool_decide_true by done.
      rewrite Eh, E2, (parse_rest_ok _ _ _ H2). cbn [mbind res_bind]. rewrite (proj2 (Z.eqb_neq (zlen x) (-1))) by lia.
      change (0 =? -1) with false. by rewrite Z.add_0_l, Z.add_0_r. }
    rewrite E. destruct (read_loop_ok recv (S fuel) (zlen x) c2 b (b ++ x) H2) as (resp & c' & E' & Hk).
    { rewrite zlen_app. lia. } { rewrite length_app. unfold fuel, zlen in *. lia. }
    exists resp, (zlen x), c'. split; [done|]. exact Hk.
  - cbn [read_loop]. rewrite bool_decide_true, Eh by done. change (0 <=? 0) with true. cbv iota.
    cbn [mbind res_bind]. change (0 =? -1) with false. cbv iota zeta. cbn [req set_net conn_state]. rewrite Hs, Ec, bool_decide_false, bool_decide_true by done.
    cbn. do 3 eexists. split; [reflexivity|]. done.
  - cbn [read_loop]. rewrite bool_decide_true, Eh by done. cbn. rewrite Ec. do 3 eexists. split; reflexivity.
  - cbn [read_loop]. rewrite bool_decide_true, Eh by done. cbn. do 3 eexists. split; reflexivity.
Qed.

(** *** All calls *)

Definition opened (net : list event) : tcp_connection := Conn init_tcp_req S_CONN_OK net [].

(** The states of a connection that is kept. *)
Inductive reaches (evs : list event) : tcp_connection -> Prop :=
| re_open : reaches evs (opened evs)
| re_call c n c' : reaches evs c -> tcp_read_req recv c = Ret (CONN_RELEASE, n, c') -> reaches evs c'.

(** After the bytes [s] have been read. *)
Record after (evs : list event) (s : bytes) (c : tcp_connection) : Prop := After {
  af_split : arrived evs = s ++ arrived (net c);
  af_frames : frames s = (requests c, true, buf (req c));
  af_given : given_to recv (requests c) = (requests c, true);
  af_holds : holds (buf (req c)) (buf (req c)) c;
  af_size : zlen (buf (req c)) <= TCP_BUF_SIZE
}.

Lemma given_app a b : given_to recv a = (a, true) ->
  given_to recv (a ++ b) = let '(gs, ok) := given_to recv b in (a ++ gs, ok).
Proof.
  revert b. induction a as [|m a IH]; intros b; simpl; [by destruct (given_to recv b)|].
  destruct (recv m); [|done]. destruct (given_to recv a) as [gs ok] eqn:E. intros [= -> ->].
  rewrite IH by done. by destruct (given_to recv b).
Qed.

Lemma given_all ms gs : given_to recv ms = (gs, true) -> gs = ms.
Proof.
  revert gs. induction ms as [|m ms IH]; intros gs; simpl; [by intros [= <-]|]. destruct (recv m); [|done].
  destruct (given_to recv ms) as [gs' ok] eqn:E. intros [= <- ->]. f_equal. by apply IH.
Qed.

Lemma holds_buf b c : holds b b c -> buf (req c) = b.
Proof. intros H. by rewrite (hd_req _ _ _ H). Qed.

Lemma frames_rest_le s : zlen (frames s).2 <= zlen s.
Proof.
  remember (length s) as n eqn:En. revert s En. induction n as [n IH] using lt_wf_ind. intros s ->.
  rewrite frames_eq. cbv zeta. destruct (frame (skip is_blank s)) as [| |k] eqn:E; [simpl; lia..|].
  pose proof (frame_range _ _ E) as Hk. unfold zlen in Hk. pose proof (skip_length is_blank s) as Hs.
  assert (Hl : (length (drop (Z.to_nat k) (skip is_blank s)) < length s)%nat) by (rewrite length_drop; lia).
  pose proof (IH _ Hl _ eq_refl) as H. destruct (frames (drop (Z.to_nat k) (skip is_blank s))) as [[ms ok] rest].
  simpl in *. unfold zlen in *. lia.
Qed.

(** Reading more. *)
Lemma taken_after evs s c x net' resp c' : after evs s c -> arrived (net c) = x ++ arrived net' ->
  zlen (buf (req c)) + zlen x <= TCP_BUF_SIZE ->
  taken recv (buf (req c) ++ x) (set_net net' c) resp c' ->
  (resp = CONN_RELEASE /\ after evs (s ++ x) c') \/
  (resp = CONN_ERROR /\ arrived evs = (s ++ x) ++ arrived (net c') /\
   let '(ms, ok, _) := frames (s ++ x) in exists acc, given_to recv ms = (requests c', acc) /\ acc && ok = false).
Proof.
  intros [As Af Ag Ah Az] Ea Hx Ht. unfold taken in Ht. rewrite (frames_app _ x _ _ Af).
  pose proof (frames_rest_le (buf (req c) ++ x)) as Hle. rewrite zlen_app in Hle.
  destruct (frames (buf (req c) ++ x)) as [[ms ok] rest] eqn:Ef. cbn [snd] in Hle. rewrite (given_app _ ms Ag).
  destruct (given_to recv ms) as [gs acc] eqn:Eg. destruct Ht as (Hq & Hnet & Hres). cbn [requests net set_net] in Hq, Hnet.
  assert (As' : arrived evs = (s ++ x) ++ arrived (net c')) by (rewrite Hnet, <- app_assoc, <- Ea; done).
  destruct (acc && ok) eqn:Eo.
  - left. destruct Hres as [-> Hh]. apply andb_true_iff in Eo as [-> ->]. apply given_all in Eg as Egs. subst gs.
    split; [done|]. pose proof (holds_buf _ _ Hh) as Eb. split; rewrite ?Eb; try done.
    + rewrite (frames_app _ x _ _ Af), Ef, Hq. done.
    + rewrite Hq, (given_app _ ms Ag), Eg. done.
    + lia.
  - right. split; [done|]. split; [done|]. exists acc. by rewrite Hq.
Qed.

Lemma after_open evs : byte_list (arrived evs) -> after evs [] (opened evs).
Proof. intros _. split; try done. split; try done; [by exists []|constructor]. Qed.

Lemma call_after evs s c : byte_list (arrived evs) -> after evs s c ->
  exists resp n c', tcp_read_req recv c = Ret (resp, n, c') /\
  ((resp = CONN_RELEASE /\ exists x, after evs (s ++ x) c') \/
   (resp = CONN_EOF /\ head (net c) = Some Closed) \/
   (resp = CONN_ERROR /\ (head (net c) = Some Broken \/ zlen (buf (req c)) = TCP_BUF_SIZE \/
     exists s', arrived evs = s' ++ arrived (net c') /\
       let '(ms, ok, _) := frames s' in exists acc, given_to recv ms = (requests c', acc) /\ acc && ok = false))).
Proof.
  intros Hb Ha. pose proof Ha as [As Af Ag Ah Az].
  assert (Hn : byte_list (arrived (net c))) by (rewrite As in Hb; by apply Forall_app in Hb as [_ ?]).
  destruct (call_ok _ c Ah Az Hn) as (resp & n & c' & E & Hc). exists resp, n, c'. split; [done|].
  unfold call_spec in Hc. destruct (Z.eqb_spec (zlen (buf (req c))) TCP_BUF_SIZE) as [Ez|Nz]; [right; right; auto|].
  destruct (read (TCP_BUF_SIZE - zlen (buf (req c))) (net c)) as [[x| | |] net'] eqn:Er.
  - apply read_some in Er as (Hx & Ea & _); [|lia].
    destruct (taken_after evs s c x net' resp c' Ha Ea) as [[-> H]|(-> & H1 & H2)]; [lia|done|left; eauto|].
    right. right. split; [done|]. right. right. eauto.
  - left. destruct Hc as [-> ->]. apply read_again in Er. split; [done|]. exists []. rewrite app_nil_r.
    split; try done; [by rewrite As, <- Er|]. destruct Ah. by split.
  - right. left. split; [done|]. unfold read in Er. destruct (net c) as [|[y| | |] l]; try done.
    destruct (_ =? _); [done|]. by destruct (_ <=? _).
  - right. right. split; [done|]. left. unfold read in Er. destruct (net c) as [|[y| | |] l]; try done.
    destruct (_ =? _); [done|]. by destruct (_ <=? _).
Qed.

Lemma reaches_after evs c : byte_list (arrived evs) -> reaches evs c -> exists s, after evs s c.
Proof.
  intros Hb H. induction H as [|c n c' _ (s & IH) E]; [exists []; by apply after_open|].
  destruct (call_after evs s c Hb IH) as (resp & n' & c2 & E2 & Hc). rewrite E in E2. injection E2 as <- <- <-.
  destruct Hc as [[_ [x H]]|[[? _]|[? _]]]; [eauto|done..].
Qed.

(** C25: whatever pieces a stream comes in, after any number of calls the requests handed
    on are exactly those the reference finds in the bytes read so far, and the buffer holds
    the rest.  Each call returns; it gives the connection up only when the stream has
    ended or failed, when the buffer is full without a complete request in it, when the
    reference finds a request without a length, or when [receive_msg] refused one. *)
Theorem stream_framed evs c : byte_list (arrived evs) -> reaches evs c ->
  (exists s, arrived evs = s ++ arrived (net c) /\ frames s = (requests c, true, buf (req c))) /\
  exists resp n c', tcp_read_req recv c = Ret (resp, n, c') /\
  (resp = CONN_RELEASE \/
   (resp = CONN_EOF /\ head (net c) = Some Closed) \/
   (resp = CONN_ERROR /\ (head (net c) = Some Broken \/ zlen (buf (req c)) = TCP_BUF_SIZE \/
     exists s', arrived evs = s' ++ arrived (net c') /\
       let '(ms, ok, _) := frames s' in exists acc, given_to recv ms = (requests c', acc) /\ acc && ok = false))).
Proof.
  intros Hb H. destruct (reaches_after evs c Hb H) as [s Ha]. split; [exists s; by destruct Ha|].
  destruct (call_after evs s c Hb Ha) as (resp & n & c' & E & Hc). exists resp, n, c'. split; [done|].
  destruct Hc as [[-> _]|Hc]; [by left|by right].
Qed.

(** ** Delivery *)

Definition CRLF : bytes := [13; 10].
Definition CLEN : bytes := Eval vm_compute in B "Content-Length: ".
Definition lines_text (ls : list bytes) : bytes := flat_map (fun l => l ++ CRLF) ls.

(** A request with the length of its body in one of its headers. *)
Definition request_text (pre post : list bytes) (body : bytes) : bytes :=
  lines_text (pre ++ [CLEN ++ int2str (zlen body)] ++ post) ++ CRLF ++ body.

Definition is_line (l : bytes) : Prop := no_lf l /\ l <> [].

(** No line in front of that header gives a length, and the buffer is large enough. *)
Inductive sip_request : bytes -> Prop :=
| sip_request_intro first c pre post body :
    is_blank c = false -> Forall is_line ((c :: first) :: pre ++ post) ->
    Forall (fun l => clen_of (l ++ [13]) = None) ((c :: first) :: pre) ->
    zlen (request_text ((c :: first) :: pre) post body) <= TCP_BUF_SIZE ->
    sip_request (request_text ((c :: first) :: pre) post body).

Lemma number_digits ds n t : forallb is_digit ds = true ->
  number (u32 n) (ds ++ 13 :: t) = Some (u32 (fold_left dec_step ds n)).
Proof.
  revert n. induction ds as [|d ds IH]; intros n Hd; simpl in *; [done|].
  apply andb_true_iff in Hd as [-> Hd]. rewrite <- IH by done. f_equal.
  unfold u32, dec_step. rewrite <- Zplus_mod_idemp_l, Zmult_mod_idemp_l, Zplus_mod_idemp_l. done.
Qed.

Lemma clen_line n t : 0 <= n < 2 ^ 32 -> clen_of (CLEN ++ int2str n ++ 13 :: t) = Some n.
Proof.
  intros Hn. destruct (int2str_spec n) as (Hd & Hv & Hne & _); [lia|].
  destruct (int2str n) as [|d ds] eqn:E; [done|]. simpl in Hd. apply andb_true_iff in Hd as [Hd Hds].
  change (clen_of (CLEN ++ (d :: ds) ++ 13 :: t)) with (first_number (d :: ds ++ 13 :: t)).
  assert (Hw : is_ws d = false) by (unfold is_digit in Hd; unfold is_ws; lia).
  unfold first_number. cbn [skip]. rewrite Hw, Hd.
  assert (Ed : d - 48 = u32 (d - 48)) by (unfold is_digit in Hd; unfold u32; rewrite Z.mod_small; lia).
  rewrite Ed, number_digits by done. f_equal. unfold dec_value in Hv. simpl in Hv.
  replace (dec_step 0 d) with (d - 48) in Hv by (unfold dec_step; lia). rewrite Hv. apply Z.mod_small. lia.
Qed.

Lemma headers_lines ls b : Forall is_line ls ->
  headers [] (lines_text ls ++ CRLF ++ b) = Some ((fun l => l ++ [13]) <$> ls, b).
Proof.
  induction 1 as [|x ls [Hx Hn] _ IH]; [done|]. unfold lines_text, CRLF in *. cbn [flat_map].
  replace (((x ++ [13; 10]) ++ flat_map (fun l => l ++ [13; 10]) ls) ++ [13; 10] ++ b)
    with ((x ++ [13]) ++ 10 :: (flat_map (fun l => l ++ [13; 10]) ls ++ [13; 10] ++ b)) by (by rewrite <- !app_assoc).
  rewrite headers_line by (intros [?|?]%in_app_or; [done|by destruct H as [?|[]]]).
  change ([] ++ x ++ [13]) with (x ++ [13]).
  assert (Ee : empty_line (x ++ [13]) = false).
  { apply orb_false_iff. split; apply bool_decide_false; [by destruct x|]. destruct x as [|y x]; [done|]. destruct x; done. }
  by rewrite Ee, IH.
Qed.

Lemma first_clen_skip pre n x ls : Forall (fun l => clen_of (l ++ [13]) = None) pre -> clen_of (x ++ [13]) = Some n ->
  first_clen ((fun l => l ++ [13]) <$> (pre ++ [x] ++ ls)) = Some n.
Proof.
  intros H Hx. induction H as [|y pre Hy _ IH]; cbn [app fmap list_fmap]; rewrite first_clen_cons; [by rewrite Hx|].
  by rewrite Hy.
Qed.

Lemma request_frame m : sip_request m -> frame m = Frame (zlen m) /\ 0 < zlen m <= TCP_BUF_SIZE
  /\ match m with [] => False | c :: _ => is_blank c = false end.
Proof.
  intros [first c pre post body Hc Hl Hn Hz].
  assert (Hb : 0 <= zlen body < 2 ^ 32).
  { unfold request_text in Hz. rewrite !zlen_app in Hz. pose proof (zlen_nonneg body).
    match type of Hz with zlen ?l + (zlen ?k + _) <= _ => pose proof (zlen_nonneg l); pose proof (zlen_nonneg k) end.
    unfold TCP_BUF_SIZE in Hz. lia. }
  assert (Hd : forallb is_digit (int2str (zlen body)) = true) by (apply int2str_spec; lia).
  assert (Hcl : is_line (CLEN ++ int2str (zlen body))).
  { split; [|done]. intros [H|H]%in_app_or; [vm_compute in H; intuition discriminate|].
    rewrite forallb_forall in Hd. specialize (Hd _ H). done. }
  split.
  - unfold frame. unfold request_text at 1. rewrite headers_lines.
    2: { apply Forall_cons in Hl as [H1 H2]. apply Forall_app in H2 as [H2 H3]. constructor; [done|].
         apply Forall_app. split; [done|]. by constructor. }
    rewrite (first_clen_skip ((c :: first) :: pre) (zlen body) _ post Hn).
    + rewrite Z.leb_refl. f_equal. lia.
    + rewrite <- app_assoc. apply (clen_line _ []). lia.
  - split; [|done]. split; [|done]. unfold request_text. simpl. rewrite zlen_cons.
    match goal with |- 0 < 1 + zlen ?l => pose proof (zlen_nonneg l) end. lia.
Qed.

(** A part of a request is not one. *)
Lemma frame_part a x : frame (a ++ x) = Frame (zlen (a ++ x)) -> x <> [] -> frame a = More.
Proof.
  intros Hf Hx. unfold frame in *. destruct (headers [] a) as [[ls b]|] eqn:E; [|done].
  rewrite (headers_app _ _ _ _ x E) in Hf. destruct (first_clen ls) as [n|]; [|done].
  destruct (Z.leb_spec n (zlen (b ++ x))); [|done]. injection Hf as Hf.
  destruct (Z.leb_spec n (zlen b)); [|done]. rewrite !zlen_app in *.
  destruct x as [|c x]; [done|]. pose proof (zlen_cons c x). pose proof (zlen_nonneg x). lia.
Qed.

Lemma skip_none f c l : f c = false -> skip f (c :: l) = c :: l.
Proof. simpl. by intros ->. Qed.

Lemma frames_whole m s : sip_request m ->
  frames (m ++ s) = let '(ms, ok, rest) := frames s in (m :: ms, ok, rest).
Proof.
  intros Hm. destruct (request_frame m Hm) as (Hf & Hz & Hc). rewrite frames_eq. cbv zeta.
  assert (E : skip is_blank (m ++ s) = m ++ s) by (destruct m; [done|]; by apply skip_none).
  rewrite E, (frame_app _ s _ Hf). assert (El : Z.to_nat (zlen m) = length m) by (unfold zlen; lia).
  by rewrite El, drop_app_length, take_app_length.
Qed.

Lemma frames_part a x : sip_request (a ++ x) -> x <> [] -> frames a = ([], true, a).
Proof.
  intros Hm Hx. destruct (request_frame _ Hm) as (Hf & _ & Hc). destruct a as [|c a]; [done|].
  rewrite frames_eq. cbv zeta. rewrite skip_none by done. by rewrite (frame_part _ _ Hf Hx).
Qed.

(** What the reference finds in the first bytes of a sequence of requests. *)
Lemma frames_requests ms : Forall sip_request ms -> forall s x, concat ms = s ++ x ->
  exists ms1 ms2 b, ms = ms1 ++ ms2 /\ frames s = (ms1, true, b) /\ concat ms2 = b ++ x /\ zlen b < TCP_BUF_SIZE
    /\ (x = [] -> ms2 = [] /\ b = []).
Proof.
  induction 1 as [|m ms Hm _ IH]; intros s x E.
  { destruct s; [|done]. exists [], [], []. done. }
  assert (Hwhole : forall k, concat ms = k ++ x -> s = m ++ k -> exists ms1 ms2 b, m :: ms = ms1 ++ ms2
    /\ frames s = (ms1, true, b) /\ concat ms2 = b ++ x /\ zlen b < TCP_BUF_SIZE /\ (x = [] -> ms2 = [] /\ b = [])).
  { intros k Ek ->. destruct (IH k x Ek) as (ms1 & ms2 & b & -> & Ef & Hr). exists (m :: ms1), ms2, b.
    rewrite frames_whole, Ef by done. done. }
  simpl in E. apply app_eq_inv in E as [(k & -> & ->)|(k & -> & E)]; [|by apply (Hwhole k)].
  destruct (decide (k = [])) as [-> |Hk].
  { rewrite app_nil_r in *. simpl. destruct (IH [] (concat ms) eq_refl) as (ms1 & ms2 & b & -> & Ef & Hr).
    exists (s :: ms1), ms2, b. pose proof (frames_whole s [] Hm) as Ew. rewrite app_nil_r, Ef in Ew. by rewrite Ew. }
  exists [], ((s ++ k) :: ms), s. split; [done|]. split; [by apply (frames_part s k)|].
  split; [simpl; by rewrite app_assoc|]. destruct (request_frame _ Hm) as (_ & Hz & _). rewrite zlen_app in Hz.
  destruct k as [|y k]; [done|]. pose proof (zlen_cons y k). pose proof (zlen_nonneg k). split; [lia|done].
Qed.

(** *** Reading until there is nothing left *)

Definition is_arrived (x : event) : bool := match x with Arrived _ => true | _ => false end.

Definition left_over (net : list event) : nat := (length (arrived net) + length net)%nat.

Lemma read_less n net res net' : forallb is_arrived net = true -> net <> [] -> 0 < n -> read n net = (res, net') ->
  (left_over net' < left_over net)%nat /\ forallb is_arrived net' = true.
Proof.
  intros Ha Hn H0 E. destruct net as [|[y| | |] net]; try done. simpl in Ha. unfold read in E. unfold left_over, arrived.
  destruct (zlen y =? 0); [injection E as <- <-; simpl; split; [rewrite length_app; lia|done]|].
  destruct (Z.leb_spec (zlen y) n).
  - injection E as <- <-. simpl. split; [rewrite length_app; lia|done].
  - injection E as <- <-. simpl. split; [|done]. rewrite !length_app, length_drop. unfold zlen in *. lia.
Qed.

Lemma call_less evs s c n c' : byte_list (arrived evs) -> after evs s c -> zlen (buf (req c)) < TCP_BUF_SIZE ->
  forallb is_arrived (net c) = true -> net c <> [] -> tcp_read_req recv c = Ret (CONN_RELEASE, n, c') ->
  (left_over (net c') < left_over (net c))%nat /\ forallb is_arrived (net c') = true.
Proof.
  intros Hb [As Af Ag Ah Az] Hz Ha Hn E.
  assert (Hbn : byte_list (arrived (net c))) by (rewrite As in Hb; by apply Forall_app in Hb as [_ ?]).
  destruct (call_ok _ c Ah Az Hbn) as (resp & n' & c2 & E2 & Hc). rewrite E in E2. injection E2 as <- <- <-.
  unfold call_spec in Hc. rewrite (proj2 (Z.eqb_neq _ _)) in Hc by lia.
  destruct (read (TCP_BUF_SIZE - zlen (buf (req c))) (net c)) as [res net'] eqn:Er.
  assert (Enet : net c' = net').
  { destruct res; [|by destruct Hc as [_ ->]|done..]. unfold taken in Hc.
    destruct (frames (buf (req c) ++ b)) as [[ms ok] rest]. destruct (given_to recv ms). by destruct Hc as (_ & ? & _). }
  rewrite Enet. by apply (read_less (TCP_BUF_SIZE - zlen (buf (req c))) _ res); [..|lia|].
Qed.

Lemma given_forall ms : Forall (fun m => recv m = true) ms -> given_to recv ms = (ms, true).
Proof. induction 1 as [|m ms Hm _ IH]; [done|]. simpl. by rewrite Hm, IH. Qed.

Lemma drain ms evs k : Forall sip_request ms -> Forall (fun m => recv m = true) ms -> arrived evs = concat ms ->
  byte_list (concat ms) -> forall c s, (left_over (net c) < k)%nat -> reaches evs c -> after evs s c -> forallb is_arrived (net c) = true ->
  exists c', reaches evs c' /\ net c' = [] /\ requests c' = ms /\ buf (req c') = [].
Proof.
  intros Hm Hrecv Ea Hb. induction k as [|k IH]; intros c s Hk Hr Haf Har; [lia|].
  destruct (frames_requests ms Hm s (arrived (net c))) as (ms1 & ms2 & b & Ems & Ef & Er & Hz & Hend).
  { rewrite <- Ea. apply (af_split _ _ _ Haf). }
  rewrite (af_frames _ _ _ Haf) in Ef. injection Ef as Eq Eb.
  destruct (decide (net c = [])) as [En|Hn].
  { exists c. split; [done|]. split; [done|]. rewrite En in Hend. destruct (Hend eq_refl) as [-> ->].
    by rewrite Eq, Ems, app_nil_r. }
  assert (Hbb : byte_list (arrived evs)) by (by rewrite Ea).
  destruct (call_after evs s c Hbb Haf) as (resp & n & c' & E & Hc).
  destruct Hc as [[-> [x Ha']]|[[-> Hh]|[-> Hh]]].
  - destruct (call_less evs s c n c' Hbb Haf) as [Hl Ha2]; [by rewrite Eb|done|done|done|].
    apply (IH c' (s ++ x)); [lia|by apply (re_call evs c n)|done|done].
  - destruct (net c) as [|[]]; done.
  - exfalso. destruct Hh as [Hh|[Hh|(s' & Es & Hg)]]; [by destruct (net c) as [|[]]|rewrite Eb in Hh; lia|].
    destruct (frames_requests ms Hm s' (arrived (net c'))) as (ms3 & ms4 & b' & Ems' & Ef' & _); [by rewrite <- Ea|].
    rewrite Ef' in Hg. destruct Hg as (acc & Hg & Hacc). rewrite given_forall in Hg; [injection Hg as _ <-; done|].
    rewrite Ems' in Hrecv. by apply Forall_app in Hrecv as [? _].
Qed.

(** C26: If a client sends requests, each with a Content-Length header as the proxy itself
    would print it (that name, one space, the length of the body in decimal) and no earlier
    header that gives a length, each fitting the buffer of 65535 bytes, the stream arrives in
    any pieces without an error or an end, and [receive_msg] accepts each request, then the
    calls that read it hand over exactly these requests, in order, and nothing is left. *)
Theorem stream_delivered ms evs : Forall sip_request ms -> byte_list (concat ms) ->
  forallb is_arrived evs = true -> arrived evs = concat ms -> Forall (fun m => recv m = true) ms ->
  exists c, reaches evs c /\ net c = [] /\ requests c = ms /\ buf (req c) = [].
Proof.
  intros Hm Hb Ha Ea Hr. apply (drain ms evs (S (left_over evs)) Hm Hr Ea Hb (opened evs) []).
  - apply Nat.lt_succ_diag_r.
  - constructor.
  - apply after_open. by rewrite Ea.
  - done.
Qed.
End Calls.

(** ** Examples *)

Definition ex_invite : bytes := request_text [B "INVITE sip:b@c SIP/2.0"; B "Via: x"] [B "To: y"] (B "abc").
Definition ex_bye : bytes := request_text [B "BYE sip:b@c SIP/2.0"] [] [].

Lemma ex_requests : Forall sip_request [ex_invite; ex_bye].
Proof.
  constructor; [|constructor; [|constructor]].
  - apply (sip_request_intro (B "NVITE sip:b@c SIP/2.0") (ch "I") [B "Via: x"] [B "To: y"] (B "abc")); [done| | |by vm_compute].
    all: repeat constructor; vm_compute; intuition discriminate.
  - apply (sip_request_intro (B "YE sip:b@c SIP/2.0") (ch "B") [] [] []); [done| | |by vm_compute].
    all: repeat constructor; vm_compute; intuition discriminate.
Qed.

(** The two requests in pieces of which one holds the end of the first and the start of the
    second. *)
Definition ex_pieces : list event :=
  [Arrived (take 30 ex_invite); Arrived []; Arrived (drop 30 ex_invite ++ take 7 ex_bye); Arrived (drop 7 ex_bye)].

Lemma ex_bytes : byte_list (concat [ex_invite; ex_bye]).
Proof. unfold byte_list. apply List.Forall_forall. apply forallb_forall. by vm_compute. Qed.

Lemma stream_delivered_witness : exists c, reaches (fun _ => true) ex_pieces c /\ net c = []
  /\ requests c = [ex_invite; ex_bye] /\ buf (req c) = [].
Proof.
  apply (stream_delivered (fun _ => true) [ex_invite; ex_bye] ex_pieces ex_requests ex_bytes); [by vm_compute..|].
  by repeat constructor.
Defined.

Lemma stream_framed_witness : exists resp n c', tcp_read_req (fun _ => true) (opened ex_pieces) = Ret (resp, n, c').
Proof.
  destruct (stream_framed (fun _ => true) ex_pieces (opened ex_pieces)) as (_ & resp & n & c' & E & _).
  - assert (E : arrived ex_pieces = concat [ex_invite; ex_bye]) by (vm_compute; reflexivity).
    rewrite E. exact ex_bytes.
  - constructor.
  - exists resp, n, c'. exact E.
Defined.
End TcpSpec.
