(* ===== verification/TmTimer.v ===== *)
(** * The timer lists of transactions ([src/modules/tm/timer.c], [timer.h])

    Every transaction has timer links for the final response, the retransmissions, the wait
    and the deletion.  They stand in eight lists, doubly linked between two sentinels and
    ordered by expiry.  To insert fast, the links of one expiry time form a group: the
    first and the last of it point to each other with [ld_tl], those between have none, so
    the search for the place of a new link goes from group to group.

    The links live in a heap by address; 0 is the null pointer, timers have positive
    addresses and sentinels negative ones.  The lists of final responses share a lock, as do
    those of retransmissions, and a timer only goes from a list to one with the same lock,
    which a process holds during each operation; so an operation is one step. *)

From Stdlib Require Import ZArith Lia List String Ascii Bool.
From stdpp Require Import base tactics option list gmap sets.
From S2P Require Import Prelude.

Module TmTimer.

Definition FR_TIMER_LIST : Z := 0.
Definition FR_INV_TIMER_LIST : Z := 1.
Definition WT_TIMER_LIST : Z := 2.
Definition DELETE_LIST : Z := 3.
Definition RT_T1_TO_1 : Z := 4.
Definition RT_T1_TO_2 : Z := 5.
Definition RT_T1_TO_3 : Z := 6.
Definition RT_T2 : Z := 7.
Definition NR_OF_TIMER_LISTS : Z := 8.
Definition MIN_TIMER_VALUE : Z := 2.

(** [timer_list] is the list a link is in: its number and one, null, or the value that says
    that the timer process has taken the link out. *)
Record timer_link : Type := Tl {
  next_tl : Z;
  prev_tl : Z;
  ld_tl : Z;
  time_out : Z;
  timer_list : Z;
  deleted : bool
}.

Definition NULL : Z := 0.
Definition DETACHED_LIST : Z := -1.
Definition list_of (id : Z) : Z := id + 1.

(** [&timer_list->first_tl] and [&timer_list->last_tl] *)
Definition FIRST (id : Z) : Z := -2 * id - 1.
Definition LAST (id : Z) : Z := -2 * id - 2.

Abbreviation heap := (gmap Z timer_link).

Definition with_next v c := Tl v (prev_tl c) (ld_tl c) (time_out c) (timer_list c) (deleted c).
Definition with_prev v c := Tl (next_tl c) v (ld_tl c) (time_out c) (timer_list c) (deleted c).
Definition with_ld v c := Tl (next_tl c) (prev_tl c) v (time_out c) (timer_list c) (deleted c).
Definition with_list v c := Tl (next_tl c) (prev_tl c) (ld_tl c) (time_out c) v (deleted c).
Definition with_deleted v c := Tl (next_tl c) (prev_tl c) (ld_tl c) (time_out c) (timer_list c) v.
Definition with_time t l c := Tl (next_tl c) (prev_tl c) (ld_tl c) t l false.
Definition unlinked c := Tl NULL NULL NULL (time_out c) NULL (deleted c).

Definition load (p : Z) (h : heap) : res timer_link :=
  if p =? NULL then Fault NullDeref
  else match h !! p with Some c => Ret c | None => Fault UseAfterFree end.

Definition store (f : timer_link -> timer_link) (p : Z) (h : heap) : res heap :=
  _ ← load p h; Ret (alter f p h).

(** One more than the cells there are. *)
Definition fuel (h : heap) : nat := S (size h).

(** A link of a new transaction, of which all bytes are zero. *)
Definition new_link (p : Z) (h : heap) : heap := <[p := Tl NULL NULL NULL 0 NULL false]> h.

(** ** Lists *)

Definition reset_timer_list (id : Z) (h : heap) : heap :=
  <[FIRST id := Tl (LAST id) NULL NULL 0 NULL false]>
  (<[LAST id := Tl NULL (FIRST id) NULL (2 ^ 64 - 1) NULL false]> h).

Definition is_in_timer_list2 (c : timer_link) : bool :=
  negb (timer_list c =? NULL) && negb (timer_list c =? DETACHED_LIST).

Definition remove_timer_unsafe (tl : Z) (h : heap) : res heap :=
  c ← load tl h;
  if is_in_timer_list2 c then
    h ← (if negb (ld_tl c =? NULL) && negb (ld_tl c =? tl) then
           p ← load (prev_tl c) h;
           if time_out c =? time_out p then
             h ← store (with_ld (ld_tl c)) (prev_tl c) h;
             store (with_ld (prev_tl c)) (ld_tl c) h
           else
             h ← store (with_ld (ld_tl c)) (next_tl c) h;
             store (with_ld (next_tl c)) (ld_tl c) h
         else Ret h);
    h ← store (with_next (next_tl c)) (prev_tl c) h;
    h ← store (with_prev (prev_tl c)) (next_tl c) h;
    store unlinked tl h
  else Ret h.

(** From the end, a group at a time, to a link that expires no later. *)
Fixpoint search_place (n : nat) (h : heap) (id ptr t : Z) : res Z :=
  match n with
  | O => Fault OutOfFuel
  | S n =>
      if ptr =? FIRST id then Ret ptr
      else
        c ← load ptr h;
        if time_out c <=? t then Ret ptr
        else
          d ← load (ld_tl c) h;
          search_place n h id (prev_tl d) t
  end.

Definition insert_timer_unsafe (id tl t : Z) (h : heap) : res heap :=
  h ← store (with_time t (list_of id)) tl h;
  l ← load (LAST id) h;
  ptr ← search_place (fuel h) h id (prev_tl l) t;
  h ← store (with_prev ptr) tl h;
  p ← load ptr h;
  h ← store (with_next (next_tl p)) tl h;
  h ← store (with_next tl) ptr h;
  c ← load tl h;
  h ← store (with_prev tl) (next_tl c) h;
  p ← load ptr h;
  if t =? time_out p then
    h ← store (with_ld (ld_tl p)) tl h;
    h ← store (with_ld NULL) ptr h;
    c ← load tl h;
    store (with_ld tl) (ld_tl c) h
  else store (with_ld tl) tl h.

(** The groups that have expired: the first link behind them. *)
Fixpoint split_loop (n : nat) (h : heap) (id tl time : Z) : res Z :=
  match n with
  | O => Fault OutOfFuel
  | S n =>
      if tl =? LAST id then Ret tl
      else
        c ← load tl h;
        if time_out c <=? time then
          d ← load (ld_tl c) h;
          split_loop n h id (next_tl d) time
        else Ret tl
  end.

(** The links of a detached list are marked. *)
Fixpoint mark_loop (n : nat) (tl : Z) (h : heap) : res heap :=
  match n with
  | O => Fault OutOfFuel
  | S n =>
      if tl =? NULL then Ret h
      else
        h ← store (with_list DETACHED_LIST) tl h;
        c ← load tl h;
        mark_loop n (next_tl c) h
  end.

Definition check_and_split_time_list (id time : Z) (h : heap) : res (Z * heap) :=
  f ← load (FIRST id) h;
  n ← load (next_tl f) h;
  if (next_tl f =? LAST id) || (time_out n >? time) then Ret (NULL, h)
  else
    tl ← split_loop (fuel h) h id (next_tl f) time;
    c ← load tl h;
    if prev_tl c =? FIRST id then Ret (NULL, h)
    else
      let ret := next_tl f in
      h ← store (with_next NULL) (prev_tl c) h;
      h ← store (with_next tl) (FIRST id) h;
      h ← store (with_prev (FIRST id)) tl h;
      h ← mark_loop (fuel h) ret h;
      Ret (ret, h).

(** ** Timers *)

Definition reset_timer (tl : Z) (h : heap) : res heap := store (with_deleted true) tl h.

Section Timers.

(** [timer_id2timeout], and [get_ticks] or [get_uticks] according to the list. *)
Context (timer_id2timeout : Z -> Z) (ticks : Z -> Z).

Definition expiry (id : Z) (ext_timeout : option Z) : Z :=
  u64 (match ext_timeout with Some t => t | None => timer_id2timeout id end + ticks id).

Definition set_timer (tl id : Z) (ext_timeout : option Z) (h : heap) : res heap :=
  if id >=? NR_OF_TIMER_LISTS then Ret h
  else
    c ← load tl h;
    if timer_list c =? DETACHED_LIST then Ret h
    else
      h ← remove_timer_unsafe tl h;
      insert_timer_unsafe id tl (expiry id ext_timeout) h.

Definition set_1timer (tl id : Z) (ext_timeout : option Z) (h : heap) : res heap :=
  if id >=? NR_OF_TIMER_LISTS then Ret h
  else
    c ← load tl h;
    if time_out c =? 0 then insert_timer_unsafe id tl (expiry id ext_timeout) h
    else Ret h.

(** A handler sets the timer it is called for again. *)
Definition rearm (tl id : Z) (h : heap) : res heap :=
  h ← store (with_list NULL) tl h;
  set_timer tl id None h.

(** The next retransmission is on the list of the next interval. *)
Definition next_list (id : Z) : Z := if id <? RT_T2 then id + 1 else RT_T2.

Definition retransmit_again (retr_tl retr_list : Z) (h : heap) : res (Z * heap) :=
  h ← rearm retr_tl (next_list retr_list) h;
  Ret (next_list retr_list, h).

(** *** Deleting a transaction *)

(** The addresses of its timer links: those of the reply, and for each branch those of the
    request and of the local CANCEL. *)
Record cell_timers : Type := Ct {
  uas_fr : Z; uas_retr : Z;
  uac_fr : list (Z * Z); uac_retr : list (Z * Z);
  wait_tl : Z; dele_tl : Z
}.

Definition in_list (h : heap) (p : Z) : res bool := c ← load p h; Ret (is_in_timer_list2 c).

Fixpoint any_in_list (h : heap) (l : list Z) : res bool :=
  match l with
  | [] => Ret false
  | p :: l => b ← in_list h p; if (b : bool) then Ret true else any_in_list h l
  end.

Fixpoint remove_all (l : list Z) (h : heap) : res heap :=
  match l with
  | [] => Ret h
  | p :: l => h ← remove_timer_unsafe p h; remove_all l h
  end.

Definition pairs (l : list (Z * Z)) : list Z := flat_map (fun x => [x.1; x.2]) l.

Definition unlink_timers (t : cell_timers) (h : heap) : res heap :=
  remove_fr ← any_in_list h (uas_fr t :: pairs (uac_fr t));
  remove_retr ← any_in_list h (uas_retr t :: pairs (uac_retr t));
  h ← (if (remove_retr : bool) then remove_all (uas_retr t :: pairs (uac_retr t)) h else Ret h);
  if (remove_fr : bool) then remove_all (uas_fr t :: pairs (uac_fr t)) h else Ret h.

Definition links (t : cell_timers) : list Z :=
  [uas_fr t; uas_retr t] ++ pairs (uac_fr t) ++ pairs (uac_retr t) ++ [wait_tl t; dele_tl t].

Definition free_cell (t : cell_timers) (h : heap) : heap := foldr delete h (links t).

Definition delete_cell (t : cell_timers) (reffed : bool) (h : heap) : res heap :=
  h ← unlink_timers t h;
  if reffed then rearm (dele_tl t) DELETE_LIST h
  else Ret (free_cell t h).

End Timers.

(** [run_handler_for_each]: one link of a detached list, the handler to run if it has not
    been reset, and the rest. *)
Definition next_detached (tl : Z) (h : heap) : res (bool * Z * heap) :=
  c ← load tl h;
  h ← store (fun c => with_prev NULL (with_next NULL c)) tl h;
  Ret (negb (deleted c), next_tl c, h).

(** ** Start *)

(** The intervals of the retransmission lists, from T1 and T2 in milliseconds. *)
Definition tm_init_timers (t : Z -> Z) : option ((Z -> Z) * heap) :=
  if (t FR_TIMER_LIST <? MIN_TIMER_VALUE) || (t FR_INV_TIMER_LIST <? MIN_TIMER_VALUE)
     || (t WT_TIMER_LIST <? MIN_TIMER_VALUE) || (t DELETE_LIST <? MIN_TIMER_VALUE)
     || (t RT_T2 <=? t RT_T1_TO_1) then None
  else
    let t1 := u32 (t RT_T1_TO_1 * 1000) in
    let t2 := u32 (t RT_T2 * 1000) in
    let to := fun id =>
      if id =? RT_T1_TO_1 then t1
      else if id =? RT_T2 then t2
      else if id =? RT_T1_TO_2 then (if u32 (Z.shiftl t1 1) <? t2 then u32 (Z.shiftl t1 1) else t2)
      else if id =? RT_T1_TO_3 then (if u32 (Z.shiftl t1 2) <? t2 then u32 (Z.shiftl t1 2) else t2)
      else t id in
    Some (to, foldr reset_timer_list ∅ [0; 1; 2; 3; 4; 5; 6; 7]).

End TmTimer.
