(* ===== verification/TmTimerSpec.v ===== *)
(** * The timer lists against ordered lists

    A list with its groups is related to the list of its timers in order of expiry; each
    operation on the pointers is the plain operation on that list, and in all sequences of
    operations the structure stays whole and every operation returns. *)

From Stdlib Require Import ZArith Lia List String Ascii Bool Sorted.
From stdpp Require Import base tactics option list gmap sets.
From S2P Require Import Prelude TmTimer.

Module TmTimerSpec.
Import TmTimer.

(** ** Fields *)

Definition get (h : heap) (p : Z) : timer_link := default (Tl 0 0 0 0 0 false) (h !! p).

Definition nx (h : heap) (p : Z) : Z := next_tl (get h p).
Definition pv (h : heap) (p : Z) : Z := prev_tl (get h p).
Definition ld (h : heap) (p : Z) : Z := ld_tl (get h p).
Definition tm (h : heap) (p : Z) : Z := time_out (get h p).
Definition ls (h : heap) (p : Z) : Z := timer_list (get h p).
Definition dl (h : heap) (p : Z) : bool := deleted (get h p).

Definition alloc (h : heap) (p : Z) : Prop := p <> NULL /\ is_Some (h !! p).

Lemma alloc_alter f p h q : alloc (alter f p h) q <-> alloc h q.
Proof. unfold alloc. rewrite lookup_alter. case_decide; [subst; by rewrite fmap_is_Some|done]. Qed.

Lemma tl_store f p h : alloc h p -> store f p h = Ret (alter f p h).
Proof. intros [Hp [c Hc]]. unfold store, load. by rewrite (proj2 (Z.eqb_neq _ _)), Hc. Qed.

Lemma tl_load p h : alloc h p -> load p h = Ret (get h p).
Proof. intros [Hp [c Hc]]. unfold load, get. by rewrite (proj2 (Z.eqb_neq _ _)), Hc. Qed.

Lemma get_alter f p h q : alloc h p -> get (alter f p h) q = if decide (q = p) then f (get h q) else get h q.
Proof. intros [_ [c Hc]]. unfold get. rewrite lookup_alter. repeat case_decide; subst; try done. by rewrite Hc. Qed.

(** Stores and loads of links there are; fields after stores. *)
Ltac here := repeat rewrite alloc_alter; try assumption.
Ltac mem := repeat (first [rewrite tl_store by here | rewrite tl_load by here]; cbn [mbind res_bind]).
Ltac cells := repeat rewrite get_alter by here;
  repeat first [rewrite decide_True by done | rewrite decide_False by done]; cbn [next_tl prev_tl ld_tl time_out timer_list deleted with_next with_prev with_ld with_time with_list].
Ltac fields := unfold nx, pv, ld, tm, ls, dl; intros; repeat rewrite get_alter by here;
  repeat case_decide; subst; simpl; try done; try congruence.

(** ** Paths *)

Fixpoint path (n p : Z -> Z) (k : list Z) : Prop :=
  match k with
  | x :: (y :: _) as k' => n x = y /\ p y = x /\ path n p k'
  | _ => True
  end.

Lemma path_app n p k1 x k2 : path n p (k1 ++ x :: k2) <-> path n p (k1 ++ [x]) /\ path n p (x :: k2).
Proof.
  induction k1 as [|y k1 IH]; simpl; [tauto|]. destruct (k1 ++ x :: k2) as [|z m] eqn:E; [by destruct k1|].
  destruct (k1 ++ [x]) as [|z' m'] eqn:E'; [by destruct k1|]. assert (z = z') as ->.
  { destruct k1; simpl in *; congruence. }
  rewrite IH. tauto.
Qed.

Lemma path_pair n p k1 x y k2 : path n p (k1 ++ x :: y :: k2) <->
  path n p (k1 ++ [x]) /\ n x = y /\ p y = x /\ path n p (y :: k2).
Proof. by rewrite path_app. Qed.

(** [n] matters on all but the last, [p] on all but the first. *)
Lemma path_left n p n' p' k x : (forall y, y ∈ k -> n' y = n y) -> (forall y, y ∈ k ++ [x] -> p' y = p y) ->
  path n p (k ++ [x]) -> path n' p' (k ++ [x]).
Proof.
  induction k as [|y k IH]; simpl; [done|]. intros Hn Hp Hk.
  destruct (k ++ [x]) as [|z m] eqn:E; [by destruct k|]. destruct Hk as (H1 & H2 & H3).
  split; [rewrite Hn; [done|left]|]. split; [rewrite Hp; [done|right; left]|].
  apply IH; [intros; apply Hn; by right|intros; apply Hp; by right|done].
Qed.

Lemma path_right n p n' p' x k : (forall y, y ∈ x :: k -> n' y = n y) -> (forall y, y ∈ k -> p' y = p y) ->
  path n p (x :: k) -> path n' p' (x :: k).
Proof.
  revert x. induction k as [|z k IH]; intros x; [done|]. intros Hn Hp (H1 & H2 & H3).
  split; [rewrite Hn; [done|left]|]. split; [rewrite Hp; [done|left]|].
  apply IH; [intros; apply Hn; by right|intros; apply Hp; by right|done].
Qed.

Definition upd (f : Z -> Z) (x v : Z) : Z -> Z := fun z => if decide (z = x) then v else f z.

Ltac parts Hd := repeat match type of Hd with
  | _ /\ _ => let H := fresh "D" in destruct Hd as [H Hd]; try parts H
  | NoDup (_ ++ _) => apply NoDup_app in Hd
  | NoDup (_ :: _) => apply NoDup_cons in Hd end.

Ltac upds := unfold upd in *; intros; repeat case_decide; subst; try done; exfalso; set_solver.

(** A link put between two neighbours, and one taken out. *)
Lemma path_insert n p n' p' k1 x y k2 t : NoDup (k1 ++ x :: t :: y :: k2) -> path n p (k1 ++ x :: y :: k2) ->
  (forall z, n' z = upd (upd n t y) x t z) -> (forall z, p' z = upd (upd p t x) y t z) ->
  path n' p' (k1 ++ x :: t :: y :: k2).
Proof.
  intros Hd Hp Hn' Hp'. apply path_pair in Hp as (P1 & H1 & H2 & P2). parts Hd.
  apply path_pair. split; [|split; [|split; [|split; [|split]]]].
  - revert P1. apply path_left; intros z Hz; rewrite ?Hn', ?Hp'; upds.
  - rewrite Hn'. upds.
  - rewrite Hp'. upds.
  - rewrite Hn'. upds.
  - rewrite Hp'. upds.
  - revert P2. apply path_right; intros z Hz; rewrite ?Hn', ?Hp'; upds.
Qed.

Lemma path_remove n p n' p' k1 x y k2 t : NoDup (k1 ++ x :: t :: y :: k2) -> path n p (k1 ++ x :: t :: y :: k2) ->
  (forall z, n' z = upd (upd n x y) t 0 z) -> (forall z, p' z = upd (upd p y x) t 0 z) ->
  path n' p' (k1 ++ x :: y :: k2).
Proof.
  intros Hd Hp Hn' Hp'. apply path_pair in Hp as (P1 & H1 & H2 & P2). destruct P2 as (H3 & H4 & P2). parts Hd.
  apply path_pair. split_and!; [|by rewrite Hn'; upds|by rewrite Hp'; upds|].
  - revert P1. apply path_left; intros z Hz; rewrite ?Hn', ?Hp'; upds.
  - revert P2. apply path_right; intros z Hz; rewrite ?Hn', ?Hp'; upds.
Qed.

(** ** Groups *)

(** The links of a group: the first and the last point to each other. *)
Inductive ring (d : Z -> Z) : list Z -> Prop :=
| ring_one x : d x = x -> ring d [x]
| ring_more x m y : d x = y -> d y = x -> (forall z, z ∈ m -> d z = 0) -> ring d (x :: m ++ [y]).

Lemma ring_ext d d' g : (forall z, z ∈ g -> d' z = d z) -> ring d g -> ring d' g.
Proof. 
  intros He Hr. revert He. destruct Hr as [x Hx|x m y Hx Hy Hm]; intros He; [apply ring_one|apply ring_more]; try intros z Hz; rewrite He; auto; set_solver.
 Qed.

Lemma ring_ends d g : ring d g -> exists a b, head g = Some a /\ last g = Some b /\ d a = b /\ d b = a.
Proof.
  intros [x Hx|x m y Hx Hy Hm]; [by exists x, x|]. exists x, y. split_and!; try done.
  change (x :: m ++ [y]) with ((x :: m) ++ [y]). apply last_snoc.
Qed.

(** A link behind the last of a group. *)
Lemma ring_push d d' g x t : NoDup (g ++ [t]) -> ring d g -> last g = Some x ->
  (forall z, d' z = upd (upd (upd d t (d x)) x 0) (d x) t z) -> ring d' (g ++ [t]).
Proof.
  intros Hd Hr Hx Hd'. destruct Hr as [a Ha|a m b Ha Hb Hm].
  - injection Hx as <-. apply (ring_more d' a [] t); [| |set_solver]; rewrite Hd', Ha; parts Hd; upds.
  - change (a :: m ++ [b]) with ((a :: m) ++ [b]) in Hx. rewrite last_snoc in Hx. injection Hx as <-.
    change ((a :: m ++ [b]) ++ [t]) with (a :: (m ++ [b]) ++ [t]). parts Hd.
    apply ring_more; [| |intros z Hz]; rewrite Hd', ?Hb; [upds..|]. apply elem_of_app in Hz as [Hz|Hz]; [|upds].
    specialize (Hm z Hz). upds.
Qed.

(** A link taken out of a group: the only one, the first, the last or one between. *)
Inductive taken (d : Z -> Z) (t : Z) : list Z -> list Z -> Prop :=
| take_one : d t = t -> taken d t [] []
| take_first c r : d t ∈ c :: r ->
    (forall d', (forall z, z <> t -> d' z = upd (upd d c (d t)) (d t) c z) -> ring d' (c :: r)) -> taken d t [] (c :: r)
| take_last r c : d t ∈ r ++ [c] ->
    (forall d', (forall z, z <> t -> d' z = upd (upd d c (d t)) (d t) c z) -> ring d' (r ++ [c])) -> taken d t (r ++ [c]) []
| take_mid a g1 g2 : d t = 0 ->
    (forall d', (forall z, z <> t -> d' z = d z) -> ring d' ((a :: g1) ++ g2)) -> taken d t (a :: g1) g2.

Lemma ring_take_first d t m y : NoDup (t :: m ++ [y]) -> d t = y -> d y = t -> (forall z, z ∈ m -> d z = 0) ->
  taken d t [] (m ++ [y]).
Proof.
  intros Hd Ht Hy Hm. destruct m as [|c m]; simpl; parts Hd; apply take_first; rewrite ?Ht; [set_solver| |set_solver|].
  - intros d' Hd'. apply ring_one. rewrite Hd' by set_solver. upds.
  - intros d' Hd'. apply ring_more; [| |intros z Hz]; rewrite Hd' by set_solver; [upds..|]. rewrite <-(Hm z) by set_solver. upds.
Qed.

Lemma ring_take_last d t x m : NoDup (x :: m ++ [t]) -> d x = t -> d t = x -> (forall z, z ∈ m -> d z = 0) ->
  taken d t (x :: m) [].
Proof.
  intros Hd Hx Ht Hm. destruct m as [|c m _] using rev_ind; parts Hd.
  - apply (take_last d t [] x); rewrite ?Ht; simpl; [set_solver|].
    intros d' Hd'. apply ring_one. rewrite Hd' by set_solver. upds.
  - change (x :: m ++ [c]) with ((x :: m) ++ [c]). apply take_last; rewrite ?Ht; [set_solver|].
    intros d' Hd'. apply ring_more; [| |intros z Hz]; rewrite Hd' by set_solver; [upds..|]. rewrite <-(Hm z) by set_solver. upds.
Qed.

Lemma ring_take d g1 t g2 : NoDup (g1 ++ t :: g2) -> ring d (g1 ++ t :: g2) -> taken d t g1 g2.
Proof.
  intros Hd Hr. remember (g1 ++ t :: g2) as g eqn:E. destruct Hr as [x Hx|x m y Hx Hy Hm].
  { destruct g1 as [|? [|]]; [|done..]. injection E as -> <-. by apply take_one. }
  destruct g1 as [|x' g1]; simpl in E; injection E as -> E; [subst g2; by apply ring_take_first|].
  destruct g2 as [|y' g2 _] using rev_ind.
  { apply app_inj_tail in E as [-> ->]. by apply ring_take_last. }
  change (g1 ++ t :: g2 ++ [y']) with (g1 ++ (t :: g2) ++ [y']) in E. rewrite app_assoc in E.
  apply app_inj_tail in E as [-> ->]. rename x' into x, y' into y. parts Hd. apply take_mid; [apply Hm; set_solver|].
  intros d' Hd'. rewrite <-(app_comm_cons g1 (g2 ++ [y]) x), app_assoc.
  apply ring_more; [| |intros z Hz]; rewrite Hd' by set_solver; try done. apply Hm. set_solver.
Qed.

(** ** Lists *)

(** The groups of a list, each with its expiry. *)
Abbreviation groups := (list (Z * list Z)).

Definition addrs (gs : groups) : list Z := concat (map snd gs).

(** Where a list begins, and the last link of it. *)
Definition start_of (id : Z) (gs : groups) : Z := hd (LAST id) (addrs gs).
Definition end_of (id : Z) (gs : groups) : Z := List.last (addrs gs) (FIRST id).

Record whole_list (h : heap) (id : Z) (gs : groups) : Prop := Whole {
  wl_path : path (nx h) (pv h) (FIRST id :: addrs gs ++ [LAST id]);
  wl_nodup : NoDup (FIRST id :: addrs gs ++ [LAST id]);
  wl_cells : forall x, x ∈ addrs gs -> 0 < x /\ ls h x = list_of id;
  wl_alloc : forall x, x ∈ FIRST id :: addrs gs ++ [LAST id] -> alloc h x;
  wl_groups : forall g, g ∈ gs -> 0 < g.1 /\ ring (ld h) g.2 /\ (forall x, x ∈ g.2 -> tm h x = g.1);
  wl_sorted : StronglySorted (fun a b => a.1 < b.1) gs;
  wl_first : tm h (FIRST id) = 0
}.

Lemma addrs_app a b : addrs (a ++ b) = addrs a ++ addrs b.
Proof. unfold addrs. by rewrite map_app, concat_app. Qed.
Lemma addrs_one t g : addrs [(t, g)] = g.
Proof. apply app_nil_r. Qed.
Lemma addrs_cons t g gs : addrs ((t, g) :: gs) = g ++ addrs gs.
Proof. done. Qed.

Lemma addrs_in x gs : x ∈ addrs gs <-> exists g, g ∈ gs /\ x ∈ g.2.
Proof.
  unfold addrs. rewrite list_elem_of_In, in_concat. setoid_rewrite in_map_iff. setoid_rewrite list_elem_of_In. naive_solver.
Qed.

Ltac memb := repeat first [rewrite addrs_app | rewrite addrs_one | rewrite addrs_cons]; rewrite ?elem_of_cons, ?elem_of_app, ?elem_of_cons; tauto.

(** A list cut between two groups. *)
Lemma end_split id gs : exists k, FIRST id :: addrs gs = k ++ [end_of id gs].
Proof.
  unfold end_of. destruct (addrs gs) as [|x k _] using rev_ind; [by exists []|]. exists (FIRST id :: k).
  by rewrite last_last.
Qed.

Lemma start_split id gs : exists k, addrs gs ++ [LAST id] = start_of id gs :: k.
Proof. unfold start_of. destruct (addrs gs) as [|x k]; [by exists []|]. by exists (k ++ [LAST id]). Qed.

Lemma cut_list id a b : exists k1 k2, FIRST id :: addrs (a ++ b) ++ [LAST id] = k1 ++ end_of id a :: start_of id b :: k2
  /\ FIRST id :: addrs a = k1 ++ [end_of id a] /\ addrs b ++ [LAST id] = start_of id b :: k2.
Proof.
  destruct (end_split id a) as [k1 E1], (start_split id b) as [k2 E2]. exists k1, k2. split; [|done].
  by rewrite addrs_app, <-app_assoc, app_comm_cons, E1, E2, <-app_assoc.
Qed.

Definition same_link (h h' : heap) (z : Z) : Prop :=
  nx h' z = nx h z /\ pv h' z = pv h z /\ ld h' z = ld h z /\ tm h' z = tm h z /\ ls h' z = ls h z.

(** A list whose links are the same. *)
Lemma whole_links h h' id gs : (forall z, z ∈ FIRST id :: addrs gs ++ [LAST id] -> same_link h h' z /\ (alloc h z -> alloc h' z)) ->
  whole_list h id gs -> whole_list h' id gs.
Proof.
  intros He [P N C A G S F].
  assert (Hg : forall g x, g ∈ gs -> x ∈ g.2 -> same_link h h' x).
  { intros g x Hg Hx. apply He. apply elem_of_cons. right. apply elem_of_app. left. apply addrs_in. eauto. }
  split; try done.
  - revert P. apply path_right; intros z Hz; apply He; [done|by right].
  - intros x Hx. destruct (C x Hx) as [H0 Hl]. split; [done|]. rewrite <-Hl. apply He. set_solver.
  - intros x Hx. apply He; auto.
  - intros g H. destruct (G g H) as (? & R & T). split_and!; [done| |].
    + revert R. apply ring_ext. intros z Hz. by apply (Hg g).
    + intros x Hx. rewrite <-(T x Hx). by apply (Hg g).
  - rewrite <-F. apply He. left.
Qed.

Lemma whole_ext h h' id gs : (forall z, z ∈ FIRST id :: addrs gs ++ [LAST id] -> get h' z = get h z /\ (alloc h z -> alloc h' z)) ->
  whole_list h id gs -> whole_list h' id gs.
Proof.
  intros He. apply whole_links. intros z Hz. destruct (He z Hz) as [E A]. split; [|done].
  unfold same_link, nx, pv, ld, tm, ls. by rewrite E.
Qed.

Lemma length_alloc (h : heap) l : NoDup l -> (forall x, x ∈ l -> alloc h x) -> (length l <= size h)%nat.
Proof.
  intros N A. rewrite <-size_dom, <-(size_list_to_set (C := gset Z) l) by done.
  apply subseteq_size. intros x Hx. apply elem_of_list_to_set in Hx. apply elem_of_dom. by apply A.
Qed.

Section Whole.

Context (h : heap) (id : Z).

Lemma cut_facts a b : whole_list h id (a ++ b) ->
  nx h (end_of id a) = start_of id b /\ pv h (start_of id b) = end_of id a /\ alloc h (end_of id a) /\ alloc h (start_of id b).
Proof.
  intros [P _ _ A _ _ _]. destruct (cut_list id a b) as (k1 & k2 & E & _). rewrite E in P, A.
  apply path_pair in P as (_ & ? & ? & _). split_and!; try done; apply A; set_solver.
Qed.

Lemma group_ends a t g b : whole_list h id (a ++ (t, g) :: b) ->
  ld h (start_of id ((t, g) :: b)) = end_of id (a ++ [(t, g)]) /\ ld h (end_of id (a ++ [(t, g)])) = start_of id ((t, g) :: b)
  /\ start_of id ((t, g) :: b) ∈ g /\ end_of id (a ++ [(t, g)]) ∈ g /\ last g = Some (end_of id (a ++ [(t, g)])).
Proof.
  intros W. destruct (wl_groups _ _ _ W (t, g)) as (_ & R & _); [set_solver|]. simpl in R.
  destruct (ring_ends _ _ R) as (x & y & Hx & Hy & Hxy & Hyx).
  assert (start_of id ((t, g) :: b) = x) as -> by (unfold start_of; rewrite addrs_cons; destruct g; simpl in *; congruence).
  assert (end_of id (a ++ [(t, g)]) = y) as ->.
  { unfold end_of. rewrite addrs_app, addrs_one. apply last_Some in Hy as [k ->]. by rewrite app_assoc, last_last. }
  split_and!; try done; [destruct g; simpl in *; set_solver|apply last_Some in Hy as [k ->]; set_solver].
Qed.

Lemma length_groups gs : whole_list h id gs -> (length gs <= size h)%nat.
Proof.
  intros W. trans (length (addrs gs)).
  - assert (H : forall g, g ∈ gs -> g.2 <> []).
    { intros g Hg E. destruct (wl_groups _ _ _ W g Hg) as (_ & R & _). rewrite E in R. inversion R. }
    clear W. induction gs as [|[t g] gs IH]; [done|]. rewrite addrs_cons, length_app. simpl.
    specialize (H (t, g)) as H1. destruct g; [exfalso; apply H1; [left|done]|]. simpl.
    assert (forall x, x ∈ gs -> x.2 <> []) as H2 by (intros; apply H; by right). specialize (IH H2). lia.
  - pose proof (wl_nodup _ _ _ W) as N. apply NoDup_cons in N as [_ N]. apply NoDup_app in N as [N _]. apply length_alloc; [done|].
    intros x Hx. apply (wl_alloc _ _ _ W). rewrite elem_of_cons, elem_of_app. tauto.
Qed.

(** The groups that expire by a time and those that expire later. *)
Lemma cut_time t gs : whole_list h id gs -> exists a b, gs = a ++ b /\ (forall g, g ∈ a -> g.1 <= t) /\ (forall g, g ∈ b -> t < g.1).
Proof.
  intros W. apply wl_sorted in W. induction W as [|g gs S IH F].
  { exists [], []. split; [done|]. set_solver. }
  destruct (Z.leb_spec g.1 t) as [L|L].
  - destruct IH as (a & b & -> & Ha & Hb). exists (g :: a), b. split; [done|]. split; [|done].
    intros x [->|Hx]%elem_of_cons; auto.
  - exists [], (g :: gs). split; [done|]. split; [set_solver|]. intros x [->|Hx]%elem_of_cons; [done|].
    rewrite List.Forall_forall in F. apply list_elem_of_In, F in Hx. lia.
Qed.

Lemma end_time a b : whole_list h id (a ++ b) -> tm h (end_of id a) = match last a with Some g => g.1 | None => 0 end.
Proof.
  intros W. destruct a as [|[t g] a _] using rev_ind; [apply (wl_first _ _ _ W)|]. rewrite last_snoc.
  rewrite <-app_assoc in W. destruct (group_ends a t g b W) as (_ & _ & _ & He & _).
  apply (wl_groups _ _ _ W (t, g)); [set_solver|done].
Qed.

Lemma end_first a b : whole_list h id (a ++ b) -> end_of id a = FIRST id -> a = [].
Proof.
  intros W E. destruct a as [|[t g] a _] using rev_ind; [done|]. rewrite <-app_assoc in W.
  destruct (group_ends a t g b W) as (_ & _ & _ & He & _). rewrite E in He.
  pose proof (wl_nodup _ _ _ W) as N. rewrite !addrs_app, addrs_one in N. parts N. set_solver.
Qed.

Lemma start_last a b : whole_list h id (a ++ b) -> start_of id b = LAST id -> b = [].
Proof.
  intros W E. destruct b as [|[t g] b]; [done|]. destruct (group_ends a t g b W) as (_ & _ & He & _). rewrite E in He.
  pose proof (wl_nodup _ _ _ W) as N. rewrite addrs_app, addrs_cons in N. parts N. set_solver.
Qed.

Lemma search_spec a b c t n : whole_list h id (a ++ b ++ c) -> (forall g, g ∈ a -> g.1 <= t) -> (forall g, g ∈ b -> t < g.1) ->
  (length b < n)%nat -> search_place n h id (end_of id (a ++ b)) t = Ret (end_of id a).
Proof.
  revert c n. induction b as [|[u g] b IH] using rev_ind; intros c n W Ha Hb Hn; (destruct n; [lia|]); cbn [search_place].
  - rewrite app_nil_r. destruct (Z.eqb_spec (end_of id a) (FIRST id)); [done|].
    destruct (cut_facts a c W) as (_ & _ & A & _). mem. fold (tm h (end_of id a)). rewrite (end_time a c W).
    destruct a as [|[u g] a _] using rev_ind; [done|]. rewrite last_snoc.
    rewrite (proj2 (Z.leb_le _ _)); [done|]. apply (Ha (u, g)). set_solver.
  - rewrite <-app_assoc in W. rewrite app_assoc in W |- *.
    pose proof W as W'. change ([(u, g)] ++ c) with ((u, g) :: c) in W'. rewrite app_assoc in W.
    destruct (Z.eqb_spec (end_of id ((a ++ b) ++ [(u, g)])) (FIRST id)) as [E|E].
    { apply (end_first _ _ W) in E. by destruct (a ++ b). }
    destruct (cut_facts (a ++ b) _ W') as (_ & P & _ & A). destruct (group_ends (a ++ b) u g c W') as (_ & L & _).
    destruct (cut_facts ((a ++ b) ++ [(u, g)]) c W) as (_ & _ & A' & _).
    mem. fold (tm h (end_of id ((a ++ b) ++ [(u, g)]))). rewrite (end_time _ c W), last_snoc. simpl.
    rewrite (proj2 (Z.leb_gt _ _)) by (apply (Hb (u, g)); set_solver).
    fold (ld h (end_of id ((a ++ b) ++ [(u, g)]))). rewrite L. mem. fold (pv h (start_of id ((u, g) :: c))). rewrite P.
    rewrite <-app_assoc in W'. apply (IH _ _ W' Ha); [set_solver|rewrite length_app in Hn; simpl in Hn; lia].
Qed.

End Whole.

(** What an insertion does to the cells, between the neighbours [x] and [y]. *)
Lemma insert_cells h id tl t x y : tl <> x -> tl <> y -> x <> y -> alloc h tl -> alloc h x -> alloc h y -> alloc h (LAST id) ->
  let h1 := alter (with_time t (list_of id)) tl h in
  search_place (fuel h1) h1 id (pv h1 (LAST id)) t = Ret x -> nx h x = y -> (t = tm h x -> alloc h (ld h x) /\ ld h x <> tl) ->
  exists h', insert_timer_unsafe id tl t h = Ret h'
  /\ (forall z, nx h' z = upd (upd (nx h) tl y) x tl z) /\ (forall z, pv h' z = upd (upd (pv h) tl x) y tl z)
  /\ (forall z, ld h' z = if decide (t = tm h x) then upd (upd (upd (ld h) tl (ld h x)) x 0) (ld h x) tl z else upd (ld h) tl tl z)
  /\ (forall z, tm h' z = upd (tm h) tl t z) /\ (forall z, ls h' z = upd (ls h) tl (list_of id) z)
  /\ (forall z, dl h' z = if decide (z = tl) then false else dl h z) /\ (forall z, alloc h' z <-> alloc h z)
  /\ (forall z, z <> tl -> z <> x -> z <> y -> (t = tm h x -> z <> ld h x) -> get h' z = get h z).
Proof.
  intros N1 N2 N3 At Ax Ay Al h1 Hs Hxy Hld. unfold insert_timer_unsafe. mem. fold h1. fold (pv h1 (LAST id)). rewrite Hs.
  clear Hs. unfold h1. clear h1. unfold nx in Hxy. cbn [mbind res_bind]. mem. cells. rewrite !Hxy. mem. cells.
  fold (tm h x) (ld h x). destruct (Z.eqb_spec t (tm h x)) as [E|E].
  - destruct (Hld E) as [Ad Nd]. clear Hld. mem. cells. mem. cells. revert Ad Nd. generalize (ld h x) as d.
    intros d Ad Nd. eexists. split; [reflexivity|]. split_and!; try (intros; here; done); unfold upd; fields. naive_solver.
  - mem. eexists. split; [reflexivity|]. split_and!; try (intros; here; done); unfold upd; fields.
Qed.


(** The timers of a list with their expiry, in order; and a timer put behind all that expire
    no later. *)
Definition flat (gs : groups) : list (Z * Z) := concat (map (fun g => map (pair g.1) g.2) gs).

Fixpoint sinsert (t x : Z) (l : list (Z * Z)) : list (Z * Z) :=
  match l with
  | [] => [(t, x)]
  | (u, y) :: l' => if t <? u then (t, x) :: l else (u, y) :: sinsert t x l'
  end.

Lemma sinsert_cut t x l1 l2 : (forall p, p ∈ l1 -> p.1 <= t) -> (forall p, p ∈ l2 -> t < p.1) ->
  sinsert t x (l1 ++ l2) = l1 ++ (t, x) :: l2.
Proof.
  intros H1 H2. induction l1 as [|[u y] l1 IH]; simpl.
  - destruct l2 as [|[u y] l2]; [done|]. simpl. rewrite (proj2 (Z.ltb_lt _ _)); [done|]. apply (H2 (u, y)). left.
  - rewrite (proj2 (Z.ltb_ge _ _)) by (apply (H1 (u, y)); left). rewrite IH; [done|]. set_solver.
Qed.

Lemma flat_append a b : flat (a ++ b) = flat a ++ flat b.
Proof. unfold flat. by rewrite map_app, concat_app. Qed.
Lemma flat_cons t g gs : flat ((t, g) :: gs) = map (pair t) g ++ flat gs.
Proof. done. Qed.

Lemma flat_in p gs : p ∈ flat gs <-> exists g, g ∈ gs /\ p.1 = g.1 /\ p.2 ∈ g.2.
Proof.
  unfold flat. rewrite list_elem_of_In, in_concat. setoid_rewrite in_map_iff. setoid_rewrite list_elem_of_In. split.
  - intros (? & (g & <- & Hg) & Hp). apply in_map_iff in Hp as (y & <- & Hy). by exists g.
  - intros (g & Hg & H1 & H2). eexists. split; [by exists g|]. apply in_map_iff. exists p.2. rewrite <-H1. by destruct p.
Qed.

Lemma flat_addrs gs : map snd (flat gs) = addrs gs.
Proof.
  induction gs as [|[t g] gs IH]; [done|]. rewrite flat_cons, addrs_cons, map_app, IH. f_equal. rewrite map_map. apply map_id.
Qed.

Lemma insert_flat t x (a : groups) g (b : groups) : (forall g', g' ∈ a -> g'.1 <= t) -> (forall g', g' ∈ b -> t < g'.1) ->
  flat (a ++ (t, g ++ [x]) :: b) = sinsert t x (flat (a ++ (t, g) :: b)).
Proof.
  intros Ha Hb. rewrite !flat_append, !flat_cons, map_app, !app_assoc. rewrite sinsert_cut; [by rewrite <-!app_assoc| |].
  - intros p [Hp|Hp]%elem_of_app; [apply flat_in in Hp as (g' & Hg & -> & _); apply Ha; set_solver|].
    apply list_elem_of_In, in_map_iff in Hp as (? & <- & _). simpl. lia.
  - intros p Hp. apply flat_in in Hp as (g' & Hg & -> & _). auto.
Qed.

(** What the lists that are not touched rely on. *)
Definition same_off (k : list Z) (h h' : heap) : Prop := forall z, z ∉ k -> get h' z = get h z.

Lemma whole_off h h' k id gs : same_off k h h' -> (forall z, alloc h' z <-> alloc h z) ->
  (forall z, z ∈ FIRST id :: addrs gs ++ [LAST id] -> z ∉ k) -> whole_list h id gs -> whole_list h' id gs.
Proof. intros Ho Ha Hk. apply whole_ext. intros z Hz. split; [apply Ho; auto|by rewrite Ha]. Qed.

Lemma sorted_mid (a b : groups) x : StronglySorted (fun a b => a.1 < b.1) (a ++ b) -> (forall g, g ∈ a -> g.1 < x.1) ->
  (forall g, g ∈ b -> x.1 < g.1) -> StronglySorted (fun a b => a.1 < b.1) (a ++ x :: b).
Proof.
  induction a as [|y a IH]; simpl; intros S Ha Hb.
  - constructor; [done|]. apply List.Forall_forall. intros g Hg. apply Hb. by apply list_elem_of_In.
  - apply StronglySorted_inv in S as [S F]. constructor; [apply IH; [done|set_solver|done]|]. rewrite List.Forall_app in *.
    destruct F as [F1 F2]. split; [done|]. constructor; [|done]. apply Ha. left.
Qed.

Lemma NoDup_mid (k1 k2 : list Z) t : NoDup (k1 ++ k2) -> t ∉ k1 ++ k2 -> NoDup (k1 ++ t :: k2).
Proof. intros N H. rewrite <-Permutation_middle. by constructor. Qed.

(** The path of a list with a link more between two groups. *)
Lemma whole_put h h' id a b tl : whole_list h id (a ++ b) -> 0 < tl -> tl ∉ FIRST id :: addrs (a ++ b) ++ [LAST id] -> alloc h tl ->
  (forall z, nx h' z = upd (upd (nx h) tl (start_of id b)) (end_of id a) tl z) ->
  (forall z, pv h' z = upd (upd (pv h) tl (end_of id a)) (start_of id b) tl z) ->
  (forall z, tm h' z = upd (tm h) tl (tm h' tl) z) -> (forall z, ls h' z = upd (ls h) tl (list_of id) z) ->
  (forall z, alloc h' z <-> alloc h z) ->
  forall gs, addrs gs = addrs a ++ tl :: addrs b ->
  (forall g, g ∈ gs -> 0 < g.1 /\ ring (ld h') g.2 /\ (forall x, x ∈ g.2 -> tm h' x = g.1)) ->
  StronglySorted (fun a b => a.1 < b.1) gs -> whole_list h' id gs.
Proof.
  intros W Ht Hin At Hn Hp Htm Hls Hal gs E HG HS. destruct W as [P N C A G S F].
  assert (Ep : exists k1 k2, FIRST id :: addrs gs ++ [LAST id] = k1 ++ end_of id a :: tl :: start_of id b :: k2
    /\ FIRST id :: addrs (a ++ b) ++ [LAST id] = k1 ++ end_of id a :: start_of id b :: k2).
  { destruct (cut_list id a b) as (k1 & k2 & E1 & E2 & E3). exists k1, k2. split; [|done].
    rewrite E, <-app_assoc, app_comm_cons, E2, <-app_assoc. simpl. by rewrite E3. }
  destruct Ep as (k1 & k2 & E1 & E2).
  assert (N' : NoDup (FIRST id :: addrs gs ++ [LAST id])).
  { rewrite E1. rewrite E2 in N, Hin. change (end_of id a :: tl :: start_of id b :: k2) with ([end_of id a] ++ tl :: start_of id b :: k2).
    change (end_of id a :: start_of id b :: k2) with ([end_of id a] ++ start_of id b :: k2) in N, Hin. rewrite app_assoc in *. by apply NoDup_mid. }
  assert (I : forall x, x ∈ addrs gs <-> x = tl \/ x ∈ addrs (a ++ b)) by (intros x; rewrite E, addrs_app, !elem_of_app, elem_of_cons; tauto).
  split; try done.
  - rewrite E1 in *. rewrite E2 in P. by apply (path_insert _ _ _ _ _ _ _ _ _ N' P).
  - intros x. rewrite I, Hls. unfold upd. case_decide; [by subst|]. intros [|Hx]; [done|by apply C].
  - intros x Hx. rewrite Hal. destruct (decide (x = tl)); [by subst|]. apply A. specialize (I x).
    rewrite elem_of_cons, elem_of_app in *. tauto.
  - rewrite Htm. unfold upd. case_decide; [set_solver|done].
Qed.

Lemma sorted_keys (l l' : groups) : map fst l = map fst l' -> StronglySorted (fun a b => a.1 < b.1) l -> StronglySorted (fun a b => a.1 < b.1) l'.
Proof.
  revert l'. induction l as [|x l IH]; intros [|x' l']; try done. simpl. intros [= E1 E2] [S F]%StronglySorted_inv.
  constructor; [by apply IH|]. rewrite <-E1. clear -E2 F. revert l' E2. induction F; intros [|? ?]; try done. simpl. intros [= E ?].
  constructor; [by rewrite <-E|auto].
Qed.

Lemma sorted_front (a b : groups) : StronglySorted (fun a b => a.1 < b.1) (a ++ b) -> StronglySorted (fun a b => a.1 < b.1) a.
Proof.
  induction a as [|x a IH]; simpl; intros S; [constructor|]. apply StronglySorted_inv in S as [S F].
  apply List.Forall_app in F as [F _]. constructor; auto.
Qed.

Lemma sorted_last (l : groups) g g' : StronglySorted (fun a b => a.1 < b.1) l -> last l = Some g -> g' ∈ l -> g'.1 <= g.1.
Proof.
  intros S. induction S as [|x l S IH F]; [done|]. intros L [->|Hg]%elem_of_cons.
  - destruct l as [|y l]; [simpl in L; injection L as ->; lia|]. rewrite List.Forall_forall in F.
    apply last_Some_elem_of in L. assert (In g (y :: l) \/ g = x) as [H| ->] by (apply elem_of_cons in L as [->|L]; [by right|left; by apply list_elem_of_In]); [|lia].
    specialize (F g H). lia.
  - destruct l as [|y l]; [set_solver|]. apply IH; done.
Qed.

(** Groups have no links in common. *)
Lemma groups_apart h id a t g b g' z : whole_list h id (a ++ (t, g) :: b) -> g' ∈ a ++ b -> z ∈ g'.2 -> z ∉ g.
Proof.
  intros W Hg' Hz Hg. pose proof (wl_nodup _ _ _ W) as N. rewrite addrs_app, addrs_cons in N.
  apply NoDup_cons in N as [_ N]. apply NoDup_app in N as [N _]. apply NoDup_app in N as (_ & N1 & N2).
  apply NoDup_app in N2 as (_ & N2 & _). apply elem_of_app in Hg' as [Hg'|Hg'].
  - apply (N1 z); [apply addrs_in; eauto|]. apply elem_of_app. by left.
  - apply (N2 z); [done|]. apply addrs_in. eauto.
Qed.

(** The groups before and behind the new link keep their cells. *)
Lemma group_keeps h h' id gs g tl : whole_list h id gs -> g ∈ gs -> tl ∉ addrs gs ->
  (forall z, z ∈ g.2 -> ld h' z = ld h z) -> (forall z, z <> tl -> tm h' z = tm h z) ->
  0 < g.1 /\ ring (ld h') g.2 /\ (forall x, x ∈ g.2 -> tm h' x = g.1).
Proof.
  intros W Hg Ht Hl Hm. destruct (wl_groups _ _ _ W g Hg) as (? & R & T). split_and!; [done|by apply (ring_ext (ld h))|].
  intros x Hx. rewrite Hm by (intros ->; apply Ht, addrs_in; eauto). by apply T.
Qed.

Lemma nodup_group h id a t g b : whole_list h id (a ++ (t, g) :: b) -> NoDup g.
Proof.
  intros W. pose proof (wl_nodup _ _ _ W) as N. rewrite addrs_app, addrs_cons in N.
  apply NoDup_cons in N as [_ N]. apply NoDup_app in N as [N _]. apply NoDup_app in N as (_ & _ & N2).
  by apply NoDup_app in N2 as [N2 _].
Qed.

(** The link joins the last group that expires no later, or is a new group behind it. *)
Section Put.

Context (h h' : heap) (id tl t : Z) (a b : groups).
Hypothesis W : whole_list h id (a ++ b).
Hypothesis Ht : 0 < t.
Hypothesis Htl : 0 < tl.
Hypothesis At : alloc h tl.
Hypothesis Hin : tl ∉ FIRST id :: addrs (a ++ b) ++ [LAST id].
Hypothesis Ha : forall g, g ∈ a -> g.1 <= t.
Hypothesis Hb : forall g, g ∈ b -> t < g.1.
Hypothesis Hn : forall z, nx h' z = upd (upd (nx h) tl (start_of id b)) (end_of id a) tl z.
Hypothesis Hp : forall z, pv h' z = upd (upd (pv h) tl (end_of id a)) (start_of id b) tl z.
Hypothesis Hm : forall z, tm h' z = upd (tm h) tl t z.
Hypothesis Hls : forall z, ls h' z = upd (ls h) tl (list_of id) z.
Hypothesis Hal : forall z, alloc h' z <-> alloc h z.

#[local] Lemma put_in : tl ∉ addrs (a ++ b).
Proof. intros H. apply Hin. rewrite elem_of_cons, elem_of_app. tauto. Qed.

#[local] Lemma put_tm z : z <> tl -> tm h' z = tm h z.
Proof. intros Hz. rewrite Hm. unfold upd. by rewrite decide_False. Qed.

#[local] Lemma put_tl : tm h' tl = t.
Proof. rewrite Hm. unfold upd. by rewrite decide_True. Qed.

#[local] Lemma put_tm' z : tm h' z = upd (tm h) tl (tm h' tl) z.
Proof. by rewrite put_tl, Hm. Qed.

Lemma put_join a0 g : a = a0 ++ [(t, g)] -> last g = Some (end_of id a) -> ld h (end_of id a) ∈ g ->
  (forall z, ld h' z = upd (upd (upd (ld h) tl (ld h (end_of id a))) (end_of id a) 0) (ld h (end_of id a)) tl z) ->
  whole_list h' id (a0 ++ (t, g ++ [tl]) :: b).
Proof.
  intros E Hx Hd Hl. assert (Wa := W). rewrite E, <-app_assoc in Wa. simpl in Wa. assert (Hi := put_in).
  assert (Htg : tl ∉ g) by (intros H; apply Hi; rewrite E; memb).
  apply (whole_put h h' id a b tl); auto using put_tm'; [rewrite E, !addrs_app, addrs_one, addrs_cons, <-!app_assoc; done| |].
  2: { eapply sorted_keys; [|apply (wl_sorted _ _ _ Wa)]. rewrite !map_app. done. }
  assert (Ho : forall g', g' ∈ a0 ++ b -> 0 < g'.1 /\ ring (ld h') g'.2 /\ (forall x, x ∈ g'.2 -> tm h' x = g'.1)).
  { intros g' Hg'. assert (g' ∈ a ++ b) by (rewrite E; apply elem_of_app in Hg'; memb).
    apply (group_keeps _ _ _ _ g' tl W); [done|done| |apply put_tm].
    intros z Hz. assert (Hzg := groups_apart _ _ _ _ _ _ _ _ Wa Hg' Hz). rewrite Hl. unfold upd.
    rewrite !decide_False; [done|intros ->; apply Hi, addrs_in; eauto| |congruence].
    intros ->. apply Hzg. by apply last_Some_elem_of in Hx. }
  intros g' [Hg'|[->|Hg']%elem_of_cons]%elem_of_app; [apply Ho; memb| |apply Ho; memb].
  destruct (wl_groups _ _ _ Wa (t, g)) as (_ & R & T); [memb|]. split_and!; [done| |]; simpl.
  - apply (ring_push (ld h) _ _ (end_of id a)); auto. apply NoDup_mid; rewrite app_nil_r; [by eapply nodup_group|done].
  - intros z [Hz|Hz]%elem_of_app; [|apply list_elem_of_singleton in Hz as ->; apply put_tl].
    rewrite put_tm; [by apply T|]. by intros ->.
Qed.

Lemma put_new : t <> tm h (end_of id a) -> (forall z, ld h' z = upd (ld h) tl tl z) -> whole_list h' id (a ++ (t, [tl]) :: b).
Proof.
  intros E Hl. assert (Hi := put_in).
  apply (whole_put h h' id a b tl); auto using put_tm'; [rewrite addrs_app, addrs_cons; done| |].
  - intros g Hg. apply elem_of_app in Hg as [Hg|[->|Hg]%elem_of_cons].
    2: { split_and!; [done|apply ring_one; rewrite Hl; upds|]. intros z Hz. apply list_elem_of_singleton in Hz as ->. apply put_tl. }
    all: apply (group_keeps _ _ _ _ g tl W); [memb|done| |apply put_tm]; intros z Hz; rewrite Hl; unfold upd;
      rewrite decide_False; [done|intros ->; apply Hi, addrs_in; exists g; memb].
  - apply sorted_mid; [apply (wl_sorted _ _ _ W)| |done]. intros g Hg. simpl. rewrite (end_time _ _ _ _ W) in E.
    destruct (last a) as [l|] eqn:El; [|apply last_None in El; set_solver].
    pose proof (Ha l ltac:(by eapply last_Some_elem_of)). enough (g.1 <= l.1) by lia. eapply sorted_last; [|done..].
    eapply (sorted_front a b), W.
Qed.

End Put.

Lemma insert_list h id gs tl t : 0 <= id -> whole_list h id gs -> 0 < t -> 0 < tl -> alloc h tl -> tl ∉ addrs gs ->
  exists h' gs', insert_timer_unsafe id tl t h = Ret h' /\ whole_list h' id gs' /\ flat gs' = sinsert t tl (flat gs)
  /\ same_off (tl :: FIRST id :: addrs gs ++ [LAST id]) h h' /\ (forall z, alloc h' z <-> alloc h z)
  /\ (forall z, tm h' z = upd (tm h) tl t z) /\ (forall z, ls h' z = upd (ls h) tl (list_of id) z)
  /\ (forall z, dl h' z = if decide (z = tl) then false else dl h z).
Proof.
  intros Hid W Ht Htl At Hin.
  assert (Hin' : tl ∉ FIRST id :: addrs gs ++ [LAST id]).
  { rewrite elem_of_cons, elem_of_app, list_elem_of_singleton. unfold FIRST, LAST. intros [|[|]]; [lia|done|lia]. }
  assert (W1 : whole_list (alter (with_time t (list_of id)) tl h) id gs).
  { revert W. apply whole_ext. intros z Hz. rewrite get_alter, decide_False, alloc_alter by set_solver. done. }
  destruct (cut_time _ _ t gs W) as (a & b & -> & Ha & Hb).
  destruct (cut_facts _ _ a b W) as (F1 & F2 & F3 & F4).
  assert (Hs : search_place (fuel (alter (with_time t (list_of id)) tl h)) (alter (with_time t (list_of id)) tl h) id
    (pv (alter (with_time t (list_of id)) tl h) (LAST id)) t = Ret (end_of id a)).
  { rewrite <-(app_nil_r (a ++ b)) in W1. destruct (cut_facts _ _ (a ++ b) [] W1) as (_ & E & _).
    change (start_of id []) with (LAST id) in E. rewrite E. rewrite <-app_assoc in W1. apply (search_spec _ _ _ _ [] _ _ W1); auto.
    rewrite app_nil_r in W1. apply length_groups in W1. rewrite length_app in W1. unfold fuel. lia. }
  destruct (cut_list id a b) as (k1 & k2 & E1 & E2 & E3).
  assert (N := wl_nodup _ _ _ W). rewrite E1 in N, Hin'.
  assert (Hg : t = tm h (end_of id a) -> exists a0 g, a = a0 ++ [(t, g)] /\ last g = Some (end_of id a) /\ ld h (end_of id a) ∈ g).
  { rewrite (end_time _ _ _ _ W). destruct a as [|[u g] a _] using rev_ind; simpl; [lia|]. rewrite last_snoc. simpl. intros <-.
    rewrite <-app_assoc in W. destruct (group_ends _ _ a t g b W) as (_ & L & S & L1 & L2). exists a, g. by rewrite L. }
  destruct (insert_cells h id tl t (end_of id a) (start_of id b)) as (h' & Eh & Hn & Hp & Hl & Hm & Hls & Hdl & Hal & Ho); auto.
  1-3: parts N; set_solver.
  { apply (wl_alloc _ _ _ W). set_solver. }
  { intros E. destruct (Hg E) as (a0 & g & -> & _ & Hd). split; [|intros Ed].
    - apply (wl_alloc _ _ _ W). rewrite !addrs_app, addrs_one. set_solver.
    - apply Hin. rewrite !addrs_app, addrs_one. set_solver. }
  exists h'. cut (exists gs', whole_list h' id gs' /\ flat gs' = sinsert t tl (flat (a ++ b))).
  { intros (gs' & W' & Ef). exists gs'. split_and!; try done. intros z Hz. apply Ho; [intros ->; apply Hz; left|intros ->; apply Hz..|].
    1-2: rewrite E1; memb.
    intros E ->. destruct (Hg E) as (a0 & g & -> & _ & Hd). apply Hz. memb. }
  rewrite <-E1 in Hin'. destruct (decide (t = tm h (end_of id a))) as [E|E].
  - destruct (Hg E) as (a0 & g & Ea & Hx & Hd). exists (a0 ++ (t, g ++ [tl]) :: b). split; [by apply (put_join h h' id tl t a b)|].
    subst a. rewrite <-app_assoc. apply insert_flat; [intros; apply Ha; memb|done].
  - exists (a ++ (t, [tl]) :: b). split; [by apply (put_new h)|]. pose proof (insert_flat t tl a [] b Ha Hb) as Ef.
    simpl in Ef. rewrite Ef. by rewrite !flat_append, flat_cons.
Qed.

(** ** Removing a link *)

(** What a removal does to the cells, between the neighbours [x] and [y]: in its group the
    link's partner and one of the neighbours become the ends. *)
Definition partner (h : heap) (tl x y : Z) : Z -> Z :=
  let d := ld h tl in
  if decide (d = 0 \/ d = tl) then ld h
  else let c := if decide (tm h tl = tm h x) then x else y in upd (upd (ld h) c d) d c.

Lemma remove_cells h tl x y : tl <> x -> tl <> y -> x <> y -> alloc h tl -> alloc h x -> alloc h y ->
  is_in_timer_list2 (get h tl) = true -> pv h tl = x -> nx h tl = y -> (ld h tl <> 0 -> alloc h (ld h tl)) ->
  exists h', remove_timer_unsafe tl h = Ret h'
  /\ (forall z, nx h' z = upd (upd (nx h) x y) tl 0 z) /\ (forall z, pv h' z = upd (upd (pv h) y x) tl 0 z)
  /\ (forall z, ld h' z = upd (partner h tl x y) tl 0 z)
  /\ (forall z, tm h' z = tm h z) /\ (forall z, ls h' z = upd (ls h) tl 0 z)
  /\ (forall z, dl h' z = dl h z) /\ (forall z, alloc h' z <-> alloc h z)
  /\ (forall z, z <> tl -> z <> x -> z <> y -> (ld h tl <> 0 -> z <> ld h tl) -> get h' z = get h z).
Proof.
  intros N1 N2 N3 At Ax Ay Hi Hx Hy Hld. unfold remove_timer_unsafe. mem. rewrite Hi. fold (ld h tl) (pv h tl) (nx h tl) (tm h tl).
  rewrite Hx, Hy. unfold partner. destruct (decide (ld h tl = 0 \/ ld h tl = tl)) as [E|E].
  - replace (negb (ld h tl =? NULL) && negb (ld h tl =? tl)) with false by (unfold NULL; destruct E as [-> | ->]; rewrite Z.eqb_refl; simpl; by rewrite ?andb_false_r).
    cbn [mbind res_bind]. mem. eexists. split; [reflexivity|].
    split_and!; try (intros; here; done); unfold upd; fields.
  - assert (E1 : ld h tl <> 0) by tauto. assert (E2 : ld h tl <> tl) by tauto. specialize (Hld E1).
    replace (negb (ld h tl =? NULL) && negb (ld h tl =? tl)) with true by (unfold NULL; by rewrite !(proj2 (Z.eqb_neq _ _))).
    mem. fold (tm h x). destruct (Z.eqb_spec (tm h tl) (tm h x)) as [Et|Et]; cbn [mbind res_bind]; mem; eexists; (split; [reflexivity|]);
      revert Hld E1 E2; generalize (ld h tl) as d; intros d Ad E1 E2;
      split_and!; try (intros; here; done); unfold upd; fields; exfalso; naive_solver.
Qed.

(** A timer taken out of the ordered list. *)
Definition without (x : Z) (l : list (Z * Z)) : list (Z * Z) := filter (fun p => p.2 <> x) l.

Lemma without_none x l : x ∉ map snd l -> without x l = l.
Proof.
  intros H. unfold without. induction l as [|p l IH]; [done|]. simpl in H. rewrite filter_cons_True by set_solver.
  f_equal. apply IH. set_solver.
Qed.

Lemma without_mid t x l1 l2 : x ∉ map snd l1 -> x ∉ map snd l2 -> without x (l1 ++ (t, x) :: l2) = l1 ++ l2.
Proof.
  intros H1 H2. unfold without. rewrite filter_app, filter_cons_False by naive_solver. f_equal; by apply without_none.
Qed.

Lemma remove_flat a t g1 tl g2 b : NoDup (addrs (a ++ (t, g1 ++ tl :: g2) :: b)) ->
  without tl (flat (a ++ (t, g1 ++ tl :: g2) :: b)) = flat (a ++ (t, g1 ++ g2) :: b).
Proof.
  rewrite addrs_app, addrs_cons, !flat_append, !flat_cons, !map_app. simpl. intros N.
  rewrite <-!app_assoc, !(app_assoc (flat a)). simpl.
  assert (S : forall g : list Z, map snd (map (pair t) g) = g) by (intros g; rewrite map_map; apply map_id).
  apply without_mid; rewrite map_app, S, flat_addrs; parts N; set_solver.
Qed.

(** The path of a list with a link less. *)
Lemma whole_cut h h' id gs A B tl k1 x y k2 : whole_list h id gs -> addrs gs = A ++ tl :: B ->
  FIRST id :: A = k1 ++ [x] -> B ++ [LAST id] = y :: k2 ->
  (forall z, nx h' z = upd (upd (nx h) x y) tl 0 z) -> (forall z, pv h' z = upd (upd (pv h) y x) tl 0 z) ->
  (forall z, tm h' z = tm h z) -> (forall z, ls h' z = upd (ls h) tl 0 z) -> (forall z, alloc h' z <-> alloc h z) ->
  forall gs', addrs gs' = A ++ B -> (forall g, g ∈ gs' -> 0 < g.1 /\ ring (ld h') g.2 /\ (forall x, x ∈ g.2 -> tm h' x = g.1)) ->
  StronglySorted (fun a b => a.1 < b.1) gs' -> whole_list h' id gs'.
Proof.
  intros [P N C Al G S F] E E1 E2 Hn Hp Hm Hls Hal gs' E' HG HS.
  assert (K : FIRST id :: addrs gs ++ [LAST id] = k1 ++ x :: tl :: y :: k2).
  { rewrite E, <-app_assoc, app_comm_cons, E1, <-app_assoc. simpl. by rewrite E2. }
  assert (K' : FIRST id :: addrs gs' ++ [LAST id] = k1 ++ x :: y :: k2).
  { by rewrite E', <-app_assoc, app_comm_cons, E1, E2, <-app_assoc. }
  assert (I : forall z, z ∈ addrs gs' -> z ∈ addrs gs /\ z <> tl).
  { intros z. rewrite E, E'. rewrite E in N. apply NoDup_cons in N as [_ N]. apply NoDup_app in N as [N _].
    intros Hz. split; [set_solver|]. intros ->. parts N. set_solver. }
  split; try done.
  - rewrite K'. rewrite K in N, P. by apply (path_remove _ _ _ _ _ _ _ _ _ N P).
  - rewrite K'. rewrite K in N. apply (sublist_NoDup _ _ N), sublist_app; [done|].
    by apply sublist_skip, sublist_cons.
  - intros z Hz. destruct (I z Hz) as [Hz1 Hz2]. rewrite Hls. unfold upd. rewrite decide_False by done. by apply C.
  - intros z Hz. apply Hal, Al. specialize (I z). rewrite elem_of_cons, elem_of_app in *. tauto.
  - by rewrite Hm.
Qed.

Lemma end_before h id a t g b : whole_list h id (a ++ (t, g) :: b) -> tm h (end_of id a) < t.
Proof.
  intros W. rewrite (end_time _ _ _ _ W). destruct (wl_groups _ _ _ W (t, g)) as (H0 & _); [memb|]. simpl in H0.
  destruct a as [|l a _] using rev_ind; [done|]. rewrite last_snoc. apply wl_sorted in W. clear H0.
  induction a as [|x a IH]; simpl in *; apply StronglySorted_inv in W as [W F]; [by apply List.Forall_cons_iff in F as [F _]|auto].
Qed.

Section Remove.

Context (h h' : heap) (id t tl : Z) (a b : groups) (g1 g2 : list Z).
Hypothesis W : whole_list h id (a ++ (t, g1 ++ tl :: g2) :: b).
Context (k1 k2 : list Z) (x y : Z).
Hypothesis E1 : FIRST id :: addrs a ++ g1 = k1 ++ [x].
Hypothesis E2 : (g2 ++ addrs b) ++ [LAST id] = y :: k2.
Hypothesis Hn : forall z, nx h' z = upd (upd (nx h) x y) tl 0 z.
Hypothesis Hp : forall z, pv h' z = upd (upd (pv h) y x) tl 0 z.
Hypothesis Hl : forall z, ld h' z = upd (partner h tl x y) tl 0 z.
Hypothesis Hm : forall z, tm h' z = tm h z.
Hypothesis Hls : forall z, ls h' z = upd (ls h) tl 0 z.
Hypothesis Hal : forall z, alloc h' z <-> alloc h z.

(** The removal changes [ld_tl] in the group only. *)
Lemma cut_rest : (forall z, z ∉ g1 ++ tl :: g2 -> partner h tl x y z = ld h z) ->
  forall g, g ∈ a ++ b -> 0 < g.1 /\ ring (ld h') g.2 /\ (forall z, z ∈ g.2 -> tm h' z = g.1).
Proof.
  intros Hk g Hg. destruct (wl_groups _ _ _ W g) as (H0 & R & T); [apply elem_of_app in Hg; memb|].
  split_and!; [done| |intros z Hz; rewrite Hm; by apply T]. revert R. apply ring_ext. intros z Hz.
  assert (Hz' := groups_apart _ _ _ _ _ _ _ _ W Hg Hz). rewrite Hl. unfold upd. rewrite decide_False; [by apply Hk|].
  intros ->. apply Hz'. apply elem_of_app. right. left.
Qed.

(** The group stays, with a link less. *)
Lemma cut_some : (forall z, z ∉ g1 ++ tl :: g2 -> partner h tl x y z = ld h z) ->
  ring (ld h') (g1 ++ g2) -> whole_list h' id (a ++ (t, g1 ++ g2) :: b).
Proof.
  intros Hk R. apply (whole_cut h h' id _ (addrs a ++ g1) (g2 ++ addrs b) tl k1 x y k2 W); auto.
  - rewrite addrs_app, addrs_cons, <-!app_assoc. done.
  - rewrite addrs_app, addrs_cons, <-!app_assoc. done.
  - destruct (wl_groups _ _ _ W (t, g1 ++ tl :: g2)) as (H0 & _ & T); [memb|]. simpl in H0, T.
    intros g [Hg|[->|Hg]%elem_of_cons]%elem_of_app; [apply (cut_rest Hk); memb| |apply (cut_rest Hk); memb].
    split_and!; [done..|]. simpl. intros z Hz. rewrite Hm. apply T. rewrite elem_of_app, elem_of_cons in *. tauto.
  - eapply sorted_keys; [|apply (wl_sorted _ _ _ W)]. rewrite !map_app. done.
Qed.

(** The group had one link. *)
Lemma cut_none : g1 = [] -> g2 = [] -> (forall z, z ∉ g1 ++ tl :: g2 -> partner h tl x y z = ld h z) -> whole_list h' id (a ++ b).
Proof.
  intros G1 G2 Hk. apply (whole_cut h h' id _ (addrs a ++ g1) (g2 ++ addrs b) tl k1 x y k2 W); auto using cut_rest.
  - rewrite addrs_app, addrs_cons, <-!app_assoc. done.
  - rewrite addrs_app, G1, G2, app_nil_r. done.
  - pose proof (wl_sorted _ _ _ W) as S. clear -S. induction a as [|g a' IH]; simpl in *; [by apply StronglySorted_inv in S as [S _]|].
    apply StronglySorted_inv in S as [S F]. constructor; [auto|]. rewrite List.Forall_app in *. destruct F as [F1 F2].
    apply List.Forall_cons_iff in F2. tauto.
Qed.

#[local] Lemma cut_taken : taken (ld h) tl g1 g2.
Proof. apply ring_take; [by eapply nodup_group|]. apply (wl_groups _ _ _ W (t, g1 ++ tl :: g2)). memb. Qed.

#[local] Lemma cut_tm z : z ∈ g1 ++ tl :: g2 -> tm h z = t.
Proof. apply (wl_groups _ _ _ W (t, g1 ++ tl :: g2)). memb. Qed.

#[local] Lemma cut_flat : without tl (flat (a ++ (t, g1 ++ tl :: g2) :: b)) = flat (a ++ (t, g1 ++ g2) :: b).
Proof. apply remove_flat. pose proof (wl_nodup _ _ _ W) as N. apply NoDup_cons in N as [_ N]. by apply NoDup_app in N as [N _]. Qed.

#[local] Lemma cut_partner d : ld h tl = d -> d ∈ g1 ++ g2 -> partner h tl x y =
  upd (upd (ld h) (if decide (t = tm h x) then x else y) d) d (if decide (t = tm h x) then x else y).
Proof.
  intros E Hd. unfold partner. rewrite E, (cut_tm tl) by (apply elem_of_app; right; left). rewrite decide_False; [done|].
  assert (N := nodup_group _ _ _ _ _ _ W). rewrite <-Permutation_middle in N. apply NoDup_cons in N as [N _].
  intros [->| ->]; [|done]. destruct (wl_cells _ _ _ W 0); [|lia]. rewrite addrs_app, addrs_cons.
  rewrite !elem_of_app, elem_of_cons. apply elem_of_app in Hd. tauto.
Qed.

Lemma cut_group : exists gs', whole_list h' id gs' /\ flat gs' = without tl (flat (a ++ (t, g1 ++ tl :: g2) :: b)).
Proof.
  assert (Hoff : forall z, z <> tl -> ld h' z = partner h tl x y z) by (intros z Hz; rewrite Hl; unfold upd; by rewrite decide_False).
  assert (Hp1 : forall z, z ∉ g1 ++ tl :: g2 -> forall d c, d ∈ g1 ++ g2 -> c ∈ g1 ++ g2 -> upd (upd (ld h) c d) d c z = ld h z).
  { intros z Hz d c Hd Hc. rewrite elem_of_app, elem_of_cons in *. unfold upd. rewrite !decide_False; [done|intros ->; tauto..]. }
  rewrite cut_flat. pose proof cut_taken as T. inversion T as [E G1 G2|c r Hd R G1 G2|r c Hd R G1 G2|c u1 u2 E R G1 G2].
  - exists (a ++ b). split; [|by rewrite !flat_append, flat_cons]. apply cut_none; auto. intros z _. unfold partner.
    by rewrite decide_True by tauto.
  - exists (a ++ (t, g1 ++ g2) :: b). split; [|by rewrite G1, G2].
    assert (Hd' : ld h tl ∈ g1 ++ g2) by (by rewrite <-G1, <-G2).
    assert (y = c) as Ey by (rewrite <-G2 in E2; by injection E2).
    assert (x = end_of id a) as Ex.
    { destruct (end_split id a) as [k Ek]. rewrite <-G1, app_nil_r, Ek in E1. by apply app_inj_tail in E1 as [_ ->]. }
    pose proof (cut_partner _ eq_refl Hd') as Pt. rewrite decide_False, Ey in Pt by (rewrite Ex; pose proof (end_before _ _ _ _ _ _ W); lia).
    apply cut_some.
    + intros z Hz. rewrite Ey, Pt. apply Hp1; auto. rewrite <-G2. apply elem_of_app. right. left.
    + rewrite <-G1, <-G2. apply R. intros z Hz. by rewrite Hoff, Ey, Pt.
  - exists (a ++ (t, g1 ++ g2) :: b). split; [|by rewrite G1, G2].
    assert (Hd' : ld h tl ∈ g1 ++ g2) by (by rewrite <-G1, <-G2, app_nil_r).
    assert (Hx : x ∈ g1 ++ tl :: g2 /\ x = c).
    { rewrite <-G1, app_assoc, app_comm_cons in E1. apply app_inj_tail in E1 as [_ <-]. split; [|done]. rewrite <-G1. set_solver. }
    destruct Hx as [Hx Ex]. pose proof (cut_partner _ eq_refl Hd') as Pt. rewrite decide_True, Ex in Pt by (by rewrite cut_tm).
    apply cut_some.
    + intros z Hz. rewrite Ex, Pt. apply Hp1; auto. rewrite <-G1. set_solver.
    + rewrite <-G1, <-G2, app_nil_r. apply R. intros z Hz. by rewrite Hoff, Ex, Pt.
  - exists (a ++ (t, g1 ++ g2) :: b). split; [|by rewrite G1].
    assert (Pt : partner h tl x y = ld h) by (unfold partner; by rewrite decide_True by tauto).
    apply cut_some; [intros z _; by rewrite Pt|]. rewrite <-G1. apply R. intros z Hz. by rewrite Hoff, Pt.
Qed.

End Remove.

Lemma remove_list h id gs tl : 0 <= id -> whole_list h id gs -> tl ∈ addrs gs ->
  exists h' gs', remove_timer_unsafe tl h = Ret h' /\ whole_list h' id gs' /\ flat gs' = without tl (flat gs)
  /\ same_off (FIRST id :: addrs gs ++ [LAST id]) h h' /\ (forall z, alloc h' z <-> alloc h z)
  /\ (forall z, tm h' z = tm h z) /\ (forall z, ls h' z = upd (ls h) tl 0 z) /\ (forall z, dl h' z = dl h z).
Proof.
  intros Hid W Hin. apply addrs_in in Hin as ([t g] & Hg & Hx). simpl in Hx.
  apply list_elem_of_split in Hg as (a & b & ->). apply list_elem_of_split in Hx as (g1 & g2 & ->).
  assert (exists k1 x, FIRST id :: addrs a ++ g1 = k1 ++ [x]) as (k1 & x & E1).
  { destruct (@exists_last _ (FIRST id :: addrs a ++ g1)) as (k1 & x & ->); eauto. }
  assert (exists y k2, (g2 ++ addrs b) ++ [LAST id] = y :: k2) as (y & k2 & E2) by (destruct (g2 ++ addrs b); simpl; eauto).
  assert (K : FIRST id :: addrs (a ++ (t, g1 ++ tl :: g2) :: b) ++ [LAST id] = k1 ++ x :: tl :: y :: k2).
  { rewrite addrs_app, addrs_cons, <-!app_assoc. simpl. rewrite app_assoc, <-E2, app_comm_cons, E1, <-!app_assoc. done. }
  pose proof (wl_path _ _ _ W) as P. pose proof (wl_nodup _ _ _ W) as N. rewrite K in P, N.
  apply path_pair in P as (_ & _ & Px & Py & _).
  assert (A : forall z, z ∈ k1 ++ x :: tl :: y :: k2 -> alloc h z) by (intros z; rewrite <-K; apply (wl_alloc _ _ _ W)).
  assert (At : alloc h tl) by (apply A; rewrite elem_of_app, !elem_of_cons; tauto).
  assert (Ax : alloc h x) by (apply A; rewrite elem_of_app, !elem_of_cons; tauto).
  assert (Ay : alloc h y) by (apply A; rewrite elem_of_app, !elem_of_cons; tauto).
  assert (T := cut_taken _ _ _ _ _ _ _ _ W).
  assert (Hd : ld h tl = 0 \/ ld h tl ∈ g1 ++ tl :: g2).
  { destruct T; rewrite ?elem_of_app, ?elem_of_cons, ?elem_of_app in *; tauto. }
  assert (Hin : forall z, z ∈ g1 ++ tl :: g2 -> z ∈ addrs (a ++ (t, g1 ++ tl :: g2) :: b)).
  { intros z Hz. rewrite addrs_app, addrs_cons, elem_of_app, (elem_of_app _ (addrs b)). tauto. }
  destruct (remove_cells h tl x y) as (h' & Er & Hn & Hp & Hl & Hm & Hls & Hdl & Hal & Ho); auto.
  1-3: intros ->; parts N; set_solver.
  { destruct (wl_cells _ _ _ W tl) as [_ L]; [apply Hin, elem_of_app; right; left|]. unfold ls, list_of in L.
    unfold is_in_timer_list2. rewrite L. unfold NULL, DETACHED_LIST. by rewrite !(proj2 (Z.eqb_neq _ _)) by lia. }
  { intros Hz. apply (wl_alloc _ _ _ W). destruct Hd as [|Hd]; [done|]. apply Hin in Hd. rewrite elem_of_cons, elem_of_app. tauto. }
  destruct (cut_group h h' id t tl a b g1 g2 W k1 k2 x y) as (gs' & W' & Ef); auto.
  exists h', gs'. split_and!; auto. intros z Hz. rewrite K in Hz.
  apply Ho; try (intros ->; apply Hz; rewrite elem_of_app, !elem_of_cons; tauto).
  intros Hnz ->. apply Hz. rewrite <-K. destruct Hd as [|Hd]; [done|]. apply Hin in Hd. rewrite elem_of_cons, elem_of_app. tauto.
Qed.

(** ** Detaching what has expired *)

(** A list that ends with a null pointer. *)
Fixpoint chain (n : Z -> Z) (p : Z) (l : list Z) : Prop :=
  match l with
  | [] => p = NULL
  | x :: l => p = x /\ x <> NULL /\ chain n (n x) l
  end.

Definition due (time : Z) (l : list (Z * Z)) : list (Z * Z) := filter (fun p => p.1 <= time) l.
Definition later (time : Z) (l : list (Z * Z)) : list (Z * Z) := filter (fun p => time < p.1) l.

Lemma split_due (a b : groups) time : (forall g, g ∈ a -> g.1 <= time) -> (forall g, g ∈ b -> time < g.1) ->
  due time (flat (a ++ b)) = flat a /\ later time (flat (a ++ b)) = flat b.
Proof.
  intros Ha Hb. unfold due, later.
  assert (H : forall (P : Z * Z -> Prop) `{!forall p, Decision (P p)} l1 l2, Forall P l1 -> Forall (fun p => ~ P p) l2 ->
    filter P (l1 ++ l2) = l1 /\ filter P (l2 ++ l1) = l1).
  { intros P ? l1 l2 H1 H2. rewrite !filter_app. assert (filter P l1 = l1) as -> by (induction H1; [done|]; rewrite filter_cons_True; congruence).
    assert (filter P l2 = []) as -> by (induction H2; [done|]; rewrite filter_cons_False; done). by rewrite app_nil_r. }
  assert (Fa : Forall (fun p => p.1 <= time) (flat a)).
  { apply Forall_forall. intros p Hp. apply flat_in in Hp as (g & Hg & -> & _). auto. }
  assert (Fb : Forall (fun p => time < p.1) (flat b)).
  { apply Forall_forall. intros p Hp. apply flat_in in Hp as (g & Hg & -> & _). auto. }
  rewrite flat_append. split; apply H; auto; eapply Forall_impl; try eassumption; simpl; intros; lia.
Qed.

Lemma split_spec h id a b c time n : whole_list h id (c ++ a ++ b) -> (forall g, g ∈ a -> g.1 <= time) -> (forall g, g ∈ b -> time < g.1) ->
  (length a < n)%nat -> split_loop n h id (start_of id (a ++ b)) time = Ret (start_of id b).
Proof.
  revert c n. induction a as [|[u g] a IH]; intros c n W Ha Hb Hn; (destruct n; [simpl in Hn; lia|]); cbn [split_loop app] in *.
  - destruct (Z.eqb_spec (start_of id b) (LAST id)); [done|]. destruct (cut_facts _ _ c b W) as (_ & _ & _ & A). mem.
    destruct b as [|[u g] b]; [done|]. destruct (group_ends _ _ c u g b W) as (_ & _ & S & _).
    fold (tm h (start_of id ((u, g) :: b))). rewrite (proj2 (proj2 (wl_groups _ _ _ W (u, g) ltac:(memb)))) by done.
    rewrite (proj2 (Z.leb_gt _ _)); [done|]. apply (Hb (u, g)). left.
  - destruct (Z.eqb_spec (start_of id ((u, g) :: a ++ b)) (LAST id)) as [E|E]; [by apply (start_last _ _ _ _ W) in E|].
    destruct (cut_facts _ _ c _ W) as (_ & _ & _ & A). mem. destruct (group_ends _ _ c u g _ W) as (L & _ & S & _).
    fold (tm h (start_of id ((u, g) :: a ++ b))). rewrite (proj2 (proj2 (wl_groups _ _ _ W (u, g) ltac:(memb)))) by done.
    rewrite (proj2 (Z.leb_le _ _)) by (apply (Ha (u, g)); left).
    fold (ld h (start_of id ((u, g) :: a ++ b))). rewrite L. change ((u, g) :: a ++ b) with ([(u, g)] ++ a ++ b) in W. rewrite app_assoc in W.
    destruct (cut_facts _ _ _ _ W) as (F & _ & Ae & _). mem. fold (nx h (end_of id (c ++ [(u, g)]))). rewrite F.
    apply (IH _ _ W); [intros; apply Ha; by right|done|simpl in Hn; lia].
Qed.

Definition mark (l : list Z) (h : heap) : heap := foldl (fun h x => alter (with_list DETACHED_LIST) x h) h l.

Lemma alloc_mark l h z : alloc (mark l h) z <-> alloc h z.
Proof. revert h. induction l as [|x l IH]; intros h; [done|]. simpl. by rewrite IH, alloc_alter. Qed.

Lemma get_mark l h z : (forall x, x ∈ l -> alloc h x) ->
  get (mark l h) z = if decide (z ∈ l) then with_list DETACHED_LIST (get h z) else get h z.
Proof.
  revert h. induction l as [|x l IH]; intros h Ha; simpl; [done|]. rewrite IH by (intros; rewrite alloc_alter; apply Ha; by right).
  rewrite get_alter by (apply Ha; left). repeat case_decide; try done; set_solver.
Qed.

Lemma mark_spec l : forall n p h, chain (nx h) p l -> (forall x, x ∈ l -> alloc h x) -> (length l < n)%nat ->
  mark_loop n p h = Ret (mark l h).
Proof.
  induction l as [|x l IH]; intros n p h Hc Ha Hn; (destruct n; [simpl in Hn; lia|]); cbn [mark_loop]; simpl in Hc.
  - by rewrite Hc.
  - destruct Hc as (-> & Hx & Hc). rewrite (proj2 (Z.eqb_neq _ _) Hx). assert (A : alloc h x) by (apply Ha; left). mem.
    apply IH; [|intros; rewrite alloc_alter; apply Ha; by right|simpl in Hn; lia].
    rewrite get_alter, decide_True by done. simpl. fold (nx h x).
    assert (E : forall z, nx (alter (with_list DETACHED_LIST) x h) z = nx h z) by fields.
    clear -Hc E. revert Hc. generalize (nx h x) as p. induction l as [|y l IH]; intros p; [done|]. simpl. rewrite E. naive_solver.
Qed.

Lemma path_chain n p n' k x : (forall z, z ∈ k ++ [x] -> z <> NULL) -> (forall z, z ∈ k -> n' z = n z) -> n' x = NULL ->
  path n p (k ++ [x]) -> chain n' (hd NULL (k ++ [x])) (k ++ [x]).
Proof.
  intros Hz Hn Hx P. induction k as [|y k IH]; simpl; [split_and!; [done|apply Hz; set_solver|done]|].
  split_and!; [done|apply Hz; set_solver|]. rewrite Hn by set_solver. simpl in P.
  assert (n y = hd NULL (k ++ [x]) /\ path n p (k ++ [x])) as [-> P'] by (destruct (k ++ [x]) eqn:E; [by destruct k|tauto]).
  apply IH; [intros; apply Hz; set_solver|intros; apply Hn; set_solver|done].
Qed.

(** A list without its first groups. *)
Lemma whole_tail h h' id a b : whole_list h id (a ++ b) ->
  (forall z, z ∉ addrs a -> z <> FIRST id -> nx h' z = nx h z) -> nx h' (FIRST id) = start_of id b ->
  (forall z, pv h' z = upd (pv h) (start_of id b) (FIRST id) z) -> (forall z, ld h' z = ld h z) -> (forall z, tm h' z = tm h z) ->
  (forall z, z ∉ addrs a -> ls h' z = ls h z) -> (forall z, alloc h' z <-> alloc h z) -> whole_list h' id b.
Proof.
  intros [P N C A G S F] Hn Hf Hp Hl Hm Hls Hal. destruct (cut_list id a b) as (k1 & k2 & E1 & E2 & E3).
  assert (N2 := N). rewrite addrs_app, <-app_assoc in N2. apply NoDup_cons in N2 as [Nf N2]. apply NoDup_app in N2 as (_ & Nab & N2).
  rewrite E1 in P. apply path_pair in P as (_ & _ & _ & P). split; try done.
  - rewrite E3. split; [done|]. split; [rewrite Hp; unfold upd; by rewrite decide_True|]. rewrite E3 in *.
    revert P. apply path_right; intros z Hz.
    + apply Hn; [intros Hi; by apply (Nab z Hi)|intros ->; set_solver].
    + rewrite Hp. unfold upd. rewrite decide_False; [done|]. intros ->. by apply NoDup_cons in N2 as [N2 _].
  - constructor; [|done]. set_solver.
  - intros x Hx. rewrite Hls by (intros Hi; apply (Nab x Hi); set_solver). apply C. memb.
  - intros x Hx. apply Hal, A. rewrite addrs_app. set_solver.
  - intros g Hg. destruct (G g) as (? & R & T); [memb|]. split_and!; [done|revert R; by apply ring_ext|]. intros x Hx. rewrite Hm. auto.
  - revert S. clear. induction a as [|x a IH]; simpl; [done|]. intros S. apply IH. by apply StronglySorted_inv in S as [S _].
  - by rewrite Hm.
Qed.

(** The first groups cut off, and marked. *)
Definition cut_off (id x y : Z) (h : heap) : heap :=
  alter (with_prev (FIRST id)) y (alter (with_next y) (FIRST id) (alter (with_next NULL) x h)).

Section Detach.

Context (h : heap) (id : Z) (a b : groups).
Hypothesis W : whole_list h id (a ++ b).
Hypothesis Ha : end_of id a <> FIRST id.

Let h1 := cut_off id (end_of id a) (start_of id b) h.

#[local] Lemma cut_off_fields : alloc h (end_of id a) /\ alloc h (start_of id b) /\ alloc h (FIRST id) /\
  (forall z, nx h1 z = upd (upd (nx h) (end_of id a) NULL) (FIRST id) (start_of id b) z)
  /\ (forall z, pv h1 z = upd (pv h) (start_of id b) (FIRST id) z) /\ (forall z, ld h1 z = ld h z)
  /\ (forall z, tm h1 z = tm h z) /\ (forall z, ls h1 z = ls h z) /\ (forall z, dl h1 z = dl h z) /\ (forall z, alloc h1 z <-> alloc h z)
  /\ (forall z, z <> FIRST id -> z <> end_of id a -> z <> start_of id b -> get h1 z = get h z).
Proof.
  destruct (cut_facts _ _ a b W) as (_ & _ & A1 & A2). assert (A3 : alloc h (FIRST id)) by (apply (wl_alloc _ _ _ W); left).
  unfold h1, cut_off. split_and!; try done; try (intros; here; done); revert A1 A2 Ha; generalize (end_of id a), (start_of id b); intros x y A1 A2 Hx;
    unfold upd; fields.
Qed.

#[local] Lemma cut_off_addrs : exists k, addrs a = k ++ [end_of id a].
Proof.
  destruct (end_split id a) as [[|f k] E]; [|injection E; eauto]. injection E as E _. by rewrite E in Ha.
Qed.

#[local] Lemma in_addrs z : z ∈ addrs a -> alloc h1 z /\ z <> NULL /\ z <> FIRST id /\ z <> start_of id b.
Proof.
  intros Hz. destruct cut_off_fields as (_ & _ & _ & _ & _ & _ & _ & _ & _ & Hal & _). pose proof (wl_nodup _ _ _ W) as N.
  assert (A : alloc h z) by (apply (wl_alloc _ _ _ W); rewrite addrs_app; set_solver).
  split_and!; [by apply Hal|by destruct A|intros ->|intros ->]; rewrite addrs_app, <-app_assoc in N; parts N; [set_solver|].
  destruct (start_split id b) as [k E]. apply (D1 _ Hz). rewrite E. left.
Qed.

Lemma cut_off_chain : chain (nx h1) (start_of id (a ++ b)) (addrs a).
Proof.
  destruct cut_off_fields as (_ & _ & _ & Hn & _). destruct cut_off_addrs as [k Ek]. pose proof (wl_nodup _ _ _ W) as N.
  pose proof (wl_path _ _ _ W) as P. rewrite addrs_app, <-app_assoc in P. assert (Hd : start_of id (a ++ b) = hd NULL (addrs a)).
  { unfold start_of. rewrite addrs_app, Ek. by destruct k. }
  assert (Nk : NoDup (addrs a)) by (rewrite addrs_app, <-app_assoc in N; by parts N).
  rewrite Hd. pose proof in_addrs as Hi. rewrite Ek in *. apply (path_chain (nx h) (pv h)).
  - intros z Hz. by apply Hi.
  - intros z Hz. rewrite Hn. unfold upd. rewrite !decide_False; [done|intros ->; parts Nk; set_solver|apply Hi; set_solver].
  - rewrite Hn. unfold upd. rewrite decide_False, decide_True; [done..|]. apply Hi. set_solver.
  - rewrite <-app_assoc in P. change (FIRST id :: k ++ ?x) with ((FIRST id :: k) ++ x) in P. apply path_app in P as [P _].
    destruct k; simpl in *; tauto.
Qed.

Lemma mark_chain p l : chain (nx h1) p l -> chain (nx (mark (addrs a) h1)) p l.
Proof.
  assert (E : forall z, nx (mark (addrs a) h1) z = nx h1 z).
  { intros z. unfold nx. rewrite get_mark by (intros; by apply in_addrs). by case_decide. }
  revert p. induction l as [|x l IH]; intros p; simpl; [done|]. rewrite E. naive_solver.
Qed.

Lemma cut_off_whole : whole_list (mark (addrs a) h1) id b
  /\ same_off (FIRST id :: addrs (a ++ b) ++ [LAST id]) h (mark (addrs a) h1)
  /\ (forall z, alloc (mark (addrs a) h1) z <-> alloc h z) /\ (forall z, tm (mark (addrs a) h1) z = tm h z)
  /\ (forall z, ls (mark (addrs a) h1) z = if decide (z ∈ addrs a) then DETACHED_LIST else ls h z)
  /\ (forall z, dl (mark (addrs a) h1) z = dl h z).
Proof.
  destruct cut_off_fields as (A1 & A2 & A3 & Hn & Hp & Hl & Hm & Hls & Hdl & Hal & Ho). destruct cut_off_addrs as [k Ek].
  assert (G : forall z, get (mark (addrs a) h1) z = if decide (z ∈ addrs a) then with_list DETACHED_LIST (get h1 z) else get h1 z).
  { intros z. apply get_mark. intros x Hx. by apply in_addrs. }
  assert (Hal' : forall z, alloc (mark (addrs a) h1) z <-> alloc h z) by (intros z; by rewrite alloc_mark).
  assert (Hf : FIRST id ∉ addrs a) by (intros Hf; by apply in_addrs in Hf as (_ & _ & ? & _)).
  split; [apply (whole_tail h _ id a b W)|split_and!]; auto.
  - intros z Hz Hz'. unfold nx at 1. rewrite G, decide_False by done. fold (nx h1 z). rewrite Hn. unfold upd.
    rewrite !decide_False; [done| |done]. intros ->. apply Hz. rewrite Ek. set_solver.
  - unfold nx. rewrite G, decide_False by done. fold (nx h1 (FIRST id)). rewrite Hn. unfold upd. by rewrite decide_True.
  - intros z. rewrite <-Hp. unfold pv. rewrite G. by case_decide.
  - intros z. rewrite <-Hl. unfold ld. rewrite G. by case_decide.
  - intros z. rewrite <-Hm. unfold tm. rewrite G. by case_decide.
  - intros z Hz. rewrite <-Hls. unfold ls. rewrite G. by rewrite decide_False.
  - intros z Hz. destruct (start_split id b) as [k2 E2]. rewrite addrs_app, <-app_assoc, E2 in Hz.
    rewrite G, decide_False by set_solver. apply Ho; [set_solver| |set_solver]. intros ->. apply Hz. rewrite Ek. set_solver.
  - intros z. rewrite <-Hm. unfold tm. rewrite G. by case_decide.
  - intros z. rewrite <-Hls. unfold ls. rewrite G. by case_decide.
  - intros z. rewrite <-Hdl. unfold dl. rewrite G. by case_decide.
Qed.

End Detach.

Lemma split_list h id gs time : whole_list h id gs ->
  exists ret h' gs', check_and_split_time_list id time h = Ret (ret, h') /\ whole_list h' id gs' /\ flat gs' = later time (flat gs)
  /\ chain (nx h') ret (map snd (due time (flat gs))) /\ same_off (FIRST id :: addrs gs ++ [LAST id]) h h'
  /\ (forall z, alloc h' z <-> alloc h z) /\ (forall z, tm h' z = tm h z)
  /\ (forall z, ls h' z = if decide (z ∈ map snd (due time (flat gs))) then DETACHED_LIST else ls h z)
  /\ (forall z, dl h' z = dl h z).
Proof.
  intros W. destruct (cut_time _ _ time gs W) as (a & b & -> & Ha & Hb). destruct (split_due a b time Ha Hb) as [-> ->].
  rewrite flat_addrs. destruct (cut_facts _ _ [] (a ++ b) W) as (Ff & _ & Af & As). change (end_of id []) with (FIRST id) in *.
  unfold check_and_split_time_list. mem. fold (nx h (FIRST id)). rewrite Ff. mem. fold (tm h (start_of id (a ++ b))).
  destruct a as [|[u g] a'].
  - replace (_ || _) with true.
    { exists NULL, h, b. split_and!; done. }
    symmetry. destruct b as [|[u g] b]; [by rewrite Z.eqb_refl|]. simpl app in *. destruct (group_ends _ _ [] u g b W) as (_ & _ & S & _).
    rewrite (proj2 (proj2 (wl_groups _ _ _ W (u, g) ltac:(memb)))) by done. specialize (Hb (u, g) ltac:(left)). simpl in *.
    apply orb_true_iff. right. lia.
  - destruct (group_ends _ _ [] u g (a' ++ b) W) as (_ & _ & S & _).
    change ((u, g) :: a' ++ b) with (((u, g) :: a') ++ b) in S. revert W Ha Ff As S. set (a := (u, g) :: a'). intros W Ha Ff As S.
    replace (_ || _) with false.
    2: { symmetry. apply orb_false_iff. split; [apply Z.eqb_neq; intros E; by apply (start_last _ _ [] _ W) in E|].
      rewrite (proj2 (proj2 (wl_groups _ _ _ W (u, g) ltac:(left)))) by done. specialize (Ha (u, g) ltac:(left)). simpl in *. lia. }
    destruct (cut_facts _ _ a b W) as (F1 & F2 & A1 & A2). rewrite (split_spec h id a b [] time) by
      (auto; pose proof (length_groups _ _ _ W); rewrite length_app in *; unfold fuel; lia).
    cbn [mbind res_bind]. mem. fold (pv h (start_of id b)). rewrite F2.
    destruct (Z.eqb_spec (end_of id a) (FIRST id)) as [E|E]; [by apply (end_first _ _ _ _ W) in E|]. mem.
    fold (cut_off id (end_of id a) (start_of id b) h).
    destruct (cut_off_whole h id a b W E) as (W' & Ho & Hal & Hm & Hls & Hdl).
    pose proof (cut_off_chain h id a b W E) as Hc.
    assert (Hi : forall x, x ∈ addrs a -> alloc (cut_off id (end_of id a) (start_of id b) h) x) by (intros x Hx; by apply (in_addrs h id a b W E)).
    rewrite (mark_spec (addrs a)); [|done|done|].
    2: { apply Nat.lt_succ_r, length_alloc; [|done]. pose proof (wl_nodup _ _ _ W) as N. rewrite addrs_app, <-app_assoc in N. by parts N. }
    cbn [mbind res_bind]. eexists _, _, b. split_and!; [reflexivity|done..|by apply mark_chain| | | | |]; auto.
Qed.

End TmTimerSpec.
