(* ===== verification/TmSched.v ===== *)
(** * A schedule for the timers of transactions

    What the timer lists promise: for every list the timers that run on it, in the order of
    their expiry and of their insertion, and for every timer whether it was never set, is
    idle, runs or has been taken by the timer process.  All sequences of operations on the
    linked lists return and do what the schedule says. *)

From Stdlib Require Import ZArith Lia List String Ascii Bool Sorted.
From stdpp Require Import base tactics option list gmap sets.
From S2P Require Import Prelude TmTimer TmTimerSpec.

Module TmSched.
Import TmTimer TmTimerSpec.

Inductive phase : Type := Unset | Idle | On (id : Z) | Taken.

#[export] Instance phase_eq : EqDecision phase.
Proof. solve_decision. Defined.

(** The timers of each list, and each timer's phase and whether it has been reset. *)
Record sched : Type := Sched {
  on : Z -> list (Z * Z);
  phases : gmap Z (phase * bool)
}.

Definition s_new (p : Z) (s : sched) : sched := Sched (on s) (<[p := (Unset, false)]> (phases s)).

Definition s_put (p id t : Z) (s : sched) : sched :=
  Sched (fun i => if decide (i = id) then sinsert t p (on s i) else on s i) (<[p := (On id, false)]> (phases s)).

Definition s_remove (p : Z) (s : sched) : sched :=
  match phases s !! p with
  | Some (On _, b) => Sched (fun i => without p (on s i)) (<[p := (Idle, b)]> (phases s))
  | _ => s
  end.

Definition s_set (p id t : Z) (s : sched) : sched :=
  if id >=? NR_OF_TIMER_LISTS then s
  else match phases s !! p with
       | Some (Taken, _) | None => s
       | _ => s_put p id t (s_remove p s)
       end.

Definition s_set1 (p id t : Z) (s : sched) : sched :=
  if id >=? NR_OF_TIMER_LISTS then s
  else match phases s !! p with Some (Unset, _) => s_put p id t s | _ => s end.

Definition s_reset (p : Z) (s : sched) : sched := Sched (on s) (alter (fun x => (x.1, true)) p (phases s)).

Definition s_split (id time : Z) (s : sched) : sched :=
  Sched (fun i => if decide (i = id) then later time (on s i) else on s i)
    (map_imap (fun p x => Some (if decide (p ∈ map snd (due time (on s id))) then (Taken, x.2) else x)) (phases s)).

Definition s_unlink (t : cell_timers) (s : sched) : sched :=
  foldl (fun s p => s_remove p s) s ((uas_retr t :: pairs (uac_retr t)) ++ (uas_fr t :: pairs (uac_fr t))).

(** A deleted transaction that is still referenced waits on the deletion list again. *)
Definition s_delete (t : cell_timers) (reffed : bool) (e : Z) (s : sched) : sched :=
  let s := s_unlink t s in
  if reffed then s_put (dele_tl t) DELETE_LIST e s
  else Sched (on s) (foldr delete (phases s) (links t)).

(** ** The representation *)

Definition in_phase (h : heap) (G : Z -> groups) (p : Z) (ph : phase) : Prop :=
  match ph with
  | Unset => ls h p = NULL /\ tm h p = 0
  | Idle => ls h p = NULL /\ 0 < tm h p
  | On id => 0 <= id < NR_OF_TIMER_LISTS /\ p ∈ addrs (G id)
  | Taken => ls h p = DETACHED_LIST /\ 0 < tm h p
  end.

Record rep (h : heap) (s : sched) (G : Z -> groups) : Prop := Rep {
  rep_lists : forall id, 0 <= id < NR_OF_TIMER_LISTS -> whole_list h id (G id);
  rep_on : forall id, 0 <= id < NR_OF_TIMER_LISTS -> flat (G id) = on s id;
  rep_none : forall p, 0 < p -> phases s !! p = None -> h !! p = None;
  rep_some : forall p ph b, phases s !! p = Some (ph, b) -> 0 < p /\ alloc h p /\ dl h p = b /\ in_phase h G p ph
}.

(** A link is in the list it says. *)
Lemma in_lists h s G p ph b id : rep h s G -> phases s !! p = Some (ph, b) -> 0 <= id < NR_OF_TIMER_LISTS ->
  p ∈ addrs (G id) <-> ph = On id.
Proof.
  intros R Hp Hid. destruct (rep_some _ _ _ R p ph b Hp) as (_ & _ & _ & H). split; [|intros ->; apply H].
  intros Hi. destruct (wl_cells _ _ _ (rep_lists _ _ _ R id Hid) p Hi) as [_ L]. unfold list_of in L.
  destruct ph as [| |id'|]; simpl in H; unfold NULL, DETACHED_LIST in H; [lia|lia| |lia].
  destruct H as [Hid' Hi']. destruct (wl_cells _ _ _ (rep_lists _ _ _ R id' Hid') p Hi') as [_ L'].
  unfold list_of in L'. f_equal. lia.
Qed.

Lemma lists_apart h id id' gs gs' z : 0 <= id -> 0 <= id' -> id <> id' -> whole_list h id gs -> whole_list h id' gs' ->
  z ∈ FIRST id' :: addrs gs' ++ [LAST id'] -> z ∉ FIRST id :: addrs gs ++ [LAST id].
Proof.
  intros H0 H0' Hne W W'. rewrite !elem_of_cons, !elem_of_app, !list_elem_of_singleton. unfold FIRST, LAST.
  intros [->|[Hz| ->]] [E|[Hz'|E]]; try lia;
    repeat match goal with
    | W : whole_list h ?i ?g, H : _ ∈ addrs ?g |- _ => apply (wl_cells _ _ _ W) in H; unfold list_of in H end; lia.
Qed.

(** ** Simulation *)

(** One list changes, the others stay. *)
Definition at_list (G : Z -> groups) (id : Z) (gs : groups) : Z -> groups := fun i => if decide (i = id) then gs else G i.

Lemma lists_step h h' s G id gs k : rep h s G -> 0 <= id < NR_OF_TIMER_LISTS -> whole_list h' id gs -> same_off k h h' ->
  (forall z, alloc h' z <-> alloc h z) -> (forall z, z ∈ k -> z ∈ FIRST id :: addrs (G id) ++ [LAST id] \/
    0 < z /\ forall i, 0 <= i < NR_OF_TIMER_LISTS -> z ∉ addrs (G i)) ->
  forall i, 0 <= i < NR_OF_TIMER_LISTS -> whole_list h' i (at_list G id gs i).
Proof.
  intros R Hid W Ho Ha Hk i Hi. unfold at_list. case_decide; [by subst|]. apply (whole_off h h' k); auto; [|by apply (rep_lists _ _ _ R)].
  intros z Hz Hzk. destruct (Hk z Hzk) as [Hp|[H0 Hn]].
  - revert Hp. apply (lists_apart h id i (G id) (G i)); auto; [lia|lia|apply (rep_lists _ _ _ R); lia|by apply (rep_lists _ _ _ R)].
  - rewrite elem_of_cons, elem_of_app, list_elem_of_singleton in Hz. unfold FIRST, LAST in Hz.
    destruct Hz as [->|[Hz| ->]]; [lia|by apply (Hn i)|lia].
Qed.

Lemma alloc_none h h' p : p <> NULL -> (forall z, alloc h' z <-> alloc h z) -> h !! p = None -> h' !! p = None.
Proof.
  intros Hp Ha E. apply eq_None_not_Some. intros Hs. assert (alloc h' p) as [_ [? E']]%Ha by done. by rewrite E in E'.
Qed.

Lemma sinsert_in t x l p : p ∈ map snd (sinsert t x l) <-> p = x \/ p ∈ map snd l.
Proof.
  induction l as [|[u y] l IH]; simpl; [set_solver|]. destruct (t <? u); simpl; set_solver.
Qed.

Lemma without_in x l p : p ∈ map snd (without x l) <-> p <> x /\ p ∈ map snd l.
Proof.
  unfold without. rewrite !list_elem_of_In, !in_map_iff. setoid_rewrite <-list_elem_of_In. setoid_rewrite list_elem_of_filter. naive_solver.
Qed.

(** The links other than [p] are where they were. *)
Lemma phase_keeps h h' G G' q ph : ls h' q = ls h q -> tm h' q = tm h q ->
  (forall id, 0 <= id < NR_OF_TIMER_LISTS -> q ∈ addrs (G id) -> q ∈ addrs (G' id)) -> in_phase h G q ph -> in_phase h' G' q ph.
Proof. intros Hl Hm Hg. destruct ph; simpl; rewrite ?Hl, ?Hm; try done. intros [? ?]. auto. Qed.

Lemma sim_put h s G p id t ph b : rep h s G -> 0 <= id < NR_OF_TIMER_LISTS -> 0 < t -> phases s !! p = Some (ph, b) ->
  (forall i, ph <> On i) -> exists h' G', insert_timer_unsafe id p t h = Ret h' /\ rep h' (s_put p id t s) G'.
Proof.
  intros R Hid Ht Hp Hph. destruct (rep_some _ _ _ R p ph b Hp) as (H0 & Ap & _ & _).
  assert (Hn : forall i, 0 <= i < NR_OF_TIMER_LISTS -> p ∉ addrs (G i)).
  { intros i Hi Hin. apply (in_lists _ _ _ _ _ _ _ R Hp Hi) in Hin. by apply (Hph i). }
  destruct (insert_list h id (G id) p t) as (h' & gs & E & W & Ef & Ho & Ha & Hm & Hl & Hd); auto; [lia|by apply (rep_lists _ _ _ R)|].
  exists h', (at_list G id gs). split; [done|].
  assert (Hadd : forall q, q ∈ addrs gs <-> q = p \/ q ∈ addrs (G id)) by (intros q; by rewrite <-!flat_addrs, Ef, sinsert_in).
  split.
  - apply (lists_step _ _ _ _ _ _ _ R Hid W Ho Ha). intros z [->|Hz]%elem_of_cons; auto.
  - intros i Hi. unfold at_list. simpl. case_decide; [subst; by rewrite Ef, (rep_on _ _ _ R)|by apply (rep_on _ _ _ R)].
  - intros q Hq. simpl. rewrite lookup_insert. case_decide; [done|]. intros Hs. apply (alloc_none h); [unfold NULL; lia|done|].
    by apply (rep_none _ _ _ R).
  - intros q ph' b'. simpl. rewrite lookup_insert. case_decide as Eq.
    + intros [= <- <-]. subst q. split_and!; [done|by apply Ha|rewrite Hd; by rewrite decide_True|].
      split; [done|]. unfold at_list. rewrite decide_True by done. apply Hadd. by left.
    + intros Hq. destruct (rep_some _ _ _ R q ph' b' Hq) as (Hq0 & Aq & Dq & Pq). split_and!; [done|by apply Ha|rewrite Hd; by rewrite decide_False|].
      revert Pq. apply phase_keeps; [rewrite Hl; unfold upd; by rewrite decide_False|rewrite Hm; unfold upd; by rewrite decide_False|].
      intros i Hi Hin. unfold at_list. case_decide; [|done]. subst. apply Hadd. by right.
Qed.

(** A timer that is in no list is left alone by a removal. *)
Lemma remove_out h s G p ph b : rep h s G -> phases s !! p = Some (ph, b) -> (forall i, ph <> On i) ->
  is_in_timer_list2 (get h p) = false /\ remove_timer_unsafe p h = Ret h.
Proof.
  intros R Hp Hph. destruct (rep_some _ _ _ R p ph b Hp) as (H0 & Ap & _ & P).
  assert (E : is_in_timer_list2 (get h p) = false).
  { unfold is_in_timer_list2. fold (ls h p). destruct ph; simpl in P; [| |by destruct (Hph id)|]; destruct P as [-> _]; done. }
  split; [done|]. unfold remove_timer_unsafe. mem. by rewrite E.
Qed.

Lemma sim_remove h s G p : rep h s G -> is_Some (phases s !! p) ->
  exists h' G', remove_timer_unsafe p h = Ret h' /\ rep h' (s_remove p s) G'.
Proof.
  intros R [[ph b] Hp]. unfold s_remove. rewrite Hp.
  destruct ph as [| |id|]; try (exists h, G; split; [by eapply remove_out|done]).
  destruct (rep_some _ _ _ R p _ b Hp) as (H0 & Ap & Db & [Hid Hin]).
  destruct (remove_list h id (G id) p) as (h' & gs & E & W & Ef & Ho & Ha & Hm & Hl & Hd); [lia|by apply (rep_lists _ _ _ R)|done|].
  exists h', (at_list G id gs). split; [done|].
  assert (Hadd : forall q, q ∈ addrs gs <-> q <> p /\ q ∈ addrs (G id)) by (intros q; by rewrite <-!flat_addrs, Ef, without_in).
  split.
  - apply (lists_step _ _ _ _ _ _ _ R Hid W Ho Ha). auto.
  - intros i Hi. unfold at_list. simpl. case_decide; [subst; by rewrite Ef, (rep_on _ _ _ R)|]. rewrite (rep_on _ _ _ R) by done.
    symmetry. apply without_none. rewrite <-(rep_on _ _ _ R), flat_addrs by done. rewrite (in_lists _ _ _ _ _ _ _ R Hp Hi). congruence.
  - intros q Hq. simpl. rewrite lookup_insert. case_decide; [done|]. intros Hs. apply (alloc_none h); [unfold NULL; lia|done|].
    by apply (rep_none _ _ _ R).
  - intros q ph' b'. simpl. rewrite lookup_insert. case_decide as Eq.
    + intros [= <- <-]. subst q. split_and!; [done|by apply Ha|by rewrite Hd|]. simpl. rewrite Hl, Hm. unfold upd.
      rewrite decide_True by done. split; [done|]. apply addrs_in in Hin as (g & Hg & Hpg).
      destruct (wl_groups _ _ _ (rep_lists _ _ _ R id Hid) g Hg) as (? & _ & T). by rewrite (T p).
    + intros Hq. destruct (rep_some _ _ _ R q ph' b' Hq) as (Hq0 & Aq & Dq & Pq). split_and!; [done|by apply Ha|by rewrite Hd|].
      revert Pq. apply phase_keeps; [rewrite Hl; unfold upd; by rewrite decide_False|by rewrite Hm|].
      intros i Hi Hin'. unfold at_list. case_decide; [|done]. subst. by apply Hadd.
Qed.

(** After a removal the timer is in no list. *)
Lemma removed_phase s p ph b : phases s !! p = Some (ph, b) -> ph <> Taken ->
  exists ph', phases (s_remove p s) !! p = Some (ph', b) /\ (forall i, ph' <> On i).
Proof.
  intros Hp Ht. unfold s_remove. rewrite Hp. destruct ph; try (eexists; by split).
  exists Idle. simpl. by rewrite lookup_insert_eq.
Qed.

Lemma sim_split h s G id time : rep h s G -> 0 <= id < NR_OF_TIMER_LISTS ->
  exists ret h' G', check_and_split_time_list id time h = Ret (ret, h') /\ rep h' (s_split id time s) G'
  /\ chain (nx h') ret (map snd (due time (on s id))).
Proof.
  intros R Hid. destruct (split_list h id (G id) time) as (ret & h' & gs & E & W & Ef & Hc & Ho & Ha & Hm & Hl & Hd); [by apply (rep_lists _ _ _ R)|].
  rewrite (rep_on _ _ _ R id Hid) in *. exists ret, h', (at_list G id gs). split; [done|]. split; [|done].
  assert (Hdue : forall q, q ∈ map snd (due time (on s id)) -> q ∈ addrs (G id)).
  { intros q. rewrite <-flat_addrs, (rep_on _ _ _ R id Hid). rewrite !list_elem_of_In, !in_map_iff. setoid_rewrite <-list_elem_of_In.
    unfold due. setoid_rewrite list_elem_of_filter. naive_solver. }
  assert (Hlat : forall q, q ∈ addrs (G id) -> q ∉ map snd (due time (on s id)) -> q ∈ addrs gs).
  { intros q. rewrite <-!flat_addrs, (rep_on _ _ _ R id Hid), Ef, !list_elem_of_In, !in_map_iff. setoid_rewrite <-list_elem_of_In.
    unfold due, later. setoid_rewrite list_elem_of_filter. intros (p & <- & Hp) Hn. exists p. split_and!; [done| |done].
    destruct (Z.lt_ge_cases time p.1); [done|]. exfalso. apply Hn. by exists p. }
  split.
  - apply (lists_step _ _ _ _ _ _ _ R Hid W Ho Ha). auto.
  - intros i Hi. unfold at_list. simpl. case_decide; [by subst|by apply (rep_on _ _ _ R)].
  - intros q Hq. simpl. rewrite map_lookup_imap. destruct (phases s !! q) eqn:Eq; [done|]. intros _.
    apply (alloc_none h); [unfold NULL; lia|done|]. by apply (rep_none _ _ _ R).
  - intros q ph' b'. simpl. rewrite map_lookup_imap. destruct (phases s !! q) as [[ph b]|] eqn:Eq; [|done]. simpl.
    destruct (rep_some _ _ _ R q ph b Eq) as (Hq0 & Aq & Dq & Pq). case_decide as Eqd; intros [= <- <-]; (split_and!; [done|by apply Ha|by rewrite Hd|]).
    + simpl. rewrite Hl, Hm, decide_True by done. split; [done|]. apply Hdue, addrs_in in Eqd as (g & Hg & Hpg).
      destruct (wl_groups _ _ _ (rep_lists _ _ _ R id Hid) g Hg) as (? & _ & T). by rewrite (T q).
    + revert Pq. apply phase_keeps; [by rewrite Hl, decide_False|by rewrite Hm|].
      intros i Hi Hin. unfold at_list. case_decide; [|done]. subst. auto.
Qed.

Section Timers.

Context (timer_id2timeout ticks : Z -> Z).
Abbreviation expiry := (expiry timer_id2timeout ticks).

Lemma sim_set h s G p id ext : rep h s G -> is_Some (phases s !! p) -> 0 <= id -> (id < NR_OF_TIMER_LISTS -> 0 < expiry id ext) ->
  exists h' G', set_timer timer_id2timeout ticks p id ext h = Ret h' /\ rep h' (s_set p id (expiry id ext) s) G'.
Proof.
  intros R [[ph b] Hp] Hid He. unfold set_timer, s_set. destruct (Z.geb_spec id NR_OF_TIMER_LISTS) as [L|L]; [by exists h, G|].
  destruct (rep_some _ _ _ R p ph b Hp) as (H0 & Ap & _ & P). mem. fold (ls h p). rewrite Hp.
  destruct (decide (ph = Taken)) as [->|Hph]; [destruct P as [-> _]; by exists h, G|].
  rewrite (proj2 (Z.eqb_neq (ls h p) DETACHED_LIST)).
  2: { unfold DETACHED_LIST. destruct ph as [| |i|]; simpl in P; try (destruct P as [-> _]; done); try done.
    destruct P as [Hi P]. apply (wl_cells _ _ _ (rep_lists _ _ _ R i Hi)) in P as [_ ->]. unfold list_of. lia. }
  destruct (sim_remove h s G p R ltac:(eauto)) as (h1 & G1 & -> & R1). destruct (removed_phase s p ph b Hp Hph) as (ph' & Hp' & Hn).
  destruct (sim_put h1 _ G1 p id (expiry id ext) ph' b R1 ltac:(lia) (He L) Hp' Hn) as (h2 & G2 & E2 & R2).
  exists h2, G2. split; [done|]. by destruct ph.
Qed.

Lemma sim_set1 h s G p id ext : rep h s G -> is_Some (phases s !! p) -> 0 <= id -> (id < NR_OF_TIMER_LISTS -> 0 < expiry id ext) ->
  exists h' G', set_1timer timer_id2timeout ticks p id ext h = Ret h' /\ rep h' (s_set1 p id (expiry id ext) s) G'.
Proof.
  intros R [[ph b] Hp] Hid He. unfold set_1timer, s_set1. destruct (Z.geb_spec id NR_OF_TIMER_LISTS) as [L|L]; [by exists h, G|].
  destruct (rep_some _ _ _ R p ph b Hp) as (H0 & Ap & _ & P). mem. fold (tm h p). rewrite Hp.
  destruct ph as [| |i|]; simpl in P.
  - destruct P as [_ ->]. by apply (sim_put h s G p id _ Unset b R); auto; lia.
  - rewrite (proj2 (Z.eqb_neq _ _)) by lia. by exists h, G.
  - destruct P as [Hi P]. apply addrs_in in P as (g & Hg & Hpg). destruct (wl_groups _ _ _ (rep_lists _ _ _ R i Hi) g Hg) as (? & _ & T).
    rewrite (T p Hpg), (proj2 (Z.eqb_neq _ _)) by lia. by exists h, G.
  - rewrite (proj2 (Z.eqb_neq _ _)) by lia. by exists h, G.
Qed.

(** Links whose pointers and times stay. *)
Lemma rep_links h h' s s' G : rep h s G -> (forall z, same_link h h' z) -> (forall z, alloc h' z <-> alloc h z) ->
  on s' = on s -> (forall p, phases s' !! p = (fun x => (x.1, dl h' p)) <$> phases s !! p) -> rep h' s' G.
Proof.
  intros R Hl Ha Ho Hp. split.
  - intros id Hid. apply (whole_links h); [|by apply (rep_lists _ _ _ R)]. intros z _. split; [done|by rewrite Ha].
  - rewrite Ho. apply (rep_on _ _ _ R).
  - intros p H0. rewrite Hp. destruct (phases s !! p) eqn:E; [done|]. intros _. apply (alloc_none h); [unfold NULL; lia|done|].
    by apply (rep_none _ _ _ R).
  - intros p ph b. rewrite Hp. destruct (phases s !! p) as [[ph' b']|] eqn:E; [|done]. intros [= <- <-].
    destruct (rep_some _ _ _ R p ph' b' E) as (H0 & Ap & _ & P). split_and!; [done|by apply Ha|done|].
    revert P. destruct (Hl p) as (_ & _ & _ & Hm & Hls). by apply phase_keeps.
Qed.

Lemma sim_reset h s G p : rep h s G -> is_Some (phases s !! p) -> exists h', reset_timer p h = Ret h' /\ rep h' (s_reset p s) G.
Proof.
  intros R [[ph b] Hp]. destruct (rep_some _ _ _ R p ph b Hp) as (_ & Ap & _). unfold reset_timer. mem. eexists. split; [done|].
  apply (rep_links h _ s); auto; [intros z; unfold same_link; split_and!; fields|intros; here; done|].
  intros q. simpl. rewrite lookup_alter. unfold dl. rewrite get_alter by done. destruct (decide (q = p)) as [->|Hq]; case_decide; try done.
  destruct (phases s !! q) as [[ph' b']|] eqn:E; [|done]. destruct (rep_some _ _ _ R q ph' b' E) as (_ & _ & <- & _). done.
Qed.

(** A link that no list has may change its pointers. *)
Lemma rep_taken h f s s' G p ph b ph' : rep h s G -> phases s !! p = Some (ph, b) -> (forall i, ph <> On i) -> on s' = on s ->
  phases s' = <[p := (ph', b)]> (phases s) -> (forall c, deleted (f c) = deleted c) ->
  in_phase (alter f p h) G p ph' -> rep (alter f p h) s' G.
Proof.
  intros R Hp Hn Ho Hs Hf P. destruct (rep_some _ _ _ R p ph b Hp) as (H0 & Ap & Db & _).
  assert (Hoff : forall z, z <> p -> get (alter f p h) z = get h z) by (intros z Hz; by rewrite get_alter, decide_False).
  split.
  - intros id Hid. apply (whole_ext h); [|by apply (rep_lists _ _ _ R)]. intros z Hz. rewrite alloc_alter. split; [|done]. apply Hoff.
    intros ->. rewrite elem_of_cons, elem_of_app, list_elem_of_singleton in Hz. unfold FIRST, LAST in Hz.
    destruct Hz as [?|[Hz|?]]; [lia| |lia]. apply (in_lists _ _ _ _ _ _ _ R Hp Hid) in Hz. by apply (Hn id).
  - rewrite Ho. apply (rep_on _ _ _ R).
  - intros q Hq. rewrite Hs, lookup_insert. case_decide; [done|]. intros Hs'. rewrite lookup_alter_ne by done. by apply (rep_none _ _ _ R).
  - intros q ph1 b1. rewrite Hs, lookup_insert, alloc_alter. case_decide as Eq.
    + intros [= <- <-]. subst q. split_and!; [done..| |done]. unfold dl. rewrite get_alter, decide_True, Hf by done. done.
    + intros Hq. destruct (rep_some _ _ _ R q ph1 b1 Hq) as (Hq0 & Aq & Dq & Pq). unfold dl. rewrite Hoff by done. split_and!; [done..|].
      revert Pq. apply phase_keeps; [unfold ls; by rewrite Hoff|unfold tm; by rewrite Hoff|done].
Qed.

Lemma sim_next h s G p b : rep h s G -> phases s !! p = Some (Taken, b) ->
  exists h', next_detached p h = Ret (negb b, nx h p, h') /\ rep h' s G.
Proof.
  intros R Hp. destruct (rep_some _ _ _ R p _ b Hp) as (_ & Ap & <- & P). unfold next_detached. mem. eexists. split; [done|].
  eapply (rep_taken h _ s s G p Taken (dl h p) Taken); auto; [by rewrite insert_id|]. revert P. apply phase_keeps; try done; fields.
Qed.

Lemma sim_new h s G p : rep h s G -> 0 < p -> phases s !! p = None -> rep (new_link p h) (s_new p s) G.
Proof.
  intros R H0 Hp. assert (Hn : forall z, z <> p -> get (new_link p h) z = get h z /\ (alloc (new_link p h) z <-> alloc h z)).
  { intros z Hz. unfold get, new_link, alloc. by rewrite lookup_insert_ne. }
  assert (Hz : ~ alloc h p) by (intros [_ [c E]]; by rewrite (rep_none _ _ _ R p H0 Hp) in E).
  assert (Hg : get (new_link p h) p = Tl NULL NULL NULL 0 NULL false) by (unfold get, new_link; by rewrite lookup_insert_eq).
  split.
  - intros id Hid. apply (whole_ext h); [|by apply (rep_lists _ _ _ R)]. intros z Hi.
    assert (z <> p) as Hne by (intros ->; apply Hz, (wl_alloc _ _ _ (rep_lists _ _ _ R id Hid)), Hi). destruct (Hn z Hne) as [? Ha].
    split; [done|by rewrite Ha].
  - apply (rep_on _ _ _ R).
  - intros q Hq. simpl. rewrite lookup_insert. case_decide; [done|]. intros Hs. unfold new_link. rewrite lookup_insert_ne by done.
    by apply (rep_none _ _ _ R).
  - intros q ph b. simpl. rewrite lookup_insert. case_decide as Eq.
    + intros [= <- <-]. subst q. unfold dl, in_phase, ls, tm. rewrite Hg. split_and!; [done| |done..].
      split; [unfold NULL; lia|]. unfold new_link. rewrite lookup_insert_eq. eauto.
    + intros Hq. destruct (rep_some _ _ _ R q ph b Hq) as (Hq0 & Aq & Dq & Pq). destruct (Hn q ltac:(done)) as [G1 A1].
      split_and!; [done|by apply A1|unfold dl; by rewrite G1|]. revert Pq. apply phase_keeps; [unfold ls; by rewrite G1|unfold tm; by rewrite G1|done].
Qed.

Lemma sim_rearm h s G p id ph b : rep h s G -> phases s !! p = Some (ph, b) -> (forall i, ph <> On i) -> 0 <= id < NR_OF_TIMER_LISTS ->
  0 < expiry id None -> exists h' G', rearm timer_id2timeout ticks p id h = Ret h' /\ rep h' (s_put p id (expiry id None) s) G'.
Proof.
  intros R Hp Hn Hid He. destruct (rep_some _ _ _ R p _ b Hp) as (_ & Ap & Db & P). unfold rearm. mem.
  set (ph' := if decide (tm h p = 0) then Unset else Idle).
  assert (R' : rep (alter (with_list NULL) p h) (Sched (on s) (<[p := (ph', b)]> (phases s))) G).
  { apply (rep_taken h _ s _ G p ph b ph'); auto. assert (E : ls (alter (with_list NULL) p h) p = NULL) by fields.
    assert (E' : tm (alter (with_list NULL) p h) p = tm h p) by fields. unfold ph'. case_decide; simpl; rewrite E, E'; [done|].
    split; [done|]. destruct ph as [| |i|]; simpl in P; [lia|lia|by destruct (Hn i)|lia]. }
  destruct (sim_set _ _ _ p id None R') as (h' & G' & E & R2); [simpl; rewrite lookup_insert_eq; eauto|lia|done|].
  exists h', G'. split; [done|]. revert R2. unfold s_set. simpl. rewrite lookup_insert_eq.
  replace (id >=? NR_OF_TIMER_LISTS) with false by lia. unfold ph', s_put, s_remove. simpl. rewrite lookup_insert_eq.
  case_decide; simpl; by rewrite insert_insert_eq.
Qed.

(** *** Deleting a transaction *)

Definition known (s : sched) (p : Z) : Prop := is_Some (phases s !! p).
Definition off (s : sched) (p : Z) : Prop := forall i b, phases s !! p <> Some (On i, b).

Lemma remove_known s p q : known s q -> known (s_remove p s) q.
Proof. unfold known, s_remove. destruct (phases s !! p) as [[[| |i|] b]|]; try done. simpl. rewrite lookup_insert. case_decide; eauto. Qed.

Lemma remove_off s p q : q = p \/ off s q -> off (s_remove p s) q.
Proof.
  unfold off, s_remove. intros H i b. destruct (phases s !! p) as [[[| |j|] b']|] eqn:E; simpl; rewrite ?lookup_insert; try case_decide;
    destruct H as [->|H]; try congruence; auto.
Qed.

Lemma remove_id s p : off s p -> s_remove p s = s.
Proof. unfold off, s_remove. intros H. destruct (phases s !! p) as [[[| |j|] b']|] eqn:E; try done. by destruct (H j b'). Qed.

Abbreviation s_removes := (foldl (fun s p => s_remove p s)).

Lemma removes_known l : forall s q, known s q -> known (s_removes s l) q.
Proof. induction l as [|p l IH]; intros s q H; [done|]. by apply IH, remove_known. Qed.

Lemma removes_off l : forall s q, q ∈ l \/ off s q -> off (s_removes s l) q.
Proof.
  induction l as [|p l IH]; intros s q; simpl; [set_solver|]. intros H. apply IH.
  destruct H as [[->|H]%elem_of_cons|H]; [right|by left|right]; apply remove_off; auto.
Qed.

Lemma removes_id l s : (forall p, p ∈ l -> off s p) -> s_removes s l = s.
Proof. induction l as [|p l IH]; intros H; simpl; [done|]. rewrite remove_id by (apply H; left). apply IH. intros q Hq. apply H. by right. Qed.

Lemma sim_remove_all l : forall h s G, rep h s G -> (forall p, p ∈ l -> known s p) ->
  exists h' G', remove_all l h = Ret h' /\ rep h' (s_removes s l) G'.
Proof.
  induction l as [|p l IH]; intros h s G R Hk; [by exists h, G|]. destruct (sim_remove h s G p R) as (h1 & G1 & E1 & R1); [apply Hk; left|].
  destruct (IH h1 _ G1 R1) as (h2 & G2 & E2 & R2); [intros q Hq; apply remove_known, Hk; by right|].
  exists h2, G2. split; [|done]. simpl. by rewrite E1.
Qed.

Lemma any_spec l h s G : rep h s G -> (forall p, p ∈ l -> known s p) ->
  exists b, any_in_list h l = Ret b /\ (b = false -> forall p, p ∈ l -> off s p).
Proof.
  intros R. induction l as [|p l IH]; intros Hk; [exists false; split; [done|set_solver]|].
  destruct (Hk p ltac:(left)) as [[ph b] Hp]. destruct (rep_some _ _ _ R p ph b Hp) as (_ & Ap & _).
  cbn [any_in_list]. unfold in_list. mem. destruct (is_in_timer_list2 (get h p)) eqn:E; [by exists true|].
  destruct IH as (b' & -> & Hb); [intros q Hq; apply Hk; by right|]. exists b'. split; [done|].
  intros Hf q [->|Hq]%elem_of_cons; [|by apply Hb]. intros i bb Hi. rewrite Hp in Hi. injection Hi as -> _.
  destruct (rep_some _ _ _ R p _ b Hp) as (_ & _ & _ & [Hid Hin]). apply (wl_cells _ _ _ (rep_lists _ _ _ R i Hid)) in Hin as [_ L].
  unfold is_in_timer_list2 in E. fold (ls h p) in E. rewrite L in E. unfold list_of, NULL, DETACHED_LIST in E. lia.
Qed.

Lemma sim_some l h s G b : rep h s G -> (forall p, p ∈ l -> known s p) -> (b = false -> forall p, p ∈ l -> off s p) ->
  exists h' G', (if (b : bool) then remove_all l h else Ret h) = Ret h' /\ rep h' (s_removes s l) G'.
Proof. intros R Hk Hb. destruct b; [by eapply sim_remove_all|]. exists h, G. split; [done|]. by rewrite removes_id by auto. Qed.

Lemma sim_unlink t h s G : rep h s G -> (forall p, p ∈ links t -> known s p) ->
  exists h' G', unlink_timers t h = Ret h' /\ rep h' (s_unlink t s) G'.
Proof.
  intros R Hk. unfold unlink_timers, s_unlink.
  assert (K1 : forall p, p ∈ uas_fr t :: pairs (uac_fr t) -> known s p) by (intros p Hp; apply Hk; unfold links; set_solver).
  assert (K2 : forall p, p ∈ uas_retr t :: pairs (uac_retr t) -> known s p) by (intros p Hp; apply Hk; unfold links; set_solver).
  destruct (any_spec _ h s G R K1) as (b1 & -> & H1). destruct (any_spec _ h s G R K2) as (b2 & E2 & H2). cbn [mbind res_bind]. rewrite E2.
  cbn [mbind res_bind]. destruct (sim_some _ h s G b2 R K2 H2) as (h1 & G1 & -> & R1). cbn [mbind res_bind]. rewrite foldl_app.
  apply (sim_some _ h1 _ G1 b1 R1); [intros; by apply removes_known, K1|]. intros Hb p Hp. apply removes_off. right. by apply H1.
Qed.


Lemma lookup_deletes {A} (m : gmap Z A) l q : foldr delete m l !! q = if decide (q ∈ l) then None else m !! q.
Proof.
  induction l as [|p l IH]; simpl; [done|]. rewrite lookup_delete, IH. repeat case_decide; try done; subst; set_solver.
Qed.

Lemma sim_free l h s G : rep h s G -> (forall p, p ∈ l -> known s p /\ off s p) ->
  rep (foldr delete h l) (Sched (on s) (foldr delete (phases s) l)) G.
Proof.
  intros R Hl.
  assert (Hg : forall z, z ∉ l -> get (foldr delete h l) z = get h z /\ (alloc (foldr delete h l) z <-> alloc h z)).
  { intros z Hz. unfold get, alloc. by rewrite lookup_deletes, decide_False. }
  split.
  - intros id Hid. apply (whole_ext h); [|by apply (rep_lists _ _ _ R)]. intros z Hz. destruct (Hg z) as [-> ->]; [|done].
    intros Hzl. destruct (Hl z Hzl) as [[[ph b] Hp] Ho]. destruct (rep_some _ _ _ R z ph b Hp) as (H0 & _).
    rewrite elem_of_cons, elem_of_app, list_elem_of_singleton in Hz. unfold FIRST, LAST in Hz.
    destruct Hz as [?|[Hz|?]]; [lia| |lia]. apply (in_lists _ _ _ _ _ _ _ R Hp Hid) in Hz as ->. by apply (Ho id b).
  - apply (rep_on _ _ _ R).
  - intros p H0. simpl. rewrite !lookup_deletes. case_decide; [done|]. by apply (rep_none _ _ _ R).
  - intros p ph b. simpl. rewrite lookup_deletes. case_decide as Hpl; [done|]. intros Hp.
    destruct (rep_some _ _ _ R p ph b Hp) as (H0 & Ap & Dp & P). destruct (Hg p Hpl) as [G1 A1].
    split_and!; [done|by apply A1|unfold dl; by rewrite G1|]. revert P. apply phase_keeps; [unfold ls; by rewrite G1|unfold tm; by rewrite G1|done].
Qed.

Lemma sim_delete t reffed h s G : rep h s G -> (forall p, p ∈ links t -> known s p) -> off s (wait_tl t) -> off s (dele_tl t) ->
  0 < expiry DELETE_LIST None -> exists h' G', delete_cell timer_id2timeout ticks t reffed h = Ret h'
  /\ rep h' (s_delete t reffed (expiry DELETE_LIST None) s) G'.
Proof.
  intros R Hk Hw Hd He. unfold delete_cell, s_delete. destruct (sim_unlink t h s G R Hk) as (h1 & G1 & -> & R1). cbn [mbind res_bind].
  assert (Hk' : forall p, p ∈ links t -> known (s_unlink t s) p /\ off (s_unlink t s) p).
  { intros p Hp. split; [by apply removes_known, Hk|]. apply removes_off. unfold links in Hp.
    rewrite !elem_of_app, !elem_of_cons, !elem_of_nil in *.
    destruct Hp as [[->|[->|H]]|[H|[H|[->|[->|H]]]]]; tauto. }
  destruct reffed; [|exists (free_cell t h1), G1; split; [done|by apply sim_free]].
  destruct (Hk' (dele_tl t)) as [[[ph b] Hp] Ho]; [unfold links; set_solver|].
  apply (sim_rearm h1 _ G1 _ _ ph b); auto; [|done]. intros i ->. by apply (Ho i b).
Qed.

End Timers.

(** ** Sequences of operations *)

Section Steps.

Context (timer_id2timeout : Z -> Z).

(** What processes do with the lists; [now] is the clock of the list. *)
Inductive op : Type :=
| ONew (p : Z)
| OSet (p id : Z) (ext : option Z) (now : Z)
| OSet1 (p id : Z) (ext : option Z) (now : Z)
| OReset (p : Z)
| OSplit (id time : Z)
| ONext (p : Z)
| ORearm (p id now : Z)
| ODelete (t : cell_timers) (reffed : bool) (now : Z).

Definition at_time (now id : Z) (ext : option Z) : Z := expiry timer_id2timeout (fun _ => now) id ext.

Definition exec (o : op) (h : heap) : res heap :=
  match o with
  | ONew p => Ret (new_link p h)
  | OSet p id ext now => set_timer timer_id2timeout (fun _ => now) p id ext h
  | OSet1 p id ext now => set_1timer timer_id2timeout (fun _ => now) p id ext h
  | OReset p => reset_timer p h
  | OSplit id time => x ← check_and_split_time_list id time h; Ret x.2
  | ONext p => x ← next_detached p h; Ret x.2
  | ORearm p id now => rearm timer_id2timeout (fun _ => now) p id h
  | ODelete t reffed now => delete_cell timer_id2timeout (fun _ => now) t reffed h
  end.

Fixpoint exec_all (l : list op) (h : heap) : res heap :=
  match l with [] => Ret h | o :: l => h ← exec o h; exec_all l h end.

Definition spec (o : op) (s : sched) : sched :=
  match o with
  | ONew p => s_new p s
  | OSet p id ext now => s_set p id (at_time now id ext) s
  | OSet1 p id ext now => s_set1 p id (at_time now id ext) s
  | OReset p => s_reset p s
  | OSplit id time => s_split id time s
  | ONext p => s
  | ORearm p id now => s_put p id (at_time now id None) s
  | ODelete t reffed now => s_delete t reffed (at_time now DELETE_LIST None) s
  end.

(** The links are those of transactions that are there; only the handlers of a taken timer
    go on with it, and a transaction is deleted when it does not wait any more.  A transaction
    may be freed while one of its timers is in a detached list, as the code does not check
    for that; but the loop over that list must not come to the timer any more, it would read
    freed memory ([freed_timer_read]).  That it does not is left to the intervals: the wait
    timer is seconds long, and a pass over a detached list is over before. *)
Definition allowed (o : op) (s : sched) : Prop :=
  match o with
  | ONew p => 0 < p /\ phases s !! p = None
  | OSet p id ext now | OSet1 p id ext now => known s p /\ 0 <= id /\ (id < NR_OF_TIMER_LISTS -> 0 < at_time now id ext)
  | OReset p => known s p
  | OSplit id time => 0 <= id < NR_OF_TIMER_LISTS
  | ONext p => exists b, phases s !! p = Some (Taken, b)
  | ORearm p id now => (exists b, phases s !! p = Some (Taken, b)) /\ 0 <= id < NR_OF_TIMER_LISTS /\ 0 < at_time now id None
  | ODelete t reffed now => (forall p, p ∈ links t -> known s p) /\ off s (wait_tl t) /\ off s (dele_tl t)
      /\ 0 < at_time now DELETE_LIST None
  end.

Fixpoint allowed_all (l : list op) (s : sched) : Prop :=
  match l with [] => True | o :: l => allowed o s /\ allowed_all l (spec o s) end.

Lemma exec_spec o h s G : rep h s G -> allowed o s -> exists h' G', exec o h = Ret h' /\ rep h' (spec o s) G'.
Proof.
  intros R A. destruct o as [p|p id ext now|p id ext now|p|id time|p|p id now|t reffed now]; simpl in *.
  - destruct A as [H0 Hp]. eexists _, G. split; [done|]. by apply sim_new.
  - destruct A as (Hk & Hid & He). by apply sim_set with G.
  - destruct A as (Hk & Hid & He). by apply sim_set1 with G.
  - destruct (sim_reset h s G p R A) as (h' & E & R'). eauto.
  - destruct (sim_split h s G id time R A) as (ret & h' & G' & -> & R' & _). by exists h', G'.
  - destruct A as [b Hp]. destruct (sim_next h s G p b R Hp) as (h' & -> & R'). by exists h', G.
  - destruct A as ([b Hp] & Hid & He). by apply (sim_rearm _ _ h s G p id Taken b).
  - destruct A as (Hk & Hw & Hd & He). by apply sim_delete with G.
Qed.

(** What the last condition leaves out: the loop over a detached list reaches a timer whose
    transaction has been freed in the meantime. *)
Lemma freed_timer_read t now p h h' :
  exec (ODelete t false now) h = Ret h' -> p ∈ links t -> 0 < p -> exec (ONext p) h' = Fault UseAfterFree.
Proof.
  intros E Hp H0. cbn [exec] in *. unfold delete_cell in E. destruct (unlink_timers t h) as [h1|]; [|done].
  injection E as <-. unfold next_detached, load. rewrite (proj2 (Z.eqb_neq p NULL)) by (unfold NULL; lia).
  enough (free_cell t h1 !! p = None) as -> by done.
  unfold free_cell. clear - Hp. induction (links t) as [|q l IH]; [by apply not_elem_of_nil in Hp|]. simpl.
  destruct (decide (q = p)) as [->|N]; [by rewrite lookup_delete_eq|]. rewrite lookup_delete_ne by done.
  apply IH. apply elem_of_cons in Hp as [->|]; done.
Qed.

Definition spec_all (l : list op) (s : sched) : sched := foldl (fun s o => spec o s) s l.

Lemma exec_all_spec l : forall h s G, rep h s G -> allowed_all l s -> exists h' G', exec_all l h = Ret h' /\ rep h' (spec_all l s) G'.
Proof.
  induction l as [|o l IH]; intros h s G R A; [by exists h, G|]. destruct A as [A1 A2].
  destruct (exec_spec o h s G R A1) as (h1 & G1 & E1 & R1). destruct (IH h1 _ G1 R1 A2) as (h2 & G2 & E2 & R2).
  exists h2, G2. split; [|done]. simpl. by rewrite E1.
Qed.

End Steps.

(** ** Reading a list *)

(** The links of a list with their expiry, by the pointers forward. *)
Fixpoint walk (n : nat) (h : heap) (id p : Z) : option (list (Z * Z)) :=
  match n with
  | O => None
  | S n => if p =? LAST id then Some [] else (fun l => (tm h p, p) :: l) <$> walk n h id (nx h p)
  end.

Definition timers (h : heap) (id : Z) : option (list (Z * Z)) := walk (fuel h) h id (nx h (FIRST id)).

Lemma walk_path h id k n x : path (nx h) (pv h) (x :: k ++ [LAST id]) -> LAST id ∉ k -> (length k < n)%nat ->
  walk n h id (nx h x) = Some (map (fun p => (tm h p, p)) k).
Proof.
  revert n x. induction k as [|y k IH]; intros [|n] x P Hl Hn; simpl in Hn; try lia; destruct P as (E & _ & P); cbn [walk]; rewrite E.
  - by rewrite Z.eqb_refl.
  - rewrite (proj2 (Z.eqb_neq _ _)) by set_solver. rewrite IH; [done|done|set_solver|lia].
Qed.

Lemma timers_read h id gs : whole_list h id gs -> timers h id = Some (flat gs).
Proof.
  intros W. pose proof (wl_nodup _ _ _ W) as N. apply NoDup_cons in N as [_ N]. apply NoDup_app in N as (N & Nl & _).
  unfold timers. rewrite (walk_path h id (addrs gs)); [|apply W|intros H; apply (Nl _ H); left|].
  - f_equal. assert (T : forall g, g ∈ gs -> forall x, x ∈ g.2 -> tm h x = g.1) by (intros g Hg; by apply (wl_groups _ _ _ W)).
    clear W N Nl. induction gs as [|[t g] gs IH]; [done|]. rewrite addrs_cons, flat_cons, map_app. f_equal; [|apply IH; intros g' Hg'; apply T; by right].
    apply map_ext_in. intros x Hx. by rewrite (T (t, g) ltac:(left) x) by (by apply list_elem_of_In).
  - apply Nat.lt_succ_r, length_alloc; [done|]. intros x Hx. apply (wl_alloc _ _ _ W). set_solver.
Qed.

(** ** Start *)

Definition start_heap : heap := foldr reset_timer_list ∅ [0; 1; 2; 3; 4; 5; 6; 7].
Definition start : sched := Sched (fun _ => []) ∅.

Lemma start_list id : 0 <= id < NR_OF_TIMER_LISTS -> whole_list start_heap id [].
Proof.
  intros Hid. assert (H : In id [0; 1; 2; 3; 4; 5; 6; 7]) by (unfold NR_OF_TIMER_LISTS in Hid; simpl; lia).
  split; [|apply NoDup_cons; split; [unfold addrs; simpl; rewrite list_elem_of_singleton; unfold FIRST, LAST; lia|apply NoDup_singleton]|set_solver| |set_solver|constructor|].
  - repeat (destruct H as [<-|H]; [vm_compute; done|]). destruct H.
  - intros x Hx. simpl in Hx. rewrite elem_of_cons, list_elem_of_singleton in Hx.
    repeat (destruct H as [<-|H]; [destruct Hx as [->| ->]; split; vm_compute; eauto; done|]). destruct H.
  - repeat (destruct H as [<-|H]; [vm_compute; done|]). destruct H.
Qed.

Lemma start_rep : rep start_heap start (fun _ => []).
Proof.
  split; [apply start_list|done| |done]. intros p Hp _. unfold start_heap, reset_timer_list, FIRST, LAST. simpl.
  by rewrite !lookup_insert_ne by lia.
Qed.

Lemma flat_sorted (gs : groups) : StronglySorted (fun a b => a.1 < b.1) gs -> StronglySorted (fun a b => a.1 <= b.1) (flat gs).
Proof.
  induction 1 as [|[t g] gs S IH F]; [constructor|]. rewrite flat_cons. simpl in F. induction g as [|x g IHg]; simpl; [done|]. constructor; [done|].
  apply List.Forall_app. split; apply List.Forall_forall; intros p Hp; [apply in_map_iff in Hp as (y & <- & _); simpl; lia|].
  apply list_elem_of_In, flat_in in Hp as (g' & Hg & -> & _). apply list_elem_of_In in Hg. rewrite List.Forall_forall in F.
  specialize (F g' Hg). simpl in *. lia.
Qed.

Lemma init_start t to h : tm_init_timers t = Some (to, h) -> h = start_heap.
Proof. unfold tm_init_timers. case_match; [done|]. by intros [= _ <-]. Qed.

(** C27: the linked lists are the schedule.  From the start, every sequence of operations
    (new transactions, timers set, set once, reset and set again by their handler, expired
    timers detached, transactions deleted or put on the deletion list) returns, and then each
    list, read along its pointers, has just the timers the schedule has, in the order of
    their expiry and among equal expiries in the order they were set. *)
Theorem timers_scheduled (t to : Z -> Z) (h0 : heap) (ops : list op) :
  tm_init_timers t = Some (to, h0) -> allowed_all to ops start ->
  exists h, exec_all to ops h0 = Ret h /\ forall id, 0 <= id < NR_OF_TIMER_LISTS ->
    timers h id = Some (on (spec_all to ops start) id)
    /\ StronglySorted (fun a b => a.1 <= b.1) (on (spec_all to ops start) id).
Proof.
  intros ->%init_start A. destruct (exec_all_spec to ops _ _ _ start_rep A) as (h & G & E & R). exists h. split; [done|].
  intros id Hid. rewrite <-(rep_on _ _ _ R id Hid). pose proof (rep_lists _ _ _ R id Hid) as W.
  split; [by apply timers_read|]. apply flat_sorted, W.
Qed.

(** The timers of a list are timers of the schedule. *)
Lemma on_phase h s G id p : rep h s G -> 0 <= id < NR_OF_TIMER_LISTS -> p ∈ map snd (on s id) -> exists b, phases s !! p = Some (On id, b).
Proof.
  intros R Hid. rewrite <-(rep_on _ _ _ R id Hid), flat_addrs. intros Hp. pose proof (rep_lists _ _ _ R id Hid) as W.
  destruct (wl_cells _ _ _ W p Hp) as [H0 _]. destruct (phases s !! p) as [[ph b]|] eqn:E.
  - exists b. by apply (in_lists _ _ _ _ _ _ _ R E Hid) in Hp as ->.
  - apply (rep_none _ _ _ R p H0) in E. destruct (wl_alloc _ _ _ W p) as [_ [? E']]; [set_solver|]. by rewrite E in E'.
Qed.

(** C28: a run of the timer process takes what has expired.  After any sequence of
    operations, [check_and_split_time_list] returns a null-terminated list of just the timers
    that expire by the time, in order, and leaves the others on the list; for each taken
    timer the loop over the handlers runs the handler if and only if the timer has not been
    reset since it was set. *)
Theorem timers_taken (t to : Z -> Z) (h0 h : heap) (ops : list op) (id time : Z) :
  tm_init_timers t = Some (to, h0) -> allowed_all to ops start -> exec_all to ops h0 = Ret h -> 0 <= id < NR_OF_TIMER_LISTS ->
  let s := spec_all to ops start in
  exists ret h', check_and_split_time_list id time h = Ret (ret, h')
  /\ chain (nx h') ret (map snd (due time (on s id))) /\ timers h' id = Some (later time (on s id))
  /\ forall p, p ∈ map snd (due time (on s id)) -> exists reset h'', phases s !! p = Some (On id, reset)
     /\ next_detached p h' = Ret (negb reset, nx h' p, h'').
Proof.
  intros ->%init_start A E Hid s. destruct (exec_all_spec to ops _ _ _ start_rep A) as (h1 & G & E1 & R).
  rewrite E in E1. injection E1 as <-. destruct (sim_split h s G id time R Hid) as (ret & h' & G' & Es & R' & Hc).
  exists ret, h'. split_and!; [done|done| |].
  - rewrite (timers_read _ _ _ (rep_lists _ _ _ R' id Hid)), (rep_on _ _ _ R' id Hid). simpl. by rewrite decide_True.
  - intros p Hp. destruct (on_phase h s G id p R Hid) as [b Hb].
    { revert Hp. unfold due. rewrite !list_elem_of_In, !in_map_iff. setoid_rewrite <-list_elem_of_In. setoid_rewrite list_elem_of_filter. naive_solver. }
    exists b. destruct (sim_next h' _ G' p b R') as (h'' & En & _); [|by exists h''].
    simpl. rewrite map_lookup_imap, Hb. simpl. by rewrite decide_True.
Qed.

(** ** The intervals of retransmissions *)

(** C31: retransmissions double their interval up to T2.  With the values of T1 and T2 that
    the start accepts, without overflow of the microseconds, and T2 at most eight times T1,
    the list of the n-th retransmission has the interval min(2^n T1, T2). *)
Theorem retr_intervals (t to : Z -> Z) (h : heap) (n : nat) : tm_init_timers t = Some (to, h) ->
  0 < t RT_T1_TO_1 -> t RT_T2 <= 8 * t RT_T1_TO_1 -> 1000 * t RT_T2 < 2 ^ 30 ->
  to (Nat.iter n next_list RT_T1_TO_1) = Z.min (2 ^ Z.of_nat n * (1000 * t RT_T1_TO_1)) (1000 * t RT_T2).
Proof.
  unfold tm_init_timers. destruct (_ || _) eqn:H; [done|]. intros [= <- _] H1 H8 Ho. apply orb_false_iff in H as [_ Hlt].
  apply Z.leb_gt in Hlt. revert H1 H8 Ho Hlt. generalize (t RT_T1_TO_1) as t1, (t RT_T2) as t2. intros t1 t2 H1 H8 Ho Hlt.
  assert (Hi : forall m, Nat.iter (S (S (S m))) next_list RT_T1_TO_1 = RT_T2).
  { induction m as [|m IH]; [done|]. by rewrite Nat.iter_succ, IH. }
  rewrite (u32_small (t1 * 1000)), (u32_small (t2 * 1000)), !Z.shiftl_mul_pow2 by lia.
  rewrite (u32_small (t1 * 1000 * 2 ^ 1)), (u32_small (t1 * 1000 * 2 ^ 2)) by lia.
  destruct n as [|[|[|n]]]; [cbn -[Z.mul Z.pow Z.ltb]; lia| | |].
  - change (Nat.iter 1 next_list RT_T1_TO_1) with RT_T1_TO_2. cbn -[Z.mul Z.pow Z.ltb Z.min]. destruct (Z.ltb_spec (t1 * 1000 * 2 ^ 1) (t2 * 1000)); lia.
  - change (Nat.iter 2 next_list RT_T1_TO_1) with RT_T1_TO_3. cbn -[Z.mul Z.pow Z.ltb Z.min]. destruct (Z.ltb_spec (t1 * 1000 * 2 ^ 2) (t2 * 1000)); lia.
  - rewrite Hi. cbn -[Z.mul Z.pow Z.ltb Z.min Z.of_nat]. rewrite Z.min_r; [lia|].
    assert (2 ^ 3 <= 2 ^ Z.of_nat (S (S (S n)))) by (apply Z.pow_le_mono_r; lia). nia.
Qed.

(** ** An example *)

Definition demo_t (id : Z) : Z := if id =? RT_T1_TO_1 then 500 else if id =? RT_T2 then 4000 else 30.
Definition demo_to : Z -> Z := match tm_init_timers demo_t with Some (to, _) => to | None => demo_t end.

(** The timers of two transactions; one is reset, what expires is taken, a taken one cannot
    be set, and one transaction is deleted. *)
Definition demo_cell : cell_timers := Ct 1 2 [(3, 4)] [(5, 6)] 7 8.
Definition demo_ops : list op :=
  map ONew [1; 2; 3; 4; 5; 6; 7; 8; 9; 10] ++
  [OSet 1 FR_TIMER_LIST None 10; OSet 9 FR_TIMER_LIST None 10; OSet 3 FR_TIMER_LIST (Some 5) 10;
   OSet 10 FR_TIMER_LIST (Some 8) 10; OReset 3; OSet 9 FR_TIMER_LIST None 11].

Ltac knows := repeat match goal with
  | |- _ /\ _ => split
  | |- True => exact I
  | |- known _ _ => vm_compute; eexists; reflexivity
  | |- off _ _ => let H := fresh in intros ? ? H; vm_compute in H; discriminate H
  | |- exists _, _ => eexists; vm_compute; reflexivity
  | |- _ -> _ => intros _
  | |- _ => vm_compute; first [reflexivity | discriminate | congruence] end.

Lemma demo_allowed : allowed_all demo_to demo_ops start.
Proof. cbn [demo_ops app map allowed_all]. unfold allowed. knows. Qed.

Lemma timers_scheduled_witness : exists h, exec_all demo_to demo_ops start_heap = Ret h
  /\ timers h FR_TIMER_LIST = Some [(15, 3); (18, 10); (40, 1); (41, 9)].
Proof.
  destruct (timers_scheduled demo_t demo_to start_heap demo_ops) as (h & E & H); [reflexivity|exact demo_allowed|].
  exists h. split; [exact E|]. destruct (H FR_TIMER_LIST) as [-> _]; [split; vm_compute; [discriminate|reflexivity]|].
  vm_compute. reflexivity.
Defined.

Definition demo_ops' : list op := demo_ops ++
  [OSplit FR_TIMER_LIST 20; ONext 3; ONext 10; OSet 3 FR_TIMER_LIST None 20; ORearm 10 FR_TIMER_LIST 20;
   OReset 10; ODelete demo_cell false 20].

Lemma demo_allowed' : allowed_all demo_to demo_ops' start.
Proof.
  unfold demo_ops'. cbn [demo_ops app map allowed_all]. unfold allowed. knows. intros p Hp. unfold links in Hp. simpl in Hp.
  repeat (apply elem_of_cons in Hp as [->|Hp]; [vm_compute; eexists; reflexivity|]). by apply elem_of_nil in Hp.
Qed.

Lemma timers_taken_witness : exists h ret h', exec_all demo_to demo_ops' start_heap = Ret h
  /\ check_and_split_time_list FR_TIMER_LIST 50 h = Ret (ret, h') /\ chain (nx h') ret [9; 10] /\ timers h' FR_TIMER_LIST = Some []
  /\ exists h'', next_detached 10 h' = Ret (false, nx h' 10, h'').
Proof.
  destruct (exec_all demo_to demo_ops' start_heap) as [h|] eqn:E; [|vm_compute in E; discriminate E].
  destruct (timers_taken demo_t demo_to start_heap h demo_ops' FR_TIMER_LIST 50) as (ret & h' & H1 & H2 & H3 & H4);
    [reflexivity|exact demo_allowed'|exact E|split; vm_compute; [discriminate|reflexivity]|].
  exists h, ret, h'. split; [reflexivity|]. split; [exact H1|]. split; [exact H2|]. split; [exact H3|].
  destruct (H4 10) as (b & h'' & Hb & Hn); [change (10 ∈ [9; 10]); right; left|]. exists h''. vm_compute in Hb. injection Hb as <-. exact Hn.
Defined.

Lemma retr_intervals_witness : map (fun n => demo_to (Nat.iter n next_list RT_T1_TO_1)) [0; 1; 2; 3; 4]%nat
  = [500000; 1000000; 2000000; 4000000; 4000000].
Proof.
  assert (H : forall n, demo_to (Nat.iter n next_list RT_T1_TO_1) = Z.min (2 ^ Z.of_nat n * (1000 * 500)) (1000 * 4000)).
  { intros n. apply (retr_intervals demo_t demo_to start_heap n); vm_compute; [reflexivity|reflexivity|discriminate|reflexivity]. }
  unfold map. rewrite !H. reflexivity.
Defined.

End TmSched.
