(* ===== verification/Avp.v ===== *)
(** * Attribute-value pairs ([src/usr_avp.c], [usr_avp.h])

    Values the script and the modules leave for later: a list of pairs of a name (a number
    or a text) and a value (a number or a text), of the process or of a transaction, with
    one of the lists current; and the aliases of names in the configuration.

    A list is the list of its pairs, each with its address; a pointer to a pair is the rest
    of the list that starts with it.  Of the members of [int_str] the flags say which is in
    use; [name.n] of a text is the low half of the pointer to it. *)

From Stdlib Require Import ZArith Lia List String Ascii Bool.
From stdpp Require Import base tactics option list gmap sets.
From S2P Require Import Prelude Ut.

Module Avp.

Definition AVP_NAME_STR : Z := 1.
Definition AVP_VAL_STR : Z := 2.
Definition AVP_SCRIPT_MASK : Z := 65280.
Definition AVP_NAME_DELIM : Z := §":".
Definition avp_script_flags (f : Z) : Z := Z.land (Z.shiftl f 8) 65280.

(** A [str] and the union of it and [int]. *)
Record cstr : Type := Cs { s_ptr : Z; s_txt : bytes }.
Inductive int_str : Type := Num (n : Z) | Str (s : cstr).

Definition n_of (v : int_str) : Z := match v with Num n => n | Str s => s32 (s_ptr s) end.
Definition s_of (v : int_str) : cstr := match v with Str s => s | Num _ => Cs 0 [] end.

(** [data]: the value, or one of the bodies with a copy of the texts. *)
Inductive avp_data : Type :=
| DInt (val : Z)
| str_int_data (name : bytes) (val : Z)
| DStr (val : bytes)
| str_str_data (name val : bytes).

Record usr_avp : Type := Avp { addr : Z; id : Z; flags : Z; data : avp_data }.

Definition is_set (f m : Z) : bool := negb (Z.land f m =? 0).

(** From the last character to the first, each taken as a [char]. *)
Definition compute_ID (name : bytes) : Z := fold_left (fun id c => u16 (Z.lxor id (s8 c))) (rev name) 0.

(** ** Lists *)

(** The case by the flags, with the texts copied. *)
Definition avp_body (f : Z) (name val : int_str) : avp_data :=
  if is_set f AVP_NAME_STR then
    if is_set f AVP_VAL_STR then str_str_data (s_txt (s_of name)) (s_txt (s_of val))
    else str_int_data (s_txt (s_of name)) (n_of val)
  else if is_set f AVP_VAL_STR then DStr (s_txt (s_of val))
  else DInt (n_of val).

(** [mem]: the address shared memory gives, if there is enough. *)
Definition add_avp (mem : option Z) (f : Z) (name val : int_str) (l : list usr_avp) : Z * list usr_avp :=
  if n_of name =? 0 then (-1, l)
  else if is_set f AVP_NAME_STR && ((s_ptr (s_of name) =? 0) || (zlen (s_txt (s_of name)) =? 0)) then (-1, l)
  else match mem with
       | None => (-1, l)
       | Some p =>
           let i := if is_set f AVP_NAME_STR then compute_ID (s_txt (s_of name)) else u16 (n_of name) in
           (0, Avp p i f (avp_body f name val) :: l)
       end.

Definition get_avp_name (a : usr_avp) : option bytes :=
  if is_set (flags a) AVP_NAME_STR then
    match data a with str_int_data n _ | str_str_data n _ => Some n | _ => None end
  else None.

(** The value: a number, or the copy of the text. *)
Inductive avp_value : Type := VInt (n : Z) | VStr (s : bytes).

Definition get_avp_val (a : usr_avp) : avp_value :=
  if is_set (flags a) AVP_VAL_STR then
    match data a with DStr s | str_str_data _ s => VStr s | _ => VStr [] end
  else
    match data a with DInt v | str_int_data _ v => VInt v | _ => VInt 0 end.

Definition flags_match (f : Z) (a : usr_avp) : bool := (f =? 0) || is_set f (flags a).

(** The rest of the list from the pair found. *)
Fixpoint internal_search_ID_avp (l : list usr_avp) (i f : Z) : list usr_avp :=
  match l with
  | [] => []
  | a :: l' =>
      if (i =? id a) && negb (is_set (flags a) AVP_NAME_STR) && flags_match f a then l
      else internal_search_ID_avp l' i f
  end.

(** [!strncasecmp(a, b, len)] for texts of one length: a NUL ends the comparison. *)
Fixpoint same_nocase (a b : bytes) : bool :=
  match a, b with
  | x :: a, y :: b => (tolower x =? tolower y) && ((x =? 0) || same_nocase a b)
  | _, _ => true
  end.

Definition name_is (name : bytes) (a : usr_avp) : bool :=
  match get_avp_name a with
  | Some n => (zlen n =? zlen name) && same_nocase n name
  | None => false
  end.

Fixpoint internal_search_name_avp (l : list usr_avp) (i : Z) (name : bytes) (f : Z) : list usr_avp :=
  match l with
  | [] => []
  | a :: l' =>
      if (i =? id a) && is_set (flags a) AVP_NAME_STR && flags_match f a && name_is name a then l
      else internal_search_name_avp l' i name f
  end.

(** [start]: the pair to start behind. *)
Definition search_first_avp (f : Z) (name : int_str) (start : option (list usr_avp)) (l : list usr_avp) : list usr_avp :=
  let head := match start with None => l | Some s => tail s end in
  if match head with [] => true | _ => false end then []
  else if n_of name =? 0 then []
  else if is_set f AVP_NAME_STR then
    if (s_ptr (s_of name) =? 0) || (zlen (s_txt (s_of name)) =? 0) then []
    else internal_search_name_avp head (compute_ID (s_txt (s_of name))) (s_txt (s_of name)) (Z.land f AVP_SCRIPT_MASK)
  else internal_search_ID_avp head (u16 (n_of name)) (Z.land f AVP_SCRIPT_MASK).

Definition search_next_avp (p : list usr_avp) : list usr_avp :=
  match p with
  | [] | [_] => []
  | a :: l =>
      if is_set (flags a) AVP_NAME_STR then
        internal_search_name_avp l (id a) (default [] (get_avp_name a)) (Z.land (flags a) AVP_SCRIPT_MASK)
      else internal_search_ID_avp l (id a) (Z.land (flags a) AVP_SCRIPT_MASK)
  end.

Fixpoint destroy_avp (p : Z) (l : list usr_avp) : list usr_avp :=
  match l with
  | [] => []
  | a :: l' => if addr a =? p then l' else a :: destroy_avp p l'
  end.

Fixpoint destroy_loop (fuel : nat) (f : Z) (name : int_str) (all : bool) (n : Z) (l : list usr_avp) : res (Z * list usr_avp) :=
  match fuel with
  | O => Fault OutOfFuel
  | S fuel =>
      match search_first_avp f name None l with
      | [] => Ret (n, l)
      | a :: _ =>
          let l := destroy_avp (addr a) l in
          if all then destroy_loop fuel f name all (n + 1) l else Ret (n + 1, l)
      end
  end.

Definition destroy_avps (f : Z) (name : int_str) (all : bool) (l : list usr_avp) : res (Z * list usr_avp) :=
  destroy_loop (S (length l)) f name all 0 l.

(** ** The current list *)

(** [*list] for each list there is, and [crt_avps]. *)
Record avps : Type := Avps { lists : gmap Z (list usr_avp); crt : Z }.

Definition global_avps : Z := 1.

Definition destroy_avp_list (p : Z) (s : avps) : avps := Avps (<[p := []]> (lists s)) (crt s).

Definition reset_avps (s : avps) : avps := destroy_avp_list global_avps (Avps (lists s) global_avps).

Definition set_avp_list (p : Z) (s : avps) : Z * avps := (crt s, Avps (lists s) p).

(** ** Aliases *)

Record avp_galias : Type := Ga { alias : bytes; a_type : Z; a_name : int_str }.

Definition same_text (a b : bytes) : bool := (zlen a =? zlen b) && same_nocase a b.

Fixpoint check_avp_galias (al : bytes) (type : Z) (name : int_str) (gs : list avp_galias) : Z :=
  match gs with
  | [] => 0
  | g :: gs =>
      let type := Z.land type AVP_NAME_STR in
      if same_text al (alias g) then -1
      else if (type =? a_type g) &&
              (if is_set type AVP_NAME_STR then same_text (s_txt (s_of name)) (s_txt (s_of (a_name g)))
               else n_of name =? n_of (a_name g)) then -1
      else check_avp_galias al type name gs
  end.

(** [mem]: whether there is memory; a copy of the text is at a new address. *)
Definition add_avp_galias (mem : option Z) (al : bytes) (type : Z) (name : int_str) (gs : list avp_galias) : Z * list avp_galias :=
  if (is_set type AVP_NAME_STR && ((s_ptr (s_of name) =? 0) || (zlen (s_txt (s_of name)) =? 0))) || (zlen al =? 0) then (-1, gs)
  else if negb (check_avp_galias al type name gs =? 0) then (-1, gs)
  else match mem with
       | None => (-1, gs)
       | Some p =>
           let name := if is_set type AVP_NAME_STR then Str (Cs p (s_txt (s_of name))) else Num (n_of name) in
           (0, Ga al (Z.land type AVP_NAME_STR) name :: gs)
       end.

Fixpoint lookup_avp_galias (al : bytes) (gs : list avp_galias) : option (Z * int_str) :=
  match gs with
  | [] => None
  | g :: gs => if same_text al (alias g) then Some (a_type g, a_name g) else lookup_avp_galias al gs
  end.

(** *** Names in the configuration *)

Fixpoint memchr (c : Z) (s : bytes) : option nat :=
  match s with
  | [] => None
  | x :: s => if x =? c then Some O else S <$> memchr c s
  end.

(** The type and the name; the name is a part of the text at [p]. *)
Definition parse_avp_name (p : Z) (name : bytes) : option (Z * int_str) :=
  match name, memchr AVP_NAME_DELIM name with
  | c :: _, Some d =>
      if negb ((c =? §"i") || (c =? §"I") || (c =? §"s") || (c =? §"S")) then None
      else
        let '(rc, fl) := if Nat.ltb 1 d then Ut.str2int (take (d - 1) (tail name)) else (0, 0) in
        if negb (rc =? 0) then None
        else
          let rest := drop (S d) name in
          if (c =? §"s") || (c =? §"S") then
            Some (Z.lor AVP_NAME_STR (avp_script_flags fl), Str (Cs (p + Z.of_nat (S d)) rest))
          else
            let '(rc, i) := Ut.str2int rest in
            if negb (rc =? 0) then None else Some (Z.lor 0 (avp_script_flags fl), Num (s32 i))
  | _, _ => None
  end.

Definition parse_avp_spec (p : Z) (name : bytes) (gs : list avp_galias) : option (Z * int_str) :=
  match name, memchr AVP_NAME_DELIM name with
  | [], _ => None
  | _, None => lookup_avp_galias name gs
  | _, Some _ => parse_avp_name p name
  end.

Definition isspace (c : Z) : bool := (c =? 32) || (c between 9 and 13).

(** The text before a character that stops, and the rest. *)
Fixpoint span (stop : Z -> bool) (s : bytes) : bytes * bytes :=
  match s with
  | [] => ([], [])
  | c :: s' => if stop c then ([], s) else let '(a, b) := span stop s' in (c :: a, b)
  end.

Definition skip_space (s : bytes) : bytes := (span (fun c => negb (isspace c)) s).2.

(** One definition [alias=name], behind it the end or a semicolon and another one: the
    alias, the name, where it is and the rest; [None] is a parse error. *)
Definition next_alias (s : bytes) : option (bytes * bytes * Z * bytes) :=
  let '(al, s1) := span (fun c => (c =? §";") || isspace c || (c =? §"=")) s in
  if (zlen al =? 0) || (zlen s1 =? 0) || (hd 0 s1 =? §";") then None
  else
    match skip_space s1 with
    | [] => None
    | c :: s2 =>
        if negb (c =? §"=") then None
        else
          let s2 := skip_space s2 in
          let '(nm, s3) := span (fun c => (c =? §";") || isspace c) s2 in
          if zlen nm =? 0 then None
          else
            let at_nm := zlen s - zlen s2 in
            match skip_space s3 with
            | [] => Some (al, nm, at_nm, [])
            | c :: s4 =>
                if negb (c =? §";") then None
                else if zlen (skip_space s4) =? 0 then None
                else Some (al, nm, at_nm, skip_space s4)
            end
    end.

(** The text at [p] up to its NUL; [mem] gives memory for each definition. *)
Fixpoint alias_loop (fuel : nat) (mem : nat -> option Z) (p : Z) (s : bytes) (gs : list avp_galias) : res (Z * list avp_galias) :=
  match fuel with
  | O => Fault OutOfFuel
  | S fuel =>
      match s with
      | [] => Ret (0, gs)
      | _ =>
          match next_alias s with
          | None => Ret (-1, gs)
          | Some (al, nm, at_nm, rest) =>
              match parse_avp_name (p + at_nm) nm with
              | None => Ret (-1, gs)
              | Some (type, name) =>
                  let '(rc, gs) := add_avp_galias (mem fuel) al type name gs in
                  if negb (rc =? 0) then Ret (-1, gs)
                  else alias_loop fuel mem (p + (zlen s - zlen rest)) rest gs
              end
          end
      end
  end.

Definition add_avp_galias_str (mem : nat -> option Z) (p : Z) (def : bytes) (gs : list avp_galias) : res (Z * list avp_galias) :=
  let s := c_string def in
  let s1 := skip_space s in
  alias_loop (S (length s1)) mem (p + (zlen s - zlen s1)) s1 gs.

End Avp.
