(* ===== verification/AvpSpec.v ===== *)
(** * What lists of attribute-value pairs promise

    Pairs are found, enumerated and destroyed as plain operations on the list have it, and
    aliases are resolved; but whether a name is found in another case depends on the number
    of letters that differ. *)

From Stdlib Require Import ZArith Lia List String Ascii Bool Sorted.
From stdpp Require Import base tactics option list gmap sets.
From S2P Require Import Prelude Ut Avp.

Module AvpSpec.
Import Avp.

(** ** Names *)

(** What [strncasecmp] looks at. *)
Definition key (s : bytes) : bytes := map tolower (c_string s).

Lemma tolower_0 x : tolower x = 0 <-> x = 0.
Proof. unfold tolower. split; [|by intros ->]. case_match; bool_to_prop; lia. Qed.

Lemma same_nocase_key a b : length a = length b -> same_nocase a b = true <-> key a = key b.
Proof.
  unfold key. revert b. induction a as [|x a IH]; intros [|y b]; simpl; try done. intros [= E]. specialize (IH b E).
  destruct (Z.eqb_spec x 0) as [->|Hx], (Z.eqb_spec y 0) as [->|Hy]; cbn [map orb].
  - done.
  - rewrite andb_true_iff, Z.eqb_eq. split; [|done]. intros [H _]. destruct Hy. apply tolower_0. by rewrite <-H.
  - rewrite andb_true_iff, Z.eqb_eq. split; [|done]. intros [H _]. destruct Hx. by apply tolower_0.
  - rewrite andb_true_iff, IH, Z.eqb_eq. split; [by intros [-> ->]|by intros [= -> ->]].
Qed.

Definition name_eq (a b : bytes) : Prop := zlen a = zlen b /\ key a = key b.

Lemma name_is_eq n a : name_is n a = true <-> exists m, get_avp_name a = Some m /\ name_eq m n.
Proof.
  unfold name_is, name_eq. destruct (get_avp_name a) as [m|]; [|naive_solver]. rewrite andb_true_iff, Z.eqb_eq. split.
  - intros [H1 H2]. exists m. split_and!; auto. apply same_nocase_key; [unfold zlen in H1; lia|done].
  - intros (? & [= <-] & H1 & H2). split; [done|]. apply same_nocase_key; [unfold zlen in H1; lia|done].
Qed.

(** ** Searching *)

(** The flags say which member is in use; and there is a name. *)
Definition typed_name (f : Z) (name : int_str) : Prop :=
  if is_set f AVP_NAME_STR then exists s, name = Str s else exists n, name = Num n.

Definition named (name : int_str) : Prop :=
  n_of name <> 0 /\ match name with Str s => s_ptr s <> 0 /\ s_txt s <> [] | Num _ => True end.

Definition valid_value (f : Z) (val : int_str) : Prop :=
  if is_set f AVP_VAL_STR then exists s, val = Str s else exists n, val = Num n.

Definition script (f : Z) : Z := Z.land f AVP_SCRIPT_MASK.

(** The pairs a search is for. *)
Definition matches (f : Z) (name : int_str) (a : usr_avp) : bool :=
  flags_match (script f) a &&
  if is_set f AVP_NAME_STR then
    (compute_ID (s_txt (s_of name)) =? id a) && is_set (flags a) AVP_NAME_STR && name_is (s_txt (s_of name)) a
  else (u16 (n_of name) =? id a) && negb (is_set (flags a) AVP_NAME_STR).

Fixpoint from {A} (P : A -> bool) (l : list A) : list A :=
  match l with [] => [] | x :: l' => if P x then l else from P l' end.

Lemma search_ID_from l i f : internal_search_ID_avp l i f = from (fun a => (i =? id a) && negb (is_set (flags a) AVP_NAME_STR) && flags_match f a) l.
Proof. induction l as [|a l IH]; simpl; [done|]. by rewrite IH. Qed.

Lemma search_name_from l i n f : internal_search_name_avp l i n f =
  from (fun a => (i =? id a) && is_set (flags a) AVP_NAME_STR && flags_match f a && name_is n a) l.
Proof. induction l as [|a l IH]; simpl; [done|]. by rewrite IH. Qed.

Lemma from_ext {A} (P Q : A -> bool) l : (forall x, In x l -> P x = Q x) -> from P l = from Q l.
Proof. induction l as [|x l IH]; simpl; [done|]. intros H. rewrite H by auto. case_match; auto. Qed.

Lemma search_first_from f name l : typed_name f name -> named name -> search_first_avp f name None l = from (matches f name) l.
Proof.
  intros Ht [Hn Hv]. unfold search_first_avp, typed_name in *. destruct l as [|a0 l0]; [done|]. rewrite (proj2 (Z.eqb_neq _ _) Hn).
  destruct (is_set f AVP_NAME_STR) eqn:E.
  - destruct Ht as (s & ->). destruct Hv as [Hp Ht]. cbn [s_of]. rewrite (proj2 (Z.eqb_neq _ _) Hp).
    replace (zlen (s_txt s) =? 0) with false by (destruct (s_txt s); [done|unfold zlen; simpl; lia]). cbn [orb].
    rewrite search_name_from. apply from_ext. intros a _. unfold matches. rewrite E. unfold script. cbn [s_of].
    destruct (_ =? id a), (is_set (flags a) _), (flags_match _ _), (name_is _ _); done.
  - rewrite search_ID_from. apply from_ext. intros a _. unfold matches. rewrite E. unfold script.
    destruct (_ =? id a), (is_set (flags a) _), (flags_match _ _); done.
Qed.

(** The pairs of a list, as they are made: the name and its number belong together. *)
Definition made (a : usr_avp) : Prop :=
  if is_set (flags a) AVP_NAME_STR then exists n, get_avp_name a = Some n /\ id a = compute_ID n else True.

Definition value_of (f : Z) (val : int_str) : avp_value :=
  if is_set f AVP_VAL_STR then VStr (s_txt (s_of val)) else VInt (n_of val).

Lemma add_made mem f name val l : Forall made l -> Forall made (add_avp mem f name val l).2.
Proof.
  intros H. unfold add_avp. repeat (case_match; [done|]). destruct mem as [p|]; [|done]. constructor; [|done].
  unfold made, get_avp_name, avp_body. simpl. destruct (is_set f AVP_NAME_STR) eqn:E; [|done]. destruct (is_set f AVP_VAL_STR); eauto.
Qed.

(** The number of a name. *)
Definition id_of (f : Z) (name : int_str) : Z :=
  if is_set f AVP_NAME_STR then compute_ID (s_txt (s_of name)) else u16 (n_of name).

Lemma match_new p f g name val : is_set g AVP_NAME_STR = is_set f AVP_NAME_STR -> script g = 0 \/ Z.land (script g) f <> 0 ->
  matches g name (Avp p (id_of f name) f (avp_body f name val)) = true.
Proof.
  intros Hg Hs. unfold matches, id_of. rewrite Hg. apply andb_true_iff. split.
  - unfold flags_match, is_set. simpl. destruct Hs as [->|Hs]; [done|]. by rewrite (proj2 (Z.eqb_neq _ _) Hs), orb_true_r.
  - cbn [id flags]. destruct (is_set f AVP_NAME_STR) eqn:E; rewrite Z.eqb_refl; [|done]. simpl. apply name_is_eq.
    exists (s_txt (s_of name)). split; [|by split]. unfold get_avp_name, avp_body. simpl. rewrite E. by destruct (is_set f AVP_VAL_STR).
Qed.

(** What is stored is found.  [add_avp] fails only for an empty name or without
    memory, and then the list is as before; else a search for the name, without flags or
    with one the pair has, finds the new pair first, with the value given, and destroying it
    gives back the list. *)
Theorem added_found (mem : option Z) (f : Z) (name val : int_str) (l : list usr_avp) : typed_name f name -> valid_value f val ->
  let '(rc, l') := add_avp mem f name val l in
  match mem with
  | None => rc = -1 /\ l' = l
  | Some p =>
      (~ named name -> rc = -1 /\ l' = l) /\
      (named name -> rc = 0 /\ exists a, l' = a :: l /\ get_avp_val a = value_of f val /\ destroy_avp p l' = l
       /\ forall g, is_set g AVP_NAME_STR = is_set f AVP_NAME_STR -> script g = 0 \/ Z.land (script g) f <> 0 ->
           search_first_avp g name None l' = l')
  end.
Proof.
  intros Ht Hv. unfold add_avp. assert (Hnn : forall t : bytes, (zlen t =? 0) = true <-> t = []).
  { intros t. destruct t; [done|]. rewrite zlen_cons. pose proof (zlen_nonneg t). rewrite Z.eqb_eq. split; [lia|done]. }
  destruct (Z.eqb_spec (n_of name) 0) as [E0|E0].
  { destruct mem; [|done]. split; [done|]. by intros [H _]. }
  destruct (is_set f AVP_NAME_STR && _) eqn:E1.
  { destruct mem; [|done]. split; [done|]. intros [_ H]. apply andb_true_iff in E1 as [E1 E2]. unfold typed_name in Ht. rewrite E1 in Ht.
    destruct Ht as (s & ->). simpl in *. apply orb_true_iff in E2 as [E2|E2]; [apply Z.eqb_eq in E2; tauto|apply Hnn in E2; tauto]. }
  destruct mem as [p|]; [|done]. assert (Hn : named name).
  { split; [done|]. unfold typed_name in Ht. destruct (is_set f AVP_NAME_STR); [|by destruct Ht as (? & ->)]. destruct Ht as (s & ->).
    simpl in *. apply orb_false_iff in E1 as [E1 E2]. apply Z.eqb_neq in E1. split; [done|]. intros E. apply Hnn in E. congruence. }
  split; [by intros H|]. intros _. split; [done|]. eexists. split_and!; [done| |simpl; by rewrite Z.eqb_refl|].
  - unfold get_avp_val, value_of, avp_body. simpl. by destruct (is_set f AVP_NAME_STR), (is_set f AVP_VAL_STR).
  - intros g Hg Hs. rewrite search_first_from; [|unfold typed_name in *; by rewrite Hg|done]. simpl from. fold (id_of f name).
    by rewrite match_new.
Qed.

(** ** Destroying *)

Fixpoint remove_first {A} (P : A -> bool) (l : list A) : list A :=
  match l with [] => [] | x :: l' => if P x then l' else x :: remove_first P l' end.

Lemma destroy_first (P : usr_avp -> bool) l a r : NoDup (map addr l) -> from P l = a :: r ->
  P a = true /\ In a l /\ destroy_avp (addr a) l = remove_first P l.
Proof.
  induction l as [|x l IH]; simpl; [done|]. intros [Hx N]%NoDup_cons. destruct (P x) eqn:E.
  - intros [= -> _]. split_and!; auto. by rewrite Z.eqb_refl.
  - intros Hf. destruct (IH N Hf) as (Ha & Hin & Hd). split_and!; auto. rewrite Hd.
    rewrite (proj2 (Z.eqb_neq _ _)); [done|]. intros Eq. apply Hx. rewrite Eq. apply list_elem_of_In, in_map, Hin.
Qed.

Lemma from_nil {A} (P : A -> bool) l : from P l = [] -> List.filter P l = [] /\ List.filter (fun x => negb (P x)) l = l.
Proof.
  induction l as [|x l IH]; simpl; [done|]. destruct (P x); [done|]. simpl. intros H. destruct (IH H) as [-> ->]. done.
Qed.

Lemma remove_first_filter {A} (P : A -> bool) l a r : from P l = a :: r ->
  List.filter P l = a :: List.filter P (remove_first P l)
  /\ List.filter (fun x => negb (P x)) (remove_first P l) = List.filter (fun x => negb (P x)) l.
Proof.
  induction l as [|x l IH]; simpl; [done|]. destruct (P x) eqn:E; simpl; rewrite ?E; simpl; [by intros [= -> _]|].
  intros H. destruct (IH H) as [-> ->]. done.
Qed.

Lemma remove_first_nodup (P : usr_avp -> bool) l : NoDup (map addr l) -> NoDup (map addr (remove_first P l)).
Proof.
  induction l as [|x l IH]; simpl; [done|]. intros [Hx N]%NoDup_cons. destruct (P x); [done|]. simpl. constructor; [|auto].
  intros Hi. apply Hx. apply list_elem_of_In, in_map_iff in Hi as (y & <- & Hy). apply list_elem_of_In, in_map.
  clear -Hy. induction l as [|z l IH]; simpl in *; [done|]. destruct (P z); [by right|]. destruct Hy; auto.
Qed.

Lemma destroy_all fuel f name n l : typed_name f name -> named name -> NoDup (map addr l) ->
  (length (List.filter (matches f name) l) < fuel)%nat ->
  destroy_loop fuel f name true n l = Ret (n + zlen (List.filter (matches f name) l), List.filter (fun a => negb (matches f name a)) l).
Proof.
  intros Ht Hn. revert n l. induction fuel as [|fuel IH]; intros n l N Hl; [lia|]. cbn [destroy_loop].
  rewrite search_first_from by done. destruct (from (matches f name) l) as [|a r] eqn:E.
  - apply from_nil in E as [-> ->]. by rewrite Z.add_0_r.
  - destruct (destroy_first _ _ _ _ N E) as (_ & _ & ->). destruct (remove_first_filter _ _ _ _ E) as [E1 E2].
    rewrite E1 in *. simpl in Hl. rewrite IH; [|by apply remove_first_nodup|lia]. rewrite E2, zlen_cons. do 2 f_equal. lia.
Qed.

(** Destroying removes what the search finds.  In a list of distinct pairs
    [destroy_avps] returns, with the number of pairs destroyed: all that the search is for, or
    the first of them; the others stay in order. *)
Theorem avps_destroyed (f : Z) (name : int_str) (l : list usr_avp) : typed_name f name -> named name -> NoDup (map addr l) ->
  destroy_avps f name true l = Ret (zlen (List.filter (matches f name) l), List.filter (fun a => negb (matches f name a)) l)
  /\ destroy_avps f name false l = Ret (if existsb (matches f name) l then 1 else 0, remove_first (matches f name) l).
Proof.
  intros Ht Hn N. unfold destroy_avps. split.
  - apply destroy_all; auto. apply Nat.lt_succ_r, filter_length_le.
  - cbn [destroy_loop]. rewrite search_first_from by done. destruct (from (matches f name) l) as [|a r] eqn:E.
    + f_equal. apply from_nil in E as [E _]. clear -E. induction l as [|x l IH]; simpl in *; [done|]. destruct (matches f name x); [done|].
      simpl. specialize (IH E). injection IH as IH1 IH2. rewrite <-IH2. by destruct (existsb _ l).
    + destruct (destroy_first _ _ _ _ N E) as (Ha & Hin & ->). rewrite (proj2 (existsb_exists _ _)); [done|eauto].
Qed.

(** ** Enumerating *)

(** What a loop over [search_first_avp] and [search_next_avp] sees. *)
Fixpoint enumerate (fuel : nat) (p : list usr_avp) : list usr_avp :=
  match fuel, p with
  | S fuel, a :: _ => a :: enumerate fuel (search_next_avp p)
  | _, _ => []
  end.

Lemma name_eq_is m n a : name_eq m n -> name_is m a = name_is n a.
Proof.
  intros [H1 H2]. apply eq_true_iff_eq. rewrite !name_is_eq. unfold name_eq. rewrite H1, H2. done.
Qed.

Lemma next_from f name a l : script f = 0 -> made a -> matches f name a = true -> script (flags a) = 0 ->
  search_next_avp (a :: l) = from (matches f name) l.
Proof.
  intros Hf Hm Ha Hs. unfold search_next_avp. destruct l as [|b l]; [done|]. fold (script (flags a)). rewrite Hs.
  unfold matches, made in *. rewrite Hf in *. unfold flags_match in *. change (0 =? 0) with true in *. simpl orb in *. cbn [andb] in *.
  destruct (is_set f AVP_NAME_STR).
  - apply andb_true_iff in Ha as [Ha Hn]. apply andb_true_iff in Ha as [Hi Hf']. rewrite Hf' in *. apply Z.eqb_eq in Hi.
    destruct Hm as (n & En & _). rewrite En. simpl default. apply name_is_eq in Hn as (m & Em & Hmn). rewrite En in Em. injection Em as <-.
    rewrite search_name_from. apply from_ext. intros c _. rewrite Hi, andb_true_r, (name_eq_is _ _ c Hmn). done.
  - apply andb_true_iff in Ha as [Hi Hf']. apply negb_true_iff in Hf'. rewrite Hf'. apply Z.eqb_eq in Hi.
    rewrite search_ID_from. apply from_ext. intros c _. by rewrite Hi, andb_true_r.
Qed.

Lemma from_split {A} (P : A -> bool) l a r : from P l = a :: r ->
  P a = true /\ List.filter P l = a :: List.filter P r /\ (forall x, In x (a :: r) -> In x l) /\ (length r < length l)%nat.
Proof.
  induction l as [|x l IH]; simpl; [done|]. destruct (P x) eqn:E; [intros [= -> ->]; split_and!; auto|].
  intros H. destruct (IH H) as (? & -> & Hx & ?). split_and!; auto; lia.
Qed.

(** C33: a loop over [search_first_avp] and [search_next_avp] sees every value once, in
    order: all pairs of the name and nothing else, if none of them has script flags. *)
Theorem avps_enumerated (f : Z) (name : int_str) (l : list usr_avp) : typed_name f name -> named name -> script f = 0 ->
  Forall made l -> (forall a, In a l -> matches f name a = true -> script (flags a) = 0) ->
  enumerate (S (length l)) (search_first_avp f name None l) = List.filter (matches f name) l.
Proof.
  intros Ht Hn Hf Hm Hs. rewrite search_first_from by done. revert Hm Hs. remember (length l) as k eqn:Ek. assert (Hk : (length l <= k)%nat) by lia.
  clear Ek. revert l Hk. induction k as [|k IH]; intros l Hk Hm Hs.
  { destruct l; [done|simpl in Hk; lia]. }
  destruct (from (matches f name) l) as [|a r] eqn:E; [by apply from_nil in E as [-> _]|].
  destruct (from_split _ _ _ _ E) as (Ha & -> & Hin & Hl). change (enumerate (S (S k)) (a :: r)) with (a :: enumerate (S k) (search_next_avp (a :: r))).
  rewrite List.Forall_forall in Hm. rewrite (next_from f name a r); auto using in_eq. f_equal. apply IH; [lia| |].
  - apply List.Forall_forall. intros x Hx. apply Hm, Hin. by right.
  - intros x Hx. apply Hs, Hin. by right.
Qed.

(** ** Names in another case *)

Lemma u16_lxor a b : u16 (Z.lxor a b) = Z.lxor (u16 a) (u16 b).
Proof.
  unfold u16. rewrite <-!Z.land_ones by lia. apply Z.bits_inj'. intros n Hn. rewrite Z.lxor_spec, !Z.land_spec, Z.lxor_spec.
  by destruct (Z.testbit a n), (Z.testbit b n), (Z.testbit (Z.ones 16) n).
Qed.

Lemma u16_idem a : u16 (u16 a) = u16 a.
Proof. unfold u16. by rewrite Z.mod_mod. Qed.

(** The characters of a name, combined. *)
Definition mix (n : bytes) : Z := fold_right (fun c x => Z.lxor x (s8 c)) 0 n.

Lemma compute_ID_mix n : compute_ID n = u16 (mix n).
Proof.
  unfold compute_ID, mix. rewrite <-(fold_left_rev_right (fun c id => u16 (Z.lxor id (s8 c)))), rev_involutive.
  induction n as [|c n IH]; [done|]. simpl. by rewrite IH, !u16_lxor, u16_idem.
Qed.

Fixpoint differ (a b : bytes) : nat :=
  match a, b with
  | x :: a, y :: b => if x =? y then differ a b else S (differ a b)
  | _, _ => O
  end.

Lemma letter_mix x : x between 65 and 90 = true -> Z.lxor (s8 x) (s8 (x + 32)) = 32.
Proof.
  intros H. bool_to_prop. assert (A : forallb (fun x => Z.lxor (s8 x) (s8 (x + 32)) =? 32) (seqZ 65 26) = true) by reflexivity.
  rewrite forallb_forall in A. apply Z.eqb_eq, A, list_elem_of_In, elem_of_seqZ. lia.
Qed.

Lemma case_mix x y : tolower x = tolower y -> Z.lxor (s8 x) (s8 y) = if x =? y then 0 else 32.
Proof.
  unfold tolower. destruct (Z.eqb_spec x y) as [->|Hne]; [by rewrite Z.lxor_nilpotent|].
  destruct (x between 65 and 90) eqn:Ex, (y between 65 and 90) eqn:Ey; intros E; [lia|..|lia].
  - subst y. by apply letter_mix.
  - subst x. rewrite Z.lxor_comm. by apply letter_mix.
Qed.

Lemma mix_parity a b : map tolower a = map tolower b -> Z.lxor (mix a) (mix b) = if Nat.odd (differ a b) then 32 else 0.
Proof.
  revert b. induction a as [|x a IH]; intros [|y b]; try done. simpl. intros [= E1 E2]. specialize (IH b E2).
  assert (H : Z.lxor (Z.lxor (mix a) (s8 x)) (Z.lxor (mix b) (s8 y)) = Z.lxor (Z.lxor (mix a) (mix b)) (Z.lxor (s8 x) (s8 y))).
  { rewrite !Z.lxor_assoc. f_equal. rewrite <-!Z.lxor_assoc. f_equal. apply Z.lxor_comm. }
  rewrite H, IH, (case_mix x y E1). destruct (x =? y); simpl.
  - by rewrite Z.lxor_0_r.
  - rewrite Nat.odd_succ, <-Nat.negb_odd. by destruct (Nat.odd (differ a b)).
Qed.

Lemma same_id a b : map tolower a = map tolower b -> compute_ID a = compute_ID b <-> Nat.odd (differ a b) = false.
Proof.
  intros E. rewrite !compute_ID_mix, <-Z.lxor_eq_0_iff, <-u16_lxor, (mix_parity a b E). by destruct (Nat.odd _).
Qed.

(** C39: names are compared without regard to case, but a pair is found under a name in
    another case if and only if the number of letters that differ is even: the number of a
    name, compared first, is made from its characters as they are. *)
Theorem name_case (a p q : Z) (n1 n2 : bytes) (v : int_str) : n1 <> [] -> ~ In 0 n1 -> ~ In 0 n2 ->
  map tolower n1 = map tolower n2 -> s32 p <> 0 -> s32 q <> 0 ->
  let l := (add_avp (Some a) AVP_NAME_STR (Str (Cs p n1)) v []).2 in
  search_first_avp AVP_NAME_STR (Str (Cs q n2)) None l = if Nat.odd (differ n1 n2) then [] else l.
Proof.
  intros H1 Hz1 Hz2 E Hp Hq. assert (Hnz : forall z, s32 z <> 0 -> z <> 0) by (intros z Hz ->; by apply Hz).
  assert (H2 : n2 <> []) by (intros ->; by destruct n1).
  unfold add_avp. simpl. rewrite (proj2 (Z.eqb_neq _ _) Hp), (proj2 (Z.eqb_neq _ _) (Hnz p Hp)).
  replace (zlen n1 =? 0) with false by (destruct n1; [done|unfold zlen; simpl; lia]). simpl.
  rewrite search_first_from; [|by eexists|by split; [|split; [apply Hnz|]]]. simpl from. unfold matches.
  assert (Hn : name_is n2 (Avp a (compute_ID n1) AVP_NAME_STR (avp_body AVP_NAME_STR (Str (Cs p n1)) v)) = true).
  { apply name_is_eq. exists n1. split; [done|]. unfold name_eq, key. rewrite !c_string_id by done. split; [|done].
    unfold zlen. by rewrite <-(length_map tolower n1), E, length_map. }
  cbn [s_of s_txt id flags]. rewrite Hn. change (flags_match _ _) with true. change (is_set _ _) with true. cbn [andb].
  rewrite !andb_true_r. destruct (Z.eqb_spec (compute_ID n2) (compute_ID n1)) as [Ei|Ei].
  - symmetry in Ei. apply (same_id n1 n2 E) in Ei. by rewrite Ei.
  - destruct (Nat.odd (differ n1 n2)) eqn:Eo; [done|]. destruct Ei. symmetry. by apply same_id.
Qed.

(** ** Aliases *)

Definition apart (g g' : avp_galias) : Prop := same_text (alias g) (alias g') = false.
Definition distinct (gs : list avp_galias) : Prop := StronglySorted apart gs.

Lemma same_text_eq a b : same_text a b = true <-> name_eq a b.
Proof.
  unfold same_text, name_eq. rewrite andb_true_iff, Z.eqb_eq. unfold zlen. split; intros [H1 H2]; (split; [done|]);
    apply same_nocase_key; auto; lia.
Qed.

Lemma name_eq_sym a b : name_eq a b -> name_eq b a.
Proof. unfold name_eq. by intros [-> ->]. Qed.

Lemma name_eq_trans a b c : name_eq a b -> name_eq b c -> name_eq a c.
Proof. unfold name_eq. by intros [-> ->] [-> ->]. Qed.

Lemma check_apart al type name gs : check_avp_galias al type name gs = 0 -> forall g, In g gs -> same_text al (alias g) = false.
Proof.
  revert type. induction gs as [|g0 gs IH]; intros type; simpl; [done|]. destruct (same_text al (alias g0)) eqn:E; [done|].
  case_match; [done|]. intros Hc g [<-|Hg]; [done|]. by eapply IH.
Qed.

Lemma add_galias_distinct mem al type name gs : distinct gs ->
  let '(rc, gs') := add_avp_galias mem al type name gs in distinct gs' /\ exists new, gs' = new ++ gs.
Proof.
  intros Hd. unfold add_avp_galias. destruct (_ || _); [split; [done|by exists []]|]. destruct (Z.eqb_spec (check_avp_galias al type name gs) 0) as [Ec|Ec]; simpl; [|split; [done|by exists []]].
  destruct mem as [p|]; [|split; [done|by exists []]]. split; [|by eexists [_]]. constructor; [done|].
  apply List.Forall_forall. intros g Hg. by apply (check_apart _ _ _ _ Ec).
Qed.

Lemma lookup_alias t g gs : distinct gs -> In g gs -> name_eq t (alias g) -> lookup_avp_galias t gs = Some (a_type g, a_name g).
Proof.
  intros Hd Hg Ht. induction Hd as [|g0 gs Hd IH F]; [done|]. simpl. destruct Hg as [<-|Hg].
  - by rewrite (proj2 (same_text_eq _ _) Ht).
  - destruct (same_text t (alias g0)) eqn:E; [|by apply IH]. apply same_text_eq in E. rewrite List.Forall_forall in F.
    specialize (F g Hg). unfold apart in F. rewrite (proj2 (same_text_eq _ _)) in F; [done|].
    eapply name_eq_trans; [by apply name_eq_sym|done].
Qed.

Lemma span_app stop s : let '(a, b) := span stop s in s = a ++ b.
Proof. induction s as [|c s IH]; simpl; [done|]. destruct (stop c); [done|]. destruct (span stop s). simpl. by f_equal. Qed.

Lemma skip_space_length s : (length (skip_space s) <= length s)%nat.
Proof.
  unfold skip_space. pose proof (span_app (fun c => negb (isspace c)) s) as H. destruct (span _ s) as [a b]. subst s. rewrite length_app. simpl. lia.
Qed.

Lemma next_alias_length s al nm k rest : next_alias s = Some (al, nm, k, rest) -> (length rest < length s)%nat.
Proof.
  unfold next_alias. pose proof (span_app (fun c => (c =? §";") || isspace c || (c =? §"=")) s) as H1. destruct (span _ s) as [a s1].
  destruct (_ || _ || _) eqn:E; [done|]. apply orb_false_iff in E as [E _]. apply orb_false_iff in E as [E _].
  assert (0 < length a)%nat by (destruct a; [done|simpl; lia]). pose proof (skip_space_length s1) as L1.
  destruct (skip_space s1) as [|c s2]; [done|]. case_match; [done|]. pose proof (skip_space_length s2) as L2.
  pose proof (span_app (fun c => (c =? §";") || isspace c) (skip_space s2)) as H3. destruct (span _ (skip_space s2)) as [n s3].
  case_match; [done|]. pose proof (skip_space_length s3) as L3. assert (length (skip_space s2) = length n + length s3)%nat by (rewrite H3; apply length_app).
  assert (length s = length a + length s1)%nat by (rewrite H1; apply length_app). simpl in L1.
  destruct (skip_space s3) as [|c' s4]; [intros [= _ _ _ <-]; simpl; lia|]. simpl in L3. pose proof (skip_space_length s4).
  case_match; [done|]. case_match; [done|]. intros [= _ _ _ <-]. lia.
Qed.

Lemma alias_loop_returns fuel mem : forall p s gs, (length s < fuel)%nat -> distinct gs ->
  exists rc gs', alias_loop fuel mem p s gs = Ret (rc, gs') /\ distinct gs' /\ exists new, gs' = new ++ gs.
Proof.
  induction fuel as [|fuel IH]; intros p s gs Hl Hd; [lia|]. cbn [alias_loop].
  assert (Hstop : forall rc, exists rc' gs', @Ret (Z * list avp_galias) (rc, gs) = Ret (rc', gs') /\ distinct gs' /\ exists new, gs' = new ++ gs).
  { intros rc. exists rc, gs. split_and!; [done..|by exists []]. }
  destruct s as [|c s]; [by apply Hstop|]. destruct (next_alias (c :: s)) as [[[[al nm] k] rest]|] eqn:E; [|by apply Hstop].
  apply next_alias_length in E. destruct (parse_avp_name _ nm) as [[type name]|]; [|by apply Hstop].
  pose proof (add_galias_distinct (mem fuel) al type name gs Hd) as Ha. destruct (add_avp_galias _ al type name gs) as [rc gs1].
  destruct Ha as (Hd1 & new & Hn). destruct (negb _); [exists (-1), gs1; eauto|].
  destruct (IH (p + (zlen (c :: s) - zlen rest)) rest gs1) as (rc' & gs' & Er & Hd' & new' & Hn'); [lia|done|].
  exists rc', gs'. split_and!; auto. exists (new' ++ new). by rewrite Hn', Hn, app_assoc.
Qed.

Lemma memchr_none c s : ~ In c s -> memchr c s = None.
Proof.
  induction s as [|x s IH]; simpl; [done|]. intros H. rewrite (proj2 (Z.eqb_neq _ _)) by (intros ->; auto). by rewrite IH by auto.
Qed.

(** Aliases are unique and are resolved.  Whatever text defines aliases, the function
    that reads it returns and the aliases differ, without regard to case; and in the script
    every alias without a colon, in any case, stands for the name it was defined for. *)
Theorem aliases_resolved (mem : nat -> option Z) (p : Z) (def : bytes) (gs : list avp_galias) : distinct gs ->
  exists rc gs', add_avp_galias_str mem p def gs = Ret (rc, gs') /\ distinct gs' /\ (exists new, gs' = new ++ gs)
  /\ forall g t q, In g gs' -> t <> [] -> ~ In AVP_NAME_DELIM t -> same_text t (alias g) = true ->
      parse_avp_spec q t gs' = Some (a_type g, a_name g).
Proof.
  intros Hd. unfold add_avp_galias_str.
  destruct (alias_loop_returns (S (length (skip_space (c_string def)))) mem
    (p + (zlen (c_string def) - zlen (skip_space (c_string def)))) (skip_space (c_string def)) gs) as (rc & gs' & E & Hd' & Hn); [lia|done|].
  exists rc, gs'. split_and!; auto. intros g t q Hg Ht Hc Hs. unfold parse_avp_spec.
  destruct t as [|c t]; [done|]. rewrite memchr_none by done. apply lookup_alias; [done..|]. by apply same_text_eq.
Qed.

(** ** Examples *)

Definition demo_name : int_str := Str (Cs 4096 (B "Caller")).
Definition demo_list : list usr_avp :=
  [Avp 1 7 0 (DInt 3); Avp 2 (compute_ID (B "Caller")) 3 (str_str_data (B "Caller") (B "alice"));
   Avp 3 (compute_ID (B "other")) 1 (str_int_data (B "other") 1); Avp 4 (compute_ID (B "CALler")) 1 (str_int_data (B "CALler") 5)].

Lemma added_found_witness : (add_avp (Some 9) 3 demo_name (Str (Cs 8192 (B "bob"))) demo_list).1 = 0
  /\ search_first_avp 1 demo_name None (add_avp (Some 9) 3 demo_name (Str (Cs 8192 (B "bob"))) demo_list).2
      = Avp 9 (compute_ID (B "Caller")) 3 (str_str_data (B "Caller") (B "bob")) :: demo_list.
Proof.
  assert (H := added_found (Some 9) 3 demo_name (Str (Cs 8192 (B "bob"))) demo_list ltac:(by eexists) ltac:(by eexists)).
  simpl in H. destruct H as [_ H]. destruct H as (H1 & a & H2 & _ & _ & H4); [split; [done|by vm_compute]|].
  split; [exact H1|]. apply (H4 1); [reflexivity|by left].
Defined.

Lemma avps_destroyed_witness : destroy_avps 1 demo_name true demo_list =
  Ret (2, [Avp 1 7 0 (DInt 3); Avp 3 (compute_ID (B "other")) 1 (str_int_data (B "other") 1)]).
Proof.
  destruct (avps_destroyed 1 demo_name demo_list) as [H _]; [by eexists|split; [done|by vm_compute]|by repeat constructor; set_solver|].
  exact H.
Defined.

Lemma avps_enumerated_witness : map get_avp_val (enumerate 5 (search_first_avp 1 demo_name None demo_list)) = [VStr (B "alice"); VInt 5].
Proof.
  change 5%nat with (S (length demo_list)). rewrite (avps_enumerated 1 demo_name demo_list); [reflexivity|by eexists|split; [done|by vm_compute]|reflexivity| |].
  - repeat (apply List.Forall_cons; [first [exact I | eexists; split; reflexivity]|]). apply List.Forall_nil.
  - intros a Ha _. repeat (destruct Ha as [<-|Ha]; [reflexivity|]). destruct Ha.
Defined.

Lemma name_case_witness :
  search_first_avp AVP_NAME_STR (Str (Cs 4096 (B "caller"))) None (add_avp (Some 9) AVP_NAME_STR demo_name (Num 1) []).2 = []
  /\ search_first_avp AVP_NAME_STR (Str (Cs 4096 (B "cAller"))) None (add_avp (Some 9) AVP_NAME_STR demo_name (Num 1) []).2 <> [].
Proof.
  split.
  - apply (name_case 9 4096 4096 (B "Caller") (B "caller") (Num 1)); vm_compute; try done; intuition congruence.
  - unfold demo_name. rewrite (name_case 9 4096 4096 (B "Caller") (B "cAller") (Num 1)); vm_compute; try done; intuition congruence.
Defined.

Lemma aliases_resolved_witness : exists gs, add_avp_galias_str (fun n => Some (Z.of_nat n)) 4096 (B " who = s:Caller; x=i:7") [] = Ret (0, gs)
  /\ parse_avp_spec 0 (B "WHO") gs = Some (1, Str (Cs 21 (B "Caller"))).
Proof.
  destruct (aliases_resolved (fun n => Some (Z.of_nat n)) 4096 (B " who = s:Caller; x=i:7") [] ltac:(constructor)) as (rc & gs & E & _ & _ & H).
  exists gs. vm_compute in E. injection E as <- <-. split; [reflexivity|].
  refine (H (Ga (B "who") 1 (Str (Cs 21 (B "Caller")))) (B "WHO") 0 _ _ _ _); [by right; left|done|by vm_compute; intuition congruence|reflexivity].
Defined.

End AvpSpec.
