(* ===== verification/Auth.v ===== *)
(** * Digest authentication ([src/modules/auth], [src/modules/auth_db/authorize.c])

    A request without credentials is challenged with a nonce, which holds its expiry and a
    hash of it with a secret; credentials sent in answer are checked against the nonce and
    the password in the database, and columns of the subscriber are stored as
    attribute-value pairs.

    MD5 is a function from texts to 16 bytes; several [MD5Update] hash the texts one after
    the other.  A [str] is [None] if its pointer is null.  The parsers of headers, the
    database and the clock are arguments. *)

From Stdlib Require Import ZArith Lia List String Ascii Bool.
From stdpp Require Import base tactics option list gmap sets.
From S2P Require Import Prelude Ut Avp.

Module Auth.

(** ** Numbers in hexadecimal *)

Definition hexdig (j : Z) : Z := if j <=? 9 then j + §"0" else j + §"a" - 10.

(** A [char] as two digits. *)
Definition hex_byte (c : Z) : bytes := [hexdig (Z.land (Z.shiftr c 4) 15); hexdig (Z.land c 15)].

(** The bytes of [htonl(_s)] in the order of the memory. *)
Definition htonl (v : Z) : bytes := map (fun i => u8 (Z.shiftr v i)) [24; 16; 8; 0].

Definition integer2hex (v : Z) : bytes := flat_map (fun c => hex_byte (s8 c)) (htonl v).

(** Eight characters, or 0 if one is no digit. *)
Fixpoint hex2integer_loop (n : nat) (s : bytes) (r : Z) : res Z :=
  match n with
  | O => Ret (s32 r)
  | S n =>
      match s with
      | [] => Fault OutOfBounds
      | c :: s =>
          match Ut.hex_digit (s8 c) with
          | Some d => hex2integer_loop n s (u32 (u32 (r * 16) + d))
          | None => Ret 0
          end
      end
  end.

Definition hex2integer (s : bytes) : res Z := hex2integer_loop 8 s 0.

Section Md5.

Context (md5 : bytes -> bytes).

(** ** Nonces *)

Definition NONCE_LEN : Z := 8 + 32.

Definition calc_nonce (expires : Z) (secret : bytes) : bytes :=
  integer2hex expires ++ (Ut.string2hex (md5 (integer2hex expires ++ secret))).1.

Definition get_nonce_expires (n : bytes) : res Z := hex2integer n.

Definition check_nonce (nonce : option bytes) (secret : bytes) : res Z :=
  match nonce with
  | None => Ret (-1)
  | Some n =>
      if negb (NONCE_LEN =? zlen n) then Ret 1
      else
        expires ← get_nonce_expires n;
        if bool_decide (calc_nonce expires secret = n) then Ret 0 else Ret 2
  end.

Definition is_nonce_stale (nonce : option bytes) (now : Z) : res Z :=
  match nonce with
  | None => Ret 0
  | Some n => e ← get_nonce_expires n; Ret (if e <? now then 1 else 0)
  end.

(** ** Digests *)

Definition HASHHEXLEN : Z := 32.

Definition cvt_hex (b : bytes) : bytes := flat_map hex_byte b.

Inductive ha_alg_t : Type := HA_MD5 | HA_MD5_SESS.

Definition calc_HA1 (alg : ha_alg_t) (username realm password nonce cnonce : bytes) : bytes :=
  let HA1 := md5 (username ++ B ":" ++ realm ++ B ":" ++ password) in
  let HA1 := match alg with HA_MD5_SESS => md5 (HA1 ++ B ":" ++ nonce ++ B ":" ++ cnonce) | HA_MD5 => HA1 end in
  cvt_hex HA1.

(** [HASHHEXLEN] bytes of an array. *)
Definition hash_bytes (a : bytes) : bytes := take (Z.to_nat HASHHEXLEN) a.

(** [ha1] and [hentity] are arrays, of which [HASHHEXLEN] bytes are hashed whatever text is
    in them. *)
Definition calc_response (ha1 nonce nc cnonce qop : bytes) (auth_int : bool) (method uri hentity : bytes) : bytes :=
  let HA2 := md5 (method ++ B ":" ++ uri ++ (if auth_int then B ":" ++ hash_bytes hentity else [])) in
  cvt_hex (md5 (hash_bytes ha1 ++ B ":" ++ nonce ++ B ":" ++
    (if negb (zlen qop =? 0) then nc ++ B ":" ++ cnonce ++ B ":" ++ qop ++ B ":" else []) ++ cvt_hex HA2)).

(** ** The challenge *)

(** The length, and the text in the buffer of that length and one. *)
Definition auth_hf_len (stale : bool) (realm : bytes) (qop : bool) (hf_name : bytes) : Z :=
  zlen hf_name + zlen (B ": Digest realm=") + 1 + zlen realm + 1 + zlen (B ", nonce=") + 1 + NONCE_LEN + 1
  + (if qop then zlen (B ", qop=") + 1 + zlen (B "auth") + 1 else 0) + (if stale then zlen (B ", stale=true") else 0) + 2.

Definition quote : Z := 34.

Definition build_auth_hf (stale : bool) (realm : bytes) (qop : bool) (hf_name : bytes) (time nonce_expire : Z) (secret : bytes) : bytes :=
  hf_name ++ B ": Digest realm=" ++ [quote] ++ realm ++ [quote] ++ B ", nonce=" ++ [quote]
  ++ calc_nonce (s32 (time + nonce_expire)) secret ++ [quote]
  ++ (if qop then B ", qop=" ++ [quote] ++ B "auth" ++ [quote] else []) ++ (if stale then B ", stale=true" else []) ++ [13; 10].

(** ** Credentials *)

Inductive qop_type : Type := QOP_UNSPEC | QOP_AUTH | QOP_AUTHINT | QOP_OTHER.

Record username : Type := Un { whole : option bytes; user : option bytes; domain : option bytes }.

Record dig_cred : Type := Dc {
  d_username : username; d_realm : option bytes; d_nonce : option bytes; d_uri : option bytes; d_response : option bytes;
  d_cnonce : option bytes; d_qop : qop_type; d_qop_str : option bytes; d_nc : option bytes
}.

Definition txt (s : option bytes) : bytes := default [] s.

(** [strncmp] of texts of one length. *)
Definition same_strn (a b : bytes) : bool := bool_decide (c_string a = c_string b).

Definition check_dig_cred (c : dig_cred) : Z :=
  let u := d_username c in
  Z.lor (if absent (user u) then 1 else 0)
  (Z.lor (if absent (d_realm c) then 2 else 0)
  (Z.lor (match domain u with
          | Some d => if negb (zlen d =? zlen (txt (d_realm c))) || negb (same_strn d (txt (d_realm c))) then 128 else 0
          | None => 0 end)
  (Z.lor (if absent (d_nonce c) then 4 else 0)
  (Z.lor (if absent (d_uri c) then 8 else 0)
  (Z.lor (if absent (d_response c) then 16 else 0)
         (match d_qop c with
          | QOP_AUTH | QOP_AUTHINT => Z.lor (if absent (d_cnonce c) then 32 else 0) (if absent (d_nc c) then 64 else 0)
          | _ => 0 end)))))).

(** The headers with credentials: what [parse_credentials] returns for each, what it has
    read, and whether the search for the next header fails. *)
Record cred_hdr : Type := Ch { parse_rc : Z; digest : dig_cred; next_fails : bool }.

Fixpoint find_loop (hs : list cred_hdr) (realm : bytes) : Z * option dig_cred :=
  match hs with
  | [] => (1, None)
  | h :: hs =>
      if parse_rc h <? 0 then ((if parse_rc h =? -1 then -2 else -3), None)
      else
        let r := txt (d_realm (digest h)) in
        if (parse_rc h =? 0) && (zlen r =? zlen realm) && Avp.same_nocase realm r then (0, Some (digest h))
        else if next_fails h then (-4, None)
        else find_loop hs realm
  end.

Definition find_credentials (parse_fails : bool) (hs : list cred_hdr) (realm : bytes) : Z * option dig_cred :=
  if parse_fails then (-1, None) else find_loop hs realm.

Definition strip_realm (realm_prefix realm : bytes) : bytes :=
  if zlen realm_prefix =? 0 then realm
  else if zlen realm <? zlen realm_prefix then realm
  else if bool_decide (realm_prefix = take (length realm_prefix) realm) then drop (length realm_prefix) realm
  else realm.

Inductive auth_result_t : Type :=
| AUTH_ERROR | NO_CREDENTIALS | STALE_NONCE | INVALID_PASSWORD | USER_UNKNOWN | ERROR | AUTHORIZED | DO_AUTHORIZATION.

(** The request: its method, the host that gives the realm and its credentials. *)
Record request : Type := Rq {
  method : bytes; is_ack_or_cancel : bool; from_host : option bytes; parse_fails : bool; creds : list cred_hdr
}.

Section Requests.

Context (realm_prefix secret : bytes).

(** The result, the realm, the credentials found and the code of the reply sent. *)
Definition pre_auth (m : request) (realm : bytes) : res (auth_result_t * bytes * option dig_cred * option Z) :=
  if is_ack_or_cancel m then Ret (AUTHORIZED, realm, None, None)
  else
    match (if zlen realm =? 0 then strip_realm realm_prefix <$> from_host m else Some realm) with
    | None => Ret (ERROR, realm, None, Some 400)
    | Some realm =>
        let '(ret, c) := find_credentials (parse_fails m) (creds m) realm in
        if ret <? 0 then Ret (ERROR, realm, None, Some (if ret =? -2 then 500 else 400))
        else match c with
             | None => Ret (NO_CREDENTIALS, realm, None, None)
             | Some c =>
                 if negb (check_dig_cred c =? 0) then Ret (ERROR, realm, Some c, Some 400)
                 else
                   rc ← check_nonce (d_nonce c) secret;
                   if negb (rc =? 0) then Ret (STALE_NONCE, realm, Some c, None)
                   else Ret (DO_AUTHORIZATION, realm, Some c, None)
             end
    end.

(** With the flag for the next challenge; [mark_ok]: whether the credentials could be
    marked. *)
Definition post_auth (m : request) (c : dig_cred) (mark_ok : bool) (now : Z) : res (auth_result_t * bool * option (Z * bytes)) :=
  st ← is_nonce_stale (d_nonce c) now;
  let '(r, stale) := if negb (st =? 0) && negb (is_ack_or_cancel m) then (STALE_NONCE, true) else (AUTHORIZED, false) in
  if mark_ok then Ret (r, stale, None) else Ret (ERROR, stale, Some (500, B "Bad Request")).

(** [hent] is the array of this name, which is not written before it is used. *)
Definition check_response (c : dig_cred) (method ha1 hent : bytes) : Z :=
  if negb (zlen (txt (d_response c)) =? 32) then 1
  else
    let resp := calc_response ha1 (txt (d_nonce c)) (txt (d_nc c)) (txt (d_cnonce c)) (txt (d_qop_str c))
                  (match d_qop c with QOP_AUTHINT => true | _ => false end) method (txt (d_uri c)) hent in
    if bool_decide (resp = txt (d_response c)) then 0 else 2.

(** ** Authorization with the database *)

(** A column of a subscriber, and the password with the other columns. *)
Inductive column : Type :=
| DB_STR (null : bool) (s : Avp.cstr)
| DB_STRING (null : bool) (s : Avp.cstr)
| DB_INT (null : bool) (n : Z)
| DB_OTHER.

Record row : Type := Row { password : option bytes; columns : list column }.

(** The query: with the second password column or not, the user and the domain if it is
    used. *)
Context (calc_ha1 use_domain : bool) (credentials : list (Z * Avp.int_str))
  (query : bool -> bytes -> option bytes -> option (list row)).

Definition HA1_SIZE : Z := 256.

(** A text with its terminator written at the start of an array. *)
Definition put_string (s a : bytes) : bytes := s ++ 0 :: drop (S (length s)) a.

(** A row without password is a null pointer; the hash, computed or stored, is written into
    [ha1[256]], which holds whatever was on the stack before: the result is that array. *)
Definition get_ha1 (u : username) (dom stack : bytes) : res (Z * bytes * option row) :=
  let second := negb (zlen (txt (domain u)) =? 0) && negb calc_ha1 in
  let d := if negb (zlen (txt (domain u)) =? 0) then txt (domain u) else dom in
  match query second (txt (user u)) (if use_domain then Some d else None) with
  | None => Ret (-1, stack, None)
  | Some [] => Ret (1, stack, None)
  | Some (r :: _) =>
      match password r with
      | None => Fault NullDeref
      | Some pw =>
          if calc_ha1 then Ret (0, put_string (calc_HA1 HA_MD5 (txt (whole u)) dom pw [] []) stack, Some r)
          else if HA1_SIZE <=? zlen pw then Fault OutOfBounds
          else Ret (0, put_string pw stack, Some r)
      end
  end.

(** [mem]: what memory the pairs get. *)
Fixpoint generate_avps (mem : list (option Z)) (cs : list (Z * Avp.int_str)) (vs : list column) (l : list Avp.usr_avp) : list Avp.usr_avp :=
  match cs, vs with
  | (type, name) :: cs, v :: vs =>
      let store f val :=
        let '(rc, l) := Avp.add_avp (default None (head mem)) f name val l in
        if negb (rc =? 0) then l else generate_avps (tail mem) cs vs l in
      let skip := generate_avps mem cs vs l in
      match v with
      | DB_STR null s =>
          if null || (Avp.s_ptr s =? 0) || (zlen (Avp.s_txt s) =? 0) then skip else store (Z.lor type Avp.AVP_VAL_STR) (Avp.Str s)
      | DB_STRING null s =>
          let s := Avp.Cs (Avp.s_ptr s) (c_string (Avp.s_txt s)) in
          if null || (Avp.s_ptr s =? 0) || (zlen (Avp.s_txt s) =? 0) then skip else store (Z.lor type Avp.AVP_VAL_STR) (Avp.Str s)
      | DB_INT null n => if null then skip else store type (Avp.Num n)
      | DB_OTHER => skip
      end
  | _, _ => l
  end.

(** The result, the stale flag of the credentials and the pairs; [realm] is [None] if the
    pseudo-variables of the realm have no value, and empty if none is given; [stack] and
    [hent] are what the arrays [ha1] and [hent] hold before they are written. *)
Definition authorize (m : request) (realm : option bytes) (mark_ok : bool) (now : Z) (stack hent : bytes) (mem : list (option Z)) (l : list Avp.usr_avp) :
    res (auth_result_t * bool * list Avp.usr_avp) :=
  match realm with None => Ret (AUTH_ERROR, false, l) | Some realm =>
  x ← pre_auth m realm;
  match x with
  | (DO_AUTHORIZATION, dom, Some c, _) =>
      y ← get_ha1 (d_username c) dom stack;
      match y with
      | (rc, ha1, r) =>
          if rc <? 0 then Ret (ERROR, false, l)
          else if rc >? 0 then Ret (USER_UNKNOWN, false, l)
          else if check_response c (method m) ha1 hent =? 0 then
            z ← post_auth m c mark_ok now;
            match z with
            | (AUTHORIZED, stale, _) => Ret (AUTHORIZED, stale, match r with Some r => generate_avps mem credentials (columns r) l | None => l end)
            | (ret, stale, _) => Ret (ret, stale, l)
            end
          else Ret (INVALID_PASSWORD, false, l)
      end
  | (ret, _, _, _) => Ret (ret, false, l)
  end end.

End Requests.
End Md5.

End Auth.
