(* ===== verification/AuthSpec.v ===== *)
(** * What digest authentication promises

    A nonce is accepted only if it was made with the secret; nobody is authorized without an
    answer to a nonce that has not expired made from the password in the database, and who
    answers the challenge with the password in time is. *)

From Stdlib Require Import ZArith Lia List String Ascii Bool.
From stdpp Require Import base tactics option list gmap sets.
From S2P Require Import Prelude Ut Avp AvpSpec Auth.

Module AuthSpec.
Import Auth.

(** ** Nonces *)

Definition nibble (v k : Z) : Z := (v / 2 ^ k) mod 16.

Lemma s8_shift z : exists k, s8 z = z - 256 * k.
Proof. exists ((z + 128) / 256). unfold s8. change (2 ^ 7) with 128. change (2 ^ 8) with 256. pose proof (Z.div_mod (z + 128) 256). lia. Qed.

Lemma hex_byte_nibbles v k : 0 <= k -> hex_byte (s8 (u8 (Z.shiftr v k))) = [hexdig (nibble v (k + 4)); hexdig (nibble v k)].
Proof.
  intros Hk. destruct (s8_shift (u8 (Z.shiftr v k))) as [j ->]. unfold hex_byte, nibble.
  change 15 with (Z.ones 4). rewrite !Z.land_ones, !Z.shiftr_div_pow2 by lia. rewrite Z.pow_add_r, <-Z.div_div by lia.
  set (w := v / 2 ^ k). unfold u8. change (2 ^ 8) with 256. change (2 ^ 4) with 16. pose proof (Z.div_mod w 256 ltac:(lia)) as E.
  assert (E1 : (w mod 256 - 256 * j) mod 16 = w mod 16).
  { symmetry. apply Z.mod_unique_pos with (w / 16 - 16 * (w / 256) - 16 * j); [apply Z.mod_pos_bound; lia|].
    pose proof (Z.div_mod w 16). lia. }
  assert (E2 : (w mod 256 - 256 * j) / 16 = w / 16 - 16 * (w / 256) - 16 * j).
  { symmetry. apply Z.div_unique_pos with (w mod 16); [apply Z.mod_pos_bound; lia|]. pose proof (Z.div_mod w (16)). lia. }
  rewrite E1, E2. do 2 f_equal. replace (w / 16 - 16 * (w / 256) - 16 * j) with (w / 16 + (- (w / 256) - j) * 16) by lia.
  by rewrite Z.mod_add by lia.
Qed.

Lemma integer2hex_nibbles v : integer2hex v = map (fun k => hexdig (nibble v k)) [28; 24; 20; 16; 12; 8; 4; 0].
Proof. unfold integer2hex, htonl. cbn [map flat_map]. rewrite !hex_byte_nibbles by lia. done. Qed.

Lemma hexdig_digit j : 0 <= j < 16 -> Ut.hex_digit (s8 (hexdig j)) = Some j.
Proof.
  intros H. assert (A : forallb (fun j => bool_decide (Ut.hex_digit (s8 (hexdig j)) = Some j)) (seqZ 0 16) = true) by reflexivity.
  rewrite forallb_forall in A. specialize (A j). rewrite bool_decide_eq_true in A. apply A, list_elem_of_In, elem_of_seqZ. lia.
Qed.

Lemma nibble_range v k : 0 <= nibble v k < 16.
Proof. apply Z.mod_pos_bound. lia. Qed.

Lemma hex_loop_nibbles v ks rest r : hex2integer_loop (length ks) (map (fun k => hexdig (nibble v k)) ks ++ rest) (u32 r)
  = Ret (s32 (u32 (fold_left (fun r k => r * 16 + nibble v k) ks r))).
Proof.
  revert r. induction ks as [|k ks IH]; intros r; [done|]. simpl. rewrite hexdig_digit by apply nibble_range.
  rewrite <-IH. f_equal. unfold u32. rewrite Z.add_mod_idemp_l by lia. rewrite (Z.add_mod (r mod 2 ^ 32 * 16)), Z.mul_mod_idemp_l, <-Z.add_mod by lia. done.
Qed.

Lemma nibble_sum v : fold_left (fun r k => r * 16 + nibble v k) [28; 24; 20; 16; 12; 8; 4; 0] 0 = v mod 2 ^ 32.
Proof.
  assert (S : forall k, 0 <= k -> v mod 2 ^ (k + 4) = v mod 2 ^ k + 2 ^ k * nibble v k).
  { intros k Hk. unfold nibble. rewrite Z.pow_add_r, Z.rem_mul_r by lia. done. }
  assert (S28 : v mod 2 ^ 32 = v mod 2 ^ 28 + 2 ^ 28 * nibble v 28) by exact (S 28 ltac:(lia)).
  assert (S24 : v mod 2 ^ 28 = v mod 2 ^ 24 + 2 ^ 24 * nibble v 24) by exact (S 24 ltac:(lia)).
  assert (S20 : v mod 2 ^ 24 = v mod 2 ^ 20 + 2 ^ 20 * nibble v 20) by exact (S 20 ltac:(lia)).
  assert (S16 : v mod 2 ^ 20 = v mod 2 ^ 16 + 2 ^ 16 * nibble v 16) by exact (S 16 ltac:(lia)).
  assert (S12 : v mod 2 ^ 16 = v mod 2 ^ 12 + 2 ^ 12 * nibble v 12) by exact (S 12 ltac:(lia)).
  assert (S8 : v mod 2 ^ 12 = v mod 2 ^ 8 + 2 ^ 8 * nibble v 8) by exact (S 8 ltac:(lia)).
  assert (S4 : v mod 2 ^ 8 = v mod 2 ^ 4 + 2 ^ 4 * nibble v 4) by exact (S 4 ltac:(lia)).
  assert (S0 : v mod 2 ^ 4 = v mod 2 ^ 0 + 2 ^ 0 * nibble v 0) by exact (S 0 ltac:(lia)).
  cbn [fold_left]. change (2 ^ 0) with 1 in S0. rewrite Z.mod_1_r in S0. lia.
Qed.

(** The expiry of a nonce is read back. *)
Lemma hex_roundtrip v rest : - 2 ^ 31 <= v < 2 ^ 31 -> hex2integer (integer2hex v ++ rest) = Ret v.
Proof.
  intros Hv. unfold hex2integer. rewrite integer2hex_nibbles.
  etrans; [exact (hex_loop_nibbles v [28; 24; 20; 16; 12; 8; 4; 0] rest 0)|]. rewrite nibble_sum. unfold u32. rewrite Z.mod_mod by lia. f_equal.
  unfold s32. destruct (Z.ltb_spec v 0).
  - rewrite <-(Z.mod_add v 1 (2 ^ 32)), (Z.mod_small (v + 1 * 2 ^ 32)) by lia.
    replace (v + 1 * 2 ^ 32 + 2 ^ 31) with (v + 2 ^ 31 + 1 * 2 ^ 32) by lia. rewrite Z.mod_add, Z.mod_small; lia.
  - rewrite (Z.mod_small v), Z.mod_small by lia. lia.
Qed.

Section Md5.

Context (md5 : bytes -> bytes).
Hypothesis md5_length : forall x, length (md5 x) = 16%nat.

Lemma string2hex_length s : s <> [] -> length (Ut.string2hex s).1 = (2 * length s)%nat.
Proof.
  intros Hs. assert (H : length (Ut.string2hex_loop s) = (2 * length s)%nat) by (clear Hs; induction s; simpl; lia). by destruct s.
Qed.

Lemma cvt_hex_length s : length (cvt_hex s) = (2 * length s)%nat.
Proof. unfold cvt_hex. induction s as [|c s IH]; [done|]. cbn [flat_map]. rewrite length_app, IH. simpl. lia. Qed.

Lemma calc_nonce_length e secret : zlen (calc_nonce md5 e secret) = NONCE_LEN.
Proof.
  unfold calc_nonce, zlen. rewrite length_app, string2hex_length, md5_length, integer2hex_nibbles; [done|].
  intros E. pose proof (md5_length (integer2hex e ++ secret)) as H. by rewrite E in H.
Qed.

Lemma calc_nonce_expires e secret : - 2 ^ 31 <= e < 2 ^ 31 -> get_nonce_expires (calc_nonce md5 e secret) = Ret e.
Proof. apply hex_roundtrip. Qed.

(** Eight characters are read. *)
Lemma hex_loop_returns n : forall s r, (n <= length s)%nat -> exists v, hex2integer_loop n s r = Ret v /\ - 2 ^ 31 <= v < 2 ^ 31.
Proof.
  induction n as [|n IH]; intros s r Hs; [eexists; split; [done|apply s32_range]|]. destruct s as [|c s]; simpl in *; [lia|].
  destruct (Ut.hex_digit (s8 c)); [apply IH; lia|]. exists 0. split; [done|lia].
Qed.

(** A nonce that is accepted is one that was made with the secret. *)
Lemma nonce_genuine n secret : check_nonce md5 (Some n) secret = Ret 0 <-> exists e, - 2 ^ 31 <= e < 2 ^ 31 /\ n = calc_nonce md5 e secret.
Proof.
  unfold check_nonce. split.
  - destruct (Z.eqb_spec NONCE_LEN (zlen n)) as [El|El]; [|done]. cbn [negb].
    destruct (hex_loop_returns 8 n 0) as (v & E & Hv); [unfold NONCE_LEN, zlen in El; lia|]. unfold get_nonce_expires, hex2integer. rewrite E. run.
    case_bool_decide as H; [|done]. intros _. by exists v.
  - intros (e & He & ->). rewrite calc_nonce_length, Z.eqb_refl. cbn [negb]. rewrite calc_nonce_expires by done. run. by rewrite bool_decide_true.
Qed.

Lemma check_nonce_returns n secret : exists rc, check_nonce md5 n secret = Ret rc.
Proof.
  unfold check_nonce. destruct n as [n|]; [|by eexists]. destruct (Z.eqb_spec NONCE_LEN (zlen n)) as [El|El]; [|by eexists]. cbn [negb].
  destruct (hex_loop_returns 8 n 0) as (v & E & Hv); [unfold NONCE_LEN, zlen in El; lia|]. unfold get_nonce_expires, hex2integer. rewrite E. run.
  case_bool_decide; by eexists.
Qed.

(** ** Authorization *)

Section Config.

Context (realm_prefix secret : bytes) (calc_ha1 use_domain : bool) (credentials : list (Z * Avp.int_str))
  (query : bool -> bytes -> option bytes -> option (list row)).

Abbreviation authorize := (authorize md5 realm_prefix secret calc_ha1 use_domain credentials query).
Abbreviation get_ha1 := (get_ha1 md5 calc_ha1 use_domain query).

Lemma find_loop_found hs realm c : find_loop hs realm = (0, Some c) ->
  exists h, In h hs /\ digest h = c /\ parse_rc h = 0 /\ AvpSpec.name_eq realm (txt (d_realm c)).
Proof.
  induction hs as [|h hs IH]; simpl; [done|]. destruct (parse_rc h <? 0); [by case_match|].
  destruct (_ && _) eqn:E.
  - intros [= <-]. apply andb_true_iff in E as [E E3]. apply andb_true_iff in E as [E1 E2]. apply Z.eqb_eq in E1, E2.
    exists h. split_and!; auto. split; [done|]. apply AvpSpec.same_nocase_key; [unfold zlen in E2; lia|done].
  - destruct (next_fails h); [done|]. intros H. destruct (IH H) as (h' & ? & ?). eauto.
Qed.

(** The realm for which a request needs credentials: the one the script gives, or the host
    of the request without the prefix. *)
Definition realm_for (m : request) (realm : bytes) : option bytes :=
  if bool_decide (realm = []) then strip_realm realm_prefix <$> from_host m else Some realm.

Lemma realm_for_eq m realm : (if zlen realm =? 0 then strip_realm realm_prefix <$> from_host m else Some realm) = realm_for m realm.
Proof.
  unfold realm_for. destruct realm as [|z realm]; [done|]. rewrite bool_decide_false by done.
  by rewrite (proj2 (Z.eqb_neq _ 0)) by (rewrite zlen_cons; pose proof (zlen_nonneg realm); lia).
Qed.

(** What [pre_auth] has found when the password is to be checked. *)
Lemma pre_auth_found m realm dom c o : pre_auth md5 realm_prefix secret m realm = Ret (DO_AUTHORIZATION, dom, Some c, o) ->
  is_ack_or_cancel m = false /\ (exists h, In h (creds m) /\ digest h = c /\ parse_rc h = 0 /\ AvpSpec.name_eq dom (txt (d_realm c)))
  /\ check_dig_cred c = 0 /\ check_nonce md5 (d_nonce c) secret = Ret 0 /\ realm_for m realm = Some dom.
Proof.
  unfold pre_auth. rewrite realm_for_eq. destruct (is_ack_or_cancel m); [done|]. destruct (realm_for m realm) as [r|] eqn:Erf; [|done].
  unfold find_credentials. destruct (parse_fails m); [done|]. destruct (find_loop (creds m) r) as [ret c'] eqn:Ef.
  destruct (ret <? 0) eqn:Er; [done|]. destruct c' as [c'|]; [|done]. destruct (Z.eqb_spec (check_dig_cred c') 0) as [Ec|]; [|done]. cbn [negb].
  destruct (check_nonce_returns (d_nonce c') secret) as [rc En]. rewrite En. run. destruct (Z.eqb_spec rc 0) as [->|]; [|done].
  intros [= -> <- _]. assert (ret = 0) as -> by (clear -Ef; revert Ef; generalize (creds m); induction l; simpl; [done|]; repeat case_match; try done; congruence).
  split_and!; auto. by apply find_loop_found.
Qed.

Lemma pre_auth_not m realm r dom c o : is_ack_or_cancel m = false -> pre_auth md5 realm_prefix secret m realm = Ret (r, dom, c, o) -> r <> AUTHORIZED.
Proof.
  intros Hm. unfold pre_auth. rewrite Hm. destruct (if zlen realm =? 0 then _ else _); [|by intros [= <- _ _ _]].
  destruct (find_credentials _ _ _) as [ret c']. destruct (ret <? 0); [by intros [= <- _ _ _]|]. destruct c' as [c'|]; [|by intros [= <- _ _ _]].
  destruct (negb _); [by intros [= <- _ _ _]|]. destruct (check_nonce_returns (d_nonce c') secret) as [rc ->]. run.
  destruct (negb _); by intros [= <- _ _ _].
Qed.

(** ** The digest of RFC 2617 *)

Definition H (x : bytes) : bytes := cvt_hex (md5 x).
Definition KD (s d : bytes) : bytes := H (s ++ B ":" ++ d).

(** The response to credentials of a request, from the hash of the user, the realm and the
    password. *)
Definition response_for (c : dig_cred) (meth h1 hent : bytes) : bytes :=
  let A2 := meth ++ B ":" ++ txt (d_uri c) ++ match d_qop c with QOP_AUTHINT => B ":" ++ hash_bytes hent | _ => [] end in
  KD h1 (match txt (d_qop_str c) with
         | [] => txt (d_nonce c) ++ B ":" ++ H A2
         | q => txt (d_nonce c) ++ B ":" ++ txt (d_nc c) ++ B ":" ++ txt (d_cnonce c) ++ B ":" ++ q ++ B ":" ++ H A2
         end).

Lemma calc_response_for c meth ha1 hent :
  calc_response md5 ha1 (txt (d_nonce c)) (txt (d_nc c)) (txt (d_cnonce c)) (txt (d_qop_str c))
    (match d_qop c with QOP_AUTHINT => true | _ => false end) meth (txt (d_uri c)) hent = response_for c meth (hash_bytes ha1) hent.
Proof.
  unfold calc_response, response_for, KD, H. destruct (txt (d_qop_str c)) as [|z q].
  - change (negb (zlen [] =? 0)) with false. by destruct (d_qop c).
  - rewrite (proj2 (Z.eqb_neq _ 0)) by (rewrite zlen_cons; pose proof (zlen_nonneg q); lia). cbn [negb]. destruct (d_qop c); by rewrite <-?app_assoc.
Qed.

Lemma response_is c meth ha1 hent : check_response md5 c meth ha1 hent = 0 -> d_response c = Some (response_for c meth (hash_bytes ha1) hent).
Proof.
  unfold check_response. destruct (zlen (txt (d_response c)) =? 32) eqn:E; [|done]. cbn [negb]. rewrite calc_response_for.
  case_bool_decide as Hr; [|done]. intros _. rewrite Hr. by destruct (d_response c).
Qed.

(** The 32 bytes the digest starts from: the hash of the user, the realm and the password,
    or the first bytes of the stored hash, followed by its terminator and what the array held
    if it is shorter. *)
Definition hash_of (u : username) (dom pw stack : bytes) : bytes :=
  if calc_ha1 then H (txt (whole u) ++ B ":" ++ dom ++ B ":" ++ pw) else hash_bytes (put_string pw stack).

Lemma hash_bytes_put s a : length s = 32%nat -> hash_bytes (put_string s a) = s.
Proof. intros E. unfold hash_bytes, put_string. change (Z.to_nat HASHHEXLEN) with 32%nat. rewrite <-E. apply take_app_length. Qed.

Lemma H_length x : length (H x) = 32%nat.
Proof. unfold H. by rewrite cvt_hex_length, md5_length. Qed.

(** The row the database gives for a user. *)
Definition subscriber (u : username) (dom : bytes) : option (list row) :=
  let d := match txt (domain u) with [] => dom | d => d end in
  query (match txt (domain u) with [] => false | _ => negb calc_ha1 end) (txt (user u)) (if use_domain then Some d else None).

Lemma get_ha1_subscriber u dom stack : get_ha1 u dom stack =
  match subscriber u dom with
  | None => Ret (-1, stack, None)
  | Some [] => Ret (1, stack, None)
  | Some (r :: _) => match password r with
                     | None => Fault NullDeref
                     | Some pw => if negb calc_ha1 && (HA1_SIZE <=? zlen pw) then Fault OutOfBounds
                                  else Ret (0, put_string (if calc_ha1 then H (txt (whole u) ++ B ":" ++ dom ++ B ":" ++ pw) else pw) stack, Some r)
                     end
  end.
Proof.
  unfold Auth.get_ha1, subscriber. destruct (txt (domain u)) as [|z q].
  - change (negb (zlen [] =? 0)) with false. cbn [andb]. destruct (query _ _ _) as [[|r rs]|]; try done.
    destruct (password r); [|done]. by destruct calc_ha1.
  - rewrite (proj2 (Z.eqb_neq _ 0)) by (rewrite zlen_cons; pose proof (zlen_nonneg q); lia). cbn [negb andb].
    destruct (query _ _ _) as [[|r rs]|]; try done. destruct (password r); [|done]. by destruct calc_ha1.
Qed.

Lemma get_ha1_hash u dom stack ha1 r : get_ha1 u dom stack = Ret (0, ha1, r) ->
  exists r' rs pw, r = Some r' /\ subscriber u dom = Some (r' :: rs) /\ password r' = Some pw /\ hash_bytes ha1 = hash_of u dom pw stack.
Proof.
  rewrite get_ha1_subscriber. destruct (subscriber u dom) as [[|r0 rs]|]; try done. destruct (password r0) as [pw|] eqn:Ep; [|done].
  destruct (_ && _); [done|]. intros [= <- <-]. exists r0, rs, pw. split_and!; try done. unfold hash_of.
  destruct calc_ha1; [|done]. apply hash_bytes_put, H_length.
Qed.

(** C29: nobody is authorized without the password.  If [authorize] lets a request other
    than ACK and CANCEL pass, the request has credentials for the realm the script asks for
    (or, if it gives none, for the host of the request without the prefix), compared without
    regard to case; their nonce was made with the secret and has not expired; the database
    has a row with a password for the user; and the response is the digest of RFC 2617 of the
    request made from the hash of the user, this realm and the password or, if hashes are
    stored, from the first 32 bytes of the array the stored hash was copied into. *)
Theorem authorized_sound (m : request) (realm : option bytes) (mark_ok : bool) (now : Z) (stack hent : bytes) (mem : list (option Z))
    (l l' : list Avp.usr_avp) (stale : bool) :
  is_ack_or_cancel m = false -> authorize m realm mark_ok now stack hent mem l = Ret (AUTHORIZED, stale, l') ->
  exists h dom e r rs pw, In h (creds m) /\ realm ≫= realm_for m = Some dom /\ let c := digest h in
    AvpSpec.name_eq dom (txt (d_realm c)) /\ d_nonce c = Some (calc_nonce md5 e secret) /\ now <= e /\
    subscriber (d_username c) dom = Some (r :: rs) /\ password r = Some pw /\
    d_response c = Some (response_for c (method m) (hash_of (d_username c) dom pw stack) hent).
Proof.
  intros Hm. unfold Auth.authorize. destruct realm as [realm|]; [|done]. destruct (pre_auth _ _ _ m realm) as [[[[ret dom] c] o]|] eqn:Ep; [|done]. run.
  pose proof (pre_auth_not _ _ _ _ _ _ Hm Ep) as Hna. destruct ret; try done. destruct c as [c|]; [|done].
  apply pre_auth_found in Ep as (_ & (h & Hh & <- & _ & Hr) & _ & Hn & Hd).
  destruct (get_ha1 (d_username (digest h)) dom stack) as [[[rc ha1] r]|] eqn:Eg; [|done]. run.
  destruct (rc <? 0) eqn:E1; [done|]. destruct (rc >? 0) eqn:E2; [done|]. assert (rc = 0) as -> by lia.
  destruct (check_response _ _ _ _ _ =? 0) eqn:Ec; [|done]. apply Z.eqb_eq in Ec.
  destruct (d_nonce (digest h)) as [n|] eqn:En; [|done]. apply nonce_genuine in Hn as (e & He & ->).
  unfold post_auth. rewrite En. cbn [is_nonce_stale]. rewrite calc_nonce_expires by done. run. rewrite Hm.
  destruct (Z.ltb_spec e now); [by destruct mark_ok|]. intros _.
  destruct (get_ha1_hash _ _ _ _ _ Eg) as (r' & rs & pw & -> & Hs & Hpw & Hh1). exists h, dom, e, r', rs, pw. split_and!; auto.
  rewrite <-Hh1. by apply response_is.
Qed.

(** ** A client *)

(** The request-digest as RFC 2617 has it. *)
Definition request_digest (user realm pw nonce nc cnonce : bytes) (qop : bool) (meth uri : bytes) : bytes :=
  KD (H (user ++ B ":" ++ realm ++ B ":" ++ pw))
     (if qop then nonce ++ B ":" ++ nc ++ B ":" ++ cnonce ++ B ":" ++ B "auth" ++ B ":" ++ H (meth ++ B ":" ++ uri)
      else nonce ++ B ":" ++ H (meth ++ B ":" ++ uri)).

Definition answer (user realm pw nonce nc cnonce : bytes) (qop : bool) (meth uri : bytes) : dig_cred :=
  Dc (Un (Some user) (Some user) None) (Some realm) (Some nonce) (Some uri)
     (Some (request_digest user realm pw nonce nc cnonce qop meth uri)) (if qop then Some cnonce else None)
     (if qop then QOP_AUTH else QOP_UNSPEC) (if qop then Some (B "auth") else None) (if qop then Some nc else None).

Lemma response_request_digest user realm pw nonce nc cnonce qop meth uri hent :
  response_for (answer user realm pw nonce nc cnonce qop meth uri) meth (H (user ++ B ":" ++ realm ++ B ":" ++ pw)) hent
  = request_digest user realm pw nonce nc cnonce qop meth uri.
Proof. unfold response_for, request_digest. destruct qop; cbn [answer d_nonce d_nc d_cnonce d_qop_str d_qop d_uri txt default]; by rewrite app_nil_r. Qed.

Lemma answer_passes user realm pw nonce nc cnonce qop meth uri stack hent :
  check_response md5 (answer user realm pw nonce nc cnonce qop meth uri) meth (put_string (H (user ++ B ":" ++ realm ++ B ":" ++ pw)) stack) hent = 0.
Proof.
  unfold check_response. rewrite calc_response_for, hash_bytes_put, response_request_digest by apply H_length.
  change (txt (d_response _)) with (request_digest user realm pw nonce nc cnonce qop meth uri).
  assert (L : zlen (request_digest user realm pw nonce nc cnonce qop meth uri) = 32) by (unfold zlen, request_digest, KD; by rewrite H_length).
  rewrite L. change (negb (32 =? 32)) with false. cbn iota. by rewrite bool_decide_true.
Qed.

(** The headers before that of the realm. *)
Definition other_realm (realm : bytes) (h : cred_hdr) : Prop :=
  0 <= parse_rc h /\ next_fails h = false /\ (parse_rc h = 0 -> ~ AvpSpec.name_eq realm (txt (d_realm (digest h)))).

Lemma find_skips pre h hs realm : Forall (other_realm realm) pre -> find_loop (pre ++ h :: hs) realm = find_loop (h :: hs) realm.
Proof.
  induction 1 as [|x pre (H1 & H2 & H3) Hp IH]; [done|]. rewrite <-IH. clear IH. cbn [app find_loop]. rewrite (proj2 (Z.ltb_ge _ _) H1), H2.
  destruct (_ && _) eqn:E; [|done]. exfalso. apply andb_true_iff in E as [E E3]. apply andb_true_iff in E as [E1 E2]. apply Z.eqb_eq in E1, E2.
  apply (H3 E1). split; [done|]. apply AvpSpec.same_nocase_key; [unfold zlen in E2; lia|done].
Qed.

Lemma find_answer realm c nf hs : d_realm c = Some realm -> find_loop (Ch 0 c nf :: hs) realm = (0, Some c).
Proof.
  intros E. cbn [find_loop parse_rc digest]. rewrite E. change (0 <? 0) with false. change (0 =? 0) with true. change (txt (Some realm)) with realm. rewrite Z.eqb_refl.
  by rewrite (proj2 (AvpSpec.same_nocase_key realm realm eq_refl) eq_refl).
Qed.

(** C30: who answers the challenge in time is authorized.  The challenge has exactly the
    length computed for its buffer and names the nonce; a client that answers it with a
    digest as RFC 2617 has it, made from the user's password, is let pass until the nonce
    expires, with the user's columns stored as pairs, and is asked again with the flag
    [stale] after that.  The script gives the realm, not empty; the user name has no domain;
    the first row of the database for it has the password, or its hash if hashes are stored;
    the headers before that of the realm parse and are for others; the credentials can be
    marked; and the expiry fits an [int] ([nonces_stale]: otherwise the nonce has expired
    when it is made). *)
Theorem challenge_answered (m : request) (pre post : list cred_hdr) (nf stale qop : bool) (hf_name user realm pw nc cnonce meth uri stack hent : bytes)
    (t0 nonce_expire now : Z) (cols : list column) (rows : list row) (mem : list (option Z)) (l : list Avp.usr_avp) :
  0 <= t0 + nonce_expire < 2 ^ 31 -> realm <> [] ->
  is_ack_or_cancel m = false -> parse_fails m = false -> method m = meth ->
  query false user (if use_domain then Some realm else None)
    = Some (Row (Some (if calc_ha1 then pw else H (user ++ B ":" ++ realm ++ B ":" ++ pw))) cols :: rows) ->
  let nonce := calc_nonce md5 (s32 (t0 + nonce_expire)) secret in
  let hf := build_auth_hf md5 stale realm qop hf_name t0 nonce_expire secret in
  creds m = pre ++ Ch 0 (answer user realm pw nonce nc cnonce qop meth uri) nf :: post -> Forall (other_realm realm) pre ->
  zlen hf = auth_hf_len stale realm qop hf_name /\
  (exists a b, hf = a ++ B ", nonce=" ++ [quote] ++ nonce ++ [quote] ++ b) /\
  authorize m (Some realm) true now stack hent mem l
  = Ret (if now <=? t0 + nonce_expire then (AUTHORIZED, false, generate_avps mem credentials cols l) else (STALE_NONCE, true, l)).
Proof.
  intros Ht Hr Hm Hf Hme Hq nonce hf Hcr Hpre. split_and!.
  - unfold hf, build_auth_hf, auth_hf_len. rewrite !zlen_app, calc_nonce_length. destruct qop, stale; rewrite ?zlen_app; unfold zlen; simpl length; lia.
  - unfold hf, build_auth_hf. eexists (hf_name ++ B ": Digest realm=" ++ [quote] ++ realm ++ [quote]), _. rewrite <-!app_assoc. done.
  - assert (Hn : check_nonce md5 (Some nonce) secret = Ret 0).
    { apply nonce_genuine. eexists. split; [apply s32_range|done]. }
    assert (Hd : check_dig_cred (answer user realm pw nonce nc cnonce qop meth uri) = 0) by (by destruct qop).
    assert (Hp : pre_auth md5 realm_prefix secret m realm = Ret (DO_AUTHORIZATION, realm, Some (answer user realm pw nonce nc cnonce qop meth uri), None)).
    { unfold pre_auth. rewrite Hm, realm_for_eq. unfold realm_for. rewrite bool_decide_false by done.
      unfold find_credentials. rewrite Hf, Hcr, find_skips, find_answer by done.
      change (0 <? 0) with false. cbn iota. rewrite Hd. change (d_nonce _) with (Some nonce). rewrite Hn. done. }
    assert (Hg : get_ha1 (d_username (answer user realm pw nonce nc cnonce qop meth uri)) realm stack
                 = Ret (0, put_string (H (user ++ B ":" ++ realm ++ B ":" ++ pw)) stack, Some (Row (Some (if calc_ha1 then pw else H (user ++ B ":" ++ realm ++ B ":" ++ pw))) cols))).
    { rewrite get_ha1_subscriber. change (subscriber _ realm) with (query false user (if use_domain then Some realm else None)). rewrite Hq. cbn [password].
      destruct calc_ha1; [done|]. by rewrite (proj2 (Z.leb_gt _ _)) by (unfold zlen; by rewrite H_length). }
    unfold Auth.authorize. rewrite Hp. run. rewrite Hg. run.
    change (0 <? 0) with false. change (0 >? 0) with false. cbn iota. rewrite Hme, answer_passes. change (0 =? 0) with true. cbn iota.
    unfold post_auth. change (d_nonce _) with (Some nonce). cbn [is_nonce_stale]. unfold nonce. rewrite calc_nonce_expires by apply s32_range. run.
    rewrite s32_small by lia. rewrite Hm, Z.ltb_antisym. by destruct (now <=? t0 + nonce_expire).
Qed.

End Config.

(** A nonce for a time past the range of [int] has expired when it is made. *)
Lemma nonces_stale t0 nonce_expire secret : 0 <= t0 -> 2 ^ 31 <= t0 + nonce_expire < 2 ^ 32 ->
  is_nonce_stale (Some (calc_nonce md5 (s32 (t0 + nonce_expire)) secret)) t0 = Ret 1.
Proof.
  intros H0 Ht. cbn [is_nonce_stale]. rewrite calc_nonce_expires by apply s32_range. run. rewrite (proj2 (Z.ltb_lt _ _)); [done|].
  unfold s32. replace (t0 + nonce_expire + 2 ^ 31) with (t0 + nonce_expire - 2 ^ 31 + 1 * 2 ^ 32) by lia. rewrite Z.mod_add, Z.mod_small; lia.
Qed.

End Md5.

(** A stored hash that is too short is completed from the stack: what the digest starts from
    then depends on bytes that were never written. *)
Lemma short_hash_stack (pw : bytes) : (length pw < 31)%nat ->
  exists s1 s2, length s1 = 256%nat /\ length s2 = 256%nat /\ hash_bytes (put_string pw s1) <> hash_bytes (put_string pw s2).
Proof.
  intros Hl. exists (replicate 256 1), (replicate 256 2). split_and!; [apply length_replicate..|]. intros E.
  revert E. unfold hash_bytes, put_string. change (Z.to_nat HASHHEXLEN) with 32%nat. rewrite !drop_replicate, !take_app.
  intros E. apply app_inv_head in E. destruct (32 - length pw)%nat as [|[|n]] eqn:En; [lia..|].
  destruct (256 - S (length pw))%nat as [|m] eqn:Em; [lia|]. discriminate E.
Qed.

(** ** An example *)

Definition demo_md5 (x : bytes) : bytes := map (fun i => u8 (fold_left Z.add x i)) (seqZ 0 16).

Lemma demo_md5_length x : length (demo_md5 x) = 16%nat.
Proof. unfold demo_md5. by rewrite length_map, length_seqZ. Qed.

Definition demo_secret : bytes := B "topsecret".
Definition demo_nonce : bytes := calc_nonce demo_md5 (s32 (1000 + 300)) demo_secret.
Definition demo_answer : dig_cred :=
  answer demo_md5 (B "alice") (B "example.com") (B "wonder") demo_nonce (B "00000001") (B "abc") true (B "INVITE") (B "sip:bob@example.com").
Definition demo_request : request :=
  Rq (B "INVITE") false None false
    [Ch 0 (answer demo_md5 (B "al") (B "other.org") (B "x") (B "y") [] [] false (B "INVITE") (B "sip:bob@example.com")) false; Ch 0 demo_answer false].
Definition demo_query (calc : bool) (second : bool) (user : bytes) (dom : option bytes) : option (list row) :=
  if bool_decide (user = B "alice")
  then Some [Row (Some (if calc then B "wonder" else H demo_md5 (B "alice:example.com:wonder"))) [DB_INT false 7]] else Some [].
Definition demo_credentials : list (Z * Avp.int_str) := [(0, Avp.Num 5)].

Abbreviation demo_authorize calc now :=
  (authorize demo_md5 [] demo_secret calc false demo_credentials (demo_query calc) demo_request (Some (B "example.com")) true now [] [] [Some 77] []).

Lemma authorized_sound_witness : exists h dom e r rs pw, In h (creds demo_request) /\ dom = B "example.com" /\
    AvpSpec.name_eq dom (txt (d_realm (digest h))) /\ d_nonce (digest h) = Some (calc_nonce demo_md5 e demo_secret) /\ 1200 <= e /\
    subscriber true false (demo_query true) (d_username (digest h)) dom = Some (r :: rs) /\ password r = Some pw /\
    d_response (digest h) = Some (response_for demo_md5 (digest h) (B "INVITE") (hash_of demo_md5 true (d_username (digest h)) dom pw []) []).
Proof.
  destruct (authorized_sound demo_md5 demo_md5_length [] demo_secret true false demo_credentials (demo_query true) demo_request (Some (B "example.com")) true 1200
    [] [] [Some 77] [] [Avp.Avp 77 5 0 (Avp.DInt 7)] false) as (h & dom & e & r & rs & pw & H1 & H2 & H3); [reflexivity|vm_compute; reflexivity|].
  exists h, dom, e, r, rs, pw. split; [exact H1|]. split; [|exact H3]. injection H2 as <-. reflexivity.
Defined.

(** The same with the password and with its hash in the database. *)
Lemma challenge_answered_witness :
  demo_authorize true 1200 = Ret (AUTHORIZED, false, [Avp.Avp 77 5 0 (Avp.DInt 7)]) /\ demo_authorize true 1400 = Ret (STALE_NONCE, true, []) /\
  demo_authorize false 1200 = Ret (AUTHORIZED, false, [Avp.Avp 77 5 0 (Avp.DInt 7)]) /\ demo_authorize false 1400 = Ret (STALE_NONCE, true, []).
Proof.
  assert (A : forall calc now, demo_authorize calc now = Ret (if now <=? 1000 + 300 then (AUTHORIZED, false, generate_avps [Some 77] demo_credentials [DB_INT false 7] [])
                                                   else (STALE_NONCE, true, []))).
  { intros calc now. refine (proj2 (proj2 (challenge_answered demo_md5 demo_md5_length [] demo_secret calc false demo_credentials (demo_query calc) demo_request
      [Ch 0 (answer demo_md5 (B "al") (B "other.org") (B "x") (B "y") [] [] false (B "INVITE") (B "sip:bob@example.com")) false] [] false false true (B "WWW-Authenticate") (B "alice")
      (B "example.com") (B "wonder") (B "00000001") (B "abc") (B "INVITE") (B "sip:bob@example.com") [] [] 1000 300 now [DB_INT false 7] [] [Some 77] []
      _ _ _ _ _ _ _ _))); try reflexivity; try done.
    constructor; [|constructor]. split_and!; [done|done|]. intros _ [E _]. vm_compute in E. discriminate E. }
  split_and!; rewrite A; reflexivity.
Defined.

End AuthSpec.
